(* ===== verification/_CoqProject ===== *)
-Q . S2P
Prelude.v
Dma.v
Chain.v
ChainRing.v
ChainAlloc.v
ChainProps.v
Ooo.v
OooProps.v
Ptt.v
PttProps.v
Llh.v
RegBusPtt.v
LlhShadow.v
LlhHw.v
LlhProps.v
LlhEngine.v
LlhClaims.v
DbRec.v
DbRecProps.v
Dorq.v
DorqProps.v
Spq.v
SpqRing.v
SpqInv.v
SpqPost.v
SpqComp.v
SpqRun.v
SpqSetup.v
SpqReady.v
SpqProps.v
Cxt.v
CxtProps.v
CxtAlloc.v
CxtClaims.v
DmaEngine.v
DmaEngineProps.v
DmaEngineClaims.v
Mcp.v
McpRun.v
McpSteps.v
McpHonest.v
McpPtt.v
McpClaims.v
McpNvm.v
McpNvmProps.v
InitOps.v
InitProps.v
InitRt.v
InitRun.v
InitClaims.v
InitDmae.v
Rdma.v
RoceRun.v
RoceSpecs.v
RoceInv.v
RdmaProps.v
RdmaClaims.v
Vfpf.v
VfTlv.v
VfChan.v
VfVport.v
VfShadow.v
VfClaims.v
