(* ===== verification/Prelude.v ===== *)
(** * Verification of the FastLinQ [qed] core driver

    ** The program

    [qed] (src/qed-8.70.12.0/src) is the core module of the Marvell/QLogic
    FastLinQ drivers: it owns the device and offers queues, configuration
    requests, packet classification and recovery to the protocol drivers
    ([qede], [qedr], [qedi], [qedf]).  This library models the parts of it that
    keep state in the driver and share it with the device or between threads:

    - _Descriptor chains_ ([struct qed_chain]): the rings of pages all queues
      are made of.  Files [Dma] (the kernel's memory services), [Chain]
      (qed_chain.h, qed_chain.c and [qed_chain_alloc]/[qed_chain_free] of
      qed_dev.c), [ChainRing] (the ring specification), [ChainAlloc]
      (allocation), [ChainProps].
    - _Slow path queue and event queue_ (qed_spq.c, [qed_sp_init_request]
      and [qed_sp_destroy_request] of qed_sp_commands.c, [qed_int_register_cb] of
      qed_int.c): clients
      post requests to the firmware on a chain and are woken by completions on
      another.  [Spq] and [SpqSetup] hold the operations; [SpqRing] the
      accounting of the ring; [SpqInv] the invariant; [SpqPost], [SpqComp] and
      [SpqReady] the lemmas on posting, completing and setting up; [SpqRun] the
      transition system of clients, completions and time-outs; [SpqProps].
    - _Connection ids_ (qed_cxt.c): [Cxt] holds the bitmaps of connection ids
      per protocol and owner, [CxtAlloc] their allocation and the doorbell limits
      derived from them, [CxtProps] and [CxtClaims] their properties.
    - _Register access_ (qed_hw.c): the windows (PTT entries) onto the device's
      register space, pretending and block copies.  [Ptt], [PttProps].
    - _DMA engine_ (qed_hw.c): the commands of the engine (DMAE) that copies
      between host memory and the device's internal memory, the splitting of a
      transfer into commands and the wait for each completion.  [DmaEngine],
      [DmaEngineProps], [DmaEngineClaims].
    - _LLH filters_ (qed_dev.c): classification filters, their shadow with
      reference counts, engine affinity.  [Llh] holds the operations against the
      class [RegBus]; [LlhShadow], [LlhHw], [LlhProps] and [LlhEngine] prove the
      operations correct from the laws [RegBusLaws]: those of single accesses
      ([RegAccessLaws]) and of block transfers by the DMA engine, outside a
      recovery.  [RegBusPtt] shows that the register access layer of [Ptt] has the
      former; the latter are shown of a simulated engine.  [LlhClaims].
    - _Management firmware mailbox_ (qed_mcp.c): threads of the driver send
      commands to the firmware through a mailbox in device memory.  [Mcp] holds
      the operations over [RegBus] and the block copies of class [RegCopy];
      [McpRun] the transition system of threads and firmware and its invariant;
      [McpSteps] that every step keeps it; [McpHonest] firmware that answers;
      [McpPtt] that the register access layer provides [RegCopy]; [McpClaims];
      [McpNvm] and [McpNvmProps] the command wrappers and the NVRAM, PHY and SFP
      transfers built from them.
    - _Init tool_ (qed_init_ops.c, [qed_unzip_data] of qed_main.c): the
      interpreter of the device's init programs, from the firmware file or
      the runtime array.  [InitOps] holds it over the class [InitBus];
      [InitProps] the writes, [InitRt] the runtime array, [InitRun] one command,
      [InitClaims]; [InitDmae] has the self test of the DMA engine
      ([qed_dmae_sanity] of qed_hw.c) and shows that the engine of [DmaEngine]
      is an instance of [InitBus].
    - _RDMA resources and RoCE queue pairs_ (qed_rdma.c, qed_roce.c): ids from
      bitmaps under a spinlock, completion queues, shared receive queues, memory
      regions, and queue pairs with two connections each.  [Rdma] holds the
      operations as trees of actions ([proc]); [RoceRun] the machine of threads
      and firmware; [RoceSpecs] what each function needs and leaves; [RoceInv]
      the invariant; [RdmaProps] allocation and single calls; [RdmaClaims].
    - _Doorbell recovery_ (qed_dev.c) and _doorbell overflow_ (qed_int.c,
      qed_sriov.c, qed_main.c, qed_vf.c): the registry of doorbells ([DbRec],
      [DbRecProps]) and the handlers that ring them again after the device
      dropped some ([Dorq], [DorqProps]), for the PF and through the bulletin
      board for VFs.
    - _VF channel_ (qed_vf.c, qed_sriov.c): requests and responses as lists of
      TLVs between the driver of a virtual function and the PF, the bulletin the PF
      posts, and the filters the PF keeps for a VF.  [Vfpf] holds the operations;
      [VfTlv] the lists; [VfVport] the handler of vport updates; [VfChan] the machine
      of VF, channel and PF over any handlers that answer at most once
      ([vf_answer]); [VfShadow] filters and bulletins; [VfClaims].
    - _Out-of-order TCP segments_ (qed_ooo.c and the loopback receive handler
      of qed_ll2.c): [Ooo], [OooProps].

    Components interact as in the code.  The SPQ's ring and EQ are chains of
    [Chain] and its proofs use [ChainRing]; its set-up registers a doorbell with
    [DbRec]; the overflow handlers run [DbRec]'s recovery; the LLH code reaches
    registers through [RegBus], which [Ptt] implements, and so does the mailbox,
    whose block copies are those of [Ptt]; the transfers of [McpNvm] are written
    against the class [MfwRpc], the promise of one mailbox call; the init tool
    writes through [InitBus], which the DMA engine implements; the bitmaps of
    [Rdma] are those of [Cxt].

    ** How the code is modelled

    - A C integer is a [Z]; every assignment to a [u8], [u16], [u32] or [u64]
      goes through the wrap of that width, so overflow is visible.
    - A struct is a record with the source's field names, an enum an inductive
      type, a function a definition over the state of its component that returns
      the C return value and the new state.  The result [None] is a fault: a null
      dereference, an array or memory access out of range, a use after free, a
      corrupt list, a division by zero.  A theorem that concludes [= Some _] says
      that there is no fault.
    - A region that holds a lock is one step; where threads interleave between
      such regions ([SpqRun], [DorqProps], [McpRun], [RoceRun], [VfChan]) the regions are separate operations of
      a transition system and the theorems quantify over its runs.
    - What is not in the repository is a parameter: the device ([PxpDevice],
      [DorqDev], [Dmae], [InitBus]), zlib ([inflate] in [InitOps]), the outcomes
      of ramrods, ILT and DMA allocations in [Rdma], the kernel's [crc32] in [Vfpf], the management firmware (steps of the environment in
      [McpRun], the class [MfwRpc] in [McpNvm]), the memory allocators (an oracle of outcomes and
      addresses in [Dma] and elsewhere), the callbacks of clients.  Their
      documented behaviour is stated as laws of a class, with a simulated
      instance on which the theorems are applied.
    - Prints, statistics that are only printed and the byte-order conversions of
      a big-endian host are left out.  The machine is little-endian.

    ** What the theorems show

    - Chains: through any sequence of produce, consume and return operations and
      any number of wraps of the 16- or 32-bit indices, in the three page
      layouts, a chain is a ring with two unbounded counters; the number of free
      elements is exact within stated limits on size and use; allocation builds
      that ring or gives everything back.
    - SPQ: in every orderly run of any number of clients no operation faults, the
      ring never overruns, entries in flight are not reused, each completion goes to
      the client that posted the request; posting moves every waiting entry that
      fits; completions of the EQ are each handled once, in order.  Orderly
      ([orderly] of [SpqRun]) excludes three orders of steps that the code allows
      and a recovery; that each of the three breaks the property is proved.
    - Connection ids: an id is handed out from the range of its protocol and
      owner, lowest first, never twice, and is free again exactly after its
      release; ranges are consecutive and disjoint; a failed allocation leaks
      nothing.  A release for the VF past the last faults, and nothing else does.
    - Register access: a write or read through any window reaches exactly the
      register named, as the function pretended; cached positions stay coherent;
      copies of any length round-trip; a PTT entry has one owner.
    - DMA engine: a transfer of any length, split as the code splits it, moves
      exactly the words asked for, in order, and nothing else; a write read back
      gives the words written; an engine that does not answer is reported.  Stale
      completion words, null addresses, two virtual addresses and transfers of 2^29
      dwords are excluded; in a recovery nothing is moved and 0 returned.
    - Mailbox: whatever the firmware does, no run of any number of threads
      faults, at most one command is outstanding and each call ends within a
      stated number of its own steps; with firmware that answers, a call returns
      the answer to its own command; what is written to the NVRAM reads back.
    - Init tool: a program of nested mode and phase blocks is run as it reads;
      a write command puts the words of its source in its registers and changes
      nothing else, whichever way they travel; the DMA engine's self test tells
      an engine that works.
    - RDMA: in every run of any number of threads and of the firmware, a
      connection is created only when the firmware has finished with it and
      modified or destroyed only while it has it; the offload flags of a queue
      pair are exact; a completion queue or shared receive queue is created or
      nothing changes; allocation and release balance.  The hypotheses are that
      connection ids begin at 0 (the physical function), that a ramrod is reported
      as done when and only when it was executed, and that after a failed modify a
      thread goes to the error state ([careful_step] of [RoceRun]); the runs that
      break without them are proved.
    - LLH: the shadow is a table of reference counts; the enabled filters of the
      chip are those of the shadow after every run, up to the first add or clear
      whose DMAE transfer fails.
    - Doorbells: the registry refines a list of doorbells, but for those at the end
      of the BAR, which it refuses; recovery rings all of
      them, and an overflow noted or still sticky is never lost by the periodic
      handler run on its own.  Two interleavings that do lose one are proved.
    - Out of order: the store refines lists of isles; no buffer is lost or
      duplicated; joined isles keep the stream's order.
    - VF channel: a list of TLVs is found again by the other side, and the search
      ends on any bytes; as long as the VF does not give up and transfers do not
      fail, it takes only the response to its own request; a vport update is answered
      with an entry for each TLV it has; the bulletin posted is the one read; VLANs
      are a bag of at most three; what the PF forces reaches neither the firmware nor
      the shadow.
    - Each defect found is a closed theorem that evaluates the code on an input.

    ** Fuel and bounds

    Recursion is structural on lists or on a counter.  Where the C loop has no
    counter, the fuel is a bound on its iterations that is proved sufficient:
    [memcpy_fuel] (one window or less per iteration), [eq_fuel] ([2^16], the EQ's
    16-bit indices), [bmap_fuel] (257, one more than the completion bitmap),
    [vf_loop_fuel] (193, one more than the VFs of a device), the lengths of the
    waiting lists in the posting loops, [split_fuel] ([2^16 + 1], the parts of a
    DMAE transfer, counted in 16 bits), the number of bytes in the NVRAM loops, [rt_fuel] ([2^17], twice the 16-bit
    indices of a runtime write), [mode_fuel] ([2^16], the bytes of the mode tree),
    the number of commands of an init program, [search_fuel] (1026, more than the
    bytes of a TLV buffer).  Bounds of the source keep their value:
    1000 tries for a PTT entry, 1000 polls of a flush, 10000 polls of a DMAE
    completion, 16 filters per bank, 8 connection types, 200 tries for the
    connections of a queue pair.

    ** Not modelled

    The other drivers of the repository ([qede], [qedr], [qedf], [qedi]) and the
    rest of [qed].  Generated tables (qed_reg_addr.h, qed_hsi.h,
    qed_init_values*.h) hold data and no logic.  Device bring-up, the debug
    dumps, the storage back ends and DCBX are mostly register programming whose
    meaning is the device's.  Of the mailbox's users, firmware events, the load
    handshake and the commands that fill or read large structures are left out,
    as are the emulation stubs.  Of RDMA, the attributes that only fill ramrods, the registration of
    memory, queries, start-up, iWARP and virtual functions are left out.  The init
    firmware functions (qed_init_fw_funcs.c) compute register values in layouts of
    the firmware.  Of SR-IOV, the request handlers but those of unicast filters and
    vport updates are a parameter, any function to an answer; enabling VFs, their queues and their
    reset are left out.  The IGU, the ILT part of the context manager and
    the Tx/Rx data path of LL2 keep state and could be modelled on top of these
    files. *)

From Stdlib Require Export ZArith Lia.
From stdpp Require Export base gmap list numbers option.

#[global] Open Scope Z_scope.

(** ** Machine integers

    A C unsigned integer of width [w] is a [Z] kept in [[0, 2^w)]; every
    assignment to a field or variable of such a type goes through one of the
    wraps below. *)

Definition u8 (z : Z) : Z := z mod 2 ^ 8.
Definition u16 (z : Z) : Z := z mod 2 ^ 16.
Definition u32 (z : Z) : Z := z mod 2 ^ 32.
Definition u64 (z : Z) : Z := z mod 2 ^ 64.

(** The bitwise complement of an [int]-promoted value stored in a [u32]. *)
Definition not32 (z : Z) : Z := u32 (Z.lnot z).

(** ** Return codes (Linux errno values, negated by the callers) *)

Definition EAGAIN : Z := 11.
Definition ENOMEM : Z := 12.
Definition EBUSY : Z := 16.
Definition EEXIST : Z := 17.
Definition EINVAL : Z := 22.
Definition EOPNOTSUPP : Z := 95.

Declare Scope qed_scope.
Delimit Scope qed_scope with qed.

(** ** Automation *)

Create HintDb qed discriminated.

(** Case analysis on the boolean comparisons of the program. *)
Ltac zbool :=
  repeat match goal with
  | H : (_ <? _) = true |- _ => apply Z.ltb_lt in H
  | H : (_ <? _) = false |- _ => apply Z.ltb_ge in H
  | H : (_ <=? _) = true |- _ => apply Z.leb_le in H
  | H : (_ <=? _) = false |- _ => apply Z.leb_gt in H
  | H : (_ =? _) = true |- _ => apply Z.eqb_eq in H
  | H : (_ =? _) = false |- _ => apply Z.eqb_neq in H
  | H : (_ && _)%bool = true |- _ => apply andb_prop in H; destruct H
  | H : negb _ = true |- _ => apply negb_true_iff in H
  | H : negb _ = false |- _ => apply negb_false_iff in H
  end.

(** Split the [if]s of a goal (or of every hypothesis) over boolean tests. *)
Ltac zcases :=
  repeat match goal with
  | |- context [if ?b then _ else _] =>
      match type of b with bool => destruct b eqn:? end
  end; zbool.

(** Close a goal about an option-valued computation by rewriting the
    equations of the context into it. *)
Ltac run_eqs :=
  repeat match goal with H : _ = _ |- _ => rewrite H end; simpl.

(** ** Functional update of C structures

    [r <| f := v |>] is [r] with the field [f] overwritten, the model of the
    assignment [r->f = v].  A record type declares its eta-expansion once
    ([Settable]); the setter of each field is found by abstracting that field
    in the expansion. *)

Class Settable (R : Type) := settable : R -> R.
Class Setter {R A : Type} (f : R -> A) := setter : (A -> A) -> R -> R.

Ltac derive_setter :=
  lazymatch goal with
  | |- @Setter ?R ?A ?f =>
      let g := fresh "g" in let r := fresh "r" in
      intros g r;
      let e := eval hnf in (@settable R _ r) in
      let p := eval pattern (f r) in e in
      lazymatch p with
      | ?h _ => let t := eval cbv beta in (h (g (f r))) in exact t
      end
  end.

#[export] Hint Extern 0 (Setter _) => derive_setter : typeclass_instances.

Notation "r <| f := v |>" := (setter (f := f) (fun _ => v) r)
  (at level 12, left associativity, f at level 9, v at level 99,
   format "r <| f  :=  v |>") : qed_scope.
#[global] Open Scope qed_scope.

(** ** Machine-integer lemmas *)

Lemma u8_bound z : 0 <= u8 z < 2 ^ 8.
Proof. apply Z.mod_pos_bound. lia. Qed.
Lemma u16_bound z : 0 <= u16 z < 2 ^ 16.
Proof. apply Z.mod_pos_bound. lia. Qed.
Lemma u32_bound z : 0 <= u32 z < 2 ^ 32.
Proof. apply Z.mod_pos_bound. lia. Qed.
Lemma u64_bound z : 0 <= u64 z < 2 ^ 64.
Proof. apply Z.mod_pos_bound. lia. Qed.

Lemma u8_small z : 0 <= z < 2 ^ 8 -> u8 z = z.
Proof. apply Z.mod_small. Qed.
Lemma u16_small z : 0 <= z < 2 ^ 16 -> u16 z = z.
Proof. apply Z.mod_small. Qed.
Lemma u32_small z : 0 <= z < 2 ^ 32 -> u32 z = z.
Proof. apply Z.mod_small. Qed.
Lemma u64_small z : 0 <= z < 2 ^ 64 -> u64 z = z.
Proof. apply Z.mod_small. Qed.

#[export] Hint Resolve u8_bound u16_bound u32_bound u64_bound : qed.

(** Drop the wraps of values known to be in range. *)
Ltac wrap_small :=
  repeat match goal with
  | |- context [u8 ?v] => rewrite (u8_small v) by lia
  | |- context [u16 ?v] => rewrite (u16_small v) by lia
  | |- context [u32 ?v] => rewrite (u32_small v) by lia
  | |- context [u64 ?v] => rewrite (u64_small v) by lia
  end.

(** [x & (2^k - 1)] is [x mod 2^k]: the driver masks ring indices this way. *)
Lemma land_pow2_mask x k : 0 <= k -> Z.land x (2 ^ k - 1) = x mod 2 ^ k.
Proof. intros. rewrite <- (Z.land_ones x k) by lia. f_equal. rewrite Z.ones_equiv. lia. Qed.

(** Clearing the low [k] bits of a 32-bit value. *)
Lemma land_not_mask x k :
  0 <= k <= 32 -> 0 <= x < 2 ^ 32 ->
  Z.land x (not32 (2 ^ k - 1)) = (x / 2 ^ k) * 2 ^ k.
Proof.
  intros Hk Hx. unfold not32, u32.
  rewrite <- Z.land_ones by lia.
  rewrite (Z.land_comm (Z.lnot _)), Z.land_assoc, Z.land_ones by lia.
  rewrite (Z.mod_small x) by lia.
  replace (2 ^ k - 1) with (Z.ones k) by (rewrite Z.ones_equiv; lia).
  change (Z.land x (Z.lnot (Z.ones k))) with (Z.land x (Z.lnot (Z.ones k))).
  rewrite <- Z.ldiff_land, Z.ldiff_ones_r by lia.
  rewrite Z.shiftl_mul_pow2, Z.shiftr_div_pow2 by lia. reflexivity.
Qed.

Lemma mod_mod_pow2 x a b : 0 <= a <= b -> (x mod 2 ^ b) mod 2 ^ a = x mod 2 ^ a.
Proof.
  intros. apply Z.mod_mod_divide.
  exists (2 ^ (b - a)). rewrite <- Z.pow_add_r by lia. f_equal. lia.
Qed.

Lemma div_unique_pos a b q r : 0 <= r < b -> a = b * q + r -> a / b = q.
Proof. intros. symmetry. apply (Z.div_unique_pos a b q r); lia. Qed.
Lemma mod_unique_pos a b q r : 0 <= r < b -> a = b * q + r -> a mod b = r.
Proof. intros. symmetry. apply (Z.mod_unique_pos a b q r); lia. Qed.

(** A disjunction of [n]-bit values has [n] bits. *)
Lemma lor_bound a b n : 0 <= a < 2 ^ n -> 0 <= b < 2 ^ n -> 0 <= Z.lor a b < 2 ^ n.
Proof.
  intros Ha Hb. destruct (Z.le_gt_cases 0 n) as [Hn|Hn]; [|rewrite Z.pow_neg_r in Ha by done; lia].
  assert (E : Z.lor a b / 2 ^ n = 0).
  { rewrite <- Z.shiftr_div_pow2, Z.shiftr_lor, !Z.shiftr_div_pow2, !Z.div_small by lia. done. }
  split; [apply Z.lor_nonneg; lia|].
  apply Z.div_small_iff in E; lia.
Qed.
