(* ===== verification/Dma.v ===== *)
(** * Kernel memory services used by the ring-buffer code

    The driver gets its ring pages from [dma_alloc_coherent], its page tables
    from [vzalloc], and gives them back with [dma_free_coherent] and [vfree].
    The allocators themselves are not part of the repository: which addresses
    they hand out, and when they fail, is the [oracle] of the state below and
    stays arbitrary.  What the model fixes is their documented contract: a
    returned block is not NULL, is disjoint from every live block and is
    zero-filled, and a block is freed with the size and addresses it was
    allocated with.  An access outside a live block is a fault ([None]). *)

From S2P Require Import Prelude.

(** [struct regpair]: a 64-bit bus address as two 32-bit halves. *)
Record regpair := mk_regpair { rp_lo : Z; rp_hi : Z }.

(** [DMA_REGPAIR_LE(x, val)] and [HILO_DMA_REGPAIR(x)]. *)
Definition DMA_REGPAIR_LE (v : Z) : regpair :=
  mk_regpair (u32 v) (u32 (Z.shiftr v 32)).
Definition HILO_DMA_REGPAIR (r : regpair) : Z :=
  u64 (Z.shiftl (rp_hi r) 32 + rp_lo r).

(** [struct qed_chain_next]: the element that links a ring page to the next. *)
Record qed_chain_next := mk_qed_chain_next {
  next_phys : regpair;
  next_virt : Z
}.
Definition sizeof_qed_chain_next : Z := 16.
Definition zero_next : qed_chain_next := mk_qed_chain_next (mk_regpair 0 0) 0.

Record dma_mem := mk_dma_mem {
  oracle : list (Z * Z);           (* answers of dma_alloc_coherent to come: virtual, bus *)
  live : gmap Z (Z * Z);           (* live blocks: virtual address -> size, bus address *)
  cells : gmap Z qed_chain_next;   (* next-pointer elements written into live blocks *)
  pbl_cells : gmap Z Z;            (* dma_addr_t entries written into live blocks *)
  vz_oracle : list bool;           (* answers of vzalloc to come: success or NULL *)
  vz_live : Z                      (* tables obtained from vzalloc and not yet freed *)
}.

#[export] Instance eta_dma_mem : Settable dma_mem := fun r =>
  mk_dma_mem (oracle r) (live r) (cells r) (pbl_cells r) (vz_oracle r) (vz_live r).

(** The byte range [[a, a+n)] lies inside a live block. *)
Definition in_block (a n : Z) (v : Z) (b : Z * Z) : Prop :=
  v <= a /\ a + n <= v + b.1.
#[export] Instance in_block_dec a n v b : Decision (in_block a n v b).
Proof. unfold in_block. apply _. Defined.

Definition mapped (m : dma_mem) (a n : Z) : bool :=
  bool_decide (map_Exists (in_block a n) (live m)).

(** The block [[v, v+sz)] is disjoint from a live block. *)
Definition disjoint_block (v sz : Z) (v' : Z) (b : Z * Z) : Prop :=
  v + sz <= v' \/ v' + b.1 <= v.
#[export] Instance disjoint_block_dec v sz v' b : Decision (disjoint_block v sz v' b).
Proof. unfold disjoint_block. apply _. Defined.

Definition fresh_block (m : dma_mem) (v sz : Z) : bool :=
  (0 <? v) && bool_decide (live m !! v = None)
  && bool_decide (map_Forall (disjoint_block v sz) (live m)).

(** Zero-filling a block forgets what an earlier owner stored in it. *)
Definition zero_fill {A} (v sz : Z) (c : gmap Z A) : gmap Z A :=
  filter (fun kv => ~ (v <= kv.1 < v + sz)) c.

(** [dma_alloc_coherent(dev, sz, &phys, GFP_KERNEL)]: NULL (0) or the virtual
    address of a fresh zeroed block, with its bus address. *)
Definition dma_alloc_coherent (sz : Z) (m : dma_mem) : Z * Z * dma_mem :=
  match oracle m with
  | [] => (0, 0, m)
  | (v, p0) :: rest =>
      let m := m <| oracle := rest |> in
      let p := u64 p0 in
      if fresh_block m v sz
      then (v, p, m <| live := <[v := (sz, p)]> (live m) |>
                    <| cells := zero_fill v sz (cells m) |>
                    <| pbl_cells := zero_fill v sz (pbl_cells m) |>)
      else (0, 0, m)
  end.

(** [dma_free_coherent(dev, sz, virt, phys)]: faults unless exactly this
    block is live. *)
Definition dma_free_coherent (sz v p : Z) (m : dma_mem) : option dma_mem :=
  match live m !! v with
  | Some (sz', p') =>
      if (sz =? sz') && (p =? p') then Some (m <| live := delete v (live m) |>)
      else None
  | None => None
  end.

(** [vzalloc] of [sz] bytes used as a table of 8-byte pointers (a zero-sized
    request is refused), and [vfree]. *)
Definition vzalloc_tbl (sz : Z) (m : dma_mem) : option (list Z) * dma_mem :=
  if sz =? 0 then (None, m) else
  match vz_oracle m with
  | true :: rest =>
      (Some (replicate (Z.to_nat (sz / 8)) 0),
       m <| vz_oracle := rest |> <| vz_live := vz_live m + 1 |>)
  | false :: rest => (None, m <| vz_oracle := rest |>)
  | [] => (None, m)
  end.
Definition vfree_tbl (m : dma_mem) : dma_mem := m <| vz_live := vz_live m - 1 |>.

(** Typed loads and stores inside live blocks. *)
Definition read_next (m : dma_mem) (a : Z) : option qed_chain_next :=
  if mapped m a sizeof_qed_chain_next then Some (default zero_next (cells m !! a)) else None.
Definition write_next (a : Z) (n : qed_chain_next) (m : dma_mem) : option dma_mem :=
  if mapped m a sizeof_qed_chain_next then Some (m <| cells := <[a := n]> (cells m) |>) else None.
Definition read_pbl (m : dma_mem) (a : Z) : option Z :=
  if mapped m a 8 then Some (default 0 (pbl_cells m !! a)) else None.
Definition write_pbl (a p : Z) (m : dma_mem) : option dma_mem :=
  if mapped m a 8 then Some (m <| pbl_cells := <[a := p]> (pbl_cells m) |>) else None.

(** ** Lemmas *)

(** The split of a bus address into a register pair is lossless. *)
Lemma regpair_roundtrip v : 0 <= v < 2 ^ 64 -> HILO_DMA_REGPAIR (DMA_REGPAIR_LE v) = v.
Proof.
  intros Hv. unfold HILO_DMA_REGPAIR, DMA_REGPAIR_LE; simpl.
  rewrite Z.shiftr_div_pow2, Z.shiftl_mul_pow2 by lia.
  rewrite (u32_small (v / 2 ^ 32)).
  - unfold u32. rewrite u64_small; pose proof (Z.div_mod v (2 ^ 32)); lia.
  - split; [apply Z.div_pos; lia | apply Z.div_lt_upper_bound; lia].
Qed.

Lemma mapped_intro m v b a n :
  live m !! v = Some b -> v <= a -> a + n <= v + b.1 -> mapped m a n = true.
Proof. intros Hl H1 H2. apply bool_decide_eq_true_2. by exists v, b. Qed.

Lemma dma_alloc_inv sz m v p m' :
  dma_alloc_coherent sz m = (v, p, m') -> v <> 0 ->
  fresh_block m v sz = true /\ live m' = <[v := (sz, p)]> (live m) /\
  cells m' = zero_fill v sz (cells m) /\ pbl_cells m' = zero_fill v sz (pbl_cells m) /\
  vz_live m' = vz_live m /\ vz_oracle m' = vz_oracle m /\ 0 <= p < 2 ^ 64.
Proof.
  unfold dma_alloc_coherent. destruct (oracle m) as [|[v0 p0] rest]; [naive_solver|].
  destruct (fresh_block _ v0 sz) eqn:E; intros [= <- <- <-] Hv; [|done].
  repeat split; auto; apply u64_bound.
Qed.

Lemma dma_alloc_null sz m v p m' :
  dma_alloc_coherent sz m = (v, p, m') -> v = 0 ->
  live m' = live m /\ cells m' = cells m /\ pbl_cells m' = pbl_cells m /\
  vz_live m' = vz_live m /\ vz_oracle m' = vz_oracle m.
Proof.
  unfold dma_alloc_coherent. destruct (oracle m) as [|[v0 p0] rest]; [naive_solver|].
  destruct (fresh_block _ v0 sz) eqn:E; intros [= <- <- <-] Hv; [|done].
  exfalso. unfold fresh_block in E. zbool. lia.
Qed.

Lemma fresh_block_spec m v sz :
  fresh_block m v sz = true <->
  0 < v /\ live m !! v = None /\
  forall v' b, live m !! v' = Some b -> v + sz <= v' \/ v' + b.1 <= v.
Proof.
  unfold fresh_block. rewrite !andb_true_iff, Z.ltb_lt, !bool_decide_eq_true.
  unfold map_Forall, disjoint_block. naive_solver.
Qed.

Lemma lookup_zero_fill {A} v sz (c : gmap Z A) a :
  zero_fill v sz c !! a = if bool_decide (v <= a < v + sz) then None else c !! a.
Proof.
  unfold zero_fill. case_bool_decide.
  - apply map_lookup_filter_None. right. simpl. naive_solver.
  - destruct (c !! a) as [x|] eqn:E.
    + by apply map_lookup_filter_Some.
    + apply map_lookup_filter_None. by left.
Qed.
