(* ===== verification/Chain.v ===== *)
(** * The ring buffer [struct qed_chain] (qed_chain.h, qed_chain.c, qed_dev.c)

    Every queue the driver shares with the device (slow-path queue, event
    queue, Rx/Tx rings) is a chain of pages holding fixed-size elements, with
    a producer and a consumer kept as a free-running index, an element pointer
    and, for page-table rings, a page index.  This file translates the data
    and every operation; [ChainRing] proves that they implement a ring and
    [ChainAlloc] that allocation and release are correct. *)

From S2P Require Import Prelude Dma.

Inductive qed_chain_mode :=
  | QED_CHAIN_MODE_NEXT_PTR   (* each page ends with a pointer to the next *)
  | QED_CHAIN_MODE_SINGLE     (* a single page *)
  | QED_CHAIN_MODE_PBL.       (* page pointers are in a side table *)

Inductive qed_chain_use_mode :=
  | QED_CHAIN_USE_TO_PRODUCE
  | QED_CHAIN_USE_TO_CONSUME
  | QED_CHAIN_USE_TO_CONSUME_PRODUCE.

Inductive qed_chain_cnt_type :=
  | QED_CHAIN_CNT_TYPE_U16
  | QED_CHAIN_CNT_TYPE_U32.

#[export] Instance qed_chain_mode_eq_dec : EqDecision qed_chain_mode.
Proof. solve_decision. Defined.
#[export] Instance qed_chain_use_mode_eq_dec : EqDecision qed_chain_use_mode.
Proof. solve_decision. Defined.
#[export] Instance qed_chain_cnt_type_eq_dec : EqDecision qed_chain_cnt_type.
Proof. solve_decision. Defined.

(** The unions [u] and [pbl.c] overlay two 16-bit indices on two 32-bit ones.
    They are kept as the two 32-bit words of the union, little-endian: the
    16-bit view is the two halves of the first word. *)
Record idx_union := mk_idx_union { w0 : Z; w1 : Z }.
#[export] Instance eta_idx_union : Settable idx_union := fun r => mk_idx_union (w0 r) (w1 r).

Definition prod16 (x : idx_union) : Z := w0 x mod 2 ^ 16.
Definition cons16 (x : idx_union) : Z := (w0 x / 2 ^ 16) mod 2 ^ 16.
Definition prod32 (x : idx_union) : Z := w0 x.
Definition cons32 (x : idx_union) : Z := w1 x.
Definition set_prod16 (v : Z) (x : idx_union) : idx_union := x <| w0 := cons16 x * 2 ^ 16 + u16 v |>.
Definition set_cons16 (v : Z) (x : idx_union) : idx_union := x <| w0 := u16 v * 2 ^ 16 + prod16 x |>.
Definition set_prod32 (v : Z) (x : idx_union) : idx_union := x <| w0 := u32 v |>.
Definition set_cons32 (v : Z) (x : idx_union) : idx_union := x <| w1 := u32 v |>.

Record qed_chain := mk_qed_chain {
  p_prod_elem : Z;
  p_cons_elem : Z;
  pp_virt_addr_tbl : option (list Z);    (* NULL is None *)
  pbl_c : idx_union;
  u : idx_union;
  capacity : Z;
  page_cnt : Z;
  mode : qed_chain_mode;
  elem_per_page : Z;
  elem_per_page_mask : Z;
  elem_size : Z;
  next_page_mask : Z;
  usable_per_page : Z;
  elem_unusable : Z;
  cnt_type : qed_chain_cnt_type;
  page_size : Z;
  p_phys_table : Z;
  p_virt_table : Z;
  p_virt_addr : Z;
  p_phys_addr : Z;
  chain_size : Z;
  intended_use : qed_chain_use_mode;
  b_external_pbl : bool;
  dp_ctx : Z
}.

#[export] Instance eta_qed_chain : Settable qed_chain := fun r =>
  mk_qed_chain (p_prod_elem r) (p_cons_elem r) (pp_virt_addr_tbl r) (pbl_c r) (u r)
    (capacity r) (page_cnt r) (mode r) (elem_per_page r) (elem_per_page_mask r)
    (elem_size r) (next_page_mask r) (usable_per_page r) (elem_unusable r)
    (cnt_type r) (page_size r) (p_phys_table r) (p_virt_table r) (p_virt_addr r)
    (p_phys_addr r) (chain_size r) (intended_use r) (b_external_pbl r) (dp_ctx r).

(** [struct qed_chain_ext_pbl] and [struct qed_chain_params]. *)
Record qed_chain_ext_pbl := mk_qed_chain_ext_pbl { p_pbl_phys : Z; p_pbl_virt : Z }.
Record qed_chain_params := mk_qed_chain_params {
  par_intended_use : qed_chain_use_mode;
  par_mode : qed_chain_mode;
  par_cnt_type : qed_chain_cnt_type;
  par_num_elems : Z;
  par_elem_size : Z;
  par_page_size : Z;
  par_ext_pbl : option qed_chain_ext_pbl
}.

Definition QED_CHAIN_PBL_ENTRY_SIZE : Z := 8.
Definition QED_CHAIN_PAGE_SIZE : Z := 0x1000.
Definition QED_U16_MAX : Z := 0xffff.
Definition QED_U32_MAX : Z := 0xffffffff.

(** Page geometry macros. *)
Definition ELEMS_PER_PAGE (page_size elem_size : Z) : Z := page_size / elem_size.
Definition UNUSABLE_ELEMS_PER_PAGE (elem_size : Z) (mode : qed_chain_mode) : Z :=
  match mode with
  | QED_CHAIN_MODE_NEXT_PTR => u8 (1 + (sizeof_qed_chain_next - 1) / elem_size)
  | _ => 0
  end.
Definition USABLE_ELEMS_PER_PAGE (elem_size page_size : Z) (mode : qed_chain_mode) : Z :=
  u32 (ELEMS_PER_PAGE page_size elem_size - UNUSABLE_ELEMS_PER_PAGE elem_size mode).
(** [DIV_ROUND_UP] on two [u32] operands. *)
Definition DIV_ROUND_UP32 (n d : Z) : Z := u32 (n + d - 1) / d.
Definition QED_CHAIN_PAGE_CNT (elem_cnt elem_size page_size : Z) (mode : qed_chain_mode) : Z :=
  DIV_ROUND_UP32 elem_cnt (USABLE_ELEMS_PER_PAGE elem_size page_size mode).

Definition is_chain_u16 (c : qed_chain) : bool :=
  bool_decide (cnt_type c = QED_CHAIN_CNT_TYPE_U16).
Definition is_chain_u32 (c : qed_chain) : bool :=
  bool_decide (cnt_type c = QED_CHAIN_CNT_TYPE_U32).

(** Accessors. *)
Definition qed_chain_get_prod_idx (c : qed_chain) : Z := prod16 (u c).
Definition qed_chain_get_cons_idx (c : qed_chain) : Z := cons16 (u c).
Definition qed_chain_get_cons_idx_u32 (c : qed_chain) : Z := cons32 (u c).
Definition qed_chain_get_usable_per_page (c : qed_chain) : Z := usable_per_page c.
Definition qed_chain_get_unusable_per_page (c : qed_chain) : Z := elem_unusable c.
Definition qed_chain_get_page_cnt (c : qed_chain) : Z := page_cnt c.
Definition qed_chain_get_pbl_phys (c : qed_chain) : Z := p_phys_table c.
Definition qed_chain_get_capacity (c : qed_chain) : Z := capacity c.

Definition qed_chain_get_elem_left (c : qed_chain) : Z :=
  let prod := prod16 (u c) in
  let cons := cons16 (u c) in
  let prod := if prod <? cons then u32 (prod + (QED_U16_MAX + 1)) else prod in
  let used := u16 (u32 (prod - cons)) in
  let used := match mode c with
              | QED_CHAIN_MODE_NEXT_PTR =>
                  u16 (used - u32 (prod / elem_per_page c - cons / elem_per_page c))
              | _ => used
              end in
  u16 (u32 (capacity c - used)).

Definition qed_chain_get_elem_left_u32 (c : qed_chain) : Z :=
  let prod := prod32 (u c) in
  let cons := cons32 (u c) in
  let prod := if prod <? cons then u64 (prod + (QED_U32_MAX + 1)) else prod in
  let used := u32 (u64 (prod - cons)) in
  let used := match mode c with
              | QED_CHAIN_MODE_NEXT_PTR =>
                  u32 (used - u32 (u64 (prod / elem_per_page c - cons / elem_per_page c)))
              | _ => used
              end in
  u32 (capacity c - used).

(** [qed_chain_advance_page]: the by-reference parameters [p_next_elem],
    [idx_to_inc] and [page_to_inc] are passed by value and returned. *)
Definition qed_chain_advance_page (m : dma_mem) (c : qed_chain)
    (p_next_elem idx_to_inc page_to_inc : Z) : option (Z * Z * Z) :=
  match mode c with
  | QED_CHAIN_MODE_NEXT_PTR =>
      p_next ← read_next m p_next_elem;
      Some (next_virt p_next,
            if is_chain_u16 c then u16 (idx_to_inc + u16 (elem_unusable c))
            else u32 (idx_to_inc + u16 (elem_unusable c)),
            page_to_inc)
  | QED_CHAIN_MODE_SINGLE => Some (p_virt_addr c, idx_to_inc, page_to_inc)
  | QED_CHAIN_MODE_PBL =>
      let page := if is_chain_u16 c then u16 (page_to_inc + 1) else u32 (page_to_inc + 1) in
      let page := if page =? page_cnt c then 0 else page in
      tbl ← pp_virt_addr_tbl c;
      p ← tbl !! Z.to_nat page;
      Some (p, idx_to_inc, page)
  end.

(** [is_unusable_idx] and [test_and_skip] on an index value of the chain. *)
Definition is_unusable_idx (c : qed_chain) (idx : Z) : bool :=
  Z.land idx (elem_per_page_mask c) =? usable_per_page c.

Definition test_and_skip_cons (c : qed_chain) : qed_chain :=
  if is_chain_u16 c then
    if is_unusable_idx c (cons16 (u c))
    then c <| u := set_cons16 (cons16 (u c) + elem_unusable c) (u c) |> else c
  else
    if is_unusable_idx c (cons32 (u c))
    then c <| u := set_cons32 (cons32 (u c) + elem_unusable c) (u c) |> else c.

Definition test_and_skip_prod (c : qed_chain) : qed_chain :=
  if is_chain_u16 c then
    if is_unusable_idx c (prod16 (u c))
    then c <| u := set_prod16 (prod16 (u c) + elem_unusable c) (u c) |> else c
  else
    if is_unusable_idx c (prod32 (u c))
    then c <| u := set_prod32 (prod32 (u c) + elem_unusable c) (u c) |> else c.

Definition qed_chain_return_produced (c : qed_chain) : qed_chain :=
  let c := if is_chain_u16 c then c <| u := set_cons16 (cons16 (u c) + 1) (u c) |>
           else c <| u := set_cons32 (cons32 (u c) + 1) (u c) |> in
  test_and_skip_cons c.

Definition qed_chain_produce (m : dma_mem) (c : qed_chain) : option (Z * qed_chain) :=
  c ← (if is_chain_u16 c then
         c ← (if Z.land (prod16 (u c)) (elem_per_page_mask c) =? next_page_mask c then
                '(p, i, pg) ← qed_chain_advance_page m c (p_prod_elem c) (prod16 (u c)) (prod16 (pbl_c c));
                Some (c <| p_prod_elem := p |> <| u := set_prod16 i (u c) |>
                        <| pbl_c := set_prod16 pg (pbl_c c) |>)
              else Some c);
         Some (c <| u := set_prod16 (prod16 (u c) + 1) (u c) |>)
       else
         c ← (if Z.land (prod32 (u c)) (elem_per_page_mask c) =? next_page_mask c then
                '(p, i, pg) ← qed_chain_advance_page m c (p_prod_elem c) (prod32 (u c)) (prod32 (pbl_c c));
                Some (c <| p_prod_elem := p |> <| u := set_prod32 i (u c) |>
                        <| pbl_c := set_prod32 pg (pbl_c c) |>)
              else Some c);
         Some (c <| u := set_prod32 (prod32 (u c) + 1) (u c) |>));
  let p_ret := p_prod_elem c in
  Some (p_ret, c <| p_prod_elem := p_prod_elem c + elem_size c |>).

Definition qed_chain_recycle_consumed (c : qed_chain) : qed_chain :=
  let c := test_and_skip_prod c in
  if is_chain_u16 c then c <| u := set_prod16 (prod16 (u c) + 1) (u c) |>
  else c <| u := set_prod32 (prod32 (u c) + 1) (u c) |>.

Definition qed_chain_consume (m : dma_mem) (c : qed_chain) : option (Z * qed_chain) :=
  c ← (if is_chain_u16 c then
         c ← (if Z.land (cons16 (u c)) (elem_per_page_mask c) =? next_page_mask c then
                '(p, i, pg) ← qed_chain_advance_page m c (p_cons_elem c) (cons16 (u c)) (cons16 (pbl_c c));
                Some (c <| p_cons_elem := p |> <| u := set_cons16 i (u c) |>
                        <| pbl_c := set_cons16 pg (pbl_c c) |>)
              else Some c);
         Some (c <| u := set_cons16 (cons16 (u c) + 1) (u c) |>)
       else
         c ← (if Z.land (cons32 (u c)) (elem_per_page_mask c) =? next_page_mask c then
                '(p, i, pg) ← qed_chain_advance_page m c (p_cons_elem c) (cons32 (u c)) (cons32 (pbl_c c));
                Some (c <| p_cons_elem := p |> <| u := set_cons32 i (u c) |>
                        <| pbl_c := set_cons32 pg (pbl_c c) |>)
              else Some c);
         Some (c <| u := set_cons32 (cons32 (u c) + 1) (u c) |>));
  let p_ret := p_cons_elem c in
  Some (p_ret, c <| p_cons_elem := p_cons_elem c + elem_size c |>).

(** [qed_chain_reset] up to its [switch]: indices, element pointers, and for a
    page-table ring the page indices. *)
Definition reset_indices (c : qed_chain) : qed_chain :=
  let c := if is_chain_u16 c then c <| u := set_cons16 0 (set_prod16 0 (u c)) |>
           else c <| u := set_cons32 0 (set_prod32 0 (u c)) |> in
  let c := c <| p_cons_elem := p_virt_addr c |> <| p_prod_elem := p_virt_addr c |> in
  match mode c with
  | QED_CHAIN_MODE_PBL =>
      let reset_val := u32 (page_cnt c - 1) in
      if is_chain_u16 c
      then c <| pbl_c := set_cons16 (u16 reset_val) (set_prod16 (u16 reset_val) (pbl_c c)) |>
      else c <| pbl_c := set_cons32 reset_val (set_prod32 reset_val (pbl_c c)) |>
  | _ => c
  end.

Definition qed_chain_reset (c : qed_chain) : qed_chain :=
  let c := reset_indices c in
  match intended_use c with
  | QED_CHAIN_USE_TO_CONSUME => Nat.iter (Z.to_nat (capacity c)) qed_chain_recycle_consumed c
  | QED_CHAIN_USE_TO_CONSUME_PRODUCE | QED_CHAIN_USE_TO_PRODUCE => c
  end.

(** [qed_chain_init] on the storage of an arbitrary chain; [elem_size] is the
    [u8] parameter, and a zero size is the fault of the division by it. *)
Definition qed_chain_init (c : qed_chain) (page_cnt elem_size page_size : Z)
    (intended_use : qed_chain_use_mode) (mode : qed_chain_mode)
    (cnt_type : qed_chain_cnt_type) (dp_ctx : Z) : option qed_chain :=
  if elem_size =? 0 then None else
  let elem_per_page := u16 (ELEMS_PER_PAGE page_size elem_size) in
  let usable_per_page := u16 (USABLE_ELEMS_PER_PAGE elem_size page_size mode) in
  let elem_per_page_mask := u16 (elem_per_page - 1) in
  let elem_unusable := UNUSABLE_ELEMS_PER_PAGE elem_size mode in
  Some {|
    p_prod_elem := p_prod_elem c;
    p_cons_elem := p_cons_elem c;
    pp_virt_addr_tbl := None;
    pbl_c := pbl_c c;
    u := u c;
    capacity := u32 (usable_per_page * page_cnt);
    page_cnt := page_cnt;
    mode := mode;
    elem_per_page := elem_per_page;
    elem_per_page_mask := elem_per_page_mask;
    elem_size := elem_size;
    next_page_mask := Z.land usable_per_page elem_per_page_mask;
    usable_per_page := usable_per_page;
    elem_unusable := elem_unusable;
    cnt_type := cnt_type;
    page_size := page_size;
    p_phys_table := 0;
    p_virt_table := 0;
    p_virt_addr := 0;
    p_phys_addr := 0;
    chain_size := u32 (elem_per_page * page_cnt);
    intended_use := intended_use;
    b_external_pbl := false;
    dp_ctx := dp_ctx
  |}.

Definition qed_chain_init_mem (v p : Z) (c : qed_chain) : qed_chain :=
  c <| p_virt_addr := v |> <| p_phys_addr := p |>.

Definition qed_chain_init_pbl_mem (p_virt_pbl p_phys_pbl : Z) (tbl : option (list Z))
    (c : qed_chain) : qed_chain :=
  c <| p_phys_table := p_phys_pbl |> <| p_virt_table := p_virt_pbl |>
    <| pp_virt_addr_tbl := tbl |>.

(** Offset of the next-pointer element inside a page. *)
Definition next_ptr_offset (c : qed_chain) : Z := u32 (elem_size c * usable_per_page c).

Definition qed_chain_init_next_ptr_elem (c : qed_chain) (p_virt_curr p_virt_next p_phys_next : Z)
    (m : dma_mem) : option dma_mem :=
  let size := next_ptr_offset c in
  write_next (p_virt_curr + size)
    (mk_qed_chain_next (DMA_REGPAIR_LE p_phys_next) p_virt_next) m.

(** The loop of [qed_chain_get_last_elem] over the next pointers.  [fuel]
    bounds the number of links followed; [page_cnt] of them close the ring. *)
Fixpoint last_page_loop (fuel : nat) (m : dma_mem) (c : qed_chain) (p : Z) : option Z :=
  p_next ← read_next m (p + next_ptr_offset c);
  if next_virt p_next =? p_virt_addr c then Some p
  else match fuel with
       | O => None
       | S f => last_page_loop f m c (next_virt p_next)
       end.

Definition qed_chain_get_last_elem (m : dma_mem) (c : qed_chain) : option Z :=
  if p_virt_addr c =? 0 then Some 0 else
  p_virt ← match mode c with
           | QED_CHAIN_MODE_NEXT_PTR => last_page_loop (Z.to_nat (page_cnt c)) m c (p_virt_addr c)
           | QED_CHAIN_MODE_SINGLE => Some (p_virt_addr c)
           | QED_CHAIN_MODE_PBL =>
               tbl ← pp_virt_addr_tbl c;
               tbl !! Z.to_nat (u32 (page_cnt c - 1))
           end;
  Some (p_virt + u32 (elem_size c * (usable_per_page c - 1))).

(** The page index of a page-table ring after moving its index from [cur]
    to [idx] (the shared computation of [qed_chain_set_prod]/[set_cons]). *)
Definition set_page_idx (c : qed_chain) (cur idx page : Z) : Z :=
  let page_mask := not32 (elem_per_page_mask c) in
  let page_diff :=
    u32 (Z.land (u32 (cur - 1)) page_mask - Z.land (u32 (idx - 1)) page_mask)
      / elem_per_page c in
  let page_cnt := qed_chain_get_page_cnt c in
  u32 (page - page_diff + page_cnt) mod page_cnt.

Definition qed_chain_set_prod (prod_idx p_elem : Z) (c : qed_chain) : qed_chain :=
  let c := match mode c with
           | QED_CHAIN_MODE_PBL =>
               let cur_prod := if is_chain_u16 c then prod16 (u c) else prod32 (u c) in
               if is_chain_u16 c
               then c <| pbl_c := set_prod16 (set_page_idx c cur_prod prod_idx (prod16 (pbl_c c))) (pbl_c c) |>
               else c <| pbl_c := set_prod32 (set_page_idx c cur_prod prod_idx (prod32 (pbl_c c))) (pbl_c c) |>
           | _ => c
           end in
  let c := if is_chain_u16 c then c <| u := set_prod16 (u16 prod_idx) (u c) |>
           else c <| u := set_prod32 prod_idx (u c) |> in
  c <| p_prod_elem := p_elem |>.

Definition qed_chain_set_cons (cons_idx p_elem : Z) (c : qed_chain) : qed_chain :=
  let c := match mode c with
           | QED_CHAIN_MODE_PBL =>
               let cur_cons := if is_chain_u16 c then cons16 (u c) else cons32 (u c) in
               if is_chain_u16 c
               then c <| pbl_c := set_cons16 (set_page_idx c cur_cons cons_idx (cons16 (pbl_c c))) (pbl_c c) |>
               else c <| pbl_c := set_cons32 (set_page_idx c cur_cons cons_idx (cons32 (pbl_c c))) (pbl_c c) |>
           | _ => c
           end in
  let c := if is_chain_u16 c then c <| u := set_cons16 (u16 cons_idx) (u c) |>
           else c <| u := set_cons32 cons_idx (u c) |> in
  c <| p_cons_elem := p_elem |>.

(** [qed_chain_pbl_zero_mem]: [memset] of every page of a page-table ring. *)
Fixpoint pbl_zero_loop (tbl : list Z) (n i : nat) (sz : Z) (m : dma_mem) : option dma_mem :=
  match n with
  | O => Some m
  | S n' =>
      p ← tbl !! i;
      if mapped m p sz
      then pbl_zero_loop tbl n' (S i) sz
             (m <| cells := zero_fill p sz (cells m) |>
                <| pbl_cells := zero_fill p sz (pbl_cells m) |>)
      else None
  end.
Definition qed_chain_pbl_zero_mem (c : qed_chain) (m : dma_mem) : option dma_mem :=
  match mode c with
  | QED_CHAIN_MODE_PBL =>
      let page_cnt := qed_chain_get_page_cnt c in
      match pp_virt_addr_tbl c with
      | Some tbl => pbl_zero_loop tbl (Z.to_nat page_cnt) 0 (page_size c) m
      | None => if page_cnt =? 0 then Some m else None
      end
  | _ => Some m
  end.

(** [qed_chain_get_elem_by_idx] (qed_chain.c): the loop follows [page_idx]
    next pointers, subtracting a page of elements for each. *)
Fixpoint elem_by_idx_loop (n : nat) (m : dma_mem) (c : qed_chain) (p elem_idx : Z)
    : option (Z * Z) :=
  match n with
  | O => Some (p, elem_idx)
  | S n' =>
      p_next ← read_next m (p + next_ptr_offset c);
      elem_by_idx_loop n' m c (next_virt p_next) (u32 (elem_idx - elem_per_page c))
  end.

Definition qed_chain_get_elem_by_idx (m : dma_mem) (c : qed_chain) (idx : Z) : option Z :=
  if p_virt_addr c =? 0 then Some 0 else
  if capacity c =? 0 then None else
  let elem_idx := idx mod capacity c in
  let page_idx := elem_idx / elem_per_page c in
  '(p_virt, elem_idx) ←
    match mode c with
    | QED_CHAIN_MODE_NEXT_PTR =>
        elem_by_idx_loop (Z.to_nat page_idx) m c (p_virt_addr c) elem_idx
    | QED_CHAIN_MODE_SINGLE => Some (p_virt_addr c, elem_idx)
    | QED_CHAIN_MODE_PBL =>
        tbl ← pp_virt_addr_tbl c;
        p ← tbl !! Z.to_nat page_idx;
        Some (p, u32 (elem_idx - u32 (page_idx * elem_per_page c)))
    end;
  Some (p_virt + u32 (elem_size c * elem_idx)).

(** ** Allocation and release (qed_dev.c) *)

Fixpoint free_next_ptr_loop (n : nat) (c : qed_chain) (size p_virt p_phys : Z)
    (m : dma_mem) : option dma_mem :=
  match n with
  | O => Some m
  | S n' =>
      if p_virt =? 0 then Some m else
      p_next ← read_next m (p_virt + size);
      let p_virt_next := next_virt p_next in
      let p_phys_next := HILO_DMA_REGPAIR (next_phys p_next) in
      m ← dma_free_coherent (page_size c) p_virt p_phys m;
      free_next_ptr_loop n' c size p_virt_next p_phys_next m
  end.

Definition qed_chain_free_next_ptr (c : qed_chain) (m : dma_mem) : option dma_mem :=
  if p_virt_addr c =? 0 then Some m else
  let size := u32 (elem_size c * usable_per_page c) in
  free_next_ptr_loop (Z.to_nat (page_cnt c)) c size (p_virt_addr c) (p_phys_addr c) m.

Definition qed_chain_free_single (c : qed_chain) (m : dma_mem) : option dma_mem :=
  if p_virt_addr c =? 0 then Some m else
  dma_free_coherent (page_size c) (p_virt_addr c) (p_phys_addr c) m.

Fixpoint free_pbl_loop (tbl : list Z) (n i : nat) (c : qed_chain) (p_pbl_virt : Z)
    (m : dma_mem) : option dma_mem :=
  match n with
  | O => Some m
  | S n' =>
      p ← tbl !! i;
      if p =? 0 then Some m else
      p_phys ← read_pbl m p_pbl_virt;
      m ← dma_free_coherent (page_size c) p p_phys m;
      free_pbl_loop tbl n' (S i) c (p_pbl_virt + QED_CHAIN_PBL_ENTRY_SIZE) m
  end.

Definition qed_chain_free_pbl (c : qed_chain) (m : dma_mem) : option (qed_chain * dma_mem) :=
  match pp_virt_addr_tbl c with
  | None => Some (c, m)
  | Some tbl =>
      m ← (if p_virt_table c =? 0 then Some m else
             m ← free_pbl_loop tbl (Z.to_nat (page_cnt c)) 0 c (p_virt_table c) m;
             let pbl_size := u32 (page_cnt c * QED_CHAIN_PBL_ENTRY_SIZE) in
             if negb (b_external_pbl c)
             then dma_free_coherent pbl_size (p_virt_table c) (p_phys_table c) m
             else Some m);
      Some (c <| pp_virt_addr_tbl := None |>, vfree_tbl m)
  end.

Definition qed_chain_free (c : qed_chain) (m : dma_mem) : option (qed_chain * dma_mem) :=
  '(c, m) ← match mode c with
            | QED_CHAIN_MODE_NEXT_PTR => m ← qed_chain_free_next_ptr c m; Some (c, m)
            | QED_CHAIN_MODE_SINGLE => m ← qed_chain_free_single c m; Some (c, m)
            | QED_CHAIN_MODE_PBL => qed_chain_free_pbl c m
            end;
  Some (qed_chain_init_mem 0 0 c, m).

Definition qed_chain_alloc_sanity_check (cnt_type : qed_chain_cnt_type)
    (elem_size page_size page_cnt : Z) : Z :=
  let chain_size := u64 (ELEMS_PER_PAGE page_size elem_size * page_cnt) in
  match cnt_type with
  | QED_CHAIN_CNT_TYPE_U16 => if QED_U16_MAX + 1 <? chain_size then - EINVAL else 0
  | QED_CHAIN_CNT_TYPE_U32 => if QED_U32_MAX <? chain_size then - EINVAL else 0
  end.

(** The page loop of [qed_chain_alloc_next_ptr]; the last component is the
    last allocated page ([p_virt_prev]). *)
Fixpoint alloc_next_ptr_loop (n : nat) (first : bool) (p_virt_prev : Z) (c : qed_chain)
    (m : dma_mem) : option (Z * qed_chain * dma_mem * Z) :=
  match n with
  | O => Some (0, c, m, p_virt_prev)
  | S n' =>
      let '(p_virt, p_phys, m) := dma_alloc_coherent (page_size c) m in
      if p_virt =? 0 then Some (- ENOMEM, c, m, p_virt_prev) else
      if first then
        alloc_next_ptr_loop n' false p_virt
          (qed_chain_reset (qed_chain_init_mem p_virt p_phys c)) m
      else
        m ← qed_chain_init_next_ptr_elem c p_virt_prev p_virt p_phys m;
        alloc_next_ptr_loop n' false p_virt c m
  end.

Definition qed_chain_alloc_next_ptr (c : qed_chain) (m : dma_mem)
    : option (Z * qed_chain * dma_mem) :=
  if page_cnt c =? 0 then Some (- EINVAL, c, m) else
  '(rc, c, m, p_virt_prev) ← alloc_next_ptr_loop (Z.to_nat (page_cnt c)) true 0 c m;
  if negb (rc =? 0) then Some (rc, c, m) else
  m ← qed_chain_init_next_ptr_elem c p_virt_prev (p_virt_addr c) (p_phys_addr c) m;
  Some (0, c, m).

Definition qed_chain_alloc_single (c : qed_chain) (m : dma_mem) : Z * qed_chain * dma_mem :=
  let '(p_virt, p_phys, m) := dma_alloc_coherent (page_size c) m in
  if p_virt =? 0 then (- ENOMEM, c, m) else
  (0, qed_chain_reset (qed_chain_init_mem p_virt p_phys c), m).

Fixpoint alloc_pbl_loop (n i : nat) (p_pbl_virt : Z) (c : qed_chain) (m : dma_mem)
    : option (Z * qed_chain * dma_mem) :=
  match n with
  | O => Some (0, c, m)
  | S n' =>
      let '(p_virt, p_phys, m) := dma_alloc_coherent (page_size c) m in
      if p_virt =? 0 then Some (- ENOMEM, c, m) else
      let c := match i with
               | O => qed_chain_reset (qed_chain_init_mem p_virt p_phys c)
               | S _ => c
               end in
      m ← write_pbl p_pbl_virt p_phys m;
      tbl ← pp_virt_addr_tbl c;
      if (i <? length tbl)%nat
      then alloc_pbl_loop n' (S i) (p_pbl_virt + QED_CHAIN_PBL_ENTRY_SIZE)
             (c <| pp_virt_addr_tbl := Some (<[i := p_virt]> tbl) |>) m
      else None
  end.

Definition qed_chain_alloc_pbl (c : qed_chain) (ext_pbl : option qed_chain_ext_pbl)
    (m : dma_mem) : option (Z * qed_chain * dma_mem) :=
  let '(tbl, m) := vzalloc_tbl (u32 (page_cnt c * 8)) m in
  match tbl with
  | None => Some (- ENOMEM, c, m)
  | Some _ =>
      let size := u32 (page_cnt c * QED_CHAIN_PBL_ENTRY_SIZE) in
      let '(p_pbl_virt, p_pbl_phys, c, m) :=
        match ext_pbl with
        | None => let '(v, p, m) := dma_alloc_coherent size m in (v, p, c, m)
        | Some e => (p_pbl_virt e, p_pbl_phys e, c <| b_external_pbl := true |>, m)
        end in
      let c := qed_chain_init_pbl_mem p_pbl_virt p_pbl_phys tbl c in
      if p_pbl_virt =? 0 then Some (- ENOMEM, c, m) else
      alloc_pbl_loop (Z.to_nat (page_cnt c)) 0 p_pbl_virt c m
  end.

Definition qed_chain_params_init (intended_use : qed_chain_use_mode) (mode : qed_chain_mode)
    (cnt_type : qed_chain_cnt_type) (num_elems elem_size : Z) : qed_chain_params :=
  {| par_intended_use := intended_use; par_mode := mode; par_cnt_type := cnt_type;
     par_num_elems := num_elems; par_elem_size := elem_size;
     par_page_size := QED_CHAIN_PAGE_SIZE; par_ext_pbl := None |}.

(** [qed_chain_alloc] on the storage of chain [c]; [dp_ctx] is the device's. *)
Definition qed_chain_alloc (dp_ctx : Z) (c : qed_chain) (par : qed_chain_params) (m : dma_mem)
    : option (Z * qed_chain * dma_mem) :=
  if par_elem_size par =? 0 then None else
  page_cnt ←
    match par_mode par with
    | QED_CHAIN_MODE_SINGLE => Some 1
    | _ => if USABLE_ELEMS_PER_PAGE (par_elem_size par) (par_page_size par) (par_mode par) =? 0
           then None
           else Some (QED_CHAIN_PAGE_CNT (par_num_elems par) (par_elem_size par)
                        (par_page_size par) (par_mode par))
    end;
  let rc := qed_chain_alloc_sanity_check (par_cnt_type par) (par_elem_size par)
              (par_page_size par) page_cnt in
  if negb (rc =? 0) then Some (rc, c, m) else
  c ← qed_chain_init c page_cnt (u8 (par_elem_size par)) (par_page_size par)
        (par_intended_use par) (par_mode par) (par_cnt_type par) dp_ctx;
  '(rc, c, m) ← match par_mode par with
                | QED_CHAIN_MODE_NEXT_PTR => qed_chain_alloc_next_ptr c m
                | QED_CHAIN_MODE_SINGLE => Some (qed_chain_alloc_single c m)
                | QED_CHAIN_MODE_PBL => qed_chain_alloc_pbl c (par_ext_pbl par) m
                end;
  if negb (rc =? 0)
  then '(c, m) ← qed_chain_free c m; Some (rc, c, m)
  else Some (0, c, m).
