(* ===== verification/ChainRing.v ===== *)
(** * The chain operations implement a ring

    The specification of a chain is two unbounded counters: how many elements
    were produced and how many were consumed.  Element number [n] lives in the
    slot [n mod capacity], that is on page [(n / usable) mod page_cnt] at
    offset [n mod usable].  The theorems show that, through any number of
    wrap-arounds of the 16- or 32-bit indices and in each of the three page
    layouts, the concrete operations hand out exactly those slots, never touch
    memory outside the chain, and that the free-element count agrees with the
    counters. *)

From S2P Require Import Prelude Dma Chain.

(** ** The index unions *)

Lemma prod16_set_prod16 v x : prod16 (set_prod16 v x) = u16 v.
Proof. unfold prod16, set_prod16, u16. simpl. rewrite Z.add_comm, Z_mod_plus_full. apply Z.mod_mod. lia. Qed.
Lemma cons16_set_prod16 v x : cons16 (set_prod16 v x) = cons16 x.
Proof.
  unfold set_prod16. unfold cons16 at 1. simpl.
  rewrite Z.div_add_l by lia. rewrite (Z.div_small (u16 v)) by apply u16_bound.
  rewrite Z.add_0_r. unfold cons16. apply Z.mod_mod. lia.
Qed.
Lemma cons16_set_cons16 v x : cons16 (set_cons16 v x) = u16 v.
Proof.
  unfold cons16, set_cons16. simpl. rewrite Z.div_add_l by lia.
  rewrite Z.div_small by (apply Z.mod_pos_bound; lia). rewrite Z.add_0_r.
  apply Z.mod_small, u16_bound.
Qed.
Lemma prod16_set_cons16 v x : prod16 (set_cons16 v x) = prod16 x.
Proof.
  unfold set_cons16. unfold prod16 at 1. simpl.
  rewrite Z.add_comm, Z_mod_plus_full. unfold prod16. apply Z.mod_mod. lia.
Qed.
Lemma prod32_set_cons32 v x : prod32 (set_cons32 v x) = prod32 x.
Proof. done. Qed.
Lemma cons32_set_prod32 v x : cons32 (set_prod32 v x) = cons32 x.
Proof. done. Qed.
Lemma prod32_set_prod32 v x : prod32 (set_prod32 v x) = u32 v.
Proof. done. Qed.
Lemma cons32_set_cons32 v x : cons32 (set_cons32 v x) = u32 v.
Proof. done. Qed.
Lemma prod16_bound x : 0 <= prod16 x < 2 ^ 16.
Proof. apply Z.mod_pos_bound. lia. Qed.
Lemma cons16_bound x : 0 <= cons16 x < 2 ^ 16.
Proof. apply Z.mod_pos_bound. lia. Qed.

Create Rewrite HintDb idx_rw.
#[export] Hint Rewrite prod16_set_prod16 cons16_set_prod16 cons16_set_cons16 prod16_set_cons16
  prod32_set_cons32 cons32_set_prod32 prod32_set_prod32 cons32_set_cons32 : idx_rw.
#[export] Hint Resolve prod16_bound cons16_bound : qed.

Definition union_wf (x : idx_union) : Prop := 0 <= w0 x < 2 ^ 32 /\ 0 <= w1 x < 2 ^ 32.

Ltac solve_union_wf v x :=
  intros [H0 H1]; unfold union_wf, set_prod16, set_cons16, set_prod32, set_cons32; simpl;
  pose proof (u16_bound v); pose proof (u32_bound v);
  pose proof (cons16_bound x); pose proof (prod16_bound x); lia.

Lemma union_wf_set_prod16 x v : union_wf x -> union_wf (set_prod16 v x).
Proof. solve_union_wf v x. Qed.
Lemma union_wf_set_cons16 x v : union_wf x -> union_wf (set_cons16 v x).
Proof. solve_union_wf v x. Qed.
Lemma union_wf_set_prod32 x v : union_wf x -> union_wf (set_prod32 v x).
Proof. solve_union_wf v x. Qed.
Lemma union_wf_set_cons32 x v : union_wf x -> union_wf (set_cons32 v x).
Proof. solve_union_wf v x. Qed.
#[export] Hint Resolve union_wf_set_prod16 union_wf_set_cons16
  union_wf_set_prod32 union_wf_set_cons32 : qed.

(** ** Width-independent view of a chain *)

Definition width (c : qed_chain) : Z := if is_chain_u16 c then 16 else 32.
Definition wrapw (c : qed_chain) (z : Z) : Z := z mod 2 ^ width c.
Definition idx_prod (c : qed_chain) (x : idx_union) : Z := if is_chain_u16 c then prod16 x else prod32 x.
Definition idx_cons (c : qed_chain) (x : idx_union) : Z := if is_chain_u16 c then cons16 x else cons32 x.

(** One end of the ring: element pointer, index, page index. *)
Definition side : Type := Z * Z * Z.
Definition prod_side (c : qed_chain) : side := (p_prod_elem c, idx_prod c (u c), idx_prod c (pbl_c c)).
Definition cons_side (c : qed_chain) : side := (p_cons_elem c, idx_cons c (u c), idx_cons c (pbl_c c)).

(** Everything of a chain that the fast path never writes. *)
Definition cfg (c : qed_chain) : qed_chain :=
  c <| p_prod_elem := 0 |> <| p_cons_elem := 0 |>
    <| u := mk_idx_union 0 0 |> <| pbl_c := mk_idx_union 0 0 |>.

(** What [qed_chain_produce] and [qed_chain_consume] do to their end. *)
Definition side_step (m : dma_mem) (c : qed_chain) (s : side) : option (Z * side) :=
  let '(p, i, pg) := s in
  '(p, i, pg) ← (if Z.land i (elem_per_page_mask c) =? next_page_mask c
                 then qed_chain_advance_page m c p i pg else Some (p, i, pg));
  Some (p, (p + elem_size c, wrapw c (i + 1), pg)).

Definition chain_wf (c : qed_chain) : Prop := union_wf (u c) /\ union_wf (pbl_c c).

Lemma advance_cfg m c c' p i pg :
  cfg c = cfg c' -> qed_chain_advance_page m c p i pg = qed_chain_advance_page m c' p i pg.
Proof.
  intros H. unfold qed_chain_advance_page, is_chain_u16.
  pose proof (f_equal mode H). pose proof (f_equal cnt_type H).
  pose proof (f_equal elem_unusable H). pose proof (f_equal p_virt_addr H).
  pose proof (f_equal page_cnt H). pose proof (f_equal pp_virt_addr_tbl H).
  simpl in *. repeat match goal with E : _ c = _ c' |- _ => rewrite E; clear E end. done.
Qed.

(** The values the advance returns are already of the index width. *)
Lemma advance_bounds m c p i pg p' i' pg' :
  0 <= i < 2 ^ width c -> 0 <= pg < 2 ^ width c ->
  qed_chain_advance_page m c p i pg = Some (p', i', pg') ->
  0 <= i' < 2 ^ width c /\ 0 <= pg' < 2 ^ width c.
Proof.
  intros Hi Hpg. unfold qed_chain_advance_page, width in *.
  destruct (mode c).
  - destruct (read_next m p); simpl; [|done]. intros [= <- <- <-].
    destruct (is_chain_u16 c); auto with qed.
  - by intros [= <- <- <-].
  - destruct (pp_virt_addr_tbl c); simpl; [|done].
    set (pg1 := if is_chain_u16 c then _ else _).
    assert (0 <= pg1 < 2 ^ (if is_chain_u16 c then 16 else 32))
      by (subst pg1; destruct (is_chain_u16 c); auto with qed).
    destruct (l !! _); simpl; [|done]. intros [= <- <- <-]. zcases; lia.
Qed.

(** Evaluate the index of a chain whose counter type is known. *)
Ltac idx_simpl E :=
  unfold prod_side, cons_side, idx_prod, idx_cons, wrapw, width, is_chain_u16 in *; simpl in *;
  rewrite ?E in *; simpl in *; autorewrite with idx_rw in *.

(** The end of a step proof: the new indices are in range, the rest of the
    chain is untouched and the unions stay within their words. *)
Ltac step_close :=
  split_and!; [wrap_small; reflexivity | done | done |
               unfold chain_wf; simpl; auto 10 with qed].

Ltac step_case E16 :=
  destruct (Z.land _ _ =? _); simpl;
  [ destruct (qed_chain_advance_page _ _ _ _ _) as [[[p' i'] pg']|] eqn:Ea; simpl; [|done];
    apply advance_bounds in Ea;
      [unfold width, is_chain_u16 in Ea; rewrite E16 in Ea; destruct Ea
      |unfold width, is_chain_u16; rewrite E16; auto with qed..]
  | ];
  intros [= <- <-]; eexists; (split; [reflexivity|]); idx_simpl E16; step_close.

Lemma prod32_bound x : union_wf x -> 0 <= prod32 x < 2 ^ 32.
Proof. by intros []. Qed.
Lemma cons32_bound x : union_wf x -> 0 <= cons32 x < 2 ^ 32.
Proof. by intros []. Qed.
#[export] Hint Resolve prod32_bound cons32_bound : qed.

(** [qed_chain_produce] steps the producer end and nothing else. *)
Lemma produce_step m c p s :
  chain_wf c -> side_step m c (prod_side c) = Some (p, s) ->
  exists c', qed_chain_produce m c = Some (p, c') /\ prod_side c' = s /\
             cons_side c' = cons_side c /\ cfg c' = cfg c /\ chain_wf c'.
Proof.
  intros [Hu Hp]. unfold side_step, qed_chain_produce.
  destruct (is_chain_u16 c) eqn:E16; idx_simpl E16; step_case E16.
Qed.

(** [qed_chain_consume] steps the consumer end and nothing else. *)
Lemma consume_step m c p s :
  chain_wf c -> side_step m c (cons_side c) = Some (p, s) ->
  exists c', qed_chain_consume m c = Some (p, c') /\ cons_side c' = s /\
             prod_side c' = prod_side c /\ cfg c' = cfg c /\ chain_wf c'.
Proof.
  intros [Hu Hp]. unfold side_step, qed_chain_consume.
  destruct (is_chain_u16 c) eqn:E16; idx_simpl E16; step_case E16.
Qed.

(** ** Geometry of a chain and the abstract ring *)

Definition page_at (pages : list Z) (i : Z) : Z := default 0 (pages !! Z.to_nat i).

(** Chain [c] over memory [m] is made of [pages]: the element counts are
    consistent, a page holds a power of two of elements, and the pages are
    reachable the way the mode says. *)
Record chain_geom (m : dma_mem) (c : qed_chain) (pages : list Z) : Prop := {
  g_pow2 : exists k, 0 <= k <= 15 /\ elem_per_page c = 2 ^ k;
  g_mask : elem_per_page_mask c = elem_per_page c - 1;
  g_usable : 0 < usable_per_page c;
  g_split : usable_per_page c + elem_unusable c = elem_per_page c;
  g_unusable : 0 <= elem_unusable c < 2 ^ 8;
  g_next_mask : next_page_mask c = Z.land (usable_per_page c) (elem_per_page_mask c);
  g_page_cnt : page_cnt c = Z.of_nat (length pages);
  g_pages : 0 < page_cnt c < 2 ^ width c;
  g_capacity : capacity c = usable_per_page c * page_cnt c;
  g_elem_size : 0 <= elem_size c /\ elem_size c * usable_per_page c < 2 ^ 32;
  g_first : p_virt_addr c = page_at pages 0;
  g_mode : match mode c with
           | QED_CHAIN_MODE_NEXT_PTR =>
               0 < elem_unusable c /\
               forall i, 0 <= i < page_cnt c -> exists n,
                 read_next m (page_at pages i + elem_size c * usable_per_page c) = Some n /\
                 next_virt n = page_at pages ((i + 1) mod page_cnt c)
           | QED_CHAIN_MODE_SINGLE => elem_unusable c = 0 /\ page_cnt c = 1
           | QED_CHAIN_MODE_PBL => elem_unusable c = 0 /\ pp_virt_addr_tbl c = Some pages
           end
}.

(** The slot of element number [n]. *)
Definition slot_addr (c : qed_chain) (pages : list Z) (n : Z) : Z :=
  page_at pages ((n / usable_per_page c) mod page_cnt c)
    + elem_size c * (n mod usable_per_page c).

(** The unbounded index after [n] elements.  The unusable elements of a page
    are skipped when the next element is requested, not before. *)
Definition lazy_idx (c : qed_chain) (n : Z) : Z :=
  if n =? 0 then 0
  else (n - 1) / usable_per_page c * elem_per_page c + (n - 1) mod usable_per_page c + 1.

(** An end of the ring after [n] elements. *)
Definition side_at (c : qed_chain) (pages : list Z) (n : Z) (s : side) : Prop :=
  let '(p, i, pg) := s in
  i = wrapw c (lazy_idx c n) /\
  p = (if n =? 0 then p_virt_addr c else slot_addr c pages (n - 1) + elem_size c) /\
  0 <= pg < 2 ^ width c /\
  (mode c = QED_CHAIN_MODE_PBL -> pg = ((n - 1) / usable_per_page c) mod page_cnt c).

Lemma width_cases c : width c = 16 \/ width c = 32.
Proof. unfold width. destruct (is_chain_u16 c); auto. Qed.

(** Arithmetic at either index width. *)
Ltac width_lia c :=
  let E := fresh in destruct (width_cases c) as [E|E]; rewrite E in *; lia.

(** Masking a wrapped index gives its position inside the page. *)
Lemma masked_idx m c pages x :
  chain_geom m c pages -> Z.land (wrapw c x) (elem_per_page_mask c) = x mod elem_per_page c.
Proof.
  intros G. destruct (g_pow2 _ _ _ G) as (k & Hk & Ek).
  rewrite (g_mask _ _ _ G), Ek, land_pow2_mask by lia. unfold wrapw.
  apply mod_mod_pow2. width_lia c.
Qed.

Lemma next_mask_value m c pages :
  chain_geom m c pages -> next_page_mask c = usable_per_page c mod elem_per_page c.
Proof.
  intros G. destruct (g_pow2 _ _ _ G) as (k & Hk & Ek).
  rewrite (g_next_mask _ _ _ G), (g_mask _ _ _ G), Ek. apply land_pow2_mask. lia.
Qed.

(** Quotient and remainder of consecutive numbers. *)
Lemma div_mod_succ n d :
  0 < d ->
  (n - 1) mod d + 1 = d /\ n / d = (n - 1) / d + 1 /\ n mod d = 0 \/
  (n - 1) mod d + 1 < d /\ n / d = (n - 1) / d /\ n mod d = (n - 1) mod d + 1.
Proof.
  intros Hd. pose proof (Z.div_mod (n - 1) d ltac:(lia)).
  pose proof (Z.mod_pos_bound (n - 1) d Hd).
  destruct (Z.eq_dec ((n - 1) mod d + 1) d).
  - left. split; [done|]. split; [apply (div_unique_pos n d _ 0)|apply (mod_unique_pos n d ((n - 1) / d + 1))]; lia.
  - right. split; [lia|].
    split; [apply (div_unique_pos n d _ ((n-1) mod d + 1))|apply (mod_unique_pos n d ((n - 1) / d))]; lia.
Qed.

Lemma slot_addr_next_page c pages n :
  n mod usable_per_page c = 0 ->
  slot_addr c pages n = page_at pages ((n / usable_per_page c) mod page_cnt c).
Proof. intros H. unfold slot_addr. rewrite H. lia. Qed.

(** Within a page the next slot is one element further. *)
Lemma slot_addr_succ c pages n :
  n / usable_per_page c = (n - 1) / usable_per_page c ->
  n mod usable_per_page c = (n - 1) mod usable_per_page c + 1 ->
  slot_addr c pages (n - 1) + elem_size c = slot_addr c pages n.
Proof. intros H1 H2. unfold slot_addr. rewrite H1, H2. ring. Qed.

Lemma lazy_idx_succ c n :
  0 <= n -> lazy_idx c (n + 1) = n / usable_per_page c * elem_per_page c + n mod usable_per_page c + 1.
Proof.
  intros. unfold lazy_idx. destruct (n + 1 =? 0) eqn:E; zbool; [lia|].
  by replace (n + 1 - 1) with n by lia.
Qed.

Lemma wrapw_add c x y : wrapw c (wrapw c x + y) = wrapw c (x + y).
Proof. unfold wrapw. apply Zplus_mod_idemp_l. Qed.

(** The index part of the advance, at either width. *)
Lemma wrapw_unfold c x : (if is_chain_u16 c then u16 x else u32 x) = wrapw c x.
Proof. unfold wrapw, width. by destruct (is_chain_u16 c). Qed.

(** Advancing the page index of a page-table ring. *)
Lemma next_page_idx c q :
  0 < page_cnt c < 2 ^ width c ->
  (let pg := wrapw c (q mod page_cnt c + 1) in if pg =? page_cnt c then 0 else pg)
  = (q + 1) mod page_cnt c.
Proof.
  intros Hc. pose proof (Z.mod_pos_bound q (page_cnt c) ltac:(lia)).
  unfold wrapw. rewrite Z.mod_small by width_lia c. simpl.
  pose proof (Z.div_mod q (page_cnt c) ltac:(lia)).
  symmetry. zcases.
  - apply (mod_unique_pos _ _ (q / page_cnt c + 1)); lia.
  - apply (mod_unique_pos _ _ (q / page_cnt c)); lia.
Qed.

(** Outside the next-pointer mode the index is the element count. *)
Lemma lazy_idx_dense c n :
  elem_unusable c = 0 -> usable_per_page c + elem_unusable c = elem_per_page c ->
  0 < usable_per_page c -> lazy_idx c n = n.
Proof.
  intros H0 Hs Hu. unfold lazy_idx. zcases; [lia|].
  pose proof (Z.div_mod (n - 1) (usable_per_page c) ltac:(lia)). nia.
Qed.

(** Fetching the next page: where an end of the ring stands once
    [qed_chain_advance_page] was called if it had to be. *)
Lemma page_fetch_dense m c pages n p i pg :
  chain_geom m c pages -> mode c <> QED_CHAIN_MODE_NEXT_PTR -> elem_unusable c = 0 ->
  0 <= n -> side_at c pages n (p, i, pg) ->
  exists pg',
    (if Z.land i (elem_per_page_mask c) =? next_page_mask c
     then qed_chain_advance_page m c p i pg else Some (p, i, pg))
    = Some (slot_addr c pages n, wrapw c n, pg') /\
    0 <= pg' < 2 ^ width c /\
    (mode c = QED_CHAIN_MODE_PBL -> pg' = (n / usable_per_page c) mod page_cnt c).
Proof.
  intros G Hm H0 Hn (Hi & Hp & Hb & Hpbl).
  assert (Hus := g_usable _ _ _ G). assert (Hs := g_split _ _ _ G). assert (Hc := g_pages _ _ _ G).
  rewrite lazy_idx_dense in Hi by done.
  rewrite Hi, (masked_idx _ _ _ _ G), (next_mask_value _ _ _ G).
  replace (elem_per_page c) with (usable_per_page c) by lia. rewrite Z.mod_same by lia.
  destruct (div_mod_succ n (usable_per_page c) Hus) as [(_ & Hq & Hr)|(Hlt & Hq & Hr)].
  - rewrite Hr, Z.eqb_refl, slot_addr_next_page by done.
    unfold qed_chain_advance_page. destruct (mode c) eqn:Em; [done| |].
    + pose proof (g_mode _ _ _ G) as Gm. rewrite Em in Gm. destruct Gm as [_ H1].
      exists pg. rewrite H1, Z.mod_1_r, (g_first _ _ _ G). done.
    + pose proof (g_mode _ _ _ G) as Gm. rewrite Em in Gm. destruct Gm as [_ Ht].
      rewrite !wrapw_unfold, (Hpbl eq_refl), next_page_idx by done.
      rewrite Ht. simpl. rewrite <- Hq.
      pose proof (Z.mod_pos_bound (n / usable_per_page c) (page_cnt c) ltac:(lia)).
      eexists. split; [|split; [|by intros _; reflexivity]]; [|lia].
      rewrite (g_page_cnt _ _ _ G) in *.
      destruct (lookup_lt_is_Some_2 pages (Z.to_nat ((n / usable_per_page c) mod Z.of_nat (length pages)))) as [x Hx]; [lia|].
      unfold page_at. rewrite Hx. done.
  - assert (0 <= (n - 1) mod usable_per_page c) by (apply Z.mod_pos_bound; lia).
    destruct (Z.eqb_spec (n mod usable_per_page c) 0); [lia|].
    exists pg. rewrite Hp. destruct (n =? 0) eqn:En; zbool.
    { subst n. rewrite Z.mod_0_l in * by lia. lia. }
    rewrite (slot_addr_succ c pages n Hq Hr), Hq. done.
Qed.

(** The same in next-pointer mode, where the skipped elements are added to
    the index. *)
Lemma page_fetch_next_ptr m c pages n p i pg :
  chain_geom m c pages -> mode c = QED_CHAIN_MODE_NEXT_PTR ->
  0 <= n -> side_at c pages n (p, i, pg) ->
  (if Z.land i (elem_per_page_mask c) =? next_page_mask c
   then qed_chain_advance_page m c p i pg else Some (p, i, pg))
  = Some (slot_addr c pages n,
          wrapw c (n / usable_per_page c * elem_per_page c + n mod usable_per_page c), pg).
Proof.
  intros G Hm Hn (Hi & Hp & Hb & _).
  assert (Hus := g_usable _ _ _ G). assert (Hs := g_split _ _ _ G). assert (Hc := g_pages _ _ _ G).
  pose proof (g_mode _ _ _ G) as Gm. rewrite Hm in Gm. destruct Gm as [Hun Hlink].
  rewrite Hi, (masked_idx _ _ _ _ G), (next_mask_value _ _ _ G).
  rewrite (Z.mod_small (usable_per_page c)) by lia.
  unfold lazy_idx. destruct (n =? 0) eqn:En; zbool.
  { subst n. rewrite Z.mod_0_l by lia. rewrite Z.mod_0_l, Z.div_0_l by lia.
    destruct (Z.eqb_spec 0 (usable_per_page c)); [lia|].
    rewrite Hp, slot_addr_next_page by (apply Z.mod_0_l; lia).
    rewrite Z.div_0_l, Z.mod_0_l, (g_first _ _ _ G) by lia. done. }
  rewrite (mod_unique_pos _ _ ((n - 1) / usable_per_page c) ((n - 1) mod usable_per_page c + 1));
    [|pose proof (Z.mod_pos_bound (n - 1) _ Hus); lia|lia].
  destruct (div_mod_succ n (usable_per_page c) Hus) as [(He & Hq & Hr)|(Hlt & Hq & Hr)].
  - rewrite He, Z.eqb_refl, (slot_addr_next_page _ _ n) by done.
    unfold qed_chain_advance_page. rewrite Hm.
    destruct (Hlink (((n - 1) / usable_per_page c) mod page_cnt c)) as (x & Hx & Hv);
      [apply Z.mod_pos_bound; lia|].
    replace p with (page_at pages (((n - 1) / usable_per_page c) mod page_cnt c)
                    + elem_size c * usable_per_page c)
      by (rewrite Hp; unfold slot_addr; nia).
    rewrite Hx. simpl. rewrite Hv, wrapw_unfold, Zplus_mod_idemp_l, <- Hq.
    rewrite (u16_small (elem_unusable c)) by (pose proof (g_unusable _ _ _ G); lia).
    rewrite wrapw_add.
    match goal with |- Some (_, wrapw c ?a, _) = Some (_, wrapw c ?b, _) =>
      replace a with b by (rewrite Hq, Hr; nia) end. done.
  - destruct (Z.eqb_spec ((n - 1) mod usable_per_page c + 1) (usable_per_page c)); [lia|].
    rewrite Hp, (slot_addr_succ c pages n Hq Hr), Hq, Hr, Z.add_assoc. done.
Qed.

Lemma page_fetch m c pages n p i pg :
  chain_geom m c pages -> 0 <= n -> side_at c pages n (p, i, pg) ->
  exists pg',
    (if Z.land i (elem_per_page_mask c) =? next_page_mask c
     then qed_chain_advance_page m c p i pg else Some (p, i, pg))
    = Some (slot_addr c pages n,
            wrapw c (n / usable_per_page c * elem_per_page c + n mod usable_per_page c), pg') /\
    0 <= pg' < 2 ^ width c /\
    (mode c = QED_CHAIN_MODE_PBL -> pg' = (n / usable_per_page c) mod page_cnt c).
Proof.
  intros G Hn Hs. pose proof (g_mode _ _ _ G) as Gm.
  destruct (decide (mode c = QED_CHAIN_MODE_NEXT_PTR)) as [Em|Em].
  - exists pg. rewrite (page_fetch_next_ptr _ _ _ _ _ _ _ G Em Hn Hs).
    destruct Hs as (_ & _ & ? & _). rewrite Em. done.
  - assert (H0 : elem_unusable c = 0) by (destruct (mode c); naive_solver).
    replace (n / usable_per_page c * elem_per_page c + n mod usable_per_page c) with n.
    { by apply (page_fetch_dense _ _ _ _ _ _ _ G). }
    pose proof (Z.div_mod n (usable_per_page c)).
    pose proof (g_usable _ _ _ G). pose proof (g_split _ _ _ G). nia.
Qed.

(** One step of an end of the ring hands out the slot of its counter. *)
Lemma side_step_at m c pages n s :
  chain_geom m c pages -> 0 <= n -> side_at c pages n s ->
  exists s', side_step m c s = Some (slot_addr c pages n, s') /\ side_at c pages (n + 1) s'.
Proof.
  intros G Hn Hs. destruct s as [[p i] pg]. unfold side_step.
  destruct (page_fetch _ _ _ _ _ _ _ G Hn Hs) as (pg' & -> & Hpg & Hpbl). simpl.
  eexists. split; [reflexivity|].
  unfold side_at. rewrite lazy_idx_succ, wrapw_add by done.
  destruct (n + 1 =? 0) eqn:E; zbool; [lia|].
  replace (n + 1 - 1) with n by lia. done.
Qed.

(** ** Ring refinement *)

(** The facts above only read the configuration of a chain. *)
Ltac cfg_fields H :=
  pose proof (f_equal capacity H); pose proof (f_equal page_cnt H);
  pose proof (f_equal mode H); pose proof (f_equal elem_per_page H);
  pose proof (f_equal elem_per_page_mask H); pose proof (f_equal elem_size H);
  pose proof (f_equal next_page_mask H); pose proof (f_equal usable_per_page H);
  pose proof (f_equal elem_unusable H); pose proof (f_equal cnt_type H);
  pose proof (f_equal p_virt_addr H); pose proof (f_equal pp_virt_addr_tbl H); simpl in *.

Ltac rewrite_cfg c :=
  repeat match goal with E : _ c = _ |- _ => rewrite E in *; clear E end.

Lemma chain_geom_cfg m c c' pages : cfg c = cfg c' -> chain_geom m c pages -> chain_geom m c' pages.
Proof.
  intros H G. cfg_fields H. destruct G; constructor; unfold width, is_chain_u16 in *; rewrite_cfg c; done.
Qed.

Lemma slot_addr_cfg c c' pages n : cfg c = cfg c' -> slot_addr c pages n = slot_addr c' pages n.
Proof. intros H. cfg_fields H. unfold slot_addr. rewrite_cfg c. done. Qed.

Lemma side_at_cfg c c' pages n s : cfg c = cfg c' -> side_at c pages n s -> side_at c' pages n s.
Proof.
  intros H. cfg_fields H. destruct s as [[p i] pg].
  unfold side_at, slot_addr, wrapw, lazy_idx, width, is_chain_u16. rewrite_cfg c. done.
Qed.

(** Chain [c] represents the abstract ring with [n] elements produced and
    [k] consumed. *)
Record ring_at (m : dma_mem) (c : qed_chain) (pages : list Z) (n k : Z) : Prop := {
  r_geom : chain_geom m c pages;
  r_wf : chain_wf c;
  r_prod : side_at c pages n (prod_side c);
  r_cons : side_at c pages k (cons_side c)
}.

Lemma produce_ring m c pages n k :
  ring_at m c pages n k -> 0 <= n ->
  exists c', qed_chain_produce m c = Some (slot_addr c pages n, c') /\
             ring_at m c' pages (n + 1) k /\ cfg c' = cfg c.
Proof.
  intros [G W P C] Hn. destruct (side_step_at _ _ _ _ _ G Hn P) as (s' & Hs & Hs').
  destruct (produce_step _ _ _ _ W Hs) as (c' & Hp & <- & Hc & Hcfg & W').
  exists c'. split_and!; try done. constructor; try done.
  - by eapply chain_geom_cfg.
  - by eapply side_at_cfg.
  - rewrite Hc. by eapply side_at_cfg.
Qed.

Lemma consume_ring m c pages n k :
  ring_at m c pages n k -> 0 <= k ->
  exists c', qed_chain_consume m c = Some (slot_addr c pages k, c') /\
             ring_at m c' pages n (k + 1) /\ cfg c' = cfg c.
Proof.
  intros [G W P C] Hn. destruct (side_step_at _ _ _ _ _ G Hn C) as (s' & Hs & Hs').
  destruct (consume_step _ _ _ _ W Hs) as (c' & Hp & <- & Hc & Hcfg & W').
  exists c'. split_and!; try done. constructor; try done.
  - by eapply chain_geom_cfg.
  - rewrite Hc. by eapply side_at_cfg.
  - by eapply side_at_cfg.
Qed.

(** The fast-path requests a queue owner makes, in any order. *)
Inductive chain_op := Produce | Consume.

Fixpoint chain_run (m : dma_mem) (ops : list chain_op) (c : qed_chain)
    : option (list Z * qed_chain) :=
  match ops with
  | [] => Some ([], c)
  | op :: ops =>
      '(p, c) ← match op with
                | Produce => qed_chain_produce m c
                | Consume => qed_chain_consume m c
                end;
      '(ps, c) ← chain_run m ops c;
      Some (p :: ps, c)
  end.

(** The abstract ring: two counters, element [i] in slot [i]. *)
Fixpoint ring_run (slot : Z -> Z) (ops : list chain_op) (n k : Z) : list Z * (Z * Z) :=
  match ops with
  | [] => ([], (n, k))
  | Produce :: ops => let '(ps, r) := ring_run slot ops (n + 1) k in (slot n :: ps, r)
  | Consume :: ops => let '(ps, r) := ring_run slot ops n (k + 1) in (slot k :: ps, r)
  end.

Lemma ring_run_ext f g ops : forall n k,
  (forall i, f i = g i) -> ring_run f ops n k = ring_run g ops n k.
Proof.
  induction ops as [|[] ops IH]; intros n k H; simpl; [done|..]; rewrite (IH _ _ H), H; done.
Qed.

Lemma chain_run_refines m ops : forall c pages n k,
  ring_at m c pages n k -> 0 <= n -> 0 <= k ->
  exists c', chain_run m ops c = Some ((ring_run (slot_addr c pages) ops n k).1, c') /\
    ring_at m c' pages (ring_run (slot_addr c pages) ops n k).2.1
                       (ring_run (slot_addr c pages) ops n k).2.2 /\ cfg c' = cfg c.
Proof.
  induction ops as [|op ops IH]; intros c pages n k R Hn Hk; simpl; [eauto|].
  destruct op;
    [destruct (produce_ring _ _ _ _ _ R Hn) as (c1 & -> & R1 & Hcfg); simpl;
     destruct (IH c1 pages (n + 1) k R1) as (c' & -> & R' & Hcfg'); [lia..|]
    |destruct (consume_ring _ _ _ _ _ R Hk) as (c1 & -> & R1 & Hcfg); simpl;
     destruct (IH c1 pages n (k + 1) R1) as (c' & -> & R' & Hcfg'); [lia..|]];
    rewrite (ring_run_ext (slot_addr c1 pages) (slot_addr c pages)) in *
      by (intros; by apply slot_addr_cfg);
    destruct (ring_run _ ops _ _) as [ps [n' k']]; simpl in *; exists c'; by rewrite Hcfg'.
Qed.

(** ** Reset *)

Lemma reset_indices_cfg c : cfg (reset_indices c) = cfg c.
Proof.
  unfold reset_indices. destruct (is_chain_u16 c); simpl; destruct (mode c); simpl; try done;
    by destruct (is_chain_u16 _).
Qed.

Lemma reset_indices_wf c : chain_wf c -> chain_wf (reset_indices c).
Proof.
  intros [Wu Wp]. unfold reset_indices, chain_wf.
  destruct (is_chain_u16 c); simpl; destruct (mode c); simpl;
    try destruct (is_chain_u16 _); simpl; auto 10 with qed.
Qed.

(** Reset leaves both ends at the start of the first page. *)
Lemma reset_indices_sides c :
  exists pg, prod_side (reset_indices c) = (p_virt_addr c, 0, pg) /\
  (mode c = QED_CHAIN_MODE_PBL -> pg = wrapw c (u32 (page_cnt c - 1))) /\
  (mode c <> QED_CHAIN_MODE_PBL -> pg = idx_prod c (pbl_c c)) /\
  exists pg', cons_side (reset_indices c) = (p_virt_addr c, 0, pg') /\
  (mode c = QED_CHAIN_MODE_PBL -> pg' = wrapw c (u32 (page_cnt c - 1))) /\
  (mode c <> QED_CHAIN_MODE_PBL -> pg' = idx_cons c (pbl_c c)).
Proof.
  unfold reset_indices. unfold prod_side, cons_side, idx_prod, idx_cons, wrapw, width.
  destruct (is_chain_u16 c) eqn:E16; simpl; destruct (mode c) eqn:Em; unfold is_chain_u16 in *;
    simpl; rewrite ?E16; simpl; rewrite ?E16; autorewrite with idx_rw;
    (eexists; split; [reflexivity|]; split; [|split; [|eexists; split; [reflexivity|]; split]]);
    try done; intros _; try (by rewrite u16_small by apply u16_bound);
    by rewrite (u32_small (u32 _)), Z.mod_small by apply u32_bound.
Qed.

Lemma idx_bounds c x : union_wf x -> 0 <= idx_prod c x < 2 ^ width c /\ 0 <= idx_cons c x < 2 ^ width c.
Proof. intros W. unfold idx_prod, idx_cons, width. destruct (is_chain_u16 c); auto with qed. Qed.

Lemma reset_ring m c pages :
  chain_geom m c pages -> chain_wf c -> ring_at m (reset_indices c) pages 0 0.
Proof.
  intros G W. pose proof (reset_indices_cfg c) as Hcfg.
  assert (Hpg : forall pg, (mode c = QED_CHAIN_MODE_PBL -> pg = wrapw c (u32 (page_cnt c - 1))) ->
                (mode c <> QED_CHAIN_MODE_PBL -> 0 <= pg < 2 ^ width c) ->
                side_at c pages 0 (p_virt_addr c, 0, pg)).
  { intros pg Hp Hn. pose proof (g_pages _ _ _ G) as Hc. pose proof (g_usable _ _ _ G).
    split; [symmetry; apply Zmod_0_l|]. split; [done|]. split.
    - destruct (decide (mode c = QED_CHAIN_MODE_PBL)) as [E|E]; [rewrite (Hp E)|auto].
      apply Z.mod_pos_bound, Z.pow_pos_nonneg; width_lia c.
    - intros E. rewrite (Hp E), u32_small by width_lia c.
      unfold wrapw. rewrite Z.mod_small by width_lia c.
      rewrite (div_unique_pos (0 - 1) (usable_per_page c) (-1) (usable_per_page c - 1)) by lia.
      symmetry. apply (mod_unique_pos _ _ (-1)); lia. }
  destruct (reset_indices_sides c) as (pg & Hp & H1 & H2 & pg' & Hc & H3 & H4).
  destruct W as [Wu Wp]. pose proof (idx_bounds c _ Wp) as [].
  constructor.
  - by apply (chain_geom_cfg m c).
  - by apply reset_indices_wf.
  - rewrite Hp. apply (side_at_cfg c); [done|]. apply Hpg; [done|]. intros E. by rewrite H2.
  - rewrite Hc. apply (side_at_cfg c); [done|]. apply Hpg; [done|]. intros E. by rewrite H4.
Qed.

(** ** Index-only operations *)

(** The unbounded index when the unusable elements are skipped eagerly, as
    [qed_chain_return_produced] does. *)
Definition eager_idx (c : qed_chain) (n : Z) : Z :=
  n / usable_per_page c * elem_per_page c + n mod usable_per_page c.

(** Skipping the unusable elements turns a lazy index into an eager one. *)
Lemma skip_lazy m c pages n :
  chain_geom m c pages -> 0 <= n ->
  lazy_idx c n + (if is_unusable_idx c (wrapw c (lazy_idx c n)) then elem_unusable c else 0)
  = eager_idx c n.
Proof.
  intros G Hn. unfold is_unusable_idx. rewrite (masked_idx _ _ _ _ G).
  assert (Hus := g_usable _ _ _ G). assert (Hs := g_split _ _ _ G).
  pose proof (g_unusable _ _ _ G) as [Hun _]. unfold eager_idx.
  destruct (Z.eq_dec (elem_unusable c) 0) as [H0|H0].
  - rewrite lazy_idx_dense by done. rewrite H0 in *.
    pose proof (Z.div_mod n (usable_per_page c) ltac:(lia)). destruct (_ =? _); nia.
  - unfold lazy_idx. destruct (n =? 0) eqn:En; zbool.
    { subst n. rewrite !Z.mod_0_l, Z.div_0_l by lia. destruct (Z.eqb_spec 0 (usable_per_page c)); lia. }
    pose proof (Z.mod_pos_bound (n - 1) _ Hus).
    rewrite (mod_unique_pos _ (elem_per_page c) ((n - 1) / usable_per_page c)
               ((n - 1) mod usable_per_page c + 1)) by lia.
    destruct (div_mod_succ n (usable_per_page c) Hus) as [(He & Hq & Hr)|(Hlt & Hq & Hr)]; rewrite Hq, Hr.
    + rewrite He, Z.eqb_refl. nia.
    + destruct (Z.eqb_spec ((n - 1) mod usable_per_page c + 1) (usable_per_page c)); lia.
Qed.

(** One element beyond an eager index is the next lazy index. *)
Lemma lazy_idx_eager c n : 0 <= n -> lazy_idx c (n + 1) = eager_idx c n + 1.
Proof. apply lazy_idx_succ. Qed.

(** In the page-table and single-page modes the two indices agree. *)
Lemma eager_idx_dense c n :
  elem_unusable c = 0 -> usable_per_page c + elem_unusable c = elem_per_page c ->
  0 < usable_per_page c -> eager_idx c n = n.
Proof.
  intros H0 Hs Hu. unfold eager_idx. pose proof (Z.div_mod n (usable_per_page c) ltac:(lia)). nia.
Qed.

Lemma if_add (b : bool) x y : (if b then x + y else x) = x + (if b then y else 0).
Proof. destruct b; lia. Qed.

(** An update of the producer (resp. consumer) index alone: the index moves by
    [d], the other index and the configuration stay. *)
Definition moves_prod (d : Z) (c c' : qed_chain) : Prop :=
  idx_prod c' (u c') = wrapw c (idx_prod c (u c) + d) /\ idx_cons c' (u c') = idx_cons c (u c) /\
  chain_wf c' /\ c' <| u := u c |> = c.
Definition moves_cons (d : Z) (c c' : qed_chain) : Prop :=
  idx_cons c' (u c') = wrapw c (idx_cons c (u c) + d) /\ idx_prod c' (u c') = idx_prod c (u c) /\
  chain_wf c' /\ c' <| u := u c |> = c.

Lemma moves_cfg c c' : c' <| u := u c |> = c -> cfg c' = cfg c.
Proof. intros H. rewrite <- H. done. Qed.

Lemma moves_trans c c1 c2 :
  c1 <| u := u c |> = c -> c2 <| u := u c1 |> = c1 -> c2 <| u := u c |> = c.
Proof. intros H1 H2. exact (eq_trans (f_equal (fun x => x <| u := u c |>) H2) H1). Qed.

Ltac solve_moves c Wu :=
  pose proof (prod16_bound (u c)); pose proof (prod32_bound _ Wu);
  pose proof (cons16_bound (u c)); pose proof (cons32_bound _ Wu);
  destruct (is_chain_u16 c) eqn:E16; unfold is_chain_u16 in *;
  try match goal with |- context [is_unusable_idx c ?x] => destruct (is_unusable_idx c x) end;
  simpl; rewrite ?E16; autorewrite with idx_rw; rewrite ?Z.add_0_r;
  (split; [by rewrite ?Z.mod_small by lia|]); (split; [done|]);
  (split; [split; simpl; auto with qed|by destruct c]).

Lemma test_and_skip_prod_moves c :
  chain_wf c ->
  moves_prod (if is_unusable_idx c (idx_prod c (u c)) then elem_unusable c else 0)
             c (test_and_skip_prod c).
Proof.
  intros [Wu Wp]. unfold moves_prod, test_and_skip_prod, idx_prod, idx_cons, wrapw, width.
  solve_moves c Wu.
Qed.

Lemma test_and_skip_cons_moves c :
  chain_wf c ->
  moves_cons (if is_unusable_idx c (idx_cons c (u c)) then elem_unusable c else 0)
             c (test_and_skip_cons c).
Proof.
  intros [Wu Wp]. unfold moves_cons, test_and_skip_cons, idx_prod, idx_cons, wrapw, width.
  solve_moves c Wu.
Qed.

Lemma incr_prod_moves c :
  chain_wf c ->
  moves_prod 1 c (if is_chain_u16 c then c <| u := set_prod16 (prod16 (u c) + 1) (u c) |>
                  else c <| u := set_prod32 (prod32 (u c) + 1) (u c) |>).
Proof.
  intros [Wu Wp]. unfold moves_prod, idx_prod, idx_cons, wrapw, width. solve_moves c Wu.
Qed.

Lemma incr_cons_moves c :
  chain_wf c ->
  moves_cons 1 c (if is_chain_u16 c then c <| u := set_cons16 (cons16 (u c) + 1) (u c) |>
                  else c <| u := set_cons32 (cons32 (u c) + 1) (u c) |>).
Proof.
  intros [Wu Wp]. unfold moves_cons, idx_prod, idx_cons, wrapw, width. solve_moves c Wu.
Qed.

Lemma idx_cfg c c' : cfg c = cfg c' ->
  (forall n, lazy_idx c n = lazy_idx c' n) /\ (forall n, eager_idx c n = eager_idx c' n) /\
  (forall x, wrapw c x = wrapw c' x).
Proof.
  intros H. cfg_fields H. unfold lazy_idx, eager_idx, wrapw, width, is_chain_u16. rewrite_cfg c. done.
Qed.

(** [qed_chain_recycle_consumed] moves the producer index by one element. *)
Lemma recycle_idx m c pages n :
  chain_geom m c pages -> chain_wf c -> 0 <= n ->
  idx_prod c (u c) = wrapw c (lazy_idx c n) ->
  let c' := qed_chain_recycle_consumed c in
  idx_prod c' (u c') = wrapw c (lazy_idx c (n + 1)) /\
  idx_cons c' (u c') = idx_cons c (u c) /\ chain_wf c' /\ c' <| u := u c |> = c.
Proof.
  intros G W Hn Hi. destruct (test_and_skip_prod_moves c W) as (Hp & Hc & W1 & He).
  destruct (incr_prod_moves _ W1) as (Hp' & Hc' & W2 & He').
  destruct (idx_cfg _ _ (moves_cfg _ _ He)) as (_ & _ & Hw).
  simpl. unfold qed_chain_recycle_consumed. rewrite Hp', Hc', Hp, Hc, Hw, wrapw_add, Hi.
  rewrite <- Z.add_assoc, wrapw_add, Z.add_assoc, (skip_lazy _ _ _ _ G Hn), lazy_idx_eager by done.
  split_and!; try done. by eapply moves_trans.
Qed.

(** [qed_chain_return_produced] moves the consumer index by one element. *)
Lemma return_produced_idx m c pages k :
  chain_geom m c pages -> chain_wf c -> 0 <= k ->
  idx_cons c (u c) = wrapw c (eager_idx c k) ->
  let c' := qed_chain_return_produced c in
  idx_cons c' (u c') = wrapw c (eager_idx c (k + 1)) /\
  idx_prod c' (u c') = idx_prod c (u c) /\ chain_wf c' /\ c' <| u := u c |> = c.
Proof.
  intros G W Hk Hi. destruct (incr_cons_moves c W) as (Hp & Hc & W1 & He).
  set (c1 := if is_chain_u16 c then _ else _) in *.
  destruct (test_and_skip_cons_moves _ W1) as (Hp' & Hc' & W2 & He').
  destruct (idx_cfg _ _ (moves_cfg _ _ He)) as (_ & _ & Hw).
  assert (Hx : idx_cons c1 (u c1) = wrapw c (lazy_idx c (k + 1))).
  { rewrite Hp, Hi, wrapw_add, lazy_idx_eager by done. done. }
  simpl. unfold qed_chain_return_produced. fold c1. rewrite Hp', Hc', Hc, Hw, Hx, wrapw_add.
  replace (is_unusable_idx c1) with (is_unusable_idx c)
    by (unfold is_unusable_idx; rewrite <- He; done).
  replace (elem_unusable c1) with (elem_unusable c) by (rewrite <- He; done).
  rewrite (skip_lazy _ _ _ _ G) by lia.
  split_and!; try done. by eapply moves_trans.
Qed.

(** ** The number of free elements *)

(** Difference of two wrapped counters, as the drivers compute it. *)
Lemma wrap_diff W P K :
  0 < W -> 0 <= P - K < W ->
  (if P mod W <? K mod W then P mod W + W else P mod W) = K mod W + (P - K).
Proof.
  intros HW HD. pose proof (Z.div_mod P W ltac:(lia)). pose proof (Z.div_mod K W ltac:(lia)).
  pose proof (Z.mod_pos_bound P W HW). pose proof (Z.mod_pos_bound K W HW).
  assert (P / W - K / W = 0 \/ P / W - K / W = 1) as [E|E] by nia; zcases; nia.
Qed.

(** A wrap of the index by a multiple of the page length keeps page distances. *)
Lemma wrap_page_diff W e K D :
  0 < e -> W mod e = 0 -> 0 < W -> (K mod W + D) / e - K mod W / e = (K + D) / e - K / e.
Proof.
  intros He HWe HW. pose proof (Z.div_mod K W ltac:(lia)) as HK.
  assert (W = e * (W / e)) as EW by (pose proof (Z.div_mod W e ltac:(lia)); lia).
  rewrite HK at 3 4.
  replace (W * (K / W) + K mod W + D) with (K mod W + D + (W / e * (K / W)) * e) by nia.
  replace (W * (K / W) + K mod W) with (K mod W + (W / e * (K / W)) * e) by nia.
  rewrite !Z.div_add by lia. lia.
Qed.

Lemma lazy_idx_eager' c n :
  n <> 0 -> lazy_idx c n = eager_idx c (n - 1) + 1.
Proof. intros. unfold lazy_idx, eager_idx. destruct (Z.eqb_spec n 0); lia. Qed.

(** With one unusable element per page, the index counts the elements plus the
    pages left behind. *)
Lemma lazy_idx_pages c n :
  0 < usable_per_page c -> usable_per_page c + 1 = elem_per_page c -> 0 <= n ->
  lazy_idx c n - lazy_idx c n / elem_per_page c = n.
Proof.
  intros Hu He Hn. unfold lazy_idx. destruct (Z.eqb_spec n 0) as [->|]; [by rewrite Z.div_0_l by lia|].
  pose proof (Z.mod_pos_bound (n - 1) _ Hu). pose proof (Z.div_mod (n - 1) (usable_per_page c) ltac:(lia)).
  rewrite (div_unique_pos _ (elem_per_page c) ((n - 1) / usable_per_page c)
             ((n - 1) mod usable_per_page c + 1)) by lia. nia.
Qed.

(** A full ring spans at most the elements of its pages. *)
Lemma lazy_idx_span m c pages n k :
  chain_geom m c pages -> 0 <= k <= n -> n - k <= capacity c ->
  0 <= lazy_idx c n - lazy_idx c k <= elem_per_page c * page_cnt c.
Proof.
  intros G Hk Hn. assert (Hus := g_usable _ _ _ G). assert (Hs := g_split _ _ _ G).
  destruct (g_unusable _ _ _ G) as [Hun _]. rewrite (g_capacity _ _ _ G) in Hn.
  set (us := usable_per_page c) in *. set (pc := page_cnt c) in *.
  assert (Hpc : 0 < pc) by (apply (g_pages _ _ _ G)).
  assert (Hmono : forall a b, 0 <= a <= b -> b - a <= us * pc ->
    0 <= eager_idx c b - eager_idx c a <= elem_per_page c * pc).
  { intros a b Hab Hd. unfold eager_idx. fold us.
    pose proof (Z.div_mod a us ltac:(lia)). pose proof (Z.div_mod b us ltac:(lia)).
    pose proof (Z.mod_pos_bound a us Hus). pose proof (Z.mod_pos_bound b us Hus).
    assert (0 <= b / us - a / us <= pc) by nia. nia. }
  destruct (Z.eq_dec n 0), (Z.eq_dec k 0); subst; rewrite ?lazy_idx_eager' by lia;
    try (change (lazy_idx c 0) with 0); try nia.
  - pose proof (Hmono 0 (n - 1) ltac:(lia) ltac:(lia)) as Hm.
    unfold eager_idx in *. fold us in Hm |- *.
    rewrite Z.div_0_l, Z.mod_0_l in Hm by lia.
    pose proof (Z.div_mod (n - 1) us ltac:(lia)). pose proof (Z.mod_pos_bound (n - 1) us Hus).
    assert ((n - 1) / us <= pc - 1) by nia. nia.
  - pose proof (Hmono (k - 1) (n - 1) ltac:(lia) ltac:(lia)). lia.
Qed.

Definition elem_left (c : qed_chain) : Z :=
  if is_chain_u16 c then qed_chain_get_elem_left c else qed_chain_get_elem_left_u32 c.

(** Both readers compute the same thing from the two wrapped indices. *)
Lemma elem_left_idx m c pages P K used :
  chain_geom m c pages -> elem_per_page c * page_cnt c < 2 ^ width c ->
  idx_prod c (u c) = wrapw c P -> idx_cons c (u c) = wrapw c K ->
  0 <= P - K < 2 ^ width c ->
  used = match mode c with
         | QED_CHAIN_MODE_NEXT_PTR => P - K - (P / elem_per_page c - K / elem_per_page c)
         | _ => P - K
         end ->
  0 <= used <= capacity c -> used <= P - K ->
  elem_left c = capacity c - used.
Proof.
  intros G Hsz HP HK HD Hu Hc HuD. destruct (g_pow2 _ _ _ G) as (j & Hj & Ee).
  pose proof (g_usable _ _ _ G). pose proof (g_split _ _ _ G).
  destruct (g_unusable _ _ _ G) as [Hun _]. pose proof (g_pages _ _ _ G) as Hpc.
  assert (He : 0 < elem_per_page c) by (rewrite Ee; apply Z.pow_pos_nonneg; lia).
  assert (Hcap : capacity c <= elem_per_page c * page_cnt c) by (rewrite (g_capacity _ _ _ G); nia).
  assert (HWe : forall w, 16 <= w -> 2 ^ w mod elem_per_page c = 0).
  { intros w Hw. rewrite Ee. replace w with (w - j + j) by lia. rewrite Z.pow_add_r by lia.
    apply Z.mod_mul. lia. }
  unfold elem_left, qed_chain_get_elem_left, qed_chain_get_elem_left_u32, QED_U16_MAX, QED_U32_MAX.
  unfold idx_prod, idx_cons, wrapw, width in *. destruct (is_chain_u16 c).
  - rewrite HP, HK. change (65535 + 1) with (2 ^ 16).
    pose proof (Z.mod_pos_bound P (2 ^ 16)). pose proof (Z.mod_pos_bound K (2 ^ 16)).
    rewrite (u32_small (P mod 2 ^ 16 + 2 ^ 16)) by lia.
    rewrite wrap_diff by lia.
    pose proof (wrap_page_diff (2 ^ 16) (elem_per_page c) K (P - K) He (HWe 16 ltac:(lia)) ltac:(lia)) as Hpd.
    replace (K + (P - K)) with P in Hpd by lia.
    destruct (mode c); rewrite ?Hpd; wrap_small; lia.
  - rewrite HP, HK. change (4294967295 + 1) with (2 ^ 32).
    pose proof (Z.mod_pos_bound P (2 ^ 32)). pose proof (Z.mod_pos_bound K (2 ^ 32)).
    rewrite (u64_small (P mod 2 ^ 32 + 2 ^ 32)) by lia.
    rewrite wrap_diff by lia.
    pose proof (wrap_page_diff (2 ^ 32) (elem_per_page c) K (P - K) He (HWe 32 ltac:(lia)) ltac:(lia)) as Hpd.
    replace (K + (P - K)) with P in Hpd by lia.
    destruct (mode c); rewrite ?Hpd; wrap_small; lia.
Qed.

(** The free count of a chain whose indices stand at [n] and [k] elements. *)
Lemma elem_left_lazy m c pages n k :
  chain_geom m c pages -> elem_per_page c * page_cnt c < 2 ^ width c ->
  elem_unusable c <= 1 ->
  idx_prod c (u c) = wrapw c (lazy_idx c n) -> idx_cons c (u c) = wrapw c (lazy_idx c k) ->
  0 <= k <= n -> n - k <= capacity c ->
  elem_left c = capacity c - (n - k).
Proof.
  intros G Hsz Hun HP HK Hk Hn. pose proof (lazy_idx_span _ _ _ _ _ G Hk Hn) as Hspan.
  pose proof (g_usable _ _ _ G). pose proof (g_split _ _ _ G) as Hs. pose proof (g_mode _ _ _ G) as Hm.
  assert (Hd : elem_unusable c = 0 -> forall x, lazy_idx c x = x)
    by (intros; apply lazy_idx_dense; done).
  assert (Hx : elem_unusable c <> 0 -> forall x, 0 <= x -> lazy_idx c x - lazy_idx c x / elem_per_page c = x).
  { intros; apply lazy_idx_pages; try done. pose proof (g_unusable _ _ _ G). lia. }
  apply (elem_left_idx m c pages _ _ _ G Hsz HP HK); [lia| |lia|].
  - destruct (mode c); destruct Hm as [H0 _];
      [pose proof (Hx ltac:(lia) n); pose proof (Hx ltac:(lia) k); lia|rewrite !Hd by done; done..].
  - destruct (Z.eq_dec (elem_unusable c) 0) as [E|E]; [rewrite !Hd by done; lia|].
    pose proof (Hx E n ltac:(lia)) as En. pose proof (Hx E k ltac:(lia)) as Ek.
    assert (lazy_idx c k / elem_per_page c <= lazy_idx c n / elem_per_page c)
      by (pose proof (g_unusable _ _ _ G); apply Z.div_le_mono; lia). lia.
Qed.

(** ** The two ways a chain is used *)

(** A queue the driver fills ([QED_CHAIN_USE_TO_PRODUCE]): elements are taken
    with [qed_chain_produce] and released, in order, with
    [qed_chain_return_produced], which moves the consumer index only. *)
Record tx_at (m : dma_mem) (c : qed_chain) (pages : list Z) (n k : Z) : Prop := {
  tx_geom : chain_geom m c pages;
  tx_wf : chain_wf c;
  tx_prod : side_at c pages n (prod_side c);
  tx_cons : idx_cons c (u c) = wrapw c (eager_idx c k)
}.

(** A queue the driver drains ([QED_CHAIN_USE_TO_CONSUME]): elements are taken
    with [qed_chain_consume] and handed back to the device with
    [qed_chain_recycle_consumed], which moves the producer index only. *)
Record rx_at (m : dma_mem) (c : qed_chain) (pages : list Z) (n k : Z) : Prop := {
  rx_geom : chain_geom m c pages;
  rx_wf : chain_wf c;
  rx_prod : idx_prod c (u c) = wrapw c (lazy_idx c n);
  rx_cons : side_at c pages k (cons_side c)
}.

Lemma produce_tx m c pages n k :
  tx_at m c pages n k -> 0 <= n ->
  exists c', qed_chain_produce m c = Some (slot_addr c pages n, c') /\
             tx_at m c' pages (n + 1) k /\ cfg c' = cfg c.
Proof.
  intros [G W P C] Hn. destruct (side_step_at _ _ _ _ _ G Hn P) as (s' & Hs & Hs').
  destruct (produce_step _ _ _ _ W Hs) as (c' & Hp & <- & Hc & Hcfg & W').
  destruct (idx_cfg _ _ Hcfg) as (_ & He & Hw).
  exists c'. split_and!; try done. constructor; try done.
  - by eapply chain_geom_cfg.
  - by eapply side_at_cfg.
  - rewrite Hw, He, <- C. unfold cons_side in Hc. congruence.
Qed.

(** Replacing the index word leaves the sides' pointers and pages alone. *)
Lemma prod_side_u c c' :
  c' <| u := u c |> = c -> idx_prod c' (u c') = idx_prod c (u c) -> prod_side c' = prod_side c.
Proof. intros He Hi. unfold prod_side. rewrite Hi, <- He. done. Qed.
Lemma cons_side_u c c' :
  c' <| u := u c |> = c -> idx_cons c' (u c') = idx_cons c (u c) -> cons_side c' = cons_side c.
Proof. intros He Hi. unfold cons_side. rewrite Hi, <- He. done. Qed.

Lemma return_tx m c pages n k :
  tx_at m c pages n k -> 0 <= k ->
  tx_at m (qed_chain_return_produced c) pages n (k + 1) /\ cfg (qed_chain_return_produced c) = cfg c.
Proof.
  intros [G W P C] Hk. destruct (return_produced_idx _ _ _ _ G W Hk C) as (Hc & Hp & W' & He).
  pose proof (moves_cfg _ _ He) as Hcfg. destruct (idx_cfg _ _ Hcfg) as (_ & Hg & Hw).
  split; [|done]. constructor; try done.
  - by eapply chain_geom_cfg.
  - rewrite (prod_side_u _ _ He Hp). by eapply side_at_cfg.
  - by rewrite Hw, Hg.
Qed.

Lemma consume_rx m c pages n k :
  rx_at m c pages n k -> 0 <= k ->
  exists c', qed_chain_consume m c = Some (slot_addr c pages k, c') /\
             rx_at m c' pages n (k + 1) /\ cfg c' = cfg c.
Proof.
  intros [G W P C] Hn. destruct (side_step_at _ _ _ _ _ G Hn C) as (s' & Hs & Hs').
  destruct (consume_step _ _ _ _ W Hs) as (c' & Hp & <- & Hc & Hcfg & W').
  destruct (idx_cfg _ _ Hcfg) as (Hl & _ & Hw).
  exists c'. split_and!; try done. constructor; try done.
  - by eapply chain_geom_cfg.
  - rewrite Hw, Hl, <- P. unfold prod_side in Hc. congruence.
  - by eapply side_at_cfg.
Qed.

Lemma recycle_rx m c pages n k :
  rx_at m c pages n k -> 0 <= n ->
  rx_at m (qed_chain_recycle_consumed c) pages (n + 1) k /\ cfg (qed_chain_recycle_consumed c) = cfg c.
Proof.
  intros [G W P C] Hn. destruct (recycle_idx _ _ _ _ G W Hn P) as (Hp & Hc & W' & He).
  pose proof (moves_cfg _ _ He) as Hcfg. destruct (idx_cfg _ _ Hcfg) as (Hl & _ & Hw).
  split; [|done]. constructor; try done.
  - by eapply chain_geom_cfg.
  - by rewrite Hw, Hl.
  - rewrite (cons_side_u _ _ He Hc). by eapply side_at_cfg.
Qed.

Lemma recycle_iter_rx m c pages n k j :
  rx_at m c pages n k -> 0 <= n ->
  rx_at m (Nat.iter j qed_chain_recycle_consumed c) pages (n + Z.of_nat j) k /\
  cfg (Nat.iter j qed_chain_recycle_consumed c) = cfg c.
Proof.
  intros R Hn. induction j as [|j [IH Hc]]; simpl; [by rewrite Z.add_0_r|].
  destruct (recycle_rx _ _ _ _ _ IH) as [IH' Hc']; [lia|].
  replace (n + Z.of_nat (S j)) with (n + Z.of_nat j + 1) by lia. by rewrite Hc'.
Qed.

Lemma ring_tx m c pages n : ring_at m c pages n 0 -> tx_at m c pages n 0.
Proof.
  intros [G W P C]. constructor; try done. destruct C as [C _]. rewrite C. unfold eager_idx.
  pose proof (g_usable _ _ _ G). by rewrite Z.div_0_l, Z.mod_0_l by lia.
Qed.
Lemma ring_rx m c pages n k : ring_at m c pages n k -> rx_at m c pages n k.
Proof. intros [G W P C]. constructor; try done. apply P. Qed.

(** What [qed_chain_reset] leaves behind, by intended use. *)
Lemma reset_tx m c pages :
  chain_geom m c pages -> chain_wf c -> intended_use c <> QED_CHAIN_USE_TO_CONSUME ->
  ring_at m (qed_chain_reset c) pages 0 0 /\ cfg (qed_chain_reset c) = cfg c.
Proof.
  intros G W Hu. pose proof (reset_indices_cfg c) as Hcfg. unfold qed_chain_reset.
  pose proof (f_equal intended_use Hcfg) as E. simpl in E.
  rewrite E. destruct (intended_use c); try done; split; auto using reset_ring.
Qed.

Lemma reset_rx m c pages :
  chain_geom m c pages -> chain_wf c -> intended_use c = QED_CHAIN_USE_TO_CONSUME ->
  rx_at m (qed_chain_reset c) pages (capacity c) 0 /\ cfg (qed_chain_reset c) = cfg c.
Proof.
  intros G W Hu. pose proof (reset_indices_cfg c) as Hcfg. unfold qed_chain_reset.
  pose proof (f_equal intended_use Hcfg) as E. pose proof (f_equal capacity Hcfg) as Ec. simpl in E, Ec.
  rewrite E, Hu, Ec. pose proof (ring_rx _ _ _ _ _ (reset_ring _ _ _ G W)) as R.
  destruct (recycle_iter_rx _ _ _ _ _ (Z.to_nat (capacity c)) R) as [R' Hc]; [lia|].
  rewrite Hc. split; [|done]. replace (capacity c) with (0 + Z.of_nat (Z.to_nat (capacity c))) at 2; [done|].
  rewrite (g_capacity _ _ _ G). pose proof (g_usable _ _ _ G). pose proof (g_pages _ _ _ G). nia.
Qed.

(** ** Moving an end of a page-table ring *)

(** Page number of the element before a wrapped index, when the index does
    not sit on the wrap itself. *)
Lemma page_of_idx m c pages x :
  chain_geom m c pages -> 1 <= wrapw c x ->
  Z.land (u32 (wrapw c x - 1)) (not32 (elem_per_page_mask c))
  = (wrapw c x - 1) / elem_per_page c * elem_per_page c.
Proof.
  intros G Hx. destruct (g_pow2 _ _ _ G) as (k & Hk & Ek).
  assert (wrapw c x < 2 ^ 32).
  { unfold wrapw in *. destruct (Z.mod_pos_bound x (2 ^ width c)); width_lia c. }
  rewrite u32_small, (g_mask _ _ _ G), Ek by lia. apply land_not_mask; lia.
Qed.

(** Moving back from element [n] to element [n0] with no index wrap between
    them finds the page of element [n0]. *)
Lemma set_page_idx_back m c pages n n0 :
  chain_geom m c pages -> elem_unusable c = 0 -> page_cnt c < 2 ^ 31 ->
  0 <= n0 <= n -> n - n0 <= capacity c -> n - n0 < 2 ^ width c ->
  1 <= wrapw c n0 <= wrapw c n ->
  set_page_idx c (wrapw c n) (wrapw c n0) (((n - 1) / usable_per_page c) mod page_cnt c)
  = ((n0 - 1) / usable_per_page c) mod page_cnt c.
Proof.
  intros G H0 Hpc Hn Hcap HnW Hw. assert (Hus := g_usable _ _ _ G).
  assert (Ee : elem_per_page c = usable_per_page c) by (pose proof (g_split _ _ _ G); lia).
  unfold set_page_idx, qed_chain_get_page_cnt.
  rewrite !(page_of_idx _ _ _ _ G), Ee by lia. rewrite (g_capacity _ _ _ G) in Hcap.
  set (us := usable_per_page c) in *. set (pc := page_cnt c) in *.
  assert (Hpos : 0 < pc) by apply (g_pages _ _ _ G).
  assert (Hdiv : exists W, 0 < W /\ W <= 2 ^ 32 /\ n - n0 < W /\ W mod us = 0 /\ forall x, wrapw c x = x mod W).
  { exists (2 ^ width c). destruct (g_pow2 _ _ _ G) as (k & Hk & Ek).
    split_and!; [width_lia c..| |done]. subst us. rewrite <- Ee, Ek.
    replace (width c) with (width c - k + k) by lia.
    rewrite Z.pow_add_r by width_lia c. apply Z.mod_mul. lia. }
  destruct Hdiv as (W & HW & HW' & HWn & HWu & Hwr). rewrite !Hwr in Hw |- *.
  assert (HWq : W = us * (W / us)) by (pose proof (Z.div_mod W us ltac:(lia)); lia).
  pose proof (Z.div_mod n W ltac:(lia)) as En. pose proof (Z.div_mod n0 W ltac:(lia)) as En0.
  pose proof (Z.mod_pos_bound n W HW). pose proof (Z.mod_pos_bound n0 W HW).
  assert (Hq : forall x, (x - 1) / us = (x mod W - 1) / us + W / us * (x / W)).
  { intros x. rewrite <- Z.div_add by lia. f_equal. pose proof (Z.div_mod x W ltac:(lia)). nia. }
  assert (Eq : n / W = n0 / W) by nia.
  pose proof (Z.div_le_mono (n0 mod W - 1) (n mod W - 1) us Hus ltac:(lia)) as Hle.
  assert (Hd : (n - 1) / us - (n0 - 1) / us <= pc).
  { pose proof (Z.div_mod (n - 1) us ltac:(lia)). pose proof (Z.div_mod (n0 - 1) us ltac:(lia)).
    pose proof (Z.mod_pos_bound (n - 1) us Hus). pose proof (Z.mod_pos_bound (n0 - 1) us Hus). nia. }
  rewrite (Hq n), (Hq n0), Eq in Hd |- *.
  set (q := (n mod W - 1) / us) in *. set (q0 := (n0 mod W - 1) / us) in *.
  set (t := W / us * (n0 / W)) in *.
  assert (0 <= q0) by (apply Z.div_pos; lia).
  assert (q * us <= n mod W - 1) by (pose proof (Z.mul_div_le (n mod W - 1) us Hus); lia).
  assert (0 <= (q - q0) * us) by (apply Z.mul_nonneg_nonneg; lia).
  assert (0 <= q0 * us) by (apply Z.mul_nonneg_nonneg; lia).
  rewrite <- Z.mul_sub_distr_r. rewrite (u32_small ((q - q0) * us)), Z.div_mul by lia.
  pose proof (Z.mod_pos_bound (q + t) pc Hpos). rewrite u32_small by lia.
  replace ((q + t) mod pc - (q - q0) + pc) with (((q + t) mod pc + (q0 - q)) + 1 * pc) by lia.
  rewrite Z.mod_add, Zplus_mod_idemp_l by lia. f_equal. lia.
Qed.

(** A chain whose producer end was overwritten by [qed_chain_set_prod]. *)
Lemma set_prod_sides i p c :
  chain_wf c -> 0 <= i < 2 ^ width c ->
  let c' := qed_chain_set_prod i p c in
  (exists pg, prod_side c' = (p, i, pg) /\ 0 <= pg < 2 ^ width c /\
     (mode c = QED_CHAIN_MODE_PBL ->
      pg = wrapw c (set_page_idx c (idx_prod c (u c)) i (idx_prod c (pbl_c c))))) /\
  cons_side c' = cons_side c /\ cfg c' = cfg c /\ chain_wf c'.
Proof.
  intros [Wu Wp] Hi. pose proof (idx_bounds c _ Wp) as [Hpb _]. revert Hi Hpb.
  unfold qed_chain_set_prod, prod_side, cons_side, idx_prod, idx_cons, wrapw, width.
  destruct (is_chain_u16 c) eqn:E16; simpl; intros Hi Hpb;
    destruct (mode c) eqn:Em; unfold is_chain_u16 in *; simpl; rewrite ?E16; simpl; rewrite ?E16;
    autorewrite with idx_rw; rewrite ?(u16_small (u16 _)), ?(u16_small i), ?(u32_small i) by auto with qed lia.
  all: split_and!; [eexists; split; [reflexivity|]; split; [auto with qed|done]
                   |done|done|unfold chain_wf; simpl; auto with qed].
Qed.

(** Rewinding the producer to an element it already passed. *)
Lemma set_prod_tx m c pages n k n0 p :
  tx_at m c pages n k -> mode c = QED_CHAIN_MODE_PBL -> page_cnt c < 2 ^ 31 ->
  0 <= n0 <= n -> n - n0 <= capacity c -> n - n0 < 2 ^ width c ->
  1 <= wrapw c n0 <= wrapw c n ->
  p = slot_addr c pages (n0 - 1) + elem_size c ->
  tx_at m (qed_chain_set_prod (wrapw c n0) p c) pages n0 k.
Proof.
  intros [G W P C] Hm Hpc Hn Hcap HnW Hw Hp.
  assert (H0 : elem_unusable c = 0) by (pose proof (g_mode _ _ _ G) as X; rewrite Hm in X; apply X).
  assert (Hd : forall x, lazy_idx c x = x)
    by (intros; apply lazy_idx_dense; [done|apply (g_split _ _ _ G)|apply (g_usable _ _ _ G)]).
  assert (Hi : 0 <= wrapw c n0 < 2 ^ width c) by (apply Z.mod_pos_bound; width_lia c).
  destruct (set_prod_sides (wrapw c n0) p c W Hi) as ((pg & Hs & Hb & Hpg) & Hcs & Hcfg & W').
  destruct (idx_cfg _ _ Hcfg) as (_ & He & Hwr).
  constructor; [by eapply chain_geom_cfg|done| |].
  - rewrite Hs. apply (side_at_cfg c); [done|]. unfold prod_side, side_at in P |- *.
    destruct P as (Pi & _ & _ & Ppg). rewrite Hd in Pi |- *.
    assert (n0 <> 0) by (intros ->; unfold wrapw in Hw; rewrite Zmod_0_l in Hw; lia).
    destruct (Z.eqb_spec n0 0); [done|]. split_and!; try done; try lia. intros _.
    rewrite (Hpg Hm), Pi, (Ppg Hm), (set_page_idx_back m c pages) by done.
    apply Z.mod_small. pose proof (g_pages _ _ _ G).
    pose proof (Z.mod_pos_bound ((n0 - 1) / usable_per_page c) (page_cnt c)). lia.
  - rewrite Hwr, He, <- C. unfold cons_side in Hcs. congruence.
Qed.

(** ** Address queries *)

Lemma page_at_lookup (pages : list Z) i p :
  pages !! Z.to_nat i = Some p -> page_at pages i = p.
Proof. unfold page_at. by intros ->. Qed.
Lemma page_at_some (pages : list Z) i :
  0 <= i < Z.of_nat (length pages) -> pages !! Z.to_nat i = Some (page_at pages i).
Proof. intros Hi. unfold page_at. destruct (lookup_lt_is_Some_2 pages (Z.to_nat i)) as [x ->]; [lia|done]. Qed.

Lemma page_at_inj (pages : list Z) i j :
  NoDup pages -> 0 <= i < Z.of_nat (length pages) -> 0 <= j < Z.of_nat (length pages) ->
  page_at pages i = page_at pages j -> i = j.
Proof.
  intros ND Hi Hj E. pose proof (page_at_some _ _ Hi) as Li. pose proof (page_at_some _ _ Hj) as Lj.
  rewrite E in Li. pose proof (NoDup_lookup _ _ _ _ ND Li Lj). lia.
Qed.

(** The next-pointer walk stops on the last page, with fuel for each page. *)
Lemma last_page_walk m c pages : 
  chain_geom m c pages -> mode c = QED_CHAIN_MODE_NEXT_PTR -> NoDup pages ->
  forall fuel i, 0 <= i < page_cnt c -> page_cnt c - 1 - i <= Z.of_nat fuel ->
  last_page_loop fuel m c (page_at pages i) = Some (page_at pages (page_cnt c - 1)).
Proof.
  intros G Hm ND. pose proof (g_mode _ _ _ G) as Hmode. rewrite Hm in Hmode.
  destruct Hmode as [_ Hnext]. pose proof (g_page_cnt _ _ _ G) as Hlen.
  assert (Ho : next_ptr_offset c = elem_size c * usable_per_page c).
  { apply u32_small. pose proof (g_elem_size _ _ _ G). pose proof (g_usable _ _ _ G). nia. }
  induction fuel as [|fuel IH]; intros i Hi Hf; simpl; rewrite Ho;
    destruct (Hnext i Hi) as (x & Hr & Hv); rewrite Hr; simpl; rewrite Hv, (g_first _ _ _ G).
  - replace i with (page_cnt c - 1) by lia. rewrite Z.sub_add, Z.mod_same, Z.eqb_refl by lia. done.
  - destruct (Z.eq_dec i (page_cnt c - 1)) as [->|Hne].
    + rewrite Z.sub_add, Z.mod_same, Z.eqb_refl by lia. done.
    + rewrite Z.mod_small by lia. destruct (Z.eqb_spec (page_at pages (i + 1)) (page_at pages 0)) as [E|E].
      * apply page_at_inj in E; [lia|done|lia..].
      * apply IH; lia.
Qed.

Lemma last_slot m c pages :
  chain_geom m c pages ->
  slot_addr c pages (capacity c - 1)
  = page_at pages (page_cnt c - 1) + elem_size c * (usable_per_page c - 1).
Proof.
  intros G. pose proof (g_usable _ _ _ G) as Hu. pose proof (g_pages _ _ _ G) as [Hp _].
  rewrite (g_capacity _ _ _ G). unfold slot_addr.
  rewrite (div_unique_pos _ _ (page_cnt c - 1) (usable_per_page c - 1)) by nia.
  rewrite (mod_unique_pos (_ - 1) (usable_per_page c) (page_cnt c - 1) (usable_per_page c - 1)) by nia.
  by rewrite (Z.mod_small (page_cnt c - 1)) by lia.
Qed.

(** [qed_chain_get_last_elem] finds the last slot of the ring. *)
Lemma get_last_elem_slot m c pages :
  chain_geom m c pages -> NoDup pages -> p_virt_addr c <> 0 ->
  qed_chain_get_last_elem m c = Some (slot_addr c pages (capacity c - 1)).
Proof.
  intros G ND Hv. rewrite (last_slot m c pages G). unfold qed_chain_get_last_elem.
  destruct (Z.eqb_spec (p_virt_addr c) 0); [done|].
  pose proof (g_pages _ _ _ G) as [Hp1 Hp2]. pose proof (g_page_cnt _ _ _ G) as Hlen.
  pose proof (g_usable _ _ _ G). destruct (g_elem_size _ _ _ G) as [He1 He2].
  rewrite (u32_small (elem_size c * (usable_per_page c - 1))) by nia.
  destruct (mode c) eqn:Em; pose proof (g_mode _ _ _ G) as Hm; rewrite Em in Hm.
  - rewrite (g_first _ _ _ G), (last_page_walk m c pages G Em ND) by lia. done.
  - destruct Hm as [_ ->]. simpl. by rewrite (g_first _ _ _ G).
  - destruct Hm as [_ ->]. simpl. rewrite u32_small by width_lia c.
    by rewrite page_at_some by lia.
Qed.

(** In the page-table and single-page modes [qed_chain_get_elem_by_idx]
    addresses the slot of the element number it is given. *)
Lemma get_elem_by_idx_slot m c pages idx :
  chain_geom m c pages -> mode c <> QED_CHAIN_MODE_NEXT_PTR -> p_virt_addr c <> 0 ->
  capacity c < 2 ^ 32 -> 0 <= idx ->
  qed_chain_get_elem_by_idx m c idx = Some (slot_addr c pages idx).
Proof.
  intros G Hm Hv Hcap Hi. unfold qed_chain_get_elem_by_idx.
  pose proof (g_usable _ _ _ G) as Hu. pose proof (g_pages _ _ _ G) as [Hp1 Hp2].
  pose proof (g_capacity _ _ _ G) as Ec. destruct (g_elem_size _ _ _ G) as [He1 He2].
  destruct (Z.eqb_spec (p_virt_addr c) 0); [done|]. destruct (Z.eqb_spec (capacity c) 0); [nia|].
  assert (H0 : elem_unusable c = 0) by (pose proof (g_mode _ _ _ G) as X; destruct (mode c); naive_solver).
  assert (Ee : elem_per_page c = usable_per_page c) by (pose proof (g_split _ _ _ G); lia).
  rewrite Ee. unfold slot_addr. set (us := usable_per_page c) in *. set (pc := page_cnt c) in *.
  pose proof (Z.rem_mul_r idx us pc ltac:(lia) ltac:(lia)) as Er. rewrite <- Ec in Er.
  pose proof (Z.mod_pos_bound idx us Hu). pose proof (Z.mod_pos_bound (idx / us) pc ltac:(lia)) as Hpg.
  pose proof (Z.mod_pos_bound idx (capacity c) ltac:(lia)).
  assert (Eq : idx mod capacity c / us = (idx / us) mod pc) by (apply (div_unique_pos _ _ _ (idx mod us)); lia).
  rewrite Eq. pose proof (g_mode _ _ _ G) as Hmode. destruct (mode c); [done|..].
  - destruct Hmode as [_ E1]. fold pc in E1. rewrite E1 in *. simpl. rewrite Z.mod_1_r in *.
    rewrite (g_first _ _ _ G), Er, Z.mul_0_r, Z.add_0_r. rewrite u32_small by nia. done.
  - destruct Hmode as [_ ->]. simpl. rewrite page_at_some by (pose proof (g_page_cnt _ _ _ G); lia). simpl.
    assert (0 <= us * ((idx / us) mod pc)) by (apply Z.mul_nonneg_nonneg; lia).
    rewrite (u32_small ((idx / us) mod pc * us)), (u32_small (idx mod capacity c - _)) by lia.
    replace (idx mod capacity c - (idx / us) mod pc * us) with (idx mod us) by lia.
    rewrite u32_small by nia. done.
Qed.

(** ** Slots of live elements do not overlap *)

(** Pages are distinct blocks of [sz] bytes. *)
Definition pages_disjoint (sz : Z) (pages : list Z) : Prop :=
  forall i j, 0 <= i < Z.of_nat (length pages) -> 0 <= j < Z.of_nat (length pages) -> i <> j ->
  page_at pages i + sz <= page_at pages j \/ page_at pages j + sz <= page_at pages i.

(** A slot lies in its page, before the next-pointer element. *)
Lemma slot_in_page m c pages n :
  chain_geom m c pages ->
  let pg := (n / usable_per_page c) mod page_cnt c in
  0 <= pg < page_cnt c /\ page_at pages pg <= slot_addr c pages n /\
  slot_addr c pages n + elem_size c <= page_at pages pg + elem_size c * usable_per_page c.
Proof.
  intros G. pose proof (g_usable _ _ _ G) as Hu. pose proof (g_pages _ _ _ G) as [Hp1 Hp2].
  destruct (g_elem_size _ _ _ G) as [He _].
  pose proof (Z.mod_pos_bound (n / usable_per_page c) (page_cnt c) Hp1).
  unfold slot_addr. pose proof (Z.mod_pos_bound n _ Hu). simpl. nia.
Qed.

Lemma slots_disjoint m c pages i j :
  chain_geom m c pages -> elem_size c * elem_per_page c <= page_size c ->
  pages_disjoint (page_size c) pages ->
  i < j -> j - i < capacity c ->
  slot_addr c pages i + elem_size c <= slot_addr c pages j \/
  slot_addr c pages j + elem_size c <= slot_addr c pages i.
Proof.
  intros G Hps PD Hij Hc. rewrite (g_capacity _ _ _ G) in Hc.
  pose proof (g_usable _ _ _ G) as Hu. pose proof (g_pages _ _ _ G) as [Hp1 _].
  destruct (g_elem_size _ _ _ G) as [He _]. pose proof (g_split _ _ _ G) as Hs.
  pose proof (g_unusable _ _ _ G) as [Hun _]. pose proof (g_page_cnt _ _ _ G) as Hl.
  destruct (slot_in_page m c pages i G) as (Ia & Ha1 & Ha2).
  destruct (slot_in_page m c pages j G) as (Ib & Hb1 & Hb2).
  assert (elem_size c * usable_per_page c <= page_size c) by nia.
  destruct (Z.eq_dec ((i / usable_per_page c) mod page_cnt c) ((j / usable_per_page c) mod page_cnt c))
    as [E|E]; [|destruct (PD _ _ ltac:(rewrite <- Hl; exact Ia) ltac:(rewrite <- Hl; exact Ib) E); lia].
  unfold slot_addr. rewrite E. clear Ha1 Ha2 Hb1 Hb2 Ia Ib PD.
  set (us := usable_per_page c) in *. set (pc := page_cnt c) in *.
  pose proof (Z.div_mod i us ltac:(lia)) as Di. pose proof (Z.div_mod j us ltac:(lia)) as Dj.
  pose proof (Z.mod_pos_bound i us Hu). pose proof (Z.mod_pos_bound j us Hu).
  pose proof (Z.div_mod (i / us) pc ltac:(lia)) as Qi. pose proof (Z.div_mod (j / us) pc ltac:(lia)) as Qj.
  rewrite E in Qi. set (d := j / us / pc - i / us / pc).
  assert (Hd : j / us - i / us = pc * d) by (subst d; lia).
  assert (0 <= j / us - i / us <= pc) by nia.
  assert (d = 0 \/ d = 1) as [Ed|Ed] by nia; rewrite Ed in Hd; [left|right]; nia.
Qed.
