(* ===== verification/ChainAlloc.v ===== *)
(** * Allocation and release of chains

    [qed_chain_alloc] (qed_dev.c) takes pages one at a time and can fail at
    any of them, after which it hands the half-built chain to
    [qed_chain_free].  The lemmas below follow the blocks a chain owns: the
    pages in allocation order with their bus addresses, linked by
    next-pointer elements or listed in the page table, in both cases ended by
    a zero that the freshly zeroed memory provides. *)

From S2P Require Import Prelude Dma Chain ChainRing.

(** ** Blocks owned by a chain *)

(** A block is a virtual and a bus address. *)
Notation block := (Z * Z)%type.
Definition blk (sz : Z) (b : block) : Z * (Z * Z) := (b.1, (sz, b.2)).
Definition with_blocks (sz : Z) (bs : list block) (L : gmap Z (Z * Z)) : gmap Z (Z * Z) :=
  list_to_map (blk sz <$> bs) ∪ L.

Definition apart (sz : Z) (p q : Z) : Prop := p + sz <= q \/ q + sz <= p.

(** The blocks [bs] are new with respect to [L] and pairwise disjoint. *)
Record owned (sz : Z) (L : gmap Z (Z * Z)) (bs : list block) : Prop := {
  o_nodup : NoDup bs.*1;
  o_new : forall b, b ∈ bs -> L !! b.1 = None;
  o_pos : forall b, b ∈ bs -> 0 < b.1 /\ 0 <= b.2 < 2 ^ 64;
  o_apart : forall b b', b ∈ bs -> b' ∈ bs -> b <> b' -> apart sz b.1 b'.1
}.

Lemma blk_fst sz bs : (blk sz <$> bs).*1 = bs.*1.
Proof. rewrite <- list_fmap_compose. by apply list_fmap_ext. Qed.

Lemma owned_inj sz L bs b b' : owned sz L bs -> b ∈ bs -> b' ∈ bs -> b.1 = b'.1 -> b = b'.
Proof.
  intros O Hb Hb' E. apply list_elem_of_lookup in Hb as [i Hi], Hb' as [j Hj].
  assert (i = j) as ->; [|congruence].
  eapply NoDup_lookup; [apply (o_nodup _ _ _ O)|..]; rewrite list_lookup_fmap, ?Hi, ?Hj; simpl; by rewrite ?E.
Qed.

Lemma with_blocks_lookup sz bs L b :
  owned sz L bs -> b ∈ bs -> with_blocks sz bs L !! b.1 = Some (sz, b.2).
Proof.
  intros O Hb. unfold with_blocks. apply lookup_union_Some_l, elem_of_list_to_map.
  - rewrite blk_fst. apply O.
  - apply list_elem_of_fmap. by exists b.
Qed.

Lemma owned_cons sz L b bs :
  owned sz L (b :: bs) -> owned sz L bs /\ L !! b.1 = None /\ b.1 ∉ bs.*1.
Proof.
  intros [H1 H2 H3 H4]. simpl in H1. apply list.NoDup_cons in H1 as [Hn H1].
  split; [|split; [apply H2; by left|done]].
  constructor; [done|..]; intros; [apply H2|apply H3|apply H4]; try done; by right.
Qed.

Lemma owned_nil sz L : owned sz L [].
Proof. constructor; [apply NoDup_nil_2|..]; intros *; by intros ?%elem_of_nil. Qed.

(** Freeing the first block. *)
Lemma with_blocks_delete sz b bs L :
  owned sz L (b :: bs) -> delete b.1 (with_blocks sz (b :: bs) L) = with_blocks sz bs L.
Proof.
  intros (O & Hn & Hb)%owned_cons. unfold with_blocks. simpl. rewrite <- insert_union_l.
  apply delete_insert_id, lookup_union_None. split; [|done].
  apply not_elem_of_list_to_map_1. by rewrite blk_fst.
Qed.

(** A new block of the allocator joins the owned ones. *)
Lemma owned_snoc sz L bs m v p :
  0 < sz -> live m = with_blocks sz bs L -> owned sz L bs -> fresh_block m v sz = true ->
  0 <= p < 2 ^ 64 ->
  owned sz L (bs ++ [(v, p)]) /\ (forall b, b ∈ bs -> apart sz b.1 v) /\
  <[v := (sz, p)]> (live m) = with_blocks sz (bs ++ [(v, p)]) L.
Proof.
  intros Hsz Hl O (Hv & HN & Hf)%fresh_block_spec Hp.
  assert (Hap : forall b, b ∈ bs -> apart sz b.1 v).
  { intros b Hb. pose proof (with_blocks_lookup _ _ _ _ O Hb) as Lb. rewrite <- Hl in Lb.
    destruct (Hf _ _ Lb) as [?|?]; simpl in *; unfold apart; lia. }
  assert (Hnew : v ∉ bs.*1).
  { intros (b & -> & Hb)%list_elem_of_fmap. destruct (Hap b Hb); lia. }
  rewrite Hl in HN. unfold with_blocks in HN. apply lookup_union_None in HN as [_ HL].
  split_and!; [|done|].
  - destruct O as [H1 H2 H3 H4]. constructor.
    + rewrite fmap_app. apply list.NoDup_app. split_and!; [done| |apply NoDup_singleton].
      intros x Hx ->%list_elem_of_singleton. done.
    + intros b [Hb| ->%list_elem_of_singleton]%elem_of_app; auto.
    + intros b [Hb| ->%list_elem_of_singleton]%elem_of_app; auto.
    + intros b b' [Hb| ->%list_elem_of_singleton]%elem_of_app [Hb'| ->%list_elem_of_singleton]%elem_of_app Hne;
        try done; auto. destruct (Hap b' Hb'); unfold apart; simpl; lia.
  - rewrite Hl. unfold with_blocks. rewrite fmap_app.
    change (blk sz <$> [(v, p)]) with [(v, (sz, p))].
    rewrite list_to_map_snoc by (by rewrite blk_fst). by rewrite insert_union_l.
Qed.

(** ** Next-pointer pages *)

Definition link (b : block) : qed_chain_next := mk_qed_chain_next (DMA_REGPAIR_LE b.2) b.1.

(** Each block's next-pointer element, at offset [off], links to the following
    block; that of the last block reads [x] ([None]: still zero). *)
Fixpoint linked (cs : gmap Z qed_chain_next) (off : Z) (bs : list block)
    (x : option qed_chain_next) : Prop :=
  match bs with
  | [] => True
  | b :: t => cs !! (b.1 + off) = match t with [] => x | b' :: _ => Some (link b') end /\ linked cs off t x
  end.

Lemma linked_ext cs cs' off bs x :
  (forall b, b ∈ bs -> cs' !! (b.1 + off) = cs !! (b.1 + off)) -> linked cs off bs x -> linked cs' off bs x.
Proof.
  induction bs as [|b bs IH]; simpl; [done|]. intros H [Hb Hl]. split.
  - rewrite H; [done|by left].
  - apply IH; [|done]. intros; apply H; by right.
Qed.

Lemma linked_set_last cs off bs b x y :
  b.1 ∉ bs.*1 -> linked cs off (bs ++ [b]) x ->
  linked (<[b.1 + off := y]> cs) off (bs ++ [b]) (Some y).
Proof.
  induction bs as [|a bs IH]; simpl; intros Hn [Ha Hl].
  - by rewrite lookup_insert_eq.
  - apply not_elem_of_cons in Hn as [Hne Hn]. split; [|by apply IH].
    rewrite lookup_insert_ne by lia. rewrite Ha. by destruct bs.
Qed.

Lemma linked_snoc cs off bs b b' x :
  linked cs off (bs ++ [b]) (Some (link b')) -> cs !! (b'.1 + off) = x ->
  linked cs off ((bs ++ [b]) ++ [b']) x.
Proof.
  induction bs as [|a bs IH]; simpl; intros [Ha Hl] Hx; [by rewrite Ha|].
  split; [rewrite Ha; by destruct bs|by apply IH].
Qed.

(** What the release of a chain leaves alone. *)
Definition same_cells (m m' : dma_mem) : Prop :=
  cells m' = cells m /\ pbl_cells m' = pbl_cells m /\ vz_live m' = vz_live m.

Section NextPtr.
  Context (sz off : Z) (Hsz : 0 <= off /\ off + sizeof_qed_chain_next <= sz).
  Context (L : gmap Z (Z * Z)).

Record np_state (m : dma_mem) (bs : list block) (x : option qed_chain_next) : Prop := {
  np_live : live m = with_blocks sz bs L;
  np_owned : owned sz L bs;
  np_linked : linked (cells m) off bs x
}.

(** The next-pointer element of an owned block can be accessed. *)
Lemma np_mapped m bs b :
  live m = with_blocks sz bs L -> owned sz L bs -> b ∈ bs ->
  mapped m (b.1 + off) sizeof_qed_chain_next = true.
Proof.
  intros Hl O Hb. apply (mapped_intro _ b.1 (sz, b.2)); simpl; [|lia..].
  rewrite Hl. by apply with_blocks_lookup.
Qed.

Lemma np_free_one c m b bs :
  page_size c = sz -> live m = with_blocks sz (b :: bs) L -> owned sz L (b :: bs) ->
  dma_free_coherent (page_size c) b.1 b.2 m = Some (m <| live := with_blocks sz bs L |>).
Proof.
  intros Hp Hl O. unfold dma_free_coherent.
  rewrite Hl, (with_blocks_lookup _ _ _ b O) by (by left).
  rewrite Hp, !Z.eqb_refl. simpl. by rewrite with_blocks_delete.
Qed.

(** The release walk frees every page and stops at the zero link of a
    half-built chain, or after [page_cnt] pages of a complete one. *)
Lemma free_np_blocks c : page_size c = sz -> forall bs b n m x,
  np_state m (b :: bs) x -> (length (b :: bs) = n \/ (length (b :: bs) <= n)%nat /\ x = None) ->
  exists m', free_next_ptr_loop n c off b.1 b.2 m = Some m' /\ live m' = L /\ same_cells m m'.
Proof.
  intros Hp. induction bs as [|b' bs IH]; intros b n m x [Hl O Hk] Hn;
    destruct n as [|n]; [simpl in Hn; lia| |simpl in Hn; lia|]; simpl;
    destruct (o_pos _ _ _ O b) as [Hb _]; try (by left);
    (destruct (Z.eqb_spec b.1 0); [lia|]);
    unfold read_next; rewrite (np_mapped _ _ b Hl O) by (by left); simpl;
    rewrite (np_free_one _ _ _ _ Hp Hl O); simpl in *.
  - destruct Hk as [-> _]. destruct Hn as [Hn|[_ ->]].
    + destruct n; [|lia]. simpl. eexists; split; [done|]. simpl. unfold with_blocks. simpl.
      rewrite map_empty_union. done.
    + simpl. destruct n; simpl; eexists; (split; [done|]); simpl; unfold with_blocks; simpl;
        by rewrite map_empty_union.
  - destruct Hk as [Hb' Hk]. rewrite Hb'. simpl.
    destruct (owned_cons _ _ _ _ O) as [O' _].
    destruct (o_pos _ _ _ O' b') as [_ Hph]; [by left|].
    rewrite regpair_roundtrip by done.
    destruct (IH b' n (m <| live := with_blocks sz (b' :: bs) L |>) x) as (m' & Hm & Hl' & Hs).
    + by constructor.
    + simpl in *; destruct Hn as [Hn|[Hn ->]]; [left; lia|right; split; [lia|done]].
    + exists m'. done.
Qed.

(** One more page: the new block is owned, still unlinked, and the old links
    are kept. *)
Lemma np_alloc m bs v p m' :
  dma_alloc_coherent sz m = (v, p, m') -> v <> 0 -> live m = with_blocks sz bs L -> owned sz L bs ->
  owned sz L (bs ++ [(v, p)]) /\ live m' = with_blocks sz (bs ++ [(v, p)]) L /\
  (forall b, b ∈ bs -> cells m' !! (b.1 + off) = cells m !! (b.1 + off)) /\
  cells m' !! (v + off) = None /\ vz_live m' = vz_live m.
Proof.
  unfold sizeof_qed_chain_next in Hsz.
  intros Ha Hv Hl O. destruct (dma_alloc_inv _ _ _ _ _ Ha Hv) as (Hf & Hl' & Hc & _ & Hz & _ & Hp).
  destruct (owned_snoc sz L bs m v p ltac:(lia) Hl O Hf Hp) as (O' & Hap & Hl2).
  split_and!; try done; [congruence|..].
  - intros b Hb. rewrite Hc, lookup_zero_fill. case_bool_decide as Hin; [|done].
    destruct (Hap b Hb); lia.
  - rewrite Hc, lookup_zero_fill. case_bool_decide as Hin; [done|lia].
Qed.

(** The page loop after the first page. *)
Lemma alloc_np_loop c : page_size c = sz -> next_ptr_offset c = off -> forall n bs b m,
  np_state m (bs ++ [b]) None ->
  exists rc m' bs' b' t,
    alloc_next_ptr_loop n false b.1 c m = Some (rc, c, m', b'.1) /\
    np_state m' (bs' ++ [b']) None /\ bs' ++ [b'] = (bs ++ [b]) ++ t /\
    (length t <= n)%nat /\ vz_live m' = vz_live m /\
    (rc = 0 /\ length t = n \/ rc = - ENOMEM).
Proof.
  intros Hp Ho. induction n as [|n IH]; intros bs b m [Hl O Hk]; simpl.
  - exists 0, m, bs, b, []. rewrite app_nil_r. split_and!; auto. by constructor.
  - rewrite Hp. destruct (dma_alloc_coherent sz m) as [[v p] m1] eqn:Ha.
    destruct (Z.eqb_spec v 0) as [Hv|Hv].
    + destruct (dma_alloc_null _ _ _ _ _ Ha Hv) as (Hl1 & Hc1 & _ & Hz1 & _).
      exists (- ENOMEM), m1, bs, b, []. rewrite app_nil_r. split_and!; auto; [|simpl; lia].
      constructor; [by rewrite Hl1|done|by rewrite Hc1].
    + destruct (np_alloc _ _ _ _ _ Ha Hv Hl O) as (O1 & Hl1 & Hc1 & Hn1 & Hz1).
      assert (Hb : b ∈ (bs ++ [b]) ++ [(v, p)]) by (rewrite !elem_of_app; left; right; by left).
      unfold qed_chain_init_next_ptr_elem, write_next. rewrite Ho, (np_mapped _ _ b Hl1 O1 Hb). simpl.
      set (m2 := m1 <| cells := _ |>).
      destruct (IH (bs ++ [b]) (v, p) m2) as (rc & m' & bs' & b' & t & Hr & S' & He & Hlen & Hz & Hrc).
      * constructor; [done|done|]. subst m2. simpl.
        assert (Hnb : b.1 ∉ bs.*1).
        { pose proof (o_nodup _ _ _ O) as ND. rewrite fmap_app in ND.
          apply list.NoDup_app in ND as (_ & ND & _). intros Hin. apply (ND _ Hin). by left. }
        apply linked_snoc.
        -- eapply linked_set_last; [done|]. by apply (linked_ext (cells m)).
        -- rewrite lookup_insert_ne; [done|]. simpl.
           pose proof (o_apart _ _ _ O1 b (v, p) Hb) as Hap. unfold apart in Hap. simpl in Hap.
           destruct (decide (b = (v, p))) as [->|Hne]; [|unfold sizeof_qed_chain_next in Hsz; destruct Hap; set_solver by lia].
           exfalso. pose proof (o_nodup _ _ _ O1) as ND. rewrite fmap_app in ND.
           apply list.NoDup_app in ND as (_ & ND & _). apply (ND v); set_solver.
      * exists rc, m', bs', b', ((v, p) :: t). simpl in Hr.
        split_and!; [done|done|by rewrite He, <- app_assoc|simpl; lia|by rewrite Hz|].
        destruct Hrc as [[-> <-]| ->]; auto.
Qed.
End NextPtr.

(** ** Page-table rings *)

(** The bus addresses of the blocks, listed from address [a] on. *)
Fixpoint listed (cs : gmap Z Z) (a : Z) (bs : list block) : Prop :=
  match bs with
  | [] => True
  | b :: t => cs !! a = Some b.2 /\ listed cs (a + QED_CHAIN_PBL_ENTRY_SIZE) t
  end.

Lemma listed_ext cs cs' bs : forall a,
  (forall x, a <= x < a + QED_CHAIN_PBL_ENTRY_SIZE * Z.of_nat (length bs) -> cs' !! x = cs !! x) ->
  listed cs a bs -> listed cs' a bs.
Proof.
  unfold QED_CHAIN_PBL_ENTRY_SIZE.
  induction bs as [|b bs IH]; intros a H; [done|]. cbn [listed length] in *. intros [Hb Hl]. split.
  - rewrite H; [done|unfold QED_CHAIN_PBL_ENTRY_SIZE; lia].
  - apply IH; [|done]. intros; apply H. unfold QED_CHAIN_PBL_ENTRY_SIZE in *. lia.
Qed.

Lemma listed_snoc cs bs b : forall a,
  listed cs a bs -> cs !! (a + QED_CHAIN_PBL_ENTRY_SIZE * Z.of_nat (length bs)) = Some b.2 ->
  listed cs a (bs ++ [b]).
Proof.
  induction bs as [|b' bs IH]; intros a; cbn [listed length app].
  - intros _ H. rewrite Z.mul_0_r, Z.add_0_r in H. done.
  - intros [Hb Hl] H. split; [done|]. apply IH; [done|]. rewrite <- H. f_equal. lia.
Qed.

Section Pbl.
  Context (sz : Z) (Hsz : 0 < sz) (L : gmap Z (Z * Z)).
  (** The page table: [pc] entries from [a] on, inside a block of [L]. *)
  Context (a : Z) (pc : nat) (pv : Z) (pb : Z * Z) (Hpb : L !! pv = Some pb)
          (Ha : pv <= a /\ a + QED_CHAIN_PBL_ENTRY_SIZE * Z.of_nat pc <= pv + pb.1).

Record pbl_state (m : dma_mem) (bs : list block) : Prop := {
  ps_live : live m = with_blocks sz bs L;
  ps_owned : owned sz L bs;
  ps_listed : listed (pbl_cells m) a bs
}.

(** The table stays accessible whatever pages are owned. *)
Lemma pbl_live m bs :
  live m = with_blocks sz bs L -> owned sz L bs -> live m !! pv = Some pb.
Proof.
  intros Hl O. rewrite Hl. unfold with_blocks. apply lookup_union_Some_raw. right. split; [|done].
  apply not_elem_of_list_to_map_1. rewrite blk_fst. intros (b & -> & Hb)%list_elem_of_fmap.
  pose proof (o_new _ _ _ O b Hb). congruence.
Qed.

Lemma pbl_mapped m bs i :
  live m = with_blocks sz bs L -> owned sz L bs -> (i < pc)%nat ->
  mapped m (a + QED_CHAIN_PBL_ENTRY_SIZE * Z.of_nat i) 8 = true.
Proof.
  intros Hl O Hi. unfold QED_CHAIN_PBL_ENTRY_SIZE in *.
  apply (mapped_intro _ pv pb); [by apply (pbl_live m bs)|lia..].
Qed.

Lemma pbl_alloc m bs v p m' :
  dma_alloc_coherent sz m = (v, p, m') -> v <> 0 -> pbl_state m bs -> (length bs <= pc)%nat ->
  owned sz L (bs ++ [(v, p)]) /\ live m' = with_blocks sz (bs ++ [(v, p)]) L /\
  listed (pbl_cells m') a bs /\ vz_live m' = vz_live m /\ 0 < v.
Proof.
  intros Hal Hv [Hl O Hk] Hlen.
  destruct (dma_alloc_inv _ _ _ _ _ Hal Hv) as (Hf & Hl' & _ & Hc & Hz & _ & Hp).
  destruct (owned_snoc sz L bs m v p Hsz Hl O Hf Hp) as (O' & Hap & Hl2).
  apply fresh_block_spec in Hf as (Hv0 & _ & Hf).
  split_and!; try done; [congruence|].
  apply (listed_ext (pbl_cells m)); [|done]. intros x Hx.
  rewrite Hc, lookup_zero_fill. case_bool_decide as Hin; [|done].
  unfold QED_CHAIN_PBL_ENTRY_SIZE in *.
  destruct (Hf pv pb (pbl_live _ _ Hl O)); lia.
Qed.

(** Recording the new page in the table. *)
Lemma pbl_record m bs v p :
  owned sz L (bs ++ [(v, p)]) -> live m = with_blocks sz (bs ++ [(v, p)]) L ->
  listed (pbl_cells m) a bs -> (length bs < pc)%nat ->
  exists m', write_pbl (a + QED_CHAIN_PBL_ENTRY_SIZE * Z.of_nat (length bs)) p m = Some m' /\
    pbl_state m' (bs ++ [(v, p)]) /\ vz_live m' = vz_live m.
Proof.
  intros O Hl Hk Hlen. unfold write_pbl. rewrite (pbl_mapped _ _ _ Hl O Hlen).
  eexists; split; [done|]. split; [|done]. constructor; [done|done|]. cbn -[Z.mul].
  apply listed_snoc; [|by rewrite lookup_insert_eq].
  apply (listed_ext (pbl_cells m)); [|done]. intros x Hx. apply lookup_insert_ne. lia.
Qed.

Lemma pbl_tbl_insert (bs : list block) n v p :
  <[length bs := v]> (bs.*1 ++ replicate (S n) 0) = (bs ++ [(v, p)]).*1 ++ replicate n 0.
Proof.
  rewrite <- (length_fmap fst), <- (Nat.add_0_r (length bs.*1)), insert_app_r, fmap_app, <- app_assoc. done.
Qed.

Lemma set_tbl_id c t : pp_virt_addr_tbl c = t -> c <| pp_virt_addr_tbl := t |> = c.
Proof. destruct c; simpl. by intros ->. Qed.

(** The page loop after the first page. *)
Lemma alloc_pbl_rest : forall n bs c m,
  page_size c = sz -> (0 < length bs)%nat -> (length bs + n = pc)%nat -> pbl_state m bs ->
  pp_virt_addr_tbl c = Some (bs.*1 ++ replicate n 0) ->
  exists rc m' t,
    alloc_pbl_loop n (length bs) (a + QED_CHAIN_PBL_ENTRY_SIZE * Z.of_nat (length bs)) c m
    = Some (rc, c <| pp_virt_addr_tbl := Some ((bs ++ t).*1 ++ replicate (n - length t) 0) |>, m') /\
    pbl_state m' (bs ++ t) /\ vz_live m' = vz_live m /\ (length t <= n)%nat /\
    (rc = 0 /\ length t = n \/ rc = - ENOMEM).
Proof.
  induction n as [|n IH]; intros bs c m Hp H0 Hn S Ht; simpl.
  - exists 0, m, []. rewrite !app_nil_r in *. split_and!; auto. rewrite set_tbl_id; [done|].
    by rewrite Ht.
  - rewrite Hp. destruct (dma_alloc_coherent sz m) as [[v p] m1] eqn:Hal.
    destruct (Z.eqb_spec v 0) as [Hv|Hv].
    + destruct (dma_alloc_null _ _ _ _ _ Hal Hv) as (Hl1 & _ & Hc1 & Hz1 & _). destruct S as [Hl O Hk].
      exists (- ENOMEM), m1, []. rewrite !app_nil_r. split_and!; auto; [| |simpl; lia].
      * rewrite Nat.sub_0_r, set_tbl_id; done.
      * constructor; [by rewrite Hl1|done|by rewrite Hc1].
    + destruct (pbl_alloc _ _ _ _ _ Hal Hv S) as (O1 & Hl1 & Hk1 & Hz1 & _); [lia|].
      destruct (pbl_record m1 bs v p O1 Hl1 Hk1) as (m2 & Hw & S2 & Hz2); [lia|].
      replace (match length bs with 0%nat => _ | Datatypes.S _ => c end) with c by (destruct (length bs); [lia|done]).
      rewrite Hw. simpl. rewrite Ht. simpl.
      destruct (Nat.ltb_spec (length bs) (length (bs.*1 ++ 0 :: replicate n 0))) as [_|Hge];
        [|rewrite length_app, length_fmap in Hge; simpl in Hge; lia].
      change (0 :: replicate n 0) with (replicate (Datatypes.S n) 0). rewrite (pbl_tbl_insert bs n v p).
      destruct (IH (bs ++ [(v, p)]) (c <| pp_virt_addr_tbl := Some ((bs ++ [(v, p)]).*1 ++ replicate n 0) |>) m2)
        as (rc & m' & t & Hr & S' & Hz & Hlen & Hrc); try done; [rewrite length_app; simpl; lia..|].
      rewrite length_app in Hr. simpl in Hr.
      replace (length bs + 1)%nat with (Datatypes.S (length bs)) in Hr by lia.
      replace (a + QED_CHAIN_PBL_ENTRY_SIZE * Z.of_nat (Datatypes.S (length bs)))
        with (a + QED_CHAIN_PBL_ENTRY_SIZE * Z.of_nat (length bs) + QED_CHAIN_PBL_ENTRY_SIZE) in Hr by lia.
      exists rc, m', ((v, p) :: t). rewrite Hr. rewrite <- app_assoc in S' |- *. simpl.
      split_and!; [done|done|congruence|lia|]. destruct Hrc as [[-> <-]| ->]; auto.
Qed.

(** The release loop frees the listed pages and stops at the first empty
    table entry. *)
Lemma free_pbl_blocks c : page_size c = sz -> forall bs pre k m,
  live m = with_blocks sz bs L -> owned sz L bs ->
  listed (pbl_cells m) (a + QED_CHAIN_PBL_ENTRY_SIZE * Z.of_nat (length pre)) bs ->
  (length pre + length bs <= pc)%nat ->
  exists m',
    free_pbl_loop (pre ++ bs.*1 ++ replicate k 0) (length bs + k) (length pre) c
      (a + QED_CHAIN_PBL_ENTRY_SIZE * Z.of_nat (length pre)) m = Some m' /\
    live m' = L /\ same_cells m m'.
Proof.
  intros Hp. induction bs as [|b bs IH]; intros pre k m Hl O Hk Hlen.
  - exists m. rewrite Hl. unfold with_blocks. simpl. rewrite map_empty_union.
    split; [|done]. destruct k; simpl; [done|]. by rewrite list_lookup_middle.
  - destruct Hk as [Hb Hk]. destruct (o_pos _ _ _ O b) as [Hpos _]; [by left|].
    cbn [free_pbl_loop Nat.add length]. rewrite fmap_cons, <- app_comm_cons, list_lookup_middle by done.
    cbn [mbind option_bind]. destruct (Z.eqb_spec b.1 0); [lia|].
    unfold read_pbl. rewrite (pbl_mapped m (b :: bs)) by (try done; simpl in *; lia).
    rewrite Hb. cbn [mbind option_bind default id]. simpl default.
    rewrite (np_free_one sz L c m b bs Hp Hl O). cbn [mbind option_bind].
    destruct (owned_cons _ _ _ _ O) as [O' _].
    destruct (IH (pre ++ [b.1]) k (m <| live := with_blocks sz bs L |>)) as (m' & Hm & Hl' & Hs);
      rewrite ?length_app in *; try done.
    + cbn -[Z.mul listed]. replace (a + _) with
        (a + QED_CHAIN_PBL_ENTRY_SIZE * Z.of_nat (length pre) + QED_CHAIN_PBL_ENTRY_SIZE) by (simpl length; lia). done.
    + simpl in *. lia.
    + exists m'. split; [|done]. rewrite <- Hm, <- app_assoc. simpl length.
      rewrite Nat.add_1_r. simpl app. f_equal. rewrite Nat2Z.inj_succ. unfold QED_CHAIN_PBL_ENTRY_SIZE. lia.
Qed.
End Pbl.

(** ** Reset and release only depend on the configuration *)

Lemma recycle_cfg c : cfg (qed_chain_recycle_consumed c) = cfg c.
Proof.
  unfold qed_chain_recycle_consumed, test_and_skip_prod.
  destruct (is_chain_u16 c) eqn:E; [destruct (is_unusable_idx c (prod16 (u c)))|destruct (is_unusable_idx c (prod32 (u c)))];
    simpl; unfold is_chain_u16 in *; simpl; rewrite E; done.
Qed.

Lemma reset_cfg c : cfg (qed_chain_reset c) = cfg c.
Proof.
  unfold qed_chain_reset. rewrite <- (reset_indices_cfg c).
  destruct (intended_use (reset_indices c)); [done| |done].
  induction (Z.to_nat _) as [|n IH]; simpl; [done|]. by rewrite recycle_cfg.
Qed.

Lemma recycle_tbl c t :
  qed_chain_recycle_consumed (c <| pp_virt_addr_tbl := t |>)
  = (qed_chain_recycle_consumed c) <| pp_virt_addr_tbl := t |>.
Proof.
  unfold qed_chain_recycle_consumed, test_and_skip_prod, is_unusable_idx, is_chain_u16. simpl.
  destruct (bool_decide (cnt_type c = QED_CHAIN_CNT_TYPE_U16)) eqn:E; simpl; zcases;
    simpl in *; congruence || done.
Qed.

Lemma reset_indices_tbl c t :
  reset_indices (c <| pp_virt_addr_tbl := t |>) = (reset_indices c) <| pp_virt_addr_tbl := t |>.
Proof.
  unfold reset_indices, is_chain_u16. simpl.
  destruct (bool_decide (cnt_type c = QED_CHAIN_CNT_TYPE_U16)) eqn:E; simpl;
    destruct (mode c); simpl; rewrite ?E; done.
Qed.

Lemma reset_tbl c t :
  qed_chain_reset (c <| pp_virt_addr_tbl := t |>) = (qed_chain_reset c) <| pp_virt_addr_tbl := t |>.
Proof.
  unfold qed_chain_reset. rewrite reset_indices_tbl. simpl.
  destruct (intended_use (reset_indices c)); [done| |done].
  induction (Z.to_nat _) as [|n IH]; simpl; [done|]. by rewrite IH, recycle_tbl.
Qed.

(** Memory [m] holds, beyond the blocks [L] and the tables counted by [vz],
    exactly what [qed_chain_free] gives back when called on [c], or on [c]
    after any use of its indices. *)
Definition releases (L : gmap Z (Z * Z)) (vz : Z) (c : qed_chain) (m : dma_mem) : Prop :=
  forall c1, cfg c1 = cfg c ->
  exists c2 m2, qed_chain_free c1 m = Some (c2, m2) /\ live m2 = L /\ vz_live m2 = vz.

(** ** Element layout *)

Record shape (c : qed_chain) : Prop := {
  s_pow2 : exists k, 0 <= k <= 15 /\ elem_per_page c = 2 ^ k;
  s_mask : elem_per_page_mask c = elem_per_page c - 1;
  s_usable : 0 < usable_per_page c;
  s_split : usable_per_page c + elem_unusable c = elem_per_page c;
  s_unusable : 0 <= elem_unusable c < 2 ^ 8;
  s_next_mask : next_page_mask c = Z.land (usable_per_page c) (elem_per_page_mask c);
  s_pages : 0 < page_cnt c < 2 ^ width c;
  s_pages29 : page_cnt c < 2 ^ 29;
  s_capacity : capacity c = usable_per_page c * page_cnt c;
  s_elem_size : 0 < elem_size c /\ elem_size c * usable_per_page c < 2 ^ 32;
  s_page_size : elem_size c * elem_per_page c = page_size c;
  s_mode : match mode c with
           | QED_CHAIN_MODE_NEXT_PTR =>
               0 < elem_unusable c /\
               elem_size c * usable_per_page c + sizeof_qed_chain_next <= page_size c
           | QED_CHAIN_MODE_SINGLE => elem_unusable c = 0 /\ page_cnt c = 1
           | QED_CHAIN_MODE_PBL => elem_unusable c = 0
           end;
  s_tbl : pp_virt_addr_tbl c = None;
  s_mem : p_virt_addr c = 0;
  s_ext : b_external_pbl c = false
}.

(** The requests the driver makes: elements and pages whose sizes are powers
    of two, with room for a next-pointer element. *)
Record params_ok (par : qed_chain_params) : Prop := {
  po_sizes : exists e p, 0 <= e <= 7 /\ 5 <= p /\ 1 <= p - e <= 15 /\
             par_elem_size par = 2 ^ e /\ par_page_size par = 2 ^ p;
  po_num : 0 < par_num_elems par < 2 ^ 28
}.

Definition par_pages (par : qed_chain_params) : Z :=
  match par_mode par with
  | QED_CHAIN_MODE_SINGLE => 1
  | _ => QED_CHAIN_PAGE_CNT (par_num_elems par) (par_elem_size par) (par_page_size par) (par_mode par)
  end.

(** The unusable elements are the ones a next pointer occupies. *)
Lemma unusable_value e :
  0 <= e <= 7 -> let es := 2 ^ e in let un := 1 + (sizeof_qed_chain_next - 1) / es in
  1 <= un <= 16 /\ 16 <= es * un /\ (es * un = 16 \/ un = 1).
Proof.
  intros He. assert (e = 0 \/ e = 1 \/ e = 2 \/ e = 3 \/ e = 4 \/ e = 5 \/ e = 6 \/ e = 7) as Hc by lia.
  repeat destruct Hc as [->|Hc]; try rewrite Hc; simpl;
    (split_and!; [by vm_compute..|]); (left; reflexivity) || (right; reflexivity).
Qed.

Lemma usable_value e p mo :
  0 <= e <= 7 -> 5 <= p -> 1 <= p - e <= 15 ->
  let un := UNUSABLE_ELEMS_PER_PAGE (2 ^ e) mo in
  let us := USABLE_ELEMS_PER_PAGE (2 ^ e) (2 ^ p) mo in
  us + un = 2 ^ (p - e) /\ 0 < us /\ 0 <= un <= 16 /\ ELEMS_PER_PAGE (2 ^ p) (2 ^ e) = 2 ^ (p - e) /\
  2 ^ e * 2 ^ (p - e) = 2 ^ p /\
  (mo = QED_CHAIN_MODE_NEXT_PTR -> 0 < un /\ 2 ^ e * us + 16 <= 2 ^ p) /\
  (mo <> QED_CHAIN_MODE_NEXT_PTR -> un = 0).
Proof.
  intros He Hp5 Hp. destruct (unusable_value e He) as (Hun & Hfit & Hex).
  assert (Hpe : 2 ^ e * 2 ^ (p - e) = 2 ^ p) by (rewrite <- Z.pow_add_r by lia; f_equal; lia).
  assert (Hel : ELEMS_PER_PAGE (2 ^ p) (2 ^ e) = 2 ^ (p - e)).
  { unfold ELEMS_PER_PAGE. rewrite <- Hpe, Z.mul_comm, Z.div_mul; [done|]. lia. }
  assert (H15 : 2 ^ (p - e) <= 2 ^ 15) by (apply Z.pow_le_mono_r; lia).
  assert (H2 : 2 ^ 1 <= 2 ^ (p - e)) by (apply Z.pow_le_mono_r; lia).
  assert (H32 : 2 ^ 5 <= 2 ^ p) by (apply Z.pow_le_mono_r; lia).
  assert (He0 : 1 <= 2 ^ e) by lia.
  unfold USABLE_ELEMS_PER_PAGE, UNUSABLE_ELEMS_PER_PAGE. rewrite Hel. simpl.
  assert (Hx : 1 + (sizeof_qed_chain_next - 1) / 2 ^ e < 2 ^ (p - e)) by (destruct Hex; nia).
  destruct mo; [rewrite (u8_small _), u32_small by lia|rewrite u32_small by lia..];
    split_and!; try done; try lia; intros; split_and!; try lia; nia.
Qed.

Lemma par_pages_bound par :
  params_ok par ->
  0 < par_pages par < 2 ^ 28 + 1 /\
  (par_mode par <> QED_CHAIN_MODE_SINGLE ->
   par_num_elems par <=
   USABLE_ELEMS_PER_PAGE (par_elem_size par) (par_page_size par) (par_mode par) * par_pages par).
Proof.
  intros [(e & p & He & Hp5 & Hp & Ee & Ep) Hn]. unfold par_pages, QED_CHAIN_PAGE_CNT, DIV_ROUND_UP32.
  rewrite Ee, Ep. destruct (usable_value e p (par_mode par) He Hp5 Hp) as (Hs & Hu & Hun & _).
  assert (H15 : 2 ^ (p - e) <= 2 ^ 15) by (apply Z.pow_le_mono_r; lia).
  set (us := USABLE_ELEMS_PER_PAGE _ _ _) in *. set (n := par_num_elems par) in *.
  assert (Hd : 0 < u32 (n + us - 1) / us < 2 ^ 28 + 1 /\ n <= us * (u32 (n + us - 1) / us)).
  { rewrite u32_small by lia. pose proof (Z.div_mod (n + us - 1) us ltac:(lia)).
    pose proof (Z.mod_pos_bound (n + us - 1) us Hu). nia. }
  destruct Hd. destruct (par_mode par); split; try done; lia.
Qed.

Lemma init_shape c par dp :
  params_ok par ->
  qed_chain_alloc_sanity_check (par_cnt_type par) (par_elem_size par) (par_page_size par) (par_pages par) = 0 ->
  exists c0,
    qed_chain_init c (par_pages par) (u8 (par_elem_size par)) (par_page_size par)
      (par_intended_use par) (par_mode par) (par_cnt_type par) dp = Some c0 /\
    shape c0 /\ (chain_wf c -> chain_wf c0) /\ mode c0 = par_mode par /\
    intended_use c0 = par_intended_use par /\ cnt_type c0 = par_cnt_type par /\
    (par_mode par <> QED_CHAIN_MODE_SINGLE -> par_num_elems par <= capacity c0) /\
    elem_size c0 = par_elem_size par /\ page_size c0 = par_page_size par /\
    elem_per_page c0 * page_cnt c0 <= 2 ^ width c0.
Proof.
  intros OK Hsan. destruct (par_pages_bound par OK) as [Hpc Hcap].
  destruct OK as [(e & p & He & Hp5 & Hp & Ee & Ep) Hn].
  destruct (usable_value e p (par_mode par) He Hp5 Hp) as (Hs & Hu & Hun & Hel & Hpe & Hnp & Hdn).
  rewrite <- Ee, <- Ep in *. set (us := USABLE_ELEMS_PER_PAGE _ _ _) in *.
  set (un := UNUSABLE_ELEMS_PER_PAGE _ _) in *.
  assert (H15 : 2 ^ (p - e) <= 2 ^ 15) by (apply Z.pow_le_mono_r; lia).
  assert (H1 : 2 ^ 1 <= 2 ^ (p - e)) by (apply Z.pow_le_mono_r; lia).
  assert (Hes : 1 <= par_elem_size par <= 2 ^ 7) by (rewrite Ee; split; [lia|apply Z.pow_le_mono_r; lia]).
  assert (Hps : par_page_size par <= 2 ^ 22) by (rewrite Ep; apply Z.pow_le_mono_r; lia).
  unfold qed_chain_alloc_sanity_check in Hsan. rewrite Hel in Hsan.
  assert (Hmul : 0 <= 2 ^ (p - e) * par_pages par < 2 ^ 44) by nia.
  rewrite u64_small in Hsan by lia.
  assert (Hw : 2 ^ (p - e) * par_pages par <=
               2 ^ (if bool_decide (par_cnt_type par = QED_CHAIN_CNT_TYPE_U16) then 16 else 32) /\
               2 ^ (p - e) * par_pages par < 2 ^ 32).
  { destruct (par_cnt_type par); simpl; unfold QED_U16_MAX, QED_U32_MAX in Hsan;
      destruct (_ <? _) eqn:E in Hsan; zbool; try discriminate Hsan; lia. }
  destruct Hw as [Hw Hw32].
  assert (Hup : us * par_pages par <= 2 ^ (p - e) * par_pages par) by (apply Z.mul_le_mono_nonneg_r; lia).
  assert (Heu : par_elem_size par * us <= par_page_size par) by (rewrite <- Hpe; apply Z.mul_le_mono_nonneg_l; lia).
  unfold qed_chain_init. rewrite (u8_small (par_elem_size par)) by lia.
  destruct (Z.eqb_spec (par_elem_size par) 0); [lia|]. eexists. split; [reflexivity|].
  rewrite Hel. fold us. fold un.
  rewrite (u16_small (2 ^ (p - e))), (u16_small us), (u16_small (2 ^ (p - e) - 1)) by lia.
  rewrite (u32_small (us * par_pages par)) by nia.
  split.
  - constructor; simpl; unfold width, is_chain_u16; simpl; try done; try lia.
    + exists (p - e). lia.
    + split; [lia|]. destruct (bool_decide _); nia.
    + destruct (par_mode par) eqn:Em; [apply Hnp; done| |apply Hdn; done].
      split; [by apply Hdn|]. unfold par_pages. by rewrite Em.
  - unfold width, is_chain_u16. simpl. done.
Qed.

(** ** A completed chain *)

(** Everything of a chain but its indices and its memory. *)
Definition layout (c : qed_chain) : qed_chain :=
  (cfg c) <| p_virt_addr := 0 |> <| p_phys_addr := 0 |> <| p_virt_table := 0 |>
          <| p_phys_table := 0 |> <| pp_virt_addr_tbl := None |> <| b_external_pbl := false |>.

Ltac layout_fields H :=
  pose proof (f_equal capacity H); pose proof (f_equal page_cnt H);
  pose proof (f_equal mode H); pose proof (f_equal elem_per_page H);
  pose proof (f_equal elem_per_page_mask H); pose proof (f_equal elem_size H);
  pose proof (f_equal next_page_mask H); pose proof (f_equal usable_per_page H);
  pose proof (f_equal elem_unusable H); pose proof (f_equal cnt_type H);
  pose proof (f_equal page_size H); simpl in *.

Lemma shape_geom m c0 c pages :
  shape c0 -> layout c = layout c0 -> page_cnt c = Z.of_nat (length pages) ->
  p_virt_addr c = page_at pages 0 ->
  (mode c = QED_CHAIN_MODE_NEXT_PTR ->
   forall i, 0 <= i < page_cnt c -> exists n,
     read_next m (page_at pages i + elem_size c * usable_per_page c) = Some n /\
     next_virt n = page_at pages ((i + 1) mod page_cnt c)) ->
  (mode c = QED_CHAIN_MODE_PBL -> pp_virt_addr_tbl c = Some pages) ->
  chain_geom m c pages.
Proof.
  intros S HL Hlen Hv Hnp Hpbl. layout_fields HL. destruct S.
  constructor; unfold width, is_chain_u16 in *;
    repeat match goal with E : _ c = _ c0 |- _ => rewrite E in *; clear E end; try done; try lia.
  destruct (mode c0); naive_solver.
Qed.

(** The chain [c] is built on its own disjoint [pages] and freshly reset:
    it is [qed_chain_reset] of a chain whose geometry is complete. *)
Record built (m : dma_mem) (c0 c : qed_chain) (pages : list Z) : Prop := {
  b_reset : exists c1, c = qed_chain_reset c1 /\ chain_geom m c1 pages /\ layout c1 = layout c0 /\
            u c1 = u c0 /\ pbl_c c1 = pbl_c c0 /\ intended_use c1 = intended_use c0;
  b_nodup : NoDup pages;
  b_disjoint : pages_disjoint (page_size c0) pages;
  b_first : 0 < page_at pages 0;
  b_live : forall i, 0 <= i < Z.of_nat (length pages) -> mapped m (page_at pages i) (page_size c0) = true
}.

Lemma owned_pages_disjoint sz L bs : owned sz L bs -> pages_disjoint sz bs.*1.
Proof.
  intros O i j Hi Hj Hne. pose proof (page_at_some _ _ Hi) as Li. pose proof (page_at_some _ _ Hj) as Lj.
  assert (Hpp : page_at bs.*1 i <> page_at bs.*1 j)
    by (intros E; apply page_at_inj in E; [done|apply O|done..]).
  apply list_lookup_fmap_Some in Li as (b & Eb & Lb), Lj as (b' & Eb' & Lb'). rewrite Eb, Eb' in *.
  apply (o_apart _ _ _ O); [by eapply list_elem_of_lookup_2..|congruence].
Qed.

Lemma owned_mapped sz L bs m i :
  owned sz L bs -> live m = with_blocks sz bs L -> 0 <= i < Z.of_nat (length bs.*1) ->
  mapped m (page_at bs.*1 i) sz = true.
Proof.
  intros O Hl Hi. pose proof (page_at_some _ _ Hi) as Li.
  apply list_lookup_fmap_Some in Li as (b & -> & Lb).
  apply (mapped_intro _ b.1 (sz, b.2)); simpl; [|lia..].
  rewrite Hl. apply with_blocks_lookup; [done|by eapply list_elem_of_lookup_2].
Qed.

Lemma built_intro m c0 c1 L bs :
  chain_geom m c1 bs.*1 -> layout c1 = layout c0 -> u c1 = u c0 -> pbl_c c1 = pbl_c c0 ->
  intended_use c1 = intended_use c0 ->
  owned (page_size c0) L bs -> live m = with_blocks (page_size c0) bs L -> bs <> [] ->
  built m c0 (qed_chain_reset c1) bs.*1.
Proof.
  intros G HL Hu Hp Hi O Hl Hne. constructor.
  - by exists c1.
  - apply O.
  - by eapply owned_pages_disjoint.
  - destruct bs as [|b bs]; [done|]. apply (o_pos _ _ _ O). by left.
  - intros i Hi'. by eapply owned_mapped.
Qed.

(** ** The three allocators *)

Lemma alloc_single_spec c0 m :
  shape c0 -> mode c0 = QED_CHAIN_MODE_SINGLE ->
  exists rc c m', qed_chain_alloc_single c0 m = (rc, c, m') /\ mode c = mode c0 /\
    releases (live m) (vz_live m) c m' /\
    (rc = - ENOMEM \/ rc = 0 /\ exists pages, built m' c0 c pages).
Proof.
  intros S Hm. unfold qed_chain_alloc_single.
  destruct (dma_alloc_coherent (page_size c0) m) as [[v p] m1] eqn:Ha.
  destruct (Z.eqb_spec v 0) as [Hv|Hv].
  - destruct (dma_alloc_null _ _ _ _ _ Ha Hv) as (Hl & _ & _ & Hz & _).
    eexists _, _, _. split_and!; try done; [|by left]. intros c1 Hc. pose proof (s_mem _ S).
    cfg_fields Hc. unfold qed_chain_free, qed_chain_free_single.
        replace (mode c1) with QED_CHAIN_MODE_SINGLE by congruence.
    replace (p_virt_addr c1) with 0 by congruence. simpl. eauto.
  - destruct (dma_alloc_inv _ _ _ _ _ Ha Hv) as (Hf & Hl & _ & _ & Hz & _ & Hp).
    set (c1 := qed_chain_init_mem v p c0). pose proof (reset_cfg c1) as Hcfg.
    assert (Hmr : mode (qed_chain_reset c1) = mode c0) by exact (f_equal mode Hcfg).
    eexists _, _, _. split_and!; [done|done| |right; split; [done|]].
    + intros c2 Hc. rewrite Hcfg in Hc. cfg_fields Hc.
      pose proof (f_equal page_size Hc). pose proof (f_equal p_phys_addr Hc). simpl in *.
      unfold qed_chain_free, qed_chain_free_single, dma_free_coherent.
      replace (mode c2) with QED_CHAIN_MODE_SINGLE by congruence.
      replace (p_virt_addr c2) with v by congruence. replace (page_size c2) with (page_size c0) by congruence.
      replace (p_phys_addr c2) with p by congruence. destruct (Z.eqb_spec v 0); [done|].
      rewrite Hl, lookup_insert_eq, !Z.eqb_refl. simpl. eexists _, _. split; [done|]. simpl.
      apply fresh_block_spec in Hf as (_ & HN & _). split; [by apply delete_insert_id|done].
    + assert (Hps : 0 < page_size c0).
      { rewrite <- (s_page_size _ S). destruct (s_elem_size _ S), (s_pow2 _ S) as (k & Hk & ->).
        apply Z.mul_pos_pos; [done|apply Z.pow_pos_nonneg; lia]. }
      destruct (owned_snoc (page_size c0) (live m) [] m v p) as (O & _ & Hlb);
        [done|by unfold with_blocks; simpl; rewrite map_empty_union|apply owned_nil|done|done|].
      exists [(v, p)].*1. pose proof (s_mode _ S) as Hsm. rewrite Hm in Hsm.
      apply (built_intro _ _ _ (live m)); try done; [|by rewrite Hl].
      apply (shape_geom _ c0); simpl; try done; [apply Hsm|by rewrite Hm..].
Qed.

Lemma linked_lookup cs off bs x : forall i b,
  linked cs off bs x -> bs !! i = Some b ->
  cs !! (b.1 + off) = match bs !! S i with Some b' => Some (link b') | None => x end.
Proof.
  induction bs as [|b0 bs IH]; intros [|i] b; simpl; try done.
  - intros [Hb _] [= ->]. rewrite Hb. by destruct bs.
  - intros [_ Hl] Hi. by apply IH.
Qed.

(** The links of a complete chain close the ring. *)
Lemma closed_links sz off L m b bs :
  0 <= off /\ off + sizeof_qed_chain_next <= sz ->
  np_state sz off L m (b :: bs) (Some (link b)) ->
  forall i, 0 <= i < Z.of_nat (length (b :: bs).*1) -> exists n,
    read_next m (page_at (b :: bs).*1 i + off) = Some n /\
    next_virt n = page_at (b :: bs).*1 ((i + 1) mod Z.of_nat (length (b :: bs).*1)).
Proof.
  intros Hsz [Hl O Hk] i Hi. set (all := b :: bs) in *.
  assert (H0 : page_at all.*1 0 = b.1) by done. clearbody all.
  pose proof (page_at_some _ _ Hi) as Li. apply list_lookup_fmap_Some in Li as (a & Ea & La). rewrite Ea.
  assert (Ha : a ∈ all) by (by eapply list_elem_of_lookup_2).
  unfold read_next. rewrite (np_mapped sz off Hsz L m all a Hl O Ha), (linked_lookup _ _ _ _ _ _ Hk La).
  eexists; split; [done|]. rewrite length_fmap in *.
  destruct (all !! S (Z.to_nat i)) as [a'|] eqn:E; simpl.
  - pose proof (lookup_lt_Some _ _ _ E). rewrite Z.mod_small by lia. symmetry. apply page_at_lookup.
    replace (Z.to_nat (i + 1)) with (S (Z.to_nat i)) by lia. by rewrite list_lookup_fmap, E.
  - apply lookup_ge_None in E. replace (i + 1) with (Z.of_nat (length all)) by lia.
    rewrite Z.mod_same, H0 by lia. done.
Qed.

Lemma np_releases sz off L m c0 c b bs x vz :
  0 <= off /\ off + sizeof_qed_chain_next <= sz ->
  np_state sz off L m (b :: bs) x ->
  (length (b :: bs) = Z.to_nat (page_cnt c0) \/ (length (b :: bs) <= Z.to_nat (page_cnt c0))%nat /\ x = None) ->
  mode c0 = QED_CHAIN_MODE_NEXT_PTR -> page_size c0 = sz -> next_ptr_offset c0 = off ->
  cfg c = cfg (qed_chain_init_mem b.1 b.2 c0) -> vz_live m = vz ->
  releases L vz c m.
Proof.
  intros Hsz S Hlen Hm Hps Ho Hc Hz c1 Hc1. rewrite Hc in Hc1. cfg_fields Hc1.
  pose proof (f_equal page_size Hc1). pose proof (f_equal p_phys_addr Hc1). simpl in *.
  assert (Hb : 0 < b.1) by (apply (o_pos _ _ _ (np_owned _ _ _ _ _ _ S)); by left).
  unfold qed_chain_free, qed_chain_free_next_ptr.
  replace (mode c1) with QED_CHAIN_MODE_NEXT_PTR by congruence.
  replace (p_virt_addr c1) with b.1 by congruence. replace (p_phys_addr c1) with b.2 by congruence.
  replace (elem_size c1) with (elem_size c0) by congruence.
  replace (usable_per_page c1) with (usable_per_page c0) by congruence.
  replace (page_cnt c1) with (page_cnt c0) by congruence.
  destruct (Z.eqb_spec b.1 0); [lia|]. unfold next_ptr_offset in Ho. rewrite Ho.
  destruct (free_np_blocks sz off Hsz L c1 ltac:(congruence) bs b (Z.to_nat (page_cnt c0)) m x S Hlen)
    as (m' & -> & Hl' & _ & _ & Hz'). simpl. eexists _, _. split; [done|]. split; [done|congruence].
Qed.

(** The last page is linked back to the first. *)
Lemma np_close sz off L c bs b v p m :
  0 <= off /\ off + sizeof_qed_chain_next <= sz -> next_ptr_offset c = off ->
  np_state sz off L m (bs ++ [b]) None ->
  exists m', qed_chain_init_next_ptr_elem c b.1 v p m = Some m' /\
    np_state sz off L m' (bs ++ [b]) (Some (link (v, p))) /\ vz_live m' = vz_live m.
Proof.
  intros Hsz Ho [Hl O Hk]. unfold qed_chain_init_next_ptr_elem, write_next.
  rewrite Ho, (np_mapped sz off Hsz L m (bs ++ [b]) b Hl O) by (apply elem_of_app; right; by left).
  eexists; split; [done|]. split; [|done]. constructor; [done|done|]. simpl.
  eapply (linked_set_last _ _ _ _ _ (link (v, p))); [|done].
  pose proof (o_nodup _ _ _ O) as ND. rewrite fmap_app in ND.
  apply list.NoDup_app in ND as (_ & ND & _). intros Hin. apply (ND _ Hin). by left.
Qed.

Lemma np_built c0 L m v p t :
  shape c0 -> mode c0 = QED_CHAIN_MODE_NEXT_PTR ->
  np_state (page_size c0) (elem_size c0 * usable_per_page c0) L m ((v, p) :: t) (Some (link (v, p))) ->
  page_cnt c0 = Z.of_nat (length ((v, p) :: t)) ->
  built m c0 (qed_chain_reset (qed_chain_init_mem v p c0)) ((v, p) :: t).*1.
Proof.
  intros S Hm [Hl O Hk] Hlen. pose proof (s_mode _ S) as Hsm. rewrite Hm in Hsm.
  destruct (s_elem_size _ S) as [He1 He2]. pose proof (s_usable _ S).
  apply (built_intro _ _ _ L); try done. rewrite <- (length_fmap fst) in Hlen.
  apply (shape_geom _ c0); simpl; try done; [|by rewrite Hm].
  intros _ i Hi. simpl in Hlen. rewrite Hlen in *.
  apply (closed_links (page_size c0) _ L m (v, p) t); [|by constructor|simpl; lia].
  split; [nia|apply Hsm].
Qed.

(** The rest of the allocation, once the first page [(v, p)] is in place. *)
Lemma alloc_np_tail sz off L c v p n m :
  0 <= off /\ off + sizeof_qed_chain_next <= sz ->
  page_size c = sz -> next_ptr_offset c = off -> p_virt_addr c = v -> p_phys_addr c = p ->
  np_state sz off L m [(v, p)] None ->
  exists rc m' t x,
    ('(rc, c, m, p_virt_prev) ← alloc_next_ptr_loop n false v c m;
     if negb (rc =? 0) then Some (rc, c, m) else
     m ← qed_chain_init_next_ptr_elem c p_virt_prev (p_virt_addr c) (p_phys_addr c) m;
     Some (0, c, m)) = Some (rc, c, m') /\
    np_state sz off L m' ((v, p) :: t) x /\ vz_live m' = vz_live m /\
    (rc = 0 /\ length t = n /\ x = Some (link (v, p)) \/
     rc = - ENOMEM /\ (length t <= n)%nat /\ x = None).
Proof.
  intros Hsz Hps Hoc Hv Hph S1.
  destruct (alloc_np_loop sz off Hsz L c Hps Hoc n [] (v, p) m S1)
    as (rc & m2 & bs & b & t & Hr & S2 & Heq & Hlen & Hz2 & Hrc).
  simpl in Hr, Heq. rewrite Hr. cbn [mbind option_bind]. destruct Hrc as [[-> Hfull]| ->].
  - destruct (np_close sz off L c bs b v p m2 Hsz Hoc S2) as (m3 & Hw & S3 & Hz3).
    cbn [negb Z.eqb]. rewrite Hv, Hph, Hw. rewrite Heq in S3. exists 0, m3, t, (Some (link (v, p))).
    split_and!; [done|done|congruence|by left].
  - rewrite Heq in S2. exists (- ENOMEM), m2, t, None. split_and!; [done|done|done|by right].
Qed.

Lemma init_mem_fields v p c0 c :
  cfg c = cfg (qed_chain_init_mem v p c0) ->
  page_size c = page_size c0 /\ next_ptr_offset c = next_ptr_offset c0 /\
  p_virt_addr c = v /\ p_phys_addr c = p /\ mode c = mode c0 /\
  pp_virt_addr_tbl c = pp_virt_addr_tbl c0.
Proof.
  intros H. cfg_fields H. pose proof (f_equal page_size H). pose proof (f_equal p_phys_addr H).
  simpl in *. unfold next_ptr_offset. split_and!; congruence.
Qed.

Lemma alloc_next_ptr_spec c0 m :
  shape c0 -> mode c0 = QED_CHAIN_MODE_NEXT_PTR ->
  exists rc c m', qed_chain_alloc_next_ptr c0 m = Some (rc, c, m') /\ mode c = mode c0 /\
    releases (live m) (vz_live m) c m' /\
    (rc = - ENOMEM \/ rc = 0 /\ exists pages, built m' c0 c pages).
Proof.
  intros S Hm. pose proof (s_mode _ S) as Hsm. rewrite Hm in Hsm. destruct Hsm as [Hun Hfit].
  pose proof (s_pages _ S) as [Hpc _]. destruct (s_elem_size _ S) as [He1 He2]. pose proof (s_usable _ S).
  assert (Hsz : 0 <= elem_size c0 * usable_per_page c0 /\
    elem_size c0 * usable_per_page c0 + sizeof_qed_chain_next <= page_size c0) by (split; [nia|done]).
  assert (Hoff : next_ptr_offset c0 = elem_size c0 * usable_per_page c0) by (apply u32_small; lia).
  unfold qed_chain_alloc_next_ptr. destruct (Z.eqb_spec (page_cnt c0) 0); [lia|].
  destruct (Z.to_nat (page_cnt c0)) as [|np] eqn:En; [lia|]. cbn [alloc_next_ptr_loop].
  destruct (dma_alloc_coherent (page_size c0) m) as [[v p] m1] eqn:Ha.
  destruct (Z.eqb_spec v 0) as [Hv|Hv].
  - destruct (dma_alloc_null _ _ _ _ _ Ha Hv) as (Hl & _ & _ & Hz & _). simpl.
    eexists _, _, _. split_and!; try done; [|by left]. intros c1 Hc. pose proof (s_mem _ S).
    cfg_fields Hc. unfold qed_chain_free, qed_chain_free_next_ptr.
    replace (mode c1) with QED_CHAIN_MODE_NEXT_PTR by congruence.
    replace (p_virt_addr c1) with 0 by congruence. simpl. eauto.
  - pose proof (reset_cfg (qed_chain_init_mem v p c0)) as Hcfg.
    assert (Hl0 : live m = with_blocks (page_size c0) [] (live m))
      by (unfold with_blocks; simpl; by rewrite map_empty_union).
    destruct (np_alloc _ _ Hsz (live m) m [] v p m1 Ha Hv Hl0 (owned_nil _ _)) as (O1 & Hl1 & _ & Hn1 & Hz1).
    set (c := qed_chain_reset (qed_chain_init_mem v p c0)) in *.
    destruct (init_mem_fields v p c0 c Hcfg) as (Hps & Hoc & Hvc & Hph & Hmc & _).
    destruct (alloc_np_tail _ _ (live m) c v p np m1 Hsz Hps) as (rc & m2 & t & x & Hr & S2 & Hz2 & Hrc);
      [congruence|done|done|by constructor|].
    exists rc, c, m2. split_and!; [exact Hr|done| |].
    + eapply (np_releases _ _ (live m) m2 c0 c (v, p)); try done; [|congruence].
      destruct Hrc as [(_ & <- & _)|(_ & Ht & ->)]; [left|right; split]; simpl; try done; lia.
    + destruct Hrc as [(-> & <- & ->)|(-> & _ & _)]; [right; split; [done|]|by left].
      eexists. apply (np_built c0 (live m)); try done. simpl. lia.
Qed.

Lemma reset_cfg_ex c : exists c1, c1 = qed_chain_reset c /\ cfg c1 = cfg c.
Proof. eexists. split; [reflexivity|apply reset_cfg]. Qed.

Lemma alloc_pbl_first n a c m v p m1 c1 :
  dma_alloc_coherent (page_size c) m = (v, p, m1) -> v <> 0 ->
  c1 = qed_chain_reset (qed_chain_init_mem v p c) ->
  alloc_pbl_loop (S n) 0 a c m
  = (m ← write_pbl a p m1;
     tbl ← pp_virt_addr_tbl c1;
     if (0 <? length tbl)%nat
     then alloc_pbl_loop n 1 (a + QED_CHAIN_PBL_ENTRY_SIZE)
            (c1 <| pp_virt_addr_tbl := Some (<[0%nat := v]> tbl) |>) m
     else None).
Proof.
  intros Ha Hv ->. cbn [alloc_pbl_loop]. rewrite Ha. destruct (Z.eqb_spec v 0); [done|]. reflexivity.
Qed.

(** The whole page loop of [qed_chain_alloc_pbl]. *)
Lemma alloc_pbl_all sz L a pc pv pb c m :
  0 < sz -> L !! pv = Some pb ->
  pv <= a /\ a + QED_CHAIN_PBL_ENTRY_SIZE * Z.of_nat pc <= pv + pb.1 ->
  sz = page_size c -> (0 < pc)%nat -> pp_virt_addr_tbl c = Some (replicate pc 0) -> live m = L ->
  exists rc c' m' bs,
    alloc_pbl_loop pc 0 a c m = Some (rc, c', m') /\ pbl_state sz L a m' bs /\
    vz_live m' = vz_live m /\ (length bs <= pc)%nat /\
    (bs = [] /\ rc = - ENOMEM /\ c' = c \/
     exists v p t c1, bs = (v, p) :: t /\ c1 = qed_chain_reset (qed_chain_init_mem v p c) /\
       c' = c1 <| pp_virt_addr_tbl := Some (bs.*1 ++ replicate (pc - length bs) 0) |>) /\
    (rc = 0 /\ length bs = pc \/ rc = - ENOMEM).
Proof.
  intros Hsz Hpb Ha -> Hpc Ht Hl. destruct pc as [|n]; [lia|].
  assert (S0 : pbl_state (page_size c) L a m []).
  { constructor; [|apply owned_nil|done]. rewrite Hl. unfold with_blocks. simpl. by rewrite map_empty_union. }
  destruct (dma_alloc_coherent (page_size c) m) as [[v p] m1] eqn:Hal.
  destruct (Z.eqb_spec v 0) as [Hv|Hv].
  - destruct (dma_alloc_null _ _ _ _ _ Hal Hv) as (Hl1 & _ & Hc1 & Hz1 & _). destruct S0 as [Hl0 O0 Hk0].
    exists (- ENOMEM), c, m1, []. split_and!; auto; [|..|simpl; lia].
    { cbn [alloc_pbl_loop]. by rewrite Hal, (proj2 (Z.eqb_eq v 0) Hv). }
     constructor; [by rewrite Hl1|done|done].
  - destruct (pbl_alloc (page_size c) Hsz L a (S n) pv pb Hpb Ha m [] v p m1 Hal Hv S0) as (O1 & Hl1 & Hk1 & Hz1 & _); [simpl; lia|].
    destruct (pbl_record (page_size c) L a (S n) pv pb Hpb Ha m1 [] v p O1 Hl1 Hk1) as (m2 & Hw & S2 & Hz2); [simpl; lia|].
    cbn [length Z.of_nat] in Hw. rewrite Z.mul_0_r, Z.add_0_r in Hw.
    destruct (reset_cfg_ex (qed_chain_init_mem v p c)) as (c1 & Ec & Hcfg).
    rewrite (alloc_pbl_first n a c m v p m1 c1 Hal Hv Ec), Hw. cbn [mbind option_bind].
    destruct (init_mem_fields v p c c1 Hcfg) as (Hps1 & _ & _ & _ & _ & Ht1).
    rewrite Ht1, Ht. cbn [mbind option_bind replicate length Nat.ltb Nat.leb].
    change (<[0%nat:=v]> (0 :: replicate n 0)) with ([(v, p)].*1 ++ replicate n 0).
    destruct (alloc_pbl_rest (page_size c) Hsz L a (S n) pv pb Hpb Ha n [(v, p)]
                (c1 <| pp_virt_addr_tbl := Some ([(v, p)].*1 ++ replicate n 0) |>) m2)
      as (rc & m' & t & Hr & S' & Hz & Hlen & Hrc);
      [simpl; congruence|simpl; lia|simpl; lia|done|done|].
    cbn [length Z.of_nat Pos.of_succ_nat] in Hr. rewrite Z.mul_1_r in Hr. rewrite Hr.
    exists rc. eexists _, m', ([(v, p)] ++ t). split_and!; [done|done|congruence|simpl; lia| |].
    { right. by exists v, p, t, c1. }
    simpl. destruct Hrc as [[-> <-]| ->]; auto.
Qed.

(** Releasing a page-table ring, complete or not. *)
Lemma pbl_releases sz L0 L a pc pv pb m c bs vz ext pp :
  0 < sz -> L !! pv = Some pb ->
  pv <= a /\ a + QED_CHAIN_PBL_ENTRY_SIZE * Z.of_nat pc <= pv + pb.1 ->
  pbl_state sz L a m bs -> (length bs <= pc)%nat ->
  mode c = QED_CHAIN_MODE_PBL -> page_size c = sz -> page_cnt c = Z.of_nat pc -> page_cnt c < 2 ^ 29 ->
  pp_virt_addr_tbl c = Some (bs.*1 ++ replicate (pc - length bs) 0) ->
  p_virt_table c = a -> a <> 0 -> p_phys_table c = pp -> b_external_pbl c = ext ->
  (if ext then L = L0
   else L = <[a := (QED_CHAIN_PBL_ENTRY_SIZE * Z.of_nat pc, pp)]> L0 /\ L0 !! a = None) ->
  vz_live m = vz + 1 ->
  exists c2 m2, qed_chain_free c m = Some (c2, m2) /\ live m2 = L0 /\ vz_live m2 = vz.
Proof.
  intros Hsz Hpb Ha S Hlen Hm Hps Hpc Hpc29 Ht Hvt Ha0 Hpt Hext HL Hz.
  unfold qed_chain_free, qed_chain_free_pbl. rewrite Hm, Ht, Hvt.
  destruct (Z.eqb_spec a 0); [done|].
  destruct (free_pbl_blocks sz L a pc pv pb Hpb Ha c Hps bs [] (pc - length bs) m) as (m' & Hf & Hl' & _ & _ & Hz');
    [apply S|apply S|simpl; rewrite Z.add_0_r; apply S|simpl; lia|].
  cbn [app length Z.of_nat] in Hf. rewrite Z.mul_0_r, Z.add_0_r in Hf.
  replace (length bs + (pc - length bs))%nat with (Z.to_nat (page_cnt c)) in Hf by lia.
  rewrite Hf. cbn [mbind option_bind]. rewrite Hext. destruct ext; cbn [negb].
  - eexists _, _. split; [done|]. simpl. split; [congruence|lia].
  - destruct HL as [HL Hnew]. unfold dma_free_coherent. unfold QED_CHAIN_PBL_ENTRY_SIZE in *.
    rewrite Hl', HL, lookup_insert_eq, u32_small, Hpt, Hpc by lia.
    replace (Z.of_nat pc * 8) with (8 * Z.of_nat pc) by lia. rewrite !Z.eqb_refl. cbn [andb mbind option_bind].
    eexists _, _. split; [done|]. cbn. split; [by rewrite delete_insert_id|lia].
Qed.

(** An external page table is a live area with room for the entries. *)
Definition ext_pbl_ok (m : dma_mem) (pc : Z) (ext : option qed_chain_ext_pbl) : Prop :=
  match ext with
  | None => True
  | Some e => exists v b, live m !! v = Some b /\ v <= p_pbl_virt e /\
                p_pbl_virt e + QED_CHAIN_PBL_ENTRY_SIZE * pc <= v + b.1
  end.

Lemma cfg_reset_tbl c t : cfg ((qed_chain_reset c) <| pp_virt_addr_tbl := t |>) = cfg (c <| pp_virt_addr_tbl := t |>).
Proof. by rewrite <- reset_tbl, reset_cfg. Qed.

(** What release reads of a page-table ring. *)
Lemma pbl_fields c0 ext a pp tbl v p t cx :
  cfg cx = cfg ((qed_chain_init_mem v p (qed_chain_init_pbl_mem a pp tbl (c0 <| b_external_pbl := ext |>)))
                  <| pp_virt_addr_tbl := t |>) ->
  mode cx = mode c0 /\ page_size cx = page_size c0 /\ page_cnt cx = page_cnt c0 /\
  pp_virt_addr_tbl cx = t /\ p_virt_table cx = a /\ p_phys_table cx = pp /\ b_external_pbl cx = ext.
Proof.
  intros H. cfg_fields H. pose proof (f_equal page_size H). pose proof (f_equal p_virt_table H).
  pose proof (f_equal p_phys_table H). pose proof (f_equal b_external_pbl H). simpl in *. done.
Qed.

(** A complete page-table ring. *)
Lemma pbl_built c0 ext a pp tbl L m v p t :
  shape c0 -> mode c0 = QED_CHAIN_MODE_PBL ->
  pbl_state (page_size c0) L a m ((v, p) :: t) -> page_cnt c0 = Z.of_nat (length ((v, p) :: t)) ->
  built m c0 ((qed_chain_reset (qed_chain_init_mem v p
                 (qed_chain_init_pbl_mem a pp tbl (c0 <| b_external_pbl := ext |>))))
                <| pp_virt_addr_tbl := Some ((v, p) :: t).*1 |>) ((v, p) :: t).*1.
Proof.
  intros S Hm [Hl O Hk] Hlen. rewrite <- reset_tbl.
  apply (built_intro _ _ _ L); try done. rewrite <- (length_fmap fst) in Hlen.
  apply (shape_geom _ c0); try done. simpl. by rewrite Hm.
Qed.

(** The part of [qed_chain_alloc_pbl] after the tables were obtained: [c] has
    its table pointers, [L] is the live memory, [L0] what release must leave. *)
Lemma alloc_pbl_tail c0 c L0 L a pv pb m ext pp tbl :
  shape c0 -> mode c0 = QED_CHAIN_MODE_PBL ->
  L !! pv = Some pb ->
  pv <= a /\ a + QED_CHAIN_PBL_ENTRY_SIZE * page_cnt c0 <= pv + pb.1 -> a <> 0 ->
  tbl = Some (replicate (Z.to_nat (page_cnt c0)) 0) ->
  c = qed_chain_init_pbl_mem a pp tbl (c0 <| b_external_pbl := ext |>) ->
  (if ext then L = L0
   else L = <[a := (QED_CHAIN_PBL_ENTRY_SIZE * page_cnt c0, pp)]> L0 /\ L0 !! a = None) ->
  live m = L ->
  exists rc c' m', alloc_pbl_loop (Z.to_nat (page_cnt c)) 0 a c m = Some (rc, c', m') /\
    mode c' = mode c0 /\ releases L0 (vz_live m - 1) c' m' /\
    (rc = - ENOMEM \/ rc = 0 /\ exists pages, built m' c0 c' pages).
Proof.
  intros S Hm Hpb Ha Ha0 Ht Hc HL Hl. pose proof (s_pages _ S) as [Hpc _]. pose proof (s_pages29 _ S) as H29.
  assert (Hps : 0 < page_size c0).
  { rewrite <- (s_page_size _ S). destruct (s_elem_size _ S), (s_pow2 _ S) as (k & Hk & ->).
    apply Z.mul_pos_pos; [done|apply Z.pow_pos_nonneg; lia]. }
  set (pc := Z.to_nat (page_cnt c0)) in *. assert (Epc : page_cnt c0 = Z.of_nat pc) by lia. rewrite Epc in Ha, HL.
  assert (Hfc : page_cnt c = page_cnt c0 /\ page_size c0 = page_size c /\ pp_virt_addr_tbl c = tbl) by (subst c; done).
  destruct Hfc as (Hc1 & Hc2 & Hc3). rewrite Hc1. fold pc.
  destruct (alloc_pbl_all (page_size c0) L a pc pv pb c m Hps Hpb Ha Hc2 ltac:(lia)
              ltac:(congruence) Hl) as (rc & c' & m' & bs & Hr & S' & Hz & Hlen & Hcase & Hrc).
  assert (Hcfg : exists v p, cfg c' = cfg ((qed_chain_init_mem v p c)
      <| pp_virt_addr_tbl := Some (bs.*1 ++ replicate (pc - length bs) 0) |>)).
  { destruct Hcase as [(-> & _ & ->)|(v & p & t & c1 & -> & -> & ->)].
    - exists (p_virt_addr c), (p_phys_addr c). subst c tbl. simpl. by rewrite Nat.sub_0_r.
    - exists v, p. apply cfg_reset_tbl. }
  destruct Hcfg as (v0 & p0 & Hcfg). rewrite Hc in Hcfg.
  exists rc, c', m'. split_and!; [done|by apply (pbl_fields _ _ _ _ _ _ _ _ _ Hcfg)| |].
  - intros cx Hcx. rewrite Hcfg in Hcx. destruct (pbl_fields _ _ _ _ _ _ _ _ _ Hcx) as (F1 & F2 & F3 & F4 & F5 & F6 & F7).
    apply (pbl_releases (page_size c0) L0 L a pc pv pb m' cx bs _ ext pp); try done; try congruence; lia.
  - destruct Hrc as [[-> Hfull]| ->]; [right; split; [done|]|by left].
    destruct Hcase as [(-> & E & _)|(v & p & t & c1 & -> & -> & ->)]; [done|].
    rewrite Hfull, Nat.sub_diag, app_nil_r, Hc. eexists. apply (pbl_built c0 _ _ _ _ L); try done. lia.
Qed.

(** Nothing to release once the page-table ring has no pages. *)
Lemma pbl_releases_empty c m :
  mode c = QED_CHAIN_MODE_PBL -> (pp_virt_addr_tbl c = None \/ p_virt_table c = 0) ->
  releases (live m) (vz_live m - (if pp_virt_addr_tbl c then 1 else 0)) c m.
Proof.
  intros Hm Ht c1 H. cfg_fields H. pose proof (f_equal p_virt_table H). simpl in *.
  unfold qed_chain_free, qed_chain_free_pbl.
  replace (mode c1) with QED_CHAIN_MODE_PBL by congruence.
  replace (pp_virt_addr_tbl c1) with (pp_virt_addr_tbl c) by congruence.
  replace (p_virt_table c1) with (p_virt_table c) by congruence.
  destruct (pp_virt_addr_tbl c); [destruct Ht as [|Ht]; [done|rewrite Ht]|]; simpl;
    eexists _, _; (split; [done|]); simpl; split; [done|lia|done|lia].
Qed.

Lemma set_ext_id c : b_external_pbl c = false -> c <| b_external_pbl := false |> = c.
Proof. destruct c; simpl. by intros ->. Qed.

Lemma alloc_pbl_spec c0 ext m :
  shape c0 -> mode c0 = QED_CHAIN_MODE_PBL -> ext_pbl_ok m (page_cnt c0) ext ->
  exists rc c m', qed_chain_alloc_pbl c0 ext m = Some (rc, c, m') /\ mode c = mode c0 /\
    releases (live m) (vz_live m) c m' /\
    (rc = - ENOMEM \/ rc = 0 /\ exists pages, built m' c0 c pages).
Proof.
  intros S Hm Hext. pose proof (s_pages _ S) as [Hpc _]. pose proof (s_pages29 _ S) as H29.
  unfold qed_chain_alloc_pbl, vzalloc_tbl, QED_CHAIN_PBL_ENTRY_SIZE. rewrite u32_small by lia.
  destruct (Z.eqb_spec (page_cnt c0 * 8) 0); [lia|]. rewrite Z.div_mul by lia.
  assert (Hno : forall m', live m' = live m -> vz_live m' = vz_live m ->
            releases (live m) (vz_live m) c0 m').
  { intros m' <- <-. pose proof (pbl_releases_empty c0 m' Hm (or_introl (s_tbl _ S))) as R.
    rewrite (s_tbl _ S), Z.sub_0_r in R. done. }
  destruct (vz_oracle m) as [|[] rest].
  - eexists _, _, _. split_and!; [done|done|by apply Hno|by left].
  - set (tbl := Some (replicate (Z.to_nat (page_cnt c0)) 0)).
    set (m1 := (m <| vz_oracle := rest |>) <| vz_live := vz_live m + 1 |>).
    assert (Hz1 : vz_live m = vz_live m1 - 1) by (subst m1; simpl; lia).
    replace (page_cnt c0 * 8) with (QED_CHAIN_PBL_ENTRY_SIZE * page_cnt c0) by (unfold QED_CHAIN_PBL_ENTRY_SIZE; lia).
    assert (Hnull : forall a pp e m2, a = 0 -> live m2 = live m -> vz_live m2 = vz_live m1 ->
      releases (live m) (vz_live m) (qed_chain_init_pbl_mem a pp tbl (c0 <| b_external_pbl := e |>)) m2).
    { intros a pp e m2 -> <- Hz2. rewrite Hz1, <- Hz2. by apply pbl_releases_empty; [|right]. }
    destruct ext as [e|].
    + destruct (Z.eqb_spec (p_pbl_virt e) 0) as [Hv|Hv].
      * eexists _, _, _. split_and!; [done|done|by apply Hnull|by left].
      * destruct Hext as (pv & pb & Hpb & Ha1 & Ha2). rewrite Hz1.
        by eapply (alloc_pbl_tail c0 _ (live m) (live m) (p_pbl_virt e) pv pb m1 true).
    + destruct (dma_alloc_coherent _ m1) as [[v p] m2] eqn:Hal.
      pose proof (set_ext_id c0 (s_ext _ S)) as Eext.
      destruct (Z.eqb_spec v 0) as [Hv|Hv].
      * destruct (dma_alloc_null _ _ _ _ _ Hal Hv) as (Hl2 & _ & _ & Hz2 & _).
        pose proof (Hnull v p false m2 Hv Hl2 Hz2) as R. rewrite Eext in R.
        eexists _, _, _. split_and!; [done|done|exact R|by left].
      * destruct (dma_alloc_inv _ _ _ _ _ Hal Hv) as (Hf & Hl2 & _ & _ & Hz2 & _).
        apply fresh_block_spec in Hf as (_ & Hnew & _). rewrite Hz1, <- Hz2.
        eapply (alloc_pbl_tail c0 _ (live m) (live m2) v v _ m2 false); try done; try (by rewrite Eext).
        -- rewrite Hl2. apply lookup_insert_eq.
        -- simpl. lia.
  - eexists _, _, _. split_and!; [done|done|by apply Hno|by left].
Qed.

(** ** [qed_chain_alloc] *)

(** What [qed_chain_init] makes of a request, before any memory is obtained. *)
Record requested (par : qed_chain_params) (c c0 : qed_chain) : Prop := {
  q_shape : shape c0;
  q_wf : chain_wf c -> chain_wf c0;
  q_mode : mode c0 = par_mode par;
  q_use : intended_use c0 = par_intended_use par;
  q_cnt : cnt_type c0 = par_cnt_type par;
  q_cap : par_mode par <> QED_CHAIN_MODE_SINGLE -> par_num_elems par <= capacity c0;
  q_elem_size : elem_size c0 = par_elem_size par;
  q_page_size : page_size c0 = par_page_size par;
  q_size : elem_per_page c0 * page_cnt c0 <= 2 ^ width c0;
  q_page_cnt : page_cnt c0 = par_pages par
}.

Definition par_ext_ok (m : dma_mem) (par : qed_chain_params) : Prop :=
  par_mode par = QED_CHAIN_MODE_PBL -> ext_pbl_ok m (par_pages par) (par_ext_pbl par).

Lemma init_requested c par dp :
  params_ok par ->
  qed_chain_alloc_sanity_check (par_cnt_type par) (par_elem_size par) (par_page_size par) (par_pages par) = 0 ->
  exists c0,
    qed_chain_init c (par_pages par) (u8 (par_elem_size par)) (par_page_size par)
      (par_intended_use par) (par_mode par) (par_cnt_type par) dp = Some c0 /\ requested par c c0.
Proof.
  intros OK Hs. destruct (init_shape c par dp OK Hs) as (c0 & Hi & S & W & H1 & H2 & H3 & H4 & H5 & H6 & H7).
  exists c0. split; [done|]. constructor; try done.
  unfold qed_chain_init in Hi. destruct (_ =? 0); [done|]. by injection Hi as <-.
Qed.

Lemma alloc_modes c0 par m :
  shape c0 -> mode c0 = par_mode par -> page_cnt c0 = par_pages par -> par_ext_ok m par ->
  exists rc c m',
    match par_mode par with
    | QED_CHAIN_MODE_NEXT_PTR => qed_chain_alloc_next_ptr c0 m
    | QED_CHAIN_MODE_SINGLE => Some (qed_chain_alloc_single c0 m)
    | QED_CHAIN_MODE_PBL => qed_chain_alloc_pbl c0 (par_ext_pbl par) m
    end = Some (rc, c, m') /\ releases (live m) (vz_live m) c m' /\
    (rc = - ENOMEM \/ rc = 0 /\ exists pages, built m' c0 c pages).
Proof.
  intros S Hm Hpc Hext. destruct (par_mode par) eqn:Em.
  - destruct (alloc_next_ptr_spec c0 m S Hm) as (rc & c & m' & ? & _ & ?); eauto.
  - destruct (alloc_single_spec c0 m S Hm) as (rc & c & m' & -> & _ & ?); eauto.
  - destruct (alloc_pbl_spec c0 (par_ext_pbl par) m S Hm) as (rc & c & m' & ? & _ & ?); eauto.
    rewrite Hpc. by apply Hext.
Qed.

Lemma alloc_spec dp c par m :
  params_ok par -> par_ext_ok m par ->
  exists rc c' m', qed_chain_alloc dp c par m = Some (rc, c', m') /\
    (rc = - EINVAL /\ m' = m \/
     rc = - ENOMEM /\ live m' = live m /\ vz_live m' = vz_live m \/
     rc = 0 /\ releases (live m) (vz_live m) c' m' /\
     exists c0 pages, requested par c c0 /\ built m' c0 c' pages).
Proof.
  intros OK Hext. pose proof OK as [(e & p & He & Hp5 & Hp & Ee & Ep) Hn].
  assert (Hus := usable_value e p (par_mode par) He Hp5 Hp). rewrite <- Ee, <- Ep in Hus.
  destruct Hus as (_ & Hus & _). unfold qed_chain_alloc.
  destruct (Z.eqb_spec (par_elem_size par) 0) as [E|_]; [rewrite Ee in E; lia|].
  replace (match par_mode par with QED_CHAIN_MODE_SINGLE => Some 1 | _ => _ end) with (Some (par_pages par))
    by (unfold par_pages; destruct (par_mode par);
        (done || (match goal with |- context [?x =? 0] => destruct (Z.eqb_spec x 0) end; [lia|done]))).
  cbn [mbind option_bind].
  destruct (Z.eqb_spec (qed_chain_alloc_sanity_check (par_cnt_type par) (par_elem_size par)
              (par_page_size par) (par_pages par)) 0) as [Hs|Hs]; cbn [negb].
  - destruct (init_requested c par dp OK Hs) as (c0 & -> & Q). cbn [mbind option_bind].
    destruct (alloc_modes c0 par m (q_shape _ _ _ Q) (q_mode _ _ _ Q) (q_page_cnt _ _ _ Q) Hext)
      as (rc & c' & m' & -> & R & Hrc). cbn [mbind option_bind].
    destruct Hrc as [->|[-> (pages & B)]].
    + destruct (R c' eq_refl) as (c2 & m2 & Hf & Hl & Hz). cbn [Z.eqb ENOMEM Z.opp negb].
      rewrite Hf. exists (- ENOMEM), c2, m2. split; [done|]. right. by left.
    + exists 0, c', m'. split; [done|]. right. right. eauto 6.
  - assert (qed_chain_alloc_sanity_check (par_cnt_type par) (par_elem_size par)
              (par_page_size par) (par_pages par) = - EINVAL) as ->.
    { unfold qed_chain_alloc_sanity_check in *. destruct (par_cnt_type par); by destruct (_ <? _). }
    exists (- EINVAL), c, m. split; [done|]. by left.
Qed.

(** The state a successful allocation leaves, by intended use. *)
Lemma built_state m par c c0 c' pages :
  requested par c c0 -> built m c0 c' pages -> chain_wf c ->
  if decide (par_intended_use par = QED_CHAIN_USE_TO_CONSUME)
  then rx_at m c' pages (capacity c') 0 else ring_at m c' pages 0 0.
Proof.
  intros Q [(c1 & -> & G & HL & Hu & Hp & Hi) _ _ _ _] W.
  assert (W1 : chain_wf c1) by (destruct (q_wf _ _ _ Q W); split; congruence).
  pose proof (q_use _ _ _ Q) as Hq. rewrite <- Hi in Hq. rewrite <- Hq. case_decide as E.
  - destruct (reset_rx m c1 pages G W1 E) as [R Hcfg].
    assert (Hc : capacity (qed_chain_reset c1) = capacity c1) by exact (f_equal capacity Hcfg).
    by rewrite Hc.
  - by apply reset_tx.
Qed.
