(* ===== verification/ChainProps.v ===== *)
(** * Properties of the ring buffer

    The contract of [struct qed_chain] as its users (slow-path queue, event
    queue, Rx and Tx rings) rely on it, each with a concrete chain on which it
    is instantiated. *)

From S2P Require Import Prelude Dma Chain ChainRing ChainAlloc.

(** ** Concrete chains *)

Definition blank_chain : qed_chain :=
  {| p_prod_elem := 0; p_cons_elem := 0; pp_virt_addr_tbl := None;
     pbl_c := mk_idx_union 0 0; u := mk_idx_union 0 0; capacity := 0; page_cnt := 0;
     mode := QED_CHAIN_MODE_SINGLE; elem_per_page := 0; elem_per_page_mask := 0; elem_size := 0;
     next_page_mask := 0; usable_per_page := 0; elem_unusable := 0;
     cnt_type := QED_CHAIN_CNT_TYPE_U16; page_size := 0; p_phys_table := 0; p_virt_table := 0;
     p_virt_addr := 0; p_phys_addr := 0; chain_size := 0;
     intended_use := QED_CHAIN_USE_TO_PRODUCE; b_external_pbl := false; dp_ctx := 0 |}.

(** An allocator that succeeds [n] times, on consecutive 64 KB slots. *)
Definition demo_mem (n : nat) : dma_mem :=
  {| oracle := (fun i => (0x10000 * (Z.of_nat i + 1), 0x7000000 + 0x10000 * Z.of_nat i)) <$> seq 0 n;
     live := ∅; cells := ∅; pbl_cells := ∅; vz_oracle := [true]; vz_live := 0 |}.

Definition demo_params (use : qed_chain_use_mode) (mo : qed_chain_mode) (n es : Z) : qed_chain_params :=
  qed_chain_params_init use mo QED_CHAIN_CNT_TYPE_U16 n es.

Definition demo_alloc (use : qed_chain_use_mode) (mo : qed_chain_mode) (n es : Z) (pages : nat)
    : qed_chain * dma_mem :=
  match qed_chain_alloc 0 blank_chain (demo_params use mo n es) (demo_mem pages) with
  | Some (_, c, m) => (c, m)
  | None => (blank_chain, demo_mem 0)
  end.

(** A Tx-like page-table ring of 3 pages of 64 elements, and a next-pointer
    ring of 2 pages of 255 usable elements. *)
Definition demo_pbl : qed_chain * dma_mem :=
  Eval vm_compute in demo_alloc QED_CHAIN_USE_TO_PRODUCE QED_CHAIN_MODE_PBL 180 64 4.
Definition demo_np : qed_chain * dma_mem :=
  Eval vm_compute in demo_alloc QED_CHAIN_USE_TO_CONSUME_PRODUCE QED_CHAIN_MODE_NEXT_PTR 300 16 2.

Ltac concrete := first [reflexivity | vm_compute; (reflexivity || discriminate || (split; (reflexivity || discriminate))) | lia].

Lemma demo_pbl_ring : ring_at demo_pbl.2 demo_pbl.1 [0x20000; 0x30000; 0x40000] 0 0.
Proof.
  constructor.
  - constructor; try concrete.
    exists 6. split; [lia|reflexivity].
  - split; split; by vm_compute.
  - split_and!; by vm_compute.
  - split_and!; by vm_compute.
Defined.

Lemma demo_np_ring : ring_at demo_np.2 demo_np.1 [0x10000; 0x20000] 0 0.
Proof.
  constructor.
  - constructor; lazymatch goal with |- context [read_next] => idtac | _ => try concrete end.
    + exists 8. split; [lia|reflexivity].
    + split; [reflexivity|]. intros i Hi.
      assert (i = 0 \/ i = 1) as [->| ->] by (change (page_cnt demo_np.1) with 2 in Hi; lia);
        eexists; split; by vm_compute.
  - split; split; by vm_compute.
  - split_and!; by vm_compute.
  - split_and!; by vm_compute.
Defined.

(** ** The ring contract *)

(** C2: every sequence of [qed_chain_produce] and [qed_chain_consume] calls
    runs without touching memory outside the chain and hands out, in order, the
    slots [0, 1, 2, ...] of the abstract ring on each side, whatever the page
    layout and however often the 16- or 32-bit indices wrap around; the chain
    keeps representing the ring. *)
Theorem chain_refines_ring m ops c pages n k :
  ring_at m c pages n k -> 0 <= n -> 0 <= k ->
  exists c',
    chain_run m ops c = Some ((ring_run (slot_addr c pages) ops n k).1, c') /\
    ring_at m c' pages (ring_run (slot_addr c pages) ops n k).2.1
                       (ring_run (slot_addr c pages) ops n k).2.2.
Proof.
  intros R Hn Hk. destruct (chain_run_refines m ops c pages n k R Hn Hk) as (c' & H1 & H2 & _). eauto.
Qed.

Lemma chain_refines_ring_witness :
  exists c', chain_run demo_np.2 [Produce; Produce; Consume] demo_np.1 = Some ([0x10000; 0x10010; 0x10000], c') /\
             ring_at demo_np.2 c' [0x10000; 0x20000] 2 1.
Proof.
  exact (chain_refines_ring demo_np.2 [Produce; Produce; Consume] demo_np.1 _ 0 0
           demo_np_ring (Z.le_refl 0) (Z.le_refl 0)).
Defined.

(** C17: the number of free elements the driver computes is exactly the
    capacity less the elements in flight, for a chain that has at most one
    unusable element per page and fewer elements, unusable ones included, than
    its indices can count (65535 at most with 16-bit indices), used end to end
    (produce and consume), only drained, or, outside the next-pointer layout,
    only filled (return_produced).  The count is wrong otherwise: with a
    next-pointer element that takes more than one element's place, at 65536
    elements with 16-bit indices, and on next-pointer chains after
    return_produced. *)
Theorem elem_left_exact m c pages n k :
  (ring_at m c pages n k \/ rx_at m c pages n k \/
   tx_at m c pages n k /\ mode c <> QED_CHAIN_MODE_NEXT_PTR) ->
  elem_unusable c <= 1 -> elem_per_page c * page_cnt c < 2 ^ width c ->
  0 <= k <= n -> n - k <= capacity c ->
  elem_left c = capacity c - (n - k).
Proof.
  intros R Hun Hsz Hk Hn.
  assert (H : chain_geom m c pages /\ idx_prod c (u c) = wrapw c (lazy_idx c n) /\
              idx_cons c (u c) = wrapw c (lazy_idx c k)).
  { destruct R as [[G _ P C]|[[G _ P C]|[[G _ P C] Hm]]]; split_and!; try done; try apply P; try apply C.
    assert (elem_unusable c = 0) by (pose proof (g_mode _ _ _ G) as X; destruct (mode c); naive_solver).
    rewrite C, eager_idx_dense, lazy_idx_dense; try done; apply G. }
  destruct H as (G & P & C). by apply (elem_left_lazy m c pages n k).
Qed.

Lemma elem_left_exact_witness : elem_left demo_np.1 = 510.
Proof.
  apply (elem_left_exact demo_np.2 demo_np.1 _ 0 0 (or_introl demo_np_ring)); by vm_compute.
Defined.

(** Two different elements that are in flight at the same time (less than a
    capacity apart) occupy disjoint bytes, inside their pages and clear of the
    next-pointer element. *)
Theorem live_slots_disjoint m c pages i j :
  chain_geom m c pages -> elem_size c * elem_per_page c <= page_size c ->
  pages_disjoint (page_size c) pages -> i < j -> j - i < capacity c ->
  (slot_addr c pages i + elem_size c <= slot_addr c pages j \/
   slot_addr c pages j + elem_size c <= slot_addr c pages i) /\
  exists pg, 0 <= pg < page_cnt c /\ page_at pages pg <= slot_addr c pages i /\
    slot_addr c pages i + elem_size c <= page_at pages pg + elem_size c * usable_per_page c.
Proof.
  intros G Hps PD Hij Hc. split; [by apply (slots_disjoint m)|].
  destruct (slot_in_page m c pages i G) as (H1 & H2 & H3). eauto.
Qed.

Lemma live_slots_disjoint_witness :
  slot_addr demo_np.1 [0x10000; 0x20000] 254 + 16 <= slot_addr demo_np.1 [0x10000; 0x20000] 255 \/
  slot_addr demo_np.1 [0x10000; 0x20000] 255 + 16 <= slot_addr demo_np.1 [0x10000; 0x20000] 254.
Proof.
  refine (proj1 (live_slots_disjoint demo_np.2 demo_np.1 [0x10000; 0x20000] 254 255
    (r_geom _ _ _ _ _ demo_np_ring) _ _ _ _)); [by vm_compute| |by vm_compute..].
  intros i j Hi Hj Hne. simpl in Hi, Hj.
  assert (i = 0 /\ j = 1 \/ i = 1 /\ j = 0) as [[-> ->]|[-> ->]] by lia; vm_compute; [left|right]; discriminate.
Defined.

(** For a queue the driver fills, [qed_chain_set_prod] with the index and
    element pointer saved at element [n0] undoes the elements produced since:
    the producer, including the page of the page table it stands on, is back at
    [n0].  This needs that the index did not wrap in between. *)
Theorem set_prod_rolls_back m c pages n k n0 :
  tx_at m c pages n k -> mode c = QED_CHAIN_MODE_PBL -> page_cnt c < 2 ^ 31 ->
  0 <= n0 <= n -> n - n0 <= capacity c -> n - n0 < 2 ^ width c ->
  1 <= wrapw c n0 <= wrapw c n ->
  tx_at m (qed_chain_set_prod (wrapw c n0) (slot_addr c pages (n0 - 1) + elem_size c) c) pages n0 k.
Proof. intros. by eapply set_prod_tx. Qed.

Definition produce_n (n : nat) (m : dma_mem) (c : qed_chain) : option qed_chain :=
  Nat.iter n (fun o => c ← o; '(_, c) ← qed_chain_produce m c; Some c) (Some c).

Lemma produce_n_tx m c pages k n :
  tx_at m c pages 0 k -> exists c', produce_n n m c = Some c' /\ tx_at m c' pages (Z.of_nat n) k /\ cfg c' = cfg c.
Proof.
  intros T. induction n as [|n (c' & E & T' & Hc)]; [by exists c|].
  destruct (produce_tx _ _ _ _ _ T') as (c2 & E2 & T2 & Hc2); [lia|].
  exists c2. change (produce_n (S n) m c) with (c ← produce_n n m c; '(_, c) ← qed_chain_produce m c; Some c).
  rewrite E. simpl. rewrite E2. split; [done|]. split; [|congruence].
  by replace (Z.of_nat (S n)) with (Z.of_nat n + 1) by lia.
Qed.

Lemma set_prod_rolls_back_witness :
  exists c, produce_n 130 demo_pbl.2 demo_pbl.1 = Some c /\
    tx_at demo_pbl.2 (qed_chain_set_prod 60 (0x20000 + 59 * 64 + 64) c) [0x20000; 0x30000; 0x40000] 60 0.
Proof.
  destruct (produce_n_tx demo_pbl.2 demo_pbl.1 _ 0 130 (ring_tx _ _ _ _ demo_pbl_ring)) as (c & E & T & Hc).
  exists c. split; [done|].
  assert (Hf : c = default demo_pbl.1 (produce_n 130 demo_pbl.2 demo_pbl.1)) by (rewrite E; done).
  vm_compute in Hf.
  assert (E1 : wrapw c 60 = 60) by (rewrite Hf; by vm_compute).
  assert (E2 : slot_addr c [0x20000; 0x30000; 0x40000] (60 - 1) + elem_size c = 0x20000 + 59 * 64 + 64)
    by (rewrite Hf; by vm_compute).
  rewrite <- E1 at 1. rewrite <- E2.
  assert (F1 : mode c = QED_CHAIN_MODE_PBL) by (rewrite Hf; reflexivity).
  assert (F2 : page_cnt c = 3) by (rewrite Hf; reflexivity).
  assert (F3 : capacity c = 192) by (rewrite Hf; reflexivity).
  assert (F4 : width c = 16) by (rewrite Hf; reflexivity).
  assert (F5 : wrapw c 130 = 130) by (rewrite Hf; reflexivity).
  clear Hf E. change (Z.of_nat 130) with 130 in T.
  apply (set_prod_rolls_back demo_pbl.2 c _ 130 0 60 T); rewrite ?F2, ?F3, ?F4, ?F5, ?E1; lia || exact F1.
Defined.

(** The address queries agree with the ring: [qed_chain_get_last_elem] is
    the last slot in every layout (the next-pointer walk ends there), and in
    the page-table and single-page layouts [qed_chain_get_elem_by_idx] is the
    slot of the element number it is given. *)
Theorem chain_address_queries m c pages idx :
  chain_geom m c pages -> NoDup pages -> p_virt_addr c <> 0 -> capacity c < 2 ^ 32 -> 0 <= idx ->
  qed_chain_get_last_elem m c = Some (slot_addr c pages (capacity c - 1)) /\
  (mode c <> QED_CHAIN_MODE_NEXT_PTR -> qed_chain_get_elem_by_idx m c idx = Some (slot_addr c pages idx)).
Proof.
  intros G ND Hv Hc Hi. split; [by apply get_last_elem_slot|].
  intros Hm. by apply get_elem_by_idx_slot.
Qed.

Lemma chain_address_queries_witness :
  qed_chain_get_last_elem demo_np.2 demo_np.1 = Some 0x20fe0.
Proof.
  refine (proj1 (chain_address_queries demo_np.2 demo_np.1 [0x10000; 0x20000] 0
    (r_geom _ _ _ _ _ demo_np_ring) _ _ _ _)); [|by vm_compute..].
  apply (bool_decide_unpack _). by vm_compute.
Defined.

(** ** Allocation and release *)

(** C20: [qed_chain_alloc] always returns, with 0, -ENOMEM or -EINVAL; when it
    fails, at whichever page or table, every page, page table and pointer table
    it had obtained is given back. *)
Theorem chain_alloc_total_no_leak dp c par m :
  params_ok par -> par_ext_ok m par ->
  exists rc c' m', qed_chain_alloc dp c par m = Some (rc, c', m') /\
    (rc = 0 \/ rc = - ENOMEM \/ rc = - EINVAL) /\
    (rc <> 0 -> live m' = live m /\ vz_live m' = vz_live m).
Proof.
  intros OK He. destruct (alloc_spec dp c par m OK He)
    as (rc & c' & m' & Ha & [[-> ->]|[(-> & Hl & Hz)|(-> & _ & _)]]); (eexists _, _, _; split; [exact Ha|]); split; auto; done.
Qed.

Lemma demo_params_ok use mo n : 0 < n < 2 ^ 28 -> params_ok (demo_params use mo n 64).
Proof.
  intros Hn. constructor; [|done]. exists 6, 12. split_and!; try lia; reflexivity.
Defined.

Lemma chain_alloc_total_no_leak_witness :
  exists rc c' m', qed_chain_alloc 0 blank_chain (demo_params QED_CHAIN_USE_TO_PRODUCE QED_CHAIN_MODE_PBL 180 64)
                     (demo_mem 2) = Some (rc, c', m') /\
    (rc = 0 \/ rc = - ENOMEM \/ rc = - EINVAL) /\ (rc <> 0 -> live m' = ∅ /\ vz_live m' = 0).
Proof.
  apply (chain_alloc_total_no_leak 0 blank_chain _ (demo_mem 2)); [apply demo_params_ok; lia|done].
Defined.

(** C18: a chain returned by a successful [qed_chain_alloc] is a ring over its
    own pairwise disjoint live pages, of at least the requested number of
    elements: empty, or for a queue to be drained with every element handed to
    the device. *)
Theorem chain_alloc_builds_ring dp c par m c' m' :
  params_ok par -> par_ext_ok m par -> chain_wf c ->
  qed_chain_alloc dp c par m = Some (0, c', m') ->
  exists pages,
    (if decide (par_intended_use par = QED_CHAIN_USE_TO_CONSUME)
     then rx_at m' c' pages (capacity c') 0 else ring_at m' c' pages 0 0) /\
    pages_disjoint (par_page_size par) pages /\ NoDup pages /\ 0 < p_virt_addr c' /\
    (forall i, 0 <= i < Z.of_nat (length pages) -> mapped m' (page_at pages i) (par_page_size par) = true) /\
    (par_mode par <> QED_CHAIN_MODE_SINGLE -> par_num_elems par <= capacity c').
Proof.
  intros OK He W Ha. destruct (alloc_spec dp c par m OK He) as (rc & c2 & m2 & Ha2 & Hcase).
  rewrite Ha in Ha2. injection Ha2 as <- <- <-.
  destruct Hcase as [[E _]|[[E _]|(_ & _ & c0 & pages & Q & B)]]; [done..|].
  exists pages. split; [by eapply built_state|].
  destruct B as [(c1 & -> & G & HL & _ & _ & _) ND PD Hpos Hl]. rewrite <- (q_page_size _ _ _ Q).
  split_and!; try done.
  - assert (Ev : p_virt_addr (qed_chain_reset c1) = p_virt_addr c1)
      by exact (f_equal p_virt_addr (reset_cfg c1)).
    by rewrite Ev, (g_first _ _ _ G).
  - intros Hm. assert (Ec : capacity (qed_chain_reset c1) = capacity c1)
      by exact (f_equal capacity (reset_cfg c1)).
    assert (El : capacity c1 = capacity c0) by exact (f_equal capacity HL).
    rewrite Ec, El. by apply Q.
Qed.

Lemma chain_alloc_builds_ring_witness :
  exists pages, ring_at demo_pbl.2 demo_pbl.1 pages 0 0 /\ 180 <= capacity demo_pbl.1.
Proof.
  destruct (chain_alloc_builds_ring 0 blank_chain (demo_params QED_CHAIN_USE_TO_PRODUCE QED_CHAIN_MODE_PBL 180 64)
              (demo_mem 4) demo_pbl.1 demo_pbl.2) as (pages & R & _ & _ & _ & _ & Hc).
  - apply demo_params_ok. lia.
  - done.
  - split; split; by vm_compute.
  - by vm_compute.
  - exists pages. split; [exact R|apply Hc; discriminate].
Defined.

(** [qed_chain_free] is the inverse of [qed_chain_alloc]: applied to the
    chain after any use of its indices and element pointers, it succeeds and
    leaves exactly the memory that was live before the allocation. *)
Theorem chain_alloc_free_roundtrip dp c par m c' m' c1 :
  params_ok par -> par_ext_ok m par ->
  qed_chain_alloc dp c par m = Some (0, c', m') -> cfg c1 = cfg c' ->
  exists c2 m2, qed_chain_free c1 m' = Some (c2, m2) /\ live m2 = live m /\ vz_live m2 = vz_live m.
Proof.
  intros OK He Ha Hc. destruct (alloc_spec dp c par m OK He) as (rc & c2 & m2 & Ha2 & Hcase).
  rewrite Ha in Ha2. injection Ha2 as <- <- <-.
  destruct Hcase as [[E _]|[[E _]|(_ & R & _)]]; [done..|]. by apply R.
Qed.

Lemma chain_alloc_free_roundtrip_witness :
  exists c2 m2, qed_chain_free demo_pbl.1 demo_pbl.2 = Some (c2, m2) /\ live m2 = ∅ /\ vz_live m2 = 0.
Proof.
  apply (chain_alloc_free_roundtrip 0 blank_chain
           (demo_params QED_CHAIN_USE_TO_PRODUCE QED_CHAIN_MODE_PBL 180 64) (demo_mem 4) demo_pbl.1);
    [apply demo_params_ok; lia|done|by vm_compute|done].
Defined.

(** ** Limits of the contract *)

(** A page-table ring of 3 pages of 256 elements with 11 elements in flight
    around the wrap of its 16-bit index. *)
Definition wrap_chain : qed_chain * dma_mem :=
  Eval vm_compute in
    let '(c, m) := demo_alloc QED_CHAIN_USE_TO_PRODUCE QED_CHAIN_MODE_PBL 768 16 4 in
    (c <| u := set_cons16 65530 (set_prod16 65541 (u c)) |>
       <| pbl_c := set_prod16 1 (pbl_c c) |> <| p_prod_elem := 0x30000 + 5 * 16 |>, m).

(** Rolling the producer back with [qed_chain_set_prod] across the wrap of
    a 16-bit index goes to the wrong page when the number of pages is not a
    power of two: from element 65541 back to 65530 on 3 pages of 256 elements
    the page index becomes 1 instead of 0, although fewer than a capacity of
    elements are undone. *)
Theorem set_prod_wrong_page_on_wrap :
  let '(c, m) := wrap_chain in
  let pages := [0x20000; 0x30000; 0x40000] in
  tx_at m c pages 65541 65530 /\ capacity c = 768 /\
  let c' := qed_chain_set_prod 65530 (slot_addr c pages 65529 + elem_size c) c in
  prod16 (pbl_c c') = 1 /\ (65529 / 256) mod 3 = 0 /\ ~ tx_at m c' pages 65530 65530.
Proof.
  simpl. split; [|split; [reflexivity|split; [by vm_compute|split; [reflexivity|]]]].
  - constructor.
    + constructor; try concrete. exists 8. split; [lia|reflexivity].
    + split; split; by vm_compute.
    + split_and!; by vm_compute.
    + by vm_compute.
  - intros [_ _ (_ & _ & _ & H) _]. specialize (H eq_refl). vm_compute in H. discriminate H.
Qed.

(** A 16-bit chain may be allocated with 65536 elements, and
    [qed_chain_get_elem_left] then reports that the empty chain has no free
    element, its result being truncated to 16 bits. *)
Theorem u16_full_size_chain_reports_empty :
  exists c m, qed_chain_alloc 0 blank_chain
      {| par_intended_use := QED_CHAIN_USE_TO_PRODUCE; par_mode := QED_CHAIN_MODE_PBL;
         par_cnt_type := QED_CHAIN_CNT_TYPE_U16; par_num_elems := 65536; par_elem_size := 16;
         par_page_size := 0x8000; par_ext_pbl := None |} (demo_mem 33) = Some (0, c, m) /\
    qed_chain_get_capacity c = 65536 /\ qed_chain_get_prod_idx c = qed_chain_get_cons_idx c /\
    qed_chain_get_elem_left c = 0.
Proof. eexists _, _. split; [vm_compute; reflexivity|]. split_and!; by vm_compute. Qed.

(** In the next-pointer layout [qed_chain_get_elem_by_idx] counts the
    next-pointer element as an ordinary one: element 255 of a ring with 255
    usable elements per page comes out as the next-pointer element of the first
    page, and not as the first slot of the second page. *)
Theorem next_ptr_elem_by_idx_off :
  let '(c, m) := demo_np in
  qed_chain_get_elem_by_idx m c 255 = Some (0x10000 + next_ptr_offset c) /\
  slot_addr c [0x10000; 0x20000] 255 = 0x20000.
Proof. by vm_compute. Qed.

Definition demo_np1 : qed_chain * dma_mem :=
  Eval vm_compute in demo_alloc QED_CHAIN_USE_TO_PRODUCE QED_CHAIN_MODE_NEXT_PTR 255 16 1.

(** [qed_chain_return_produced] skips the next-pointer element eagerly while
    [qed_chain_produce] skips it on the following request, so on a next-pointer
    ring whose elements were all produced and returned the free count exceeds
    the capacity (511 free elements of 255). *)
Theorem next_ptr_return_overcounts :
  exists c', produce_n 255 demo_np1.2 demo_np1.1 = Some c' /\ capacity demo_np1.1 = 255 /\
    qed_chain_get_elem_left (Nat.iter 255 qed_chain_return_produced c') = 511.
Proof.
  eexists. split; [vm_compute; reflexivity|]. split; by vm_compute.
Qed.
