(* ===== verification/Ooo.v ===== *)
(** * Out-of-order TCP segments (qed_ooo.c, and its caller in qed_ll2.c)

    The firmware places out-of-order segments in buffers and tells the driver,
    per connection, how they group into contiguous "isles".  The driver keeps
    the isles of a connection (its archipelago) on intrusive lists taken from a
    common pool, and moves buffers between the pool of free buffers, the isles
    and the list of buffers ready to be looped back in order.

    The intrusive lists are modelled as lists of isle numbers (indices in
    [p_isles_mem]) and of buffers; the buffers of an isle stay in the isle
    itself.  The specification at the end of the file forgets the isle numbers:
    a connection is a list of isles, an isle a list of buffers. *)

From S2P Require Import Prelude.

Record qed_ooo_buffer := mk_qed_ooo_buffer {
  rx_buffer_virt_addr : Z;
  rx_buffer_phys_addr : Z;
  rx_buffer_size : Z;
  packet_length : Z;
  parse_flags : Z;
  vlan : Z;
  placement_offset : Z
}.
#[export] Instance eta_qed_ooo_buffer : Settable qed_ooo_buffer := fun r =>
  mk_qed_ooo_buffer (rx_buffer_virt_addr r) (rx_buffer_phys_addr r) (rx_buffer_size r)
    (packet_length r) (parse_flags r) (vlan r) (placement_offset r).

(** [struct ooo_opaque]: what the firmware says about a segment. *)
Record ooo_opaque := mk_ooo_opaque {
  ooo_cid : Z;
  drop_isle : Z;
  drop_size : Z;
  ooo_opcode : Z;
  ooo_isle : Z
}.

(** [enum tcp_seg_placement_event]. *)
Definition TCP_EVENT_ADD_PEN : Z := 0.
Definition TCP_EVENT_ADD_NEW_ISLE : Z := 1.
Definition TCP_EVENT_ADD_ISLE_RIGHT : Z := 2.
Definition TCP_EVENT_ADD_ISLE_LEFT : Z := 3.
Definition TCP_EVENT_JOIN : Z := 4.
Definition TCP_EVENT_DELETE_ISLES : Z := 5.
Definition TCP_EVENT_NOP : Z := 6.

Definition QED_MAX_NUM_ISLES : Z := 256.
Definition QED_MAX_NUM_OOO_HISTORY_ENTRIES : Z := 512.

Inductive buffer_side := QED_OOO_LEFT_BUF | QED_OOO_RIGHT_BUF.

Record qed_ooo_history := mk_qed_ooo_history {
  p_cqes : list ooo_opaque;
  head_idx : Z;
  num_of_cqes : Z
}.
#[export] Instance eta_qed_ooo_history : Settable qed_ooo_history := fun r =>
  mk_qed_ooo_history (p_cqes r) (head_idx r) (num_of_cqes r).

Record qed_ooo_info := mk_qed_ooo_info {
  free_buffers_list : list qed_ooo_buffer;
  ready_buffers_list : list qed_ooo_buffer;
  free_isles_list : list nat;
  p_archipelagos_mem : list (list nat);       (* isles_list of each connection *)
  p_isles_mem : list (list qed_ooo_buffer);   (* buffers_list of each isle *)
  ooo_history : qed_ooo_history;
  cur_isles_number : Z;
  max_isles_number : Z;
  gen_isles_number : Z;
  max_num_archipelagos : Z;
  cid_base : Z
}.
#[export] Instance eta_qed_ooo_info : Settable qed_ooo_info := fun r =>
  mk_qed_ooo_info (free_buffers_list r) (ready_buffers_list r) (free_isles_list r)
    (p_archipelagos_mem r) (p_isles_mem r) (ooo_history r) (cur_isles_number r)
    (max_isles_number r) (gen_isles_number r) (max_num_archipelagos r) (cid_base r).

(** Accesses through the pointers the lists hold. *)
Definition buffers_list (i : qed_ooo_info) (isle : nat) : list qed_ooo_buffer :=
  default [] (p_isles_mem i !! isle).
Definition set_buffers (isle : nat) (bs : list qed_ooo_buffer) (i : qed_ooo_info) : qed_ooo_info :=
  i <| p_isles_mem := <[isle := bs]> (p_isles_mem i) |>.
Definition isles_list (i : qed_ooo_info) (a : nat) : list nat := default [] (p_archipelagos_mem i !! a).
Definition set_isles (a : nat) (l : list nat) (i : qed_ooo_info) : qed_ooo_info :=
  i <| p_archipelagos_mem := <[a := l]> (p_archipelagos_mem i) |>.

Definition archipelago_idx (i : qed_ooo_info) (cid : Z) : Z :=
  u32 (Z.land cid 0xffff - cid_base i).

Definition qed_ooo_seek_archipelago (i : qed_ooo_info) (cid : Z) : option nat :=
  let idx := archipelago_idx i cid in
  if max_num_archipelagos i <=? idx then None else
  match isles_list i (Z.to_nat idx) with
  | [] => None
  | _ => Some (Z.to_nat idx)
  end.

(** The isle count of the walk is a [u8]. *)
Fixpoint seek_isle_loop (isles : list nat) (the_num_of_isle isle : Z) : option nat :=
  match isles with
  | [] => None
  | p_isle :: rest =>
      if the_num_of_isle =? isle then Some p_isle
      else seek_isle_loop rest (u8 (the_num_of_isle + 1)) isle
  end.

Definition qed_ooo_seek_isle (i : qed_ooo_info) (cid isle : Z) : option nat :=
  a ← qed_ooo_seek_archipelago i cid;
  seek_isle_loop (isles_list i a) 1 isle.

Definition qed_ooo_save_history_entry (p_cqe : ooo_opaque) (i : qed_ooo_info) : option qed_ooo_info :=
  let h := ooo_history i in
  let h := if head_idx h =? num_of_cqes h then h <| head_idx := 0 |> else h in
  if head_idx h <? Z.of_nat (length (p_cqes h)) then
    Some (i <| ooo_history := h <| p_cqes := <[Z.to_nat (head_idx h) := p_cqe]> (p_cqes h) |>
                                <| head_idx := u32 (head_idx h + 1) |> |>)
  else None.

(** [list_del] of an isle from the list it is on. *)
Definition list_del (x : nat) (l : list nat) : list nat := filter (fun y => y <> x) l.

(** Emptying the isles of a connection, first to last, into the free lists. *)
Fixpoint release_isles (isles : list nat) (i : qed_ooo_info) : qed_ooo_info :=
  match isles with
  | [] => i
  | p_isle :: rest =>
      let i := i <| free_buffers_list := free_buffers_list i ++ buffers_list i p_isle |> in
      let i := set_buffers p_isle [] i in
      release_isles rest (i <| free_isles_list := free_isles_list i ++ [p_isle] |>)
  end.

Definition release_archipelago (a : nat) (i : qed_ooo_info) : qed_ooo_info :=
  release_isles (isles_list i a) (set_isles a [] i).

Definition qed_ooo_release_connection_isles (cid : Z) (i : qed_ooo_info) : qed_ooo_info :=
  match qed_ooo_seek_archipelago i cid with
  | None => i
  | Some a => release_archipelago a i
  end.

Definition qed_ooo_release_all_isles (i : qed_ooo_info) : qed_ooo_info :=
  let i := fold_left (fun i a => release_archipelago a i)
             (seq 0 (Z.to_nat (max_num_archipelagos i))) i in
  i <| free_buffers_list := free_buffers_list i ++ ready_buffers_list i |>
    <| ready_buffers_list := [] |>.

Definition zero_opaque : ooo_opaque := mk_ooo_opaque 0 0 0 0 0.

Definition qed_ooo_setup (i : qed_ooo_info) : qed_ooo_info :=
  let i := qed_ooo_release_all_isles i in
  let h := ooo_history i in
  i <| ooo_history := h <| p_cqes := replicate (Z.to_nat (num_of_cqes h)) zero_opaque |>
                        <| head_idx := 0 |> |>.

(** [qed_ooo_free]: the buffers handed to [dma_free_coherent] and [kfree], in
    order; the [qed_ooo_info] itself is gone. *)
Definition qed_ooo_free (i : option qed_ooo_info) : list qed_ooo_buffer * option qed_ooo_info :=
  match i with
  | None => ([], None)
  | Some i => (free_buffers_list (qed_ooo_release_all_isles i), None)
  end.

Definition qed_ooo_put_free_buffer (b : qed_ooo_buffer) (i : qed_ooo_info) : qed_ooo_info :=
  i <| free_buffers_list := free_buffers_list i ++ [b] |>.

Definition qed_ooo_get_free_buffer (i : qed_ooo_info) : option qed_ooo_buffer * qed_ooo_info :=
  match free_buffers_list i with
  | [] => (None, i)
  | b :: rest => (Some b, i <| free_buffers_list := rest |>)
  end.

Definition qed_ooo_put_ready_buffer (b : qed_ooo_buffer) (on_tail : bool) (i : qed_ooo_info) : qed_ooo_info :=
  if on_tail then i <| ready_buffers_list := ready_buffers_list i ++ [b] |>
  else i <| ready_buffers_list := b :: ready_buffers_list i |>.

Definition qed_ooo_get_ready_buffer (i : qed_ooo_info) : option qed_ooo_buffer * qed_ooo_info :=
  match ready_buffers_list i with
  | [] => (None, i)
  | b :: rest => (Some b, i <| ready_buffers_list := rest |>)
  end.

(** One round of [qed_ooo_delete_isles] for the isle [drop_isle] found; the
    archipelago looked up before the loop is the list the isle is on. *)
Definition delete_isle (a : nat) (p_isle : nat) (i : qed_ooo_info) : qed_ooo_info :=
  let i := i <| free_buffers_list := free_buffers_list i ++ buffers_list i p_isle |> in
  let i := set_buffers p_isle [] i in
  let i := set_isles a (list_del p_isle (isles_list i a)) i in
  let i := i <| cur_isles_number := u32 (cur_isles_number i - 1) |> in
  i <| free_isles_list := p_isle :: free_isles_list i |>.

Fixpoint delete_isles_loop (n : nat) (cid drop_isle : Z) (i : qed_ooo_info) : qed_ooo_info :=
  match n with
  | O => i
  | S n' =>
      match qed_ooo_seek_isle i cid drop_isle with
      | None => i
      | Some p_isle =>
          delete_isles_loop n' cid drop_isle
            (delete_isle (Z.to_nat (archipelago_idx i cid)) p_isle i)
      end
  end.

Definition qed_ooo_delete_isles (cid drop_isle drop_size : Z) (i : qed_ooo_info) : qed_ooo_info :=
  delete_isles_loop (Z.to_nat drop_size) cid drop_isle i.

(** [list_add(x, pos)]: right after [pos] on its list. *)
Fixpoint list_add_after (x pos : nat) (l : list nat) : list nat :=
  match l with
  | [] => []
  | y :: rest => if decide (y = pos) then y :: x :: rest else y :: list_add_after x pos rest
  end.

(** The part of [qed_ooo_add_new_isle] after the lookups.  Indexing
    [p_archipelagos_mem] out of its bounds is a fault. *)
Definition add_isle_at (cid : Z) (prev : option nat) (p_buffer : qed_ooo_buffer) (i : qed_ooo_info)
    : option qed_ooo_info :=
  match free_isles_list i with
  | [] => Some i
  | p_isle :: rest =>
      let i := i <| free_isles_list := rest |> in
      let idx := archipelago_idx i cid in
      if Z.of_nat (length (p_archipelagos_mem i)) <=? idx then None else
      let a := Z.to_nat idx in
      let i := set_buffers p_isle [p_buffer] i in
      let i := i <| cur_isles_number := u32 (cur_isles_number i + 1) |> in
      let i := i <| gen_isles_number := u32 (gen_isles_number i + 1) |> in
      let i := if max_isles_number i <? cur_isles_number i
               then i <| max_isles_number := cur_isles_number i |> else i in
      Some (match prev with
            | None => set_isles a (p_isle :: isles_list i a) i
            | Some p_prev_isle => set_isles a (list_add_after p_isle p_prev_isle (isles_list i a)) i
            end)
  end.

Definition qed_ooo_add_new_isle (cid ooo_isle : Z) (p_buffer : qed_ooo_buffer) (i : qed_ooo_info)
    : option qed_ooo_info :=
  if 1 <? ooo_isle then
    match qed_ooo_seek_isle i cid (u8 (ooo_isle - 1)) with
    | None => Some i
    | Some p_prev_isle =>
        match qed_ooo_seek_archipelago i cid with
        | None => Some i
        | Some _ => add_isle_at cid (Some p_prev_isle) p_buffer i
        end
    end
  else
    match qed_ooo_seek_archipelago i cid with
    | None => if negb (ooo_isle =? 1) then Some i else add_isle_at cid None p_buffer i
    | Some _ => add_isle_at cid None p_buffer i
    end.

Definition qed_ooo_add_new_buffer (cid ooo_isle : Z) (p_buffer : qed_ooo_buffer) (side : buffer_side)
    (i : qed_ooo_info) : qed_ooo_info :=
  match qed_ooo_seek_isle i cid ooo_isle with
  | None => i
  | Some p_isle =>
      match side with
      | QED_OOO_LEFT_BUF => set_buffers p_isle (p_buffer :: buffers_list i p_isle) i
      | QED_OOO_RIGHT_BUF => set_buffers p_isle (buffers_list i p_isle ++ [p_buffer]) i
      end
  end.

Definition qed_ooo_join_isles (cid left_isle : Z) (i : qed_ooo_info) : qed_ooo_info :=
  match qed_ooo_seek_isle i cid (u8 (left_isle + 1)) with
  | None => i
  | Some p_right_isle =>
      let a := Z.to_nat (archipelago_idx i cid) in
      let i := set_isles a (list_del p_right_isle (isles_list i a)) i in
      let i := i <| cur_isles_number := u32 (cur_isles_number i - 1) |> in
      if negb (left_isle =? 0) then
        match qed_ooo_seek_isle i cid left_isle with
        | None => i
        | Some p_left_isle =>
            let i := set_buffers p_left_isle (buffers_list i p_left_isle ++ buffers_list i p_right_isle) i in
            let i := set_buffers p_right_isle [] i in
            i <| free_isles_list := free_isles_list i ++ [p_right_isle] |>
        end
      else
        let i := i <| ready_buffers_list := ready_buffers_list i ++ buffers_list i p_right_isle |> in
        let i := set_buffers p_right_isle [] i in
        i <| free_isles_list := free_isles_list i ++ [p_right_isle] |>
  end.

(** ** Allocation *)

Inductive qed_pci_personality := QED_PCI_ISCSI | QED_PCI_ETH_RDMA | QED_PCI_ETH_IWARP | QED_PCI_OTHER.

(** What allocation reads of the device: the iSCSI connection count of the PF
    parameters and the connection ranges of the context manager. *)
Record ooo_hwfn := mk_ooo_hwfn {
  personality : qed_pci_personality;
  iscsi_num_cons : Z;
  iscsi_cid_start : Z;
  iwarp_cid_count : Z;
  iwarp_cid_start : Z
}.

(** Which of the four [kzalloc] calls succeed. *)
Record ooo_kzalloc := mk_ooo_kzalloc { kz_info : bool; kz_isles : bool; kz_archs : bool; kz_hist : bool }.

Definition ooo_limits (h : ooo_hwfn) : option (Z * Z) :=
  match personality h with
  | QED_PCI_ISCSI => Some (u16 (iscsi_num_cons h), u16 (iscsi_cid_start h))
  | QED_PCI_ETH_RDMA | QED_PCI_ETH_IWARP => Some (u16 (iwarp_cid_count h), u16 (iwarp_cid_start h))
  | QED_PCI_OTHER => None
  end.

Definition qed_ooo_alloc (h : ooo_hwfn) (kz : ooo_kzalloc) : Z * option qed_ooo_info :=
  match ooo_limits h with
  | None => (- EINVAL, None)
  | Some (max_num_archipelagos, cid_base) =>
      let max_num_isles := u16 (QED_MAX_NUM_ISLES + max_num_archipelagos) in
      if max_num_archipelagos =? 0 then (- EINVAL, None) else
      if negb (kz_info kz) then (- ENOMEM, None) else
      if negb (kz_isles kz) then (- ENOMEM, None) else
      if negb (kz_archs kz) then (- ENOMEM, None) else
      if negb (kz_hist kz) then (- ENOMEM, None) else
      (0, Some {|
        free_buffers_list := [];
        ready_buffers_list := [];
        free_isles_list := seq 0 (Z.to_nat max_num_isles);
        p_archipelagos_mem := replicate (Z.to_nat max_num_archipelagos) [];
        p_isles_mem := replicate (Z.to_nat max_num_isles) [];
        ooo_history := mk_qed_ooo_history
          (replicate (Z.to_nat QED_MAX_NUM_OOO_HISTORY_ENTRIES) zero_opaque) 0
          QED_MAX_NUM_OOO_HISTORY_ENTRIES;
        cur_isles_number := 0;
        max_isles_number := 0;
        gen_isles_number := 0;
        max_num_archipelagos := max_num_archipelagos;
        cid_base := cid_base |})
  end.

(** ** The loopback receive handler (qed_ll2.c) *)

Definition EIO : Z := 5.

(** A completion of the loopback queue. *)
Inductive core_rx_cqe :=
  | CORE_RX_CQE_TYPE_SLOW_PATH (is_rx_queue_flush : bool) (opaque : ooo_opaque)
  | CORE_RX_CQE_TYPE_REGULAR (placement_offset parse_flags packet_length vlan : Z) (opaque : ooo_opaque)
  | CORE_RX_CQE_TYPE_OTHER.

(** The part of the connection the handler works on: the buffers of the posted
    descriptors ([active_descq], cookies) and the number of free ones. *)
Record ll2_rx := mk_ll2_rx {
  active_descq : list qed_ooo_buffer;
  free_descq : Z;
  ooo_info : qed_ooo_info
}.
#[export] Instance eta_ll2_rx : Settable ll2_rx := fun r =>
  mk_ll2_rx (active_descq r) (free_descq r) (ooo_info r).

Definition qed_ll2_lb_rxq_handler_slowpath (is_flush : bool) (op : ooo_opaque) (i : qed_ooo_info)
    : option qed_ooo_info :=
  if negb is_flush then None else
  if negb (ooo_opcode op =? TCP_EVENT_DELETE_ISLES) then None else
  Some (qed_ooo_release_connection_isles (ooo_cid op) i).

Definition is_place_event (op : Z) : bool :=
  (op =? TCP_EVENT_ADD_NEW_ISLE) || (op =? TCP_EVENT_ADD_ISLE_RIGHT) ||
  (op =? TCP_EVENT_ADD_ISLE_LEFT) || (op =? TCP_EVENT_ADD_PEN) || (op =? TCP_EVENT_JOIN).

(** Where the buffer of a segment goes. *)
Definition place_buffer (op : ooo_opaque) (b : qed_ooo_buffer) (i : qed_ooo_info) : option qed_ooo_info :=
  let cid := ooo_cid op in
  if ooo_opcode op =? TCP_EVENT_ADD_NEW_ISLE then qed_ooo_add_new_isle cid (ooo_isle op) b i
  else if ooo_opcode op =? TCP_EVENT_ADD_ISLE_RIGHT then
    Some (qed_ooo_add_new_buffer cid (ooo_isle op) b QED_OOO_RIGHT_BUF i)
  else if ooo_opcode op =? TCP_EVENT_ADD_ISLE_LEFT then
    Some (qed_ooo_add_new_buffer cid (ooo_isle op) b QED_OOO_LEFT_BUF i)
  else if ooo_opcode op =? TCP_EVENT_JOIN then
    Some (qed_ooo_join_isles cid (ooo_isle op)
            (qed_ooo_add_new_buffer cid (u8 (ooo_isle op + 1)) b QED_OOO_LEFT_BUF i))
  else Some (qed_ooo_put_ready_buffer b true i).

(** The loop over the new completions: [Some (rc, state)], or a fault. *)
Fixpoint qed_ll2_lb_rxq_handler (cqes : list core_rx_cqe) (s : ll2_rx) : option (Z * ll2_rx) :=
  match cqes with
  | [] => Some (0, s)
  | CORE_RX_CQE_TYPE_OTHER :: _ => Some (- EINVAL, s)
  | CORE_RX_CQE_TYPE_SLOW_PATH is_flush op :: rest =>
      match qed_ll2_lb_rxq_handler_slowpath is_flush op (ooo_info s) with
      | Some i => qed_ll2_lb_rxq_handler rest (s <| ooo_info := i |>)
      | None => Some (- EINVAL, s)
      end
  | CORE_RX_CQE_TYPE_REGULAR poff pflags plen vl op :: rest =>
      i ← qed_ooo_save_history_entry op (ooo_info s);
      let i := if drop_size op =? 0 then i
               else qed_ooo_delete_isles (ooo_cid op) (drop_isle op) (drop_size op) i in
      let s := s <| ooo_info := i |> in
      if ooo_opcode op =? TCP_EVENT_NOP then qed_ll2_lb_rxq_handler rest s else
      match active_descq s with
      | [] => Some (- EIO, s)
      | b :: descq =>
          if is_place_event (ooo_opcode op) then
            let b := b <| packet_length := plen |> <| parse_flags := pflags |>
                       <| vlan := vl |> <| placement_offset := poff |> in
            i ← place_buffer op b (ooo_info s);
            qed_ll2_lb_rxq_handler rest
              (s <| active_descq := descq |> <| free_descq := free_descq s + 1 |> <| ooo_info := i |>)
          else qed_ll2_lb_rxq_handler rest s
      end
  end.

(** ** Specification *)

(** The state without isle numbers: isles of each connection, ready buffers,
    free buffers and the number of isles left in the pool. *)
Record sea := mk_sea {
  conns : list (list (list qed_ooo_buffer));
  ready : list qed_ooo_buffer;
  free : list qed_ooo_buffer;
  pool : nat
}.
#[export] Instance eta_sea : Settable sea := fun r => mk_sea (conns r) (ready r) (free r) (pool r).

Definition sea_isles (s : sea) (a : nat) : list (list qed_ooo_buffer) := default [] (conns s !! a).

(** Position of the isle a [u8] number designates. *)
Definition isle_pos (isle : Z) : nat := Z.to_nat (u8 (isle - 1)).

Definition sea_drop (a p : nat) (s : sea) : sea :=
  match sea_isles s a !! p with
  | None => s
  | Some bs => s <| conns := <[a := delete p (sea_isles s a)]> (conns s) |>
                 <| free := free s ++ bs |> <| pool := S (pool s) |>
  end.

Definition sea_insert (a p : nat) (b : qed_ooo_buffer) (s : sea) : sea :=
  match pool s with
  | O => s
  | S n => s <| conns := <[a := take p (sea_isles s a) ++ [b] :: drop p (sea_isles s a)]> (conns s) |>
             <| pool := n |>
  end.

Definition sea_new_isle (a : nat) (isle : Z) (b : qed_ooo_buffer) (s : sea) : sea :=
  if 1 <? isle then
    match sea_isles s a !! isle_pos (u8 (isle - 1)) with
    | None => s
    | Some _ => sea_insert a (S (isle_pos (u8 (isle - 1)))) b s
    end
  else if (isle =? 1) || negb (bool_decide (sea_isles s a = [])) then sea_insert a 0 b s else s.

Definition sea_add_buffer (a : nat) (isle : Z) (b : qed_ooo_buffer) (side : buffer_side) (s : sea) : sea :=
  match sea_isles s a !! isle_pos isle with
  | None => s
  | Some bs =>
      let bs' := match side with QED_OOO_LEFT_BUF => b :: bs | QED_OOO_RIGHT_BUF => bs ++ [b] end in
      s <| conns := <[a := <[isle_pos isle := bs']> (sea_isles s a)]> (conns s) |>
  end.

(** Joining isle [left] with the one on its right, or with the in-order
    stream when [left] is 0. *)
Definition sea_join (a : nat) (left : nat) (s : sea) : sea :=
  match sea_isles s a !! left with
  | None => s
  | Some rb =>
      let rest := delete left (sea_isles s a) in
      match left with
      | O => s <| conns := <[a := rest]> (conns s) |> <| ready := ready s ++ rb |> <| pool := S (pool s) |>
      | S l => s <| conns := <[a := alter (fun lb => lb ++ rb) l rest]> (conns s) |>
                 <| pool := S (pool s) |>
      end
  end.

Definition sea_release (a : nat) (s : sea) : sea :=
  s <| conns := <[a := []]> (conns s) |> <| free := free s ++ concat (sea_isles s a) |>
    <| pool := (pool s + length (sea_isles s a))%nat |>.

(** The abstraction function. *)
Definition ooo_abs (i : qed_ooo_info) : sea :=
  {| conns := (fun l : list nat => buffers_list i <$> l) <$> p_archipelagos_mem i;
     ready := ready_buffers_list i;
     free := free_buffers_list i;
     pool := length (free_isles_list i) |}.

(** Every isle is on exactly one list, and the isles of the pool are empty. *)
Record ooo_wf (i : qed_ooo_info) : Prop := {
  w_all : length (free_isles_list i ++ concat (p_archipelagos_mem i)) = length (p_isles_mem i);
  w_nodup : NoDup (free_isles_list i ++ concat (p_archipelagos_mem i));
  w_bound : forall x, x ∈ free_isles_list i ++ concat (p_archipelagos_mem i) -> (x < length (p_isles_mem i))%nat;
  w_empty : forall x, x ∈ free_isles_list i -> buffers_list i x = [];
  w_len : Z.of_nat (length (p_archipelagos_mem i)) = max_num_archipelagos i;
  w_max : max_num_archipelagos i < 2 ^ 16
}.

(** ** List facts *)

Lemma concat_insert_perm {A} (ls : list (list A)) a l l' :
  ls !! a = Some l ->
  concat ls ≡ₚ l ++ concat (delete a ls) /\ concat (<[a := l']> ls) ≡ₚ l' ++ concat (delete a ls).
Proof.
  intros H. assert (Ha : (a < length ls)%nat) by (by eapply lookup_lt_Some).
  rewrite <- (take_drop_middle ls a l H) at 1.
  rewrite insert_take_drop, delete_take_drop by done. rewrite !concat_app. simpl.
  split; apply Permutation_app_swap_app.
Qed.

Lemma list_del_notin (l : list nat) x : x ∉ l -> list_del x l = l.
Proof.
  unfold list_del. induction l as [|y l IH]; [done|]. intros [Hy Hl]%not_elem_of_cons.
  rewrite filter_cons_True by congruence. by rewrite IH.
Qed.

Lemma list_del_delete (l : list nat) p x : NoDup l -> l !! p = Some x -> list_del x l = delete p l.
Proof.
  unfold list_del. revert p. induction l as [|y l IH]; intros [|p] ND Hp; try done; simpl in *.
  - injection Hp as ->. apply list.NoDup_cons in ND as [Hy ND]. rewrite filter_cons_False by (intros H; by apply H).
    by apply list_del_notin.
  - apply list.NoDup_cons in ND as [Hy ND].
    rewrite filter_cons_True by (intros ->; apply Hy; by eapply list_elem_of_lookup_2). by rewrite IH with (p := p).
Qed.

Lemma list_add_after_pos (l : list nat) p x y :
  NoDup l -> l !! p = Some y -> list_add_after x y l = take (S p) l ++ x :: drop (S p) l.
Proof.
  revert p. induction l as [|z l IH]; intros [|p] ND Hp; try done; simpl in *.
  - injection Hp as ->. rewrite decide_True by done. done.
  - apply list.NoDup_cons in ND as [Hz ND].
    rewrite decide_False by (intros ->; apply Hz; by eapply list_elem_of_lookup_2). by rewrite (IH p).
Qed.

Lemma fmap_same {B} (f f' : nat -> B) (l : list nat) : (forall x, x ∈ l -> f' x = f x) -> f' <$> l = f <$> l.
Proof. intros H. apply list_fmap_ext. intros i x Hi. apply H. by eapply list_elem_of_lookup_2. Qed.

Lemma fmap_modify {B} (f f' : nat -> B) (l : list nat) p x :
  NoDup l -> l !! p = Some x -> (forall y, y <> x -> f' y = f y) -> f' <$> l = <[p := f' x]> (f <$> l).
Proof.
  intros ND Hp Hf. apply list_eq. intros j. destruct (decide (j = p)) as [->|Hne].
  - rewrite list_lookup_fmap, Hp, list_lookup_insert_eq; [done|]. rewrite length_fmap. by eapply lookup_lt_Some.
  - rewrite list_lookup_insert_ne, !list_lookup_fmap by done. destruct (l !! j) as [y|] eqn:Hj; [|done]. simpl.
    rewrite Hf; [done|]. intros ->. apply Hne. by eapply NoDup_lookup.
Qed.

Lemma NoDup_delete {A} (l : list A) p x : NoDup l -> l !! p = Some x -> NoDup (delete p l) /\ x ∉ delete p l.
Proof.
  intros ND Hp. rewrite (delete_Permutation _ _ _ Hp) in ND. by apply list.NoDup_cons in ND as [? ?].
Qed.

(** ** Lookups *)

Lemma seek_isle_loop_pos isles isle : forall num,
  0 <= isle < 2 ^ 8 -> 0 <= num < 2 ^ 8 ->
  seek_isle_loop isles num isle = isles !! Z.to_nat (u8 (isle - num)).
Proof.
  induction isles as [|x isles IH]; intros num Hi Hn; simpl; [by rewrite lookup_nil|].
  destruct (Z.eqb_spec num isle) as [->|Hne]; [by rewrite Z.sub_diag|].
  rewrite IH by auto with qed.
  assert (E : u8 (isle - num) = u8 (isle - u8 (num + 1)) + 1); [|by rewrite E, Z2Nat.inj_add, Nat.add_comm by (pose proof (u8_bound (isle - u8 (num + 1))); lia)].
  unfold u8. rewrite Zminus_mod_idemp_r.
  destruct (Z_lt_le_dec isle num).
  - rewrite (mod_unique_pos (isle - num) (2 ^ 8) (-1) (isle - num + 256)) by lia.
    rewrite (mod_unique_pos (isle - (num + 1)) (2 ^ 8) (-1) (isle - num + 255)) by lia. lia.
  - rewrite !Z.mod_small by lia. lia.
Qed.

Definition conn_idx (i : qed_ooo_info) (cid : Z) : nat := Z.to_nat (archipelago_idx i cid).

Lemma isles_list_some i a : (a < length (p_archipelagos_mem i))%nat ->
  p_archipelagos_mem i !! a = Some (isles_list i a).
Proof. intros Ha. unfold isles_list. by destruct (lookup_lt_is_Some_2 _ _ Ha) as [l ->]. Qed.

(** The archipelago lookup only hides empty and out-of-range connections. *)
Lemma seek_archipelago_len i cid :
  Z.of_nat (length (p_archipelagos_mem i)) = max_num_archipelagos i ->
  qed_ooo_seek_archipelago i cid =
  match isles_list i (conn_idx i cid) with [] => None | _ => Some (conn_idx i cid) end.
Proof.
  intros W. unfold qed_ooo_seek_archipelago, conn_idx. destruct (Z.leb_spec (max_num_archipelagos i) (archipelago_idx i cid)); [|done].
  unfold isles_list. rewrite lookup_ge_None_2; [done|]. lia.
Qed.

Lemma seek_isle_len i cid isle :
  Z.of_nat (length (p_archipelagos_mem i)) = max_num_archipelagos i -> 0 <= isle < 2 ^ 8 ->
  qed_ooo_seek_isle i cid isle = isles_list i (conn_idx i cid) !! isle_pos isle.
Proof.
  intros W Hi. unfold qed_ooo_seek_isle. rewrite (seek_archipelago_len i cid W).
  destruct (isles_list i (conn_idx i cid)) as [|x l] eqn:E; [by rewrite lookup_nil|]. simpl.
  unfold isles_list, conn_idx in E |- *. rewrite E. by apply (seek_isle_loop_pos (x :: l) isle 1).
Qed.

Lemma seek_archipelago_spec i cid :
  ooo_wf i ->
  qed_ooo_seek_archipelago i cid =
  match isles_list i (conn_idx i cid) with [] => None | _ => Some (conn_idx i cid) end.
Proof. intros W. apply seek_archipelago_len, W. Qed.
Lemma seek_isle_spec i cid isle :
  ooo_wf i -> 0 <= isle < 2 ^ 8 ->
  qed_ooo_seek_isle i cid isle = isles_list i (conn_idx i cid) !! isle_pos isle.
Proof. intros W. apply seek_isle_len, W. Qed.

(** The isles of a connection in the specification. *)
Lemma sea_isles_abs i a : sea_isles (ooo_abs i) a = buffers_list i <$> isles_list i a.
Proof. unfold sea_isles, isles_list. simpl. rewrite list_lookup_fmap. by destruct (p_archipelagos_mem i !! a). Qed.

(** ** One connection at a time *)

(** The isles of connection [a], and those of all the others. *)
Definition others (i : qed_ooo_info) (a : nat) : list nat := concat (delete a (p_archipelagos_mem i)).

Lemma wf_split i a :
  ooo_wf i -> (a < length (p_archipelagos_mem i))%nat ->
  NoDup (free_isles_list i ++ isles_list i a ++ others i a) /\
  free_isles_list i ++ concat (p_archipelagos_mem i) ≡ₚ free_isles_list i ++ isles_list i a ++ others i a.
Proof.
  intros W Ha. destruct (concat_insert_perm _ a _ [] (isles_list_some i a Ha)) as [Hp _].
  split; [|by rewrite Hp]. rewrite <- Hp. apply W.
Qed.

Lemma others_spec i a b l x :
  p_archipelagos_mem i !! b = Some l -> b <> a -> x ∈ l -> x ∈ others i a.
Proof.
  intros Hb Hne Hx. apply list_elem_of_In, in_concat. exists l. split; [|by apply list_elem_of_In].
  apply list_elem_of_In. destruct (decide (b < a)%nat).
  - apply (list_elem_of_lookup_2 _ b). by rewrite list_lookup_delete_lt.
  - apply (list_elem_of_lookup_2 _ (pred b)). rewrite list_lookup_delete_ge by lia.
    by replace (S (pred b)) with b by lia.
Qed.

(** An update of the isles of connection [a] that keeps the buffers of the
    other connections' isles. *)
Record conn_update (a : nat) (fl l : list nat) (i i' : qed_ooo_info) : Prop := {
  cu_archs : p_archipelagos_mem i' = <[a := l]> (p_archipelagos_mem i);
  cu_free : free_isles_list i' = fl;
  cu_perm : fl ++ l ≡ₚ free_isles_list i ++ isles_list i a;
  cu_len : length (p_isles_mem i') = length (p_isles_mem i);
  cu_others : forall x, x ∉ free_isles_list i ++ isles_list i a -> buffers_list i' x = buffers_list i x;
  cu_empty : forall x, x ∈ fl -> buffers_list i' x = [];
  cu_max : max_num_archipelagos i' = max_num_archipelagos i
}.

Lemma conn_update_wf a fl l i i' :
  ooo_wf i -> (a < length (p_archipelagos_mem i))%nat -> conn_update a fl l i i' ->
  ooo_wf i' /\ conns (ooo_abs i') = <[a := buffers_list i' <$> l]> (conns (ooo_abs i)).
Proof.
  intros W Ha [H1 H2 H3 H4 H5 H6 H7]. destruct (wf_split i a W Ha) as [ND Hp].
  destruct (concat_insert_perm _ a _ l (isles_list_some i a Ha)) as [_ Hq].
  assert (Hperm : free_isles_list i' ++ concat (p_archipelagos_mem i') ≡ₚ
                  free_isles_list i ++ concat (p_archipelagos_mem i)).
  { rewrite H1, H2, Hp, Hq, !app_assoc, H3. done. }
  split.
  - constructor.
    + rewrite Hperm, H4. apply W.
    + rewrite Hperm. apply W.
    + intros x Hx. rewrite H4. apply W. by rewrite <- Hperm.
    + by rewrite H2.
    + rewrite H1, length_insert, H7. apply W.
    + rewrite H7. apply W.
  - simpl. rewrite H1. rewrite list_fmap_insert. apply list_eq. intros j.
    destruct (decide (j = a)) as [->|Hne].
    + rewrite !list_lookup_insert_eq by (by rewrite length_fmap). done.
    + rewrite !list_lookup_insert_ne, !list_lookup_fmap by done.
      destruct (p_archipelagos_mem i !! j) as [lj|] eqn:Hj; [|done]. simpl. f_equal.
      apply fmap_same. intros x Hx. apply H5. intros Hin. rewrite app_assoc in ND.
      apply list.NoDup_app in ND as (_ & ND & _). apply (ND x Hin). by eapply others_spec.
Qed.

(** ** The operations refine the specification *)

Lemma buffers_set i x bs y :
  (x < length (p_isles_mem i))%nat ->
  buffers_list (set_buffers x bs i) y = if decide (y = x) then bs else buffers_list i y.
Proof.
  intros Hx. unfold buffers_list, set_buffers. simpl. case_decide as E.
  - subst y. by rewrite list_lookup_insert_eq.
  - by rewrite list_lookup_insert_ne.
Qed.

(** The facts about the isle [x] at position [p] of connection [a]. *)
Lemma isle_facts i a p x :
  ooo_wf i -> isles_list i a !! p = Some x ->
  (a < length (p_archipelagos_mem i))%nat /\ (x < length (p_isles_mem i))%nat /\
  NoDup (isles_list i a) /\ NoDup (free_isles_list i) /\ x ∉ free_isles_list i /\ x ∈ isles_list i a.
Proof.
  intros W Hx. assert (Ha : (a < length (p_archipelagos_mem i))%nat).
  { destruct (decide (a < length (p_archipelagos_mem i))%nat); [done|]. unfold isles_list in Hx.
    by rewrite (lookup_ge_None_2 (p_archipelagos_mem i)) in Hx by lia. }
  destruct (wf_split i a W Ha) as [ND Hp]. assert (Hin : x ∈ isles_list i a) by (by eapply list_elem_of_lookup_2).
  split_and!; try done.
  - apply (w_bound _ W). rewrite Hp. rewrite !elem_of_app. auto.
  - apply list.NoDup_app in ND as (_ & _ & ND). by apply list.NoDup_app in ND as (ND & _).
  - by apply list.NoDup_app in ND as (ND & _).
  - apply list.NoDup_app in ND as (_ & ND & _). intros Hf. apply (ND x Hf). apply elem_of_app. by left.
Qed.

Lemma sea_ext s s' :
  conns s = conns s' -> ready s = ready s' -> free s = free s' -> pool s = pool s' -> s = s'.
Proof. destruct s, s'; simpl. by intros -> -> -> ->. Qed.

Lemma delete_isle_refines i a p x :
  ooo_wf i -> isles_list i a !! p = Some x ->
  ooo_wf (delete_isle a x i) /\ ooo_abs (delete_isle a x i) = sea_drop a p (ooo_abs i).
Proof.
  intros W Hx. destruct (isle_facts i a p x W Hx) as (Ha & Hb & ND & NDf & Hnf & Hin).
  destruct (NoDup_delete _ _ _ ND Hx) as [ND' Hx'].
  assert (Hbl : forall y, buffers_list (delete_isle a x i) y = if decide (y = x) then [] else buffers_list i y).
  { intros y. apply (buffers_set i x []). done. }
  assert (U : conn_update a (x :: free_isles_list i) (delete p (isles_list i a)) i (delete_isle a x i)).
  { constructor; try done.
    - simpl. unfold isles_list at 1. simpl. by rewrite (list_del_delete _ p).
    - rewrite (delete_Permutation _ _ _ Hx) at 2. simpl. apply Permutation_middle.
    - simpl. by rewrite length_insert.
    - intros y Hy. rewrite Hbl, decide_False; [done|]. intros ->. apply Hy. apply elem_of_app. by right.
    - intros y Hy. rewrite Hbl. case_decide; [done|]. apply W. set_solver. }
  destruct (conn_update_wf _ _ _ _ _ W Ha U) as [W' Hc]. split; [done|].
  unfold sea_drop. rewrite sea_isles_abs, list_lookup_fmap, Hx. simpl fmap.
  apply sea_ext; [|done|done|done]. rewrite Hc. simpl. f_equal.
  rewrite (fmap_same (buffers_list i)); [by rewrite list_fmap_delete|].
  intros y Hy. rewrite Hbl, decide_False; [done|]. by intros ->.
Qed.

Lemma sea_drop_none s a p : sea_isles s a !! p = None -> sea_drop a p s = s.
Proof. unfold sea_drop. by intros ->. Qed.

Lemma delete_isles_refines cid isle n : 0 <= isle < 2 ^ 8 -> forall i,
  ooo_wf i ->
  ooo_wf (delete_isles_loop n cid isle i) /\
  ooo_abs (delete_isles_loop n cid isle i) = Nat.iter n (sea_drop (conn_idx i cid) (isle_pos isle)) (ooo_abs i).
Proof.
  intros Hi. induction n as [|n IH]; intros i W; [done|]. cbn [delete_isles_loop]. fold (conn_idx i cid).
  rewrite (seek_isle_spec i cid isle W Hi). rewrite Nat.iter_succ_r.
  destruct (isles_list i (conn_idx i cid) !! isle_pos isle) as [x|] eqn:E.
  - destruct (delete_isle_refines i _ _ _ W E) as [W' Ha].
    destruct (IH _ W') as [W2 Ha2]. split; [done|].
    rewrite Ha2, Ha. done.
  - split; [done|]. assert (Hd : sea_drop (conn_idx i cid) (isle_pos isle) (ooo_abs i) = ooo_abs i).
    { apply sea_drop_none. by rewrite sea_isles_abs, list_lookup_fmap, E. }
    rewrite Hd. clear -Hd. induction n as [|n IH]; [done|]. rewrite Nat.iter_succ_r, Hd. done.
Qed.

(** Insertion at position [p] of connection [a]. *)
Lemma insert_isle_update i i' a p x l b :
  ooo_wf i -> (a < length (p_archipelagos_mem i))%nat -> free_isles_list i = x :: l ->
  (p <= length (isles_list i a))%nat ->
  p_archipelagos_mem i' = <[a := take p (isles_list i a) ++ x :: drop p (isles_list i a)]> (p_archipelagos_mem i) ->
  free_isles_list i' = l -> p_isles_mem i' = <[x := [b]]> (p_isles_mem i) ->
  max_num_archipelagos i' = max_num_archipelagos i ->
  ready_buffers_list i' = ready_buffers_list i -> free_buffers_list i' = free_buffers_list i ->
  ooo_wf i' /\ ooo_abs i' = sea_insert a p b (ooo_abs i).
Proof.
  intros W Ha Hf Hp H1 H2 H3 H4 H5 H6. destruct (wf_split i a W Ha) as [ND Hperm].
  rewrite Hf in ND, Hperm. simpl in ND. apply list.NoDup_cons in ND as [Hx ND].
  assert (Hb : (x < length (p_isles_mem i))%nat) by (apply (w_bound _ W); rewrite Hf; by left).
  assert (Hbl : forall y, buffers_list i' y = if decide (y = x) then [b] else buffers_list i y).
  { intros y. rewrite <- (buffers_set i x [b] y Hb). unfold buffers_list. by rewrite H3. }
  assert (Hxl : x ∉ isles_list i a) by set_solver.
  set (l' := take p (isles_list i a) ++ x :: drop p (isles_list i a)) in *.
  assert (U : conn_update a l l' i i').
  { constructor; try done.
    - rewrite Hf. subst l'. rewrite <- Permutation_middle, take_drop. simpl. by rewrite <- Permutation_middle.
    - by rewrite H3, length_insert.
    - intros y Hy. rewrite Hbl, decide_False; [done|]. intros ->. apply Hy. rewrite Hf. by left.
    - intros y Hy. rewrite Hbl, decide_False; [apply W; rewrite Hf; by right|]. intros ->. set_solver. }
  destruct (conn_update_wf _ _ _ _ _ W Ha U) as [W' Hc]. split; [done|].
  unfold sea_insert. simpl pool. rewrite Hf. simpl length.
  apply sea_ext; [|by simpl; rewrite H5|by simpl; rewrite H6|by simpl; rewrite H2].
  rewrite Hc. rewrite sea_isles_abs. simpl. f_equal. subst l'.
  rewrite fmap_app, fmap_cons, fmap_take, fmap_drop, Hbl, decide_True by done.
  rewrite (fmap_same (buffers_list i)); [done|].
  intros y Hy. rewrite Hbl, decide_False; [done|]. by intros ->.
Qed.

Lemma conn_idx_len i cid :
  ooo_wf i -> 0 <= archipelago_idx i cid /\
  (archipelago_idx i cid < max_num_archipelagos i <-> (conn_idx i cid < length (p_archipelagos_mem i))%nat).
Proof.
  intros W. pose proof (w_len _ W). pose proof (u32_bound (Z.land cid 0xffff - cid_base i)).
  unfold conn_idx, archipelago_idx in *. lia.
Qed.

(** [prev] is the isle after which the new one goes, at position [p]. *)
Lemma add_isle_at_refines i cid prev p b :
  ooo_wf i -> archipelago_idx i cid < max_num_archipelagos i ->
  match prev with
  | None => p = O
  | Some y => exists q, p = S q /\ isles_list i (conn_idx i cid) !! q = Some y
  end ->
  exists i', add_isle_at cid prev b i = Some i' /\ ooo_wf i' /\
             ooo_abs i' = sea_insert (conn_idx i cid) p b (ooo_abs i).
Proof.
  intros W Hr Hprev. destruct (conn_idx_len i cid W) as [H0 Hlt]. apply Hlt in Hr as Ha.
  unfold add_isle_at. destruct (free_isles_list i) as [|x l] eqn:Hf.
  - exists i. split; [done|]. split; [done|]. unfold sea_insert. simpl. by rewrite Hf.
  - unfold archipelago_idx at 1. simpl. fold (archipelago_idx i cid).
    destruct (Z.leb_spec (Z.of_nat (length (p_archipelagos_mem i))) (archipelago_idx i cid));
      [pose proof (w_len _ W); lia|].
    eexists. split; [done|]. fold (conn_idx i cid).
    destruct prev as [y|]; [destruct Hprev as (q & -> & Hq)|subst p].
    + pose proof (isle_facts i _ _ _ W Hq) as (_ & _ & ND & _).
      eapply (insert_isle_update i _ _ _ x l); try done.
      all: try (by destruct (_ <? _)).
      * apply lookup_lt_Some in Hq. lia.
      * rewrite <- (list_add_after_pos _ q x y ND Hq). by destruct (_ <? _).
    + eapply (insert_isle_update i _ _ _ x l); try done; try (by destruct (_ <? _)). lia.
Qed.

Lemma add_new_isle_refines i cid isle b :
  ooo_wf i -> 0 <= isle < 2 ^ 8 -> archipelago_idx i cid < max_num_archipelagos i ->
  exists i', qed_ooo_add_new_isle cid isle b i = Some i' /\ ooo_wf i' /\
             ooo_abs i' = sea_new_isle (conn_idx i cid) isle b (ooo_abs i).
Proof.
  intros W Hi Hr. unfold qed_ooo_add_new_isle, sea_new_isle.
  rewrite sea_isles_abs, list_lookup_fmap, (seek_archipelago_spec i cid W).
  destruct (1 <? isle).
  - rewrite (seek_isle_spec i cid _ W) by auto with qed.
    destruct (isles_list i (conn_idx i cid) !! isle_pos (u8 (isle - 1))) as [y|] eqn:E; simpl; [|eauto].
    destruct (isles_list i (conn_idx i cid)) as [|z l] eqn:El; [by rewrite lookup_nil in E|].
    apply add_isle_at_refines; try done. eexists. split; [done|]. by rewrite El.
  - destruct (isles_list i (conn_idx i cid)) as [|z l] eqn:El.
    + rewrite bool_decide_eq_true_2 by done. destruct (isle =? 1); simpl; [by apply add_isle_at_refines|eauto].
    + rewrite bool_decide_eq_false_2 by done. rewrite orb_true_r. by apply add_isle_at_refines.
Qed.

(** Changing the buffers of one isle of a connection. *)
Lemma modify_isle_refines i a p x bs :
  ooo_wf i -> isles_list i a !! p = Some x ->
  ooo_wf (set_buffers x bs i) /\
  ooo_abs (set_buffers x bs i) =
    (ooo_abs i) <| conns := <[a := <[p := bs]> (sea_isles (ooo_abs i) a)]> (conns (ooo_abs i)) |>.
Proof.
  intros W Hx. destruct (isle_facts i a p x W Hx) as (Ha & Hb & ND & NDf & Hnf & Hin).
  pose proof (buffers_set i x bs) as Hbl.
  assert (U : conn_update a (free_isles_list i) (isles_list i a) i (set_buffers x bs i)).
  { constructor; try done.
    - simpl. by rewrite list_insert_id by (by apply isles_list_some).
    - simpl. by rewrite length_insert.
    - intros y Hy. rewrite Hbl, decide_False by set_solver. done.
    - intros y Hy. rewrite Hbl, decide_False by (done || congruence). by apply W. }
  destruct (conn_update_wf _ _ _ _ _ W Ha U) as [W' Hc]. split; [done|].
  apply sea_ext; [|done|done|done]. rewrite Hc, sea_isles_abs. simpl. f_equal.
  rewrite (fmap_modify (buffers_list i) _ _ p x ND Hx).
  - by rewrite Hbl, decide_True by done.
  - intros y Hy. by rewrite Hbl, decide_False by done.
Qed.

Lemma add_new_buffer_refines i cid isle b side :
  ooo_wf i -> 0 <= isle < 2 ^ 8 ->
  ooo_wf (qed_ooo_add_new_buffer cid isle b side i) /\
  ooo_abs (qed_ooo_add_new_buffer cid isle b side i) = sea_add_buffer (conn_idx i cid) isle b side (ooo_abs i).
Proof.
  intros W Hi. unfold qed_ooo_add_new_buffer, sea_add_buffer.
  rewrite (seek_isle_spec i cid isle W Hi), sea_isles_abs, list_lookup_fmap.
  destruct (isles_list i (conn_idx i cid) !! isle_pos isle) as [x|] eqn:E; [|done]. simpl fmap.
  destruct side; rewrite <- sea_isles_abs; by apply modify_isle_refines.
Qed.

Lemma isle_pos_succ left : 0 <= left < 2 ^ 8 -> isle_pos (u8 (left + 1)) = Z.to_nat left.
Proof.
  intros H. unfold isle_pos, u8. rewrite Zminus_mod_idemp_l.
  replace (left + 1 - 1) with left by lia. by rewrite Z.mod_small by lia.
Qed.
Lemma isle_pos_pred left : 0 < left < 2 ^ 8 -> S (isle_pos left) = Z.to_nat left.
Proof. intros H. unfold isle_pos. rewrite u8_small by lia. lia. Qed.

(** Taking an isle off a connection into the pool, its buffers moved away. *)
Lemma take_isle_update i i' a p x :
  ooo_wf i -> isles_list i a !! p = Some x ->
  p_archipelagos_mem i' = <[a := delete p (isles_list i a)]> (p_archipelagos_mem i) ->
  free_isles_list i' = free_isles_list i ++ [x] ->
  length (p_isles_mem i') = length (p_isles_mem i) ->
  max_num_archipelagos i' = max_num_archipelagos i ->
  buffers_list i' x = [] ->
  (forall y, y ∉ isles_list i a -> buffers_list i' y = buffers_list i y) ->
  conn_update a (free_isles_list i ++ [x]) (delete p (isles_list i a)) i i'.
Proof.
  intros W Hx H1 H2 H3 H4 H5 H6. destruct (isle_facts i a p x W Hx) as (Ha & Hb & ND & NDf & Hnf & Hin).
  constructor; try done.
  - rewrite <- app_assoc. simpl. by rewrite <- (delete_Permutation _ _ _ Hx).
  - intros y Hy. apply H6. set_solver.
  - intros y [Hy| ->%list_elem_of_singleton]%elem_of_app; [|done].
    rewrite H6; [by apply W|]. destruct (wf_split i a W Ha) as [NDs _].
    apply list.NoDup_app in NDs as (_ & NDs & _). specialize (NDs y Hy). set_solver.
Qed.

(** The two results of [qed_ooo_join_isles] once the isles are known. *)
Lemma join_ready_refines i a x :
  ooo_wf i -> isles_list i a !! 0%nat = Some x ->
  let i1 := set_isles a (list_del x (isles_list i a)) i in
  let i2 := i1 <| cur_isles_number := u32 (cur_isles_number i1 - 1) |> in
  let i3 := i2 <| ready_buffers_list := ready_buffers_list i2 ++ buffers_list i2 x |> in
  let i4 := set_buffers x [] i3 in
  let i5 := i4 <| free_isles_list := free_isles_list i4 ++ [x] |> in
  ooo_wf i5 /\ ooo_abs i5 = sea_join a 0 (ooo_abs i).
Proof.
  intros W Hx. destruct (isle_facts i a 0 x W Hx) as (Ha & Hb & ND & NDf & Hnf & Hin).
  destruct (NoDup_delete _ _ _ ND Hx) as [ND' Hx'].
  intros i1 i2 i3 i4 i5.
  assert (Hbl : forall y, buffers_list i5 y = if decide (y = x) then [] else buffers_list i y)
    by (intros y; exact (buffers_set i x [] y Hb)).
  assert (U : conn_update a (free_isles_list i ++ [x]) (delete 0%nat (isles_list i a)) i i5).
  { apply take_isle_update; try done.
    - simpl. by rewrite (list_del_delete _ 0).
    - simpl. by rewrite length_insert.
    - by rewrite Hbl, decide_True.
    - intros y Hy. rewrite Hbl, decide_False; [done|]. by intros ->. }
  destruct (conn_update_wf _ _ _ _ _ W Ha U) as [W' Hc]. split; [done|].
  unfold sea_join. rewrite sea_isles_abs, list_lookup_fmap, Hx. simpl fmap.
  apply sea_ext; [|done|done|].
  - rewrite Hc. cbn -[fmap list_fmap delete]. f_equal. rewrite <- list_fmap_delete. apply fmap_same.
    intros y Hy. rewrite Hbl, decide_False; [done|]. by intros ->.
  - simpl. rewrite length_app. simpl. lia.
Qed.

Lemma join_left_refines i a q x y :
  ooo_wf i -> isles_list i a !! S q = Some x -> isles_list i a !! q = Some y ->
  let i1 := set_isles a (list_del x (isles_list i a)) i in
  let i2 := i1 <| cur_isles_number := u32 (cur_isles_number i1 - 1) |> in
  let i3 := set_buffers y (buffers_list i2 y ++ buffers_list i2 x) i2 in
  let i4 := set_buffers x [] i3 in
  let i5 := i4 <| free_isles_list := free_isles_list i4 ++ [x] |> in
  ooo_wf i5 /\ ooo_abs i5 = sea_join a (S q) (ooo_abs i).
Proof.
  intros W Hx Hy. destruct (isle_facts i a _ x W Hx) as (Ha & Hb & ND & NDf & Hnf & Hin).
  destruct (isle_facts i a _ y W Hy) as (_ & Hby & _ & _ & _ & Hiny).
  destruct (NoDup_delete _ _ _ ND Hx) as [ND' Hx'].
  assert (Hxy : y <> x) by (intros ->; pose proof (NoDup_lookup _ _ _ _ ND Hx Hy); lia).
  assert (Hyd : delete (S q) (isles_list i a) !! q = Some y) by (rewrite list_lookup_delete_lt by lia; done).
  intros i1 i2 i3 i4 i5.
  assert (Hbl : forall z, buffers_list i5 z = if decide (z = x) then [] else
                          if decide (z = y) then buffers_list i y ++ buffers_list i x else buffers_list i z).
  { intros z. pose proof (buffers_set i3 x [] z) as E4. pose proof (buffers_set i2 y (buffers_list i2 y ++ buffers_list i2 x) z) as E3.
    change (buffers_list i5 z) with (buffers_list (set_buffers x [] i3) z). rewrite E4 by (simpl; by rewrite length_insert).
    destruct (decide (z = x)); [done|]. exact (E3 Hby). }
  assert (U : conn_update a (free_isles_list i ++ [x]) (delete (S q) (isles_list i a)) i i5).
  { apply take_isle_update; try done.
    - simpl. by rewrite (list_del_delete _ (S q)).
    - simpl. by rewrite !length_insert.
    - by rewrite Hbl, decide_True.
    - intros z Hz. rewrite Hbl, !decide_False; [done|..]; by intros ->. }
  destruct (conn_update_wf _ _ _ _ _ W Ha U) as [W' Hc]. split; [done|].
  unfold sea_join. rewrite sea_isles_abs, list_lookup_fmap, Hx. simpl fmap.
  apply sea_ext; [|done|done|simpl; rewrite length_app; simpl; lia].
  rewrite Hc. cbn -[fmap list_fmap delete alter]. f_equal. rewrite <- list_fmap_delete.
  set (f1 := fun z => if decide (z = y) then buffers_list i y ++ buffers_list i x else buffers_list i z).
  rewrite (fmap_same f1) by (intros z Hz; rewrite Hbl, decide_False by (by intros ->); done).
  rewrite (fmap_modify (buffers_list i) f1 _ q y ND' Hyd) by (intros z Hz; subst f1; simpl; by rewrite decide_False).
  assert (Hl : (buffers_list i <$> delete (S q) (isles_list i a)) !! q = Some (buffers_list i y))
    by (by rewrite list_lookup_fmap, Hyd).
  apply list_eq. intros j. rewrite list_lookup_alter. destruct (decide (q = j)) as [<-|Hne].
  - rewrite Hl, list_lookup_insert_eq by (by eapply lookup_lt_Some). subst f1. simpl. by rewrite decide_True.
  - by rewrite list_lookup_insert_ne.
Qed.

Lemma join_isles_refines i cid left :
  ooo_wf i -> 0 <= left < 2 ^ 8 ->
  ooo_wf (qed_ooo_join_isles cid left i) /\
  ooo_abs (qed_ooo_join_isles cid left i) = sea_join (conn_idx i cid) (Z.to_nat left) (ooo_abs i).
Proof.
  intros W Hl. unfold qed_ooo_join_isles.
  rewrite (seek_isle_spec i cid _ W) by auto with qed. rewrite isle_pos_succ by done.
  fold (conn_idx i cid). set (a := conn_idx i cid).
  destruct (isles_list i a !! Z.to_nat left) as [x|] eqn:Hx.
  2: { split; [done|]. unfold sea_join. by rewrite sea_isles_abs, list_lookup_fmap, Hx. }
  destruct (Z.eqb_spec left 0) as [->|Hne]; simpl negb; cbn [negb].
  - by apply join_ready_refines.
  - rewrite <- isle_pos_pred in Hx |- * by lia.
    pose proof (isle_facts i a _ x W Hx) as (Ha & _ & ND & _).
    destruct (lookup_lt_is_Some_2 (isles_list i a) (isle_pos left)) as [y Hy].
    { apply lookup_lt_Some in Hx. lia. }
    set (i1 := set_isles a (list_del x (isles_list i a)) i).
    rewrite (seek_isle_len _ cid left); [|simpl; rewrite length_insert; apply W|done].
    replace (isles_list _ _ !! isle_pos left) with (Some y).
    + by apply join_left_refines.
    + symmetry. transitivity (isles_list i1 a !! isle_pos left); [done|].
      unfold i1, isles_list at 1. simpl. rewrite list_lookup_insert_eq by done. simpl.
      rewrite (list_del_delete _ _ _ ND Hx), list_lookup_delete_lt by lia. done.
Qed.

(** What emptying the isles [l] does, isle by isle. *)
Lemma release_isles_spec : forall l i,
  NoDup l -> (forall x, x ∈ l -> (x < length (p_isles_mem i))%nat) ->
  let i' := release_isles l i in
  free_buffers_list i' = free_buffers_list i ++ concat (buffers_list i <$> l) /\
  free_isles_list i' = free_isles_list i ++ l /\
  (forall y, buffers_list i' y = if decide (y ∈ l) then [] else buffers_list i y) /\
  length (p_isles_mem i') = length (p_isles_mem i) /\
  p_archipelagos_mem i' = p_archipelagos_mem i /\ ready_buffers_list i' = ready_buffers_list i /\
  max_num_archipelagos i' = max_num_archipelagos i /\ cid_base i' = cid_base i /\
  cur_isles_number i' = cur_isles_number i.
Proof.
  induction l as [|x l IH]; intros i ND Hb; simpl.
  - rewrite !app_nil_r. split_and!; done.
  - apply list.NoDup_cons in ND as [Hx ND].
    set (i1 := (set_buffers x [] (i <| free_buffers_list := _ |>)) <| free_isles_list := _ |>).
    assert (Hbx : (x < length (p_isles_mem i))%nat) by (apply Hb; by left).
    assert (Hbl : forall y, buffers_list i1 y = if decide (y = x) then [] else buffers_list i y)
      by (intros y; exact (buffers_set i x [] y Hbx)).
    destruct (IH i1 ND) as (H1 & H2 & H3 & H4 & H5 & H6 & H7 & H8 & H9).
    { intros y Hy. subst i1. simpl. rewrite length_insert. apply Hb. by right. }
    rewrite H1, H2, H4, H5, H6, H7, H8, H9. split_and!; try done.
    + simpl. rewrite <- app_assoc. f_equal. f_equal. f_equal. apply fmap_same.
      intros y Hy. rewrite Hbl, decide_False; [done|]. by intros ->.
    + simpl. by rewrite <- app_assoc.
    + intros y. rewrite H3, Hbl. destruct (decide (y = x)), (decide (y ∈ l)), (decide (y ∈ x :: l)); set_solver.
    + subst i1. simpl. by rewrite length_insert.
Qed.

Lemma release_archipelago_refines i a :
  ooo_wf i -> (a < length (p_archipelagos_mem i))%nat ->
  ooo_wf (release_archipelago a i) /\ ooo_abs (release_archipelago a i) = sea_release a (ooo_abs i) /\
  max_num_archipelagos (release_archipelago a i) = max_num_archipelagos i /\
  cid_base (release_archipelago a i) = cid_base i /\
  cur_isles_number (release_archipelago a i) = cur_isles_number i.
Proof.
  intros W Ha. destruct (wf_split i a W Ha) as [ND Hp].
  unfold release_archipelago. set (l := isles_list i a) in *. set (i0 := set_isles a [] i).
  pose proof ND as ND0. apply list.NoDup_app in ND0 as (_ & Hfl & NDl). apply list.NoDup_app in NDl as (NDl & _ & _).
  assert (Hb : forall x, x ∈ l -> (x < length (p_isles_mem i0))%nat).
  { intros x Hx. apply (w_bound _ W). rewrite Hp, !elem_of_app. auto. }
  destruct (release_isles_spec l i0 NDl Hb) as (H1 & H2 & H3 & H4 & H5 & H6 & H7 & H8 & H9).
  assert (U : conn_update a (free_isles_list i ++ l) [] i (release_isles l i0)).
  { constructor; try done.
    - by rewrite app_nil_r.
    - intros y Hy. rewrite H3, decide_False by set_solver. done.
    - intros y Hy. rewrite H3. case_decide; [done|]. apply W. set_solver. }
  destruct (conn_update_wf _ _ _ _ _ W Ha U) as [W' Hc].
  split_and!; try done. unfold sea_release. rewrite sea_isles_abs. fold l.
  apply sea_ext; [by rewrite Hc|done|done|].
  simpl. rewrite H2, length_app, length_fmap. done.
Qed.

Lemma release_connection_refines i cid :
  ooo_wf i ->
  ooo_wf (qed_ooo_release_connection_isles cid i) /\
  ooo_abs (qed_ooo_release_connection_isles cid i) = sea_release (conn_idx i cid) (ooo_abs i).
Proof.
  intros W. unfold qed_ooo_release_connection_isles. rewrite (seek_archipelago_spec i cid W).
  destruct (isles_list i (conn_idx i cid)) as [|x l] eqn:E.
  - split; [done|]. unfold sea_release. rewrite sea_isles_abs, E.
    apply sea_ext; cbn [conns ready free pool setter fmap list_fmap concat length];
      rewrite ?app_nil_r, ?Nat.add_0_r; try done.
    destruct (decide (conn_idx i cid < length (p_archipelagos_mem i))%nat) as [Hlt|Hge].
    + rewrite list_insert_id; [done|]. simpl. by rewrite list_lookup_fmap, isles_list_some, E.
    + rewrite list_insert_ge; [done|]. simpl. rewrite length_fmap. lia.
  - destruct (isle_facts i (conn_idx i cid) 0 x W) as (Ha & _); [by rewrite E|].
    destruct (release_archipelago_refines i _ W Ha) as (W' & HA & _). done.
Qed.

(** Releasing the first [n] connections. *)
Lemma release_first_refines i n :
  ooo_wf i -> (n <= length (p_archipelagos_mem i))%nat ->
  let i' := fold_left (fun i a => release_archipelago a i) (seq 0 n) i in
  ooo_wf i' /\ ooo_abs i' = fold_left (fun s a => sea_release a s) (seq 0 n) (ooo_abs i) /\
  max_num_archipelagos i' = max_num_archipelagos i.
Proof.
  intros W. induction n as [|n IH]; intros Hn; [done|].
  rewrite seq_S, !fold_left_app. simpl. destruct IH as (W' & HA & HM); [lia|].
  destruct (release_archipelago_refines _ n W') as (W2 & HA2 & HM2 & _).
  { pose proof (w_len _ W'). pose proof (w_len _ W). lia. }
  rewrite HA2, HA, HM2, HM. done.
Qed.

Lemma release_all_refines i :
  ooo_wf i ->
  let s := fold_left (fun s a => sea_release a s) (seq 0 (length (conns (ooo_abs i)))) (ooo_abs i) in
  ooo_wf (qed_ooo_release_all_isles i) /\
  ooo_abs (qed_ooo_release_all_isles i) = s <| free := free s ++ ready s |> <| ready := [] |>.
Proof.
  intros W. unfold qed_ooo_release_all_isles.
  replace (Z.to_nat (max_num_archipelagos i)) with (length (p_archipelagos_mem i)) by (pose proof (w_len _ W); lia).
  destruct (release_first_refines i _ W (Nat.le_refl _)) as (W' & HA & _).
  simpl. rewrite length_fmap, <- HA. split; [|done]. destruct W'; by constructor.
Qed.
