(* ===== verification/OooProps.v ===== *)
(** * Properties of the out-of-order buffer store

    The store as seen by the loopback receive handler: sequences of firmware
    events refine operations on plain lists of isles, buffers are conserved,
    and joining isles keeps the order of the TCP stream. *)

From AAC_tactics Require Import AAC.
From AAC_tactics Require Instances.
From S2P Require Import Prelude Ooo.
Import Instances.Lists.

(** Reordering of appended lists up to permutation, for [aac_reflexivity]. *)
#[local] Instance lift_perm {A} : AAC_lift (@Permutation A) (@Permutation A).
Proof. constructor; [apply Permutation_Equivalence|]. intros x y H x' y' H'. by rewrite H, H'. Qed.

(** ** Sequences of operations *)

Inductive ooo_op :=
  | OpDeleteIsles (cid isle size : Z)
  | OpAddNewIsle (cid isle : Z) (b : qed_ooo_buffer)
  | OpAddNewBuffer (cid isle : Z) (b : qed_ooo_buffer) (side : buffer_side)
  | OpJoinIsles (cid left_isle : Z)
  | OpReleaseConnection (cid : Z)
  | OpReleaseAll
  | OpPutFree (b : qed_ooo_buffer)
  | OpPutReady (b : qed_ooo_buffer) (on_tail : bool)
  | OpGetFree
  | OpGetReady.

Definition ooo_exec (op : ooo_op) (i : qed_ooo_info) : option qed_ooo_info :=
  match op with
  | OpDeleteIsles cid isle n => Some (qed_ooo_delete_isles cid isle n i)
  | OpAddNewIsle cid isle b => qed_ooo_add_new_isle cid isle b i
  | OpAddNewBuffer cid isle b side => Some (qed_ooo_add_new_buffer cid isle b side i)
  | OpJoinIsles cid l => Some (qed_ooo_join_isles cid l i)
  | OpReleaseConnection cid => Some (qed_ooo_release_connection_isles cid i)
  | OpReleaseAll => Some (qed_ooo_release_all_isles i)
  | OpPutFree b => Some (qed_ooo_put_free_buffer b i)
  | OpPutReady b on_tail => Some (qed_ooo_put_ready_buffer b on_tail i)
  | OpGetFree => Some (qed_ooo_get_free_buffer i).2
  | OpGetReady => Some (qed_ooo_get_ready_buffer i).2
  end.

(** The specification; [conn] maps a connection id to its position. *)
Definition sea_exec (conn : Z -> nat) (op : ooo_op) (s : sea) : sea :=
  match op with
  | OpDeleteIsles cid isle n => Nat.iter (Z.to_nat n) (sea_drop (conn cid) (isle_pos isle)) s
  | OpAddNewIsle cid isle b => sea_new_isle (conn cid) isle b s
  | OpAddNewBuffer cid isle b side => sea_add_buffer (conn cid) isle b side s
  | OpJoinIsles cid l => sea_join (conn cid) (Z.to_nat l) s
  | OpReleaseConnection cid => sea_release (conn cid) s
  | OpReleaseAll =>
      let s := fold_left (fun s a => sea_release a s) (seq 0 (length (conns s))) s in
      s <| free := free s ++ ready s |> <| ready := [] |>
  | OpPutFree b => s <| free := free s ++ [b] |>
  | OpPutReady b on_tail => s <| ready := if on_tail then ready s ++ [b] else b :: ready s |>
  | OpGetFree => s <| free := tail (free s) |>
  | OpGetReady => s <| ready := tail (ready s) |>
  end.

(** Isle numbers are bytes, and a new isle is for a known connection. *)
Definition op_ok (base max : Z) (op : ooo_op) : Prop :=
  match op with
  | OpDeleteIsles _ isle _ | OpAddNewBuffer _ isle _ _ | OpJoinIsles _ isle => 0 <= isle < 2 ^ 8
  | OpAddNewIsle cid isle _ => 0 <= isle < 2 ^ 8 /\ u32 (Z.land cid 0xffff - base) < max
  | _ => True
  end.

(** No operation changes the connection range or the history. *)
Definition same_range (i i' : qed_ooo_info) : Prop :=
  cid_base i' = cid_base i /\ max_num_archipelagos i' = max_num_archipelagos i /\
  ooo_history i' = ooo_history i.

Lemma same_range_trans i1 i2 i3 : same_range i1 i2 -> same_range i2 i3 -> same_range i1 i3.
Proof. unfold same_range. intros (? & ? & ?) (? & ? & ?). split_and!; congruence. Qed.

Lemma release_isles_range l : forall i, same_range i (release_isles l i).
Proof. induction l as [|x l IH]; intros i; [done|]. simpl. by eapply same_range_trans; [|apply IH]. Qed.

Lemma release_fold_range l : forall i,
  same_range i (fold_left (fun i a => release_archipelago a i) l i).
Proof.
  induction l as [|a l IH]; intros i; [done|]. simpl. eapply same_range_trans; [|apply IH].
  eapply same_range_trans; [|apply release_isles_range]. done.
Qed.

Lemma delete_loop_range cid isle n : forall i, same_range i (delete_isles_loop n cid isle i).
Proof.
  induction n as [|n IH]; intros i; [done|]. simpl. destruct (qed_ooo_seek_isle i cid isle); [|done].
  by eapply same_range_trans; [|apply IH].
Qed.

Lemma add_isle_at_range cid prev b i i' : add_isle_at cid prev b i = Some i' -> same_range i i'.
Proof.
  unfold add_isle_at. destruct (free_isles_list i); [by intros [= <-]|].
  destruct (_ <=? _); [done|]. intros [= <-]. destruct prev; simpl; by destruct (_ <? _).
Qed.

Lemma ooo_exec_range op i i' : ooo_exec op i = Some i' -> same_range i i'.
Proof.
  destruct op; simpl; intros H; try (injection H as <-).
  - apply delete_loop_range.
  - unfold qed_ooo_add_new_isle in H.
    repeat (match type of H with context [match ?x with _ => _ end] => destruct x eqn:? end;
            try (by injection H as <-)); by eapply add_isle_at_range.
  - unfold qed_ooo_add_new_buffer. destruct (qed_ooo_seek_isle i cid isle), side; done.
  - unfold qed_ooo_join_isles. destruct (qed_ooo_seek_isle i _ _); [|done].
    destruct (negb _); [|done]. by destruct (qed_ooo_seek_isle _ _ _).
  - unfold qed_ooo_release_connection_isles. destruct (qed_ooo_seek_archipelago i cid); [|done].
    by eapply same_range_trans; [|apply release_isles_range].
  - unfold qed_ooo_release_all_isles. eapply same_range_trans; [apply release_fold_range|done].
  - done.
  - by destruct on_tail.
  - unfold qed_ooo_get_free_buffer. by destruct (free_buffers_list i).
  - unfold qed_ooo_get_ready_buffer. by destruct (ready_buffers_list i).
Qed.

Lemma ooo_exec_refines op i :
  ooo_wf i -> op_ok (cid_base i) (max_num_archipelagos i) op ->
  exists i', ooo_exec op i = Some i' /\ ooo_wf i' /\ ooo_abs i' = sea_exec (conn_idx i) op (ooo_abs i).
Proof.
  intros W H. destruct op; simpl in *.
  - eexists; split; [done|]. by apply delete_isles_refines.
  - destruct H. by apply add_new_isle_refines.
  - eexists; split; [done|]. by apply add_new_buffer_refines.
  - eexists; split; [done|]. by apply join_isles_refines.
  - eexists; split; [done|]. by apply release_connection_refines.
  - eexists; split; [done|]. apply (release_all_refines i W).
  - eexists; split; [done|]. split; [|done]. destruct W; by constructor.
  - eexists; split; [done|]. destruct on_tail; (split; [|done]); destruct W; by constructor.
  - eexists; split; [done|]. unfold qed_ooo_get_free_buffer. destruct (free_buffers_list i) eqn:E;
      (split; [destruct W; by constructor|]); apply sea_ext; simpl; rewrite ?E; done.
  - eexists; split; [done|]. unfold qed_ooo_get_ready_buffer. destruct (ready_buffers_list i) eqn:E;
      (split; [destruct W; by constructor|]); apply sea_ext; simpl; rewrite ?E; done.
Qed.

Fixpoint ooo_run (ops : list ooo_op) (i : qed_ooo_info) : option qed_ooo_info :=
  match ops with
  | [] => Some i
  | op :: ops => i ← ooo_exec op i; ooo_run ops i
  end.
Definition sea_run (conn : Z -> nat) (ops : list ooo_op) (s : sea) : sea :=
  fold_left (fun s op => sea_exec conn op s) ops s.

Lemma conn_idx_range i i' : same_range i i' -> conn_idx i' = conn_idx i :> (Z -> nat).
Proof. intros [Hb _]. unfold conn_idx, archipelago_idx. by rewrite Hb. Qed.

Lemma ooo_run_refines ops : forall i,
  ooo_wf i -> Forall (op_ok (cid_base i) (max_num_archipelagos i)) ops ->
  exists i', ooo_run ops i = Some i' /\ ooo_wf i' /\ ooo_abs i' = sea_run (conn_idx i) ops (ooo_abs i).
Proof.
  induction ops as [|op ops IH]; intros i W H; [by exists i|].
  inversion_clear H as [|? ? Hop Hs]. destruct (ooo_exec_refines op i W Hop) as (i1 & E1 & W1 & A1).
  pose proof (ooo_exec_range _ _ _ E1) as R. destruct (R) as (Rb & Rm & _). rewrite <- Rb, <- Rm in Hs.
  destruct (IH i1 W1 Hs) as (i' & E' & W' & A'). exists i'. simpl. rewrite E1. simpl.
  split; [done|]. split; [done|]. rewrite A', A1, (conn_idx_range _ _ R). done.
Qed.

(** ** Conservation of buffers *)

Definition sea_buffers (s : sea) : list qed_ooo_buffer := free s ++ ready s ++ concat (concat (conns s)).
Definition ooo_buffers (i : qed_ooo_info) : list qed_ooo_buffer :=
  free_buffers_list i ++ ready_buffers_list i ++ concat (buffers_list i <$> concat (p_archipelagos_mem i)).

Lemma ooo_buffers_abs i : ooo_buffers i = sea_buffers (ooo_abs i).
Proof.
  unfold ooo_buffers, sea_buffers. simpl. f_equal. f_equal. f_equal.
  induction (p_archipelagos_mem i) as [|l ls IH]; [done|]. simpl. by rewrite fmap_app, IH.
Qed.

(** The buffer an operation hands over, when it is accepted: an event that
    names a missing isle, or an empty pool, drops it. *)
Definition accepted (conn : Z -> nat) (op : ooo_op) (s : sea) : list qed_ooo_buffer :=
  match op with
  | OpAddNewIsle cid isle b =>
      if (pool s =? 0)%nat then []
      else if 1 <? isle then
        match sea_isles s (conn cid) !! isle_pos (u8 (isle - 1)) with Some _ => [b] | None => [] end
      else if (isle =? 1) || negb (bool_decide (sea_isles s (conn cid) = [])) then [b] else []
  | OpAddNewBuffer cid isle b _ =>
      match sea_isles s (conn cid) !! isle_pos isle with Some _ => [b] | None => [] end
  | OpPutFree b | OpPutReady b _ => [b]
  | _ => []
  end.

(** The buffer an operation hands out. *)
Definition handed_out (op : ooo_op) (s : sea) : list qed_ooo_buffer :=
  match op with
  | OpGetFree => take 1 (free s)
  | OpGetReady => take 1 (ready s)
  | _ => []
  end.

Lemma concat_perm {A} (l k : list (list A)) : l ≡ₚ k -> concat l ≡ₚ concat k.
Proof.
  induction 1; simpl; [done|by f_equiv|apply Permutation_app_swap_app|by etrans].
Qed.

(** The buffers when the isles of connection [a] become [x]. *)
Lemma conns_update_perm s a x :
  (a < length (conns s))%nat ->
  exists rest, concat (concat (conns s)) ≡ₚ concat (sea_isles s a) ++ rest /\
               concat (concat (<[a := x]> (conns s))) ≡ₚ concat x ++ rest.
Proof.
  intros Ha. destruct (lookup_lt_is_Some_2 _ _ Ha) as [l Hl].
  exists (concat (concat (delete a (conns s)))).
  destruct (concat_insert_perm _ a l x Hl) as [H1 H2]. unfold sea_isles. rewrite Hl. simpl.
  rewrite <- !concat_app. split; by apply concat_perm.
Qed.

Lemma sea_isle_lt s a p bs : sea_isles s a !! p = Some bs -> (a < length (conns s))%nat.
Proof.
  unfold sea_isles. intros H. destruct (decide (a < length (conns s))%nat); [done|].
  by rewrite (lookup_ge_None_2 (conns s)) in H by lia.
Qed.

Lemma concat_delete_perm {A} (ls : list (list A)) p l :
  ls !! p = Some l -> concat ls ≡ₚ l ++ concat (delete p ls).
Proof. intros H. by destruct (concat_insert_perm ls p l [] H). Qed.

Lemma sea_drop_perm s a p : sea_buffers (sea_drop a p s) ≡ₚ sea_buffers s.
Proof.
  unfold sea_drop. destruct (sea_isles s a !! p) as [bs|] eqn:E; [|done]. unfold sea_buffers. simpl.
  destruct (conns_update_perm s a (delete p (sea_isles s a)) (sea_isle_lt _ _ _ _ E)) as (rest & -> & ->).
  rewrite (concat_delete_perm _ _ _ E). aac_reflexivity.
Qed.

Lemma sea_insert_perm s a p b :
  (a < length (conns s))%nat ->
  sea_buffers (sea_insert a p b s) ≡ₚ sea_buffers s ++ (if (pool s =? 0)%nat then [] else [b]).
Proof.
  intros Ha. unfold sea_insert. destruct (pool s) as [|n]; simpl; [by rewrite app_nil_r|]. unfold sea_buffers. simpl.
  destruct (conns_update_perm s a (take p (sea_isles s a) ++ [b] :: drop p (sea_isles s a)) Ha) as (rest & -> & ->).
  rewrite concat_app. rewrite <- (take_drop p (sea_isles s a)) at 3. rewrite concat_app. simpl.
  change (b :: concat (drop p (sea_isles s a))) with ([b] ++ concat (drop p (sea_isles s a))). aac_reflexivity.
Qed.

Lemma sea_new_isle_perm s a isle b :
  (a < length (conns s))%nat ->
  sea_buffers (sea_new_isle a isle b s) ≡ₚ sea_buffers s ++ accepted (fun _ => a) (OpAddNewIsle 0 isle b) s.
Proof.
  intros Ha. unfold sea_new_isle, accepted.
  pose proof (fun p => sea_insert_perm s a p b Ha) as Hi.
  destruct (1 <? isle).
  - destruct (sea_isles s a !! isle_pos (u8 (isle - 1))); [rewrite Hi; by destruct (pool s =? 0)%nat|].
    destruct (pool s =? 0)%nat; by rewrite app_nil_r.
  - destruct ((isle =? 1) || _); [rewrite Hi; by destruct (pool s =? 0)%nat|].
    destruct (pool s =? 0)%nat; by rewrite app_nil_r.
Qed.

Lemma concat_insert_mid {A} (ls : list (list A)) p l l' :
  ls !! p = Some l -> exists rest, concat ls ≡ₚ l ++ rest /\ concat (<[p := l']> ls) ≡ₚ l' ++ rest.
Proof. intros H. eexists. by apply concat_insert_perm. Qed.

Lemma sea_add_buffer_perm s a isle b side :
  sea_buffers (sea_add_buffer a isle b side s) ≡ₚ
  sea_buffers s ++ match sea_isles s a !! isle_pos isle with Some _ => [b] | None => [] end.
Proof.
  unfold sea_add_buffer. destruct (sea_isles s a !! isle_pos isle) as [bs|] eqn:E; [|by rewrite app_nil_r].
  unfold sea_buffers. simpl. set (bs' := match side with QED_OOO_LEFT_BUF => _ | _ => _ end).
  destruct (conns_update_perm s a (<[isle_pos isle := bs']> (sea_isles s a)) (sea_isle_lt _ _ _ _ E)) as (rest & -> & ->).
  destruct (concat_insert_mid _ _ _ bs' E) as (r & -> & ->).
  assert (Hb : bs' ≡ₚ bs ++ [b]) by (subst bs'; destruct side; [apply Permutation_cons_append|done]).
  rewrite Hb. aac_reflexivity.
Qed.

Lemma sea_join_perm s a l : sea_buffers (sea_join a l s) ≡ₚ sea_buffers s.
Proof.
  unfold sea_join. destruct (sea_isles s a !! l) as [rb|] eqn:E; [|done]. pose proof (sea_isle_lt _ _ _ _ E) as Ha.
  destruct l as [|l]; unfold sea_buffers; simpl.
  - destruct (conns_update_perm s a (delete 0%nat (sea_isles s a)) Ha) as (rest & -> & ->).
    rewrite (concat_delete_perm _ _ _ E). aac_reflexivity.
  - destruct (conns_update_perm s a (alter (fun lb => lb ++ rb) l (delete (S l) (sea_isles s a))) Ha) as (rest & -> & ->).
    rewrite (concat_delete_perm _ _ _ E).
    destruct (lookup_lt_is_Some_2 (sea_isles s a) l) as [lb Hl]; [apply lookup_lt_Some in E; lia|].
    assert (Hd : delete (S l) (sea_isles s a) !! l = Some lb) by (rewrite list_lookup_delete_lt by lia; done).
    assert (Hal : alter (fun lb => lb ++ rb) l (delete (S l) (sea_isles s a)) = <[l := lb ++ rb]> (delete (S l) (sea_isles s a))).
    { apply list_eq. intros j. rewrite list_lookup_alter. destruct (decide (l = j)) as [<-|Hne].
      - by rewrite Hd, list_lookup_insert_eq by (by eapply lookup_lt_Some).
      - by rewrite list_lookup_insert_ne. }
    rewrite Hal. destruct (concat_insert_mid _ _ _ (lb ++ rb) Hd) as (r & -> & ->). aac_reflexivity.
Qed.

Lemma sea_release_perm s a : sea_buffers (sea_release a s) ≡ₚ sea_buffers s.
Proof.
  unfold sea_release, sea_buffers. simpl. destruct (decide (a < length (conns s))%nat) as [Ha|Ha].
  - destruct (conns_update_perm s a [] Ha) as (rest & -> & ->). simpl. aac_reflexivity.
  - rewrite list_insert_ge by lia. unfold sea_isles. rewrite (lookup_ge_None_2 (conns s)) by lia. simpl.
    by rewrite app_nil_r.
Qed.

Lemma sea_release_first_perm l : forall s, sea_buffers (fold_left (fun s a => sea_release a s) l s) ≡ₚ sea_buffers s.
Proof. induction l as [|a l IH]; intros s; [done|]. simpl. by rewrite IH, sea_release_perm. Qed.

Lemma sea_exec_perm conn op s :
  match op with OpAddNewIsle cid _ _ => (conn cid < length (conns s))%nat | _ => True end ->
  sea_buffers (sea_exec conn op s) ++ handed_out op s ≡ₚ sea_buffers s ++ accepted conn op s.
Proof.
  intros H. destruct op; simpl handed_out; simpl accepted; rewrite ?app_nil_r; unfold sea_exec.
  - induction (Z.to_nat size) as [|n IH]; [done|]. simpl. by rewrite sea_drop_perm.
  - by apply (sea_new_isle_perm s (conn cid)).
  - apply sea_add_buffer_perm.
  - apply sea_join_perm.
  - apply sea_release_perm.
  - rewrite <- (sea_release_first_perm (seq 0 (length (conns s))) s). unfold sea_buffers. simpl.
    by rewrite <- app_assoc.
  - unfold sea_buffers. simpl. aac_reflexivity.
  - unfold sea_buffers. simpl. destruct on_tail; [aac_reflexivity|].
    change (b :: ready s) with ([b] ++ ready s). aac_reflexivity.
  - unfold sea_buffers. simpl. destruct (free s) as [|b l]; simpl; [by rewrite app_nil_r|].
    rewrite take_0. change (b :: l ++ ready s ++ concat (concat (conns s))) with ([b] ++ l ++ ready s ++ concat (concat (conns s))).
    aac_reflexivity.
  - unfold sea_buffers. simpl. destruct (ready s) as [|b l]; simpl; [by rewrite app_nil_r|].
    rewrite take_0. change (b :: l ++ concat (concat (conns s))) with ([b] ++ l ++ concat (concat (conns s))).
    aac_reflexivity.
Qed.

(** ** Order *)

(** The stream of a connection: what is ready, then its isles left to right. *)
Definition conn_isles (i : qed_ooo_info) (cid : Z) : list (list qed_ooo_buffer) :=
  buffers_list i <$> isles_list i (conn_idx i cid).

Lemma concat_merge {A} (ls : list (list A)) : forall l rb,
  ls !! S l = Some rb -> concat (alter (fun lb => lb ++ rb) l (delete (S l) ls)) = concat ls.
Proof.
  induction ls as [|x ls IH]; intros [|l] rb H; [done..| |]; simpl in *.
  - destruct ls as [|y ls]; [done|]. simpl in *. injection H as ->. by rewrite <- app_assoc.
  - f_equal. by apply IH.
Qed.

Lemma sea_join_stream s a l :
  let s' := sea_join a l s in
  ready s' ++ concat (sea_isles s' a) = ready s ++ concat (sea_isles s a) /\
  ((0 < l)%nat -> ready s' = ready s).
Proof.
  unfold sea_join. destruct (sea_isles s a !! l) as [rb|] eqn:E; [|done].
  pose proof (sea_isle_lt _ _ _ _ E) as Ha. destruct l as [|l]; simpl.
  - split; [|lia]. unfold sea_isles at 1. simpl. rewrite list_lookup_insert_eq by done. simpl.
    rewrite <- app_assoc. f_equal. destruct (sea_isles s a) as [|x ls]; [done|]. by injection E as ->.
  - split; [|done]. unfold sea_isles at 1. simpl. rewrite list_lookup_insert_eq by done. simpl.
    f_equal. by apply concat_merge.
Qed.

(** ** The loopback handler *)

Definition hist_ok (h : qed_ooo_history) : Prop :=
  0 <= head_idx h <= num_of_cqes h /\ 0 < num_of_cqes h < 2 ^ 32 /\
  Z.of_nat (length (p_cqes h)) = num_of_cqes h.

(** Completions whose isle numbers are bytes and whose connections are known. *)
Definition cqe_ok (base max : Z) (c : core_rx_cqe) : Prop :=
  match c with
  | CORE_RX_CQE_TYPE_REGULAR _ _ _ _ op =>
      0 <= drop_isle op < 2 ^ 8 /\ 0 <= ooo_isle op < 2 ^ 8 /\
      u32 (Z.land (ooo_cid op) 0xffff - base) < max
  | _ => True
  end.

(** The memory areas of the buffers the connection works with. *)
Definition buffer_areas (s : ll2_rx) : list Z :=
  rx_buffer_virt_addr <$> (active_descq s ++ ooo_buffers (ooo_info s)).

Lemma save_history_spec op i :
  hist_ok (ooo_history i) ->
  exists i', qed_ooo_save_history_entry op i = Some i' /\ hist_ok (ooo_history i') /\
    (ooo_wf i -> ooo_wf i') /\ ooo_abs i' = ooo_abs i /\
    cid_base i' = cid_base i /\ max_num_archipelagos i' = max_num_archipelagos i.
Proof.
  intros (Hh & Hn & Hl). unfold qed_ooo_save_history_entry. set (h := if _ =? _ then _ else _).
  assert (H : 0 <= head_idx h < num_of_cqes h /\ num_of_cqes h = num_of_cqes (ooo_history i) /\ p_cqes h = p_cqes (ooo_history i)).
  { subst h. destruct (Z.eqb_spec (head_idx (ooo_history i)) (num_of_cqes (ooo_history i))); simpl; split_and!; lia || done. }
  destruct H as (H1 & H2 & H3). destruct (Z.ltb_spec (head_idx h) (Z.of_nat (length (p_cqes h)))); [|rewrite H3 in *; lia].
  eexists. split; [done|]. split_and!; try done.
  - split_and!; simpl; rewrite ?length_insert, ?H3; wrap_small; lia.
  - intros []. by constructor.
Qed.

(** One operation on a well-formed store. *)
Lemma ooo_exec_conserves op i :
  ooo_wf i -> op_ok (cid_base i) (max_num_archipelagos i) op ->
  exists i', ooo_exec op i = Some i' /\ ooo_wf i' /\ same_range i i' /\
    ooo_buffers i' ++ handed_out op (ooo_abs i) ≡ₚ ooo_buffers i ++ accepted (conn_idx i) op (ooo_abs i).
Proof.
  intros W H. destruct (ooo_exec_refines op i W H) as (i' & E & W' & A).
  exists i'. split; [done|]. split; [done|]. split; [by eapply ooo_exec_range|].
  rewrite !ooo_buffers_abs, A. apply sea_exec_perm. destruct op; try done. destruct H as [_ H].
  simpl. rewrite length_fmap. by apply (conn_idx_len i cid W).
Qed.

Lemma accepted_one conn op s b :
  match op with OpAddNewIsle _ _ b' | OpAddNewBuffer _ _ b' _ | OpPutFree b' | OpPutReady b' _ => b' = b | _ => False end ->
  accepted conn op s = [] \/ accepted conn op s = [b].
Proof.
  destruct op; simpl; try done; intros ->; auto; repeat case_match; auto.
Qed.

(** The buffer operations an event stands for. *)
Definition place_ops (op : ooo_opaque) (b : qed_ooo_buffer) : list ooo_op :=
  let cid := ooo_cid op in
  if ooo_opcode op =? TCP_EVENT_ADD_NEW_ISLE then [OpAddNewIsle cid (ooo_isle op) b]
  else if ooo_opcode op =? TCP_EVENT_ADD_ISLE_RIGHT then [OpAddNewBuffer cid (ooo_isle op) b QED_OOO_RIGHT_BUF]
  else if ooo_opcode op =? TCP_EVENT_ADD_ISLE_LEFT then [OpAddNewBuffer cid (ooo_isle op) b QED_OOO_LEFT_BUF]
  else if ooo_opcode op =? TCP_EVENT_JOIN then
    [OpAddNewBuffer cid (u8 (ooo_isle op + 1)) b QED_OOO_LEFT_BUF; OpJoinIsles cid (ooo_isle op)]
  else [OpPutReady b true].

Lemma place_buffer_ops op b i : place_buffer op b i = ooo_run (place_ops op b) i.
Proof.
  unfold place_buffer, place_ops.
  repeat (destruct (ooo_opcode op =? _); [by destruct (ooo_exec _ _) || (simpl; try (by destruct (qed_ooo_add_new_isle _ _ _ _)))|]); done.
Qed.

(** Placing one buffer: no fault, and the store grows by at most it. *)
Lemma place_buffer_spec op b i :
  ooo_wf i -> 0 <= ooo_isle op < 2 ^ 8 -> archipelago_idx i (ooo_cid op) < max_num_archipelagos i ->
  exists i', place_buffer op b i = Some i' /\ ooo_wf i' /\ same_range i i' /\
    (ooo_buffers i' ≡ₚ ooo_buffers i \/ ooo_buffers i' ≡ₚ b :: ooo_buffers i).
Proof.
  intros W Hi Hr. rewrite place_buffer_ops. unfold place_ops.
  assert (Hone : forall o, op_ok (cid_base i) (max_num_archipelagos i) o -> handed_out o (ooo_abs i) = [] ->
    match o with OpAddNewIsle _ _ b' | OpAddNewBuffer _ _ b' _ | OpPutFree b' | OpPutReady b' _ => b' = b | _ => False end ->
    exists i', ooo_run [o] i = Some i' /\ ooo_wf i' /\ same_range i i' /\
      (ooo_buffers i' ≡ₚ ooo_buffers i \/ ooo_buffers i' ≡ₚ b :: ooo_buffers i)).
  { intros o Ho Hh Hb. destruct (ooo_exec_conserves o i W Ho) as (i' & E & W' & R & P).
    exists i'. simpl. rewrite E. split_and!; try done. rewrite Hh, app_nil_r in P.
    destruct (accepted_one (conn_idx i) o (ooo_abs i) b Hb) as [E1|E1]; rewrite E1 in P;
      [left; by rewrite app_nil_r in P|right; by rewrite P, <- Permutation_cons_append]. }
  repeat (destruct (ooo_opcode op =? _); [try (by apply Hone)|]); [|by apply Hone].
  destruct (Hone (OpAddNewBuffer (ooo_cid op) (u8 (ooo_isle op + 1)) b QED_OOO_LEFT_BUF)) as (i1 & E1 & W1 & R1 & P1);
    [simpl; auto with qed|done|done|].
  simpl in E1. injection E1 as E1. simpl. rewrite E1.
  destruct (ooo_exec_conserves (OpJoinIsles (ooo_cid op) (ooo_isle op)) i1 W1) as (i2 & E2 & W2 & R2 & P2); [done|].
  simpl in E2, P2. injection E2 as E2. rewrite E2, !app_nil_r in *. exists i2.
  split_and!; try done; [by eapply same_range_trans|]. destruct P1 as [P1|P1]; [left|right]; by rewrite P2.
Qed.

Lemma delete_part_spec op i :
  ooo_wf i -> 0 <= drop_isle op < 2 ^ 8 ->
  let i' := if drop_size op =? 0 then i
            else qed_ooo_delete_isles (ooo_cid op) (drop_isle op) (drop_size op) i in
  ooo_wf i' /\ same_range i i' /\ ooo_buffers i' ≡ₚ ooo_buffers i.
Proof.
  intros W Hd. destruct (drop_size op =? 0); [done|].
  destruct (ooo_exec_conserves (OpDeleteIsles (ooo_cid op) (drop_isle op) (drop_size op)) i W Hd)
    as (i' & E & W' & R & P). injection E as E. simpl in P. rewrite !app_nil_r in P. simpl. by rewrite E.
Qed.

Definition rx_ok (s : ll2_rx) : Prop := ooo_wf (ooo_info s) /\ hist_ok (ooo_history (ooo_info s)).

(** A step of the handler that leaves fewer buffers or the same ones. *)
Record rx_step (s s' : ll2_rx) : Prop := {
  rs_ok : rx_ok s';
  rs_base : cid_base (ooo_info s') = cid_base (ooo_info s);
  rs_max : max_num_archipelagos (ooo_info s') = max_num_archipelagos (ooo_info s);
  rs_areas : buffer_areas s' ⊆+ buffer_areas s;
  rs_descs : Z.of_nat (length (active_descq s')) + free_descq s' = Z.of_nat (length (active_descq s)) + free_descq s
}.

Lemma rx_step_trans s1 s2 s3 : rx_step s1 s2 -> rx_step s2 s3 -> rx_step s1 s3.
Proof.
  intros [H1 H2 H3 H4 H5] [K1 K2 K3 K4 K5]. constructor; [done|congruence|congruence|by etrans|congruence].
Qed.

Lemma info_step s i' :
  rx_ok s -> ooo_wf i' -> same_range (ooo_info s) i' -> ooo_buffers i' ≡ₚ ooo_buffers (ooo_info s) ->
  rx_step s (s <| ooo_info := i' |>).
Proof.
  intros [W H] W' (R1 & R2 & R3) P. constructor; try done.
  - split; simpl; [done|by rewrite R3].
  - unfold buffer_areas. simpl. by rewrite P.
Qed.

Lemma save_step s op :
  rx_ok s -> exists i', qed_ooo_save_history_entry op (ooo_info s) = Some i' /\ rx_step s (s <| ooo_info := i' |>).
Proof.
  intros [W H]. destruct (save_history_spec op _ H) as (i' & E & H' & W' & A & R1 & R2). exists i'. split; [done|].
  constructor; try done.
  - split; simpl; auto.
  - unfold buffer_areas. simpl. by rewrite !ooo_buffers_abs, A.
Qed.

Lemma place_step s op b descq b' :
  rx_ok s -> active_descq s = b :: descq -> rx_buffer_virt_addr b' = rx_buffer_virt_addr b ->
  0 <= ooo_isle op < 2 ^ 8 -> archipelago_idx (ooo_info s) (ooo_cid op) < max_num_archipelagos (ooo_info s) ->
  exists i', place_buffer op b' (ooo_info s) = Some i' /\
    rx_step s (s <| active_descq := descq |> <| free_descq := free_descq s + 1 |> <| ooo_info := i' |>).
Proof.
  intros [W H] Ha Hb Hi Hr. destruct (place_buffer_spec op b' (ooo_info s) W Hi Hr) as (i' & E & W' & (R1 & R2 & R3) & P).
  exists i'. split; [done|]. constructor; try done.
  - split; simpl; [done|by rewrite R3].
  - unfold buffer_areas. simpl. rewrite Ha, !fmap_app. simpl. rewrite <- Hb.
    destruct P as [P|P]; rewrite P; [apply submseteq_cons; done|]. simpl. by rewrite <- Permutation_middle.
  - simpl. rewrite Ha. simpl. lia.
Qed.

Lemma lb_rxq_handler_step : forall cqes s,
  rx_ok s -> Forall (cqe_ok (cid_base (ooo_info s)) (max_num_archipelagos (ooo_info s))) cqes ->
  exists rc s', qed_ll2_lb_rxq_handler cqes s = Some (rc, s') /\ rx_step s s'.
Proof.
  assert (Hrefl : forall s, rx_ok s -> rx_step s s) by (intros s H; by constructor).
  induction cqes as [|c cqes IH]; intros s Hs Hc; [eexists _, _; split; [done|auto]|].
  inversion_clear Hc as [|? ? Hc1 Hcs]. pose proof (Hrefl s Hs) as Rs.
  assert (Hnext : forall s1, rx_step s s1 ->
    exists rc s', qed_ll2_lb_rxq_handler cqes s1 = Some (rc, s') /\ rx_step s s').
  { intros s1 R1. destruct (IH s1) as (rc & s' & E & R'); [apply R1|by rewrite (rs_base _ _ R1), (rs_max _ _ R1)|].
    exists rc, s'. split; [done|]. by eapply rx_step_trans. }
  destruct c as [fl op|poff pfl plen vl op|]; cbn [qed_ll2_lb_rxq_handler]; [|..|eexists _, _; split; [done|auto]].
  - unfold qed_ll2_lb_rxq_handler_slowpath.
    destruct (negb fl); [eauto|]. destruct (negb _); [eauto|]. apply Hnext.
    destruct (ooo_exec_conserves (OpReleaseConnection (ooo_cid op)) (ooo_info s)) as (i' & E & W' & R & P); [apply Hs|done|].
    injection E as E. simpl in P. rewrite !app_nil_r in P. rewrite E. by apply info_step.
  - destruct Hc1 as (Hd & Ho & Hr). destruct (save_step s op Hs) as (i1 & -> & R1). cbn [mbind option_bind].
    set (s1 := s <| ooo_info := i1 |>) in *.
    destruct (delete_part_spec op i1 (proj1 (rs_ok _ _ R1)) Hd) as (W2 & S2 & P2).
    set (i2 := if drop_size op =? 0 then i1 else _) in *.
    assert (R2 : rx_step s (s <| ooo_info := i2 |>)).
    { eapply rx_step_trans; [exact R1|]. apply (info_step s1 i2 (rs_ok _ _ R1) W2 S2 P2). }
    destruct (ooo_opcode op =? TCP_EVENT_NOP); [by apply Hnext|].
    destruct (active_descq (s <| ooo_info := i2 |>)) as [|b descq] eqn:Ea; [eauto|].
    destruct (is_place_event (ooo_opcode op)); [|by apply Hnext].
    set (b' := b <| packet_length := plen |> <| parse_flags := pfl |> <| vlan := vl |> <| placement_offset := poff |>).
    destruct (place_step (s <| ooo_info := i2 |>) op b descq b' (rs_ok _ _ R2) Ea eq_refl Ho) as (i3 & E3 & R3).
    + unfold archipelago_idx. rewrite (rs_base _ _ R2), (rs_max _ _ R2). done.
    + rewrite E3. cbn [mbind option_bind]. apply Hnext. by eapply rx_step_trans.
Qed.

(** ** Allocation *)

Lemma ooo_alloc_wf h kz i : qed_ooo_alloc h kz = (0, Some i) -> ooo_wf i /\ hist_ok (ooo_history i).
Proof.
  unfold qed_ooo_alloc. destruct (ooo_limits h) as [[n base]|] eqn:El; [|done].
  destruct (n =? 0); [done|]. destruct (negb _); [done|]. destruct (negb _); [done|].
  destruct (negb _); [done|]. destruct (negb _); [done|]. intros [= <-].
  assert (Hn : 0 <= n < 2 ^ 16).
  { unfold ooo_limits in El. destruct (personality h); try done; injection El as <- _; apply u16_bound. }
  assert (Hc : forall k, concat (replicate k []) =@{list nat} []) by (induction k; done).
  split.
  - constructor; cbn -[seq replicate]; rewrite ?Hc, ?app_nil_r, ?length_replicate.
    + by rewrite length_seq.
    + apply NoDup_ListNoDup, seq_NoDup.
    + intros x Hx. rewrite elem_of_seq in Hx. lia.
    + intros x Hx. unfold buffers_list. cbn -[replicate]. rewrite elem_of_seq in Hx. by rewrite lookup_replicate_2 by lia.
    + lia.
    + lia.
  - split_and!; cbn -[replicate]; rewrite ?length_replicate; unfold QED_MAX_NUM_OOO_HISTORY_ENTRIES; lia.
Qed.

(** ** The contract *)

Definition demo_hwfn : ooo_hwfn := mk_ooo_hwfn QED_PCI_ISCSI 2 0x100 0 0.
Definition demo_ooo : qed_ooo_info :=
  match qed_ooo_alloc demo_hwfn (mk_ooo_kzalloc true true true true) with
  | (_, Some i) => i
  | _ => mk_qed_ooo_info [] [] [] [] [] (mk_qed_ooo_history [] 0 0) 0 0 0 0 0
  end.
Definition demo_buf (v : Z) : qed_ooo_buffer := mk_qed_ooo_buffer v (0x70000000 + v) 2048 0 0 0 0.

Lemma demo_ooo_wf : ooo_wf demo_ooo /\ hist_ok (ooo_history demo_ooo).
Proof. apply (ooo_alloc_wf demo_hwfn (mk_ooo_kzalloc true true true true)). reflexivity. Qed.

(** C6: any sequence of store operations with byte-sized isle numbers and known
    connections runs without a bad access, keeps every isle on exactly one list,
    and does to the connections exactly what the same sequence does on plain
    lists of isles; in particular the second lookup of [qed_ooo_join_isles]
    always finds the left isle. *)
Theorem ooo_ops_refine_lists ops i :
  ooo_wf i -> Forall (op_ok (cid_base i) (max_num_archipelagos i)) ops ->
  exists i', ooo_run ops i = Some i' /\ ooo_wf i' /\ ooo_abs i' = sea_run (conn_idx i) ops (ooo_abs i).
Proof. apply ooo_run_refines. Qed.

Lemma ooo_ops_refine_lists_witness :
  exists i', ooo_run [OpAddNewIsle 0x101 1 (demo_buf 1); OpAddNewIsle 0x101 2 (demo_buf 3);
                      OpAddNewBuffer 0x101 2 (demo_buf 2) QED_OOO_LEFT_BUF; OpJoinIsles 0x101 1] demo_ooo = Some i' /\
    ooo_wf i' /\ sea_isles (ooo_abs i') 1 = [[demo_buf 1; demo_buf 2; demo_buf 3]].
Proof.
  destruct (ooo_ops_refine_lists [OpAddNewIsle 0x101 1 (demo_buf 1); OpAddNewIsle 0x101 2 (demo_buf 3);
                      OpAddNewBuffer 0x101 2 (demo_buf 2) QED_OOO_LEFT_BUF; OpJoinIsles 0x101 1] demo_ooo)
    as (i' & E & W & A); [exact (proj1 demo_ooo_wf)|repeat constructor; vm_compute; done|].
  exists i'. split; [exact E|]. split; [exact W|]. rewrite A. vm_compute. reflexivity.
Defined.

(** C25: on any list of completions from the firmware the loopback handler
    finishes without a bad access (return code 0, -EINVAL or -EIO as the code
    has it), keeps the store well formed, and never duplicates or invents a
    buffer: the areas of the posted and stored buffers afterwards are among
    those before, and no receive descriptor is lost. *)
Theorem lb_rxq_handler_safe cqes s :
  ooo_wf (ooo_info s) -> hist_ok (ooo_history (ooo_info s)) ->
  Forall (cqe_ok (cid_base (ooo_info s)) (max_num_archipelagos (ooo_info s))) cqes ->
  exists rc s', qed_ll2_lb_rxq_handler cqes s = Some (rc, s') /\
    ooo_wf (ooo_info s') /\ hist_ok (ooo_history (ooo_info s')) /\
    buffer_areas s' ⊆+ buffer_areas s /\
    Z.of_nat (length (active_descq s')) + free_descq s' = Z.of_nat (length (active_descq s)) + free_descq s.
Proof.
  intros W H Hc. destruct (lb_rxq_handler_step cqes s (conj W H) Hc) as (rc & s' & E & [[W' H'] _ _ Ha Hd]). eauto 10.
Qed.

Lemma lb_rxq_handler_safe_witness :
  exists rc s', qed_ll2_lb_rxq_handler
      [CORE_RX_CQE_TYPE_REGULAR 2 0 1500 0 (mk_ooo_opaque 0x100 0 0 TCP_EVENT_ADD_NEW_ISLE 1);
       CORE_RX_CQE_TYPE_REGULAR 2 0 1500 0 (mk_ooo_opaque 0x100 0 0 TCP_EVENT_JOIN 0)]
      (mk_ll2_rx [demo_buf 7; demo_buf 8] 0 demo_ooo) = Some (rc, s') /\
    ooo_wf (ooo_info s') /\ hist_ok (ooo_history (ooo_info s')) /\
    buffer_areas s' ⊆+ [7; 8] /\ Z.of_nat (length (active_descq s')) + free_descq s' = 2.
Proof.
  apply (lb_rxq_handler_safe _ (mk_ll2_rx [demo_buf 7; demo_buf 8] 0 demo_ooo));
    [exact (proj1 demo_ooo_wf)|exact (proj2 demo_ooo_wf)|repeat constructor; vm_compute; (done || discriminate)].
Defined.

(** C24: no store operation loses or duplicates a buffer: the buffers held
    afterwards, with the one handed out, are those held before, with the one
    accepted.  A buffer is accepted unless the event names a missing isle, an
    unknown connection or the pool of isles is empty. *)
Theorem ooo_buffers_conserved op i :
  ooo_wf i -> op_ok (cid_base i) (max_num_archipelagos i) op ->
  exists i', ooo_exec op i = Some i' /\
    ooo_buffers i' ++ handed_out op (ooo_abs i) ≡ₚ ooo_buffers i ++ accepted (conn_idx i) op (ooo_abs i).
Proof. intros W H. destruct (ooo_exec_conserves op i W H) as (i' & E & _ & _ & P). eauto. Qed.

Lemma ooo_buffers_conserved_witness :
  exists i', ooo_exec (OpAddNewIsle 0x100 1 (demo_buf 5)) demo_ooo = Some i' /\
    ooo_buffers i' ++ [] ≡ₚ [demo_buf 5].
Proof.
  apply (ooo_buffers_conserved (OpAddNewIsle 0x100 1 (demo_buf 5)) demo_ooo (proj1 demo_ooo_wf)).
  vm_compute. (split; [split|]); done || discriminate.
Defined.

(** Joining isles keeps the order of the stream: the ready buffers followed
    by the isles of the connection, left to right, read the same before and
    after; only a join with the in-order part (left isle 0) makes buffers
    ready. *)
Theorem ooo_join_keeps_stream_order i cid left :
  ooo_wf i -> 0 <= left < 2 ^ 8 ->
  let i' := qed_ooo_join_isles cid left i in
  ready_buffers_list i' ++ concat (conn_isles i' cid) = ready_buffers_list i ++ concat (conn_isles i cid) /\
  (0 < left -> ready_buffers_list i' = ready_buffers_list i).
Proof.
  intros W Hl. destruct (join_isles_refines i cid left W Hl) as [W' A]. simpl.
  pose proof (ooo_exec_range (OpJoinIsles cid left) i _ eq_refl) as R.
  destruct (sea_join_stream (ooo_abs i) (conn_idx i cid) (Z.to_nat left)) as [H1 H2].
  rewrite <- A, !sea_isles_abs in H1. unfold conn_isles. rewrite (conn_idx_range _ _ R).
  split; [exact H1|]. intros Hp. rewrite <- A in H2. apply H2. lia.
Qed.

Definition demo_ooo2 : qed_ooo_info :=
  default demo_ooo (ooo_run [OpAddNewIsle 0x100 1 (demo_buf 1); OpAddNewIsle 0x100 2 (demo_buf 2)] demo_ooo).

Lemma demo_ooo2_wf : ooo_wf demo_ooo2.
Proof.
  destruct (ooo_run_refines [OpAddNewIsle 0x100 1 (demo_buf 1); OpAddNewIsle 0x100 2 (demo_buf 2)] demo_ooo)
    as (i' & E & W & _); [exact (proj1 demo_ooo_wf)|repeat constructor; vm_compute; done|].
  unfold demo_ooo2. by rewrite E.
Qed.

Lemma ooo_join_keeps_stream_order_witness :
  ready_buffers_list (qed_ooo_join_isles 0x100 0 demo_ooo2) ++
    concat (conn_isles (qed_ooo_join_isles 0x100 0 demo_ooo2) 0x100) = [demo_buf 1; demo_buf 2].
Proof.
  refine (eq_trans (proj1 (ooo_join_keeps_stream_order demo_ooo2 0x100 0 demo_ooo2_wf _)) _);
    [split; [discriminate|reflexivity]|vm_compute; reflexivity].
Defined.

(** After the first [n] connections were released their isle lists are empty. *)
Lemma sea_release_first_empty s n :
  (n <= length (conns s))%nat ->
  let s' := fold_left (fun s a => sea_release a s) (seq 0 n) s in
  length (conns s') = length (conns s) /\ forall a, (a < n)%nat -> conns s' !! a = Some [].
Proof.
  induction n as [|n IH]; intros Hn; [split; [done|lia]|]. rewrite seq_S, fold_left_app. simpl.
  destruct IH as [Hl He]; [lia|]. rewrite length_insert. split; [done|]. intros a Ha.
  destruct (decide (a = n)) as [->|Hne]; [by rewrite list_lookup_insert_eq by (rewrite Hl; lia)|].
  rewrite list_lookup_insert_ne by done. apply He. lia.
Qed.

Lemma all_empty_concat {A} (ls : list (list A)) :
  (forall a, (a < length ls)%nat -> ls !! a = Some []) -> concat ls = [].
Proof.
  induction ls as [|l ls IH]; intros H; [done|]. simpl. pose proof (H 0%nat ltac:(simpl; lia)) as [= ->].
  apply IH. intros a Ha. apply (H (S a)). simpl. lia.
Qed.

(** [qed_ooo_release_all_isles] leaves no isle on any connection and no
    buffer ready: every isle is back in the pool and every buffer is free. *)
Theorem ooo_release_all_returns_everything i :
  ooo_wf i ->
  let i' := qed_ooo_release_all_isles i in
  concat (p_archipelagos_mem i') = [] /\ length (free_isles_list i') = length (p_isles_mem i') /\
  ready_buffers_list i' = [] /\ free_buffers_list i' ≡ₚ ooo_buffers i.
Proof.
  intros W. destruct (ooo_exec_conserves OpReleaseAll i W I) as (i1 & E & W' & _ & P).
  injection E as <-. simpl in P. rewrite !app_nil_r in P.
  destruct (release_all_refines i W) as [_ A].
  destruct (sea_release_first_empty (ooo_abs i) _ (Nat.le_refl _)) as [Hl He].
  assert (Hc : concat (p_archipelagos_mem (qed_ooo_release_all_isles i)) = []).
  { apply all_empty_concat. intros a Ha.
    assert (Hcs : conns (ooo_abs (qed_ooo_release_all_isles i)) = conns (fold_left (fun s a => sea_release a s)
              (seq 0 (length (conns (ooo_abs i)))) (ooo_abs i))) by (rewrite A; done).
    cbn [conns ooo_abs] in Hcs.
    assert (Hlen : length (p_archipelagos_mem (qed_ooo_release_all_isles i)) = length (conns (ooo_abs i)))
      by (rewrite <- Hl; cbn [conns ooo_abs]; rewrite <- Hcs; by rewrite length_fmap).
    assert (Ha' : (a < length (conns (ooo_abs i)))%nat) by (rewrite <- Hlen; exact Ha).
    pose proof (He a Ha') as Hea. cbn [conns ooo_abs] in Hea. rewrite <- Hcs, list_lookup_fmap in Hea.
    destruct (p_archipelagos_mem (qed_ooo_release_all_isles i) !! a) as [l|]; [|done]. simpl in Hea.
    injection Hea as Hea. by apply fmap_nil_inv in Hea as ->. }
  simpl. split_and!; [done| |done|].
  - pose proof (w_all _ W') as Hw. by rewrite Hc, app_nil_r in Hw.
  - rewrite <- P. unfold ooo_buffers. rewrite Hc. simpl. by rewrite app_nil_r.
Qed.

Lemma ooo_release_all_returns_everything_witness :
  length (free_isles_list (qed_ooo_release_all_isles demo_ooo2)) = 258%nat.
Proof.
  refine (eq_trans (proj1 (proj2 (ooo_release_all_returns_everything demo_ooo2 demo_ooo2_wf))) _).
  vm_compute. reflexivity.
Defined.

(** ** Limits *)

(** An event that opens isle 1 of a connection outside the range of the
    store makes [qed_ooo_add_new_isle] link the isle outside
    [p_archipelagos_mem]: the bound checked by the lookup is not checked when the
    lookup fails. *)
Theorem ooo_new_isle_unknown_connection_faults i cid b :
  ooo_wf i -> free_isles_list i <> [] -> max_num_archipelagos i <= archipelago_idx i cid ->
  qed_ooo_add_new_isle cid 1 b i = None.
Proof.
  intros W Hf Hr. unfold qed_ooo_add_new_isle, qed_ooo_seek_archipelago. simpl.
  destruct (Z.leb_spec (max_num_archipelagos i) (archipelago_idx i cid)); [|lia].
  unfold add_isle_at. destruct (free_isles_list i) as [|x l]; [done|].
  pose proof (w_len _ W). unfold archipelago_idx in *. simpl.
  by destruct (Z.leb_spec (Z.of_nat (length (p_archipelagos_mem i))) (u32 (Z.land cid 65535 - cid_base i))); [|lia].
Qed.

Lemma ooo_new_isle_unknown_connection_faults_witness :
  qed_ooo_add_new_isle 0x102 1 (demo_buf 1) demo_ooo = None.
Proof.
  apply (ooo_new_isle_unknown_connection_faults demo_ooo 0x102 (demo_buf 1));
    [exact (proj1 demo_ooo_wf)|vm_compute; discriminate|vm_compute; discriminate].
Defined.

(** The flush of a connection returns its isles to the pool without
    decrementing the count of isles in use, so the count drifts away from the
    number of isles: here it stays 2 with every isle in the pool. *)
Theorem ooo_release_keeps_isle_count :
  let i := qed_ooo_release_connection_isles 0x100 demo_ooo2 in
  cur_isles_number i = 2 /\ length (concat (p_archipelagos_mem i)) = 0%nat.
Proof. vm_compute. done. Qed.
