(* ===== verification/Ptt.v ===== *)
(** * Register access through PTT windows (qed_hw.c)

    The function's BAR has a few 4 KB windows onto the device's 32-bit register
    space (GRC).  An entry of the admin area says where a window points and on
    behalf of which function ("pretend") it accesses.  The driver caches these
    entries in a pool of [struct qed_ptt] and moves a window only when an
    address falls outside it.

    The device itself is not part of the repository.  It is an instance of
    [PxpDevice], with its documented behaviour in [PxpDeviceLaws]; the
    theorems hold of every device that satisfies them, and [sim_device] is
    one. *)

From S2P Require Import Prelude.

Definition PXP_NUM_PF_WINDOWS : Z := 12.
Definition PXP_EXTERNAL_BAR_PF_WINDOW_NUM : Z := PXP_NUM_PF_WINDOWS.
Definition PXP_EXTERNAL_BAR_PF_WINDOW_START : Z := 0x1000.
Definition PXP_EXTERNAL_BAR_PF_WINDOW_SINGLE_SIZE : Z := 0x1000.
Definition PXP_PF_WINDOW_ADMIN_PER_PF_START : Z := 0.
Definition PXP_PER_PF_ENTRY_SIZE : Z := 8.      (* sizeof(struct pxp_ptt_entry) *)
Definition offsetof_offset : Z := 0.
Definition offsetof_pretend : Z := 4.
Definition QED_BAR_ACQUIRE_TIMEOUT : nat := 1000%nat.
Definition QED_BAR_INVALID_OFFSET : Z := 0xffffffff.
Definition RESERVED_PTT_MAX : Z := 4.
Definition GRC_REG_TRACE_FIFO_VALID_DATA : Z := 0x050064.

(** ** The device *)

(** On whose behalf a window accesses the chip: a function id and, when the
    port is pretended too, a port. *)
Record view := mk_view { v_fid : Z; v_port : option Z }.

#[export] Instance view_eq_dec : EqDecision view.
Proof. solve_decision. Defined.

Class PxpDevice (D : Type) := {
  reg_wr : Z -> Z -> D -> D;       (* REG_WR: BAR offset, value *)
  reg_rd : Z -> D -> Z;            (* REG_RD *)
  dev_win : D -> Z -> Z;           (* where a window points, in dwords *)
  dev_view : D -> Z -> view;       (* on whose behalf it accesses *)
  dev_plain : Z -> Prop;           (* the addresses of plain storage registers *)
  dev_fits : Z -> Z -> Prop;       (* a value fits the width of a register *)
  dev_copy : Z -> view -> Z;       (* which copy of a register a view reaches *)
  dev_reg : D -> Z -> Z -> Z       (* contents of a copy of a register *)
}.

(** [PXP_PTT_ENTRY_OFFSET]: the offset field of an admin entry has 23 bits. *)
Definition PXP_PTT_ENTRY_OFFSET_MASK : Z := 0x7FFFFF.
Definition is_window (i : Z) : Prop := 0 <= i < PXP_NUM_PF_WINDOWS.
Definition win_offset (o : Z) : Prop := 0 <= o < PXP_EXTERNAL_BAR_PF_WINDOW_SINGLE_SIZE /\ o mod 4 = 0.
Definition win_addr (i o : Z) : Z :=
  PXP_EXTERNAL_BAR_PF_WINDOW_START + i * PXP_EXTERNAL_BAR_PF_WINDOW_SINGLE_SIZE + o.
Definition admin_addr (i : Z) : Z := PXP_PF_WINDOW_ADMIN_PER_PF_START + i * PXP_PER_PF_ENTRY_SIZE.

(** A pretend command for a concrete function and for the port: bits
    IS_CONCRETE, PRETEND_FUNCTION and PRETEND_PORT of the control halfword.
    Such a command replaces whatever the window pretended before. *)
Definition pretend_all (w : Z) : bool := Z.testbit w 31 && Z.testbit w 30 && Z.testbit w 29.
Definition pretend_view (w : Z) : view :=
  mk_view (w mod 2 ^ 16) (if Z.testbit w 17 then Some (Z.land (Z.shiftr w 18) 3) else None).

Class PxpDeviceLaws (D : Type) `{PxpDevice D} : Prop := {
  law_set_win d i v j : is_window i -> 0 <= v <= PXP_PTT_ENTRY_OFFSET_MASK ->
    dev_win (reg_wr (admin_addr i + offsetof_offset) v d) j = if decide (j = i) then v else dev_win d j;
  law_set_win_frame d i v : is_window i ->
    dev_view (reg_wr (admin_addr i + offsetof_offset) v d) = dev_view d /\
    dev_reg (reg_wr (admin_addr i + offsetof_offset) v d) = dev_reg d;
  law_pretend d i w j : is_window i -> 0 <= w < 2 ^ 32 -> pretend_all w = true ->
    dev_view (reg_wr (admin_addr i + offsetof_pretend) w d) j =
    if decide (j = i) then pretend_view w else dev_view d j;
  law_pretend_frame d i w : is_window i ->
    dev_win (reg_wr (admin_addr i + offsetof_pretend) w d) = dev_win d /\
    dev_reg (reg_wr (admin_addr i + offsetof_pretend) w d) = dev_reg d;
  law_write d i o v c a : is_window i -> win_offset o ->
    dev_plain (4 * dev_win d i + o) -> dev_fits (4 * dev_win d i + o) v ->
    dev_reg (reg_wr (win_addr i o) v d) c a =
    if decide (a = 4 * dev_win d i + o /\ c = dev_copy a (dev_view d i)) then v else dev_reg d c a;
  law_write_frame d i o v : is_window i -> win_offset o -> dev_plain (4 * dev_win d i + o) ->
    dev_win (reg_wr (win_addr i o) v d) = dev_win d /\
    dev_view (reg_wr (win_addr i o) v d) = dev_view d;
  law_read d i o : is_window i -> win_offset o -> dev_plain (4 * dev_win d i + o) ->
    reg_rd (win_addr i o) d =
    dev_reg d (dev_copy (4 * dev_win d i + o) (dev_view d i)) (4 * dev_win d i + o)
}.

(** ** The PTT pool *)

Record qed_ptt := mk_qed_ptt {
  ptt_idx : Z;
  pxp_offset : Z;             (* pxp.offset *)
  pretend_control : Z;        (* pxp.pretend.control *)
  pretend_fid : Z;            (* pxp.pretend.fid *)
  ptt_hwfn_id : Z
}.
#[export] Instance eta_qed_ptt : Settable qed_ptt := fun r =>
  mk_qed_ptt (ptt_idx r) (pxp_offset r) (pretend_control r) (pretend_fid r) (ptt_hwfn_id r).

Record qed_ptt_pool := mk_qed_ptt_pool {
  free_list : list nat;
  ptts : list qed_ptt
}.
#[export] Instance eta_qed_ptt_pool : Settable qed_ptt_pool := fun r =>
  mk_qed_ptt_pool (free_list r) (ptts r).

(** [__qed_ptt_pool_free]. *)
Definition qed_ptt_pool_free (p : option qed_ptt_pool) : option qed_ptt_pool := None.

(** [qed_ptt_pool_alloc]: the garbage of [kmalloc] in the fields that are not
    initialised is [fid0]. *)
Definition qed_ptt_pool_alloc (kmalloc_ok : bool) (my_id fid0 : Z) : Z * option qed_ptt_pool :=
  if negb kmalloc_ok then (- ENOMEM, None) else
  let n := Z.to_nat PXP_EXTERNAL_BAR_PF_WINDOW_NUM in
  (0, Some {|
    ptts := (fun i => mk_qed_ptt (Z.of_nat i) QED_BAR_INVALID_OFFSET 0 fid0 my_id) <$> seq 0 n;
    free_list := rev (filter (fun i => RESERVED_PTT_MAX <= Z.of_nat i) (seq 0 n))
  |}).

Definition qed_ptt_invalidate (p : qed_ptt_pool) : qed_ptt_pool :=
  p <| ptts := (fun t => t <| pxp_offset := QED_BAR_INVALID_OFFSET |>) <$> ptts p |>.

(** [qed_ptt_acquire].  Between two tries other threads may run: [world n] is
    the free list they leave before try [n].  The result is the index of the
    entry, or NULL after the timeout. *)
Fixpoint ptt_acquire_loop (fuel : nat) (world : nat -> list nat -> list nat) (n : nat) (p : qed_ptt_pool)
    : option nat * qed_ptt_pool :=
  match fuel with
  | O => (None, p)
  | S fuel' =>
      let p := p <| free_list := world n (free_list p) |> in
      match free_list p with
      | i :: rest => (Some i, p <| free_list := rest |>)
      | [] => ptt_acquire_loop fuel' world (S n) p
      end
  end.

Definition qed_ptt_acquire (world : nat -> list nat -> list nat) (p : option qed_ptt_pool)
    : option nat * option qed_ptt_pool :=
  match p with
  | None => (None, None)
  | Some p => let '(r, p) := ptt_acquire_loop QED_BAR_ACQUIRE_TIMEOUT world 0 p in (r, Some p)
  end.

Definition qed_ptt_release (i : nat) (p : qed_ptt_pool) : qed_ptt_pool :=
  p <| free_list := i :: free_list p |>.

Definition qed_get_reserved_ptt (p : qed_ptt_pool) (ptt_idx : Z) : option qed_ptt :=
  if (RESERVED_PTT_MAX <=? ptt_idx) || (ptt_idx <? 0) then None else ptts p !! Z.to_nat ptt_idx.

Definition qed_ptt_get_hw_addr (t : qed_ptt) : Z := u32 (Z.shiftl (pxp_offset t) 2).
Definition qed_ptt_config_addr (t : qed_ptt) : Z := admin_addr (ptt_idx t).
Definition qed_ptt_get_bar_addr (t : qed_ptt) : Z :=
  PXP_EXTERNAL_BAR_PF_WINDOW_START + ptt_idx t * PXP_EXTERNAL_BAR_PF_WINDOW_SINGLE_SIZE.

(** ** Register accesses *)

Section Access.
  Context {D : Type} `{PxpDevice D}.

Definition qed_ptt_set_win (new_hw_addr : Z) (t : qed_ptt) (d : D) : qed_ptt * D :=
  if new_hw_addr =? qed_ptt_get_hw_addr t then (t, d) else
  let t := t <| pxp_offset := Z.shiftr new_hw_addr 2 |> in
  (t, reg_wr (qed_ptt_config_addr t + offsetof_offset) (pxp_offset t) d).

Definition qed_set_ptt (hw_addr : Z) (t : qed_ptt) (d : D) : Z * qed_ptt * D :=
  let win_hw_addr := qed_ptt_get_hw_addr t in
  let offset := u32 (hw_addr - win_hw_addr) in
  if (hw_addr <? win_hw_addr) || (PXP_EXTERNAL_BAR_PF_WINDOW_SINGLE_SIZE <=? offset)
  then let '(t, d) := qed_ptt_set_win hw_addr t d in (qed_ptt_get_bar_addr t + 0, t, d)
  else (qed_ptt_get_bar_addr t + offset, t, d).

(** The check of the register FIFO moves the window when it is enabled. *)
Definition qed_is_reg_fifo_empty (chk_reg_fifo : bool) (t : qed_ptt) (d : D) : bool * qed_ptt * D :=
  if negb chk_reg_fifo then (true, t, d) else
  let '(bar_addr, t, d) := qed_set_ptt GRC_REG_TRACE_FIFO_VALID_DATA t d in
  (reg_rd bar_addr d =? 0, t, d).

(** [qed_wr]; the second check runs only if the first found the FIFO empty. *)
Definition qed_wr (chk : bool) (hw_addr val : Z) (t : qed_ptt) (d : D) : qed_ptt * D :=
  let '(prev_empty, t, d) := qed_is_reg_fifo_empty chk t d in
  let '(bar_addr, t, d) := qed_set_ptt hw_addr t d in
  let d := reg_wr bar_addr val d in
  if prev_empty then let '(_, t, d) := qed_is_reg_fifo_empty chk t d in (t, d) else (t, d).

Definition qed_rd (chk : bool) (hw_addr : Z) (t : qed_ptt) (d : D) : Z * qed_ptt * D :=
  let '(prev_empty, t, d) := qed_is_reg_fifo_empty chk t d in
  let '(bar_addr, t, d) := qed_set_ptt hw_addr t d in
  let val := reg_rd bar_addr d in
  if prev_empty then let '(_, t, d) := qed_is_reg_fifo_empty chk t d in (val, t, d) else (val, t, d).

(** ** Block copies *)

Inductive memcpy_action := TO_DEVICE | FROM_DEVICE | MEMZERO_DEVICE.

Fixpoint reg_wr_seq (bar : Z) (ws : list Z) (d : D) : D :=
  match ws with
  | [] => d
  | w :: ws => reg_wr_seq (bar + 4) ws (reg_wr bar w d)
  end.

Fixpoint reg_rd_seq (bar : Z) (n : nat) (d : D) : list Z :=
  match n with
  | O => []
  | S n => reg_rd bar d :: reg_rd_seq (bar + 4) n d
  end.

(** Overwriting part of the host buffer. *)
Definition host_store (k : nat) (ws host : list Z) : list Z :=
  take k host ++ ws ++ drop (k + length ws) host.

(** The loop of [qed_memcpy_hw]; the host buffer is a list of dwords and an
    access outside it is a fault. *)
Fixpoint memcpy_loop (fuel : nat) (is_pf : bool) (action : memcpy_action) (hw_addr n done : Z)
    (host : list Z) (t : qed_ptt) (d : D) : option (list Z * qed_ptt * D) :=
  if n <=? done then Some (host, t, d) else
  match fuel with
  | O => None
  | S fuel' =>
      let quota := Z.min (n - done) PXP_EXTERNAL_BAR_PF_WINDOW_SINGLE_SIZE in
      let '(hw_offset, t, d) :=
        if is_pf
        then let '(t, d) := qed_ptt_set_win (u32 (hw_addr + done)) t d in (qed_ptt_get_bar_addr t, t, d)
        else (u32 (hw_addr + done), t, d) in
      let dw_count := Z.to_nat (quota / 4) in
      let k := Z.to_nat (done / 4) in
      match action with
      | TO_DEVICE =>
          if (length host <? k + dw_count)%nat then None else
          memcpy_loop fuel' is_pf action hw_addr n (done + quota) host t
            (reg_wr_seq hw_offset (take dw_count (drop k host)) d)
      | FROM_DEVICE =>
          if (length host <? k + dw_count)%nat then None else
          memcpy_loop fuel' is_pf action hw_addr n (done + quota)
            (host_store k (reg_rd_seq hw_offset dw_count d) host) t d
      | MEMZERO_DEVICE =>
          memcpy_loop fuel' is_pf action hw_addr n (done + quota) host t
            (reg_wr_seq hw_offset (replicate dw_count 0) d)
      end
  end.

(** One iteration per window, and one for the rest. *)
Definition memcpy_fuel (n : Z) : nat :=
  Z.to_nat (n / PXP_EXTERNAL_BAR_PF_WINDOW_SINGLE_SIZE + 1).

Definition qed_memcpy_hw (is_pf : bool) (action : memcpy_action) (addr : option (list Z)) (hw_addr n : Z)
    (t : qed_ptt) (d : D) : option (option (list Z) * qed_ptt * D) :=
  match addr, action with
  | None, (TO_DEVICE | FROM_DEVICE) => Some (addr, t, d)
  | None, MEMZERO_DEVICE =>
      '(_, t, d) ← memcpy_loop (memcpy_fuel n) is_pf action hw_addr n 0 [] t d; Some (None, t, d)
  | Some host, _ =>
      '(host, t, d) ← memcpy_loop (memcpy_fuel n) is_pf action hw_addr n 0 host t d; Some (Some host, t, d)
  end.

Definition qed_memcpy_to (is_pf : bool) (hw_addr : Z) (src : option (list Z)) (n : Z) (t : qed_ptt) (d : D)
    : option (qed_ptt * D) :=
  '(_, t, d) ← qed_memcpy_hw is_pf TO_DEVICE src hw_addr n t d; Some (t, d).
Definition qed_memcpy_from (is_pf : bool) (dest : option (list Z)) (hw_addr n : Z) (t : qed_ptt) (d : D)
    : option (option (list Z) * qed_ptt * D) :=
  qed_memcpy_hw is_pf FROM_DEVICE dest hw_addr n t d.
Definition qed_memzero_hw (is_pf : bool) (hw_addr n : Z) (t : qed_ptt) (d : D) : option (qed_ptt * D) :=
  '(_, t, d) ← qed_memcpy_hw is_pf MEMZERO_DEVICE None hw_addr n t d; Some (t, d).

(** ** Pretending to be another function *)

(** [SET_FIELD(value, mask, shift, flag)] on a 16-bit value and [GET_FIELD]. *)
Definition SET_FIELD16 (value mask shift flag : Z) : Z :=
  u16 (Z.lor (Z.land value (Z.lnot (Z.shiftl mask shift))) (Z.shiftl (Z.land flag mask) shift)).
Definition GET_FIELD (value mask shift : Z) : Z := Z.land (Z.shiftr value shift) mask.

Definition ctl_port (v c : Z) : Z := SET_FIELD16 c 0x3 2 v.              (* PXP_PRETEND_CMD_PORT *)
Definition ctl_use_port (v c : Z) : Z := SET_FIELD16 c 0x1 1 v.          (* PXP_PRETEND_CMD_USE_PORT *)
Definition ctl_pretend_port (v c : Z) : Z := SET_FIELD16 c 0x1 13 v.     (* PXP_PRETEND_CMD_PRETEND_PORT *)
Definition ctl_pretend_function (v c : Z) : Z := SET_FIELD16 c 0x1 14 v. (* PXP_PRETEND_CMD_PRETEND_FUNCTION *)
Definition ctl_is_concrete (v c : Z) : Z := SET_FIELD16 c 0x1 15 v.      (* PXP_PRETEND_CMD_IS_CONCRETE *)

(** The pretend command as the 32-bit word written to the admin window: the
    function id, then the control halfword. *)
Definition pretend_word (t : qed_ptt) : Z := pretend_fid t + Z.shiftl (pretend_control t) 16.

Definition write_pretend (t : qed_ptt) (d : D) : qed_ptt * D :=
  (t, reg_wr (qed_ptt_config_addr t + offsetof_pretend) (pretend_word t) d).

(** [PXP_CONCRETE_FID_VFVALID] and [PXP_CONCRETE_FID_PFID] of a function id. *)
Definition concrete_fid (fid : Z) : Z :=
  if GET_FIELD fid 0x1 7 =? 0 then GET_FIELD fid 0xf 0 else fid.

Definition qed_fid_pretend (fid : Z) (t : qed_ptt) (d : D) : qed_ptt * D :=
  let control := ctl_pretend_port 1 (ctl_use_port 0 (ctl_port 0
                   (ctl_pretend_function 1 (ctl_is_concrete 1 0)))) in
  write_pretend (t <| pretend_control := control |> <| pretend_fid := concrete_fid fid |>) d.

Definition qed_port_pretend (port_id : Z) (t : qed_ptt) (d : D) : qed_ptt * D :=
  let control := ctl_pretend_port 1 (ctl_use_port 1 (ctl_port port_id 0)) in
  write_pretend (t <| pretend_control := control |>) d.

Definition qed_port_unpretend (t : qed_ptt) (d : D) : qed_ptt * D :=
  let control := ctl_pretend_port 1 (ctl_use_port 0 (ctl_port 0 0)) in
  write_pretend (t <| pretend_control := control |>) d.

Definition qed_port_fid_pretend (port_id fid : Z) (t : qed_ptt) (d : D) : qed_ptt * D :=
  let control := ctl_pretend_function 1 (ctl_is_concrete 1
                   (ctl_pretend_port 1 (ctl_use_port 1 (ctl_port port_id 0)))) in
  write_pretend (t <| pretend_control := control |> <| pretend_fid := concrete_fid fid |>) d.

(** [FIELD_VALUE(PXP_PRETEND_CONCRETE_FID_PFID, pfid)]. *)
Definition pfid_field (pfid : Z) : Z := Z.shiftl (Z.land pfid 0xf) 0.

Definition qed_ppfid_wr (chk : bool) (rel_pf_id pfid hw_addr val : Z) (t : qed_ptt) (d : D) : qed_ptt * D :=
  let '(t, d) := qed_fid_pretend (pfid_field pfid) t d in
  let '(t, d) := qed_wr chk hw_addr val t d in
  qed_fid_pretend (pfid_field rel_pf_id) t d.

Definition qed_ppfid_rd (chk : bool) (rel_pf_id pfid hw_addr : Z) (t : qed_ptt) (d : D) : Z * qed_ptt * D :=
  let '(t, d) := qed_fid_pretend (pfid_field pfid) t d in
  let '(val, t, d) := qed_rd chk hw_addr t d in
  let '(t, d) := qed_fid_pretend (pfid_field rel_pf_id) t d in
  (val, t, d).
End Access.
