(* ===== verification/PttProps.v ===== *)
(** * Register accesses reach exactly the register they name

    Theorems on qed_hw.c: the cached window positions agree with the device,
    so that a register access through any PTT entry reads or writes exactly
    the register of the function on whose behalf the entry accesses; block
    copies across windows; the pretended accesses of [qed_ppfid_wr] and
    [qed_ppfid_rd]; the pool of entries. *)

From S2P Require Import Prelude Ptt.

(** An address of a register: a multiple of four in the range of an entry. *)
Definition grc_addr (a : Z) : Prop := 0 <= a < 4 * (PXP_PTT_ENTRY_OFFSET_MASK + 1) /\ a mod 4 = 0.

Section Windows.
  Context {D : Type} `{PxpDevice D} `{!PxpDeviceLaws D}.

(** The cached position of a window is the device's, or is marked invalid. *)
Definition coherent (t : qed_ptt) (d : D) : Prop :=
  is_window (ptt_idx t) /\
  (pxp_offset t = QED_BAR_INVALID_OFFSET \/
   0 <= pxp_offset t <= PXP_PTT_ENTRY_OFFSET_MASK /\ dev_win d (ptt_idx t) = pxp_offset t).

(** What a move of the window of [t] leaves alone. *)
Record moved (t : qed_ptt) (d : D) (t' : qed_ptt) (d' : D) : Prop := {
  mv_idx : ptt_idx t' = ptt_idx t;
  mv_coherent : coherent t' d';
  mv_view : dev_view d' = dev_view d;
  mv_reg : dev_reg d' = dev_reg d;
  mv_win j : j <> ptt_idx t -> dev_win d' j = dev_win d j
}.

Lemma moved_refl t d : coherent t d -> moved t d t d.
Proof. by constructor. Qed.

Lemma moved_trans t1 d1 t2 d2 t3 d3 : moved t1 d1 t2 d2 -> moved t2 d2 t3 d3 -> moved t1 d1 t3 d3.
Proof.
  intros [I1 C1 V1 R1 W1] [I2 C2 V2 R2 W2]; constructor; try congruence.
  intros j Hj; rewrite W2 by congruence; auto.
Qed.

Lemma get_hw_addr_valid t :
  0 <= pxp_offset t <= PXP_PTT_ENTRY_OFFSET_MASK -> qed_ptt_get_hw_addr t = 4 * pxp_offset t.
Proof.
  unfold PXP_PTT_ENTRY_OFFSET_MASK, qed_ptt_get_hw_addr, u32; intros.
  rewrite Z.shiftl_mul_pow2, Z.mod_small; lia.
Qed.

Lemma get_hw_addr_invalid t :
  pxp_offset t = QED_BAR_INVALID_OFFSET -> qed_ptt_get_hw_addr t = 0xFFFFFFFC.
Proof. intros E; unfold qed_ptt_get_hw_addr; by rewrite E. Qed.

(** [qed_ptt_set_win] points the window at the address. *)
Lemma set_win_spec a t d t' d' :
  coherent t d -> grc_addr a -> qed_ptt_set_win a t d = (t', d') ->
  moved t d t' d' /\ 4 * dev_win d' (ptt_idx t') = a.
Proof.
  intros [Hw Hc] [Ha Hm] E; unfold qed_ptt_set_win in E.
  assert (Hs : Z.shiftr a 2 = a / 4) by (rewrite Z.shiftr_div_pow2 by lia; done).
  unfold PXP_PTT_ENTRY_OFFSET_MASK in *.
  destruct (a =? qed_ptt_get_hw_addr t) eqn:Eq; simplify_eq; zbool.
  - assert (Hv : 0 <= pxp_offset t' <= PXP_PTT_ENTRY_OFFSET_MASK /\ dev_win d' (ptt_idx t') = pxp_offset t').
    { destruct Hc as [Hi|Hv]; [|done]. rewrite (get_hw_addr_invalid _ Hi) in Eq; lia. }
    rewrite get_hw_addr_valid in Eq by tauto. split; [apply moved_refl; by split|].
    destruct Hv as [_ ->]; lia.
  - set (t1 := t <| pxp_offset := Z.shiftr a 2 |>).
    assert (I1 : ptt_idx t1 = ptt_idx t) by done. assert (O1 : pxp_offset t1 = a / 4) by done.
    unfold qed_ptt_config_addr; rewrite I1, O1; clearbody t1.
    destruct (law_set_win_frame d (ptt_idx t) (a / 4) Hw) as [Fv Fr].
    assert (Hq : 0 <= a / 4 <= PXP_PTT_ENTRY_OFFSET_MASK)
      by (unfold PXP_PTT_ENTRY_OFFSET_MASK; split; [apply Z.div_pos|apply Zlt_succ_le, Z.div_lt_upper_bound]; lia).
    pose proof (fun j => law_set_win d _ _ j Hw Hq) as Hwin.
    pose proof (Z.div_mod a 4). split; [constructor; [done| |done|done|]|].
    + split; [by rewrite I1|right]. rewrite O1, I1, Hwin, decide_True by done. done.
    + intros j Hj. by rewrite Hwin, decide_False.
    + rewrite Hwin, decide_True by done. lia.
Qed.

(** [qed_set_ptt] returns the BAR address at which the register appears. *)
Lemma set_ptt_spec a t d b t' d' :
  coherent t d -> grc_addr a -> qed_set_ptt a t d = (b, t', d') ->
  moved t d t' d' /\ exists o, win_offset o /\ b = win_addr (ptt_idx t') o /\ 4 * dev_win d' (ptt_idx t') + o = a.
Proof.
  intros Hco Ha E; unfold qed_set_ptt in E. pose proof Hco as [Hw Hc]. pose proof Ha as [Hr Hm].
  destruct (_ || _) eqn:Eq.
  - destruct (qed_ptt_set_win a t d) as [t1 d1] eqn:E1; simplify_eq.
    destruct (set_win_spec _ _ _ _ _ Hco Ha E1) as [M W]. split; [done|].
    exists 0. split; [done|]. split; [done|]. rewrite W. lia.
  - simplify_eq. apply orb_false_iff in Eq as [E1 E2]; zbool.
    destruct Hc as [Hi|[Hv Hd]].
    { rewrite (get_hw_addr_invalid _ Hi) in E1. unfold PXP_PTT_ENTRY_OFFSET_MASK in *; lia. }
    rewrite get_hw_addr_valid in * by done.
    unfold PXP_PTT_ENTRY_OFFSET_MASK, u32 in *.
    rewrite Z.mod_small in * by lia.
    split; [by apply moved_refl|]. exists (a - 4 * pxp_offset t'). rewrite Hd.
    split; [split; [lia|]|split; [done|lia]].
    rewrite Zminus_mod, (Z.mul_comm 4), Z_mod_mult, Z.sub_0_r, Z.mod_mod by lia. done.
Qed.

Lemma fifo_spec chk t d e t' d' :
  coherent t d -> qed_is_reg_fifo_empty chk t d = (e, t', d') -> moved t d t' d'.
Proof.
  intros Hco E; unfold qed_is_reg_fifo_empty in E; destruct chk; simpl in E; simplify_eq; [|by apply moved_refl].
  destruct (qed_set_ptt _ t d) as [[b t1] d1] eqn:E1; simplify_eq.
  by eapply (set_ptt_spec GRC_REG_TRACE_FIFO_VALID_DATA).
Qed.

(** Register contents after a sequence of dwords has been stored from [a] on. *)
Fixpoint dw_at (a : Z) (ws : list Z) (b : Z) : option Z :=
  match ws with
  | [] => None
  | w :: ws => if decide (b = a) then Some w else dw_at (a + 4) ws b
  end.

Definition stored (a : Z) (ws : list Z) (v : view) (r : Z -> Z -> Z) (c b : Z) : Z :=
  match dw_at a ws b with
  | Some w => if decide (c = dev_copy b v) then w else r c b
  | None => r c b
  end.

(** The dwords of [n] consecutive registers, as a view sees them. *)
Fixpoint read_regs (a : Z) (n : nat) (v : view) (r : Z -> Z -> Z) : list Z :=
  match n with
  | O => []
  | S n => r (dev_copy a v) a :: read_regs (a + 4) n v r
  end.

(** Effect of a sequence of accesses through the window of [t]: the registers
    are [r'] afterwards. *)
Record accessed (t : qed_ptt) (d : D) (r' : Z -> Z -> Z) (t' : qed_ptt) (d' : D) : Prop := {
  ac_idx : ptt_idx t' = ptt_idx t;
  ac_coherent : coherent t' d';
  ac_view : dev_view d' = dev_view d;
  ac_reg c b : dev_reg d' c b = r' c b;
  ac_win j : j <> ptt_idx t -> dev_win d' j = dev_win d j
}.

Lemma moved_accessed t d t' d' : moved t d t' d' -> accessed t d (dev_reg d) t' d'.
Proof. intros [I C V R W]; constructor; auto. by rewrite R. Qed.

Lemma accessed_moved_l t d t1 d1 r t' d' : moved t d t1 d1 -> accessed t1 d1 r t' d' -> accessed t d r t' d'.
Proof.
  intros [I C V R W] [I' C' V' R' W']; constructor; try congruence; auto.
  intros j Hj; rewrite W' by congruence; auto.
Qed.

Lemma accessed_moved_r t d t1 d1 r t' d' : accessed t d r t1 d1 -> moved t1 d1 t' d' -> accessed t d r t' d'.
Proof.
  intros [I C V R W] [I' C' V' R' W']; constructor; try congruence; auto.
  intros j Hj; rewrite W' by congruence; auto.
Qed.

Lemma accessed_trans t d r t1 d1 r' t' d' :
  accessed t d r t1 d1 -> accessed t1 d1 r' t' d' -> accessed t d r' t' d'.
Proof.
  intros [I C V R W] [I' C' V' R' W']; constructor; try congruence; auto.
  intros j Hj; rewrite W' by congruence; auto.
Qed.

Lemma accessed_ext t d r r' t' d' :
  (forall c b, r c b = r' c b) -> accessed t d r t' d' -> accessed t d r' t' d'.
Proof. intros E [I C V R W]; constructor; auto. intros; rewrite R; auto. Qed.

(** One [REG_WR] through the window. *)
Lemma reg_wr_spec o v t d :
  coherent t d -> win_offset o -> dev_plain (4 * dev_win d (ptt_idx t) + o) ->
  dev_fits (4 * dev_win d (ptt_idx t) + o) v ->
  accessed t d (stored (4 * dev_win d (ptt_idx t) + o) [v] (dev_view d (ptt_idx t)) (dev_reg d))
    t (reg_wr (win_addr (ptt_idx t) o) v d).
Proof.
  intros [Hw Hc] Ho Hp Hfit. destruct (law_write_frame d _ _ v Hw Ho Hp) as [Fw Fv].
  constructor; [done| |done| |by intros; rewrite Fw].
  - split; [done|]. by rewrite Fw.
  - intros c b. rewrite law_write by done. unfold stored; simpl.
    destruct (decide (b = _)) as [->|]; [|by rewrite decide_False by tauto].
    destruct (decide (c = _)); [by rewrite decide_True|by rewrite decide_False by tauto].
Qed.

Lemma wr_spec chk a v t d t' d' :
  coherent t d -> grc_addr a -> dev_plain a -> dev_fits a v -> qed_wr chk a v t d = (t', d') ->
  accessed t d (stored a [v] (dev_view d (ptt_idx t)) (dev_reg d)) t' d'.
Proof.
  intros Hco Ha Hp Hfit E; unfold qed_wr in E.
  destruct (qed_is_reg_fifo_empty chk t d) as [[e t1] d1] eqn:E1. apply (fifo_spec _ _ _ _ _ _ Hco) in E1.
  destruct (qed_set_ptt a t1 d1) as [[b t2] d2] eqn:E2.
  destruct (set_ptt_spec _ _ _ _ _ _ (mv_coherent _ _ _ _ E1) Ha E2) as [M2 (o & Ho & -> & Haddr)].
  pose proof (moved_trans _ _ _ _ _ _ E1 M2) as M. rewrite <- Haddr in Hp, Hfit.
  pose proof (reg_wr_spec o v _ _ (mv_coherent _ _ _ _ M2) Ho Hp Hfit) as W.
  rewrite Haddr, (mv_view _ _ _ _ M), (mv_reg _ _ _ _ M) in W.
  rewrite (mv_idx _ _ _ _ M) in W at 1. eapply accessed_moved_l in W; [|exact M].
  destruct e; simplify_eq; [|exact W].
  destruct (qed_is_reg_fifo_empty chk t2 _) as [[e3 t3] d3] eqn:E3; simplify_eq.
  apply fifo_spec in E3; [|apply W]. by eapply accessed_moved_r.
Qed.

Lemma rd_spec chk a t d v t' d' :
  coherent t d -> grc_addr a -> dev_plain a -> qed_rd chk a t d = (v, t', d') ->
  moved t d t' d' /\ v = dev_reg d (dev_copy a (dev_view d (ptt_idx t))) a.
Proof.
  intros Hco Ha Hp E; unfold qed_rd in E.
  destruct (qed_is_reg_fifo_empty chk t d) as [[e t1] d1] eqn:E1. apply (fifo_spec _ _ _ _ _ _ Hco) in E1.
  destruct (qed_set_ptt a t1 d1) as [[b t2] d2] eqn:E2.
  destruct (set_ptt_spec _ _ _ _ _ _ (mv_coherent _ _ _ _ E1) Ha E2) as [M2 (o & Ho & -> & Haddr)].
  pose proof (moved_trans _ _ _ _ _ _ E1 M2) as M. rewrite <- Haddr in Hp.
  assert (Hv : reg_rd (win_addr (ptt_idx t2) o) d2 = dev_reg d (dev_copy a (dev_view d (ptt_idx t))) a).
  { rewrite law_read by (try apply M2; done).
    by rewrite Haddr, (mv_view _ _ _ _ M), (mv_reg _ _ _ _ M), (mv_idx _ _ _ _ M). }
  destruct e; simplify_eq; [|done].
  destruct (qed_is_reg_fifo_empty chk t2 d2) as [[e3 t3] d3] eqn:E3; simplify_eq.
  apply fifo_spec in E3; [|apply M2]. split; [by eapply moved_trans|done].
Qed.

(** ** Block copies *)

Lemma stored_nil a v r c b : stored a [] v r c b = r c b.
Proof. done. Qed.

Lemma stored_cons a w ws v r c b :
  stored a (w :: ws) v r c b = if decide (b = a) then stored a [w] v r c b else stored (a + 4) ws v r c b.
Proof. unfold stored; simpl. by destruct (decide (b = a)). Qed.

Lemma dw_at_below a ws b : b < a -> dw_at a ws b = None.
Proof.
  revert a; induction ws as [|w ws IH]; intros a Hb; simpl; [done|].
  rewrite decide_False by lia. apply IH; lia.
Qed.

Lemma dw_at_app a l1 l2 b :
  dw_at a (l1 ++ l2) b = match dw_at a l1 b with Some w => Some w | None => dw_at (a + 4 * Z.of_nat (length l1)) l2 b end.
Proof.
  revert a; induction l1 as [|w l1 IH]; intros a; simpl; [f_equal; lia|].
  destruct (decide (b = a)); [done|]. rewrite IH. destruct (dw_at (a + 4) l1 b); [done|f_equal; lia].
Qed.

Lemma dw_at_disjoint a l1 l2 b w :
  dw_at a l1 b = Some w -> dw_at (a + 4 * Z.of_nat (length l1)) l2 b = None.
Proof.
  revert a; induction l1 as [|x l1 IH]; intros a; simpl; [done|].
  destruct (decide (b = a)) as [->|]; intros E; [apply dw_at_below; lia|].
  rewrite <- (IH _ E). f_equal; lia.
Qed.

Lemma stored_app a l1 l2 v r c b :
  stored a (l1 ++ l2) v r c b = stored (a + 4 * Z.of_nat (length l1)) l2 v (stored a l1 v r) c b.
Proof.
  unfold stored. rewrite dw_at_app. destruct (dw_at a l1 b) eqn:E.
  - by rewrite (dw_at_disjoint _ _ l2 _ _ E).
  - done.
Qed.

Lemma stored_ext a ws v r r' c b : (forall c b, r c b = r' c b) -> stored a ws v r c b = stored a ws v r' c b.
Proof. intros E; unfold stored. rewrite E. done. Qed.

(** Reading back what was stored. *)
Lemma read_regs_ext a n v r r' :
  (forall k, (k < n)%nat -> r (dev_copy (a + 4 * Z.of_nat k) v) (a + 4 * Z.of_nat k) = r' (dev_copy (a + 4 * Z.of_nat k) v) (a + 4 * Z.of_nat k)) ->
  read_regs a n v r = read_regs a n v r'.
Proof.
  revert a; induction n as [|n IH]; intros a E; simpl; [done|]. f_equal.
  - specialize (E 0%nat ltac:(lia)). by rewrite Z.mul_0_r, Z.add_0_r in E.
  - apply IH; intros k Hk. specialize (E (S k) ltac:(lia)).
    by replace (a + 4 + 4 * Z.of_nat k) with (a + 4 * Z.of_nat (S k)) by lia.
Qed.

Lemma read_stored a ws v r : read_regs a (length ws) v (stored a ws v r) = ws.
Proof.
  revert a r; induction ws as [|w ws IH]; intros a r; simpl; [done|]. f_equal.
  - unfold stored; simpl. by rewrite !decide_True.
  - transitivity (read_regs (a + 4) (length ws) v (stored (a + 4) ws v r)); [|apply IH].
    apply read_regs_ext; intros k Hk.
    rewrite stored_cons, decide_False by lia. done.
Qed.

Lemma read_regs_app a n m v r : read_regs a (n + m) v r = read_regs a n v r ++ read_regs (a + 4 * Z.of_nat n) m v r.
Proof.
  revert a; induction n as [|n IH]; intros a; simpl; [f_equal; lia|]. rewrite IH. do 3 f_equal; lia.
Qed.

Lemma length_read_regs a n v r : length (read_regs a n v r) = n.
Proof. revert a; induction n; intros; simpl; auto. Qed.

(** The dword loops of [qed_memcpy_hw] inside one window. *)
Lemma reg_wr_seq_spec ws o t d :
  coherent t d -> win_offset o -> o + 4 * Z.of_nat (length ws) <= PXP_EXTERNAL_BAR_PF_WINDOW_SINGLE_SIZE ->
  (forall k, (k < length ws)%nat -> dev_plain (4 * dev_win d (ptt_idx t) + o + 4 * Z.of_nat k)) ->
  (forall k w, ws !! k = Some w -> dev_fits (4 * dev_win d (ptt_idx t) + o + 4 * Z.of_nat k) w) ->
  accessed t d (stored (4 * dev_win d (ptt_idx t) + o) ws (dev_view d (ptt_idx t)) (dev_reg d))
    t (reg_wr_seq (win_addr (ptt_idx t) o) ws d) /\
  dev_win (reg_wr_seq (win_addr (ptt_idx t) o) ws d) = dev_win d.
Proof.
  revert o d; induction ws as [|w ws IH]; intros o d Hco Ho Hlen Hp Hf; simpl.
  { split; [|done]. apply moved_accessed. by apply moved_refl. }
  assert (Hp0 : dev_plain (4 * dev_win d (ptt_idx t) + o)).
  { specialize (Hp 0%nat ltac:(simpl; lia)). by rewrite Z.mul_0_r, Z.add_0_r in Hp. }
  assert (Hf0 : dev_fits (4 * dev_win d (ptt_idx t) + o) w).
  { specialize (Hf 0%nat w eq_refl). by rewrite Z.mul_0_r, Z.add_0_r in Hf. }
  pose proof (reg_wr_spec o w t d Hco Ho Hp0 Hf0) as W.
  destruct (law_write_frame d _ _ w (proj1 Hco) Ho Hp0) as [Fw Fv].
  destruct ws as [|w' ws].
  { simpl. split; [exact W|done]. }
  set (d1 := reg_wr _ w d) in *. simpl length in *.
  assert (Ho' : win_offset (o + 4)).
  { destruct Ho as [Hr Hm]. split; [lia|]. rewrite Z.add_mod, Hm by lia. done. }
  replace (win_addr (ptt_idx t) o + 4) with (win_addr (ptt_idx t) (o + 4)) by (unfold win_addr; lia).
  destruct (IH (o + 4) d1 (ac_coherent _ _ _ _ _ W) Ho' ltac:(simpl; lia)) as [A Aw].
  { rewrite Fw. intros k Hk. specialize (Hp (S k) ltac:(simpl in *; lia)).
    by replace (4 * dev_win d (ptt_idx t) + (o + 4) + 4 * Z.of_nat k)
      with (4 * dev_win d (ptt_idx t) + o + 4 * Z.of_nat (S k)) by lia. }
  { rewrite Fw. intros k x Hk. specialize (Hf (S k) x Hk).
    by replace (4 * dev_win d (ptt_idx t) + (o + 4) + 4 * Z.of_nat k)
      with (4 * dev_win d (ptt_idx t) + o + 4 * Z.of_nat (S k)) by lia. }
  split; [|by rewrite Aw].
  eapply accessed_ext; [|eapply accessed_trans; [exact W|exact A]].
  intros c b. rewrite Fw, Fv, (stored_ext _ _ _ _ _ _ _ (ac_reg _ _ _ _ _ W)).
  replace (4 * dev_win d (ptt_idx t) + (o + 4))
    with (4 * dev_win d (ptt_idx t) + o + 4 * Z.of_nat (length [w])) by (simpl; lia).
  by rewrite <- (stored_app _ [w]).
Qed.

Lemma reg_rd_seq_spec n o t d :
  coherent t d -> win_offset o -> o + 4 * Z.of_nat n <= PXP_EXTERNAL_BAR_PF_WINDOW_SINGLE_SIZE ->
  (forall k, (k < n)%nat -> dev_plain (4 * dev_win d (ptt_idx t) + o + 4 * Z.of_nat k)) ->
  reg_rd_seq (win_addr (ptt_idx t) o) n d =
  read_regs (4 * dev_win d (ptt_idx t) + o) n (dev_view d (ptt_idx t)) (dev_reg d).
Proof.
  revert o; induction n as [|n IH]; intros o Hco Ho Hlen Hp; simpl; [done|].
  assert (Hp0 : dev_plain (4 * dev_win d (ptt_idx t) + o)).
  { specialize (Hp 0%nat ltac:(lia)). by rewrite Z.mul_0_r, Z.add_0_r in Hp. }
  rewrite law_read by (try apply Hco; done). f_equal.
  destruct n as [|n]; [done|].
  replace (win_addr (ptt_idx t) o + 4) with (win_addr (ptt_idx t) (o + 4)) by (unfold win_addr; lia).
  rewrite IH; [f_equal; lia|done| |lia|].
  - destruct Ho as [Hr Hm]. split; [lia|]. rewrite Z.add_mod, Hm by lia. done.
  - intros k Hk. specialize (Hp (S k) ltac:(lia)).
    by replace (4 * dev_win d (ptt_idx t) + (o + 4) + 4 * Z.of_nat k)
      with (4 * dev_win d (ptt_idx t) + o + 4 * Z.of_nat (S k)) by lia.
Qed.

(** A block of plain registers in the range of the windows. *)
Definition block_ok (hw_addr n : Z) : Prop :=
  0 <= hw_addr /\ hw_addr mod 4 = 0 /\ 0 <= n /\ hw_addr + n <= 4 * (PXP_PTT_ENTRY_OFFSET_MASK + 1) /\
  forall k, 0 <= k < n / 4 -> dev_plain (hw_addr + 4 * k).

Definition dwords (x : Z) : nat := Z.to_nat (x / 4).

(** Arithmetic of one iteration: [done] is at a window boundary of the copy. *)
Lemma iteration_dwords n done q :
  0 <= done < n -> done mod 4096 = 0 -> q = Z.min (n - done) 4096 ->
  dwords (done + q) = (dwords done + dwords q)%nat /\
  (dwords n - dwords done = dwords q + (dwords n - dwords (done + q)))%nat /\
  4 * Z.of_nat (dwords q) <= 4096 /\ 4 * Z.of_nat (dwords done) = done /\
  (dwords done + dwords q <= dwords n)%nat /\
  ((done + q) mod 4096 = 0 \/ n <= done + q) /\ 0 < q.
Proof.
  intros Hd Hm ->. unfold dwords. Z.to_euclidean_division_equations. lia.
Qed.

Lemma block_addr hw_addr n done :
  block_ok hw_addr n -> 0 <= done < n -> done mod 4096 = 0 ->
  u32 (hw_addr + done) = hw_addr + done /\ grc_addr (hw_addr + done).
Proof.
  intros (H0 & Hm & Hn & Hr & _) Hd Hdm. unfold u32, grc_addr, PXP_PTT_ENTRY_OFFSET_MASK in *.
  rewrite Z.mod_small by lia. Z.to_euclidean_division_equations; lia.
Qed.

Lemma block_plain hw_addr n done q k :
  block_ok hw_addr n -> 4 * Z.of_nat (dwords done) = done -> (dwords done + dwords q <= dwords n)%nat ->
  (k < dwords q)%nat -> dev_plain (hw_addr + done + 0 + 4 * Z.of_nat k).
Proof.
  intros (_ & _ & Hn & _ & Hp) Hd Hq Hk. unfold dwords in *.
  replace (hw_addr + done + 0 + 4 * Z.of_nat k) with (hw_addr + 4 * (Z.of_nat (Z.to_nat (done / 4)) + Z.of_nat k)) by lia.
  apply Hp; lia.
Qed.

Lemma take_split (k q m : nat) (ws : list Z) :
  take (q + m) (drop k ws) = take q (drop k ws) ++ take m (drop (k + q) ws).
Proof. by rewrite <- drop_drop, take_take_drop. Qed.

(** What an iteration of the storing actions writes. *)
Definition source_of (action : memcpy_action) (n : Z) (host ws : list Z) : Prop :=
  (action = TO_DEVICE /\ ws = host /\ (dwords n <= length host)%nat) \/
  (action = MEMZERO_DEVICE /\ ws = replicate (dwords n) 0).

Definition block_fits (hw_addr : Z) (ws : list Z) : Prop :=
  forall k w, ws !! k = Some w -> dev_fits (hw_addr + 4 * Z.of_nat k) w.

Lemma memcpy_store_step fuel action hw_addr n done host ws t d :
  source_of action n host ws -> block_ok hw_addr n -> block_fits hw_addr ws -> coherent t d -> 0 <= done < n -> done mod 4096 = 0 ->
  let q := Z.min (n - done) 4096 in
  exists t1 d1, memcpy_loop (S fuel) true action hw_addr n done host t d =
    memcpy_loop fuel true action hw_addr n (done + q) host t1 d1 /\
    accessed t d (stored (hw_addr + done) (take (dwords q) (drop (dwords done) ws)) (dev_view d (ptt_idx t))
      (dev_reg d)) t1 d1.
Proof.
  intros Hsrc Hb Hbf Hco Hd Hm q.
  destruct (iteration_dwords n done q Hd Hm eq_refl) as (_ & _ & Hq & Hdw & Hle & _ & Hq0).
  destruct (block_addr _ _ _ Hb Hd Hm) as [Hu Ha].
  simpl. rewrite (proj2 (Z.leb_gt n done)) by lia. rewrite Hu.
  change PXP_EXTERNAL_BAR_PF_WINDOW_SINGLE_SIZE with 4096. fold q.
  destruct (qed_ptt_set_win (hw_addr + done) t d) as [t1 d1] eqn:E.
  destruct (set_win_spec _ _ _ _ _ Hco Ha E) as [M W]. exists t1.
  fold (dwords q) (dwords done).
  assert (Hlen : length (take (dwords q) (drop (dwords done) ws)) = dwords q).
  { rewrite length_take, length_drop. destruct Hsrc as [(_ & -> & ?)|(_ & ->)]; rewrite ?length_replicate; lia. }
  pose proof (reg_wr_seq_spec (take (dwords q) (drop (dwords done) ws)) 0 t1 d1 (mv_coherent _ _ _ _ M)
    ltac:(done)) as R.
  rewrite Hlen, W, Z.add_0_r, (mv_view _ _ _ _ M), (mv_reg _ _ _ _ M) in R.
  destruct R as [A _]; [exact Hq|..].
  { intros k Hk. rewrite <- (Z.add_0_r (hw_addr + done)). by eapply block_plain. }
  { intros k w Hk. apply lookup_take_Some in Hk as [Hk _]. rewrite lookup_drop in Hk.
    specialize (Hbf _ _ Hk). replace (hw_addr + done) with (hw_addr + 4 * Z.of_nat (dwords done)) by lia.
    by replace (hw_addr + 4 * Z.of_nat (dwords done) + 4 * Z.of_nat k)
      with (hw_addr + 4 * Z.of_nat (dwords done + k)) by lia. }
  rewrite (mv_idx _ _ _ _ M) in A at 1. eapply accessed_moved_l in A; [|exact M].
  replace (win_addr (ptt_idx t1) 0) with (qed_ptt_get_bar_addr t1) in A by (unfold win_addr; by rewrite Z.add_0_r).
  destruct Hsrc as [(-> & -> & Hl)|(-> & ->)]; eexists; (split; [|exact A]).
  - rewrite (proj2 (Nat.ltb_ge _ _)) by lia. done.
  - do 2 f_equal. rewrite drop_replicate, take_replicate. f_equal; lia.
Qed.

Lemma memcpy_store_spec fuel action hw_addr n done host ws t d :
  source_of action n host ws -> block_ok hw_addr n -> block_fits hw_addr ws -> coherent t d ->
  0 <= done -> done mod 4096 = 0 \/ n <= done -> n - done <= 4096 * Z.of_nat fuel ->
  exists t' d', memcpy_loop fuel true action hw_addr n done host t d = Some (host, t', d') /\
    accessed t d (stored (hw_addr + done) (take (dwords n - dwords done) (drop (dwords done) ws))
      (dev_view d (ptt_idx t)) (dev_reg d)) t' d'.
Proof.
  intros Hsrc Hb Hbf. revert done t d; induction fuel as [|fuel IH]; intros done t d Hco Hd Hm Hf.
  all: destruct (Z.le_gt_cases n done) as [Hle|Hlt].
  1,3: exists t, d; split; [simpl; by rewrite (proj2 (Z.leb_le _ _))|];
       (replace (dwords n - dwords done)%nat with 0%nat
          by (unfold dwords; pose proof (Z.div_le_mono n done 4); lia));
       rewrite take_0; apply moved_accessed, moved_refl, Hco.
  - lia.
  - assert (Hmm : done mod 4096 = 0) by (destruct Hm; [done|lia]).
    destruct (memcpy_store_step fuel _ _ _ done _ _ t d Hsrc Hb Hbf Hco ltac:(lia) Hmm) as (t1 & d1 & -> & A).
    set (q := Z.min (n - done) 4096) in *.
    destruct (iteration_dwords n done q ltac:(lia) Hmm eq_refl) as (H1 & H2 & H3 & H4 & H5 & H6 & H7).
    destruct (IH (done + q) t1 d1 (ac_coherent _ _ _ _ _ A) ltac:(lia) H6 ltac:(lia)) as (t' & d' & -> & A').
    exists t', d'; split; [done|]. eapply accessed_ext; [|eapply accessed_trans; [exact A|exact A']].
    intros c b. rewrite H2, take_split, stored_app, (ac_view _ _ _ _ _ A), (ac_idx _ _ _ _ _ A), H1.
    rewrite (stored_ext _ _ _ _ _ _ _ (ac_reg _ _ _ _ _ A)).
    assert (Hl : (dwords n <= length ws)%nat)
      by (destruct Hsrc as [(_ & -> & ?)|(_ & ->)]; rewrite ?length_replicate; lia).
    rewrite length_take, length_drop, Nat.min_l by lia.
    destruct (decide (q = 4096)) as [->|Hq].
    + change (4 * Z.of_nat (dwords 4096)) with 4096. by rewrite Z.add_assoc.
    + replace (dwords n - (dwords done + dwords q))%nat with 0%nat; [done|].
      rewrite <- H1. replace (done + q) with n by lia. lia.
Qed.

(** [host_store] of consecutive blocks. *)
Lemma host_store_app k l1 l2 host :
  (k + length l1 + length l2 <= length host)%nat ->
  host_store (k + length l1) l2 (host_store k l1 host) = host_store k (l1 ++ l2) host.
Proof.
  intros Hl. unfold host_store.
  assert (Hk : length (take k host) = k) by (rewrite length_take; lia).
  rewrite length_app, (app_assoc (take k host) l1).
  rewrite (take_app_length' (take k host ++ l1)), (drop_app_ge (take k host ++ l1))
    by (rewrite length_app; lia).
  rewrite <- !app_assoc, drop_drop, length_app. do 4 f_equal. lia.
Qed.

Lemma length_host_store k l host :
  (k + length l <= length host)%nat -> length (host_store k l host) = length host.
Proof. intros; unfold host_store. rewrite !length_app, length_take, length_drop. lia. Qed.

Lemma host_store_nil k host : host_store k [] host = host.
Proof. unfold host_store; simpl. by rewrite Nat.add_0_r, take_drop. Qed.

Lemma memcpy_load_spec fuel hw_addr n done host t d :
  block_ok hw_addr n -> (dwords n <= length host)%nat -> coherent t d ->
  0 <= done -> done mod 4096 = 0 \/ n <= done -> n - done <= 4096 * Z.of_nat fuel ->
  exists t' d', memcpy_loop fuel true FROM_DEVICE hw_addr n done host t d =
      Some (host_store (dwords done)
        (read_regs (hw_addr + done) (dwords n - dwords done) (dev_view d (ptt_idx t)) (dev_reg d)) host, t', d') /\
    moved t d t' d'.
Proof.
  intros Hb. revert done host t d; induction fuel as [|fuel IH]; intros done host t d Hl Hco Hd Hm Hf.
  all: destruct (Z.le_gt_cases n done) as [Hle|Hlt].
  1,3: exists t, d; split; [simpl; rewrite (proj2 (Z.leb_le _ _)) by done|by apply moved_refl];
       (replace (dwords n - dwords done)%nat with 0%nat
          by (unfold dwords; pose proof (Z.div_le_mono n done 4); lia));
       by rewrite host_store_nil.
  - lia.
  - assert (Hmm : done mod 4096 = 0) by (destruct Hm; [done|lia]).
    simpl. rewrite (proj2 (Z.leb_gt n done)) by lia.
    change PXP_EXTERNAL_BAR_PF_WINDOW_SINGLE_SIZE with 4096.
    set (q := Z.min (n - done) 4096) in *.
    destruct (iteration_dwords n done q ltac:(lia) Hmm eq_refl) as (H1 & H2 & H3 & H4 & H5 & H6 & H7).
    destruct (block_addr _ _ _ Hb (conj Hd Hlt) Hmm) as [-> Ha].
    destruct (qed_ptt_set_win (hw_addr + done) t d) as [t1 d1] eqn:E.
    destruct (set_win_spec _ _ _ _ _ Hco Ha E) as [M W].
    fold (dwords q) (dwords done). rewrite (proj2 (Nat.ltb_ge _ _)) by lia.
    pose proof (reg_rd_seq_spec (dwords q) 0 t1 d1 (mv_coherent _ _ _ _ M) ltac:(done) H3) as R.
    rewrite W, (mv_view _ _ _ _ M), (mv_reg _ _ _ _ M) in R.
    replace (win_addr (ptt_idx t1) 0) with (qed_ptt_get_bar_addr t1) in R by (unfold win_addr; by rewrite Z.add_0_r).
    rewrite R, Z.add_0_r by (intros k Hk; by eapply block_plain).
    pose proof (length_read_regs (hw_addr + done) (dwords q) (dev_view d (ptt_idx t1)) (dev_reg d)) as Hrl.
    destruct (IH (done + q) (host_store (dwords done)
      (read_regs (hw_addr + done) (dwords q) (dev_view d (ptt_idx t1)) (dev_reg d)) host) t1 d1)
      as (t' & d' & -> & M'); [by rewrite length_host_store by lia|apply M|lia|exact H6|lia|].
    exists t', d'. split; [|by eapply moved_trans]. do 3 f_equal.
    rewrite H1, <- Hrl at 1. rewrite host_store_app.
    2: { rewrite !length_read_regs. lia. }
    rewrite H2, read_regs_app, (mv_view _ _ _ _ M), (mv_reg _ _ _ _ M), (mv_idx _ _ _ _ M). do 2 f_equal.
    destruct (decide (q = 4096)) as [->|Hq].
    + change (4 * Z.of_nat (dwords 4096)) with 4096. by rewrite Z.add_assoc.
    + replace (dwords n - dwords (done + q))%nat with 0%nat; [done|].
      replace (done + q) with n by lia. lia.
Qed.

Lemma memcpy_fuel_enough n : 0 <= n -> n - 0 <= 4096 * Z.of_nat (memcpy_fuel n).
Proof.
  intros. unfold memcpy_fuel. change PXP_EXTERNAL_BAR_PF_WINDOW_SINGLE_SIZE with 4096.
  Z.to_euclidean_division_equations; lia.
Qed.

Lemma dw_at_above a ws b : a + 4 * Z.of_nat (length ws) <= b -> dw_at a ws b = None.
Proof.
  revert a; induction ws as [|w ws IH]; intros a Hb; simpl in *; [done|].
  rewrite decide_False by lia. apply IH; lia.
Qed.

(** ** Pretending *)

Lemma pretend_word_bits f c :
  0 <= f < 2 ^ 16 -> 0 <= c < 2 ^ 16 ->
  let w := f + Z.shiftl c 16 in
  0 <= w < 2 ^ 32 /\ w mod 2 ^ 16 = f /\ forall k, 0 <= k -> Z.testbit w (16 + k) = Z.testbit c k.
Proof.
  intros Hf Hc w. subst w. rewrite Z.shiftl_mul_pow2 by lia.
  split; [lia|]. split; [rewrite Z_mod_plus_full; by apply Z.mod_small|].
  intros k Hk. rewrite (Z.add_comm 16 k), <- Z.shiftr_spec, Z.shiftr_div_pow2 by lia.
  by rewrite Z.div_add, Z.div_small, Z.add_0_l by lia.
Qed.

(** The view that a full pretend command with control [c] selects. *)
Lemma pretend_word_view f c :
  0 <= f < 2 ^ 16 -> 0 <= c < 2 ^ 16 -> Z.land (Z.shiftr c 13) 7 = 7 ->
  pretend_all (f + Z.shiftl c 16) = true /\
  pretend_view (f + Z.shiftl c 16) =
    mk_view f (if Z.testbit c 1 then Some (Z.land (Z.shiftr c 2) 3) else None).
Proof.
  intros Hf Hc Hall. destruct (pretend_word_bits f c Hf Hc) as (_ & Hm & Hb).
  assert (B : forall k, 0 <= k < 3 -> Z.testbit c (13 + k) = true).
  { intros k Hk. rewrite (Z.add_comm 13 k), <- Z.shiftr_spec by lia.
    assert (E : Z.testbit (Z.land (Z.shiftr c 13) 7) k = Z.testbit 7 k) by (by rewrite Hall).
    rewrite Z.land_spec in E. assert (k = 0 \/ k = 1 \/ k = 2) as [->|[->| ->]] by lia;
      by rewrite andb_true_r in E. }
  split.
  - unfold pretend_all. change 31 with (16 + (13 + 2)). change 30 with (16 + (13 + 1)).
    change 29 with (16 + (13 + 0)). by rewrite !Hb, !B by lia.
  - unfold pretend_view. change 17 with (16 + 1). rewrite (Hb 1) by lia. f_equal; [done|].
    destruct (Z.testbit c 1); [|done]. do 2 f_equal.
    rewrite (Z.shiftr_div_pow2 _ 18) by lia. change (2 ^ 18) with (2 ^ 16 * 2 ^ 2).
    rewrite <- Z.div_div, Z.shiftl_mul_pow2, Z.div_add, (Z.div_small f) by lia.
    by rewrite Z.add_0_l, <- Z.shiftr_div_pow2 by lia.
Qed.

(** Effect of a pretend: the window accesses with a new view. *)
Record pretended (v : view) (t : qed_ptt) (d : D) (t' : qed_ptt) (d' : D) : Prop := {
  pr_idx : ptt_idx t' = ptt_idx t;
  pr_coherent : coherent t' d';
  pr_view : dev_view d' (ptt_idx t) = v;
  pr_views j : j <> ptt_idx t -> dev_view d' j = dev_view d j;
  pr_reg : dev_reg d' = dev_reg d;
  pr_win : dev_win d' = dev_win d
}.

Lemma write_pretend_spec t d t' d' :
  coherent t d -> 0 <= pretend_fid t < 2 ^ 16 -> 0 <= pretend_control t < 2 ^ 16 ->
  Z.land (Z.shiftr (pretend_control t) 13) 7 = 7 -> write_pretend t d = (t', d') ->
  pretended (mk_view (pretend_fid t) (if Z.testbit (pretend_control t) 1
    then Some (Z.land (Z.shiftr (pretend_control t) 2) 3) else None)) t d t' d'.
Proof.
  intros [Hw Hc] Hf Hk Hall E; unfold write_pretend, pretend_word, qed_ptt_config_addr in E; simplify_eq.
  destruct (pretend_word_bits _ _ Hf Hk) as (Hr & _).
  destruct (pretend_word_view _ _ Hf Hk Hall) as [Ha Hv].
  destruct (law_pretend_frame d _ (pretend_fid t' + Z.shiftl (pretend_control t') 16) Hw) as [Fw Fr].
  constructor; [done| | | |done|done].
  - split; [done|]. by rewrite Fw.
  - rewrite law_pretend, decide_True by done. exact Hv.
  - intros j Hj. rewrite law_pretend, decide_False by done. done.
Qed.

Lemma concrete_fid_range fid : 0 <= fid < 2 ^ 16 -> 0 <= concrete_fid fid < 2 ^ 16.
Proof.
  intros Hf. unfold concrete_fid. destruct (_ =? 0); [|done].
  unfold GET_FIELD. rewrite Z.shiftr_0_r, Z.land_ones with (n := 4) by lia.
  pose proof (Z.mod_pos_bound fid (2 ^ 4)). lia.
Qed.

Lemma concrete_fid_pf pfid : 0 <= pfid < 16 -> concrete_fid (pfid_field pfid) = pfid.
Proof.
  intros Hp. assert (E : In pfid (Z.of_nat <$> seq 0 16)).
  { apply list_elem_of_In, list_elem_of_fmap. exists (Z.to_nat pfid). split; [lia|]. apply elem_of_seq. lia. }
  simpl in E. intuition subst; done.
Qed.

Lemma fid_pretend_spec fid t d t' d' :
  coherent t d -> 0 <= fid < 2 ^ 16 -> qed_fid_pretend fid t d = (t', d') ->
  pretended (mk_view (concrete_fid fid) None) t d t' d'.
Proof.
  intros [Hw Hc] Hf E. unfold qed_fid_pretend in E. set (t1 := t <| _ := _ |> <| _ := _ |>) in E.
  apply (write_pretend_spec t1) in E;
    [destruct E; by constructor|by split|apply (concrete_fid_range _ Hf)|done|done].
Qed.

Lemma port_fid_pretend_spec port fid t d t' d' :
  coherent t d -> 0 <= port < 4 -> 0 <= fid < 2 ^ 16 -> qed_port_fid_pretend port fid t d = (t', d') ->
  pretended (mk_view (concrete_fid fid) (Some port)) t d t' d'.
Proof.
  intros [Hw Hc] Hp Hf E. unfold qed_port_fid_pretend in E. set (t1 := t <| _ := _ |> <| _ := _ |>) in E.
  assert (P : port = 0 \/ port = 1 \/ port = 2 \/ port = 3) by lia.
  apply (write_pretend_spec t1) in E;
    [|by split|apply (concrete_fid_range _ Hf)|destruct P as [->|[->|[->| ->]]]; done..].
  destruct P as [->|[->|[->| ->]]]; destruct E; by constructor.
Qed.

(** [qed_ppfid_wr] and [qed_ppfid_rd] as seen by the device. *)
Record accessed_as (t : qed_ptt) (d : D) (own : Z) (r' : Z -> Z -> Z) (t' : qed_ptt) (d' : D) : Prop := {
  aa_idx : ptt_idx t' = ptt_idx t;
  aa_coherent : coherent t' d';
  aa_view : dev_view d' (ptt_idx t) = mk_view own None;
  aa_others j : j <> ptt_idx t -> dev_view d' j = dev_view d j /\ dev_win d' j = dev_win d j;
  aa_reg c b : dev_reg d' c b = r' c b
}.

Lemma pfid_field_range p : 0 <= p < 16 -> 0 <= pfid_field p < 2 ^ 16.
Proof.
  intros Hp. assert (E : In p (Z.of_nat <$> seq 0 16)).
  { apply list_elem_of_In, list_elem_of_fmap. exists (Z.to_nat p). split; [lia|]. apply elem_of_seq. lia. }
  simpl in E. intuition subst; done.
Qed.

Lemma ppfid_wr_spec chk rel pfid a v t d t' d' :
  coherent t d -> grc_addr a -> dev_plain a -> dev_fits a v -> 0 <= pfid < 16 -> 0 <= rel < 16 ->
  qed_ppfid_wr chk rel pfid a v t d = (t', d') ->
  accessed_as t d rel (stored a [v] (mk_view pfid None) (dev_reg d)) t' d'.
Proof.
  intros Hco Ha Hp Hfit Hpf Hrel E; unfold qed_ppfid_wr in E.
  destruct (qed_fid_pretend (pfid_field pfid) t d) as [t1 d1] eqn:E1.
  apply fid_pretend_spec in E1; [|done|by apply pfid_field_range].
  rewrite concrete_fid_pf in E1 by done. destruct E1 as [I1 C1 V1 O1 R1 W1].
  destruct (qed_wr chk a v t1 d1) as [t2 d2] eqn:E2.
  apply wr_spec in E2; [|done..]. destruct E2 as [I2 C2 V2 R2 W2].
  apply fid_pretend_spec in E; [|done|by apply pfid_field_range].
  rewrite concrete_fid_pf in E by done. destruct E as [I3 C3 V3 O3 R3 W3].
  rewrite I2, I1 in *. rewrite V1, R1 in R2. constructor; [congruence|done..| |by rewrite R3].
  intros j Hj. rewrite O3, V2, O1, W3, W2, W1 by done. done.
Qed.

Lemma ppfid_rd_spec chk rel pfid a t d v t' d' :
  coherent t d -> grc_addr a -> dev_plain a -> 0 <= pfid < 16 -> 0 <= rel < 16 ->
  qed_ppfid_rd chk rel pfid a t d = (v, t', d') ->
  accessed_as t d rel (dev_reg d) t' d' /\ v = dev_reg d (dev_copy a (mk_view pfid None)) a.
Proof.
  intros Hco Ha Hp Hpf Hrel E; unfold qed_ppfid_rd in E.
  destruct (qed_fid_pretend (pfid_field pfid) t d) as [t1 d1] eqn:E1.
  apply fid_pretend_spec in E1; [|done|by apply pfid_field_range].
  rewrite concrete_fid_pf in E1 by done. destruct E1 as [I1 C1 V1 O1 R1 W1].
  destruct (qed_rd chk a t1 d1) as [[v2 t2] d2] eqn:E2.
  apply rd_spec in E2 as [[I2 C2 V2 R2 W2] ->]; [|done..].
  destruct (qed_fid_pretend (pfid_field rel) t2 d2) as [t3 d3] eqn:E3. simplify_eq.
  apply fid_pretend_spec in E3; [|done|by apply pfid_field_range].
  rewrite concrete_fid_pf in E3 by done. destruct E3 as [I3 C3 V3 O3 R3 W3].
  rewrite I2, I1 in *. rewrite V1, R1. split; [|done]. constructor; [congruence|done..| |by rewrite R3, R2, R1].
  intros j Hj. rewrite O3, V2, O1, W3, W2, W1 by done. done.
Qed.

Lemma coherent_frame t d d' : dev_win d' (ptt_idx t) = dev_win d (ptt_idx t) -> coherent t d -> coherent t d'.
Proof. intros E [Hw Hc]; split; [done|]. by rewrite E. Qed.
End Windows.

(** ** A device *)

(** A device all of whose registers are storage, with one copy per function. *)
Record sim := mk_sim { sim_win : Z -> Z; sim_view : Z -> view; sim_reg : Z -> Z -> Z }.
#[export] Instance eta_sim : Settable sim := fun r => mk_sim (sim_win r) (sim_view r) (sim_reg r).

Definition upd {B} (k : Z) (v : B) (f : Z -> B) (x : Z) : B := if decide (x = k) then v else f x.

Definition sim_wr (a v : Z) (d : sim) : sim :=
  if a <? 96 then
    let i := a / 8 in
    if a mod 8 =? 0 then d <| sim_win := upd i v (sim_win d) |>
    else d <| sim_view := upd i (pretend_view v) (sim_view d) |>
  else
    let i := (a - 4096) / 4096 in
    let x := 4 * sim_win d i + a mod 4096 in
    let c := v_fid (sim_view d i) in
    d <| sim_reg := fun c' x' => if decide (x' = x /\ c' = c) then v else sim_reg d c' x' |>.

Definition sim_rd (a : Z) (d : sim) : Z :=
  let i := (a - 4096) / 4096 in
  sim_reg d (v_fid (sim_view d i)) (4 * sim_win d i + a mod 4096).

#[export] Instance sim_device : PxpDevice sim := {|
  reg_wr := sim_wr;
  reg_rd := sim_rd;
  dev_win := sim_win;
  dev_view := sim_view;
  dev_plain := fun _ => True;
  dev_fits := fun _ v => 0 <= v < 2 ^ 32;
  dev_copy := fun _ v => v_fid v;
  dev_reg := sim_reg
|}.

Lemma sim_wr_win i v d : is_window i ->
  sim_wr (admin_addr i + offsetof_offset) v d = d <| sim_win := upd i v (sim_win d) |>.
Proof.
  unfold is_window, PXP_NUM_PF_WINDOWS, sim_wr, admin_addr, PXP_PF_WINDOW_ADMIN_PER_PF_START,
    PXP_PER_PF_ENTRY_SIZE, offsetof_offset; intros Hi.
  rewrite (proj2 (Z.ltb_lt _ _)) by lia. rewrite !Z.add_0_r, Z.add_0_l, Z_mod_mult, Z.div_mul by lia. done.
Qed.

Lemma sim_wr_pretend i v d : is_window i ->
  sim_wr (admin_addr i + offsetof_pretend) v d = d <| sim_view := upd i (pretend_view v) (sim_view d) |>.
Proof.
  unfold is_window, PXP_NUM_PF_WINDOWS, sim_wr, admin_addr, PXP_PF_WINDOW_ADMIN_PER_PF_START,
    PXP_PER_PF_ENTRY_SIZE, offsetof_pretend; intros Hi.
  rewrite (proj2 (Z.ltb_lt _ _)) by lia.
  replace ((0 + i * 8 + 4) mod 8) with 4 by (Z.to_euclidean_division_equations; lia).
  replace ((0 + i * 8 + 4) / 8) with i by (Z.to_euclidean_division_equations; lia). done.
Qed.

Lemma win_addr_decode i o : is_window i -> win_offset o ->
  96 <= win_addr i o /\ (win_addr i o - 4096) / 4096 = i /\ win_addr i o mod 4096 = o.
Proof.
  unfold is_window, win_offset, PXP_NUM_PF_WINDOWS, win_addr, PXP_EXTERNAL_BAR_PF_WINDOW_START,
    PXP_EXTERNAL_BAR_PF_WINDOW_SINGLE_SIZE; intros Hi [Ho _].
  split; [lia|]. Z.to_euclidean_division_equations; lia.
Qed.

#[export] Instance sim_device_laws : PxpDeviceLaws sim.
Proof.
  constructor; simpl; intros.
  - by rewrite sim_wr_win.
  - by rewrite sim_wr_win.
  - by rewrite sim_wr_pretend.
  - by rewrite sim_wr_pretend.
  - destruct (win_addr_decode i o) as (? & E1 & E2); [done..|]. unfold sim_wr.
    rewrite (proj2 (Z.ltb_ge _ _)), E1, E2 by lia. done.
  - unfold sim_wr. destruct (win_addr_decode i o) as (? & _); [done..|].
    by rewrite (proj2 (Z.ltb_ge _ _)) by lia.
  - destruct (win_addr_decode i o) as (? & E1 & E2); [done..|]. unfold sim_rd. by rewrite E1, E2.
Qed.

(** The entries of a pool are its windows, in order. *)
Definition pool_wf (p : qed_ptt_pool) : Prop :=
  forall i t, ptts p !! i = Some t -> ptt_idx t = Z.of_nat i /\ is_window (ptt_idx t).

(** Every entry is free or held by one user, the reserved ones by none. *)
Definition pool_inv (fl held : list nat) : Prop := held ++ fl ≡ₚ seq 4 8.

Lemma pool_inv_held fl i held : pool_inv fl (i :: held) -> i ∉ held /\ i ∉ fl /\ (4 <= i < 12)%nat.
Proof.
  intros P. change (i :: held ++ fl ≡ₚ seq 4 8) in P.
  assert (N : NoDup (i :: held ++ fl)) by (rewrite P; apply list.NoDup_seq).
  apply list.NoDup_cons in N as [Hn _]. rewrite elem_of_app in Hn.
  assert (E : i ∈ seq 4 8) by (rewrite <- P; set_solver).
  apply elem_of_seq in E. split; [tauto|]. split; [tauto|lia].
Qed.

Lemma pool_inv_acquire i fl held : pool_inv (i :: fl) held -> pool_inv fl (i :: held).
Proof. unfold pool_inv; intros <-. apply Permutation_middle. Qed.

(** What other users may do to the free list between two tries: acquire free
    entries and release entries they hold, never one of [mine]. *)
Definition others_ok (mine : list nat) (world : nat -> list nat -> list nat) : Prop :=
  forall n fl others, pool_inv fl (mine ++ others) -> exists others', pool_inv (world n fl) (mine ++ others').

Lemma acquire_loop_inv fuel world mine n p others r p' :
  others_ok mine world -> pool_inv (free_list p) (mine ++ others) ->
  ptt_acquire_loop fuel world n p = (r, p') ->
  exists others', pool_inv (free_list p') (match r with Some i => i :: mine | None => mine end ++ others').
Proof.
  intros Hw. revert n p others; induction fuel as [|fuel IH]; intros n p others Hi E; simpl in E.
  { simplify_eq. by exists others. }
  destruct (Hw n _ _ Hi) as [others' Hi'].
  destruct (world n (free_list p)) as [|i fl]; [exact (IH _ (p <| free_list := [] |>) others' Hi' E)|].
  simplify_eq. exists others'. by apply pool_inv_acquire.
Qed.

Lemma acquire_loop_ptts fuel world n p r p' : ptt_acquire_loop fuel world n p = (r, p') -> ptts p' = ptts p.
Proof.
  revert n p; induction fuel as [|fuel IH]; intros n p E; simpl in E; [by simplify_eq|].
  destruct (world n (free_list p)); [by apply IH in E|by simplify_eq].
Qed.

Lemma acquire_loop_some fuel world n p k :
  (n <= k < n + fuel)%nat -> (forall fl, world k fl <> []) -> fst (ptt_acquire_loop fuel world n p) <> None.
Proof.
  revert n p; induction fuel as [|fuel IH]; intros n p Hk Hne; simpl; [lia|].
  destruct (world n (free_list p)) as [|i fl] eqn:E; [|done].
  destruct (decide (k = n)) as [->|]; [by apply Hne in E|]. apply IH; [lia|done].
Qed.

Definition sim0 : sim := mk_sim (fun _ => 0x140000) (fun _ => mk_view 2 None) (fun _ _ => 0).
Definition ptt5 : qed_ptt := mk_qed_ptt 5 QED_BAR_INVALID_OFFSET 0 0 0.
Definition ptt6 : qed_ptt := mk_qed_ptt 6 0x140000 0 0 0.

Lemma ptt5_coherent : coherent ptt5 sim0.
Proof. split; [done|by left]. Qed.

Lemma ptt6_coherent : coherent ptt6 sim0.
Proof. split; [done|by right]. Qed.

(** ** Claims *)

(** C21: A register write through a PTT entry whose cached window position is
    coherent changes exactly the register it names, in the copy of the
    function the entry accesses for; windows and views of the other entries
    stay, the entry stays coherent, and a read of the register through any
    other coherent entry with the same view returns the value written and
    changes no register.  This holds whether or not the register-FIFO check
    moves the window in between. *)
Theorem ptt_write_reaches_register (D : Type) `(PxpDeviceLaws D) chk a v (t t2 : qed_ptt) (d : D) :
  coherent t d -> coherent t2 d -> ptt_idx t2 <> ptt_idx t ->
  dev_view d (ptt_idx t2) = dev_view d (ptt_idx t) -> grc_addr a -> dev_plain a -> dev_fits a v ->
  let '(t', d') := qed_wr chk a v t d in
  let '(v2, t2', d'') := qed_rd chk a t2 d' in
  v2 = v /\ coherent t' d' /\ coherent t2' d'' /\
  (forall c b, dev_reg d' c b =
     if decide (b = a /\ c = dev_copy a (dev_view d (ptt_idx t))) then v else dev_reg d c b) /\
  dev_reg d'' = dev_reg d' /\ dev_view d'' = dev_view d /\
  (forall j, j <> ptt_idx t -> dev_win d' j = dev_win d j).
Proof.
  intros C1 C2 Hij Hv Ha Hp Hfit.
  destruct (qed_wr chk a v t d) as [t' d'] eqn:E1. apply wr_spec in E1 as [I V' V R W]; [|done..].
  destruct (qed_rd chk a t2 d') as [[v2 t2'] d''] eqn:E2.
  apply rd_spec in E2 as [M ->]; [|by apply (coherent_frame _ d), C2; apply W|done..].
  assert (R' : forall c b, dev_reg d' c b =
     if decide (b = a /\ c = dev_copy a (dev_view d (ptt_idx t))) then v else dev_reg d c b).
  { intros c b. rewrite R. unfold stored; simpl. destruct (decide (b = a)) as [->|]; [|by rewrite decide_False by tauto].
    destruct (decide (c = _)); [by rewrite decide_True|by rewrite decide_False by tauto]. }
  split; [by rewrite R', V, Hv, decide_True|]. split; [done|]. split; [apply M|]. split; [done|].
  split; [apply M|]. split; [|done]. by rewrite (mv_view _ _ _ _ M).
Qed.

Lemma ptt_write_reaches_register_witness :
  let '(t', d') := qed_wr true 0x501a80 7 ptt5 sim0 in
  let '(v2, t2', d'') := qed_rd true 0x501a80 ptt6 d' in
  v2 = 7 /\ coherent t2' d''.
Proof.
  pose proof (ptt_write_reaches_register sim _ true 0x501a80 7 ptt5 ptt6 sim0
    ptt5_coherent ptt6_coherent ltac:(done) eq_refl ltac:(done) I ltac:(done)) as W.
  destruct (qed_wr true 0x501a80 7 ptt5 sim0) as [t' d'].
  destruct (qed_rd true 0x501a80 ptt6 d') as [[v2 t2'] d'']. tauto.
Defined.

(** C26: [qed_memcpy_to] followed by [qed_memcpy_from], over any number of
    windows, terminates within the fuel of one iteration per window and gives
    back the whole dwords of the source buffer; nothing outside the block is
    written, and the rest of the destination buffer is kept. *)
Theorem memcpy_roundtrip (D : Type) `(PxpDeviceLaws D) hw_addr n src dst (t t2 : qed_ptt) (d : D) :
  coherent t d -> coherent t2 d -> ptt_idx t2 <> ptt_idx t ->
  dev_view d (ptt_idx t2) = dev_view d (ptt_idx t) -> block_ok hw_addr n ->
  block_fits hw_addr src ->
  n / 4 <= Z.of_nat (length src) -> n / 4 <= Z.of_nat (length dst) ->
  exists t' d' t2' d'',
    qed_memcpy_to true hw_addr (Some src) n t d = Some (t', d') /\
    qed_memcpy_from true (Some dst) hw_addr n t2 d' =
      Some (Some (take (dwords n) src ++ drop (dwords n) dst), t2', d'') /\
    (forall c b, b < hw_addr \/ hw_addr + n <= b -> dev_reg d' c b = dev_reg d c b) /\
    dev_reg d'' = dev_reg d'.
Proof.
  intros C1 C2 Hij Hv Hb Hbf Hsrc Hdst. pose proof Hb as (_ & _ & Hn & _).
  assert (Hs : (dwords n <= length src)%nat) by (unfold dwords; lia).
  assert (Hd : (dwords n <= length dst)%nat) by (unfold dwords; lia).
  destruct (memcpy_store_spec (memcpy_fuel n) TO_DEVICE hw_addr n 0 src src t d) as (t' & d' & E1 & A);
    [by left|done..| |by left|by apply memcpy_fuel_enough|]; [lia|].
  change (dwords 0) with 0%nat in A. rewrite Nat.sub_0_r, drop_0, Z.add_0_r in A.
  destruct (memcpy_load_spec (memcpy_fuel n) hw_addr n 0 dst t2 d') as (t2' & d'' & E2 & M);
    [done|done|by apply (coherent_frame _ d), C2; apply A|lia|by left|by apply memcpy_fuel_enough|].
  change (dwords 0) with 0%nat in E2. rewrite Nat.sub_0_r, Z.add_0_r in E2.
  exists t', d', t2', d''. unfold qed_memcpy_to, qed_memcpy_from, qed_memcpy_hw. rewrite E1, E2. simpl.
  split; [done|]. split; [|split; [|apply M]].
  - do 4 f_equal. rewrite (ac_view _ _ _ _ _ A), Hv.
    rewrite (read_regs_ext _ _ _ _ _ (fun k _ => ac_reg _ _ _ _ _ A _ _)).
    assert (L : length (take (dwords n) src) = dwords n) by (rewrite length_take; lia).
    rewrite <- L at 1. rewrite read_stored. unfold host_store. by rewrite take_0, L.
  - intros c b Hb'. rewrite (ac_reg _ _ _ _ _ A). unfold stored.
    assert (L : length (take (dwords n) src) = dwords n) by (rewrite length_take; lia).
    destruct Hb'; [rewrite dw_at_below by done|rewrite dw_at_above]; [done|done|].
    rewrite L. unfold dwords. pose proof (Z.mul_div_le n 4). lia.
Qed.

Lemma memcpy_roundtrip_witness :
  exists t' d' t2' d'',
    qed_memcpy_to true 0x501000 (Some (replicate 1500 9)) 5000 ptt5 sim0 = Some (t', d') /\
    qed_memcpy_from true (Some (replicate 1300 1)) 0x501000 5000 ptt6 d' =
      Some (Some (replicate 1250 9 ++ replicate 50 1), t2', d'').
Proof.
  destruct (memcpy_roundtrip sim _ 0x501000 5000 (replicate 1500 9) (replicate 1300 1) ptt5 ptt6 sim0
    ptt5_coherent ptt6_coherent ltac:(done) eq_refl) as (t' & d' & t2' & d'' & E1 & E2 & _).
  - repeat split; done.
  - intros k w Hk. apply lookup_replicate in Hk as [-> _]. done.
  - rewrite length_replicate. vm_compute. discriminate.
  - rewrite length_replicate. vm_compute. discriminate.
  - exists t', d', t2', d''. split; [exact E1|]. rewrite E2.
    change (dwords 5000) with 1250%nat. rewrite take_replicate, drop_replicate. reflexivity.
Defined.

(** [qed_ppfid_wr] writes the register of the function it pretends to be
    and of no other, and [qed_ppfid_rd] of the same function reads it back;
    afterwards the entry acts for its own function again, and the entry's
    window is the only one that moved. *)
Theorem ppfid_access_restores_view (D : Type) `(PxpDeviceLaws D) chk rel pfid a v (t : qed_ptt) (d : D) :
  coherent t d -> grc_addr a -> dev_plain a -> dev_fits a v -> 0 <= pfid < 16 -> 0 <= rel < 16 ->
  let '(t', d') := qed_ppfid_wr chk rel pfid a v t d in
  let '(v2, t'', d'') := qed_ppfid_rd chk rel pfid a t' d' in
  v2 = v /\ coherent t'' d'' /\ dev_view d' (ptt_idx t) = mk_view rel None /\
  dev_view d'' (ptt_idx t) = mk_view rel None /\
  (forall c b, b <> a \/ c <> dev_copy a (mk_view pfid None) -> dev_reg d'' c b = dev_reg d c b) /\
  (forall j, j <> ptt_idx t -> dev_view d'' j = dev_view d j /\ dev_win d'' j = dev_win d j).
Proof.
  intros Hco Ha Hp Hfit Hpf Hrel.
  destruct (qed_ppfid_wr chk rel pfid a v t d) as [t' d'] eqn:E1.
  apply ppfid_wr_spec in E1 as [I1 C1 V1 O1 R1]; [|done..].
  destruct (qed_ppfid_rd chk rel pfid a t' d') as [[v2 t''] d''] eqn:E2.
  apply ppfid_rd_spec in E2 as [[I2 C2 V2 O2 R2] ->]; [|done..]. rewrite I1 in *.
  split; [rewrite R1; unfold stored; simpl; by rewrite !decide_True|]. repeat (split; [done|]). split.
  - intros c b Hn. rewrite R2, R1. unfold stored; simpl.
    destruct (decide (b = a)) as [->|]; [|done]. rewrite decide_False by tauto. done.
  - intros j Hj. destruct (O1 j Hj), (O2 j Hj). split; congruence.
Qed.

Lemma ppfid_access_restores_view_witness :
  let '(t', d') := qed_ppfid_wr false 2 6 0x501a80 1 ptt5 sim0 in
  dev_view d' (ptt_idx ptt5) = mk_view 2 None.
Proof.
  pose proof (ppfid_access_restores_view sim _ false 2 6 0x501a80 1 ptt5 sim0 ptt5_coherent
    ltac:(done) I ltac:(done) ltac:(done) ltac:(done)) as W.
  destruct (qed_ppfid_wr false 2 6 0x501a80 1 ptt5 sim0) as [t' d'].
  destruct (qed_ppfid_rd false 2 6 0x501a80 t' d') as [[v2 t''] d'']. tauto.
Defined.

(** An acquired PTT entry belongs to its caller alone: with every entry
    free or held by one user, and the other users only acquiring free entries
    and releasing their own between the tries, [qed_ptt_acquire] returns an
    entry that nobody holds and that is not a reserved one, or NULL; it does
    return one if the free list is non-empty at one of its 1000 tries; and
    releasing the entry makes it free again. *)
Theorem ptt_acquire_exclusive world mine others p k :
  pool_inv (free_list p) (mine ++ others) -> others_ok mine world ->
  exists others' p', snd (qed_ptt_acquire world (Some p)) = Some p' /\
  match fst (qed_ptt_acquire world (Some p)) with
  | Some i => pool_inv (free_list p') (i :: mine ++ others') /\ i ∉ mine ++ others' /\ (4 <= i < 12)%nat /\
      pool_inv (free_list (qed_ptt_release i p')) (mine ++ others')
  | None => pool_inv (free_list p') (mine ++ others') /\
      ~ ((k < QED_BAR_ACQUIRE_TIMEOUT)%nat /\ forall fl, world k fl <> [])
  end.
Proof.
  intros Hi Hw. unfold qed_ptt_acquire.
  destruct (ptt_acquire_loop QED_BAR_ACQUIRE_TIMEOUT world 0 p) as [r p'] eqn:E; cbn [fst snd].
  destruct (acquire_loop_inv _ _ _ _ _ _ _ _ Hw Hi E) as [others' Hi'].
  exists others', p'. split; [done|]. destruct r as [i|].
  - split; [done|]. pose proof (pool_inv_held _ _ _ Hi') as (H1 & H2 & H3). repeat split; [done|lia|lia|].
    unfold pool_inv in *; simpl. by rewrite <- Permutation_middle.
  - split; [done|]. intros [Hk Hne].
    apply (acquire_loop_some QED_BAR_ACQUIRE_TIMEOUT world 0 p k); [lia|done|by rewrite E].
Qed.

Lemma ptt_acquire_exclusive_witness :
  exists others' p', snd (qed_ptt_acquire (fun _ fl => fl) (Some (mk_qed_ptt_pool (seq 5 7) []))) = Some p' /\
  pool_inv (free_list p') (5%nat :: [4%nat] ++ others').
Proof.
  destruct (ptt_acquire_exclusive (fun _ fl => fl) [4%nat] [] (mk_qed_ptt_pool (seq 5 7) []) 0)
    as (others' & p' & E & W).
  - unfold pool_inv; reflexivity.
  - intros n fl others Hi. by exists others.
  - exists others', p'. split; [exact E|].
    assert (F : fst (qed_ptt_acquire (fun _ fl => fl) (Some (mk_qed_ptt_pool (seq 5 7) []))) = Some 5%nat)
      by (vm_compute; reflexivity).
    rewrite F in W. exact (proj1 W).
Defined.

(** A fresh pool has every non-reserved entry free and no cached window
    position, and [qed_ptt_invalidate] discards the cached positions: in
    either state every entry is coherent with whatever state the windows of
    the device are in, so the next access through it moves the window first. *)
Theorem ptt_invalidate_coherent (D : Type) `(PxpDeviceLaws D) my_id fid0 p p1 i t (d : D) :
  qed_ptt_pool_alloc true my_id fid0 = (0, Some p) -> pool_wf p1 ->
  ptts p !! i = Some t \/ ptts (qed_ptt_invalidate p1) !! i = Some t ->
  coherent t d /\ pool_inv (free_list p) [] /\ pool_wf p /\ pool_wf (qed_ptt_invalidate p1).
Proof.
  intros E Hwf Ht. unfold qed_ptt_pool_alloc in E; simpl in E. simplify_eq.
  assert (W : pool_wf (qed_ptt_invalidate p1)).
  { intros j u Hu. simpl in Hu. apply list_lookup_fmap_Some in Hu as (u' & -> & Hu). by apply Hwf in Hu. }
  match goal with |- context [pool_wf ?q /\ _] => assert (W0 : pool_wf q) end.
  { intros j u Hu. simpl in Hu. do 12 (destruct j as [|j]; [simpl in Hu; simplify_eq; by split|]). done. }
  split; [|split; [|by split]].
  - destruct Ht as [Ht|Ht]; (split; [|left]).
    + by apply W0 in Ht as [_ ?].
    + simpl in Ht. do 12 (destruct i as [|i]; [simpl in Ht; by simplify_eq|]). done.
    + by apply W in Ht as [_ ?].
    + simpl in Ht. by apply list_lookup_fmap_Some in Ht as (u' & -> & _).
  - unfold pool_inv. simpl. by rewrite <- (reverse_Permutation (seq 4 8)).
Qed.

Lemma ptt_invalidate_coherent_witness :
  coherent (mk_qed_ptt 3 QED_BAR_INVALID_OFFSET 0 9 1) sim0.
Proof.
  eapply (ptt_invalidate_coherent sim _ 1 9 _ (mk_qed_ptt_pool [] []) 3 _ sim0);
    [reflexivity|intros i t Ht; discriminate Ht|left; reflexivity].
Defined.
