(* ===== verification/Llh.v ===== *)
(** * The LLH classification filters (qed_dev.c, "NIG LLH")

    The light L2 hardware block steers an incoming packet to a function by
    comparing it with banks of 16 filters, one bank per "ppfid" of the port.
    The driver keeps a shadow of every bank with a reference count per filter,
    and writes a filter to the chip when its first user appears and disables
    it when its last user is gone.

    Registers are reached through [RegBus], the interface that the PTT layer
    (Ptt.v) and the DMA engine offer.  [RegAccessLaws] states what the PTT layer
    promises, and RegBusPtt.v shows that it does; [RegBusLaws] adds what the
    transfers of the DMA engine promise. *)

From S2P Require Import Prelude.

(** ** The register interface *)

Class RegBus (B : Type) := {
  bus_acquire : B -> option nat * B;                      (* qed_ptt_acquire *)
  bus_release : nat -> B -> B;                            (* qed_ptt_release *)
  bus_wr : nat -> Z -> Z -> B -> B;                       (* qed_wr *)
  bus_rd : nat -> Z -> B -> Z * B;                        (* qed_rd *)
  bus_ppfid_wr : nat -> Z -> Z -> Z -> B -> B;            (* qed_ppfid_wr, by pfid *)
  bus_ppfid_rd : nat -> Z -> Z -> B -> Z * B;             (* qed_ppfid_rd, by pfid *)
  bus_dmae_wr : nat -> Z -> Z -> list Z -> B -> Z * B;    (* qed_dmae_host2grc, DST_PF_VALID *)
  bus_dmae_rd : nat -> Z -> Z -> nat -> B -> Z * list Z * B; (* qed_dmae_grc2host, SRC_PF_VALID *)
  bus_own : B -> Z;                                       (* the function's own pfid *)
  bus_held : B -> list nat;                               (* acquired PTT entries *)
  bus_reg : B -> Z -> Z -> Z;                             (* a register, as a pfid sees it *)
  bus_ok : B -> Prop;                                     (* the layer's own invariant *)
  bus_plain : Z -> Prop;                                  (* a register that stores what is written *)
  bus_banked : Z -> Prop;                                 (* a register with a copy per function *)
  bus_fits : Z -> Z -> Prop                               (* a value within a register's width *)
}.

(** What every access keeps. *)
Record bus_step {B} `{RegBus B} (b b' : B) : Prop := {
  bs_ok : bus_ok b';
  bs_own : bus_own b' = bus_own b;
  bs_held : bus_held b' = bus_held b
}.

Definition is_pfid (f : Z) : Prop := 0 <= f < 16.

(** Acquiring entries and accessing single registers: the PTT layer. *)
Class RegAccessLaws (B : Type) `{RegBus B} : Prop := {
  law_acquire b : bus_ok b ->
    let '(r, b') := bus_acquire b in
    bus_ok b' /\ bus_own b' = bus_own b /\ bus_reg b' = bus_reg b /\
    match r with
    | Some t => t ∉ bus_held b /\ bus_held b' = t :: bus_held b
    | None => bus_held b' = bus_held b
    end;
  law_release b t h : bus_ok b -> bus_held b = t :: h ->
    bus_ok (bus_release t b) /\ bus_own (bus_release t b) = bus_own b /\
    bus_reg (bus_release t b) = bus_reg b /\ bus_held (bus_release t b) = h;
  law_wr b t a v : bus_ok b -> t ∈ bus_held b -> bus_plain a -> bus_fits a v ->
    bus_step b (bus_wr t a v b) /\ bus_reg (bus_wr t a v b) (bus_own b) a = v /\
    forall f x, x <> a -> bus_reg (bus_wr t a v b) f x = bus_reg b f x;
  law_rd b t a : bus_ok b -> t ∈ bus_held b -> bus_plain a ->
    let '(v, b') := bus_rd t a b in
    bus_step b b' /\ v = bus_reg b (bus_own b) a /\ forall f x, bus_reg b' f x = bus_reg b f x;
  law_ppfid_wr b t p a v : bus_ok b -> t ∈ bus_held b -> is_pfid p -> bus_plain a -> bus_fits a v ->
    bus_step b (bus_ppfid_wr t p a v b) /\ bus_reg (bus_ppfid_wr t p a v b) p a = v /\
    forall f x, x <> a \/ bus_banked a /\ is_pfid f /\ f <> p -> bus_reg (bus_ppfid_wr t p a v b) f x = bus_reg b f x;
  law_ppfid_rd b t p a : bus_ok b -> t ∈ bus_held b -> is_pfid p -> bus_plain a ->
    let '(v, b') := bus_ppfid_rd t p a b in
    bus_step b b' /\ v = bus_reg b p a /\ forall f x, bus_reg b' f x = bus_reg b f x
}.

(** With the block transfers of the DMA engine, outside a recovery: a transfer
    that reports success has moved the dwords, and no other plain register has
    changed (the command memory and the GO registers of the engine, which the
    code writes for every transfer, are not plain). *)
Class RegBusLaws (B : Type) `{RegBus B} : Prop := {
  law_access :: RegAccessLaws B;
  law_dmae_wr b t p a vs : bus_ok b -> t ∈ bus_held b -> is_pfid p ->
    (forall k v, vs !! k = Some v -> let x := a + 4 * Z.of_nat k in bus_plain x /\ bus_banked x /\ bus_fits x v) ->
    let '(rc, b') := bus_dmae_wr t p a vs b in
    bus_step b b' /\
    (rc = 0 -> forall k v, vs !! k = Some v -> bus_reg b' p (a + 4 * Z.of_nat k) = v) /\
    forall f x, bus_plain x -> is_pfid f /\ f <> p \/ (forall k, (k < length vs)%nat -> x <> a + 4 * Z.of_nat k) ->
      bus_reg b' f x = bus_reg b f x;
  law_dmae_rd b t p a n : bus_ok b -> t ∈ bus_held b -> is_pfid p ->
    (forall k, (k < n)%nat -> bus_plain (a + 4 * Z.of_nat k)) ->
    let '(rc, vs, b') := bus_dmae_rd t p a n b in
    bus_step b b' /\ (forall f x, bus_plain x -> bus_reg b' f x = bus_reg b f x) /\
    (rc = 0 -> vs = (fun k => bus_reg b p (a + 4 * Z.of_nat k)) <$> seq 0 n)
}.

(** ** Data *)

Definition MAX_NUM_PPFID : Z := 8.
Definition NIG_REG_LLH_FUNC_FILTER_EN_SIZE : Z := 16.
Definition QED_LLH_INVALID_FILTER_IDX : Z := 0xff.
Definition NIG_REG_LLH_PPFID2PFID_TBL_0 : Z := 0x501970.
Definition NIG_REG_LLH_FUNC_FILTER_VALUE : Z := 0x501a00.
Definition NIG_REG_LLH_FUNC_FILTER_EN : Z := 0x501a80.
Definition NIG_REG_LLH_FUNC_FILTER_MODE : Z := 0x501ac0.
Definition NIG_REG_LLH_FUNC_FILTER_PROTOCOL_TYPE : Z := 0x501b00.
Definition NIG_REG_LLH_FUNC_FILTER_HDR_SEL : Z := 0x501b40.
Definition NIG_REG_LLH_ENG_CLS_ROCE_QP_SEL : Z := 0x501b98.
Definition NIG_REG_PPF_TO_ENGINE_SEL : Z := 0x508900.

Inductive qed_llh_filter_type := QED_LLH_FILTER_TYPE_MAC | QED_LLH_FILTER_TYPE_PROTOCOL.
Inductive qed_eng := QED_ENG0 | QED_ENG1 | QED_BOTH_ENG.
Inductive qed_pci_personality :=
  QED_PCI_ETH | QED_PCI_FCOE | QED_PCI_ISCSI | QED_PCI_ETH_ROCE | QED_PCI_ETH_IWARP | QED_PCI_ETH_RDMA
| QED_PCI_DEFAULT.

(** [enum qed_llh_prot_filter_type_t], by value. *)
Definition QED_LLH_FILTER_ETHERTYPE : Z := 0.
Definition QED_LLH_FILTER_TCP_SRC_PORT : Z := 1.
Definition QED_LLH_FILTER_TCP_DEST_PORT : Z := 2.
Definition QED_LLH_FILTER_TCP_SRC_AND_DEST_PORT : Z := 3.
Definition QED_LLH_FILTER_UDP_SRC_PORT : Z := 4.
Definition QED_LLH_FILTER_UDP_DEST_PORT : Z := 5.
Definition QED_LLH_FILTER_UDP_SRC_AND_DEST_PORT : Z := 6.

(** [union qed_llh_filter] is compared and copied as bytes ([memcmp],
    [memcpy]), so it is modelled as its eight bytes: a MAC address followed by
    two zero bytes, or the little-endian type, source port (or Ethertype) and
    destination port. *)
Definition filter_bytes := list Z.
Definition FILTER_SIZE : nat := 8.
Definition zero_filter : filter_bytes := replicate FILTER_SIZE 0.

Definition le_bytes (n : nat) (v : Z) : list Z := (fun i => Z.land (Z.shiftr v (8 * Z.of_nat i)) 0xff) <$> seq 0 n.

Definition mac_filter (mac : list Z) : filter_bytes := mac ++ replicate 2 0.
Definition protocol_filter (type source_port_or_eth_type dest_port : Z) : filter_bytes :=
  le_bytes 4 type ++ le_bytes 2 source_port_or_eth_type ++ le_bytes 2 dest_port.

Record qed_llh_filter_info := mk_filter_info {
  b_enabled : bool;
  ref_cnt : Z;
  ftype : qed_llh_filter_type;
  ffilter : filter_bytes
}.

(** The entry as [kzalloc] and [memset] leave it. *)
Definition zero_info : qed_llh_filter_info := mk_filter_info false 0 QED_LLH_FILTER_TYPE_MAC zero_filter.

Record qed_llh_info := mk_llh_info {
  num_ppfid : Z;
  ppfid_array : list Z;
  pp_filters : list (list qed_llh_filter_info)
}.

Record llh_cfg := mk_llh_cfg {
  ppfid_bitmap : Z;
  mf_llh_mac_clss : bool;        (* test_bit(QED_MF_LLH_MAC_CLSS, &cdev->mf_bits) *)
  mf_llh_proto_clss : bool;
  mf_ovlan_clss : bool;
  is_vf : bool;
  num_hwfns : Z;
  is_bb : bool;
  num_ports_in_engine : Z;
  device_num_ports : Z;
  abs_pf_id : Z;
  rel_pf_id : Z;
  personality : qed_pci_personality;
  hw_mac_addr : list Z
}.

Record llh_state (B : Type) := mk_llh_state {
  llh : qed_llh_info;            (* cdev->p_llh_info *)
  fir_affin : Z;
  l2_affin_hint : Z;
  iwarp_affin : Z;
  bus : B
}.
Arguments mk_llh_state {B}.
Arguments llh {B}.
Arguments fir_affin {B}.
Arguments l2_affin_hint {B}.
Arguments iwarp_affin {B}.
Arguments bus {B}.

Definition set_llh {B} (i : qed_llh_info) (s : llh_state B) : llh_state B :=
  mk_llh_state i (fir_affin s) (l2_affin_hint s) (iwarp_affin s) (bus s).
Definition set_bus {B} (b : B) (s : llh_state B) : llh_state B :=
  mk_llh_state (llh s) (fir_affin s) (l2_affin_hint s) (iwarp_affin s) b.

(** Results of the shadow operations: an access outside an array, an error
    code (no state is changed then), or a value. *)
Inductive res (A : Type) := Fault | Err (rc : Z) | Ok (a : A).
Arguments Fault {A}.
Arguments Err {A}.
Arguments Ok {A}.

Definition res_bind {A C} (r : res A) (f : A -> res C) : res C :=
  match r with Fault => Fault | Err rc => Err rc | Ok a => f a end.
Notation "'let!' x ':=' r 'in' k" := (res_bind r (fun x => k))
  (at level 200, x pattern, r at level 100, k at level 200, right associativity) : qed_scope.
Definition of_option {A} (o : option A) : res A := match o with Some a => Ok a | None => Fault end.
Definition check (rc : Z) : res unit := if rc =? 0 then Ok tt else Err rc.

(** ** Allocation *)

(** [kzalloc] number [n] succeeds iff [ok n]; [live] counts the blocks that
    are allocated.  A bank pointer that is still NULL is [None]. *)
Record llh_mem := mk_llh_mem { live : nat; p_llh_info : option (qed_llh_info * option (list (option (list qed_llh_filter_info)))) }.

Definition scan_ppfids (bitmap : Z) : list Z :=
  List.filter (fun i => negb (Z.land bitmap (Z.shiftl 1 i) =? 0)) (Z.of_nat <$> seq 0 (Z.to_nat MAX_NUM_PPFID)).

Definition zero_bank : list qed_llh_filter_info := replicate (Z.to_nat NIG_REG_LLH_FUNC_FILTER_EN_SIZE) zero_info.

(** The loop that allocates the banks; [done] of them are allocated. *)
Fixpoint alloc_banks (fuel : nat) (ok : nat -> bool) (n : nat) : bool * list (option (list qed_llh_filter_info)) :=
  match fuel with
  | O => (true, [])
  | S fuel' =>
      if ok n then let '(r, l) := alloc_banks fuel' ok (S n) in (r, Some zero_bank :: l)
      else (false, replicate fuel None)
  end.

Definition count_some {A} (l : list (option A)) : nat := length (omap id l).

Definition qed_llh_alloc (ok : nat -> bool) (bitmap : Z) (m : llh_mem) : Z * llh_mem :=
  if negb (ok 0%nat) then (- ENOMEM, m) else
  let ids := scan_ppfids bitmap in
  let arr := ids ++ replicate (Z.to_nat MAX_NUM_PPFID - length ids) 0 in
  let info := mk_llh_info (Z.of_nat (length ids)) arr [] in
  if negb (ok 1%nat) then (- ENOMEM, mk_llh_mem (live m + 1) (Some (info, None))) else
  let '(r, banks) := alloc_banks (length ids) ok 2 in
  ((if r then 0 else - ENOMEM),
   mk_llh_mem (live m + 2 + count_some banks) (Some (info, Some banks))).

Definition qed_llh_free (m : llh_mem) : llh_mem :=
  match p_llh_info m with
  | None => m
  | Some (info, None) => mk_llh_mem (live m - 1) None
  | Some (info, Some banks) =>
      mk_llh_mem (live m - count_some (take (Z.to_nat (num_ppfid info)) banks) - 2) None
  end.

(** The structure the other operations work on, when all is allocated. *)
Definition llh_ready (m : llh_mem) : option qed_llh_info :=
  '(info, banks) ← p_llh_info m;
  banks ← banks;
  banks ← mapM id banks;
  Some (mk_llh_info (num_ppfid info) (ppfid_array info) banks).

(** ** The shadow *)

Definition qed_llh_shadow_sanity (i : qed_llh_info) (ppfid filter_idx : Z) : Z :=
  if num_ppfid i <=? ppfid then - EINVAL else
  if NIG_REG_LLH_FUNC_FILTER_EN_SIZE <=? filter_idx then - EINVAL else 0.

Definition bank (i : qed_llh_info) (ppfid : Z) : option (list qed_llh_filter_info) :=
  pp_filters i !! Z.to_nat ppfid.

Definition set_bank (i : qed_llh_info) (ppfid : Z) (b : list qed_llh_filter_info) : qed_llh_info :=
  mk_llh_info (num_ppfid i) (ppfid_array i) (<[Z.to_nat ppfid := b]> (pp_filters i)).

(** The loop [for (i = 0; i < NIG_REG_LLH_FUNC_FILTER_EN_SIZE; i++)] that stops
    at the first entry satisfying [p]; an entry outside the bank is a fault. *)
Fixpoint scan_bank (fuel : nat) (p : qed_llh_filter_info -> bool) (b : list qed_llh_filter_info) (i : Z)
    : res Z :=
  match fuel with
  | O => Ok QED_LLH_INVALID_FILTER_IDX
  | S fuel' =>
      let! e := of_option (b !! Z.to_nat i) in
      if p e then Ok i else scan_bank fuel' p b (u8 (i + 1))
  end.

Definition bank_scan (p : qed_llh_filter_info -> bool) (b : list qed_llh_filter_info) : res Z :=
  scan_bank (Z.to_nat NIG_REG_LLH_FUNC_FILTER_EN_SIZE) p b 0.

Definition qed_llh_shadow_search_filter (i : qed_llh_info) (ppfid : Z) (f : filter_bytes) : res Z :=
  let! _ := check (qed_llh_shadow_sanity i ppfid 0) in
  let! b := of_option (bank i ppfid) in
  bank_scan (fun e => bool_decide (f = ffilter e)) b.

Definition qed_llh_shadow_get_free_idx (i : qed_llh_info) (ppfid : Z) : res Z :=
  let! _ := check (qed_llh_shadow_sanity i ppfid 0) in
  let! b := of_option (bank i ppfid) in
  bank_scan (fun e => negb (b_enabled e)) b.

(** [__qed_llh_shadow_add_filter]: the new shadow and the reference count. *)
Definition shadow_add_at (i : qed_llh_info) (ppfid filter_idx : Z) (type : qed_llh_filter_type)
    (f : filter_bytes) : res (Z * qed_llh_info) :=
  let! _ := check (qed_llh_shadow_sanity i ppfid filter_idx) in
  let! b := of_option (bank i ppfid) in
  let! e := of_option (b !! Z.to_nat filter_idx) in
  let e := if ref_cnt e =? 0 then mk_filter_info true (ref_cnt e) type f else e in
  let r := u32 (ref_cnt e + 1) in
  Ok (r, set_bank i ppfid (<[Z.to_nat filter_idx := mk_filter_info (b_enabled e) r (ftype e) (ffilter e)]> b)).

Definition qed_llh_shadow_add_filter (i : qed_llh_info) (ppfid : Z) (type : qed_llh_filter_type)
    (f : filter_bytes) : res (Z * Z * qed_llh_info) :=
  let! idx := qed_llh_shadow_search_filter i ppfid f in
  let! idx := if idx =? QED_LLH_INVALID_FILTER_IDX then qed_llh_shadow_get_free_idx i ppfid else Ok idx in
  if idx =? QED_LLH_INVALID_FILTER_IDX then Err (- EINVAL) else
  let! (r, i) := shadow_add_at i ppfid idx type f in
  Ok (idx, r, i).

(** [__qed_llh_shadow_remove_filter]. *)
Definition shadow_remove_at (i : qed_llh_info) (ppfid filter_idx : Z) : res (Z * qed_llh_info) :=
  let! _ := check (qed_llh_shadow_sanity i ppfid filter_idx) in
  let! b := of_option (bank i ppfid) in
  let! e := of_option (b !! Z.to_nat filter_idx) in
  if ref_cnt e =? 0 then Err (- EINVAL) else
  let r := u32 (ref_cnt e - 1) in
  let e := if r =? 0 then zero_info else mk_filter_info (b_enabled e) r (ftype e) (ffilter e) in
  Ok (r, set_bank i ppfid (<[Z.to_nat filter_idx := e]> b)).

Definition qed_llh_shadow_remove_filter (i : qed_llh_info) (ppfid : Z) (f : filter_bytes)
    : res (Z * Z * qed_llh_info) :=
  let! idx := qed_llh_shadow_search_filter i ppfid f in
  if idx =? QED_LLH_INVALID_FILTER_IDX then Err (- EINVAL) else
  let! (r, i) := shadow_remove_at i ppfid idx in
  Ok (idx, r, i).

Definition qed_llh_shadow_remove_all_filters (i : qed_llh_info) (ppfid : Z) : res qed_llh_info :=
  let! _ := check (qed_llh_shadow_sanity i ppfid 0) in
  let! _ := of_option (bank i ppfid) in
  Ok (set_bank i ppfid zero_bank).

Definition qed_abs_ppfid (i : qed_llh_info) (rel_ppfid : Z) : res Z :=
  if num_ppfid i <=? rel_ppfid then Err (- EINVAL) else of_option (ppfid_array i !! Z.to_nat rel_ppfid).

Definition MFW_PORT (c : llh_cfg) : Z := abs_pf_id c mod device_num_ports c.
Definition QED_PFID_BY_PPFID (c : llh_cfg) (abs_ppfid : Z) : Z :=
  u8 (if is_bb c then abs_ppfid else abs_ppfid * num_ports_in_engine c + MFW_PORT c).

(** ** Register accesses *)

Section Hw.
  Context {B : Type} `{RegBus B} (c : llh_cfg).

Record qed_llh_filter_details := mk_details {
  fd_value : Z;
  fd_mode : Z;
  fd_protocol_type : Z;
  fd_hdr_sel : Z;
  fd_enable : Z
}.

(** The two dwords of the 64-bit value, in memory order. *)
Definition value_dwords (v : Z) : list Z := [Z.land v 0xffffffff; Z.shiftr v 32].
Definition dwords_value (l : list Z) : Z :=
  match l with lo :: hi :: _ => Z.lor (Z.shiftl hi 32) lo | _ => 0 end.

Definition en_addr (idx : Z) : Z := NIG_REG_LLH_FUNC_FILTER_EN + idx * 4.
Definition value_addr (idx : Z) : Z := NIG_REG_LLH_FUNC_FILTER_VALUE + 2 * idx * 4.
Definition mode_addr (idx : Z) : Z := NIG_REG_LLH_FUNC_FILTER_MODE + idx * 4.
Definition prot_addr (idx : Z) : Z := NIG_REG_LLH_FUNC_FILTER_PROTOCOL_TYPE + idx * 4.
Definition hdr_addr (idx : Z) : Z := NIG_REG_LLH_FUNC_FILTER_HDR_SEL + idx * 4.

(** [qed_llh_access_filter] with [b_write_access]. *)
Definition write_filter (t : nat) (abs_ppfid idx : Z) (p : qed_llh_filter_details) (b : B) : Z * B :=
  let pfid := QED_PFID_BY_PPFID c abs_ppfid in
  let b := if fd_enable p =? 0 then bus_ppfid_wr t pfid (en_addr idx) (fd_enable p) b else b in
  let '(rc, b) := bus_dmae_wr t pfid (value_addr idx) (value_dwords (fd_value p)) b in
  if negb (rc =? 0) then (rc, b) else
  let b := bus_ppfid_wr t pfid (mode_addr idx) (fd_mode p) b in
  let b := bus_ppfid_wr t pfid (prot_addr idx) (fd_protocol_type p) b in
  let b := bus_ppfid_wr t pfid (hdr_addr idx) (fd_hdr_sel p) b in
  let b := if negb (fd_enable p =? 0) then bus_ppfid_wr t pfid (en_addr idx) (fd_enable p) b else b in
  (0, b).

(** [qed_llh_access_filter] without [b_write_access]. *)
Definition read_filter (t : nat) (abs_ppfid idx : Z) (b : B) : Z * qed_llh_filter_details * B :=
  let pfid := QED_PFID_BY_PPFID c abs_ppfid in
  let '(rc, v, b) := bus_dmae_rd t pfid (value_addr idx) 2 b in
  if negb (rc =? 0) then (rc, mk_details (dwords_value v) 0 0 0 0, b) else
  let '(mode, b) := bus_ppfid_rd t pfid (mode_addr idx) b in
  let '(prot, b) := bus_ppfid_rd t pfid (prot_addr idx) b in
  let '(hdr, b) := bus_ppfid_rd t pfid (hdr_addr idx) b in
  let '(en, b) := bus_ppfid_rd t pfid (en_addr idx) b in
  (0, mk_details (dwords_value v) mode prot hdr en, b).

Definition qed_llh_add_filter (t : nat) (abs_ppfid idx filter_prot_type high low : Z) (b : B) : Z * B :=
  write_filter t abs_ppfid idx (mk_details
    (Z.lor (Z.shiftl high 32) low)
    (if filter_prot_type =? 0 then 0 else 1)
    filter_prot_type
    (if mf_ovlan_clss c then 1 else 0)
    1) b.

Definition qed_llh_remove_filter (t : nat) (abs_ppfid idx : Z) (b : B) : Z * B :=
  write_filter t abs_ppfid idx (mk_details 0 0 0 0 0) b.

(** [high] and [low] of a MAC address. *)
Definition mac_hilo (m : list Z) : Z * Z :=
  let at_ n := nth n m 0 in
  (Z.lor (at_ 1%nat) (Z.shiftl (at_ 0%nat) 8),
   Z.lor (Z.lor (Z.lor (at_ 5%nat) (Z.shiftl (at_ 4%nat) 8)) (Z.shiftl (at_ 3%nat) 16)) (Z.shiftl (at_ 2%nat) 24)).

(** [qed_llh_protocol_filter_stringify]: only its verdict on the type matters,
    the text is for the log. *)
Definition qed_llh_protocol_filter_stringify (type : Z) : Z :=
  if bool_decide (type ∈ [QED_LLH_FILTER_ETHERTYPE; QED_LLH_FILTER_TCP_SRC_PORT; QED_LLH_FILTER_UDP_SRC_PORT;
       QED_LLH_FILTER_TCP_DEST_PORT; QED_LLH_FILTER_UDP_DEST_PORT; QED_LLH_FILTER_TCP_SRC_AND_DEST_PORT;
       QED_LLH_FILTER_UDP_SRC_AND_DEST_PORT])
  then 0 else - EINVAL.

Definition qed_llh_protocol_filter_to_hilo (type src dst : Z) : res (Z * Z) :=
  if type =? QED_LLH_FILTER_ETHERTYPE then Ok (src, 0)
  else if (type =? QED_LLH_FILTER_TCP_SRC_PORT) || (type =? QED_LLH_FILTER_UDP_SRC_PORT)
  then Ok (0, u32 (Z.shiftl src 16))
  else if (type =? QED_LLH_FILTER_TCP_DEST_PORT) || (type =? QED_LLH_FILTER_UDP_DEST_PORT) then Ok (0, dst)
  else if (type =? QED_LLH_FILTER_TCP_SRC_AND_DEST_PORT) || (type =? QED_LLH_FILTER_UDP_SRC_AND_DEST_PORT)
  then Ok (0, u32 (Z.lor (Z.shiftl src 16) dst))
  else Err (- EINVAL).

(** ** Filter operations

    The result is the return code and the state; [None] is an access outside
    an array.  [with_ptt] is the frame they share: acquire an entry, return
    [err] if there is none, run the body, release the entry at [out]. *)
Definition with_ptt (err : Z) (s : llh_state B) (body : nat -> llh_state B -> option (Z * llh_state B))
    : option (Z * llh_state B) :=
  let '(t, b) := bus_acquire (bus s) in
  match t with
  | None => Some (err, set_bus b s)
  | Some t =>
      '(rc, s) ← body t (set_bus b s);
      Some (rc, set_bus (bus_release t (bus s)) s)
  end.

(** The part of the add operations after the shadow: [configure] is run only
    for a new filter. *)
Definition add_common (ppfid : Z) (type : qed_llh_filter_type) (f : filter_bytes)
    (configure : Z -> Z -> B -> res (Z * B)) (s : llh_state B) : option (Z * llh_state B) :=
  match qed_llh_shadow_add_filter (llh s) ppfid type f with
  | Fault => None
  | Err rc => Some (rc, s)
  | Ok (idx, r, i) =>
      let s := set_llh i s in
      match qed_abs_ppfid (llh s) ppfid with
      | Fault => None
      | Err rc => Some (rc, s)
      | Ok abs_ppfid =>
          if r =? 1 then
            match configure abs_ppfid idx (bus s) with
            | Fault => None
            | Err rc => Some (rc, s)
            | Ok (rc, b) => Some (rc, set_bus b s)
            end
          else Some (0, s)
      end
  end.

Definition remove_common (t : nat) (ppfid : Z) (f : filter_bytes) (s : llh_state B) : option (Z * llh_state B) :=
  match qed_llh_shadow_remove_filter (llh s) ppfid f with
  | Fault => None
  | Err rc => Some (rc, s)
  | Ok (idx, r, i) =>
      let s := set_llh i s in
      match qed_abs_ppfid (llh s) ppfid with
      | Fault => None
      | Err rc => Some (rc, s)
      | Ok abs_ppfid =>
          if r =? 0 then
            let '(rc, b) := qed_llh_remove_filter t abs_ppfid idx (bus s) in Some (rc, set_bus b s)
          else Some (0, s)
      end
  end.

Definition qed_llh_add_mac_filter (ppfid : Z) (mac_addr : list Z) (s : llh_state B) : option (Z * llh_state B) :=
  if negb (mf_llh_mac_clss c) then Some (0, s) else
  if is_vf c then Some (- EOPNOTSUPP, s) else
  with_ptt (- EAGAIN) s (fun t s =>
    add_common ppfid QED_LLH_FILTER_TYPE_MAC (mac_filter mac_addr) (fun abs_ppfid idx b =>
      let '(high, low) := mac_hilo mac_addr in
      Ok (qed_llh_add_filter t abs_ppfid idx 0 high low b)) s).

Definition qed_llh_add_protocol_filter (ppfid type src dst : Z) (s : llh_state B) : option (Z * llh_state B) :=
  with_ptt (- EAGAIN) s (fun t s =>
    if negb (mf_llh_proto_clss c) then Some (0, s) else
    let rc := qed_llh_protocol_filter_stringify type in
    if negb (rc =? 0) then Some (rc, s) else
    add_common ppfid QED_LLH_FILTER_TYPE_PROTOCOL (protocol_filter type src dst) (fun abs_ppfid idx b =>
      let! (high, low) := qed_llh_protocol_filter_to_hilo type src dst in
      Ok (qed_llh_add_filter t abs_ppfid idx (u8 (Z.shiftl 1 type)) high low b)) s).

(** The remove operations return nothing; the code here is the local [rc]. *)
Definition qed_llh_remove_mac_filter (ppfid : Z) (mac_addr : list Z) (s : llh_state B) : option (Z * llh_state B) :=
  if negb (mf_llh_mac_clss c) then Some (0, s) else
  if is_vf c then Some (0, s) else
  with_ptt 0 s (fun t s => remove_common t ppfid (mac_filter mac_addr) s).

Definition qed_llh_remove_protocol_filter (ppfid type src dst : Z) (s : llh_state B)
    : option (Z * llh_state B) :=
  with_ptt 0 s (fun t s =>
    if negb (mf_llh_proto_clss c) then Some (0, s) else
    let rc := qed_llh_protocol_filter_stringify type in
    if negb (rc =? 0) then Some (rc, s) else
    remove_common t ppfid (protocol_filter type src dst) s).

(** The loop over the filters of a bank, left at the first error. *)
Fixpoint remove_filters_loop (fuel : nat) (t : nat) (abs_ppfid idx : Z) (b : B) : Z * B :=
  match fuel with
  | O => (0, b)
  | S fuel' =>
      let '(rc, b) := qed_llh_remove_filter t abs_ppfid idx b in
      if negb (rc =? 0) then (rc, b) else remove_filters_loop fuel' t abs_ppfid (u8 (idx + 1)) b
  end.

Definition qed_llh_clear_ppfid_filters (ppfid : Z) (s : llh_state B) : option (Z * llh_state B) :=
  with_ptt 0 s (fun t s =>
    if negb (mf_llh_proto_clss c) && negb (mf_llh_mac_clss c) then Some (0, s) else
    match qed_abs_ppfid (llh s) ppfid with
    | Fault => None
    | Err rc => Some (rc, s)
    | Ok abs_ppfid =>
        match qed_llh_shadow_remove_all_filters (llh s) ppfid with
        | Fault => None
        | Err rc => Some (rc, s)
        | Ok i =>
            let '(rc, b) := remove_filters_loop (Z.to_nat NIG_REG_LLH_FUNC_FILTER_EN_SIZE) t abs_ppfid 0 (bus s) in
            Some (rc, set_bus b (set_llh i s))
        end
    end).

(** [for (ppfid = 0; ppfid < num_ppfid; ppfid++) body], left at the first
    non-zero code; the bound is read again at every iteration. *)
Fixpoint ppfid_loop (fuel : nat) (ppfid : Z) (body : Z -> llh_state B -> option (Z * llh_state B))
    (s : llh_state B) : option (Z * llh_state B) :=
  if num_ppfid (llh s) <=? ppfid then Some (0, s) else
  match fuel with
  | O => None
  | S fuel' =>
      '(rc, s) ← body ppfid s;
      if negb (rc =? 0) then Some (rc, s) else ppfid_loop fuel' (u8 (ppfid + 1)) body s
  end.

(** At most [MAX_NUM_PPFID] banks: the loop runs at most that often. *)
Definition for_ppfids (body : Z -> llh_state B -> option (Z * llh_state B)) (s : llh_state B)
    : option (Z * llh_state B) :=
  ppfid_loop (Z.to_nat MAX_NUM_PPFID + 1) 0 body s.

(** The code of each bank is ignored. *)
Definition qed_llh_clear_all_filters (s : llh_state B) : option (Z * llh_state B) :=
  if negb (mf_llh_proto_clss c) && negb (mf_llh_mac_clss c) then Some (0, s) else
  for_ppfids (fun ppfid s => '(_, s) ← qed_llh_clear_ppfid_filters ppfid s; Some (0, s)) s.

(** ** Mapping and engine affinity *)

Definition qed_llh_map_ppfid_to_pfid (t : nat) (ppfid pfid : Z) (s : llh_state B) : option (Z * llh_state B) :=
  match qed_abs_ppfid (llh s) ppfid with
  | Fault => None
  | Err rc => Some (rc, s)
  | Ok abs_ppfid => Some (0, set_bus (bus_wr t (NIG_REG_LLH_PPFID2PFID_TBL_0 + abs_ppfid * 4) pfid (bus s)) s)
  end.

Definition qed_all_ppfids_wr (t : nat) (addr val : Z) (s : llh_state B) : option (Z * llh_state B) :=
  for_ppfids (fun ppfid s =>
    match qed_abs_ppfid (llh s) ppfid with
    | Fault => None
    | Err rc => Some (rc, s)
    | Ok abs_ppfid => Some (0, set_bus (bus_ppfid_wr t (QED_PFID_BY_PPFID c abs_ppfid) addr val (bus s)) s)
    end) s.

Definition qed_llh_get_num_ppfid (s : llh_state B) : Z := num_ppfid (llh s).
Definition qed_llh_get_l2_affinity_hint (s : llh_state B) : qed_eng :=
  if l2_affin_hint s =? 0 then QED_ENG0 else QED_ENG1.

Definition is_cmt : bool := 1 <? num_hwfns c.
Definition is_roce : bool := match personality c with QED_PCI_ETH_ROCE | QED_PCI_ETH_RDMA => true | _ => false end.
Definition is_iwarp : bool := match personality c with QED_PCI_ETH_IWARP | QED_PCI_ETH_RDMA => true | _ => false end.
Definition is_fcoe : bool := match personality c with QED_PCI_FCOE => true | _ => false end.
Definition is_iscsi : bool := match personality c with QED_PCI_ISCSI => true | _ => false end.

Definition eng_sel (eng : qed_eng) : Z := match eng with QED_ENG0 => 0 | QED_ENG1 => 1 | QED_BOTH_ENG => 2 end.

(** [SET_FIELD] on a [u32]. *)
Definition SET_FIELD32 (value mask shift flag : Z) : Z :=
  u32 (Z.lor (Z.land value (Z.lnot (Z.shiftl mask shift))) (Z.shiftl (Z.land flag mask) shift)).
Definition set_non_roce (eng : qed_eng) (val : Z) : Z := SET_FIELD32 val 0x3 2 (eng_sel eng).
Definition set_roce (eng : qed_eng) (val : Z) : Z := SET_FIELD32 val 0x3 0 (eng_sel eng).

Definition engine_addr (abs_ppfid : Z) : Z := NIG_REG_PPF_TO_ENGINE_SEL + abs_ppfid * 4.

(** Read, modify and write a register. *)
Definition bus_update (t : nat) (addr : Z) (f : Z -> Z) (b : B) : B :=
  let '(val, b) := bus_rd t addr b in bus_wr t addr (f val) b.

Definition qed_llh_set_ppfid_affinity (ppfid : Z) (eng : qed_eng) (s : llh_state B) : option (Z * llh_state B) :=
  with_ptt (- EAGAIN) s (fun t s =>
    if negb is_cmt then Some (0, s) else
    match qed_abs_ppfid (llh s) ppfid with
    | Fault => None
    | Err rc => Some (rc, s)
    | Ok abs_ppfid =>
        let b := bus_update t (engine_addr abs_ppfid) (set_non_roce eng) (bus s) in
        let iw := if (ppfid =? 0) && is_iwarp
                  then match eng with QED_ENG1 => 1 | _ => 0 end else iwarp_affin s in
        Some (0, mk_llh_state (llh s) (fir_affin s) (l2_affin_hint s) iw b)
    end).

Definition qed_llh_set_roce_affinity (eng : qed_eng) (s : llh_state B) : option (Z * llh_state B) :=
  with_ptt (- EAGAIN) s (fun t s =>
    if negb is_cmt then Some (0, s) else
    let s := match eng with
             | QED_BOTH_ENG => set_bus (bus_wr t NIG_REG_LLH_ENG_CLS_ROCE_QP_SEL 0xf (bus s)) s
             | _ => s
             end in
    for_ppfids (fun ppfid s =>
      match qed_abs_ppfid (llh s) ppfid with
      | Fault => None
      | Err rc => Some (rc, s)
      | Ok abs_ppfid => Some (0, set_bus (bus_update t (engine_addr abs_ppfid) (set_roce eng) (bus s)) s)
      end) s).

(** The reply of the management firmware to GET_ENGINE_CONFIG: the code of the
    mailbox command, whether the command is unsupported, and its parameter. *)
Record mcp_reply := mk_mcp_reply { mb_rc : Z; mcp_unsupported : bool; mcp_param : Z }.

Definition qed_mcp_get_engine_config (r : mcp_reply) (s : llh_state B) : Z * llh_state B :=
  if negb (mb_rc r =? 0) then (mb_rc r, s) else
  if mcp_unsupported r then (- EOPNOTSUPP, s) else
  let field mask off := Z.shiftr (Z.land (mcp_param r) mask) off in
  let fir := if field 1 0 =? 0 then fir_affin s else field 2 1 in
  let l2 := if field 4 2 =? 0 then l2_affin_hint s else field 8 3 in
  (0, mk_llh_state (llh s) fir l2 (iwarp_affin s) (bus s)).

Definition affin_eng (s : llh_state B) : qed_eng := if fir_affin s =? 0 then QED_ENG0 else QED_ENG1.

(** [__qed_llh_set_engine_affin]. *)
Definition set_engine_affin_mcp (r : mcp_reply) (s : llh_state B) : option (Z * llh_state B) :=
  let '(rc, s) := qed_mcp_get_engine_config r s in
  if negb (rc =? 0) && negb (rc =? - EOPNOTSUPP) then Some (rc, s) else
  '(rc, s) ← (if is_roce then qed_llh_set_roce_affinity (affin_eng s) s else Some (0, s));
  if negb (rc =? 0) then Some (rc, s) else
  let eng := if is_fcoe || is_iscsi then affin_eng s else QED_BOTH_ENG in
  for_ppfids (fun ppfid s => qed_llh_set_ppfid_affinity ppfid eng s) s.

Definition qed_llh_set_engine_affin (r : mcp_reply) (avoid_eng_affin : bool) (s : llh_state B)
    : option (Z * llh_state B) :=
  if avoid_eng_affin then
    '(rc, s) ← (if is_roce then qed_llh_set_roce_affinity QED_ENG0 s else Some (0, s));
    if negb (rc =? 0) then Some (rc, s) else
    let eng := if is_fcoe || is_iscsi then QED_ENG0 else QED_BOTH_ENG in
    for_ppfids (fun ppfid s => qed_llh_set_ppfid_affinity ppfid eng s) s
  else set_engine_affin_mcp r s.

(** The code of adding the primary MAC is ignored. *)
Definition qed_llh_hw_init_pf (t : nat) (r : mcp_reply) (avoid_eng_affin : bool) (s : llh_state B)
    : option (Z * llh_state B) :=
  '(rc, s) ← for_ppfids (fun ppfid s => qed_llh_map_ppfid_to_pfid t ppfid (rel_pf_id c) s) s;
  if negb (rc =? 0) then Some (rc, s) else
  '(_, s) ← (if mf_llh_mac_clss c && negb is_fcoe
             then qed_llh_add_mac_filter 0 (hw_mac_addr c) s else Some (0, s));
  if is_cmt then qed_llh_set_engine_affin r avoid_eng_affin s else Some (0, s).

(** [qed_llh_dump_ppfid] and [qed_llh_dump_all]: what they print. *)
Fixpoint dump_loop (fuel : nat) (t : nat) (abs_ppfid idx : Z) (b : B) : Z * list qed_llh_filter_details * B :=
  match fuel with
  | O => (0, [], b)
  | S fuel' =>
      let '(rc, p, b) := read_filter t abs_ppfid idx b in
      if negb (rc =? 0) then (rc, [], b) else
      let '(rc, l, b) := dump_loop fuel' t abs_ppfid (u8 (idx + 1)) b in (rc, p :: l, b)
  end.

Definition qed_llh_dump_ppfid (ppfid : Z) (s : llh_state B)
    : option (Z * list qed_llh_filter_details * llh_state B) :=
  let '(t, b) := bus_acquire (bus s) in
  match t with
  | None => Some (- EAGAIN, [], set_bus b s)
  | Some t =>
      match qed_abs_ppfid (llh s) ppfid with
      | Fault => None
      | Err rc => Some (rc, [], set_bus (bus_release t b) s)
      | Ok abs_ppfid =>
          let '(_, b) := bus_rd t (engine_addr abs_ppfid) b in
          let '(rc, l, b) := dump_loop (Z.to_nat NIG_REG_LLH_FUNC_FILTER_EN_SIZE) t abs_ppfid 0 b in
          Some (rc, l, set_bus (bus_release t b) s)
      end
  end.
End Hw.
