(* ===== verification/RegBusPtt.v ===== *)
(** * The PTT layer implements the register interface of the LLH code

    The operations of Ptt.v over a pool of entries and a device, as an
    instance of [RegBus]; the theorems of PttProps.v discharge [RegAccessLaws]:
    acquiring and releasing entries, own-function and pretended accesses.  The
    transfers of the DMA engine are operations of a parameter of which nothing
    is assumed; an engine of the simulated device for which [RegBusLaws] holds
    shows that the laws of the transfers can hold. *)

From S2P Require Import Prelude Ptt PttProps Llh.

(** The DMAE engine of a device: the code and the device after a transfer. *)
Class Dmae (D : Type) := {
  dmae_host2grc : Z -> Z -> list Z -> D -> Z * D;
  dmae_grc2host : Z -> Z -> nat -> D -> Z * list Z * D
}.

Record pbus (D : Type) := mk_pbus { pb_pool : qed_ptt_pool; pb_dev : D; pb_held : list nat; pb_own : Z }.
Arguments mk_pbus {D}.
Arguments pb_pool {D}.
Arguments pb_dev {D}.
Arguments pb_held {D}.
Arguments pb_own {D}.

Section Bus.
  Context {D : Type} `{PxpDevice D} `{!PxpDeviceLaws D} `{Dmae D}.
  Context (chk : bool) (world : nat -> list nat -> list nat).

(** Drop the first occurrence. *)
Fixpoint remove_first (t : nat) (l : list nat) : list nat :=
  match l with [] => [] | x :: l => if decide (x = t) then l else x :: remove_first t l end.

(** Run an access on entry [t] of the pool. *)
Definition on_ptt {A} (t : nat) (dflt : A) (f : qed_ptt -> D -> A * qed_ptt * D) (b : pbus D) : A * pbus D :=
  match ptts (pb_pool b) !! t with
  | None => (dflt, b)
  | Some p =>
      let '(a, p, d) := f p (pb_dev b) in
      (a, mk_pbus (mk_qed_ptt_pool (free_list (pb_pool b)) (<[t := p]> (ptts (pb_pool b)))) d (pb_held b) (pb_own b))
  end.

Definition no_value {D' : Type} (r : qed_ptt * D') : unit * qed_ptt * D' := (tt, fst r, snd r).

#[local] Instance ptt_bus : RegBus (pbus D) := {|
  bus_acquire b :=
    match qed_ptt_acquire world (Some (pb_pool b)) with
    | (Some t, Some p) => (Some t, mk_pbus p (pb_dev b) (t :: pb_held b) (pb_own b))
    | (_, Some p) => (None, mk_pbus p (pb_dev b) (pb_held b) (pb_own b))
    | (_, None) => (None, b)
    end;
  bus_release t b := mk_pbus (qed_ptt_release t (pb_pool b)) (pb_dev b) (remove_first t (pb_held b)) (pb_own b);
  bus_wr t a v b := snd (on_ptt t tt (fun p d => no_value (qed_wr chk a v p d)) b);
  bus_rd t a b := on_ptt t 0 (fun p d => qed_rd chk a p d) b;
  bus_ppfid_wr t f a v b := snd (on_ptt t tt (fun p d => no_value (qed_ppfid_wr chk (pb_own b) f a v p d)) b);
  bus_ppfid_rd t f a b := on_ptt t 0 (fun p d => qed_ppfid_rd chk (pb_own b) f a p d) b;
  bus_dmae_wr t f a vs b :=
    let '(rc, d) := dmae_host2grc f a vs (pb_dev b) in (rc, mk_pbus (pb_pool b) d (pb_held b) (pb_own b));
  bus_dmae_rd t f a n b :=
    let '(rc, vs, d) := dmae_grc2host f a n (pb_dev b) in (rc, vs, mk_pbus (pb_pool b) d (pb_held b) (pb_own b));
  bus_own := pb_own;
  bus_held := pb_held;
  bus_reg b f a := dev_reg (pb_dev b) (dev_copy a (mk_view f None)) a;
  bus_ok b :=
    pool_wf (pb_pool b) /\ length (ptts (pb_pool b)) = 12%nat /\
    (exists others, pool_inv (free_list (pb_pool b)) (pb_held b ++ others)) /\
    (forall i p, ptts (pb_pool b) !! i = Some p -> coherent p (pb_dev b)) /\
    (forall j, is_window j -> dev_view (pb_dev b) j = mk_view (pb_own b) None) /\ is_pfid (pb_own b);
  bus_plain a := grc_addr a /\ dev_plain a;
  bus_banked a := forall f g, is_pfid f -> is_pfid g -> dev_copy a (mk_view f None) = dev_copy a (mk_view g None) -> f = g;
  bus_fits := dev_fits
|}.

(** An entry that is held is an entry of the pool. *)
Lemma held_entry b t : bus_ok b -> t ∈ bus_held b ->
  exists p, ptts (pb_pool b) !! t = Some p /\ ptt_idx p = Z.of_nat t /\ coherent p (pb_dev b) /\ is_window (ptt_idx p) /\
    dev_view (pb_dev b) (ptt_idx p) = mk_view (pb_own b) None.
Proof.
  intros (Wf & Hl & (others & Hi) & Hc & Hv & Ho) Ht. simpl in Ht.
  unfold pool_inv in Hi. assert (Hr : t ∈ seq 4 8) by (rewrite <- Hi; set_solver). apply elem_of_seq in Hr.
  destruct (lookup_lt_is_Some_2 (ptts (pb_pool b)) t) as [p Hp]; [lia|].
  destruct (Wf _ _ Hp). exists p. repeat split; [done|done|by eapply Hc..|by apply Hv].
Qed.

(** An access through an entry keeps the layer's invariant. *)
Lemma on_ptt_ok {A} b t p (dflt a : A) f p' d' :
  bus_ok b -> ptts (pb_pool b) !! t = Some p -> ptt_idx p = Z.of_nat t -> f p (pb_dev b) = (a, p', d') ->
  ptt_idx p' = ptt_idx p -> coherent p' d' -> dev_view d' (ptt_idx p) = mk_view (pb_own b) None ->
  (forall j, j <> ptt_idx p -> dev_view d' j = dev_view (pb_dev b) j /\ dev_win d' j = dev_win (pb_dev b) j) ->
  fst (on_ptt t dflt f b) = a /\ bus_step b (snd (on_ptt t dflt f b)) /\
  pb_dev (snd (on_ptt t dflt f b)) = d'.
Proof.
  intros (Wf & Hl & Hi & Hc & Hv & Ho) Hp Hidx E Ei Co V F. unfold on_ptt. rewrite Hp, E. simpl.
  split; [done|]. split; [|done]. constructor; [|done..]. simpl.
  split; [|split; [by rewrite length_insert|split; [done|split; [|split; [|done]]]]].
  - intros j q Hq. simpl in Hq. apply list_lookup_insert_Some in Hq as [(<- & <- & _)|[_ Hq]]; [|by apply Wf].
    rewrite Ei. by apply Wf.
  - intros j q Hq. apply list_lookup_insert_Some in Hq as [(<- & <- & _)|[Hj Hq]]; [done|].
    eapply coherent_frame; [|by eapply Hc]. apply F. destruct (Wf _ _ Hq). lia.
  - intros j Hj. destruct (decide (j = ptt_idx p)) as [->|Hne]; [done|].
    destruct (F j Hne) as [-> _]. by apply Hv.
Qed.

Lemma bus_acquire_law b : (forall mine, others_ok mine world) -> bus_ok b ->
  let '(r, b') := bus_acquire b in
  bus_ok b' /\ bus_own b' = bus_own b /\ bus_reg b' = bus_reg b /\
  match r with
  | Some t => t ∉ bus_held b /\ bus_held b' = t :: bus_held b
  | None => bus_held b' = bus_held b
  end.
Proof.
  intros Hw (Wf & Hl & (others & Hi) & Hc & Hv & Ho). unfold bus_acquire, ptt_bus, qed_ptt_acquire.
  destruct (ptt_acquire_loop _ world 0 (pb_pool b)) as [r p] eqn:E.
  assert (Ep : ptts p = ptts (pb_pool b)) by (by eapply acquire_loop_ptts).
  destruct (acquire_loop_inv _ _ _ _ _ _ _ _ (Hw (pb_held b)) Hi E) as [others' Hi'].
  clear E. assert (Wf' : pool_wf p) by (intros i t Ht; rewrite Ep in Ht; by apply Wf).
  destruct r as [t|]; simpl; (split; [|split; [done|split; [done|]]]).
  - split; [done|]. rewrite Ep. split; [done|]. split; [by exists others'|done].
  - split; [|done]. apply pool_inv_held in Hi' as (Hn & _). set_solver.
  - split; [done|]. rewrite Ep. split; [done|]. split; [by exists others'|done].
  - done.
Qed.

Lemma bus_release_law b t h : bus_ok b -> bus_held b = t :: h ->
  bus_ok (bus_release t b) /\ bus_own (bus_release t b) = bus_own b /\
  bus_reg (bus_release t b) = bus_reg b /\ bus_held (bus_release t b) = h.
Proof.
  intros (Wf & Hl & (others & Hi) & Hc & Hv & Ho) Hh. simpl in *.
  assert (E : remove_first t (pb_held b) = h) by (rewrite Hh; simpl; by rewrite decide_True).
  split; [|by rewrite E]. split; [done|]. split; [done|]. split; [|done].
  exists others. rewrite E. rewrite Hh in Hi. unfold pool_inv in *. rewrite <- Hi. simpl.
  by rewrite <- Permutation_middle.
Qed.

Lemma bus_wr_law b t a v : bus_ok b -> t ∈ bus_held b -> bus_plain a -> bus_fits a v ->
  bus_step b (bus_wr t a v b) /\ bus_reg (bus_wr t a v b) (bus_own b) a = v /\
  forall f x, x <> a -> bus_reg (bus_wr t a v b) f x = bus_reg b f x.
Proof.
  intros Hok Ht [Ha Hp] Hf. destruct (held_entry b t Hok Ht) as (p & Ep & Ei & Co & Hw & Vw).
  destruct (qed_wr chk a v p (pb_dev b)) as [p' d'] eqn:E.
  destruct (wr_spec _ _ _ _ _ _ _ Co Ha Hp Hf E) as [I C V R W].
  destruct (on_ptt_ok b t p tt tt (fun p d => no_value (qed_wr chk a v p d)) p' d') as (_ & S & Ed);
    [done..|unfold no_value; by rewrite E|done|done|by rewrite V|intros j Hj; rewrite V; auto|].
  split; [exact S|]. cbn [bus_reg bus_wr ptt_bus bus_own]. rewrite Ed. split.
  - rewrite R. unfold stored; simpl. by rewrite decide_True, Vw, decide_True.
  - intros f x Hx. rewrite R. unfold stored; simpl. by rewrite decide_False.
Qed.

Lemma bus_rd_law b t a : bus_ok b -> t ∈ bus_held b -> bus_plain a ->
  let '(v, b') := bus_rd t a b in
  bus_step b b' /\ v = bus_reg b (bus_own b) a /\ forall f x, bus_reg b' f x = bus_reg b f x.
Proof.
  intros Hok Ht [Ha Hp]. destruct (held_entry b t Hok Ht) as (p & Ep & Ei & Co & Hw & Vw).
  destruct (qed_rd chk a p (pb_dev b)) as [[v p'] d'] eqn:E.
  destruct (rd_spec _ _ _ _ _ _ _ Co Ha Hp E) as [[I C V R W] Ev].
  destruct (on_ptt_ok b t p 0 v (fun p d => qed_rd chk a p d) p' d') as (E1 & S & Ed);
    [done..|by rewrite V|intros j Hj; rewrite V; auto|].
  cbn [bus_rd ptt_bus]. destruct (on_ptt t 0 _ b) as [v1 b1]. cbn [fst snd] in *. subst v1.
  split; [exact S|]. cbn [bus_reg ptt_bus bus_own]. rewrite Ed, R. by rewrite Ev, Vw.
Qed.

Lemma bus_ppfid_wr_law b t p a v : bus_ok b -> t ∈ bus_held b -> is_pfid p -> bus_plain a -> bus_fits a v ->
  bus_step b (bus_ppfid_wr t p a v b) /\ bus_reg (bus_ppfid_wr t p a v b) p a = v /\
  forall f x, x <> a \/ bus_banked a /\ is_pfid f /\ f <> p -> bus_reg (bus_ppfid_wr t p a v b) f x = bus_reg b f x.
Proof.
  intros Hok Ht Hpf [Ha Hp] Hf. destruct (held_entry b t Hok Ht) as (e & Ep & Ei & Co & Hw & Vw).
  assert (Ho : is_pfid (pb_own b)) by apply Hok.
  destruct (qed_ppfid_wr chk (pb_own b) p a v e (pb_dev b)) as [e' d'] eqn:E.
  destruct (ppfid_wr_spec _ _ _ _ _ _ _ _ _ Co Ha Hp Hf Hpf Ho E) as [I C V O R].
  destruct (on_ptt_ok b t e tt tt (fun e d => no_value (qed_ppfid_wr chk (pb_own b) p a v e d)) e' d') as (_ & S & Ed);
    [done..|unfold no_value; by rewrite E|done|done|done|done|].
  split; [exact S|]. cbn [bus_reg bus_ppfid_wr ptt_bus bus_own bus_banked]. rewrite Ed. split.
  - rewrite R. unfold stored; simpl. by rewrite decide_True, decide_True.
  - intros f x Hx. rewrite R. unfold stored; simpl. destruct (decide (x = a)) as [->|]; [|done].
    destruct Hx as [Hx|(Hbk & Hpf' & Hne)]; [done|]. rewrite decide_False; [done|].
    intros E'. apply Hne. by apply Hbk.
Qed.

Lemma bus_ppfid_rd_law b t p a : bus_ok b -> t ∈ bus_held b -> is_pfid p -> bus_plain a ->
  let '(v, b') := bus_ppfid_rd t p a b in
  bus_step b b' /\ v = bus_reg b p a /\ forall f x, bus_reg b' f x = bus_reg b f x.
Proof.
  intros Hok Ht Hpf [Ha Hp]. destruct (held_entry b t Hok Ht) as (e & Ep & Ei & Co & Hw & Vw).
  assert (Ho : is_pfid (pb_own b)) by apply Hok.
  destruct (qed_ppfid_rd chk (pb_own b) p a e (pb_dev b)) as [[v e'] d'] eqn:E.
  destruct (ppfid_rd_spec _ _ _ _ _ _ _ _ _ Co Ha Hp Hpf Ho E) as [[I C V O R] Ev].
  destruct (on_ptt_ok b t e 0 v (fun e d => qed_ppfid_rd chk (pb_own b) p a e d) e' d') as (E1 & S & Ed); [done..|].
  cbn [bus_ppfid_rd ptt_bus]. destruct (on_ptt t 0 _ b) as [v1 b1]. cbn [fst snd] in *. subst v1.
  split; [exact S|]. cbn [bus_reg ptt_bus bus_own]. rewrite Ed. split; [done|]. intros. apply R.
Qed.

(** A device access that leaves the windows alone keeps the layer's invariant. *)
Lemma dev_step b d' : bus_ok b -> dev_win d' = dev_win (pb_dev b) -> dev_view d' = dev_view (pb_dev b) ->
  bus_step b (mk_pbus (pb_pool b) d' (pb_held b) (pb_own b)).
Proof.
  intros (Wf & Hl & Hi & Hc & Hv & Ho) Ew Ev. constructor; [|done..]. cbn.
  split; [done|]. split; [done|]. split; [done|]. split; [|split; [by rewrite Ev|done]].
  intros i p Hp. eapply coherent_frame; [|by eapply Hc]. by rewrite Ew.
Qed.

Lemma ptt_bus_laws : (forall mine, others_ok mine world) -> RegAccessLaws (pbus D).
Proof.
  intros Hw. constructor; [intros b; by apply bus_acquire_law|apply bus_release_law|apply bus_wr_law|apply bus_rd_law
    |apply bus_ppfid_wr_law|apply bus_ppfid_rd_law].
Qed.
End Bus.

(** ** DMAE engines of the simulated device *)

Definition sim_h2g (p a : Z) (vs : list Z) (d : sim) : sim :=
  d <| sim_reg := fun c x =>
    if decide (c = p /\ a <= x /\ (x - a) mod 4 = 0)
    then default (sim_reg d c x) (vs !! Z.to_nat ((x - a) / 4)) else sim_reg d c x |>.

#[export] Instance sim_dmae : Dmae sim := {|
  dmae_host2grc p a vs d := (0, sim_h2g p a vs d);
  dmae_grc2host p a n d := (0, (fun k => sim_reg d p (a + 4 * Z.of_nat k)) <$> seq 0 n, d)
|}.

(** An engine whose transfers to the chip all fail with [rc]. *)
Definition failing_dmae (rc : Z) : Dmae sim := {|
  dmae_host2grc p a vs d := (rc, d);
  dmae_grc2host p a n d := (0, (fun k => sim_reg d p (a + 4 * Z.of_nat k)) <$> seq 0 n, d)
|}.

(** A transfer of the simulated engine writes the dwords and nothing else. *)
Lemma sim_h2g_at p a vs d k v : vs !! k = Some v -> sim_reg (sim_h2g p a vs d) p (a + 4 * Z.of_nat k) = v.
Proof.
  intros Hk. unfold sim_h2g; simpl. replace (a + 4 * Z.of_nat k - a) with (Z.of_nat k * 4) by lia.
  rewrite decide_True by (split; [done|]; split; [lia|]; apply Z_mod_mult).
  by rewrite Z.div_mul, Nat2Z.id, Hk by lia.
Qed.

Lemma sim_h2g_frame p a vs d c x :
  c <> p \/ (forall k, (k < length vs)%nat -> x <> a + 4 * Z.of_nat k) -> sim_reg (sim_h2g p a vs d) c x = sim_reg d c x.
Proof.
  intros Hx. unfold sim_h2g; simpl. destruct (decide (c = p /\ a <= x /\ (x - a) mod 4 = 0)) as [(-> & Hle & Hm)|]; [|done].
  destruct (vs !! Z.to_nat ((x - a) / 4)) as [v|] eqn:E; [|done]. destruct Hx as [Hx|Hx]; [done|]. apply lookup_lt_Some in E.
  exfalso. apply (Hx _ E). pose proof (Z.div_mod (x - a) 4). assert (0 <= (x - a) / 4) by (apply Z.div_pos; lia). lia.
Qed.

Lemma sim_bus_dmae_laws chk world : (forall mine, others_ok mine world) -> @RegBusLaws (pbus sim) (ptt_bus chk world).
Proof.
  intros Hw. constructor; [by apply ptt_bus_laws| |].
  - intros b t p a vs Hok Ht Hpf Hvs. cbn [bus_dmae_wr ptt_bus dmae_host2grc sim_dmae].
    split; [by apply (dev_step chk world)|]. cbn [bus_reg ptt_bus pb_dev]. split.
    + intros _ k v Hk. simpl. by apply sim_h2g_at.
    + intros f x _ Hx. simpl. apply sim_h2g_frame. destruct Hx as [[_ Hx]|Hx]; [by left|by right].
  - intros b t p a n Hok Ht Hpf Hpl. cbn [bus_dmae_rd ptt_bus dmae_grc2host sim_dmae]. destruct b as [pool d held own].
    split; [by apply (dev_step chk world (mk_pbus pool d held own))|]. done.
Qed.

(** C7: The PTT layer over any device that satisfies the documented window
    behaviour provides the register accesses that the LLH and mailbox code is
    verified against ([RegAccessLaws]; the block transfers of the DMA engine are
    not part of it, whatever they do): exclusive entries, own-function and
    pretended accesses that reach exactly the register named, and entries that
    come back acting for their own function. *)
Theorem ptt_implements_reg_bus (D : Type) `(PxpDeviceLaws D) `(!Dmae D) (chk : bool)
    (world : nat -> list nat -> list nat) :
  (forall mine, others_ok mine world) -> @RegAccessLaws (pbus D) (ptt_bus chk world).
Proof. apply ptt_bus_laws. Qed.

Lemma ptt_implements_reg_bus_witness : @RegAccessLaws (pbus sim) (ptt_bus true (fun _ fl => fl)).
Proof.
  apply (ptt_implements_reg_bus sim _ _ true (fun _ fl => fl)).
  intros mine n fl others Hi. by exists others.
Defined.
