(* ===== verification/LlhShadow.v ===== *)
(** * The LLH shadow is a table of reference counts

    Lemmas on the shadow operations of Llh.v: in a well-formed bank every
    filter in use has one entry, and adding or removing a filter changes its
    reference count by one and no other count. *)

From S2P Require Import Prelude Llh.

(** ** Well-formed shadows *)

(** An entry is in use, or is all zeroes. *)
Definition entry_wf (e : qed_llh_filter_info) : Prop :=
  e = zero_info \/ (b_enabled e = true /\ 0 < ref_cnt e < 2 ^ 32 /\ ffilter e <> zero_filter).

Record bank_wf (b : list qed_llh_filter_info) : Prop := {
  bw_len : length b = 16%nat;
  bw_entry k e : b !! k = Some e -> entry_wf e;
  bw_inj k j e e' : b !! k = Some e -> b !! j = Some e' -> b_enabled e = true -> b_enabled e' = true ->
    ffilter e = ffilter e' -> k = j
}.

Record llh_wf (i : qed_llh_info) : Prop := {
  lw_num : 0 <= num_ppfid i <= 8;
  lw_banks : length (pp_filters i) = Z.to_nat (num_ppfid i);
  lw_bank k b : pp_filters i !! k = Some b -> bank_wf b;
  lw_abs k : (k < Z.to_nat (num_ppfid i))%nat -> exists a, ppfid_array i !! k = Some a /\ 0 <= a < 8;
  lw_inj j k a : (j < Z.to_nat (num_ppfid i))%nat -> (k < Z.to_nat (num_ppfid i))%nat ->
    ppfid_array i !! j = Some a -> ppfid_array i !! k = Some a -> j = k
}.

(** ** The abstract table: the reference count of every filter *)

Definition uses (f : filter_bytes) (e : qed_llh_filter_info) : Prop := b_enabled e = true /\ ffilter e = f.
#[export] Instance uses_dec f e : Decision (uses f e).
Proof. unfold uses. apply _. Defined.

Definition refs (b : list qed_llh_filter_info) (f : filter_bytes) : Z :=
  match list_find (uses f) b with Some (_, e) => ref_cnt e | None => 0 end.

Definition bank_full (b : list qed_llh_filter_info) : Prop := Forall (fun e => b_enabled e = true) b.

Lemma refs_at b k e f : bank_wf b -> b !! k = Some e -> uses f e -> refs b f = ref_cnt e.
Proof.
  intros W Hk [Hu Hf]. unfold refs.
  destruct (list_find (uses f) b) as [[j e']|] eqn:E.
  - apply list_find_Some in E as (Hj & [Hu' Hf'] & _).
    assert (k = j) as -> by (eapply (bw_inj _ W); eauto; congruence). congruence.
  - apply list_find_None in E. rewrite Forall_lookup in E. by destruct (E _ _ Hk).
Qed.

Lemma refs_none b f : (forall k e, b !! k = Some e -> ~ uses f e) -> refs b f = 0.
Proof.
  intros Hn. unfold refs. destruct (list_find (uses f) b) as [[j e]|] eqn:E; [|done].
  apply list_find_Some in E as (Hj & Hu & _). by destruct (Hn _ _ Hj).
Qed.

Lemma refs_inv b f : bank_wf b ->
  (exists k e, b !! k = Some e /\ uses f e /\ refs b f = ref_cnt e /\ 0 < ref_cnt e) \/
  ((forall k e, b !! k = Some e -> ~ uses f e) /\ refs b f = 0).
Proof.
  intros W. destruct (list_find (uses f) b) as [[j e]|] eqn:E.
  - apply list_find_Some in E as (Hj & Hu & _). left. exists j, e. repeat split; [done|apply Hu|apply Hu| |].
    + by eapply refs_at.
    + destruct (bw_entry _ W _ _ Hj) as [->|[_ [Hr _]]]; [by destruct Hu|lia].
  - right. apply list_find_None in E. rewrite Forall_lookup in E. split; [apply E|by apply refs_none].
Qed.

(** ** The scans *)

Lemma scan_bank_spec p b fuel i :
  0 <= i -> (Z.to_nat i + fuel)%nat = 16%nat -> length b = 16%nat ->
  exists r, scan_bank fuel p b i = Ok r /\
    ((r = QED_LLH_INVALID_FILTER_IDX /\ forall k e, i <= Z.of_nat k -> b !! k = Some e -> p e = false) \/
     (i <= r < 16 /\ exists e, b !! Z.to_nat r = Some e /\ p e = true)).
Proof.
  revert i; induction fuel as [|fuel IH]; intros i Hi Hf Hl; simpl.
  - eexists; split; [done|]. left; split; [done|]. intros k e Hk E. apply lookup_lt_Some in E. lia.
  - destruct (b !! Z.to_nat i) as [e|] eqn:E; [|apply lookup_ge_None in E; lia]. simpl.
    destruct (p e) eqn:Ep.
    + exists i. split; [done|]. right. split; [lia|]. by exists e.
    + rewrite u8_small by lia. destruct (IH (i + 1)) as (r & -> & Hr); [lia..|].
      exists r. split; [done|]. destruct Hr as [[-> Hn]|[Hr He]]; [left|right; split; [lia|done]].
      split; [done|]. intros k e' Hk Hk'. destruct (decide (Z.of_nat k = i)) as [<-|].
      * rewrite Nat2Z.id in E. congruence.
      * eapply Hn; [|done]. lia.
Qed.

Lemma bank_scan_spec p b : length b = 16%nat ->
  exists r, bank_scan p b = Ok r /\
    ((r = QED_LLH_INVALID_FILTER_IDX /\ forall k e, b !! k = Some e -> p e = false) \/
     (0 <= r < 16 /\ exists e, b !! Z.to_nat r = Some e /\ p e = true)).
Proof.
  intros Hl. destruct (scan_bank_spec p b 16 0) as (r & E & Hr); [lia|done|done|]. exists r. split; [exact E|].
  destruct Hr as [[-> Hn]|[Hr He]]; [left|by right]. split; [done|]. intros k e. apply Hn. lia.
Qed.

(** ** Access to a bank *)

Lemma sanity_ok i ppfid idx : llh_wf i -> 0 <= ppfid < num_ppfid i -> idx < 16 -> qed_llh_shadow_sanity i ppfid idx = 0.
Proof.
  intros W Hp Hi. unfold qed_llh_shadow_sanity, NIG_REG_LLH_FUNC_FILTER_EN_SIZE.
  by rewrite (proj2 (Z.leb_gt _ _)), (proj2 (Z.leb_gt _ _)) by lia.
Qed.

Lemma sanity_bad i ppfid idx : num_ppfid i <= ppfid -> qed_llh_shadow_sanity i ppfid idx = - EINVAL.
Proof. intros Hp. unfold qed_llh_shadow_sanity. by rewrite (proj2 (Z.leb_le _ _)). Qed.

Lemma bank_lookup i ppfid : llh_wf i -> 0 <= ppfid < num_ppfid i -> exists b, bank i ppfid = Some b /\ bank_wf b.
Proof.
  intros W Hp. destruct (bank i ppfid) as [b|] eqn:E.
  - exists b. split; [done|]. by eapply (lw_bank _ W).
  - apply lookup_ge_None in E. rewrite (lw_banks _ W) in E. lia.
Qed.

Lemma abs_ppfid_ok i ppfid : llh_wf i -> 0 <= ppfid < num_ppfid i ->
  exists a, qed_abs_ppfid i ppfid = Ok a /\ ppfid_array i !! Z.to_nat ppfid = Some a /\ 0 <= a < 8.
Proof.
  intros W Hp. unfold qed_abs_ppfid. rewrite (proj2 (Z.leb_gt _ _)) by lia.
  destruct (lw_abs _ W (Z.to_nat ppfid)) as (a & E & Ha); [lia|]. exists a. by rewrite E.
Qed.

Lemma bank_set_bank i p q b : llh_wf i -> 0 <= p < num_ppfid i -> 0 <= q ->
  bank (set_bank i p b) q = if decide (q = p) then Some b else bank i q.
Proof.
  intros W Hp Hq. unfold bank, set_bank; simpl. destruct (decide (q = p)) as [->|].
  - apply list_lookup_insert_eq. rewrite (lw_banks _ W). lia.
  - apply list_lookup_insert_ne. lia.
Qed.

Lemma set_bank_wf i p b : llh_wf i -> bank_wf b -> llh_wf (set_bank i p b).
Proof.
  intros [Hn Hl Hb Ha Hi] Wb. constructor; simpl; auto.
  - by rewrite length_insert.
  - intros k b' E. destruct (decide (k = Z.to_nat p)) as [->|].
    + apply list_lookup_insert_Some in E as [(_ & -> & _)|[? E]]; [done|by eapply Hb].
    + rewrite list_lookup_insert_ne in E by done. by eapply Hb.
Qed.

(** Searching a filter finds the entry that uses it. *)
Lemma search_filter_spec i ppfid f b :
  llh_wf i -> 0 <= ppfid < num_ppfid i -> bank i ppfid = Some b -> f <> zero_filter ->
  exists r, qed_llh_shadow_search_filter i ppfid f = Ok r /\
    ((r = QED_LLH_INVALID_FILTER_IDX /\ refs b f = 0 /\ forall k e, b !! k = Some e -> ~ uses f e) \/
     (0 <= r < 16 /\ exists e, b !! Z.to_nat r = Some e /\ uses f e /\ refs b f = ref_cnt e)).
Proof.
  intros W Hp Hb Hz. unfold qed_llh_shadow_search_filter. rewrite sanity_ok by (done || lia). simpl. rewrite Hb. simpl.
  assert (Wb : bank_wf b) by (by eapply (lw_bank _ W)).
  destruct (bank_scan_spec (fun e => bool_decide (f = ffilter e)) b (bw_len _ Wb)) as (r & -> & Hr).
  exists r. split; [done|]. destruct Hr as [[-> Hn]|(Hr & e & He & Hf)].
  - left. split; [done|]. assert (N : forall k e, b !! k = Some e -> ~ uses f e).
    { intros k e Hk [_ Hf]. specialize (Hn _ _ Hk). apply bool_decide_eq_false in Hn. congruence. }
    split; [by apply refs_none|done].
  - right. split; [done|]. exists e. apply bool_decide_eq_true in Hf. split; [done|].
    assert (U : uses f e).
    { split; [|done]. destruct (bw_entry _ Wb _ _ He) as [->|[? _]]; [by destruct Hz|done]. }
    split; [done|]. by eapply refs_at.
Qed.

Lemma get_free_idx_spec i ppfid b :
  llh_wf i -> 0 <= ppfid < num_ppfid i -> bank i ppfid = Some b ->
  exists r, qed_llh_shadow_get_free_idx i ppfid = Ok r /\
    ((r = QED_LLH_INVALID_FILTER_IDX /\ bank_full b) \/ (0 <= r < 16 /\ b !! Z.to_nat r = Some zero_info)).
Proof.
  intros W Hp Hb. unfold qed_llh_shadow_get_free_idx. rewrite sanity_ok by (done || lia). simpl. rewrite Hb. simpl.
  assert (Wb : bank_wf b) by (by eapply (lw_bank _ W)).
  destruct (bank_scan_spec (fun e => negb (b_enabled e)) b (bw_len _ Wb)) as (r & -> & Hr).
  exists r. split; [done|]. destruct Hr as [[-> Hn]|(Hr & e & He & Hf)]; [left|right]; (split; [done|]).
  - apply Forall_lookup. intros k e Hk. specialize (Hn _ _ Hk). by apply negb_false_iff in Hn.
  - destruct (bw_entry _ Wb _ _ He) as [->|[Hu _]]; [done|]. by rewrite Hu in Hf.
Qed.

(** ** Updates of one entry *)

Definition sole_user (f : filter_bytes) (k : nat) (b : list qed_llh_filter_info) : Prop :=
  forall j e, b !! j = Some e -> uses f e -> j = k.

Lemma set_entry b k e e' f :
  bank_wf b -> b !! k = Some e -> (e = zero_info \/ uses f e) -> sole_user f k b -> f <> zero_filter ->
  uses f e' -> 0 < ref_cnt e' < 2 ^ 32 ->
  bank_wf (<[k := e']> b) /\ forall g, refs (<[k := e']> b) g = if decide (g = f) then ref_cnt e' else refs b g.
Proof.
  intros Wb Hk He Hs Hz [Hu' Hf'] Hr.
  assert (Wb' : bank_wf (<[k := e']> b)).
  { constructor.
    - rewrite length_insert. apply Wb.
    - intros j x Hx. apply list_lookup_insert_Some in Hx as [(_ & -> & _)|[_ Hx]]; [|by eapply (bw_entry _ Wb)].
      right. repeat split; [done|lia|lia|congruence].
    - intros j l x y Hx Hy Ux Uy Hxy.
      apply list_lookup_insert_Some in Hx as [(<- & -> & _)|[Hj Hx]];
        apply list_lookup_insert_Some in Hy as [(<- & -> & _)|[Hl Hy]]; [done| | |by eapply (bw_inj _ Wb)].
      + symmetry. eapply Hs; [exact Hy|split; congruence].
      + eapply Hs; [exact Hx|split; congruence]. }
  split; [done|]. intros g. assert (Hl : (k < length b)%nat) by (by eapply lookup_lt_Some).
  destruct (decide (g = f)) as [->|Hg].
  - eapply refs_at; [done|by apply list_lookup_insert_eq|by split].
  - destruct (refs_inv _ g Wb) as [(j & x & Hj & Hu & -> & _)|[Hn ->]].
    + eapply refs_at; [done| |exact Hu]. rewrite list_lookup_insert_ne; [done|].
      intros <-. rewrite Hk in Hj. simplify_eq. destruct He as [->|[_ He]], Hu; [done|congruence].
    + apply refs_none. intros j x Hx [Ux Fx].
      apply list_lookup_insert_Some in Hx as [(_ & -> & _)|[_ Hx]]; [congruence|]. by destruct (Hn _ _ Hx).
Qed.

Lemma clear_entry b k e f :
  bank_wf b -> b !! k = Some e -> uses f e ->
  bank_wf (<[k := zero_info]> b) /\
  forall g, refs (<[k := zero_info]> b) g = if decide (g = f) then 0 else refs b g.
Proof.
  intros Wb Hk [Hu Hf].
  assert (Wb' : bank_wf (<[k := zero_info]> b)).
  { constructor.
    - rewrite length_insert. apply Wb.
    - intros j x Hx. apply list_lookup_insert_Some in Hx as [(_ & <- & _)|[_ Hx]]; [by left|by eapply (bw_entry _ Wb)].
    - intros j l x y Hx Hy Ux Uy Hxy.
      apply list_lookup_insert_Some in Hx as [(_ & <- & _)|[_ Hx]]; [done|].
      apply list_lookup_insert_Some in Hy as [(_ & <- & _)|[_ Hy]]; [done|]. by eapply (bw_inj _ Wb). }
  split; [done|]. intros g. destruct (decide (g = f)) as [->|Hg].
  - apply refs_none. intros j x Hx [Ux Fx].
    apply list_lookup_insert_Some in Hx as [(_ & <- & _)|[Hj Hx]]; [done|].
    apply Hj. eapply (bw_inj _ Wb); eauto. congruence.
  - destruct (refs_inv _ g Wb) as [(j & x & Hj & Hux & -> & _)|[Hn ->]].
    + eapply refs_at; [done| |exact Hux]. rewrite list_lookup_insert_ne; [done|].
      intros <-. rewrite Hk in Hj. simplify_eq. destruct Hux; congruence.
    + apply refs_none. intros j x Hx Ux.
      apply list_lookup_insert_Some in Hx as [(_ & <- & _)|[_ Hx]]; [by destruct Ux|]. by destruct (Hn _ _ Hx).
Qed.

Lemma uses_sole b f k e : bank_wf b -> b !! k = Some e -> uses f e -> sole_user f k b.
Proof. intros Wb Hk [? ?] j x Hj [? ?]. eapply (bw_inj _ Wb); eauto. congruence. Qed.

(** ** Adding and removing *)

Record added (b : list qed_llh_filter_info) (type : qed_llh_filter_type) (f : filter_bytes) (idx : Z)
    (e e' : qed_llh_filter_info) : Prop := {
  ad_idx : 0 <= idx < 16;
  ad_old : b !! Z.to_nat idx = Some e;
  ad_new : e' = mk_filter_info true (refs b f + 1) (if refs b f =? 0 then type else ftype e) f;
  ad_fresh : refs b f = 0 -> e = zero_info;
  ad_shared : refs b f <> 0 -> uses f e;
  ad_wf : bank_wf (<[Z.to_nat idx := e']> b);
  ad_refs g : refs (<[Z.to_nat idx := e']> b) g = refs b g + if decide (g = f) then 1 else 0
}.

Lemma shadow_add_at_ok i ppfid b idx e type f :
  llh_wf i -> 0 <= ppfid < num_ppfid i -> bank i ppfid = Some b -> f <> zero_filter ->
  refs b f + 1 < 2 ^ 32 -> 0 <= idx < 16 -> b !! Z.to_nat idx = Some e ->
  (refs b f = 0 /\ e = zero_info /\ (forall k x, b !! k = Some x -> ~ uses f x)) \/
  (uses f e /\ refs b f = ref_cnt e /\ 0 < ref_cnt e) ->
  exists e', shadow_add_at i ppfid idx type f =
    Ok (refs b f + 1, set_bank i ppfid (<[Z.to_nat idx := e']> b)) /\ added b type f idx e e'.
Proof.
  intros W Hp Hb Hz Hmax Hi He Hc.
  assert (Wb : bank_wf b) by (by eapply (lw_bank _ W)).
  set (e' := mk_filter_info true (refs b f + 1) (if refs b f =? 0 then type else ftype e) f).
  exists e'. unfold shadow_add_at. rewrite sanity_ok by (done || lia). simpl. rewrite Hb. simpl. rewrite He. simpl.
  assert (R : 0 <= refs b f) by lia.
  destruct (set_entry b (Z.to_nat idx) e e' f Wb He) as [Wb' Hrefs]; [tauto| |done|done|simpl; lia|].
  { destruct Hc as [(_ & _ & Hn)|[Hu _]]; [|by eapply uses_sole]. intros j x Hj Hu. by destruct (Hn _ _ Hj). }
  split; [|constructor; [done..|intros; destruct Hc; [tauto|lia]| |done|]].
  - subst e'. destruct Hc as [(E & -> & _)|([Hu Hf] & E & Hpos)]; simpl.
    + rewrite E. simpl. done.
    + rewrite (proj2 (Z.eqb_neq (ref_cnt e) 0)) by lia. rewrite E, (proj2 (Z.eqb_neq (ref_cnt e) 0)) by lia.
      rewrite u32_small by lia. destruct e; simpl in *; subst. done.
  - intros Hne. destruct Hc as [(E & _)|[Hu _]]; [lia|done].
  - intros g. rewrite Hrefs. destruct (decide (g = f)) as [->|]; simpl; lia.
Qed.

Lemma shadow_add_spec i ppfid type f b :
  llh_wf i -> 0 <= ppfid < num_ppfid i -> bank i ppfid = Some b -> f <> zero_filter -> refs b f + 1 < 2 ^ 32 ->
  (exists idx e e', qed_llh_shadow_add_filter i ppfid type f =
      Ok (idx, refs b f + 1, set_bank i ppfid (<[Z.to_nat idx := e']> b)) /\ added b type f idx e e') \/
  (qed_llh_shadow_add_filter i ppfid type f = Err (- EINVAL) /\ refs b f = 0 /\ bank_full b).
Proof.
  intros W Hp Hb Hz Hmax. assert (Wb : bank_wf b) by (by eapply (lw_bank _ W)).
  unfold qed_llh_shadow_add_filter.
  destruct (search_filter_spec i ppfid f b W Hp Hb Hz) as (r & -> & [(-> & E0 & Hn)|(Hr & e & He & Hu & Er)]); simpl.
  - destruct (get_free_idx_spec i ppfid b W Hp Hb) as (r & -> & [[-> Hfull]|[Hr He]]); simpl; [by right|].
    rewrite (proj2 (Z.eqb_neq r QED_LLH_INVALID_FILTER_IDX)) by (unfold QED_LLH_INVALID_FILTER_IDX; lia).
    destruct (shadow_add_at_ok i ppfid b r zero_info type f) as (e' & -> & A); [done..|by left|].
    left. exists r, zero_info, e'. split; [done|exact A].
  - rewrite !(proj2 (Z.eqb_neq r QED_LLH_INVALID_FILTER_IDX)) by (unfold QED_LLH_INVALID_FILTER_IDX; lia). simpl.
    rewrite (proj2 (Z.eqb_neq r QED_LLH_INVALID_FILTER_IDX)) by (unfold QED_LLH_INVALID_FILTER_IDX; lia).
    assert (Hpos : 0 < ref_cnt e) by (destruct (bw_entry _ Wb _ _ He) as [->|[_ [? _]]]; [by destruct Hu|lia]).
    destruct (shadow_add_at_ok i ppfid b r e type f) as (e' & -> & A); [done..|by right|].
    left. exists r, e, e'. split; [done|exact A].
Qed.

Record removed (b : list qed_llh_filter_info) (f : filter_bytes) (idx : Z) (e e' : qed_llh_filter_info) : Prop := {
  rm_idx : 0 <= idx < 16;
  rm_old : b !! Z.to_nat idx = Some e;
  rm_uses : uses f e;
  rm_new : e' = if refs b f =? 1 then zero_info else mk_filter_info true (refs b f - 1) (ftype e) f;
  rm_wf : bank_wf (<[Z.to_nat idx := e']> b);
  rm_refs g : refs (<[Z.to_nat idx := e']> b) g = refs b g - if decide (g = f) then 1 else 0
}.

Lemma shadow_remove_spec i ppfid f b :
  llh_wf i -> 0 <= ppfid < num_ppfid i -> bank i ppfid = Some b -> f <> zero_filter ->
  (exists idx e e', qed_llh_shadow_remove_filter i ppfid f =
      Ok (idx, refs b f - 1, set_bank i ppfid (<[Z.to_nat idx := e']> b)) /\ 0 < refs b f /\ removed b f idx e e') \/
  (qed_llh_shadow_remove_filter i ppfid f = Err (- EINVAL) /\ refs b f = 0).
Proof.
  intros W Hp Hb Hz. assert (Wb : bank_wf b) by (by eapply (lw_bank _ W)).
  unfold qed_llh_shadow_remove_filter.
  destruct (search_filter_spec i ppfid f b W Hp Hb Hz) as (r & -> & [(-> & E0 & Hn)|(Hr & e & He & Hu & Er)]); simpl;
    [by right|].
  rewrite (proj2 (Z.eqb_neq r QED_LLH_INVALID_FILTER_IDX)) by (unfold QED_LLH_INVALID_FILTER_IDX; lia).
  assert (Hpos : 0 < ref_cnt e < 2 ^ 32)
    by (destruct (bw_entry _ Wb _ _ He) as [->|[_ [? _]]]; [by destruct Hu|lia]).
  unfold shadow_remove_at. rewrite sanity_ok by (done || lia). simpl. rewrite Hb. simpl. rewrite He. simpl.
  rewrite (proj2 (Z.eqb_neq (ref_cnt e) 0)), u32_small by lia. simpl.
  left. exists r, e, (if refs b f =? 1 then zero_info else mk_filter_info true (refs b f - 1) (ftype e) f).
  pose proof Hu as [Hu1 Hu2].
  destruct (Z.eqb_spec (refs b f) 1) as [E1|E1].
  - rewrite Er in *. split; [rewrite E1; done|]. split; [lia|].
    destruct (clear_entry b _ e f Wb He Hu) as [Wb' Hrefs].
    constructor; [done..|by rewrite Er, E1|done|].
    intros g. rewrite Hrefs. destruct (decide (g = f)) as [->|]; lia.
  - rewrite Er in *. rewrite (proj2 (Z.eqb_neq (ref_cnt e - 1) 0)) by lia. split; [by rewrite Hu1, Hu2|]. split; [lia|].
    destruct (set_entry b (Z.to_nat r) e (mk_filter_info true (ref_cnt e - 1) (ftype e) f) f Wb He) as [Wb' Hrefs];
      [by right|by eapply uses_sole|done|done|simpl; lia|].
    constructor; [done..|by rewrite Er, (proj2 (Z.eqb_neq _ _) E1)|done|].
    intros g. rewrite Hrefs. destruct (decide (g = f)) as [->|]; simpl; lia.
Qed.
