(* ===== verification/LlhHw.v ===== *)
(** * The chip's filters mirror the shadow

    Lemmas on the register side of Llh.v, proved against [RegBusLaws]: what a
    filter write does to the registers of a bank, and that the filter
    operations keep the enabled entries of the shadow and the enabled filters
    of the chip equal. *)

From S2P Require Import Prelude Llh LlhShadow.

Section Mirror.
  Context {B : Type} `{RegBus B} `{!RegBusLaws B} (c : llh_cfg).

(** The registers of filter [idx] of a bank. *)
Definition filter_reg (idx x : Z) : Prop :=
  x = en_addr idx \/ x = value_addr idx \/ x = value_addr idx + 4 \/ x = mode_addr idx \/
  x = prot_addr idx \/ x = hdr_addr idx.

(** What the register file says about them: they are plain, per function, and
    wide enough (DataWidth in qed_reg_addr.h). *)
Record llh_regs : Prop := {
  lr_plain idx x : 0 <= idx < 16 -> filter_reg idx x -> bus_plain x /\ bus_banked x;
  lr_en idx v : 0 <= idx < 16 -> 0 <= v <= 1 -> bus_fits (en_addr idx) v;
  lr_mode idx v : 0 <= idx < 16 -> 0 <= v <= 1 -> bus_fits (mode_addr idx) v;
  lr_hdr idx v : 0 <= idx < 16 -> 0 <= v <= 1 -> bus_fits (hdr_addr idx) v;
  lr_prot idx v : 0 <= idx < 16 -> 0 <= v < 2 ^ 7 -> bus_fits (prot_addr idx) v;
  lr_lo idx v : 0 <= idx < 16 -> 0 <= v < 2 ^ 32 -> bus_fits (value_addr idx) v;
  lr_hi idx v : 0 <= idx < 16 -> 0 <= v < 2 ^ 16 -> bus_fits (value_addr idx + 4) v
}.

Record details_fit (p : qed_llh_filter_details) : Prop := {
  df_en : 0 <= fd_enable p <= 1;
  df_mode : 0 <= fd_mode p <= 1;
  df_hdr : 0 <= fd_hdr_sel p <= 1;
  df_prot : 0 <= fd_protocol_type p < 2 ^ 7;
  df_value : 0 <= fd_value p < 2 ^ 48
}.

(** The registers of a filter show given details. *)
Record shows (b : B) (pfid idx : Z) (p : qed_llh_filter_details) : Prop := {
  sh_en : bus_reg b pfid (en_addr idx) = fd_enable p;
  sh_lo : bus_reg b pfid (value_addr idx) = fd_value p mod 2 ^ 32;
  sh_hi : bus_reg b pfid (value_addr idx + 4) = fd_value p / 2 ^ 32;
  sh_mode : bus_reg b pfid (mode_addr idx) = fd_mode p;
  sh_prot : bus_reg b pfid (prot_addr idx) = fd_protocol_type p;
  sh_hdr : bus_reg b pfid (hdr_addr idx) = fd_hdr_sel p
}.

(** Effect of accesses that touch only registers [R] of function [p], among the
    plain ones. *)
Record touched (p : Z) (R : Z -> Prop) (b b' : B) : Prop := {
  to_step : bus_step b b';
  to_frame f x : bus_plain x -> is_pfid f /\ f <> p \/ ~ R x -> bus_reg b' f x = bus_reg b f x
}.

Lemma touched_refl p R b : bus_ok b -> touched p R b b.
Proof. by constructor. Qed.

Lemma touched_trans p (R : Z -> Prop) b1 b2 b3 : touched p R b1 b2 -> touched p R b2 b3 -> touched p R b1 b3.
Proof.
  intros [[O1 N1 H1] F1] [[O2 N2 H2] F2]. constructor; [constructor; congruence|].
  intros f x Hpl Hx. rewrite F2, F1 by done. done.
Qed.

Lemma touched_mono p (R R' : Z -> Prop) b b' : (forall x, R x -> R' x) -> touched p R b b' -> touched p R' b b'.
Proof. intros HR [S F]. constructor; [done|]. intros f x Hpl Hx. apply F; [done|]. destruct Hx; [by left|right; auto]. Qed.

Lemma ppfid_wr_touched t p a v b :
  bus_ok b -> t ∈ bus_held b -> is_pfid p -> bus_plain a -> bus_banked a -> bus_fits a v ->
  touched p (eq a) b (bus_ppfid_wr t p a v b) /\ bus_reg (bus_ppfid_wr t p a v b) p a = v.
Proof.
  intros Hok Ht Hp Hpl Hbk Hf. destruct (law_ppfid_wr b t p a v Hok Ht Hp Hpl Hf) as (S & E & F).
  split; [|done]. constructor; [done|]. intros f x _ Hx. apply F.
  destruct Hx as [Hx|Hx]; [by right|left; congruence].
Qed.

Lemma value_split v : 0 <= v < 2 ^ 48 -> value_dwords v = [v mod 2 ^ 32; v / 2 ^ 32] /\
  0 <= v mod 2 ^ 32 < 2 ^ 32 /\ 0 <= v / 2 ^ 32 < 2 ^ 16.
Proof.
  intros Hv. unfold value_dwords. change 0xffffffff with (2 ^ 32 - 1).
  rewrite Z.shiftr_div_pow2, (land_pow2_mask v 32) by lia.
  split; [done|]. split; [apply Z.mod_pos_bound; lia|].
  split; [apply Z.div_pos; lia|apply Z.div_lt_upper_bound; lia].
Qed.

Lemma dmae_wr_touched t p idx v b rc b' :
  llh_regs -> 0 <= idx < 16 -> bus_ok b -> t ∈ bus_held b -> is_pfid p -> 0 <= v < 2 ^ 48 ->
  bus_dmae_wr t p (value_addr idx) (value_dwords v) b = (rc, b') ->
  touched p (fun x => value_addr idx = x \/ value_addr idx + 4 = x) b b' /\
  (rc = 0 -> bus_reg b' p (value_addr idx) = v mod 2 ^ 32 /\ bus_reg b' p (value_addr idx + 4) = v / 2 ^ 32).
Proof.
  intros L Hi Hok Ht Hp Hv E. destruct (value_split v Hv) as (Ed & Hlo & Hhi). rewrite Ed in E.
  pose proof (law_dmae_wr b t p (value_addr idx) [v mod 2 ^ 32; v / 2 ^ 32] Hok Ht Hp) as Lw.
  rewrite E in Lw. destruct Lw as (S & W & F).
  { intros k x Hk. destruct k as [|[|k]]; simpl in Hk; simplify_eq; simpl.
    - rewrite Z.add_0_r. destruct (lr_plain L idx (value_addr idx)); [done|unfold filter_reg; tauto|].
      repeat split; [done|done|by apply lr_lo].
    - change (4 * Z.of_nat 1) with 4. destruct (lr_plain L idx (value_addr idx + 4)); [done|unfold filter_reg; tauto|].
      repeat split; [done|done|by apply lr_hi]. }
  split; [constructor; [done|]|].
  - intros f x Hpl Hx. apply F; [done|]. destruct Hx as [Hx|Hx]; [by left|]. right. simpl. intros k Hk.
    assert (k = 0 \/ k = 1)%nat as [->| ->] by lia; lia.
  - intros Hrc. split.
    + rewrite <- (Z.add_0_r (value_addr idx)). exact (W Hrc 0%nat _ eq_refl).
    + exact (W Hrc 1%nat _ eq_refl).
Qed.

(** Registers of a filter keep apart. *)
Ltac reg_lia := unfold filter_reg, en_addr, value_addr, mode_addr, prot_addr, hdr_addr,
  NIG_REG_LLH_FUNC_FILTER_EN, NIG_REG_LLH_FUNC_FILTER_VALUE, NIG_REG_LLH_FUNC_FILTER_MODE,
  NIG_REG_LLH_FUNC_FILTER_PROTOCOL_TYPE, NIG_REG_LLH_FUNC_FILTER_HDR_SEL in *; lia.

Lemma filter_regs_disjoint i j x : 0 <= i < 16 -> 0 <= j < 16 -> i <> j -> filter_reg i x -> ~ filter_reg j x.
Proof. intros. reg_lia. Qed.

Lemma filter_plain idx x : llh_regs -> 0 <= idx < 16 -> filter_reg idx x -> bus_plain x.
Proof. intros L Hi Hx. by destruct (lr_plain L idx x Hi Hx). Qed.

(** A register of the filter outside the ones touched. *)
Ltac frame_tac idx := first [right; reg_lia | apply (filter_plain idx); [done|done|unfold filter_reg; tauto]].

(** A step that writes one register of a filter. *)
Lemma filter_wr t p idx a v b :
  llh_regs -> 0 <= idx < 16 -> bus_ok b -> t ∈ bus_held b -> is_pfid p -> filter_reg idx a -> bus_fits a v ->
  touched p (eq a) b (bus_ppfid_wr t p a v b) /\ bus_reg (bus_ppfid_wr t p a v b) p a = v.
Proof. intros L Hi Hok Ht Hp Hr Hf. destruct (lr_plain L idx a Hi Hr). by apply ppfid_wr_touched. Qed.

Ltac held_tac := match goal with
  | S : touched _ _ ?b ?b' |- bus_ok ?b' => apply S
  | S : touched _ _ ?b ?b', Ht : _ ∈ bus_held ?b |- _ ∈ bus_held ?b' => rewrite (bs_held _ _ (to_step _ _ _ _ S)); exact Ht
  end.

(** The registers written after the DMAE transfer. *)
Lemma write_tail t p idx d b :
  llh_regs -> 0 <= idx < 16 -> bus_ok b -> t ∈ bus_held b -> is_pfid p -> details_fit d ->
  let b1 := bus_ppfid_wr t p (mode_addr idx) (fd_mode d) b in
  let b2 := bus_ppfid_wr t p (prot_addr idx) (fd_protocol_type d) b1 in
  let b3 := bus_ppfid_wr t p (hdr_addr idx) (fd_hdr_sel d) b2 in
  touched p (fun x => mode_addr idx = x \/ prot_addr idx = x \/ hdr_addr idx = x) b b3 /\
  bus_reg b3 p (mode_addr idx) = fd_mode d /\ bus_reg b3 p (prot_addr idx) = fd_protocol_type d /\
  bus_reg b3 p (hdr_addr idx) = fd_hdr_sel d.
Proof.
  intros L Hi Hok Ht Hp [] b1 b2 b3.
  destruct (filter_wr t p idx (mode_addr idx) (fd_mode d) b) as [T1 E1];
    [done..|unfold filter_reg; tauto|by apply lr_mode|]. fold b1 in T1, E1.
  assert (Hok1 : bus_ok b1) by held_tac. assert (Ht1 : t ∈ bus_held b1) by held_tac.
  destruct (filter_wr t p idx (prot_addr idx) (fd_protocol_type d) b1) as [T2 E2];
    [done..|unfold filter_reg; tauto|by apply lr_prot|]. fold b2 in T2, E2.
  assert (Hok2 : bus_ok b2) by held_tac. assert (Ht2 : t ∈ bus_held b2) by held_tac.
  destruct (filter_wr t p idx (hdr_addr idx) (fd_hdr_sel d) b2) as [T3 E3];
    [done..|unfold filter_reg; tauto|by apply lr_hdr|]. fold b3 in T3, E3.
  clearbody b1 b2 b3. split; [|split; [|split]].
  - eapply touched_trans; [eapply touched_mono; [|exact T1]|];
      [|eapply touched_trans; [eapply touched_mono; [|exact T2]|eapply touched_mono; [|exact T3]]]; tauto.
  - rewrite (to_frame _ _ _ _ T3), (to_frame _ _ _ _ T2) by frame_tac idx. done.
  - rewrite (to_frame _ _ _ _ T3) by frame_tac idx. done.
  - done.
Qed.

Lemma write_filter_spec t abs idx d b rc b' :
  llh_regs -> 0 <= idx < 16 -> bus_ok b -> t ∈ bus_held b -> is_pfid (QED_PFID_BY_PPFID c abs) -> details_fit d ->
  write_filter c t abs idx d b = (rc, b') ->
  touched (QED_PFID_BY_PPFID c abs) (filter_reg idx) b b' /\
  (rc = 0 -> shows b' (QED_PFID_BY_PPFID c abs) idx d) /\
  (fd_enable d = 0 -> bus_reg b' (QED_PFID_BY_PPFID c abs) (en_addr idx) = 0).
Proof.
  intros L Hi Hok Ht Hp Hd E. unfold write_filter in E. set (p := QED_PFID_BY_PPFID c abs) in *. pose proof Hd as [].
  set (b0 := if fd_enable d =? 0 then _ else b) in E.
  assert (T0 : touched p (eq (en_addr idx)) b b0 /\ (fd_enable d = 0 -> bus_reg b0 p (en_addr idx) = 0)).
  { subst b0. destruct (Z.eqb_spec (fd_enable d) 0) as [->|]; [|by split; [apply touched_refl|]].
    destruct (filter_wr t p idx (en_addr idx) 0 b) as [T E0];
      [done..|unfold filter_reg; tauto|by apply lr_en|]. by split. }
  clearbody b0. destruct T0 as [T0 E0].
  assert (Hok0 : bus_ok b0) by held_tac. assert (Ht0 : t ∈ bus_held b0) by held_tac.
  destruct (bus_dmae_wr t p (value_addr idx) (value_dwords (fd_value d)) b0) as [r b1] eqn:Ed.
  destruct (dmae_wr_touched t p idx (fd_value d) b0 r b1) as [T1 V1]; [done..|].
  assert (T01 : touched p (filter_reg idx) b b1).
  { eapply touched_trans; [eapply touched_mono; [|exact T0]|eapply touched_mono; [|exact T1]];
      intros x Hx; unfold filter_reg; naive_solver. }
  assert (K1 : bus_reg b1 p (en_addr idx) = bus_reg b0 p (en_addr idx))
    by (apply (to_frame _ _ _ _ T1); frame_tac idx).
  destruct (Z.eqb_spec r 0) as [->|Hr]; simpl in E; simplify_eq.
  2: { split; [done|]. split; [done|]. intros Hen. rewrite K1. auto. }
  assert (Hok1 : bus_ok b1) by held_tac. assert (Ht1 : t ∈ bus_held b1) by held_tac.
  destruct (V1 eq_refl) as [Vlo Vhi].
  destruct (write_tail t p idx d b1 L Hi Hok1 Ht1 Hp Hd) as (T3 & Em & Ep & Eh).
  set (b3 := bus_ppfid_wr t p (hdr_addr idx) _ _) in *. clearbody b3.
  assert (Hok3 : bus_ok b3) by held_tac. assert (Ht3 : t ∈ bus_held b3) by held_tac.
  assert (K3 : bus_reg b3 p (en_addr idx) = bus_reg b1 p (en_addr idx))
    by (apply (to_frame _ _ _ _ T3); frame_tac idx).
  assert (W : touched p (eq (en_addr idx)) b3
      (if negb (fd_enable d =? 0) then bus_ppfid_wr t p (en_addr idx) (fd_enable d) b3 else b3) /\
    bus_reg (if negb (fd_enable d =? 0) then bus_ppfid_wr t p (en_addr idx) (fd_enable d) b3 else b3)
      p (en_addr idx) = fd_enable d).
  { destruct (Z.eqb_spec (fd_enable d) 0) as [Hz|]; simpl.
    - split; [by apply touched_refl|]. rewrite K3, K1, Hz. auto.
    - apply filter_wr with (idx := idx); [done..|unfold filter_reg; tauto|by apply lr_en]. }
  destruct W as [T4 E4]. set (b4 := if negb _ then _ else b3) in *. clearbody b4.
  assert (T04 : touched p (filter_reg idx) b b4).
  { eapply touched_trans; [exact T01|].
    eapply touched_trans; [eapply touched_mono; [|exact T3]|eapply touched_mono; [|exact T4]];
      intros x Hx; unfold filter_reg; naive_solver. }
  split; [done|]. split; [|intros Hz; by rewrite E4].
  intros _. constructor; [done|..];
    rewrite (to_frame _ _ _ _ T4) by frame_tac idx; try done;
    rewrite (to_frame _ _ _ _ T3) by frame_tac idx; done.
Qed.

(** ** Filters and their register contents *)

Definition is_mac (mac : list Z) : Prop := length mac = 6%nat /\ Forall (fun x => 0 <= x < 2 ^ 8) mac.
Definition hdr_sel : Z := if mf_ovlan_clss c then 1 else 0.

(** The details with which a filter of the shadow is configured. *)
Inductive encodes : qed_llh_filter_type -> filter_bytes -> qed_llh_filter_details -> Prop :=
| encodes_mac mac : is_mac mac ->
    encodes QED_LLH_FILTER_TYPE_MAC (mac_filter mac)
      (mk_details (Z.lor (Z.shiftl (fst (mac_hilo mac)) 32) (snd (mac_hilo mac))) 0 0 hdr_sel 1)
| encodes_protocol type src dst high low :
    0 <= type <= 6 -> 0 <= src < 2 ^ 16 -> 0 <= dst < 2 ^ 16 ->
    qed_llh_protocol_filter_to_hilo type src dst = Ok (high, low) ->
    encodes QED_LLH_FILTER_TYPE_PROTOCOL (protocol_filter type src dst)
      (mk_details (Z.lor (Z.shiftl high 32) low) 1 (2 ^ type) hdr_sel 1).

Lemma value_bound high low : 0 <= high < 2 ^ 16 -> 0 <= low < 2 ^ 32 -> 0 <= Z.lor (Z.shiftl high 32) low < 2 ^ 48.
Proof. intros. apply lor_bound; [|lia]. rewrite Z.shiftl_mul_pow2 by lia. lia. Qed.

Lemma mac_hilo_bound mac : is_mac mac -> 0 <= fst (mac_hilo mac) < 2 ^ 16 /\ 0 <= snd (mac_hilo mac) < 2 ^ 32.
Proof.
  intros [Hl Hf].
  destruct mac as [|m0 [|m1 [|m2 [|m3 [|m4 [|m5 [|? ?]]]]]]]; try discriminate.
  repeat match goal with F : Forall _ (_ :: _) |- _ => inversion_clear F end. unfold mac_hilo; simpl. rewrite !Z.shiftl_mul_pow2 by lia.
  split; repeat apply lor_bound; lia.
Qed.

Lemma to_hilo_bound type src dst high low :
  0 <= src < 2 ^ 16 -> 0 <= dst < 2 ^ 16 -> qed_llh_protocol_filter_to_hilo type src dst = Ok (high, low) ->
  0 <= high < 2 ^ 16 /\ 0 <= low < 2 ^ 32.
Proof.
  intros Hs Hd. unfold qed_llh_protocol_filter_to_hilo.
  pose proof (u32_bound (Z.shiftl src 16)). pose proof (u32_bound (Z.lor (Z.shiftl src 16) dst)).
  zcases; intros E; simplify_eq; lia.
Qed.

Lemma encodes_fit type f d : encodes type f d -> details_fit d /\ fd_enable d = 1.
Proof.
  assert (Hh : 0 <= hdr_sel <= 1) by (unfold hdr_sel; destruct (mf_ovlan_clss c); lia).
  intros [mac Hm|ty src dst high low Ht Hs Hd E]; (split; [|done]).
  - destruct (mac_hilo_bound _ Hm). constructor; simpl; [lia|lia|done|lia|by apply value_bound].
  - destruct (to_hilo_bound _ _ _ _ _ Hs Hd E). constructor; simpl; [lia|lia|done| |by apply value_bound].
    split; [lia|]. apply Z.pow_lt_mono_r; lia.
Qed.

(** ** The mirror *)

(** The chip's filter [k] agrees with the shadow entry. *)
Definition entry_shown (b : B) (pfid : Z) (k : Z) (e : qed_llh_filter_info) : Prop :=
  if b_enabled e then exists d, encodes (ftype e) (ffilter e) d /\ shows b pfid k d
  else bus_reg b pfid (en_addr k) = 0.

Definition mirror (i : qed_llh_info) (b : B) : Prop :=
  forall q bk a k e, pp_filters i !! q = Some bk -> ppfid_array i !! q = Some a -> bk !! k = Some e ->
    entry_shown b (QED_PFID_BY_PPFID c a) (Z.of_nat k) e.

(** The functions behind the banks: in the range of the chip, one per bank. *)
Record pfids_ok (i : qed_llh_info) : Prop := {
  pf_range q a : (q < Z.to_nat (num_ppfid i))%nat -> ppfid_array i !! q = Some a -> is_pfid (QED_PFID_BY_PPFID c a);
  pf_inj q r a a' : (q < Z.to_nat (num_ppfid i))%nat -> (r < Z.to_nat (num_ppfid i))%nat ->
    ppfid_array i !! q = Some a -> ppfid_array i !! r = Some a' ->
    QED_PFID_BY_PPFID c a = QED_PFID_BY_PPFID c a' -> q = r
}.

Lemma shows_frame b b' p k d :
  (forall x, filter_reg k x -> bus_reg b' p x = bus_reg b p x) -> shows b p k d -> shows b' p k d.
Proof. intros F []. constructor; rewrite F by (unfold filter_reg; tauto); done. Qed.

Lemma entry_shown_frame b b' p k e :
  (forall x, filter_reg k x -> bus_reg b' p x = bus_reg b p x) -> entry_shown b p k e -> entry_shown b' p k e.
Proof.
  intros F. unfold entry_shown. destruct (b_enabled e).
  - intros (d & Hd & S). exists d. split; [done|by eapply shows_frame].
  - intros E. rewrite F by (unfold filter_reg; tauto). done.
Qed.

Lemma mirror_set i ppfid bk a idx e' b b' :
  llh_regs -> llh_wf i -> pfids_ok i -> 0 <= ppfid < num_ppfid i -> bank i ppfid = Some bk ->
  ppfid_array i !! Z.to_nat ppfid = Some a -> 0 <= idx < 16 -> mirror i b ->
  touched (QED_PFID_BY_PPFID c a) (filter_reg idx) b b' -> entry_shown b' (QED_PFID_BY_PPFID c a) idx e' ->
  mirror (set_bank i ppfid (<[Z.to_nat idx := e']> bk)) b'.
Proof.
  intros L W P Hp Hb Ha Hi M T Hs q bk' a' k e Hq Ha' Hk. simpl in Hq, Ha'.
  assert (Hlt : (q < Z.to_nat (num_ppfid i))%nat).
  { apply lookup_lt_Some in Hq. rewrite length_insert, (lw_banks _ W) in Hq. done. }
  destruct (decide (q = Z.to_nat ppfid)) as [->|Hne].
  - rewrite list_lookup_insert_eq in Hq by (rewrite (lw_banks _ W); lia). simplify_eq.
    assert (Hlen : length bk = 16%nat) by (eapply bw_len, (lw_bank _ W); exact Hb).
    apply list_lookup_insert_Some in Hk as [(<- & <- & _)|[Hki Hk]]; [by rewrite Z2Nat.id by lia|].
    apply lookup_lt_Some in Hk as Hkl.
    eapply entry_shown_frame; [|by eapply M]. intros x Hx. apply (to_frame _ _ _ _ T); [by eapply (filter_plain (Z.of_nat k)); [|lia|]|right].
    eapply (filter_regs_disjoint (Z.of_nat k)); [lia|lia|lia|done].
  - rewrite list_lookup_insert_ne in Hq by done.
    assert (Hlen : length bk' = 16%nat) by (by eapply bw_len, (lw_bank _ W q)).
    apply lookup_lt_Some in Hk as Hkl.
    eapply entry_shown_frame; [|by eapply M]. intros x Hx. apply (to_frame _ _ _ _ T); [by eapply (filter_plain (Z.of_nat k)); [|lia|]|left].
    split; [by eapply (pf_range _ P)|]. intros E. apply Hne.
    eapply (pf_inj _ P); [done|lia|done|done|done].
Qed.

Lemma mirror_same_bus i b b' : (forall f x, bus_reg b' f x = bus_reg b f x) -> mirror i b -> mirror i b'.
Proof. intros E M q bk a k e Hq Ha Hk. eapply entry_shown_frame; [|by eapply M]. auto. Qed.

Lemma pfids_ok_set i p b : pfids_ok i -> pfids_ok (set_bank i p b).
Proof. intros []. by constructor. Qed.
End Mirror.
