(* ===== verification/LlhProps.v ===== *)
(** * Theorems on the LLH filters

    The filter operations implement a table of reference counts per bank, and
    the enabled filters of the chip are those of the table. *)

From S2P Require Import Prelude Llh LlhShadow LlhHw.

Section Ops.
  Context {B : Type} `{RegBus B} `{!RegBusLaws B} (c : llh_cfg).

(** ** Invariant and abstract state *)

Record llh_inv (s : llh_state B) : Prop := {
  li_wf : llh_wf (llh s);
  li_pfids : pfids_ok c (llh s);
  li_ok : bus_ok (bus s);
  li_mirror : mirror c (llh s) (bus s)
}.

(** The table: users of filter [f] in bank [ppfid]. *)
Definition table (s : llh_state B) (ppfid : Z) (f : filter_bytes) : Z :=
  match bank (llh s) ppfid with Some b => refs b f | None => 0 end.

Definition table_full (s : llh_state B) (ppfid : Z) : Prop :=
  exists b, bank (llh s) ppfid = Some b /\ bank_full b.

(** A filter as its user names it. *)
Inductive llh_filter := MacFilter (mac : list Z) | ProtocolFilter (type src dst : Z).

Definition bytes_of (x : llh_filter) : filter_bytes :=
  match x with MacFilter mac => mac_filter mac | ProtocolFilter type src dst => protocol_filter type src dst end.
Definition type_of (x : llh_filter) : qed_llh_filter_type :=
  match x with MacFilter _ => QED_LLH_FILTER_TYPE_MAC | ProtocolFilter _ _ _ => QED_LLH_FILTER_TYPE_PROTOCOL end.

(** A filter that is not the all-zero pattern of a free entry. *)
Definition filter_ok (x : llh_filter) : Prop :=
  bytes_of x <> zero_filter /\
  match x with
  | MacFilter mac => is_mac mac
  | ProtocolFilter type src dst => 0 <= type <= 6 /\ 0 <= src < 2 ^ 16 /\ 0 <= dst < 2 ^ 16
  end.

(** The classification mode of the device uses such filters. *)
Definition enabled (x : llh_filter) : Prop :=
  match x with
  | MacFilter _ => mf_llh_mac_clss c = true /\ is_vf c = false
  | ProtocolFilter _ _ _ => mf_llh_proto_clss c = true
  end.

Definition llh_add (ppfid : Z) (x : llh_filter) (s : llh_state B) : option (Z * llh_state B) :=
  match x with
  | MacFilter mac => qed_llh_add_mac_filter c ppfid mac s
  | ProtocolFilter type src dst => qed_llh_add_protocol_filter c ppfid type src dst s
  end.

Definition llh_remove (ppfid : Z) (x : llh_filter) (s : llh_state B) : option (Z * llh_state B) :=
  match x with
  | MacFilter mac => qed_llh_remove_mac_filter c ppfid mac s
  | ProtocolFilter type src dst => qed_llh_remove_protocol_filter c ppfid type src dst s
  end.

(** ** The frame of an operation *)

(** [with_ptt] gives its body an entry and takes it back. *)
Lemma with_ptt_spec err s body (P : Z -> llh_state B -> Prop) :
  bus_ok (bus s) ->
  (forall b, bus_ok b -> bus_reg b = bus_reg (bus s) -> bus_held b = bus_held (bus s) ->
     bus_own b = bus_own (bus s) -> P err (set_bus b s)) ->
  (forall t b, bus_ok b -> bus_reg b = bus_reg (bus s) -> t ∈ bus_held b -> bus_own b = bus_own (bus s) ->
     exists rc s', body t (set_bus b s) = Some (rc, s') /\ bus_step b (bus s') /\
       forall b', bus_ok b' -> bus_reg b' = bus_reg (bus s') -> P rc (set_bus b' s')) ->
  exists rc s', with_ptt err s body = Some (rc, s') /\ bus_held (bus s') = bus_held (bus s) /\
    bus_own (bus s') = bus_own (bus s) /\ P rc s'.
Proof.
  intros Hok Hnone Hsome. unfold with_ptt. pose proof (law_acquire (bus s) Hok) as La.
  destruct (bus_acquire (bus s)) as [[t|] b].
  - destruct La as (Hokb & Hown & Hreg & Hnin & Hheld).
    destruct (Hsome t b Hokb Hreg) as (rc & s' & E & S & HP); [rewrite Hheld; set_solver|done|].
    rewrite E. simpl. destruct S as [S1 S2 S3].
    destruct (law_release (bus s') t (bus_held (bus s)) S1) as (R1 & R2 & R3 & R4); [congruence|].
    eexists _, _. split; [done|]. simpl. split; [done|]. split; [congruence|]. by apply HP.
  - destruct La as (Hokb & Hown & Hreg & Hheld). eexists _, _. split; [done|]. simpl.
    split; [done|]. split; [done|]. by apply Hnone.
Qed.

Lemma inv_same_bus s b : llh_inv s -> bus_ok b -> (forall f x, bus_reg b f x = bus_reg (bus s) f x) -> llh_inv (set_bus b s).
Proof.
  intros [W P Hok M] Hb E. constructor; simpl; [done..|]. by eapply mirror_same_bus.
Qed.

Lemma inv_set_bus s b : llh_inv s -> bus_ok b -> bus_reg b = bus_reg (bus s) -> llh_inv (set_bus b s).
Proof. intros I Hb E. apply inv_same_bus; [done..|]. by rewrite E. Qed.

Lemma table_set s ppfid b b' q g idx e' :
  llh_wf (llh s) -> 0 <= ppfid < num_ppfid (llh s) -> bank (llh s) ppfid = Some b -> 0 <= q ->
  table (mk_llh_state (set_bank (llh s) ppfid (<[idx := e']> b)) (fir_affin s) (l2_affin_hint s) (iwarp_affin s) b') q g =
  if decide (q = ppfid) then refs (<[idx := e']> b) g else table s q g.
Proof.
  intros W Hp Hb Hq. unfold table; simpl. rewrite bank_set_bank by done. by destruct (decide (q = ppfid)).
Qed.

(** The code of a failed DMAE transfer. *)
Definition dmae_failed (rc : Z) : Prop := rc <> 0 /\ exists t p a vs (b : B), fst (bus_dmae_wr t p a vs b) = rc.

Lemma write_filter_rc t abs idx d b rc b' : write_filter c t abs idx d b = (rc, b') -> rc = 0 \/ dmae_failed rc.
Proof.
  unfold write_filter. set (b0 := if fd_enable d =? 0 then _ else b).
  destruct (bus_dmae_wr _ _ _ _ b0) as [r b1] eqn:E. destruct (Z.eqb_spec r 0) as [->|Hr]; simpl; intros; simplify_eq.
  - by left.
  - right. split; [done|]. eexists _, _, _, _, _. by rewrite E.
Qed.

(** ** Adding a filter *)

Definition add_post (s : llh_state B) (ppfid : Z) (f : filter_bytes) (rc : Z) (s' : llh_state B) : Prop :=
  (llh s' = llh s /\ llh_inv s' /\ rc = - EINVAL /\
     (num_ppfid (llh s) <= ppfid \/ table s ppfid f = 0 /\ table_full s ppfid)) \/
  (ppfid < num_ppfid (llh s) /\ (rc = 0 \/ dmae_failed rc) /\ (rc = 0 -> llh_inv s') /\ (0 < table s ppfid f -> rc = 0) /\
     llh_wf (llh s') /\ num_ppfid (llh s') = num_ppfid (llh s) /\
     forall q g, 0 <= q -> table s' q g = table s q g + if decide (q = ppfid /\ g = f) then 1 else 0).

Lemma shadow_add_bad_ppfid i ppfid type f :
  num_ppfid i <= ppfid -> qed_llh_shadow_add_filter i ppfid type f = Err (- EINVAL).
Proof.
  intros Hp. unfold qed_llh_shadow_add_filter, qed_llh_shadow_search_filter. rewrite sanity_bad by done. done.
Qed.

Lemma shadow_remove_bad_ppfid i ppfid f :
  num_ppfid i <= ppfid -> qed_llh_shadow_remove_filter i ppfid f = Err (- EINVAL).
Proof.
  intros Hp. unfold qed_llh_shadow_remove_filter, qed_llh_shadow_search_filter. rewrite sanity_bad by done. done.
Qed.

Lemma add_common_spec (Hregs : llh_regs) t s ppfid type f d configure :
  llh_inv s -> t ∈ bus_held (bus s) -> 0 <= ppfid -> f <> zero_filter -> table s ppfid f + 1 < 2 ^ 32 ->
  encodes c type f d ->
  (forall abs idx b, configure abs idx b = Ok (write_filter c t abs idx d b)) ->
  exists rc s', add_common ppfid type f configure s = Some (rc, s') /\ bus_step (bus s) (bus s') /\
    add_post s ppfid f rc s'.
Proof.
  intros [W P Hok M] Ht Hp Hz Hmax Henc Hconf. unfold add_common.
  destruct (Z.le_gt_cases (num_ppfid (llh s)) ppfid) as [Hbad|Hgood].
  { rewrite shadow_add_bad_ppfid by done. eexists _, _. split; [done|]. split; [by constructor|].
    left. split; [done|]. split; [by constructor|]. split; [done|by left]. }
  destruct (bank_lookup (llh s) ppfid W) as (b & Hb & Wb); [lia|].
  assert (Et : table s ppfid f = refs b f) by (unfold table; by rewrite Hb). rewrite Et in Hmax.
  destruct (shadow_add_spec (llh s) ppfid type f b W) as [(idx & e & e' & -> & A)|(-> & E0 & Hfull)]; [lia|done..| |].
  2: { eexists _, _. split; [done|]. split; [by constructor|].
       left. split; [done|]. split; [by constructor|]. split; [done|]. right. rewrite Et. split; [done|by exists b]. }
  set (i' := set_bank _ _ _). change (llh (set_llh i' s)) with i'.
  assert (W' : llh_wf i') by (apply set_bank_wf; [done|apply A]).
  destruct (abs_ppfid_ok i' ppfid W') as (a & -> & Ha & Har); [simpl; lia|]. simpl in Ha.
  assert (Hpf : is_pfid (QED_PFID_BY_PPFID c a)) by (eapply (pf_range _ _ P); [|exact Ha]; lia).
  pose proof (encodes_fit _ _ _ _ Henc) as [Hfit Hen].
  assert (Htab : forall q g b', 0 <= q ->
    table (mk_llh_state i' (fir_affin s) (l2_affin_hint s) (iwarp_affin s) b') q g =
    table s q g + if decide (q = ppfid /\ g = f) then 1 else 0).
  { intros q g b' Hq. subst i'. rewrite table_set by (done || lia). destruct (decide (q = ppfid)) as [->|].
    - rewrite (ad_refs _ _ _ _ _ _ A). unfold table. rewrite Hb. f_equal.
      destruct (decide (g = f)), (decide (ppfid = ppfid /\ g = f)); try tauto; done.
    - rewrite decide_False by tauto. lia. }
  destruct (refs_inv b f Wb) as [(k0 & e0 & _ & _ & Er & Hpos)|[_ Er]].
  - (* another user: the chip is configured already *)
    rewrite (proj2 (Z.eqb_neq _ _)) by lia. eexists _, _. split; [done|]. split; [by constructor|].
    right. split; [done|]. split; [by left|]. split; [intros _|split; [done|]; split; [done|]; split; [done|by intros; apply Htab]].
    constructor; simpl; [done|by apply pfids_ok_set|done|].
    apply (mirror_set c (llh s) ppfid b a idx e' (bus s) (bus s));
      [done|done|done|lia|done|done|apply A|done|by apply touched_refl|].
    pose proof (ad_shared _ _ _ _ _ _ A ltac:(lia)) as [Hu Hf].
    pose proof (M _ _ _ _ _ Hb Ha (ad_old _ _ _ _ _ _ A)) as Hs.
    rewrite Z2Nat.id in Hs by apply A. rewrite (ad_new _ _ _ _ _ _ A), (proj2 (Z.eqb_neq _ _)) by lia.
    unfold entry_shown in *. rewrite Hu in Hs. simpl. by rewrite Hf in Hs.
  - rewrite Er. simpl. rewrite Hconf.
    destruct (write_filter c t a idx d (bus s)) as [rc b'] eqn:Ew.
    destruct (write_filter_spec c t a idx d (bus s) rc b' Hregs (ad_idx _ _ _ _ _ _ A)) as (T & S & _); [done..|].
    eexists _, _. split; [done|]. split; [apply T|]. right. split; [done|].
    split; [by eapply write_filter_rc|]. split; [intros Hrc|split; [rewrite Et; lia|]; split; [done|]; split; [done|by intros; apply Htab]].
    constructor; simpl; [done|by apply pfids_ok_set|apply T|].
    apply (mirror_set c (llh s) ppfid b a idx e' (bus s) b'); [done|done|done|lia|done|done|apply A|done|done|].
    rewrite (ad_new _ _ _ _ _ _ A), Er. unfold entry_shown; simpl. exists d. split; [done|by apply S].
Qed.

(** ** Removing a filter *)

Definition remove_post (s : llh_state B) (ppfid : Z) (f : filter_bytes) (rc : Z) (s' : llh_state B) : Prop :=
  llh_inv s' /\ num_ppfid (llh s') = num_ppfid (llh s) /\
  ((llh s' = llh s /\ rc = - EINVAL /\ (num_ppfid (llh s) <= ppfid \/ table s ppfid f = 0)) \/
   (ppfid < num_ppfid (llh s) /\ 0 < table s ppfid f /\ (rc = 0 \/ dmae_failed rc) /\
      forall q g, 0 <= q -> table s' q g = table s q g - if decide (q = ppfid /\ g = f) then 1 else 0)).

Lemma zero_details_fit : details_fit (mk_details 0 0 0 0 0).
Proof. constructor; simpl; lia. Qed.

Lemma remove_common_spec (Hregs : llh_regs) t s ppfid f :
  llh_inv s -> t ∈ bus_held (bus s) -> 0 <= ppfid -> f <> zero_filter ->
  exists rc s', remove_common c t ppfid f s = Some (rc, s') /\ bus_step (bus s) (bus s') /\
    remove_post s ppfid f rc s'.
Proof.
  intros [W P Hok M] Ht Hp Hz. unfold remove_common.
  destruct (Z.le_gt_cases (num_ppfid (llh s)) ppfid) as [Hbad|Hgood].
  { rewrite shadow_remove_bad_ppfid by done. eexists _, _. split; [done|]. split; [by constructor|].
    split; [by constructor|]. split; [done|]. left. split; [done|]. split; [done|by left]. }
  destruct (bank_lookup (llh s) ppfid W) as (b & Hb & Wb); [lia|].
  assert (Et : table s ppfid f = refs b f) by (unfold table; by rewrite Hb).
  destruct (shadow_remove_spec (llh s) ppfid f b W) as [(idx & e & e' & -> & Hpos & A)|(-> & E0)]; [lia|done..| |].
  2: { eexists _, _. split; [done|]. split; [by constructor|]. split; [by constructor|]. split; [done|].
       left. split; [done|]. split; [done|]. right. congruence. }
  set (i' := set_bank _ _ _). change (llh (set_llh i' s)) with i'.
  assert (W' : llh_wf i') by (apply set_bank_wf; [done|apply A]).
  destruct (abs_ppfid_ok i' ppfid W') as (a & -> & Ha & Har); [simpl; lia|]. simpl in Ha.
  assert (Hpf : is_pfid (QED_PFID_BY_PPFID c a)) by (eapply (pf_range _ _ P); [|exact Ha]; lia).
  assert (Htab : forall q g b', 0 <= q ->
    table (mk_llh_state i' (fir_affin s) (l2_affin_hint s) (iwarp_affin s) b') q g =
    table s q g - if decide (q = ppfid /\ g = f) then 1 else 0).
  { intros q g b' Hq. subst i'. rewrite table_set by (done || lia). destruct (decide (q = ppfid)) as [->|].
    - rewrite (rm_refs _ _ _ _ _ A). unfold table. rewrite Hb. f_equal.
      destruct (decide (g = f)), (decide (ppfid = ppfid /\ g = f)); try tauto; done.
    - rewrite decide_False by tauto. lia. }
  assert (Hnew := rm_new _ _ _ _ _ A).
  destruct (Z.eqb_spec (refs b f) 1) as [E1|E1].
  - (* last user: the filter is disabled *)
    rewrite E1. simpl. unfold qed_llh_remove_filter.
    destruct (write_filter c t a idx (mk_details 0 0 0 0 0) (bus s)) as [rc b'] eqn:Ew.
    destruct (write_filter_spec c t a idx (mk_details 0 0 0 0 0) (bus s) rc b' Hregs (rm_idx _ _ _ _ _ A)) as (T & _ & S);
      [done..|apply zero_details_fit|done|].
    eexists _, _. split; [done|]. split; [apply T|]. split; [|split; [done|]].
    + constructor; simpl; [done|by apply pfids_ok_set|apply T|].
      apply (mirror_set c (llh s) ppfid b a idx e' (bus s) b'); [done|done|done|lia|done|done|apply A|done|done|].
      rewrite Hnew. by apply S.
    + right. split; [done|]. split; [lia|]. split; [by eapply write_filter_rc|]. intros; by apply Htab.
  - rewrite (proj2 (Z.eqb_neq _ _)) by lia. eexists _, _. split; [done|]. split; [by constructor|].
    split; [|split; [done|]].
    + constructor; simpl; [done|by apply pfids_ok_set|done|].
      apply (mirror_set c (llh s) ppfid b a idx e' (bus s) (bus s));
        [done|done|done|lia|done|done|apply A|done|by apply touched_refl|].
      pose proof (rm_uses _ _ _ _ _ A) as [Hu Hf]. pose proof (M _ _ _ _ _ Hb Ha (rm_old _ _ _ _ _ A)) as Hs.
      rewrite Z2Nat.id in Hs by apply A. rewrite Hnew.
      unfold entry_shown in *. rewrite Hu in Hs. simpl. by rewrite Hf in Hs.
    + right. split; [done|]. split; [lia|]. split; [by left|]. intros; by apply Htab.
Qed.

(** ** The public operations *)

Lemma proto_shift type : 0 <= type <= 6 -> u8 (Z.shiftl 1 type) = 2 ^ type /\ (2 ^ type =? 0) = false.
Proof.
  intros Ht. rewrite Z.shiftl_1_l. split; [apply u8_small|].
  - split; [lia|]. apply Z.pow_lt_mono_r; lia.
  - apply Z.eqb_neq. pose proof (Z.pow_pos_nonneg 2 type). lia.
Qed.

Lemma stringify_ok type : 0 <= type <= 6 -> qed_llh_protocol_filter_stringify type = 0.
Proof.
  intros Ht. assert (type = 0 \/ type = 1 \/ type = 2 \/ type = 3 \/ type = 4 \/ type = 5 \/ type = 6) as E by lia.
  unfold qed_llh_protocol_filter_stringify. rewrite bool_decide_eq_true_2; [done|].
  intuition subst; set_solver.
Qed.

Lemma to_hilo_ok type src dst : 0 <= type <= 6 ->
  exists high low, qed_llh_protocol_filter_to_hilo type src dst = Ok (high, low).
Proof.
  intros Ht. assert (type = 0 \/ type = 1 \/ type = 2 \/ type = 3 \/ type = 4 \/ type = 5 \/ type = 6) as E by lia.
  intuition subst; unfold qed_llh_protocol_filter_to_hilo; simpl; by eexists _, _.
Qed.

Definition add_outcome (s : llh_state B) (ppfid : Z) (f : filter_bytes) (rc : Z) (s' : llh_state B) : Prop :=
  (rc = - EAGAIN /\ llh s' = llh s /\ llh_inv s') \/ add_post s ppfid f rc s'.

Lemma add_post_bus s b b' ppfid f rc s' :
  add_post (set_bus b s) ppfid f rc s' -> bus_ok b' -> bus_reg b' = bus_reg (bus s') ->
  add_post s ppfid f rc (set_bus b' s').
Proof.
  intros [(E & I & Hrc & Hc)|(Hp & Hrc & I & Hpos & W & Hn & T)] Hb' Hr.
  - left. split; [done|]. split; [by apply inv_set_bus|]. split; done.
  - right. split; [done|]. split; [done|]. split; [|done]. intros E. apply inv_set_bus; [by apply I|done|done].
Qed.

Lemma remove_post_bus s b b' ppfid f rc s' :
  remove_post (set_bus b s) ppfid f rc s' -> bus_ok b' -> bus_reg b' = bus_reg (bus s') ->
  remove_post s ppfid f rc (set_bus b' s').
Proof.
  intros (I & N & C) Hb' Hr. split; [by apply inv_set_bus|]. split; [done|]. exact C.
Qed.

Lemma llh_add_spec (Hregs : llh_regs) s ppfid x :
  llh_inv s -> filter_ok x -> enabled x -> 0 <= ppfid -> table s ppfid (bytes_of x) + 1 < 2 ^ 32 ->
  exists rc s', llh_add ppfid x s = Some (rc, s') /\ bus_held (bus s') = bus_held (bus s) /\
    bus_own (bus s') = bus_own (bus s) /\ add_outcome s ppfid (bytes_of x) rc s'.
Proof.
  intros I [Hz Hx] Hen Hp Hmax.
  assert (Hnone : forall b, bus_ok b -> bus_reg b = bus_reg (bus s) -> bus_held b = bus_held (bus s) ->
     bus_own b = bus_own (bus s) -> add_outcome s ppfid (bytes_of x) (- EAGAIN) (set_bus b s)).
  { intros b Hb Hr _ _. left. split; [done|]. split; [done|]. by apply inv_set_bus. }
  destruct x as [mac|type src dst]; simpl in *.
  - destruct Hen as [H1 H2]. unfold qed_llh_add_mac_filter. rewrite H1, H2. simpl.
    apply with_ptt_spec; [apply I|exact Hnone|]. intros t b Hb Hr Ht _.
    edestruct (add_common_spec Hregs t (set_bus b s) ppfid QED_LLH_FILTER_TYPE_MAC (mac_filter mac))
      as (rc & s' & E & S & Post); [by apply inv_set_bus|done..|by apply encodes_mac| |].
    2: { exists rc, s'. split; [exact E|]. split; [exact S|]. intros b' Hb' Hr'. right. by eapply add_post_bus. }
    intros abs idx b0. rewrite (surjective_pairing (mac_hilo mac)). reflexivity.
  - destruct Hx as (Ht & Hs & Hd). destruct (to_hilo_ok type src dst Ht) as (high & low & Eh).
    unfold qed_llh_add_protocol_filter. apply with_ptt_spec; [apply I|exact Hnone|]. intros t b Hb Hr Hheld _.
    rewrite Hen, stringify_ok by done. simpl.
    edestruct (add_common_spec Hregs t (set_bus b s) ppfid QED_LLH_FILTER_TYPE_PROTOCOL (protocol_filter type src dst))
      as (rc & s' & E & S & Post); [by apply inv_set_bus|done..|by eapply encodes_protocol| |].
    2: { exists rc, s'. split; [exact E|]. split; [exact S|]. intros b' Hb' Hr'. right. by eapply add_post_bus. }
    intros abs idx b0. rewrite Eh. simpl. destruct (proto_shift type Ht) as [E1 E2].
    unfold qed_llh_add_filter. by rewrite E1, E2.
Qed.

Definition remove_outcome (s : llh_state B) (ppfid : Z) (f : filter_bytes) (rc : Z) (s' : llh_state B) : Prop :=
  (rc = 0 /\ llh s' = llh s /\ llh_inv s') \/ remove_post s ppfid f rc s'.

Lemma llh_remove_spec (Hregs : llh_regs) s ppfid x :
  llh_inv s -> filter_ok x -> enabled x -> 0 <= ppfid ->
  exists rc s', llh_remove ppfid x s = Some (rc, s') /\ bus_held (bus s') = bus_held (bus s) /\
    bus_own (bus s') = bus_own (bus s) /\ remove_outcome s ppfid (bytes_of x) rc s'.
Proof.
  intros I [Hz Hx] Hen Hp.
  assert (Hnone : forall b, bus_ok b -> bus_reg b = bus_reg (bus s) -> bus_held b = bus_held (bus s) ->
     bus_own b = bus_own (bus s) -> remove_outcome s ppfid (bytes_of x) 0 (set_bus b s)).
  { intros b Hb Hr _ _. left. split; [done|]. split; [done|]. by apply inv_set_bus. }
  assert (Hsome : forall t b, bus_ok b -> bus_reg b = bus_reg (bus s) -> t ∈ bus_held b -> bus_own b = bus_own (bus s) ->
     exists rc s', remove_common c t ppfid (bytes_of x) (set_bus b s) = Some (rc, s') /\ bus_step b (bus s') /\
       forall b', bus_ok b' -> bus_reg b' = bus_reg (bus s') -> remove_outcome s ppfid (bytes_of x) rc (set_bus b' s')).
  { intros t b Hb Hr Ht _.
    destruct (remove_common_spec Hregs t (set_bus b s) ppfid (bytes_of x)) as (rc & s' & E & S & Post);
      [by apply inv_set_bus|done..|].
    exists rc, s'. split; [exact E|]. split; [exact S|]. intros b' Hb' Hr'. right. by eapply remove_post_bus. }
  destruct x as [mac|type src dst]; simpl in *.
  - destruct Hen as [H1 H2]. unfold qed_llh_remove_mac_filter. rewrite H1, H2. simpl.
    apply with_ptt_spec; [apply I|exact Hnone|exact Hsome].
  - destruct Hx as (Ht & Hs & Hd). unfold qed_llh_remove_protocol_filter.
    rewrite Hen, stringify_ok by done. simpl. apply with_ptt_spec; [apply I|exact Hnone|exact Hsome].
Qed.

(** ** Clearing a bank *)

(** The loop disables every filter from [idx] on, unless a transfer fails. *)
Lemma remove_filters_loop_spec (Hregs : llh_regs) fuel t a idx b rc b' :
  0 <= idx -> (Z.to_nat idx + fuel)%nat = 16%nat -> bus_ok b -> t ∈ bus_held b -> is_pfid (QED_PFID_BY_PPFID c a) ->
  remove_filters_loop c fuel t a idx b = (rc, b') ->
  touched (QED_PFID_BY_PPFID c a) (fun x => exists j, idx <= j < 16 /\ filter_reg j x) b b' /\
  (rc = 0 \/ dmae_failed rc) /\
  (rc = 0 -> forall j, idx <= j < 16 -> bus_reg b' (QED_PFID_BY_PPFID c a) (en_addr j) = 0).
Proof.
  revert idx b; induction fuel as [|fuel IH]; intros idx b Hi Hf Hok Ht Hp E; simpl in E.
  { simplify_eq. split; [by apply touched_refl|]. split; [by left|]. lia. }
  unfold qed_llh_remove_filter in E.
  destruct (write_filter c t a idx (mk_details 0 0 0 0 0) b) as [r b1] eqn:Ew.
  pose proof (write_filter_rc _ _ _ _ _ _ _ Ew) as Hr.
  destruct (write_filter_spec c t a idx (mk_details 0 0 0 0 0) b r b1 Hregs) as (T & _ & S);
    [lia|done|done|done|apply zero_details_fit|done|].
  assert (T1 : touched (QED_PFID_BY_PPFID c a) (fun x => exists j, idx <= j < 16 /\ filter_reg j x) b b1).
  { eapply touched_mono; [|exact T]. intros x Hx. exists idx. split; [lia|done]. }
  destruct (Z.eqb_spec r 0) as [->|Hne]; simpl in E; simplify_eq.
  2: { split; [exact T1|]. split; [done|]. done. }
  rewrite u8_small in E by lia.
  destruct (IH (idx + 1) b1) as (T2 & Hrc & Z2); [lia|lia|apply T| |done|done|].
  { rewrite (bs_held _ _ (to_step _ _ _ _ T)). done. }
  split; [|split; [done|]].
  - eapply touched_trans; [exact T1|]. eapply touched_mono; [|exact T2].
    intros x (j & Hj & Hx). exists j. split; [lia|done].
  - intros H0 j Hj. destruct (decide (j = idx)) as [->|]; [|apply Z2; [done|lia]].
    rewrite (to_frame _ _ _ _ T2); [by apply S|apply (filter_plain idx); [done|lia|unfold filter_reg; tauto]|]. right. intros (k & Hk & Hx).
    eapply (filter_regs_disjoint idx k); [lia|lia|lia| |exact Hx]. unfold filter_reg. tauto.
Qed.

Lemma zero_bank_wf : bank_wf zero_bank.
Proof.
  constructor; [done|..].
  - intros k e E. apply lookup_replicate in E as [-> _]. by left.
  - intros k j e e' E _ Hu. apply lookup_replicate in E as [-> _]. done.
Qed.

Lemma zero_bank_refs f : refs zero_bank f = 0.
Proof. apply refs_none. intros k e E [Hu _]. apply lookup_replicate in E as [-> _]. done. Qed.

(** A bank whose filters are all disabled mirrors the empty shadow. *)
Lemma mirror_clear i ppfid a b b' :
  llh_regs -> llh_wf i -> pfids_ok c i -> 0 <= ppfid < num_ppfid i -> ppfid_array i !! Z.to_nat ppfid = Some a -> mirror c i b ->
  touched (QED_PFID_BY_PPFID c a) (fun x => exists j, 0 <= j < 16 /\ filter_reg j x) b b' ->
  (forall j, 0 <= j < 16 -> bus_reg b' (QED_PFID_BY_PPFID c a) (en_addr j) = 0) ->
  mirror c (set_bank i ppfid zero_bank) b'.
Proof.
  intros L W P Hp Ha M T Hz q bk a' k e Hq Ha' Hk. simpl in Hq, Ha'.
  assert (Hlt : (q < Z.to_nat (num_ppfid i))%nat).
  { apply lookup_lt_Some in Hq. rewrite length_insert, (lw_banks _ W) in Hq. done. }
  destruct (decide (q = Z.to_nat ppfid)) as [->|Hne].
  - rewrite list_lookup_insert_eq in Hq by (rewrite (lw_banks _ W); lia). simplify_eq.
    apply lookup_replicate in Hk as [-> Hk]. unfold entry_shown; simpl. apply Hz.
    unfold NIG_REG_LLH_FUNC_FILTER_EN_SIZE in Hk. lia.
  - rewrite list_lookup_insert_ne in Hq by done.
    assert (Hlen : length bk = 16%nat) by (by eapply bw_len, (lw_bank _ W q)). apply lookup_lt_Some in Hk as Hkl.
    eapply entry_shown_frame; [|by eapply M]. intros x Hx. apply (to_frame _ _ _ _ T); [by eapply (filter_plain (Z.of_nat k)); [|lia|]|left].
    split; [by eapply (pf_range _ _ P)|]. intros E. apply Hne.
    eapply (pf_inj _ _ P); [done|lia|done|done|done].
Qed.

(** The outcome of clearing a bank. *)
Definition clear_post (s : llh_state B) (ppfid : Z) (rc : Z) (s' : llh_state B) : Prop :=
  num_ppfid (llh s') = num_ppfid (llh s) /\ bus_ok (bus s') /\
  ((llh s' = llh s /\ llh_inv s' /\ (rc = 0 \/ rc = - EINVAL /\ num_ppfid (llh s) <= ppfid)) \/
   (ppfid < num_ppfid (llh s) /\ (rc = 0 \/ dmae_failed rc) /\ (rc = 0 -> llh_inv s') /\
      forall q g, 0 <= q -> table s' q g = if decide (q = ppfid) then 0 else table s q g)).

Lemma clear_ppfid_spec (Hregs : llh_regs) s ppfid :
  llh_inv s -> mf_llh_proto_clss c = true \/ mf_llh_mac_clss c = true -> 0 <= ppfid ->
  exists rc s', qed_llh_clear_ppfid_filters c ppfid s = Some (rc, s') /\ bus_held (bus s') = bus_held (bus s) /\
    bus_own (bus s') = bus_own (bus s) /\ clear_post s ppfid rc s'.
Proof.
  intros I Hmf Hp. unfold qed_llh_clear_ppfid_filters.
  apply with_ptt_spec; [apply I| |].
  { intros b Hb Hr _ _. split; [done|]. split; [done|]. left. split; [done|]. split; [by apply inv_set_bus|by left]. }
  intros t b Hb Hr Ht _.
  assert (Eflag : negb (mf_llh_proto_clss c) && negb (mf_llh_mac_clss c) = false)
    by (destruct Hmf as [->| ->]; [done|apply andb_false_r]).
  rewrite Eflag. pose proof I as [W P Hok M].
  destruct (Z.le_gt_cases (num_ppfid (llh s)) ppfid) as [Hbad|Hgood].
  { unfold qed_abs_ppfid. simpl. rewrite (proj2 (Z.leb_le _ _)) by done. eexists _, _. split; [done|].
    split; [by constructor|]. intros b' Hb' Hr'. split; [done|]. split; [done|]. left. split; [done|].
    split; [|by right]. apply inv_set_bus; [by apply inv_set_bus|done|done]. }
  destruct (abs_ppfid_ok (llh s) ppfid W) as (a & Ea & Ha & Har); [lia|]. change (llh (set_bus b s)) with (llh s). rewrite Ea.
  destruct (bank_lookup (llh s) ppfid W) as (bk & Hbk & Wb); [lia|].
  unfold qed_llh_shadow_remove_all_filters. rewrite sanity_ok by (done || lia).
  change (check 0) with (@Ok unit tt). cbn [res_bind]. rewrite Hbk. cbn [of_option res_bind].
  change (bus (set_bus b s)) with b.
  assert (Hpf : is_pfid (QED_PFID_BY_PPFID c a)) by (eapply (pf_range _ _ P); [|exact Ha]; lia).
  destruct (remove_filters_loop c (Z.to_nat NIG_REG_LLH_FUNC_FILTER_EN_SIZE) t a 0 b) as [rc b1] eqn:El.
  destruct (remove_filters_loop_spec Hregs (Z.to_nat NIG_REG_LLH_FUNC_FILTER_EN_SIZE) t a 0 b rc b1) as (T & Hrc & Hz); [lia|done..|].
  eexists _, _. split; [done|]. split; [apply T|]. intros b' Hb' Hr'. split; [done|]. split; [done|]. right.
  split; [done|]. split; [done|]. split.
  - intros H0. apply (inv_set_bus (set_bus b1 (set_llh (set_bank (llh s) ppfid zero_bank) s))); [|done|done].
    constructor; simpl; [by apply set_bank_wf, zero_bank_wf|by apply pfids_ok_set|apply T|].
    eapply mirror_clear; [done|done|done|lia|done| |exact T|by apply Hz]. eapply mirror_same_bus; [|exact M]. by rewrite Hr.
  - intros q g Hq. unfold table; simpl. rewrite bank_set_bank by (done || lia).
    destruct (decide (q = ppfid)); [apply zero_bank_refs|done].
Qed.

(** ** Runs of filter operations *)

Inductive llh_op := OpAdd (ppfid : Z) (x : llh_filter) | OpRemove (ppfid : Z) (x : llh_filter) | OpClear (ppfid : Z).

Definition exec_op (o : llh_op) (s : llh_state B) : option (Z * llh_state B) :=
  match o with
  | OpAdd ppfid x => llh_add ppfid x s
  | OpRemove ppfid x => llh_remove ppfid x s
  | OpClear ppfid => qed_llh_clear_ppfid_filters c ppfid s
  end.

Fixpoint exec_ops (os : list llh_op) (s : llh_state B) : option (llh_state B) :=
  match os with
  | [] => Some s
  | o :: os => '(_, s) ← exec_op o s; exec_ops os s
  end.

Definition op_ok (o : llh_op) : Prop :=
  match o with
  | OpAdd ppfid x | OpRemove ppfid x => 0 <= ppfid /\ filter_ok x /\ enabled x
  | OpClear ppfid => 0 <= ppfid /\ (mf_llh_proto_clss c = true \/ mf_llh_mac_clss c = true)
  end.

(** An operation that enables a filter or clears a bank and returns the code of a
    failed transfer: the ones after which the chip may not have the filters of
    the shadow (a removal disables its filter first). *)
Definition op_failed (o : llh_op) (rc : Z) : Prop :=
  match o with OpAdd _ _ | OpClear _ => dmae_failed rc | OpRemove _ _ => False end.

Lemma table_nonneg s q g : llh_inv s -> 0 <= table s q g.
Proof.
  intros I. unfold table. destruct (bank (llh s) q) as [b|] eqn:E; [|done].
  destruct (refs_inv b g) as [(k & e & _ & _ & -> & Hr)|[_ ->]]; [by eapply (lw_bank _ (li_wf _ I))|lia|lia].
Qed.

(** One operation keeps the invariant or reports a failed transfer, and raises a
    count by one at most. *)
Lemma exec_op_inv (Hregs : llh_regs) o s :
  llh_inv s -> op_ok o -> (forall q g, 0 <= q -> table s q g + 1 < 2 ^ 32) ->
  exists rc s', exec_op o s = Some (rc, s') /\ (llh_inv s' \/ op_failed o rc) /\ bus_held (bus s') = bus_held (bus s) /\
    forall q g, 0 <= q -> table s' q g <= table s q g + 1.
Proof.
  intros I Ho Hmax. destruct o as [ppfid x|ppfid x|ppfid]; simpl in Ho |- *.
  - destruct Ho as (Hp & Hx & He).
    destruct (llh_add_spec Hregs s ppfid x) as (rc & s' & E & Hh & _ & Post); [done..|by apply Hmax|].
    exists rc, s'. split; [done|].
    destruct Post as [(_ & El & I')|[(El & I' & _)|(_ & Hrc & I' & _ & _ & _ & T)]].
    + split; [by left|]. split; [done|]. intros q g _. unfold table. rewrite El. lia.
    + split; [by left|]. split; [done|]. intros q g _. unfold table. rewrite El. lia.
    + split; [destruct Hrc as [->|Hf]; [left; by apply I'|by right]|].
      split; [done|]. intros q g Hq. rewrite T by done. destruct (decide _); lia.
  - destruct Ho as (Hp & Hx & He).
    destruct (llh_remove_spec Hregs s ppfid x) as (rc & s' & E & Hh & _ & Post); [done..|].
    exists rc, s'. split; [done|].
    destruct Post as [(_ & El & I')|(I' & _ & [(El & _)|(_ & _ & _ & T)])]; (split; [by left|]; split; [done|]);
      intros q g Hq; [unfold table; rewrite El; lia..|]. rewrite T by done. destruct (decide _); lia.
  - destruct Ho as (Hp & Hmf).
    destruct (clear_ppfid_spec Hregs s ppfid) as (rc & s' & E & Hh & _ & (_ & _ & Post)); [done..|].
    exists rc, s'. split; [done|]. destruct Post as [(El & I' & _)|(_ & Hrc & I' & T)].
    + split; [by left|]. split; [done|]. intros q g _. unfold table. rewrite El. lia.
    + split; [destruct Hrc as [->|Hf]; [left; by apply I'|by right]|].
      split; [done|]. intros q g Hq. rewrite T by done.
      pose proof (table_nonneg s q g I). destruct (decide _); lia.
Qed.
End Ops.
