(* ===== verification/LlhEngine.v ===== *)
(** * Engine affinity of the LLH banks

    On a device with two engines (CMT) a register per bank selects the engine
    of RoCE packets and of the other packets.  The code that sets them, bank
    by bank, and the allocation of the banks. *)

From S2P Require Import Prelude Llh LlhShadow LlhHw LlhProps.

(** ** The two fields of an engine-select register *)

Lemma low_field_div v : 0 <= v < 16 -> v / 4 * 4 + v mod 4 = v.
Proof. intros. pose proof (Z.div_mod v 4). lia. Qed.

Lemma set_non_roce_spec eng v : 0 <= v < 16 -> set_non_roce eng v = 4 * eng_sel eng + v mod 4.
Proof.
  intros Hv. assert (E : In v (Z.of_nat <$> seq 0 16)).
  { apply list_elem_of_In, list_elem_of_fmap. exists (Z.to_nat v). split; [lia|]. apply elem_of_seq. lia. }
  simpl in E. destruct eng; intuition subst; done.
Qed.

Lemma set_roce_spec eng v : 0 <= v < 16 -> set_roce eng v = 4 * (v / 4) + eng_sel eng.
Proof.
  intros Hv. assert (E : In v (Z.of_nat <$> seq 0 16)).
  { apply list_elem_of_In, list_elem_of_fmap. exists (Z.to_nat v). split; [lia|]. apply elem_of_seq. lia. }
  simpl in E. destruct eng; intuition subst; done.
Qed.

Lemma eng_sel_range eng : 0 <= eng_sel eng < 3.
Proof. destruct eng; simpl; lia. Qed.

Section Engine.
  Context {B : Type} `{RegBus B} `{!RegBusLaws B} (c : llh_cfg).

(** The loop over the banks: an invariant of the banks done so far. *)
Lemma ppfid_loop_spec (Inv : Z -> llh_state B -> Prop) (Q : Z -> llh_state B -> Prop) body n fuel k s :
  0 <= k <= n -> n <= 8 -> (n - k < Z.of_nat fuel) -> num_ppfid (llh s) = n -> Inv k s ->
  (forall j s, 0 <= j < n -> num_ppfid (llh s) = n -> Inv j s ->
     exists rc s', body j s = Some (rc, s') /\ num_ppfid (llh s') = n /\
       (rc = 0 -> Inv (j + 1) s') /\ (rc <> 0 -> Q rc s')) ->
  exists rc s', ppfid_loop fuel k body s = Some (rc, s') /\ num_ppfid (llh s') = n /\
    (rc = 0 -> Inv n s') /\ (rc <> 0 -> Q rc s').
Proof.
  revert k s; induction fuel as [|fuel IH]; intros k s Hk Hn Hf Hnum HI Hbody; [lia|]. simpl. rewrite Hnum.
  destruct (Z.leb_spec n k) as [Hle|Hlt].
  - assert (k = n) as -> by lia. eexists _, _. split; [done|]. by split.
  - destruct (Hbody k s) as (rc & s' & -> & Hnum' & H0 & HQ); [lia|done..|]. simpl.
    destruct (Z.eqb_spec rc 0) as [->|Hne]; simpl.
    + rewrite u8_small by lia. apply IH; [lia|done|lia|done|by apply H0|done].
    + eexists _, _. split; [done|]. split; [done|]. by split.
Qed.

Lemma for_ppfids_spec (Inv : Z -> llh_state B -> Prop) (Q : Z -> llh_state B -> Prop) body s :
  llh_wf (llh s) -> Inv 0 s ->
  (forall j s', 0 <= j < num_ppfid (llh s) -> num_ppfid (llh s') = num_ppfid (llh s) -> Inv j s' ->
     exists rc s'', body j s' = Some (rc, s'') /\ num_ppfid (llh s'') = num_ppfid (llh s) /\
       (rc = 0 -> Inv (j + 1) s'') /\ (rc <> 0 -> Q rc s'')) ->
  exists rc s', for_ppfids body s = Some (rc, s') /\ num_ppfid (llh s') = num_ppfid (llh s) /\
    (rc = 0 -> Inv (num_ppfid (llh s)) s') /\ (rc <> 0 -> Q rc s').
Proof.
  intros W HI Hbody. pose proof (lw_num _ W).
  apply ppfid_loop_spec; [lia|lia|simpl; lia|done|done|exact Hbody].
Qed.

(** ** Registers *)

(** The engine registers are plain and four bits wide. *)
Record engine_regs : Prop := {
  er_plain a : 0 <= a < 8 -> bus_plain (engine_addr a);
  er_fits a v : 0 <= a < 8 -> 0 <= v < 16 -> bus_fits (engine_addr a) v;
  er_qp : bus_plain NIG_REG_LLH_ENG_CLS_ROCE_QP_SEL /\ bus_fits NIG_REG_LLH_ENG_CLS_ROCE_QP_SEL 0xf
}.

Definition engine_reg (s : llh_state B) (own a : Z) : Z := bus_reg (bus s) own (engine_addr a).

(** Updating the register of one bank. *)
Lemma bus_update_spec (Hr : engine_regs) t a f b :
  bus_ok b -> t ∈ bus_held b -> 0 <= a < 8 -> 0 <= bus_reg b (bus_own b) (engine_addr a) < 16 ->
  (forall v, 0 <= v < 16 -> 0 <= f v < 16) ->
  bus_step b (bus_update t (engine_addr a) f b) /\
  forall a', 0 <= a' < 8 -> bus_reg (bus_update t (engine_addr a) f b) (bus_own b) (engine_addr a') =
    if decide (a' = a) then f (bus_reg b (bus_own b) (engine_addr a)) else bus_reg b (bus_own b) (engine_addr a').
Proof.
  intros Hok Ht Ha Hv Hf. unfold bus_update.
  pose proof (law_rd b t (engine_addr a) Hok Ht (er_plain Hr _ Ha)) as L.
  destruct (bus_rd t (engine_addr a) b) as [v b1]. destruct L as ([O1 N1 H1] & -> & F1).
  destruct (law_wr b1 t (engine_addr a) (f (bus_reg b (bus_own b) (engine_addr a)))) as ([O2 N2 H2] & E2 & F2);
    [done|congruence|by apply er_plain|apply er_fits; auto|].
  split; [constructor; congruence|]. intros a' Ha'. destruct (decide (a' = a)) as [->|Hne].
  - rewrite <- N1. rewrite N1 in E2. by rewrite N1.
  - rewrite F2, F1; [done|]. unfold engine_addr. lia.
Qed.

(** What the affinity operations keep: the shadow, the bus and the values of
    the engine registers in range. *)
Record aff (i : qed_llh_info) (own : Z) (held : list nat) (s : llh_state B) : Prop := {
  af_llh : llh s = i;
  af_ok : bus_ok (bus s);
  af_own : bus_own (bus s) = own;
  af_held : bus_held (bus s) = held;
  af_range a : 0 <= a < 8 -> 0 <= engine_reg s own a < 16
}.

Lemma aff_frame i own held s b : aff i own held s -> bus_ok b -> bus_own b = own ->
  (forall a, 0 <= a < 8 -> bus_reg b own (engine_addr a) = engine_reg s own a) -> aff i own (bus_held b) (set_bus b s).
Proof. intros [] Hb Ho Hr. constructor; simpl; try done. intros a Ha. unfold engine_reg; simpl. rewrite Hr by done. auto. Qed.

Lemma set_non_roce_range eng v : 0 <= v < 16 -> 0 <= set_non_roce eng v < 16.
Proof.
  intros Hv. rewrite set_non_roce_spec by done. pose proof (eng_sel_range eng). pose proof (Z.mod_pos_bound v 4). lia.
Qed.

Lemma set_roce_range eng v : 0 <= v < 16 -> 0 <= set_roce eng v < 16.
Proof.
  intros Hv. rewrite set_roce_spec by done. pose proof (eng_sel_range eng).
  assert (0 <= v / 4 < 4) by (split; [apply Z.div_pos|apply Z.div_lt_upper_bound]; lia). lia.
Qed.

(** [qed_llh_set_ppfid_affinity] sets the field of one bank. *)
Lemma set_ppfid_affinity_spec (Hr : engine_regs) i own held eng ppfid s :
  llh_wf i -> is_cmt c = true -> aff i own held s -> 0 <= ppfid < num_ppfid i ->
  exists rc s' a, qed_llh_set_ppfid_affinity c ppfid eng s = Some (rc, s') /\ aff i own held s' /\
    ppfid_array i !! Z.to_nat ppfid = Some a /\ 0 <= a < 8 /\
    fir_affin s' = fir_affin s /\
    (rc = - EAGAIN /\ (forall a', 0 <= a' < 8 -> engine_reg s' own a' = engine_reg s own a') \/
     rc = 0 /\ forall a', 0 <= a' < 8 ->
       engine_reg s' own a' = if decide (a' = a) then set_non_roce eng (engine_reg s own a) else engine_reg s own a').
Proof.
  intros W Hc A Hp. pose proof A as [Hl Hok Hown Hheld Hrange].
  destruct (abs_ppfid_ok i ppfid W Hp) as (a & Ea & Ha & Har).
  unfold qed_llh_set_ppfid_affinity.
  match goal with |- context [with_ptt _ _ ?body] =>
  edestruct (with_ptt_spec (- EAGAIN) s body (fun rc s' => bus_ok (bus s') /\ llh s' = i /\ fir_affin s' = fir_affin s /\
      (rc = - EAGAIN /\ (forall a', 0 <= a' < 8 -> bus_reg (bus s') own (engine_addr a') = engine_reg s own a') \/
       rc = 0 /\ forall a', 0 <= a' < 8 -> bus_reg (bus s') own (engine_addr a') =
         if decide (a' = a) then set_non_roce eng (engine_reg s own a) else engine_reg s own a')))
    as (rc & s' & E & Hh & Ho & Hb' & Hl' & Hfir & P)
  end.
  - exact Hok.
  - intros b Hb Hreg _ _. split; [done|]. split; [done|]. split; [done|]. left. split; [done|].
    intros a' _. simpl. by rewrite Hreg.
  - intros t b Hb Hreg Ht Hown'. rewrite Hc. simpl. rewrite Hl, Ea.
    destruct (bus_update_spec Hr t a (set_non_roce eng) b Hb Ht Har) as (S & U);
      [rewrite Hown', Hreg, Hown; by apply Hrange|apply set_non_roce_range|].
    rewrite Hown', Hown, Hreg in U.
    eexists _, _. split; [done|]. split; [exact S|]. intros b' Hb' Hr'. simpl.
    split; [done|]. split; [done|]. split; [done|]. right. split; [done|]. intros a' Ha'. rewrite Hr'. simpl.
    by rewrite U.
  - exists rc, s', a. split; [exact E|]. split; [|split; [done|split; [done|split; [done|exact P]]]].
    constructor; [done|done|congruence|congruence|]. intros a' Ha'. unfold engine_reg.
    destruct P as [[_ P]|[_ P]]; rewrite P by done; [by apply Hrange|].
    destruct (decide (a' = a)); [apply set_non_roce_range|]; by apply Hrange.
Qed.

(** An operation that changes the register of bank [k] by [f], or fails. *)
Definition sets_bank (i : qed_llh_info) (own : Z) (held : list nat) (f : Z -> Z)
    (body : Z -> llh_state B -> option (Z * llh_state B)) : Prop :=
  forall k s, 0 <= k < num_ppfid i -> aff i own held s ->
    exists rc s' a, body k s = Some (rc, s') /\ aff i own held s' /\
      ppfid_array i !! Z.to_nat k = Some a /\ 0 <= a < 8 /\ fir_affin s' = fir_affin s /\
      (rc = 0 -> forall a', 0 <= a' < 8 ->
        engine_reg s' own a' = if decide (a' = a) then f (engine_reg s own a) else engine_reg s own a').

(** The loop over all banks: either an error, or every bank's register is
    changed by [f], and no other one. *)
Lemma for_ppfids_sets i own held f body s :
  llh_wf i -> aff i own held s -> sets_bank i own held f body ->
  exists rc s', for_ppfids body s = Some (rc, s') /\ aff i own held s' /\ fir_affin s' = fir_affin s /\
    (rc = 0 -> forall k a, (k < Z.to_nat (num_ppfid i))%nat -> ppfid_array i !! k = Some a ->
       engine_reg s' own a = f (engine_reg s own a)).
Proof.
  intros W A Hbody. pose proof (af_llh _ _ _ _ A) as El.
  destruct (for_ppfids_spec (fun j s' => aff i own held s' /\ fir_affin s' = fir_affin s /\
     forall k a, (k < Z.to_nat (num_ppfid i))%nat -> ppfid_array i !! k = Some a ->
       engine_reg s' own a = if Z.of_nat k <? j then f (engine_reg s own a) else engine_reg s own a)
     (fun rc s' => aff i own held s' /\ fir_affin s' = fir_affin s) body s)
    as (rc & s' & E & _ & H0 & HQ).
  - by rewrite El.
  - split; [done|]. split; [done|]. intros k a Hk Ha. by rewrite (proj2 (Z.ltb_ge _ _)) by lia.
  - rewrite El. intros j s1 Hj _ (A1 & F1 & R1).
    destruct (Hbody j s1 Hj A1) as (rc & s2 & a & E & A2 & Ha & Har & F2 & U).
    exists rc, s2. split; [done|]. split; [by rewrite (af_llh _ _ _ _ A2)|]. split; [|intros _; split; [done|congruence]].
    intros Hrc. specialize (U Hrc). split; [done|]. split; [congruence|]. intros k a' Hk Ha'.
    destruct (lw_abs _ W k Hk) as (a'' & Ea & Hr'). rewrite Ha' in Ea. simplify_eq.
    rewrite (U a'') by done. destruct (decide (a'' = a)) as [->|Hne].
    + assert (k = Z.to_nat j) as -> by (eapply (lw_inj _ W); [done|lia|done|done]).
      rewrite (R1 (Z.to_nat j) a) by done.
      rewrite (proj2 (Z.ltb_ge _ _)), (proj2 (Z.ltb_lt _ _)) by lia. done.
    + rewrite (R1 k a'') by done. destruct (decide (Z.of_nat k = j)) as [<-|].
      { rewrite Nat2Z.id in Ha. congruence. }
      destruct (Z.ltb_spec (Z.of_nat k) j), (Z.ltb_spec (Z.of_nat k) (j + 1)); try lia; done.
  - exists rc, s'. split; [done|]. destruct (Z.eqb_spec rc 0) as [->|Hne].
    + destruct (H0 eq_refl) as (A' & F' & R'). split; [done|]. split; [done|]. intros _ k a Hk Ha.
      rewrite (R' k a Hk Ha), El, (proj2 (Z.ltb_lt _ _)) by lia. done.
    + destruct (HQ Hne). split; [done|]. split; [done|]. by intros ->.
Qed.

Lemma ppfid_affinity_sets (Hr : engine_regs) i own held eng :
  llh_wf i -> is_cmt c = true ->
  sets_bank i own held (set_non_roce eng) (fun ppfid s => qed_llh_set_ppfid_affinity c ppfid eng s).
Proof.
  intros W Hc k s Hk A.
  destruct (set_ppfid_affinity_spec Hr i own held eng k s W Hc A Hk) as (rc & s' & a & E & A' & Ha & Har & F & P).
  exists rc, s', a. repeat (split; [done|]). intros ->. destruct P as [[P _]|[_ P]]; [discriminate P|done].
Qed.

(** The body of the RoCE loop, with a PTT entry in hand. *)
Lemma roce_body_sets (Hr : engine_regs) i own held eng t :
  llh_wf i -> t ∈ held ->
  sets_bank i own held (set_roce eng) (fun ppfid s =>
    match qed_abs_ppfid (llh s) ppfid with
    | Fault => None
    | Err rc => Some (rc, s)
    | Ok abs_ppfid => Some (0, set_bus (bus_update t (engine_addr abs_ppfid) (set_roce eng) (bus s)) s)
    end).
Proof.
  intros W Ht k s Hk A. pose proof A as [Hl Hok Hown Hheld Hrange].
  destruct (abs_ppfid_ok i k W Hk) as (a & Ea & Ha & Har). rewrite Hl, Ea.
  destruct (bus_update_spec Hr t a (set_roce eng) (bus s) Hok) as ([S1 S2 S3] & U);
    [by rewrite Hheld|done|rewrite Hown; by apply Hrange|apply set_roce_range|].
  eexists _, _, a. split; [done|]. split; [|split; [done|split; [done|split; [done|]]]].
  - constructor; simpl; [done|done|congruence|congruence|]. intros a' Ha'. unfold engine_reg; simpl.
    rewrite Hown in U. rewrite U by done. destruct (decide _); [apply set_roce_range|]; by apply Hrange.
  - intros _ a' Ha'. unfold engine_reg; simpl. rewrite Hown in U. by apply U.
Qed.

Lemma set_roce_affinity_spec (Hr : engine_regs) i own held eng s :
  llh_wf i -> is_cmt c = true -> aff i own held s ->
  exists rc s', qed_llh_set_roce_affinity c eng s = Some (rc, s') /\ aff i own held s' /\ fir_affin s' = fir_affin s /\
    (rc = 0 -> forall k a, (k < Z.to_nat (num_ppfid i))%nat -> ppfid_array i !! k = Some a ->
       engine_reg s' own a = set_roce eng (engine_reg s own a)).
Proof.
  intros W Hc A. pose proof A as [Hl Hok Hown Hheld Hrange]. unfold qed_llh_set_roce_affinity.
  match goal with |- context [with_ptt _ _ ?body] =>
  edestruct (with_ptt_spec (- EAGAIN) s body (fun rc s' => bus_ok (bus s') /\ llh s' = i /\ fir_affin s' = fir_affin s /\
      (forall a, 0 <= a < 8 -> 0 <= bus_reg (bus s') own (engine_addr a) < 16) /\
      (rc = 0 -> forall k a, (k < Z.to_nat (num_ppfid i))%nat -> ppfid_array i !! k = Some a ->
         bus_reg (bus s') own (engine_addr a) = set_roce eng (engine_reg s own a)))) as (rc & s' & E & Hh & Ho & P)
  end.
  - exact Hok.
  - intros b Hb Hreg _ _. split; [done|]. split; [done|]. split; [done|]. split; [|done].
    intros a Ha. simpl. rewrite Hreg. by apply Hrange.
  - intros t b Hb Hreg Ht Hown'. rewrite Hc. cbn [negb].
    set (s1 := match eng with QED_BOTH_ENG => _ | _ => _ end).
    assert (A1 : aff i own (bus_held b) s1 /\ (forall a, 0 <= a < 8 -> engine_reg s1 own a = engine_reg s own a) /\
      fir_affin s1 = fir_affin s /\ bus_step b (bus s1)).
    { assert (A0 : aff i own (bus_held b) (set_bus b s)).
      { apply (aff_frame _ _ held); [done|done|congruence|]. intros a _. by rewrite Hreg. }
      assert (E0 : forall a, 0 <= a < 8 -> engine_reg (set_bus b s) own a = engine_reg s own a)
        by (intros; unfold engine_reg; simpl; by rewrite Hreg).
      destruct eng; [by split; [|split; [|split; [|constructor]]]..|].
      destruct (law_wr b t NIG_REG_LLH_ENG_CLS_ROCE_QP_SEL 0xf Hb Ht (proj1 (er_qp Hr)) (proj2 (er_qp Hr)))
        as ([S1 S2 S3] & _ & F).
      assert (E1 : forall a, 0 <= a < 8 -> engine_reg s1 own a = engine_reg s own a).
      { intros a Ha. unfold engine_reg, s1. simpl. rewrite F; [by rewrite Hreg|].
        unfold engine_addr, NIG_REG_PPF_TO_ENGINE_SEL, NIG_REG_LLH_ENG_CLS_ROCE_QP_SEL. lia. }
      split; [|split; [done|split; [done|by constructor]]].
      rewrite <- S3. apply (aff_frame _ _ (bus_held b) (set_bus b s)); [done|done|simpl; congruence|].
      intros a Ha. rewrite (E0 a Ha). apply (E1 a Ha). }
    clearbody s1. destruct A1 as (A1 & R1 & F1 & S1).
    destruct (for_ppfids_sets i own (bus_held b) (set_roce eng) _ s1 W A1 (roce_body_sets Hr i own (bus_held b) eng t W Ht))
      as (rc & s2 & -> & A2 & F2 & U).
    exists rc, s2. split; [done|]. split; [constructor; [apply A2| |apply A2]|].
    + rewrite (af_own _ _ _ _ A2). congruence.
    + intros b' Hb' Hr'. simpl. split; [done|]. split; [apply A2|]. split; [congruence|]. rewrite Hr'.
      split; [apply A2|]. intros Hrc k a Hk Ha. specialize (U Hrc).
      destruct (lw_abs _ W k Hk) as (a' & Ea' & Har'). assert (a' = a) as -> by congruence.
      rewrite <- R1 by done. by eapply U.
  - exists rc, s'. split; [exact E|]. destruct P as (P1 & P2 & P3 & P4 & P5).
    split; [constructor; [done|done|congruence|congruence|done]|]. split; [done|]. done.
Qed.
End Engine.
