(* ===== verification/LlhClaims.v ===== *)
(** * Claims on the LLH filters

    The properties of the LLH code, stated for every register layer that
    satisfies [RegBusLaws], and their instances on the PTT layer over the
    simulated device. *)

From S2P Require Import Prelude Ptt PttProps Llh RegBusPtt LlhShadow LlhHw LlhProps LlhEngine.

(** ** Allocation *)

Lemma land_bit bm i : 0 <= i -> negb (Z.land bm (Z.shiftl 1 i) =? 0) = Z.testbit bm i.
Proof.
  intros Hi. rewrite Z.shiftl_1_l. destruct (Z.testbit bm i) eqn:E.
  - apply negb_true_iff, Z.eqb_neq. intros E0.
    assert (F : Z.testbit (Z.land bm (2 ^ i)) i = true) by (by rewrite Z.land_spec, E, Z.pow2_bits_true).
    by rewrite E0, Z.bits_0 in F.
  - apply negb_false_iff, Z.eqb_eq. apply Z.bits_inj'. intros n Hn. rewrite Z.land_spec, Z.bits_0.
    destruct (Z.eq_dec n i) as [->|]; [by rewrite E|]. by rewrite Z.pow2_bits_false, andb_false_r.
Qed.

Lemma scan_ppfids_spec bm :
  NoDup (scan_ppfids bm) /\ (forall a, a ∈ scan_ppfids bm <-> 0 <= a < 8 /\ Z.testbit bm a = true) /\
  (length (scan_ppfids bm) <= 8)%nat.
Proof.
  assert (N : NoDup (Z.of_nat <$> seq 0 8)) by (apply NoDup_fmap_2; [apply _|apply list.NoDup_seq]).
  unfold scan_ppfids. split; [|split].
  - by apply NoDup_ListNoDup, List.NoDup_filter, NoDup_ListNoDup.
  - intros a. rewrite !list_elem_of_In, List.filter_In, <- list_elem_of_In, list_elem_of_fmap.
    split.
    + intros [(k & -> & Hk) Hb]. apply elem_of_seq in Hk. rewrite land_bit in Hb by lia.
      unfold MAX_NUM_PPFID in Hk. split; [lia|done].
    + intros [Ha Hb]. rewrite land_bit by lia. split; [|done]. exists (Z.to_nat a). split; [lia|]. apply elem_of_seq.
      unfold MAX_NUM_PPFID. lia.
  - etransitivity; [apply List.filter_length_le|]. done.
Qed.

Lemma count_some_replicate A n : count_some (replicate n (@None A)) = 0%nat.
Proof. unfold count_some. by induction n. Qed.

Lemma alloc_banks_spec fuel ok n r l :
  alloc_banks fuel ok n = (r, l) -> length l = fuel /\ (r = true -> l = replicate fuel (Some zero_bank)).
Proof.
  revert n r l; induction fuel as [|fuel IH]; intros n r l E; simpl in E; [by simplify_eq|].
  destruct (ok n).
  - destruct (alloc_banks fuel ok (S n)) as [r' l'] eqn:E'. simplify_eq.
    destruct (IH _ _ _ E') as [Hl Hr]. simpl. split; [by rewrite Hl|]. intros Hr'. by rewrite Hr.
  - simplify_eq. split; [simpl; by rewrite length_replicate|done].
Qed.

Lemma ready_wf ids :
  NoDup ids -> (forall a, a ∈ ids -> 0 <= a < 8) -> (length ids <= 8)%nat ->
  llh_wf (mk_llh_info (Z.of_nat (length ids)) (ids ++ replicate (Z.to_nat MAX_NUM_PPFID - length ids) 0)
    (replicate (length ids) zero_bank)).
Proof.
  intros N R L. constructor; cbn [num_ppfid ppfid_array pp_filters].
  - lia.
  - by rewrite length_replicate, Nat2Z.id.
  - intros k b E. apply lookup_replicate in E as [-> _]. apply zero_bank_wf.
  - rewrite Nat2Z.id. intros k Hk. destruct (lookup_lt_is_Some_2 ids k Hk) as [a Ha].
    exists a. rewrite lookup_app_l by done. split; [done|]. apply R. by eapply list_elem_of_lookup_2.
  - rewrite Nat2Z.id. intros j k a Hj Hk Ej Ek. rewrite lookup_app_l in Ej, Ek by done.
    eapply NoDup_lookup; eauto.
Qed.

Lemma mapM_replicate A (x : A) n : mapM id (replicate n (Some x)) = Some (replicate n x).
Proof. induction n as [|n IH]; [done|]. cbn. by rewrite IH. Qed.

(** [qed_llh_alloc] followed by [qed_llh_free] leaves no block allocated,
    whichever of its allocations fails; the only error is -ENOMEM; and when it
    succeeds the shadow is well formed, with one empty bank for every set bit
    of the ppfid bitmap. *)
Theorem llh_alloc_free_balanced (ok : nat -> bool) (bitmap : Z) (m : llh_mem) :
  p_llh_info m = None ->
  let '(rc, m') := qed_llh_alloc ok bitmap m in
  live (qed_llh_free m') = live m /\ p_llh_info (qed_llh_free m') = None /\
  (rc = 0 \/ rc = - ENOMEM) /\
  (rc = 0 -> exists i, llh_ready m' = Some i /\ llh_wf i /\
     Forall (fun b => b = zero_bank) (pp_filters i) /\
     forall a, a ∈ take (Z.to_nat (num_ppfid i)) (ppfid_array i) <-> 0 <= a < 8 /\ Z.testbit bitmap a = true).
Proof.
  intros Hm. unfold qed_llh_alloc. destruct (ok 0%nat); simpl; [|unfold qed_llh_free; rewrite Hm; by repeat split; auto].
  destruct (scan_ppfids_spec bitmap) as (N & Hin & Hlen).
  destruct (ok 1%nat); simpl.
  2: { unfold qed_llh_free; simpl. split; [lia|]. split; [done|]. split; [by right|]. done. }
  destruct (alloc_banks (length (scan_ppfids bitmap)) ok 2) as [r l] eqn:E.
  destruct (alloc_banks_spec _ _ _ _ _ E) as [Hl Hr]. unfold qed_llh_free; cbn [p_llh_info live num_ppfid].
  rewrite Nat2Z.id, take_ge by lia. split; [lia|]. split; [done|]. destruct r; [|by split; [right|]].
  split; [by left|]. intros _. specialize (Hr eq_refl). subst l.
  eexists. unfold llh_ready; cbn [p_llh_info]. simpl. rewrite mapM_replicate. simpl. split; [done|].
  split; [apply ready_wf; [done|intros a Ha; by apply Hin|done]|]. cbn [pp_filters num_ppfid ppfid_array]. split.
  - apply Forall_replicate. done.
  - intros a. by rewrite Nat2Z.id, take_app_length.
Qed.

Lemma llh_alloc_free_balanced_witness :
  live (qed_llh_free (snd (qed_llh_alloc (fun n => (n <? 3)%nat) 5 (mk_llh_mem 7 None)))) = 7%nat.
Proof.
  pose proof (llh_alloc_free_balanced (fun n => (n <? 3)%nat) 5 (mk_llh_mem 7 None) eq_refl) as W.
  destruct (qed_llh_alloc (fun n => (n <? 3)%nat) 5 (mk_llh_mem 7 None)) as [rc m']. exact (proj1 W).
Defined.

(** ** Filters *)

(** C22: The filter operations implement a table of reference counts per bank.
    In a state where the chip's enabled filters are those of the shadow,
    adding a filter either is refused (-EAGAIN without a PTT entry, -EINVAL
    for a bank out of range or full) with the table unchanged, or raises the
    filter's count by one and no other; with a user already present it
    succeeds without touching the chip, and whenever it returns 0 the chip
    again has exactly the filters of the table.  The PTT entry it takes is
    released on every path, and no array is accessed out of range. *)
Theorem llh_add_refines_table (B : Type) `(RegBusLaws B) (c : llh_cfg) (s : llh_state B) (ppfid : Z) (x : llh_filter) :
  llh_regs (B := B) -> llh_inv c s -> filter_ok x -> enabled c x -> 0 <= ppfid ->
  table s ppfid (bytes_of x) + 1 < 2 ^ 32 ->
  exists rc s', llh_add c ppfid x s = Some (rc, s') /\ bus_held (bus s') = bus_held (bus s) /\
    ((rc = - EAGAIN /\ llh s' = llh s /\ llh_inv c s') \/
     (rc = - EINVAL /\ llh s' = llh s /\ llh_inv c s' /\
        (num_ppfid (llh s) <= ppfid \/ table s ppfid (bytes_of x) = 0 /\ table_full s ppfid)) \/
     (ppfid < num_ppfid (llh s) /\ (rc = 0 \/ dmae_failed (B := B) rc) /\ (rc = 0 -> llh_inv c s') /\
        (0 < table s ppfid (bytes_of x) -> rc = 0) /\
        forall q g, 0 <= q ->
          table s' q g = table s q g + if decide (q = ppfid /\ g = bytes_of x) then 1 else 0)).
Proof.
  intros Hregs I Hx He Hp Hmax.
  destruct (llh_add_spec c Hregs s ppfid x I Hx He Hp Hmax) as (rc & s' & E & Hh & _ & Post).
  exists rc, s'. split; [done|]. split; [done|].
  destruct Post as [Post|[(P1 & P2 & P3 & P4)|(P1 & P2 & P3 & P4 & _ & _ & P5)]]; [by left|right; left|right; right]; done.
Qed.

(** Removing a filter is refused with -EINVAL if it has no user, and
    otherwise lowers its count by one and no other; the chip still has exactly
    the filters of the table afterwards, even when the transfer that clears
    the filter's value fails, because the filter is disabled first. *)
Theorem llh_remove_refines_table (B : Type) `(RegBusLaws B) (c : llh_cfg) (s : llh_state B) (ppfid : Z)
    (x : llh_filter) :
  llh_regs (B := B) -> llh_inv c s -> filter_ok x -> enabled c x -> 0 <= ppfid ->
  exists rc s', llh_remove c ppfid x s = Some (rc, s') /\ bus_held (bus s') = bus_held (bus s) /\ llh_inv c s' /\
    ((rc = 0 /\ llh s' = llh s) \/
     (rc = - EINVAL /\ llh s' = llh s /\ (num_ppfid (llh s) <= ppfid \/ table s ppfid (bytes_of x) = 0)) \/
     (0 < table s ppfid (bytes_of x) /\ (rc = 0 \/ dmae_failed (B := B) rc) /\
        forall q g, 0 <= q ->
          table s' q g = table s q g - if decide (q = ppfid /\ g = bytes_of x) then 1 else 0)).
Proof.
  intros Hregs I Hx He Hp.
  destruct (llh_remove_spec c Hregs s ppfid x I Hx He Hp) as (rc & s' & E & Hh & _ & Post).
  exists rc, s'. split; [done|]. split; [done|].
  destruct Post as [(P1 & P2 & P3)|(I' & _ & [(P1 & P2 & P3)|(P1 & P2 & P3 & P4)])]; (split; [done|]);
    [by left|right; left|right; right]; done.
Qed.




(** Clearing a bank that exists empties its table and leaves the other
    banks alone; if the code is 0 every filter of the bank is disabled on the
    chip. *)
Theorem llh_clear_empties_bank (B : Type) `(RegBusLaws B) (c : llh_cfg) (s : llh_state B) (ppfid : Z) :
  llh_regs (B := B) -> llh_inv c s -> mf_llh_proto_clss c = true \/ mf_llh_mac_clss c = true -> 0 <= ppfid ->
  exists rc s', qed_llh_clear_ppfid_filters c ppfid s = Some (rc, s') /\ bus_held (bus s') = bus_held (bus s) /\
    ((llh s' = llh s /\ llh_inv c s' /\ (rc = 0 \/ rc = - EINVAL /\ num_ppfid (llh s) <= ppfid)) \/
     (ppfid < num_ppfid (llh s) /\ (rc = 0 \/ dmae_failed (B := B) rc) /\ (rc = 0 -> llh_inv c s') /\
        forall q g, 0 <= q -> table s' q g = if decide (q = ppfid) then 0 else table s q g)).
Proof.
  intros Hregs I Hmf Hp. destruct (clear_ppfid_spec c Hregs s ppfid I Hmf Hp) as (rc & s' & E & Hh & _ & (_ & _ & Post)).
  exists rc, s'. split; [done|]. split; [done|exact Post].
Qed.

(** ** Engine affinity *)

Lemma set_all_banks (B : Type) `(RegBusLaws B) c (Hr : engine_regs (B := B)) i own held roce
    (eng : llh_state B -> qed_eng) e0 (s : llh_state B) :
  (forall s1, fir_affin s1 = fir_affin s -> eng s1 = eng s) -> llh_wf i -> is_cmt c = true -> aff i own held s ->
  exists rc s', ('(rc, s1) ← (if roce : bool then qed_llh_set_roce_affinity c e0 s else Some (0, s));
    if negb (rc =? 0) then Some (rc, s1) else
    for_ppfids (fun ppfid s => qed_llh_set_ppfid_affinity c ppfid (eng s1) s) s1) = Some (rc, s') /\ aff i own held s' /\
    (rc = 0 -> forall k a, (k < Z.to_nat (num_ppfid i))%nat -> ppfid_array i !! k = Some a ->
       engine_reg s' own a = 4 * eng_sel (eng s) + if roce then eng_sel e0 else engine_reg s own a mod 4).
Proof.
  intros Heng W Hc A.
  assert (F : exists rc s1, (if roce then qed_llh_set_roce_affinity c e0 s else Some (0, s)) = Some (rc, s1) /\
    aff i own held s1 /\ fir_affin s1 = fir_affin s /\ (rc = 0 -> forall k a, (k < Z.to_nat (num_ppfid i))%nat -> ppfid_array i !! k = Some a ->
       engine_reg s1 own a mod 4 = if roce then eng_sel e0 else engine_reg s own a mod 4)).
  { destruct roce; [|by exists 0, s].
    destruct (set_roce_affinity_spec c Hr i own held e0 s W Hc A) as (rc & s1 & E & A1 & F1 & U).
    exists rc, s1. split; [done|]. split; [done|]. split; [done|]. intros Hrc k a Hk Ha. rewrite (U Hrc k a Hk Ha).
    destruct (lw_abs _ W k Hk) as (a' & Ea & Har). assert (a' = a) as -> by congruence.
    rewrite set_roce_spec by (by apply (af_range _ _ _ _ A)). pose proof (eng_sel_range e0).
    rewrite Z.add_comm, Z.mul_comm, Z_mod_plus_full. apply Z.mod_small. lia. }
  destruct F as (rc & s1 & -> & A1 & F1 & U1). cbn [mbind option_bind]. rewrite (Heng s1 F1). destruct (Z.eqb_spec rc 0) as [->|Hne]; cbn [negb].
  2: { exists rc, s1. split; [done|]. split; [done|]. done. }
  destruct (for_ppfids_sets i own held (set_non_roce (eng s)) _ s1 W A1 (ppfid_affinity_sets c Hr i own held (eng s) W Hc))
    as (rc & s2 & -> & A2 & _ & U2).
  exists rc, s2. split; [done|]. split; [done|]. intros Hrc k a Hk Ha. rewrite (U2 Hrc k a Hk Ha).
  destruct (lw_abs _ W k Hk) as (a' & Ea & Har). assert (a' = a) as -> by congruence.
  rewrite set_non_roce_spec by (by apply (af_range _ _ _ _ A1)). by rewrite (U1 eq_refl k a Hk Ha).
Qed.

(** On a two-engine device, when [qed_llh_set_engine_affin] returns 0
    every bank's engine-select register has the engine the personality and the
    mode ask for: both engines for L2 functions and a single engine for
    storage functions on non-RoCE packets, and on RoCE packets the single
    engine (engine 0 in the backwards-compatible mode) for RoCE functions, the
    previous setting otherwise.  PTT entries are released on every path. *)
Theorem llh_engine_affinity_set (B : Type) `(RegBusLaws B) (c : llh_cfg) (s : llh_state B) own held r avoid :
  engine_regs (B := B) -> llh_wf (llh s) -> is_cmt c = true -> aff (llh s) own held s ->
  exists rc s', qed_llh_set_engine_affin c r avoid s = Some (rc, s') /\ bus_held (bus s') = held /\
    (rc = 0 -> forall k a, (k < Z.to_nat (num_ppfid (llh s)))%nat -> ppfid_array (llh s) !! k = Some a ->
       let single := if avoid : bool then QED_ENG0 else affin_eng (snd (qed_mcp_get_engine_config r s)) in
       engine_reg s' own a =
         4 * eng_sel (if is_fcoe c || is_iscsi c then single else QED_BOTH_ENG) +
         if is_roce c then eng_sel single else engine_reg s own a mod 4).
Proof.
  intros Hr W Hc A. unfold qed_llh_set_engine_affin. destruct avoid.
  - destruct (set_all_banks B _ c Hr (llh s) own held (is_roce c)
      (fun _ => if is_fcoe c || is_iscsi c then QED_ENG0 else QED_BOTH_ENG) QED_ENG0 s (fun _ _ => eq_refl) W Hc A)
      as (rc & s' & E & A' & U).
    exists rc, s'. split; [exact E|]. split; [apply A'|exact U].
  - unfold set_engine_affin_mcp.
    assert (A1 : aff (llh s) own held (snd (qed_mcp_get_engine_config r s)) /\
      (forall a, engine_reg (snd (qed_mcp_get_engine_config r s)) own a = engine_reg s own a)).
    { unfold qed_mcp_get_engine_config. destruct (mb_rc r =? 0), (mcp_unsupported r); simpl;
        (split; [|done]); try done. destruct A; by constructor. }
    destruct (qed_mcp_get_engine_config r s) as [rc0 s1]. cbn [snd] in *. destruct A1 as [A1 R1].
    destruct (negb (rc0 =? 0) && negb (rc0 =? - EOPNOTSUPP)) eqn:Erc.
    { exists rc0, s1. split; [done|]. split; [apply A1|]. intros ->. discriminate Erc. }
    assert (Heng : forall s2 : llh_state B, fir_affin s2 = fir_affin s1 ->
      (if is_fcoe c || is_iscsi c then affin_eng s2 else QED_BOTH_ENG) =
      (if is_fcoe c || is_iscsi c then affin_eng s1 else QED_BOTH_ENG)) by (intros s2 E2; unfold affin_eng; by rewrite E2).
    destruct (set_all_banks B _ c Hr (llh s) own held (is_roce c)
      (fun s1 => if is_fcoe c || is_iscsi c then affin_eng s1 else QED_BOTH_ENG) (affin_eng s1) s1 Heng W Hc A1)
      as (rc & s' & E & A' & U).
    exists rc, s'. split; [exact E|split; [apply A'|]].
    intros Hrc k a Hk Ha. rewrite (U Hrc k a Hk Ha), R1. done.
Qed.

(** ** A device *)

Definition llh_world : nat -> list nat -> list nat := fun _ fl => fl.
#[local] Instance sim_bus : RegBus (pbus sim) := ptt_bus false llh_world.

#[local] Instance sim_bus_laws : RegBusLaws (pbus sim).
Proof. apply sim_bus_dmae_laws. intros mine n fl others Hi. by exists others. Qed.

(** A two-engine RoCE function 2 of a two-port chip, with banks 0 and 2. *)
Definition llh_cfg0 : llh_cfg :=
  mk_llh_cfg 5 true true false false 2 false 2 2 2 2 QED_PCI_ETH_ROCE [0x00; 0x0e; 0x1e; 1; 2; 3].
Definition llh_info0 : qed_llh_info := mk_llh_info 2 [0; 2; 0; 0; 0; 0; 0; 0] [zero_bank; zero_bank].
Definition pool0 : qed_ptt_pool := default (mk_qed_ptt_pool [] []) (snd (qed_ptt_pool_alloc true 0 0)).
Definition llh_state0 : llh_state (pbus sim) := mk_llh_state llh_info0 0 0 0 (mk_pbus pool0 sim0 [] 2).
Definition mac0 : llh_filter := MacFilter [0x00; 0x0e; 0x1e; 1; 2; 3].

Lemma sim_llh_regs : llh_regs (B := pbus sim).
Proof.
  constructor; intros idx; simpl; unfold en_addr, mode_addr, hdr_addr, prot_addr, value_addr; try lia.
  intros x Hi Hx. unfold filter_reg in Hx.
  assert (Hr : 0x501a00 <= x < 0x501b80 /\ x mod 4 = 0).
  { unfold en_addr, mode_addr, hdr_addr, prot_addr, value_addr, NIG_REG_LLH_FUNC_FILTER_EN,
      NIG_REG_LLH_FUNC_FILTER_VALUE, NIG_REG_LLH_FUNC_FILTER_MODE, NIG_REG_LLH_FUNC_FILTER_PROTOCOL_TYPE,
      NIG_REG_LLH_FUNC_FILTER_HDR_SEL in Hx. Z.to_euclidean_division_equations; lia. }
  split; [|by intros f g _ _ E]. split; [|done]. split; [|apply Hr]. unfold PXP_PTT_ENTRY_OFFSET_MASK. lia.
Qed.

Lemma sim_engine_regs : engine_regs (B := pbus sim).
Proof.
  constructor.
  - intros a Ha. split; [|exact I].
    unfold engine_addr, NIG_REG_PPF_TO_ENGINE_SEL, grc_addr, PXP_PTT_ENTRY_OFFSET_MASK.
    split; [lia|]. Z.to_euclidean_division_equations; lia.
  - intros a v _ Hv. cbn. lia.
  - split; [|cbn; lia]. split; [|exact I].
    unfold NIG_REG_LLH_ENG_CLS_ROCE_QP_SEL, grc_addr, PXP_PTT_ENTRY_OFFSET_MASK. split; [lia|reflexivity].
Qed.

Lemma llh_info0_wf : llh_wf llh_info0.
Proof.
  constructor; simpl; [lia|done|..].
  - intros [|[|k]] b E; simpl in E; simplify_eq; apply zero_bank_wf.
  - intros [|[|k]] Hk; [by exists 0|by exists 2|lia].
  - intros [|[|j]] [|[|k]] a Hj Hk Ej Ek; simpl in *; simplify_eq; (done || lia).
Qed.

Lemma bus0_ok : bus_ok (mk_pbus pool0 sim0 [] 2).
Proof.
  assert (L : forall i p, ptts pool0 !! i = Some p -> ptt_idx p = Z.of_nat i /\ is_window (ptt_idx p) /\
    pxp_offset p = QED_BAR_INVALID_OFFSET).
  { intros i p Hp. do 12 (destruct i as [|i]; [simpl in Hp; simplify_eq; by repeat split|]). done. }
  split; [|split; [done|split; [|split; [|split; [done|done]]]]].
  - intros i p Hp. simpl in Hp. apply L in Hp. tauto.
  - exists []. unfold pool_inv. change (reverse (seq 4 8) ≡ₚ seq 4 8). apply reverse_Permutation.
  - intros i p Hp. apply L in Hp as (_ & Hw & Ho). split; [done|by left].
Qed.

Lemma llh_state0_inv : llh_inv llh_cfg0 llh_state0.
Proof.
  constructor; [apply llh_info0_wf| |apply bus0_ok|].
  - constructor; simpl.
    + intros [|[|q]] a Hq Ea; simpl in *; simplify_eq; (done || lia).
    + intros [|[|q]] [|[|r]] a a' Hq Hr Ea Ea'; simpl in *; simplify_eq; (done || lia).
  - intros q bk a k e Hq Ha Hk.
    assert (bk = zero_bank) as -> by (destruct q as [|[|q]]; simpl in Hq; by simplify_eq).
    apply lookup_replicate in Hk as [-> _]. done.
Qed.

Lemma table0 q g : table llh_state0 q g = 0.
Proof.
  unfold table, bank; simpl. destruct (Z.to_nat q) as [|[|k]]; simpl; [apply zero_bank_refs..|done].
Qed.

Lemma mac0_ok : filter_ok mac0.
Proof. split; [done|]. split; [done|]. repeat (apply List.Forall_cons; [lia|]). apply List.Forall_nil. Qed.

Lemma state0_aff : aff llh_info0 2 [] llh_state0.
Proof. constructor; [done|apply bus0_ok|done|done|done]. Qed.

Lemma llh_add_refines_table_witness :
  exists rc s', llh_add llh_cfg0 0 mac0 llh_state0 = Some (rc, s') /\ bus_held (bus s') = [].
Proof.
  destruct (llh_add_refines_table (pbus sim) _ llh_cfg0 llh_state0 0 mac0) as (rc & s' & E & Hh & _).
  - apply sim_llh_regs.
  - apply llh_state0_inv.
  - apply mac0_ok.
  - by split.
  - lia.
  - rewrite table0. reflexivity.
  - exists rc, s'. split; [exact E|exact Hh].
Defined.

Lemma llh_remove_refines_table_witness :
  exists rc s', llh_remove llh_cfg0 0 mac0 llh_state0 = Some (rc, s') /\ llh_inv llh_cfg0 s'.
Proof.
  destruct (llh_remove_refines_table (pbus sim) _ llh_cfg0 llh_state0 0 mac0) as (rc & s' & E & _ & I & _).
  - apply sim_llh_regs.
  - apply llh_state0_inv.
  - apply mac0_ok.
  - by split.
  - lia.
  - exists rc, s'. split; [exact E|exact I].
Defined.


Lemma llh_clear_empties_bank_witness :
  exists rc s', qed_llh_clear_ppfid_filters llh_cfg0 1 llh_state0 = Some (rc, s') /\ bus_held (bus s') = [].
Proof.
  destruct (llh_clear_empties_bank (pbus sim) _ llh_cfg0 llh_state0 1) as (rc & s' & E & Hh & _).
  - apply sim_llh_regs.
  - apply llh_state0_inv.
  - by left.
  - lia.
  - exists rc, s'. split; [exact E|exact Hh].
Defined.

Lemma llh_engine_affinity_set_witness :
  exists rc s', qed_llh_set_engine_affin llh_cfg0 (mk_mcp_reply 0 false 3) false llh_state0 = Some (rc, s') /\
    bus_held (bus s') = [].
Proof.
  destruct (llh_engine_affinity_set (pbus sim) _ llh_cfg0 llh_state0 2 [] (mk_mcp_reply 0 false 3) false)
    as (rc & s' & E & Hh & _).
  - apply sim_engine_regs.
  - apply llh_info0_wf.
  - reflexivity.
  - apply state0_aff.
  - exists rc, s'. split; [exact E|exact Hh].
Defined.

(** ** Where the shadow and the chip part *)

Definition failing_bus : RegBus (pbus sim) := @ptt_bus sim _ (failing_dmae (- EBUSY)) false llh_world.

(** A filter whose configuration fails stays in the shadow: after
    [qed_llh_add_mac_filter] has returned the error of a failed transfer, a
    second call for the same address returns 0 although the chip has no
    enabled filter (the entry's count is 2 and no register is written). *)
Theorem llh_failed_add_not_rolled_back :
  ('(rc1, s1) ← @llh_add _ failing_bus llh_cfg0 0 mac0 llh_state0;
   '(rc2, s2) ← @llh_add _ failing_bus llh_cfg0 0 mac0 s1;
   Some (rc1, rc2, table s2 0 (bytes_of mac0),
     (fun k => @bus_reg _ failing_bus (bus s2) 0 (en_addr (Z.of_nat k))) <$> seq 0 16)) =
  Some (- EBUSY, 0, 2, replicate 16 0).
Proof. vm_compute. reflexivity. Qed.

(** MAC and protocol filters share one name space in the shadow: with the
    MAC filter 00:00:00:00:06:08 present, adding the protocol filter for
    Ethertype 0x0806 returns 0 and only raises the count of the MAC filter;
    the chip has one enabled filter, in MAC mode. *)
Theorem llh_mac_and_ethertype_alias :
  ('(rc1, s1) ← llh_add llh_cfg0 0 (MacFilter [0; 0; 0; 0; 0x06; 0x08]) llh_state0;
   '(rc2, s2) ← llh_add llh_cfg0 0 (ProtocolFilter QED_LLH_FILTER_ETHERTYPE 0x0806 0) s1;
   Some (rc1, rc2, (fun k => bus_reg (bus s2) 0 (en_addr (Z.of_nat k))) <$> seq 0 16,
     bus_reg (bus s2) 0 (mode_addr 0))) =
  Some (0, 0, 1 :: replicate 15 0, 0).
Proof. vm_compute. reflexivity. Qed.
