(* ===== verification/DbRec.v ===== *)
(** * The doorbell recovery registry (qed_dev.c)

    A doorbell is a write to the doorbell BAR that tells the chip how far a
    queue has been filled.  The chip drops doorbells when its queue overflows.
    Every entity that rings one registers its address and the place where it
    keeps the last data it wrote, and recovery rings all of them again.  The
    registry is a list per hardware function; on a two-engine device the BAR is
    split between the engines and the address says whose list an entry is on.

    The spin lock around the lists and the prints are left out.  [NULL] is the
    address 0; a null dereference or an array access out of range is [None]. *)

From S2P Require Import Prelude.

Inductive qed_db_rec_width := DB_REC_WIDTH_32B | DB_REC_WIDTH_64B.
Inductive qed_db_rec_space := DB_REC_KERNEL | DB_REC_USER.

#[export] Instance qed_db_rec_width_eq_dec : EqDecision qed_db_rec_width.
Proof. solve_decision. Defined.

Record qed_db_recovery_entry := mk_qed_db_recovery_entry {
  db_addr : Z;
  db_data : Z;
  db_width : qed_db_rec_width;
  db_space : qed_db_rec_space;
  hwfn_idx : Z
}.

Record qed_db_recovery_info := mk_qed_db_recovery_info {
  db_list : list qed_db_recovery_entry;
  db_count : Z;
  overflow : bool;           (* QED_OVERFLOW_BIT of the overflow word *)
  dorq_attn : bool;
  setup_done : bool
}.
#[export] Instance eta_qed_db_recovery_info : Settable qed_db_recovery_info := fun r =>
  mk_qed_db_recovery_info (db_list r) (db_count r) (overflow r) (dorq_attn r) (setup_done r).

(** The fields of [struct qed_hwfn] this component uses. *)
Record db_hwfn := mk_db_hwfn {
  my_id : Z;
  doorbells : Z;
  db_size : Z;
  db_recovery_info : qed_db_recovery_info
}.
#[export] Instance eta_db_hwfn : Settable db_hwfn := fun r =>
  mk_db_hwfn (my_id r) (doorbells r) (db_size r) (db_recovery_info r).

(** The functions of the device, with the entries [kzalloc] has handed out and
    not got back ([kz_live]) and the outcomes of its next calls ([kz_oracle];
    it succeeds when the list is used up). *)
Record db_dev := mk_db_dev {
  hwfns : list db_hwfn;
  kz_oracle : list bool;
  kz_live : Z
}.
#[export] Instance eta_db_dev : Settable db_dev := fun r =>
  mk_db_dev (hwfns r) (kz_oracle r) (kz_live r).

Definition QED_IS_CMT (cdev : db_dev) : bool := 1 <? Z.of_nat (length (hwfns cdev)).
Definition set_hwfn (i : nat) (h : db_hwfn) (cdev : db_dev) : db_dev :=
  cdev <| hwfns := <[i := h]> (hwfns cdev) |>.
Definition set_db_info (i : nat) (r : qed_db_recovery_info) (h : db_hwfn) (cdev : db_dev) : db_dev :=
  set_hwfn i (h <| db_recovery_info := r |>) cdev.
Definition kzalloc_entry (cdev : db_dev) : bool * db_dev :=
  match kz_oracle cdev with
  | [] => (true, cdev <| kz_live := kz_live cdev + 1 |>)
  | ok :: os => (ok, cdev <| kz_oracle := os |> <| kz_live := kz_live cdev + (if ok then 1 else 0) |>)
  end.
Definition kfree_entry (cdev : db_dev) : db_dev := cdev <| kz_live := kz_live cdev - 1 |>.

(** ** Operations *)

(** [qed_db_rec_find_hwfn]: the index of the function the address belongs to. *)
Definition qed_db_rec_find_hwfn (cdev : db_dev) (addr : Z) : option nat :=
  if QED_IS_CMT cdev
  then h1 ← hwfns cdev !! 1%nat; Some (if addr <? doorbells h1 then 0%nat else 1%nat)
  else _ ← hwfns cdev !! 0%nat; Some 0%nat.

Definition width_bits (w : qed_db_rec_width) : Z :=
  match w with DB_REC_WIDTH_32B => 32 | DB_REC_WIDTH_64B => 64 end.

Definition qed_db_rec_sanity (cdev : db_dev) (addr : Z) (w : qed_db_rec_width) (data : Z) : option bool :=
  i ← qed_db_rec_find_hwfn cdev addr;
  h ← hwfns cdev !! i;
  let width := width_bits w in
  Some (if (addr <? doorbells h) || (doorbells h + db_size h <? addr + width) then false
        else if data =? 0 then false else true).

Definition qed_db_recovery_add (cdev : db_dev) (addr data : Z) (w : qed_db_rec_width)
    (sp : qed_db_rec_space) : option (Z * db_dev) :=
  ok ← qed_db_rec_sanity cdev addr w data;
  if negb ok then Some (- EINVAL, cdev) else
  i ← qed_db_rec_find_hwfn cdev addr;
  h ← hwfns cdev !! i;
  let '(got, cdev) := kzalloc_entry cdev in
  if negb got then Some (- ENOMEM, cdev) else
  let db_entry := mk_qed_db_recovery_entry addr data w sp (u8 (my_id h)) in
  let info := db_recovery_info h in
  Some (0, set_db_info i (info <| db_list := db_list info ++ [db_entry] |>) h cdev).

(** The search loop of [qed_db_recovery_del]: unlinks the first entry whose
    data pointer is the key. *)
Fixpoint del_entry (data : Z) (l : list qed_db_recovery_entry) : option (list qed_db_recovery_entry) :=
  match l with
  | [] => None
  | e :: l => if db_data e =? data then Some l else (cons e) <$> del_entry data l
  end.

Definition qed_db_recovery_del (cdev : db_dev) (addr data : Z) : option (Z * db_dev) :=
  i ← qed_db_rec_find_hwfn cdev addr;
  h ← hwfns cdev !! i;
  let info := db_recovery_info h in
  match del_entry data (db_list info) with
  | None => Some (- EINVAL, cdev)
  | Some l => Some (0, kfree_entry (set_db_info i (info <| db_list := l |>) h cdev))
  end.

Definition qed_db_recovery_setup (i : nat) (cdev : db_dev) : option (Z * db_dev) :=
  h ← hwfns cdev !! i;
  if db_size h =? 0 then Some (- EINVAL, cdev) else
  Some (0, set_db_info i (db_recovery_info h <| db_list := [] |> <| db_count := 0 |> <| setup_done := true |>) h cdev).

(** The purge loop of [qed_db_recovery_teardown]: unlink and free the first
    entry until the list is empty. *)
Fixpoint purge_loop (l : list qed_db_recovery_entry) (cdev : db_dev) : db_dev :=
  match l with
  | [] => cdev
  | _ :: l => purge_loop l (kfree_entry cdev)
  end.

Definition qed_db_recovery_teardown (i : nat) (cdev : db_dev) : option db_dev :=
  h ← hwfns cdev !! i;
  let info := db_recovery_info h in
  if negb (setup_done info) then Some cdev else
  Some (set_db_info i (info <| db_list := [] |> <| db_count := 0 |> <| setup_done := false |>) h
          (purge_loop (db_list info) cdev)).

(** Host memory, byte by byte, and the little-endian loads of the doorbell
    data. *)
Fixpoint load_le (mem : Z -> Z) (a : Z) (n : nat) : Z :=
  match n with
  | O => 0
  | S n => mem a mod 256 + 256 * load_le mem (a + 1) n
  end.

(** Where doorbells go: [DIRECT_REG_WR] and [DIRECT_REG_WR64], by width. *)
Class DoorbellBar (D : Type) := direct_reg_wr : Z -> Z -> Z -> D -> D.   (* address, bits, value *)
Arguments direct_reg_wr {D} {_}.

(** The log of the writes, oldest first. *)
#[export] Instance log_bar : DoorbellBar (list (Z * Z * Z)) := fun a w v l => l ++ [(a, w, v)].

Definition db_value (mem : Z -> Z) (e : qed_db_recovery_entry) : Z :=
  match db_width e with
  | DB_REC_WIDTH_32B => load_le mem (db_data e) 4
  | DB_REC_WIDTH_64B => load_le mem (db_data e) 8
  end.

Definition qed_db_recovery_ring {D} `{DoorbellBar D} (mem : Z -> Z) (d : D) (e : qed_db_recovery_entry) : D :=
  direct_reg_wr (db_addr e) (width_bits (db_width e)) (db_value mem e) d.

Definition qed_db_recovery_execute {D} `{DoorbellBar D} (mem : Z -> Z) (info : qed_db_recovery_info) (d : D)
    : qed_db_recovery_info * D :=
  let info := info <| db_count := u32 (db_count info + 1) |> in
  (info, fold_left (qed_db_recovery_ring mem) (db_list info) d).

(** ** The registry as its clients see it *)

(** One list of registrations for the whole device, in order. *)
Record registration := mk_registration {
  r_addr : Z; r_data : Z; r_width : qed_db_rec_width; r_space : qed_db_rec_space
}.

(** How the BAR is divided: the lower bound of each engine's part and its
    size. *)
Notation bar := (list (Z * Z)).
Definition dev_bar (cdev : db_dev) : bar := (fun h => (doorbells h, db_size h)) <$> hwfns cdev.

(** The engine that owns an address. *)
Definition owner (b : bar) (addr : Z) : nat :=
  match b with
  | _ :: (lo1, _) :: _ => if addr <? lo1 then 0%nat else 1%nat
  | _ => 0%nat
  end.

Definition width_bytes (w : qed_db_rec_width) : Z := width_bits w / 8.

(** A doorbell with data, all bytes of which are within the BAR of its engine. *)
Definition legal (b : bar) (r : registration) : Prop :=
  exists lo sz, b !! owner b (r_addr r) = Some (lo, sz) /\ r_data r <> 0 /\
    lo <= r_addr r /\ r_addr r + width_bytes (r_width r) <= lo + sz.

(** Fewer than 32 or 64 bytes, as many as the doorbell has bits, before the end
    of the BAR or past it: [qed_db_rec_sanity] takes the width in bits for a
    number of bytes. *)
Definition near_end (b : bar) (r : registration) : Prop :=
  exists lo sz, b !! owner b (r_addr r) = Some (lo, sz) /\ lo + sz < r_addr r + width_bits (r_width r).

(** Removing the first registration of an engine with a data pointer. *)
Fixpoint unregister (b : bar) (o : nat) (data : Z) (l : list registration) : option (list registration) :=
  match l with
  | [] => None
  | r :: l => if decide (owner b (r_addr r) = o /\ r_data r = data) then Some l
              else (cons r) <$> unregister b o data l
  end.

(** What recovery has to write for a registration. *)
Definition reg_write (mem : Z -> Z) (r : registration) : Z * Z * Z :=
  (r_addr r, width_bits (r_width r),
   load_le mem (r_data r) (match r_width r with DB_REC_WIDTH_32B => 4 | DB_REC_WIDTH_64B => 8 end)).

Definition of_entry (e : qed_db_recovery_entry) : registration :=
  mk_registration (db_addr e) (db_data e) (db_width e) (db_space e).

Definition owned (b : bar) (i : nat) (l : list registration) : list registration :=
  filter (fun r => owner b (r_addr r) = i) l.

(** The lists of the driver are the parts of the registry, entry by entry, and
    every entry is live memory. *)
Record registry_rep (cdev : db_dev) (l : list registration) : Prop := {
  rep_funcs : (1 <= length (hwfns cdev) <= 2)%nat;
  rep_lists : forall i h, hwfns cdev !! i = Some h ->
    of_entry <$> db_list (db_recovery_info h) = owned (dev_bar cdev) i l;
  rep_legal : Forall (legal (dev_bar cdev)) l;
  rep_live : kz_live cdev = Z.of_nat (length l)
}.
