(* ===== verification/DbRecProps.v ===== *)
(** * Properties of the doorbell recovery registry

    The per-function lists implement one registry for the device, recovery
    rings every registered doorbell, and teardown frees all entries. *)

From S2P Require Import Prelude DbRec.

Section Registry.
Context (cdev : db_dev).
Hypothesis Hn : (1 <= length (hwfns cdev) <= 2)%nat.

Lemma find_hwfn_owner addr :
  qed_db_rec_find_hwfn cdev addr = Some (owner (dev_bar cdev) addr).
Proof.
  unfold qed_db_rec_find_hwfn, QED_IS_CMT, dev_bar.
  destruct (hwfns cdev) as [|h0 [|h1 [|]]]; simpl in *; try lia; reflexivity.
Qed.

Lemma owner_hwfn addr : exists h, hwfns cdev !! owner (dev_bar cdev) addr = Some h.
Proof.
  unfold dev_bar. destruct (hwfns cdev) as [|h0 [|h1 [|]]]; simpl in *; try lia; [eauto|].
  destruct (_ <? _); simpl; eauto.
Qed.

Lemma dev_bar_at i h : hwfns cdev !! i = Some h -> dev_bar cdev !! i = Some (doorbells h, db_size h).
Proof. intros E. unfold dev_bar. rewrite list_lookup_fmap, E. reflexivity. Qed.

Lemma sanity_legal addr w data sp : let r := mk_registration addr data w sp in
  exists b, qed_db_rec_sanity cdev addr w data = Some b /\
    if b then legal (dev_bar cdev) r /\ ~ near_end (dev_bar cdev) r
    else ~ legal (dev_bar cdev) r \/ near_end (dev_bar cdev) r.
Proof.
  unfold qed_db_rec_sanity. rewrite find_hwfn_owner. simpl.
  destruct (owner_hwfn addr) as [h Eh]. rewrite Eh. simpl. eexists. split; [reflexivity|].
  unfold legal, near_end. simpl. rewrite (dev_bar_at _ _ Eh).
  assert (Hw : 0 <= width_bytes w <= width_bits w) by (destruct w; by vm_compute).
  destruct (addr <? doorbells h) eqn:?, (doorbells h + db_size h <? addr + width_bits w) eqn:?,
    (data =? 0) eqn:?; zbool; simpl; try (left; intros (lo & sz & [= <- <-] & Hd & H1 & H2); lia);
    try (right; eexists _, _; split; [reflexivity|lia]).
  split; [eexists _, _; split; [reflexivity|lia]|intros (lo & sz & [= <- <-] & H1); lia].
Qed.
End Registry.

(** Changing the recovery information of a function changes no address. *)
Lemma dev_bar_set i r h cdev : hwfns cdev !! i = Some h -> dev_bar (set_db_info i r h cdev) = dev_bar cdev.
Proof.
  intros E. unfold dev_bar, set_db_info, set_hwfn. simpl.
  rewrite list_fmap_insert. apply list_insert_id. rewrite list_lookup_fmap, E. reflexivity.
Qed.

Lemma owned_app b i l l' : owned b i (l ++ l') = owned b i l ++ owned b i l'.
Proof. apply list.filter_app. Qed.

(** Removing from the registry removes from the list of the owner only. *)
Lemma unregister_owned b o data l :
  match unregister b o data l with
  | Some l' => exists r, r_data r = data /\ owner b (r_addr r) = o /\
      (exists l1 l2, l = l1 ++ r :: l2 /\ l' = l1 ++ l2) /\
      (forall i, i <> o -> owned b i l' = owned b i l)
  | None => forall r, r ∈ owned b o l -> r_data r <> data
  end.
Proof.
  induction l as [|r l IH]; simpl.
  - intros r Hr. unfold owned in Hr. rewrite filter_nil in Hr. inversion Hr.
  - destruct (decide _) as [[Ho Hd]|Hn].
    + exists r. split_and!; [done|done|exists [], l; done|].
      intros i Hi. unfold owned. rewrite filter_cons_False by congruence. reflexivity.
    + destruct (unregister b o data l) as [l'|]; simpl.
      * destruct IH as (r' & Hd & Ho & (l1 & l2 & -> & ->) & Hf). exists r'. split_and!; [done|done|exists (r :: l1), l2; done|].
        intros i Hi. unfold owned in *. rewrite !filter_cons. rewrite Hf by done. reflexivity.
      * intros r' Hr'. unfold owned in Hr'. rewrite filter_cons in Hr'. destruct (decide (owner b (r_addr r) = o)).
        -- apply elem_of_cons in Hr' as [->|Hr']; [naive_solver|by apply IH].
        -- by apply IH.
Qed.

(** The driver's search on the owner's list finds what the registry's search
    finds. *)
Lemma del_unregister b o data l es :
  of_entry <$> es = owned b o l ->
  match unregister b o data l with
  | Some l' => exists es', del_entry data es = Some es' /\ of_entry <$> es' = owned b o l'
  | None => del_entry data es = None
  end.
Proof.
  revert es. induction l as [|r l IH]; intros es He; simpl.
  - destruct es; [reflexivity|discriminate].
  - unfold owned in He. rewrite filter_cons in He. destruct (decide (owner b (r_addr r) = o)) as [Ho|Ho].
    + destruct es as [|e es]; [discriminate|]. injection He as Ee He. simpl. subst r. simpl in Ho |- *.
      destruct (decide _) as [[_ Hd]|Hd].
      * replace (db_data e =? data) with true by lia. exists es. done.
      * replace (db_data e =? data) with false by (symmetry; apply Z.eqb_neq; naive_solver).
        specialize (IH es He). destruct (unregister b o data l) as [l'|]; simpl.
        -- destruct IH as (es' & -> & Ho'). exists (e :: es'). split; [reflexivity|].
           unfold owned. rewrite filter_cons_True by done. simpl. f_equal. exact Ho'.
        -- rewrite IH. reflexivity.
    + rewrite decide_False by naive_solver. specialize (IH es He).
      destruct (unregister b o data l) as [l'|]; simpl; [|done].
      destruct IH as (es' & -> & Ho'). exists es'. split; [reflexivity|].
      unfold owned. rewrite filter_cons_False by done. exact Ho'.
Qed.

(** Storing a new list for one function keeps the representation. *)
Lemma registry_set cdev l l' i h es live :
  registry_rep cdev l -> hwfns cdev !! i = Some h ->
  of_entry <$> es = owned (dev_bar cdev) i l' ->
  (forall j, j <> i -> owned (dev_bar cdev) j l' = owned (dev_bar cdev) j l) ->
  Forall (legal (dev_bar cdev)) l' -> live = Z.of_nat (length l') ->
  forall info, db_list info = es ->
  registry_rep (set_db_info i info h cdev <| kz_live := live |>) l'.
Proof.
  intros [Hn Hl Hf Hk] Eh He Hj Hf' Hk' info Hi.
  assert (Eb : dev_bar (set_db_info i info h cdev <| kz_live := live |>) = dev_bar cdev)
    by apply (dev_bar_set i info h cdev Eh).
  split; rewrite ?Eb; try done.
  - simpl. rewrite length_insert. done.
  - intros j g Eg. simpl in Eg. destruct (decide (j = i)) as [->|Hne].
    + rewrite list_lookup_insert_eq in Eg by (eapply lookup_lt_Some; done). injection Eg as <-. simpl. by rewrite Hi.
    + rewrite list_lookup_insert_ne in Eg by done. rewrite (Hl j g Eg). symmetry. by apply Hj.
Qed.
(** ** Runs *)

Inductive db_op :=
| OpAdd (addr data : Z) (w : qed_db_rec_width) (sp : qed_db_rec_space)
| OpDel (addr data : Z).

Definition db_apply (op : db_op) (cdev : db_dev) : option (Z * db_dev) :=
  match op with
  | OpAdd a d w sp => qed_db_recovery_add cdev a d w sp
  | OpDel a d => qed_db_recovery_del cdev a d
  end.

(** A sequence of operations; the result lists their return codes. *)
Fixpoint db_run (ops : list db_op) (cdev : db_dev) : option (list Z * db_dev) :=
  match ops with
  | [] => Some ([], cdev)
  | op :: ops =>
      '(rc, cdev) ← db_apply op cdev;
      '(rcs, cdev) ← db_run ops cdev;
      Some (rc :: rcs, cdev)
  end.

(** What an operation may answer and do to the registry: a legal doorbell is
    taken if there is memory, except in the last bytes of the BAR. *)
Inductive reg_step (b : bar) : db_op -> list registration -> Z -> list registration -> Prop :=
| step_add a d w sp l : legal b (mk_registration a d w sp) -> ~ near_end b (mk_registration a d w sp) ->
    reg_step b (OpAdd a d w sp) l 0 (l ++ [mk_registration a d w sp])
| step_add_illegal a d w sp l : ~ legal b (mk_registration a d w sp) ->
    reg_step b (OpAdd a d w sp) l (- EINVAL) l
| step_add_near_end a d w sp l : near_end b (mk_registration a d w sp) ->
    reg_step b (OpAdd a d w sp) l (- EINVAL) l
| step_add_nomem a d w sp l : legal b (mk_registration a d w sp) -> ~ near_end b (mk_registration a d w sp) ->
    reg_step b (OpAdd a d w sp) l (- ENOMEM) l
| step_del a d l l' : unregister b (owner b a) d l = Some l' ->
    reg_step b (OpDel a d) l 0 l'
| step_del_unknown a d l : unregister b (owner b a) d l = None ->
    reg_step b (OpDel a d) l (- EINVAL) l.

Inductive reg_steps (b : bar) : list db_op -> list registration -> list Z -> list registration -> Prop :=
| steps_nil l : reg_steps b [] l [] l
| steps_cons op ops l rc l1 rcs l2 :
    reg_step b op l rc l1 -> reg_steps b ops l1 rcs l2 -> reg_steps b (op :: ops) l (rc :: rcs) l2.

Lemma kzalloc_frame cdev : hwfns (kzalloc_entry cdev).2 = hwfns cdev /\
  kz_live (kzalloc_entry cdev).2 = kz_live cdev + (if (kzalloc_entry cdev).1 then 1 else 0).
Proof. unfold kzalloc_entry. destruct (kz_oracle cdev); done. Qed.

Lemma registry_same cdev cdev' l :
  hwfns cdev' = hwfns cdev -> kz_live cdev' = kz_live cdev -> registry_rep cdev l -> registry_rep cdev' l.
Proof.
  intros E1 E2 [Hn Hl Hf Hk]. assert (Eb : dev_bar cdev' = dev_bar cdev) by (unfold dev_bar; by rewrite E1).
  split; rewrite ?Eb, ?E1, ?E2; auto.
Qed.

Lemma add_refines cdev l a d w sp :
  registry_rep cdev l ->
  exists rc cdev' l', qed_db_recovery_add cdev a d w sp = Some (rc, cdev') /\
    dev_bar cdev' = dev_bar cdev /\ registry_rep cdev' l' /\
    reg_step (dev_bar cdev) (OpAdd a d w sp) l rc l'.
Proof.
  intros Hr. pose proof (rep_funcs _ _ Hr) as Hn. unfold qed_db_recovery_add.
  destruct (sanity_legal cdev Hn a w d sp) as (b & -> & Hb). simpl. destruct b; simpl.
  2: { exists (- EINVAL), cdev, l. split_and!; try done.
       destruct Hb as [Hb|Hb]; [by apply step_add_illegal|by apply step_add_near_end]. }
  destruct Hb as [Hleg Hend]. rewrite (find_hwfn_owner cdev Hn). simpl.
  destruct (owner_hwfn cdev Hn a) as [h Eh]. rewrite Eh. simpl.
  destruct (kzalloc_frame cdev) as [Ef Ek]. destruct (kzalloc_entry cdev) as [got cdev1]. simpl in *.
  assert (Eb : dev_bar cdev1 = dev_bar cdev) by (unfold dev_bar; by rewrite Ef).
  destruct got; simpl.
  2: { exists (- ENOMEM), cdev1, l. split_and!; try done; [|by constructor].
       apply (registry_same cdev); [done|lia|done]. }
  assert (Eh1 : hwfns cdev1 !! owner (dev_bar cdev) a = Some h) by (by rewrite Ef).
  exists 0. do 2 eexists. split; [reflexivity|]. split; [by rewrite dev_bar_set|]. split; [|by constructor].
  set (e := mk_qed_db_recovery_entry _ _ _ _ _).
  assert (Hr1 : registry_rep (cdev1 <| kz_live := kz_live cdev |>) l) by by apply (registry_same cdev).
  apply (registry_same (set_db_info (owner (dev_bar cdev) a)
    (db_recovery_info h <| db_list := db_list (db_recovery_info h) ++ [e] |>) h
    (cdev1 <| kz_live := kz_live cdev |>) <| kz_live := kz_live cdev1 |>)); [done..|].
  eapply (registry_set _ l _ _ _ (db_list (db_recovery_info h) ++ [e])); [exact Hr1|exact Eh1|..|reflexivity].
  - change (dev_bar (cdev1 <| kz_live := kz_live cdev |>)) with (dev_bar cdev1).
    rewrite fmap_app, Eb, owned_app, (rep_lists _ _ Hr _ _ Eh). f_equal.
    unfold owned. rewrite filter_cons_True by done. reflexivity.
  - intros j Hj. change (dev_bar (cdev1 <| kz_live := kz_live cdev |>)) with (dev_bar cdev1). rewrite Eb, owned_app.
    unfold owned at 2. rewrite filter_cons_False by (simpl; congruence). rewrite filter_nil. apply app_nil_r.
  - change (dev_bar (cdev1 <| kz_live := kz_live cdev |>)) with (dev_bar cdev1). rewrite Eb.
    apply Forall_app. split; [apply (rep_legal _ _ Hr)|]. repeat constructor. exact Hleg.
  - rewrite Ek, (rep_live _ _ Hr), length_app. simpl. lia.
Qed.

Lemma del_refines cdev l a d :
  registry_rep cdev l ->
  exists rc cdev' l', qed_db_recovery_del cdev a d = Some (rc, cdev') /\
    dev_bar cdev' = dev_bar cdev /\ registry_rep cdev' l' /\
    reg_step (dev_bar cdev) (OpDel a d) l rc l'.
Proof.
  intros Hr. pose proof (rep_funcs _ _ Hr) as Hn. unfold qed_db_recovery_del.
  rewrite (find_hwfn_owner cdev Hn). simpl. destruct (owner_hwfn cdev Hn a) as [h Eh]. rewrite Eh. simpl.
  pose proof (del_unregister _ _ d _ _ (rep_lists _ _ Hr _ _ Eh)) as Hd.
  pose proof (unregister_owned (dev_bar cdev) (owner (dev_bar cdev) a) d l) as Hu.
  destruct (unregister _ _ d l) as [l'|] eqn:El.
  2: { rewrite Hd. exists (- EINVAL), cdev, l. split_and!; try done. by constructor. }
  destruct Hd as (es & -> & He). destruct Hu as (r & _ & _ & (l1 & l2 & -> & ->) & Hj).
  exists 0. do 2 eexists. split; [reflexivity|]. split; [by apply (dev_bar_set _ _ h cdev Eh)|].
  split; [|constructor; exact El].
  eapply (registry_set _ _ _ _ _ es); [exact Hr|exact Eh|exact He|exact Hj|..|reflexivity].
  - pose proof (rep_legal _ _ Hr) as Hf. apply Forall_app in Hf as [H1 H2]. inversion_clear H2. by apply Forall_app.
  - simpl. rewrite (rep_live _ _ Hr), !length_app. simpl. lia.
Qed.

Lemma run_refines ops cdev l :
  registry_rep cdev l ->
  exists rcs cdev' l', db_run ops cdev = Some (rcs, cdev') /\
    dev_bar cdev' = dev_bar cdev /\ registry_rep cdev' l' /\ reg_steps (dev_bar cdev) ops l rcs l'.
Proof.
  revert cdev l. induction ops as [|op ops IH]; intros cdev l Hr; simpl.
  - exists [], cdev, l. split_and!; try done. constructor.
  - assert (exists rc cdev' l', db_apply op cdev = Some (rc, cdev') /\ dev_bar cdev' = dev_bar cdev /\
      registry_rep cdev' l' /\ reg_step (dev_bar cdev) op l rc l') as (rc & c1 & l1 & -> & Eb & Hr1 & Hs).
    { destruct op; [by apply add_refines|by apply del_refines]. }
    simpl. destruct (IH c1 l1 Hr1) as (rcs & c2 & l2 & -> & Eb2 & Hr2 & Hs2). simpl.
    exists (rc :: rcs), c2, l2. rewrite Eb in *. split_and!; try done. by econstructor.
Qed.

(** Recovery on a function writes its entries one by one. *)
Lemma execute_log mem info log :
  (qed_db_recovery_execute mem info log).2 = log ++ (reg_write mem ∘ of_entry <$> db_list info).
Proof.
  unfold qed_db_recovery_execute. simpl. revert log. induction (db_list info) as [|e l IH]; intros log; simpl.
  - by rewrite app_nil_r.
  - rewrite IH. unfold qed_db_recovery_ring, direct_reg_wr, log_bar. rewrite <- app_assoc. simpl. do 3 f_equal.
    unfold reg_write, db_value. simpl. destruct (db_width e); reflexivity.
Qed.

Lemma purge_live l cdev : hwfns (purge_loop l cdev) = hwfns cdev /\
  kz_live (purge_loop l cdev) = kz_live cdev - Z.of_nat (length l).
Proof.
  revert cdev. induction l as [|e l IH]; intros cdev; simpl; [split; [done|lia]|].
  destruct (IH (kfree_entry cdev)) as [-> ->]. simpl. split; [done|lia].
Qed.

(** C10: Registrations and removals, in any order and with any outcome of the
    allocator, implement one registry for the device: an [add] of a doorbell with
    data whose bytes are within the BAR of its engine appends it, or answers
    -ENOMEM; an [add] outside that BAR or without data is refused with -EINVAL.
    The check refuses more than that: because it counts the width in bits as
    bytes, a doorbell that starts fewer than 32 (64) bytes before the end of the
    BAR is refused with -EINVAL too, and the specification says exactly which
    ([near_end]; [sanity_refuses_last_doorbell] is such a doorbell).  A [del] removes the first registration of the
    address's engine with that data pointer or answers -EINVAL.  No sequence of
    operations faults and every registered entry is live memory. *)
Theorem db_registry_refines (ops : list db_op) (cdev : db_dev) (l : list registration) :
  registry_rep cdev l ->
  exists rcs cdev' l', db_run ops cdev = Some (rcs, cdev') /\
    registry_rep cdev' l' /\ reg_steps (dev_bar cdev) ops l rcs l'.
Proof. intros Hr. destruct (run_refines ops cdev l Hr) as (rcs & c & l' & ? & _ & ? & ?). eauto 6. Qed.

(** C27: Recovery on a function rings every doorbell registered for it exactly
    once, in the order of registration, at its width, with the data its owner
    has in memory at that moment, and writes nothing outside the function's
    doorbell BAR. *)
Theorem db_execute_rings_registered (cdev : db_dev) (l : list registration) (i : nat) (h : db_hwfn) (mem : Z -> Z) :
  registry_rep cdev l -> hwfns cdev !! i = Some h ->
  let '(info, log) := qed_db_recovery_execute mem (db_recovery_info h) [] in
  log = reg_write mem <$> owned (dev_bar cdev) i l /\
  db_list info = db_list (db_recovery_info h) /\ db_count info = u32 (db_count (db_recovery_info h) + 1) /\
  Forall (fun '(a, bits, v) => doorbells h <= a /\ a + bits / 8 <= doorbells h + db_size h) log.
Proof.
  intros Hr Eh. destruct (qed_db_recovery_execute mem (db_recovery_info h) []) as [info log] eqn:E.
  assert (El : log = reg_write mem <$> owned (dev_bar cdev) i l).
  { pose proof (execute_log mem (db_recovery_info h) []) as Hl. rewrite E in Hl. simpl in Hl.
    rewrite Hl, <- (rep_lists _ _ Hr _ _ Eh), <- list_fmap_compose. reflexivity. }
  injection E as <- _. split_and!; [exact El|done|done|]. rewrite El.
  apply List.Forall_map, List.Forall_forall. intros r Hin. apply list_elem_of_In in Hin.
  apply list_elem_of_filter in Hin as [Ho Hin].
  pose proof (rep_legal _ _ Hr) as Hf. rewrite Forall_forall in Hf.
  destruct (Hf r (proj1 (list_elem_of_In _ _) Hin)) as (lo & sz & Eb & _ & H1 & H2). rewrite Ho, (dev_bar_at _ _ _ Eh) in Eb. injection Eb as <- <-.
  unfold reg_write. simpl. unfold width_bytes in H2. lia.
Qed.
Lemma filter_none {A} (P : A -> Prop) `{forall x, Decision (P x)} (l : list A) : (forall x, ~ P x) -> filter P l = [].
Proof. intros Hn. induction l as [|x l IH]; [reflexivity|]. by rewrite filter_cons_False. Qed.
Lemma filter_every {A} (P : A -> Prop) `{forall x, Decision (P x)} (l : list A) : (forall x, P x) -> filter P l = l.
Proof. intros Hn. induction l as [|x l IH]; [reflexivity|]. by rewrite filter_cons_True, IH. Qed.

(** Tearing down the registry of every function, one after the other. *)
Fixpoint teardown_all (fs : list nat) (cdev : db_dev) : option db_dev :=
  match fs with
  | [] => Some cdev
  | i :: fs => cdev ← qed_db_recovery_teardown i cdev; teardown_all fs cdev
  end.

Lemma length_owned_split b i l :
  (length l = length (owned b i l) + length (filter (fun r => owner b (r_addr r) <> i) l))%nat.
Proof.
  induction l as [|r l IH]; [reflexivity|]. unfold owned in *. rewrite !filter_cons. simpl.
  destruct (decide (owner b (r_addr r) = i)); [rewrite decide_False by tauto|rewrite decide_True by done]; simpl; lia.
Qed.

Lemma owned_other b i j l :
  owned b j (filter (fun r => owner b (r_addr r) <> i) l) = if decide (j = i) then [] else owned b j l.
Proof.
  unfold owned. rewrite list_filter_filter.
  destruct (decide (j = i)) as [->|Hne].
  - apply filter_none. tauto.
  - apply list_filter_iff. intros r. split; [tauto|]. intros ->. done.
Qed.

Lemma teardown_refines cdev l i h :
  registry_rep cdev l -> hwfns cdev !! i = Some h -> setup_done (db_recovery_info h) = true ->
  exists cdev', qed_db_recovery_teardown i cdev = Some cdev' /\ dev_bar cdev' = dev_bar cdev /\
    registry_rep cdev' (filter (fun r => owner (dev_bar cdev) (r_addr r) <> i) l) /\
    (forall j, j <> i -> hwfns cdev' !! j = hwfns cdev !! j).
Proof.
  intros Hr Eh Hs. unfold qed_db_recovery_teardown. rewrite Eh. simpl. rewrite Hs. simpl.
  eexists. split; [reflexivity|]. destruct (purge_live (db_list (db_recovery_info h)) cdev) as [Ef Ek].
  set (c1 := purge_loop _ cdev) in *. assert (Eb : dev_bar c1 = dev_bar cdev) by (unfold dev_bar; by rewrite Ef).
  split; [rewrite dev_bar_set; [done|by rewrite Ef]|]. split.
  2: { intros j Hj. simpl. rewrite Ef. by rewrite list_lookup_insert_ne. }
  assert (Hr1 : registry_rep (c1 <| kz_live := kz_live cdev |>) l) by by apply (registry_same cdev).
  match goal with |- registry_rep (set_db_info i ?info h c1) ?l' =>
    apply (registry_same (set_db_info i info h (c1 <| kz_live := kz_live cdev |>) <| kz_live := kz_live c1 |>));
      [done..|];
    eapply (registry_set _ l l' i h []); [exact Hr1|simpl; by rewrite Ef|..|reflexivity] end;
  change (dev_bar (c1 <| kz_live := kz_live cdev |>)) with (dev_bar c1); rewrite ?Eb.
  - by rewrite owned_other, decide_True.
  - intros j Hj. by rewrite owned_other, decide_False.
  - apply List.Forall_forall. intros r Hin. apply list_elem_of_In, list_elem_of_filter in Hin as [_ Hin].
    pose proof (rep_legal _ _ Hr) as Hf. rewrite List.Forall_forall in Hf. by apply Hf, list_elem_of_In.
  - rewrite Ek, (rep_live _ _ Hr), (length_owned_split (dev_bar cdev) i l), <- (rep_lists _ _ Hr _ _ Eh), length_fmap. lia.
Qed.

Lemma teardown_seq_refines fs cdev l :
  registry_rep cdev l -> NoDup fs ->
  (forall i, i ∈ fs -> exists h, hwfns cdev !! i = Some h /\ setup_done (db_recovery_info h) = true) ->
  exists cdev', teardown_all fs cdev = Some cdev' /\ dev_bar cdev' = dev_bar cdev /\
    registry_rep cdev' (filter (fun r => owner (dev_bar cdev) (r_addr r) ∉ fs) l).
Proof.
  revert cdev l. induction fs as [|i fs IH]; intros cdev l Hr Hnd Hs; simpl.
  - exists cdev. split_and!; try done.
    replace (filter _ l) with l; [done|]. symmetry. apply filter_every. intros r. apply not_elem_of_nil.
  - apply list.NoDup_cons in Hnd as [Hi Hnd].
    destruct (Hs i ltac:(set_solver)) as (h & Eh & Hd).
    destruct (teardown_refines cdev l i h Hr Eh Hd) as (c1 & -> & Eb & Hr1 & Hj). simpl.
    destruct (IH c1 _ Hr1 Hnd) as (c2 & -> & Eb2 & Hr2).
    { intros j Hin. destruct (Hs j ltac:(set_solver)) as (g & Eg & Hg). exists g. rewrite Hj by congruence. done. }
    exists c2. split_and!; [done|congruence|]. rewrite Eb in Hr2. rewrite list_filter_filter in Hr2.
    erewrite list_filter_iff; [exact Hr2|]. intros r. simpl. set_solver.
Qed.

(** Tearing the registries down, whatever is still registered, frees every
    entry: no entry of [kzalloc] is left, and every list is empty. *)
Theorem db_teardown_frees_all (cdev : db_dev) (l : list registration) :
  registry_rep cdev l ->
  Forall (fun h => setup_done (db_recovery_info h) = true) (hwfns cdev) ->
  exists cdev', teardown_all (seq 0 (length (hwfns cdev))) cdev = Some cdev' /\
    kz_live cdev' = 0 /\ registry_rep cdev' [].
Proof.
  intros Hr Hs.
  destruct (teardown_seq_refines (seq 0 (length (hwfns cdev))) cdev l Hr) as (c & E & _ & Hr').
  - apply list.NoDup_seq.
  - intros i Hi. apply elem_of_seq in Hi. destruct (lookup_lt_is_Some_2 (hwfns cdev) i) as [h Eh]; [lia|].
    exists h. split; [done|]. rewrite List.Forall_forall in Hs. apply Hs. eapply list_elem_of_In, list_elem_of_lookup_2. done.
  - assert (filter (fun r => owner (dev_bar cdev) (r_addr r) ∉ seq 0 (length (hwfns cdev))) l = []) as E0.
    { apply filter_none. intros r Hn. apply Hn, elem_of_seq.
      destruct (owner_hwfn cdev (rep_funcs _ _ Hr) (r_addr r)) as [h Eh]. apply lookup_lt_Some in Eh. lia. }
    rewrite E0 in Hr'. exists c. split_and!; [done|apply (rep_live _ _ Hr')|done].
Qed.

(** ** Witnesses: a two-engine device *)

Definition empty_info : qed_db_recovery_info := mk_qed_db_recovery_info [] 0 false false true.
Definition cmt0 : db_dev :=
  mk_db_dev [mk_db_hwfn 0 0x10000 0x8000 empty_info; mk_db_hwfn 1 0x18000 0x8000 empty_info] [] 0.
Definition ops0 : list db_op :=
  [OpAdd 0x10100 0x900 DB_REC_WIDTH_32B DB_REC_KERNEL; OpAdd 0x18040 0x910 DB_REC_WIDTH_64B DB_REC_USER;
   OpAdd 0x10100 0x920 DB_REC_WIDTH_32B DB_REC_KERNEL; OpDel 0x10100 0x900].

Lemma cmt0_rep : registry_rep cmt0 [].
Proof. split; simpl; [lia| |constructor|done]. intros [|[|i]] h E; simplify_eq/=; done. Qed.

Definition cmt1 : db_dev := match db_run ops0 cmt0 with Some (_, c) => c | None => cmt0 end.
Definition regs1 : list registration :=
  [mk_registration 0x18040 0x910 DB_REC_WIDTH_64B DB_REC_USER; mk_registration 0x10100 0x920 DB_REC_WIDTH_32B DB_REC_KERNEL].

Lemma cmt1_rep : registry_rep cmt1 regs1.
Proof.
  split; [vm_compute; lia| | |reflexivity].
  - intros [|[|i]] h E; vm_compute in E; simplify_eq; reflexivity.
  - repeat constructor; (do 2 eexists; split; [reflexivity|]; split; vm_compute; [discriminate|split; discriminate]).
Qed.

Lemma db_registry_refines_witness :
  registry_rep cmt0 [] /\
  exists rcs cdev' l', db_run ops0 cmt0 = Some (rcs, cdev') /\
    registry_rep cdev' l' /\ reg_steps (dev_bar cmt0) ops0 [] rcs l'.
Proof. split; [exact cmt0_rep|]. apply (db_registry_refines ops0 cmt0 []). exact cmt0_rep. Defined.

Lemma db_execute_rings_registered_witness :
  exists h, hwfns cmt1 !! 1%nat = Some h /\
  (qed_db_recovery_execute (fun _ => 7) (db_recovery_info h) []).2 = reg_write (fun _ => 7) <$> owned (dev_bar cmt1) 1 regs1.
Proof.
  eexists. split; [reflexivity|].
  exact (proj1 (db_execute_rings_registered cmt1 regs1 1 _ (fun _ => 7) cmt1_rep eq_refl)).
Defined.

Lemma db_teardown_frees_all_witness :
  exists cdev', teardown_all (seq 0 (length (hwfns cmt1))) cmt1 = Some cdev' /\
    kz_live cdev' = 0 /\ registry_rep cdev' [].
Proof.
  apply (db_teardown_frees_all cmt1 regs1 cmt1_rep). apply (bool_decide_unpack _). vm_compute. exact I.
Defined.

(** The last doorbell of a BAR is within it, and is refused: [qed_db_rec_sanity]
    adds the width in bits to an address in bytes. *)
Theorem sanity_refuses_last_doorbell :
  let r := mk_registration 0x17ffc 0x900 DB_REC_WIDTH_32B DB_REC_KERNEL in
  legal (dev_bar cmt0) r /\ qed_db_recovery_add cmt0 (r_addr r) (r_data r) (r_width r) (r_space r) = Some (- EINVAL, cmt0).
Proof. split; [do 2 eexists; split; [reflexivity|]; split; vm_compute; [discriminate|split; discriminate]|vm_compute; reflexivity]. Qed.
