(* ===== verification/Dorq.v ===== *)
(** * Doorbell overflow handling (qed_int.c, qed_sriov.c, qed_main.c)

    When the doorbell queue (DORQ) overflows, the chip sets a sticky bit of the
    function and silently drops its doorbells until the driver clears the bit.
    The attention callback notes the overflow and clears the bit in interrupt
    context; a periodic handler later rings the registered doorbells again;
    for virtual functions an I/O virtualisation handler tells the VF, through
    its bulletin board, to do the same.

    The chip is an instance of [DorqDev].  Its accessors may also show what the
    chip does on its own between two accesses: doorbells arrive and are
    dropped, the sticky bits get set.  [DorqLaws] states what the register
    descriptions promise. *)

From S2P Require Import Prelude DbRec.

Definition DORQ_REG_INT_STS : Z := 0x100180.
Definition DORQ_REG_INT_STS_WR : Z := 0x100188.
Definition DORQ_REG_INT_STS_DB_DROP : Z := Z.shiftl 1 1.
Definition DORQ_REG_INT_STS_DORQ_FIFO_OVFL_ERR : Z := Z.shiftl 1 2.
Definition DORQ_REG_INT_STS_DORQ_FIFO_AFULL : Z := Z.shiftl 1 3.
Definition DORQ_REG_PF_USAGE_CNT : Z := 0x1009c0.
Definition DORQ_REG_VF_USAGE_CNT : Z := 0x1009c4.
Definition DORQ_REG_PF_OVFL_STICKY : Z := 0x1009d0.
Definition DORQ_REG_VF_OVFL_STICKY : Z := 0x1009d4.
Definition DORQ_REG_DPM_FORCE_ABORT : Z := 0x1009d8.
Definition DORQ_REG_DB_DROP_DETAILS_ADDRESS : Z := 0x100a1c.
Definition DORQ_REG_DB_DROP_DETAILS_REASON : Z := 0x100a20.
Definition DORQ_REG_DB_DROP_DETAILS : Z := 0x100a24.
Definition DORQ_REG_DB_DROP_DETAILS_REL : Z := 0x100a28.
Definition DORQ_REG_DB_DROP_REASON : Z := 0x100a2c.
Definition QED_DB_REC_COUNT : nat := 1000%nat.
Definition QED_PERIODIC_DB_REC_COUNT : Z := 10.
Definition MAX_NUM_VFS : Z := 192.

(** ** The chip *)

Class DorqDev (D : Type) := {
  dq_rd : Z -> D -> Z * D;              (* qed_rd through the caller's PTT entry *)
  dq_wr : Z -> Z -> D -> D;             (* qed_wr *)
  dq_pretend : Z -> D -> D;             (* qed_fid_pretend *)
  dq_acquire : D -> bool * D;           (* qed_ptt_acquire *)
  dq_release : D -> D;                  (* qed_ptt_release *)
  #[global] dq_bar :: DoorbellBar D;    (* doorbell writes of the PF *)
  dq_fid : D -> Z;                      (* the function the PTT entry acts for *)
  pf_sticky : D -> bool;
  vf_sticky : D -> Z -> bool;           (* by function id *)
  pf_dropped : D -> Z * Z * Z -> Prop;  (* dropped, and not accepted since *)
  vf_dropped : D -> Z -> Prop;          (* a doorbell of the VF was dropped *)
  pf_rings : Z * Z * Z -> Prop          (* doorbells the PF's entities ring *)
}.

(** One access, with what the chip does meanwhile.  A sticky bit is cleared by
    no more than a write to it ([cp]: the PF's, [cv]: a VF's); a doorbell is
    dropped only with a sticky bit set: of a PF its own, of a VF its own or its
    PF's.  A write that clears the bit may hide a drop just before it. *)
Record dq_moves {D} `{DorqDev D} (cp : bool) (cv : option Z) (d d' : D) : Prop := {
  mv_fid : dq_fid d' = dq_fid d;
  mv_pf : cp = false -> pf_sticky d = true -> pf_sticky d' = true;
  mv_vf f : cv <> Some f -> vf_sticky d f = true -> vf_sticky d' f = true;
  mv_drop x : pf_dropped d' x -> pf_dropped d x \/ pf_rings x /\ (cp = true \/ pf_sticky d' = true);
  mv_vdrop f : vf_dropped d' f ->
    vf_dropped d f \/ cp = true \/ cv = Some f \/ vf_sticky d' f = true \/ pf_sticky d' = true
}.

Definition clears (d_fid a v : Z) : bool * option Z :=
  (bool_decide (a = DORQ_REG_PF_OVFL_STICKY /\ v = 0),
   if decide (a = DORQ_REG_VF_OVFL_STICKY /\ v = 0) then Some d_fid else None).

Class DorqLaws (D : Type) `{DorqDev D} (pf : Z) : Prop := {
  law_dq_rd a d : let '(v, d') := dq_rd a d in dq_moves false None d d' /\
    (a = DORQ_REG_PF_OVFL_STICKY -> dq_fid d = pf ->
       (v = 0 -> pf_sticky d = false) /\ (v <> 0 -> pf_sticky d' = true)) /\
    (a = DORQ_REG_VF_OVFL_STICKY ->
       (v = 0 -> vf_sticky d (dq_fid d) = false) /\ (v <> 0 -> vf_sticky d' (dq_fid d) = true));
  law_dq_wr a v d : dq_moves (clears (dq_fid d) a v).1 (clears (dq_fid d) a v).2 d (dq_wr a v d);
  law_dq_pretend f d : dq_fid (dq_pretend f d) = f /\
    exists d1, dq_moves false None d d1 /\ pf_sticky (dq_pretend f d) = pf_sticky d1 /\
      vf_sticky (dq_pretend f d) = vf_sticky d1 /\ pf_dropped (dq_pretend f d) = pf_dropped d1 /\
      vf_dropped (dq_pretend f d) = vf_dropped d1;
  law_dq_acquire d : dq_moves false None d (dq_acquire d).2;
  law_dq_release d : dq_moves false None d (dq_release d);
  law_dq_ring a w v d : dq_moves false None d (direct_reg_wr a w v d) /\
    (pf_dropped (direct_reg_wr a w v d) (a, w, v) -> pf_sticky (direct_reg_wr a w v d) = true)
}.

(** ** Driver state *)

(** The fields of [struct qed_vf_info] used here; the bulletin board's
    [db_recovery_execute] counter is [vf_execute]. *)
Record qed_vf_info := mk_qed_vf_info {
  b_init : bool;
  b_malicious : bool;
  concrete_fid : Z;
  vf_count : Z;
  vf_no_edpm : bool;
  vf_overflow : bool;
  vf_execute : Z
}.
#[export] Instance eta_qed_vf_info : Settable qed_vf_info := fun r =>
  mk_qed_vf_info (b_init r) (b_malicious r) (concrete_fid r) (vf_count r) (vf_no_edpm r) (vf_overflow r) (vf_execute r).

Record qed_pf_iov := mk_qed_pf_iov {
  vfs_array : list qed_vf_info;
  max_db_rec_count : Z;
  max_db_rec_vfid : Z;
  iov_overflow : bool
}.
#[export] Instance eta_qed_pf_iov : Settable qed_pf_iov := fun r =>
  mk_qed_pf_iov (vfs_array r) (max_db_rec_count r) (max_db_rec_vfid r) (iov_overflow r).

(** The fields of [struct qed_hwfn] and [struct qed_dev] used here: the
    scheduled work ([slowpath_active], [periodic_flag]: bits of
    [slowpath_task_flags]; [iov_work], [iov_bulletin]: bits of the IOV work
    queue), [total_vfs] of [cdev->p_iov_info]. *)
Record dq_hwfn := mk_dq_hwfn {
  rec_info : qed_db_recovery_info;
  db_bar_no_edpm : bool;
  rel_pf_id : Z;
  pf_iov_info : option qed_pf_iov;
  total_vfs : option Z;
  recov_in_prog : bool;
  slowpath_active : bool;
  periodic_flag : bool;
  periodic_db_rec_count : Z;
  iov_work : bool;
  iov_bulletin : bool
}.
#[export] Instance eta_dq_hwfn : Settable dq_hwfn := fun r =>
  mk_dq_hwfn (rec_info r) (db_bar_no_edpm r) (rel_pf_id r) (pf_iov_info r) (total_vfs r) (recov_in_prog r)
    (slowpath_active r) (periodic_flag r) (periodic_db_rec_count r) (iov_work r) (iov_bulletin r).

Definition IS_PF_SRIOV_ALLOC (h : dq_hwfn) : bool := match pf_iov_info h with Some _ => true | None => false end.
Definition set_overflow (b : bool) (h : dq_hwfn) : dq_hwfn := h <| rec_info := rec_info h <| overflow := b |> |>.
Definition set_iov_overflow (b : bool) (h : dq_hwfn) : dq_hwfn :=
  h <| pf_iov_info := (fun iov => iov <| iov_overflow := b |>) <$> pf_iov_info h |>.
Definition set_vf (i : nat) (vf : qed_vf_info) (h : dq_hwfn) : dq_hwfn :=
  h <| pf_iov_info := (fun iov => iov <| vfs_array := <[i := vf]> (vfs_array iov) |>) <$> pf_iov_info h |>.

Section Handlers.
Context {D : Type} `{DorqDev D}.

(** The polling loop of [qed_db_rec_flush_queue]. *)
Fixpoint flush_loop (count : nat) (usage reg : Z) (d : D) : nat * Z * D :=
  match count with
  | O => (O, usage, d)
  | S k => if usage =? 0 then (S k, usage, d) else let '(usage, d) := dq_rd reg d in flush_loop k usage reg d
  end.

Definition qed_db_rec_flush_queue (usage_cnt_reg : Z) (count : nat) (d : D) : Z * nat * D :=
  let '(usage, d) := dq_rd usage_cnt_reg d in
  let d := dq_wr DORQ_REG_DPM_FORCE_ABORT 1 d in
  let '(count, usage, d) := flush_loop count usage usage_cnt_reg d in
  if usage =? 0 then (0, count, d) else (- EBUSY, count, d).

(** [qed_db_rec_handler]; [mem] is the memory the entries' data lives in. *)
Definition qed_db_rec_handler (mem : Z -> Z) (h : dq_hwfn) (d : D) : dq_hwfn * D :=
  let attn_ovfl := overflow (rec_info h) in
  let h := set_overflow false h in
  let '(cur, d) := dq_rd DORQ_REG_PF_OVFL_STICKY d in
  let cur_ovfl := negb (cur =? 0) in
  if cur_ovfl || attn_ovfl then
    let '(rc, _, d) := if cur_ovfl && negb (db_bar_no_edpm h)
                       then qed_db_rec_flush_queue DORQ_REG_PF_USAGE_CNT QED_DB_REC_COUNT d
                       else (0, QED_DB_REC_COUNT, d) in
    if negb (rc =? 0) then (h, d) else
    let d := dq_wr DORQ_REG_PF_OVFL_STICKY 0 d in
    let h := if cur_ovfl && IS_PF_SRIOV_ALLOC h then set_iov_overflow true h else h in
    let h := if IS_PF_SRIOV_ALLOC h then h <| iov_work := true |> else h in
    let '(info, d) := qed_db_recovery_execute mem (rec_info h) d in
    (h <| rec_info := info |>, d)
  else
    (if IS_PF_SRIOV_ALLOC h then h <| iov_work := true |> else h, d).

(** [qed_slowpath_delayed_work] for the periodic recovery flag. *)
Definition qed_slowpath_delayed_work (h : dq_hwfn) : Z * dq_hwfn :=
  if negb (slowpath_active h) then (- EINVAL, h) else (0, h <| periodic_flag := true |>).

Definition qed_periodic_db_rec_start (h : dq_hwfn) : dq_hwfn :=
  let h := h <| periodic_db_rec_count := QED_PERIODIC_DB_REC_COUNT |> in
  if periodic_flag h then h else (qed_slowpath_delayed_work h).2.

(** The recovery part of [qed_slowpath_task]; [always] is the module parameter
    [periodic_db_rec]. *)
Definition slowpath_db_rec (always : bool) (mem : Z -> Z) (h : dq_hwfn) (d : D) : dq_hwfn * D :=
  if negb (periodic_flag h) then (h, d) else
  let h := h <| periodic_flag := false |> in
  if recov_in_prog h || negb (slowpath_active h) then (h, d) else
  let '(h, d) := qed_db_rec_handler mem h d in
  let left := negb (periodic_db_rec_count h =? 0) in
  let h := h <| periodic_db_rec_count := u32 (periodic_db_rec_count h - 1) |> in
  (if left then (qed_slowpath_delayed_work h).2 else if always then qed_periodic_db_rec_start h else h, d).

(** ** Virtual functions *)

Definition qed_iov_is_valid_vfid (h : dq_hwfn) (rel_vf_id : Z) (b_enabled_only b_non_malicious : bool) : option bool :=
  match pf_iov_info h with
  | None => Some false
  | Some iov =>
      total ← total_vfs h;
      if (total <=? rel_vf_id) || (rel_vf_id <? 0) then Some false else
      vf ← vfs_array iov !! Z.to_nat rel_vf_id;
      Some (if negb (b_init vf) && b_enabled_only then false
            else if b_malicious vf && b_non_malicious then false else true)
  end.

(** The loop of [qed_iov_get_next_active_vf]; [fuel] bounds the scan by the
    number of VFs left. *)
Fixpoint next_active_loop (fuel : nat) (h : dq_hwfn) (i total : Z) : option Z :=
  match fuel with
  | O => Some MAX_NUM_VFS
  | S fuel =>
      if negb (i <? total) then Some MAX_NUM_VFS else
      ok ← qed_iov_is_valid_vfid h i true false;
      if (ok : bool) then Some i else next_active_loop fuel h (u16 (i + 1)) total
  end.

Definition qed_iov_get_next_active_vf (h : dq_hwfn) (rel_vf_id : Z) : option Z :=
  match total_vfs h with
  | None => Some MAX_NUM_VFS
  | Some total => next_active_loop (Z.to_nat (total - rel_vf_id)) h rel_vf_id total
  end.

(** [qed_for_each_vf]: the body may leave the loop ([false]). *)
Fixpoint for_each_vf {St : Type} (fuel : nat) (body : nat -> dq_hwfn * St -> option (bool * (dq_hwfn * St)))
    (i : Z) (s : dq_hwfn * St) : option (dq_hwfn * St) :=
  match fuel with
  | O => None
  | S fuel =>
      i ← qed_iov_get_next_active_vf s.1 i;
      if negb (i <? MAX_NUM_VFS) then Some s else
      '(go, s) ← body (Z.to_nat i) s;
      if (go : bool) then for_each_vf fuel body (i + 1) s else Some s
  end.

Definition vf_loop_fuel : nat := Z.to_nat (MAX_NUM_VFS + 1).

(** The body of the VF loop of [qed_dorq_attn_overflow]; the state carries the
    flush budget and the chip. *)
Definition attn_vf_body (i : nat) (s : dq_hwfn * (nat * D)) : option (bool * (dq_hwfn * (nat * D))) :=
  let '(h, (count, d)) := s in
  iov ← pf_iov_info h;
  vf ← vfs_array iov !! i;
  let d := dq_pretend (u16 (concrete_fid vf)) d in
  let '(ovfl, d) := dq_rd DORQ_REG_VF_OVFL_STICKY d in
  if ovfl =? 0 then Some (true, (h, (count, d))) else
  let h := set_vf i (vf <| vf_overflow := true |>) h in
  let '(rc, count, d) := if negb (vf_no_edpm vf)
                         then qed_db_rec_flush_queue DORQ_REG_VF_USAGE_CNT count d
                         else (0, count, d) in
  if negb (rc =? 0) then Some (true, (h, (count, d))) else
  Some (true, (h, (count, dq_wr DORQ_REG_VF_OVFL_STICKY 0 d))).

(** The PF branch of [qed_dorq_attn_overflow] in two parts: the overflow is
    noted, then the queue is flushed and the sticky bit released. *)
Definition attn_note (h : dq_hwfn) : dq_hwfn :=
  let h := set_overflow true h in
  if IS_PF_SRIOV_ALLOC h then set_iov_overflow true h else h.

Definition attn_release (h : dq_hwfn) (d : D) : D :=
  let '(rc, _, d) := if negb (db_bar_no_edpm h)
                     then qed_db_rec_flush_queue DORQ_REG_PF_USAGE_CNT QED_DB_REC_COUNT d
                     else (0, QED_DB_REC_COUNT, d) in
  if negb (rc =? 0) then d else dq_wr DORQ_REG_PF_OVFL_STICKY 0 d.

Definition qed_dorq_attn_overflow (h : dq_hwfn) (d : D) : option (dq_hwfn * D) :=
  let '(ovfl, d) := dq_rd DORQ_REG_PF_OVFL_STICKY d in
  '(h, d) ← (if negb (ovfl =? 0) then
       let h := attn_note h in
       Some (h, attn_release h d)
     else
       '(h, (_, d)) ← for_each_vf vf_loop_fuel attn_vf_body 0 (h, (QED_DB_REC_COUNT, d));
       Some (h, dq_pretend (rel_pf_id h) d));
  Some (qed_periodic_db_rec_start h, d).

Definition qed_dorq_attn_int_sts (d : D) : Z * D :=
  let '(int_sts, d) := dq_rd DORQ_REG_INT_STS d in
  if int_sts =? 0xdeadbeaf then (0, d) else
  if Z.land int_sts (not32 DORQ_REG_INT_STS_DORQ_FIFO_AFULL) =? 0 then (0, d) else
  let drops := Z.lor DORQ_REG_INT_STS_DB_DROP DORQ_REG_INT_STS_DORQ_FIFO_OVFL_ERR in
  if negb (Z.land int_sts drops =? 0) then
    let '(_, d) := dq_rd DORQ_REG_DB_DROP_REASON d in
    let '(_, d) := dq_rd DORQ_REG_DB_DROP_DETAILS d in
    let '(_, d) := dq_rd DORQ_REG_DB_DROP_DETAILS_ADDRESS d in
    let '(_, d) := dq_rd DORQ_REG_DB_DROP_DETAILS_REASON d in
    let d := dq_wr DORQ_REG_DB_DROP_DETAILS_REL 0 d in
    let d := dq_wr DORQ_REG_INT_STS_WR drops d in
    if Z.land int_sts (not32 (Z.lor drops DORQ_REG_INT_STS_DORQ_FIFO_AFULL)) =? 0 then (0, d) else (- EINVAL, d)
  else (- EINVAL, d).

Definition set_dorq_attn (b : bool) (h : dq_hwfn) : dq_hwfn := h <| rec_info := rec_info h <| dorq_attn := b |> |>.

Definition qed_dorq_attn_cb (h : dq_hwfn) (d : D) : option (Z * dq_hwfn * D) :=
  if recov_in_prog h then Some (0, h, d) else
  let h := set_dorq_attn true h in
  '(h, d) ← qed_dorq_attn_overflow h d;
  let '(rc, d) := qed_dorq_attn_int_sts d in
  Some (rc, h, d).

Definition qed_dorq_attn_handler (h : dq_hwfn) (d : D) : option (dq_hwfn * D) :=
  if dorq_attn (rec_info h) then Some (set_dorq_attn false h, d) else
  '(_, h, d) ← qed_dorq_attn_cb h d;
  Some (set_dorq_attn false h, d).

Definition vfid_of (fid : Z) : Z := Z.land (Z.shiftr fid 8) 0xFF.

Definition qed_iov_db_rec_stats_update (i : nat) (h : dq_hwfn) : option dq_hwfn :=
  iov ← pf_iov_info h;
  vf ← vfs_array iov !! i;
  let vf := vf <| vf_count := u32 (vf_count vf + 1) |> in
  let h := set_vf i vf h in
  iov ← pf_iov_info h;
  Some (if max_db_rec_count iov <? vf_count vf
        then h <| pf_iov_info := Some (iov <| max_db_rec_count := vf_count vf |>
                                           <| max_db_rec_vfid := vfid_of (concrete_fid vf) |>) |>
        else h).

Definition qed_iov_db_rec_handler_vf (i : nat) (pf_attn_ovfl : bool) (h : dq_hwfn) (count : nat) (d : D)
    : option (dq_hwfn * (nat * D)) :=
  iov ← pf_iov_info h;
  vf ← vfs_array iov !! i;
  let vf_attn_ovfl := vf_overflow vf in
  let h := set_vf i (vf <| vf_overflow := false |>) h in
  let '(cur, d) := dq_rd DORQ_REG_VF_OVFL_STICKY d in
  let vf_cur_ovfl := negb (cur =? 0) in
  if negb vf_cur_ovfl && negb vf_attn_ovfl && negb pf_attn_ovfl then Some (h, (count, d)) else
  let '(rc, count, d) := if vf_cur_ovfl && negb (vf_no_edpm vf)
                         then qed_db_rec_flush_queue DORQ_REG_VF_USAGE_CNT count d
                         else (0, count, d) in
  if negb (rc =? 0) then Some (h, (count, d)) else
  h ← (if vf_cur_ovfl || vf_attn_ovfl then qed_iov_db_rec_stats_update i h else Some h);
  let d := dq_wr DORQ_REG_VF_OVFL_STICKY 0 d in
  iov ← pf_iov_info h;
  vf ← vfs_array iov !! i;
  Some (set_vf i (vf <| vf_execute := u8 (vf_execute vf + 1) |>) h, (count, d)).

(** The body of the VF loop of [qed_iov_db_rec_handler]. *)
Definition iov_vf_body (pf_attn_ovfl : bool) (i : nat) (s : dq_hwfn * (nat * D))
    : option (bool * (dq_hwfn * (nat * D))) :=
  let '(h, (count, d)) := s in
  let '(pf_cur, d) := dq_rd DORQ_REG_PF_OVFL_STICKY d in
  if negb (pf_cur =? 0) then Some (false, (h, (count, d))) else
  iov ← pf_iov_info h;
  vf ← vfs_array iov !! i;
  let d := dq_pretend (u16 (concrete_fid vf)) d in
  '(h, (count, d)) ← qed_iov_db_rec_handler_vf i pf_attn_ovfl h count d;
  Some (true, (h, (count, dq_pretend (rel_pf_id h) d))).

Definition qed_iov_db_rec_handler (h : dq_hwfn) (d : D) : option (Z * dq_hwfn * D) :=
  let '(got, d) := dq_acquire d in
  if negb got then Some (- EAGAIN, h, d) else
  iov ← pf_iov_info h;
  let pf_attn_ovfl := iov_overflow iov in
  let h := set_iov_overflow false h in
  '(h, (_, d)) ← for_each_vf vf_loop_fuel (iov_vf_body pf_attn_ovfl) 0 (h, (QED_DB_REC_COUNT, d));
  Some (0, h <| iov_bulletin := true |>, dq_release d).
End Handlers.

(** ** The VF driver's side (qed_vf.c) *)

(** [qed_vf_db_recovery_execute]: [prev] is [db_recovery_execute_prev], [cur]
    the counter of the bulletin board. *)
Definition qed_vf_db_recovery_execute {D} `{DoorbellBar D} (mem : Z -> Z) (prev cur : Z)
    (info : qed_db_recovery_info) (d : D) : Z * qed_db_recovery_info * D :=
  let '(info, d) := if negb (prev =? cur) then qed_db_recovery_execute mem info d else (info, d) in
  (cur, info, d).
