(* ===== verification/DorqProps.v ===== *)
(** * Properties of the doorbell overflow handling

    First what single accesses keep, then the handlers: the PF's accounting
    invariant, the loop over the VFs and their notification, the steps of the
    whole component, a concrete chip, and two interleavings of the attention
    callback and the periodic handler that lose doorbells. *)

From S2P Require Import Prelude DbRec DbRecProps Dorq.

Section Proofs.
Context {D : Type} `{DL : DorqLaws D pf}.
Implicit Types (d : D) (h : dq_hwfn).

(** ** What accesses keep *)

(** Of the PF: its sticky bit stays set and every new drop is covered by it. *)
Record pf_keeps d d' : Prop := {
  pk_sticky : pf_sticky d = true -> pf_sticky d' = true;
  pk_drop x : pf_dropped d' x -> pf_dropped d x \/ pf_rings x /\ pf_sticky d' = true
}.
(** Of a VF: neither bit that covers it is cleared, and new drops are covered. *)
Record vf_keeps (f : Z) d d' : Prop := {
  vk_sticky : vf_sticky d f = true -> vf_sticky d' f = true;
  vk_pf : pf_sticky d = true -> pf_sticky d' = true;
  vk_drop : vf_dropped d' f -> vf_dropped d f \/ vf_sticky d' f = true \/ pf_sticky d' = true
}.

Lemma pf_keeps_refl d : pf_keeps d d.
Proof. split; auto. Qed.
Lemma pf_keeps_trans d1 d2 d3 : pf_keeps d1 d2 -> pf_keeps d2 d3 -> pf_keeps d1 d3.
Proof.
  intros [A1 A2] [B1 B2]. split; [auto|]. intros x Hx.
  destruct (B2 x Hx) as [Hx2|]; [destruct (A2 x Hx2) as [|[]]|]; auto.
Qed.
Lemma vf_keeps_refl f d : vf_keeps f d d.
Proof. split; auto. Qed.
Lemma vf_keeps_trans f d1 d2 d3 : vf_keeps f d1 d2 -> vf_keeps f d2 d3 -> vf_keeps f d1 d3.
Proof.
  intros [A1 A2 A3] [B1 B2 B3]. split; [auto|auto|]. intros Hx.
  destruct (B3 Hx) as [Hx2|]; [destruct (A3 Hx2) as [|[]]|]; auto.
Qed.

Lemma moves_pf cv d d' : dq_moves false cv d d' -> pf_keeps d d'.
Proof. intros [_ H1 _ H2 _]. split; [auto|]. intros x Hx. destruct (H2 x Hx) as [|[? [|]]]; auto; discriminate. Qed.
Lemma moves_vf f cv d d' : dq_moves false cv d d' -> cv <> Some f -> vf_keeps f d d'.
Proof. intros [_ H1 H2 _ H3] Hc. split; auto. intros Hx. destruct (H3 f Hx) as [|[|[|]]]; auto; discriminate. Qed.
Lemma dq_moves_refl d : dq_moves false None d d.
Proof. split; auto. Qed.

Lemma rd_moves a d : dq_moves false None d (dq_rd a d).2.
Proof. pose proof (law_dq_rd (pf := pf) a d) as L. destruct (dq_rd a d). apply L. Qed.

Lemma wr_moves a v d : a <> DORQ_REG_PF_OVFL_STICKY -> a <> DORQ_REG_VF_OVFL_STICKY -> dq_moves false None d (dq_wr a v d).
Proof.
  intros H1 H2. pose proof (law_dq_wr (pf := pf) a v d) as L. unfold clears in L. simpl in L.
  rewrite bool_decide_false, decide_False in L by tauto. exact L.
Qed.

Lemma vf_sticky_wr d :
  dq_moves false (Some (dq_fid d)) d (dq_wr DORQ_REG_VF_OVFL_STICKY 0 d).
Proof. exact (law_dq_wr (pf := pf) DORQ_REG_VF_OVFL_STICKY 0 d). Qed.

Lemma pf_sticky_wr d x :
  pf_dropped (dq_wr DORQ_REG_PF_OVFL_STICKY 0 d) x -> pf_dropped d x \/ pf_rings x.
Proof.
  pose proof (law_dq_wr (pf := pf) DORQ_REG_PF_OVFL_STICKY 0 d) as [_ _ _ L _]. intros Hx. destruct (L x Hx) as [|[]]; auto.
Qed.

Lemma pretend_keeps f d :
  dq_fid (dq_pretend f d) = f /\ pf_keeps d (dq_pretend f d) /\ (forall g, vf_keeps g d (dq_pretend f d)).
Proof.
  destruct (law_dq_pretend (pf := pf) f d) as (E & d1 & M & E1 & E2 & E3 & E4). split; [exact E|].
  pose proof (moves_pf _ _ _ M) as [P1 P2]. split.
  - split; rewrite ?E1, ?E3; auto.
  - intros g. pose proof (moves_vf g _ _ _ M ltac:(discriminate)) as [V1 V2 V3]. split; rewrite ?E1, ?E2, ?E4; auto.
Qed.

Lemma dq_moves_trans d1 d2 d3 : dq_moves false None d1 d2 -> dq_moves false None d2 d3 -> dq_moves false None d1 d3.
Proof.
  intros M1 M2.
  pose proof (pf_keeps_trans _ _ _ (moves_pf _ _ _ M1) (moves_pf _ _ _ M2)) as [K1 K2].
  assert (V : forall f, vf_keeps f d1 d3) by (intros f; eapply vf_keeps_trans; eapply moves_vf; eauto; discriminate).
  split; auto.
  - rewrite (mv_fid _ _ _ _ M2). apply (mv_fid _ _ _ _ M1).
  - intros f _. apply (V f).
  - intros x Hx. destruct (K2 x Hx) as [|[]]; auto.
  - intros f Hx. destruct (vk_drop _ _ _ (V f) Hx); auto.
Qed.

Lemma flush_loop_moves n usage reg d : dq_moves false None d (flush_loop n usage reg d).2.
Proof.
  revert usage d. induction n as [|n IH]; intros usage d; simpl; [split; auto|].
  destruct (usage =? 0); simpl; [split; auto|].
  pose proof (rd_moves reg d) as M. destruct (dq_rd reg d) as [u d1]. simpl in *. by eapply dq_moves_trans.
Qed.

(** The flush takes at most [count] more reads and clears no sticky bit. *)
Lemma flush_moves reg n d :
  exists rc n' d', qed_db_rec_flush_queue reg n d = (rc, n', d') /\ dq_moves false None d d' /\ (rc = 0 \/ rc = - EBUSY).
Proof.
  unfold qed_db_rec_flush_queue. pose proof (rd_moves reg d) as M. destruct (dq_rd reg d) as [u d1]. simpl in M.
  pose proof (wr_moves DORQ_REG_DPM_FORCE_ABORT 1 d1 ltac:(discriminate) ltac:(discriminate)) as M2.
  pose proof (flush_loop_moves n u reg (dq_wr DORQ_REG_DPM_FORCE_ABORT 1 d1)) as M3.
  destruct (flush_loop _ _ _ _) as [[n' u'] d']. simpl in M3.
  assert (M4 : dq_moves false None d d') by (eapply dq_moves_trans; [exact M|eapply dq_moves_trans; eassumption]).
  destruct (u' =? 0); do 3 eexists; (split; [reflexivity|]; split; [exact M4|auto]).
Qed.

Lemma flush_if_moves (b : bool) reg n d :
  exists rc n' d', (if b then qed_db_rec_flush_queue reg n d else (0, n, d)) = (rc, n', d') /\
    dq_moves false None d d' /\ (b = false -> rc = 0).
Proof.
  destruct b.
  - destruct (flush_moves reg n d) as (rc & n' & d' & E & M & _). exists rc, n', d'. split_and!; [done|done|discriminate].
  - exists 0, n, d. split_and!; [done|split; auto|done].
Qed.

(** ** Recovery of the PF *)

Definition db_writes (mem : Z -> Z) (info : qed_db_recovery_info) : list (Z * Z * Z) :=
  reg_write mem ∘ of_entry <$> db_list info.

Lemma ring_write mem d e :
  qed_db_recovery_ring mem d e =
  direct_reg_wr (reg_write mem (of_entry e)).1.1 (reg_write mem (of_entry e)).1.2 (reg_write mem (of_entry e)).2 d.
Proof. unfold qed_db_recovery_ring, reg_write, db_value. simpl. by destruct (db_width e). Qed.

(** Ringing a list of doorbells leaves of them only dropped ones that the
    sticky bit covers. *)
Lemma ring_all mem es d :
  (forall x, pf_dropped d x -> pf_sticky d = true \/ x ∈ (reg_write mem ∘ of_entry <$> es)) ->
  let d' := fold_left (qed_db_recovery_ring mem) es d in
  dq_moves false None d d' /\ forall x, pf_dropped d' x -> pf_sticky d' = true.
Proof.
  revert d. induction es as [|e es IH]; intros d Hd; simpl.
  - split; [split; auto|]. intros x Hx. destruct (Hd x Hx) as [|Hin]; [done|]. inversion Hin.
  - destruct (reg_write mem (of_entry e)) as [[a w] v] eqn:E.
    destruct (law_dq_ring (pf := pf) a w v d) as [M Hr].
    assert (Er : qed_db_recovery_ring mem d e = direct_reg_wr a w v d) by by rewrite ring_write, E.
    rewrite Er. destruct (IH (direct_reg_wr a w v d)) as [M2 H2].
    + intros x Hx. pose proof (moves_pf _ _ _ M) as [K1 K2]. destruct (K2 x Hx) as [Hx1|[]]; [|by left].
      destruct (Hd x Hx1) as [|Hin]; [by left; apply K1|].
      apply elem_of_cons in Hin as [->|Hin]; [|by right]. left. unfold compose in Hx. rewrite E in Hx. by apply Hr.
    + split; [by eapply dq_moves_trans|exact H2].
Qed.

(** Only doorbells of the PF's entities get dropped, and the handler acts for
    the PF. *)
Record pf_sane d : Prop := {
  ps_fid : dq_fid d = pf;
  ps_rings x : pf_dropped d x -> pf_rings x
}.

(** The sticky bit accounts for every dropped doorbell. *)
Definition covered d : Prop := forall x, pf_dropped d x -> pf_sticky d = true.

Lemma sane_moves cp cv d d' : dq_moves cp cv d d' -> pf_sane d -> pf_sane d'.
Proof.
  intros [E _ _ Hd _] [Hf Hr]. split; [congruence|]. intros x Hx. destruct (Hd x Hx) as [|[]]; auto.
Qed.

Lemma pf_sticky_read d :
  pf_sane d -> let '(v, d') := dq_rd DORQ_REG_PF_OVFL_STICKY d in
  dq_moves false None d d' /\ pf_sane d' /\ (v = 0 -> pf_sticky d = false) /\ (v <> 0 -> pf_sticky d' = true).
Proof.
  intros Hs. pose proof (law_dq_rd (pf := pf) DORQ_REG_PF_OVFL_STICKY d) as L.
  destruct (dq_rd _ d) as [v d']. destruct L as (M & L & _). destruct (L eq_refl (ps_fid _ Hs)).
  split_and!; [done|by eapply sane_moves|done|done].
Qed.

Definition same_registry h h' : Prop := db_list (rec_info h') = db_list (rec_info h).

Lemma execute_covers mem info d :
  pf_sane d -> (forall x, pf_rings x -> x ∈ db_writes mem info) ->
  pf_sane (qed_db_recovery_execute mem info d).2 /\ covered (qed_db_recovery_execute mem info d).2.
Proof.
  intros Hs Hr. unfold qed_db_recovery_execute. simpl.
  destruct (ring_all mem (db_list info) d) as [M Hc].
  - intros x Hx. right. apply Hr, Hs, Hx.
  - split; [by eapply sane_moves|exact Hc].
Qed.

(** The handler, whatever the chip does meanwhile: afterwards only doorbells
    that the sticky bit covers are missing. *)
Lemma handler_spec mem h d :
  pf_sane d -> (forall x, pf_rings x -> x ∈ db_writes mem (rec_info h)) ->
  (forall x, pf_dropped d x -> pf_sticky d = true \/ overflow (rec_info h) = true) ->
  let '(h', d') := qed_db_rec_handler mem h d in
  pf_sane d' /\ covered d' /\ same_registry h h' /\ overflow (rec_info h') = false /\
  recov_in_prog h' = recov_in_prog h /\ slowpath_active h' = slowpath_active h.
Proof.
  intros Hs Hr Ha. unfold qed_db_rec_handler.
  pose proof (pf_sticky_read d Hs) as L. destruct (dq_rd DORQ_REG_PF_OVFL_STICKY d) as [cur d1].
  destruct L as (M & Hs1 & L0 & L1). pose proof (moves_pf _ _ _ M) as K.
  destruct (negb (cur =? 0) || overflow (rec_info h)) eqn:Eo.
  2: { apply orb_false_elim in Eo as [E1 E2]. zbool.
       split; [done|]. split; [|by destruct (IS_PF_SRIOV_ALLOC _)].
       intros x Hx. destruct (pk_drop _ _ K x Hx) as [Hx0|[]]; [|done].
       destruct (Ha x Hx0) as [Hst|]; [rewrite (L0 E1) in Hst; discriminate|congruence]. }
  match goal with |- context [if ?b then qed_db_rec_flush_queue ?r ?n d1 else _] =>
    destruct (flush_if_moves b r n d1) as (rc & n' & d2 & -> & M2 & Hrc) end.
  destruct (negb (rc =? 0)) eqn:Ec.
  - zbool. assert (Hcur : pf_sticky d1 = true).
    { apply L1. intros ->. apply Ec, Hrc. reflexivity. }
    split; [by eapply sane_moves|]. split; [|done].
    intros x _. by apply (pk_sticky _ _ (moves_pf _ _ _ M2)).
  - assert (Hs3 : pf_sane (dq_wr DORQ_REG_PF_OVFL_STICKY 0 d2)).
    { eapply sane_moves; [apply law_dq_wr|]. by eapply sane_moves. }
    match goal with |- context [qed_db_recovery_execute mem (rec_info ?h2) ?d3] =>
      assert (Eh : rec_info h2 = rec_info h <| overflow := false |> /\ recov_in_prog h2 = recov_in_prog h /\
                   slowpath_active h2 = slowpath_active h)
        by (destruct (IS_PF_SRIOV_ALLOC (set_overflow false h)), (negb (cur =? 0)); simpl;
            try destruct (IS_PF_SRIOV_ALLOC _); done);
      set (hh := h2) in *; destruct Eh as (Eh & E1 & E2); rewrite Eh end.
    match goal with |- context [qed_db_recovery_execute mem ?info ?d3] =>
      destruct (execute_covers mem info d3 Hs3 Hr) as [Hs4 Hc4] end.
    unfold qed_db_recovery_execute in *. simpl in *. done.
Qed.

(** ** The VF loops *)

Definition wf_vfs h : Prop := forall t, total_vfs h = Some t ->
  0 <= t <= MAX_NUM_VFS /\ forall iov, pf_iov_info h = Some iov -> t <= Z.of_nat (length (vfs_array iov)).

Definition active h (i : Z) (vf : qed_vf_info) : Prop :=
  exists iov t, pf_iov_info h = Some iov /\ total_vfs h = Some t /\ 0 <= i < t /\
    vfs_array iov !! Z.to_nat i = Some vf /\ b_init vf = true.

Lemma valid_vfid_spec h i t :
  wf_vfs h -> total_vfs h = Some t -> 0 <= i < t ->
  exists b, qed_iov_is_valid_vfid h i true false = Some b /\ (b = true <-> exists vf, active h i vf).
Proof.
  intros Hw Et Hi. unfold qed_iov_is_valid_vfid. destruct (pf_iov_info h) as [iov|] eqn:Ei.
  2: { exists false. split; [done|]. split; [done|]. intros (vf & iov & t' & E & _). congruence. }
  rewrite Et. simpl. replace ((t <=? i) || (i <? 0)) with false by lia.
  destruct (Hw t Et) as [_ Hl]. specialize (Hl iov Ei). destruct (lookup_lt_is_Some_2 (vfs_array iov) (Z.to_nat i)) as [vf Ev]; [lia|].
  rewrite Ev. simpl. eexists. split; [reflexivity|]. rewrite andb_false_r, andb_true_r. split.
  - intros Hb. exists vf, iov, t. destruct (b_init vf) eqn:?; [done|discriminate].
  - intros (vf' & iov' & t' & E1 & E2 & _ & E3 & E4). rewrite Ei in E1. injection E1 as <-. rewrite Ev in E3. injection E3 as <-.
    by rewrite E4.
Qed.

Lemma next_active_loop_spec h t n i :
  wf_vfs h -> total_vfs h = Some t -> t <= MAX_NUM_VFS -> 0 <= i -> n = Z.to_nat (t - i) ->
  exists j, next_active_loop n h i t = Some j /\
    (j = MAX_NUM_VFS /\ (forall k vf, i <= k -> ~ active h k vf) \/
     i <= j < t /\ (exists vf, active h j vf) /\ (forall k vf, i <= k < j -> ~ active h k vf)).
Proof.
  intros Hw Et Ht. assert (HM : MAX_NUM_VFS = 192) by reflexivity.
  revert i. induction n as [|n IH]; intros i Hi Hn; simpl.
  - exists MAX_NUM_VFS. split; [done|]. left. split; [done|].
    intros k vf Hk (iov & t' & _ & E & Hr & _). rewrite Et in E. injection E as <-. lia.
  - replace (i <? t) with true by lia. simpl.
    destruct (valid_vfid_spec h i t Hw Et ltac:(lia)) as (b & -> & Hb). simpl. destruct b.
    + exists i. split; [done|]. right. split; [lia|]. split; [by apply Hb|]. intros k vf Hk. lia.
    + replace (u16 (i + 1)) with (i + 1) by (symmetry; apply u16_small; lia).
      destruct (IH (i + 1) ltac:(lia) ltac:(lia)) as (j & -> & Hj). exists j. split; [done|].
      assert (Hno : forall vf, ~ active h i vf). { intros vf Ha. assert (false = true) by (apply Hb; eauto). discriminate. }
      destruct Hj as [[-> Hj]|(Hr & Hv & Hj)]; [left|right]; (split; [done||lia|]).
      * intros k vf Hk. destruct (decide (k = i)) as [->|]; [apply Hno|apply Hj; lia].
      * split; [done|]. intros k vf Hk. destruct (decide (k = i)) as [->|]; [apply Hno|apply Hj; lia].
Qed.

Lemma next_active_spec h i :
  wf_vfs h -> 0 <= i ->
  exists j, qed_iov_get_next_active_vf h i = Some j /\
    (j = MAX_NUM_VFS /\ (forall k vf, i <= k -> ~ active h k vf) \/
     i <= j < MAX_NUM_VFS /\ (exists vf, active h j vf) /\ (forall k vf, i <= k < j -> ~ active h k vf)).
Proof.
  intros Hw Hi. unfold qed_iov_get_next_active_vf. destruct (total_vfs h) as [t|] eqn:Et.
  2: { exists MAX_NUM_VFS. split; [done|]. left. split; [done|]. intros k vf _ (iov & t & _ & E & _). congruence. }
  destruct (Hw t Et) as [Ht _].
  destruct (next_active_loop_spec h t _ i Hw Et ltac:(lia) Hi eq_refl) as (j & -> & Hj).
  exists j. split; [done|]. destruct Hj as [|(? & ? & ?)]; [by left|right]. split_and!; [lia|lia|done|done].
Qed.

(** Rule for [qed_for_each_vf]: [P i] holds before the VFs from [i] on are
    visited; the body runs on each active VF and may leave the loop. *)
Lemma for_each_vf_rule {St : Type} (P : Z -> dq_hwfn * St -> Prop) (Q : dq_hwfn * St -> Prop)
    (body : nat -> dq_hwfn * St -> option (bool * (dq_hwfn * St))) :
  (forall i s, P i s -> wf_vfs s.1) ->
  (forall i j s vf, P i s -> 0 <= i <= j -> j < MAX_NUM_VFS -> active s.1 j vf ->
     (forall k vf, i <= k < j -> ~ active s.1 k vf) ->
     exists go s', body (Z.to_nat j) s = Some (go, s') /\ if go : bool then P (j + 1) s' else Q s') ->
  (forall i s, P i s -> (forall k vf, i <= k -> ~ active s.1 k vf) -> Q s) ->
  forall n i s, P i s -> 0 <= i <= MAX_NUM_VFS -> (Z.to_nat (MAX_NUM_VFS - i) < n)%nat ->
  exists s', for_each_vf n body i s = Some s' /\ Q s'.
Proof.
  intros Hwf Hbody Hend. assert (HM : MAX_NUM_VFS = 192) by reflexivity.
  induction n as [|n IH]; intros i s HP Hi Hn; [lia|]. cbn [for_each_vf].
  destruct (next_active_spec s.1 i (Hwf _ _ HP) ltac:(lia)) as (j & -> & Hj). cbn [mbind option_bind].
  destruct Hj as [[-> Hno]|(Hj & (vf & Ha) & Hno)].
  - rewrite Z.ltb_irrefl. cbn. exists s. split; [done|]. by eapply Hend.
  - replace (j <? MAX_NUM_VFS) with true by lia. cbn [negb].
    destruct (Hbody i j s vf HP ltac:(lia) ltac:(lia) Ha Hno) as (go & s' & -> & Hgo). cbn [mbind option_bind].
    destruct go; [|by exists s']. apply IH; [done|lia|lia].
Qed.

(** ** The callbacks keep overflows accounted for *)

(** The whole invariant: the VF table is in order, and every dropped doorbell
    is remembered by the sticky bit or by the noted overflow; a noted overflow
    has the periodic handler scheduled, unless the driver is being recovered
    or unloaded. *)
Record dorq_inv (mem : Z -> Z) h d : Prop := {
  di_vfs : wf_vfs h;
  di_fid : rel_pf_id h = pf;
  di_sane : pf_sane d;
  di_registered x : pf_rings x -> x ∈ db_writes mem (rec_info h);
  di_account x : pf_dropped d x -> pf_sticky d = true \/ overflow (rec_info h) = true;
  di_scheduled : overflow (rec_info h) = true -> recov_in_prog h = false -> slowpath_active h = true ->
    periodic_flag h = true
}.

(** Changes that touch neither the registry nor the noted overflow of the PF. *)
Record quiet h h' : Prop := {
  q_info : rec_info h' = rec_info h;
  q_fid : rel_pf_id h' = rel_pf_id h;
  q_total : total_vfs h' = total_vfs h;
  q_vfs : (length ∘ vfs_array <$> pf_iov_info h') = (length ∘ vfs_array <$> pf_iov_info h);
  q_recov : recov_in_prog h' = recov_in_prog h;
  q_active : slowpath_active h' = slowpath_active h;
  q_periodic : periodic_flag h' = periodic_flag h
}.

Lemma quiet_refl h : quiet h h.
Proof. by split. Qed.
Lemma quiet_trans h1 h2 h3 : quiet h1 h2 -> quiet h2 h3 -> quiet h1 h3.
Proof. intros [] []. split; congruence. Qed.

Lemma set_vf_quiet i vf h : quiet h (set_vf i vf h).
Proof.
  split; try done. unfold set_vf. simpl. destruct (pf_iov_info h); simpl; [|done]. unfold compose. simpl. by rewrite length_insert.
Qed.
Lemma set_iov_overflow_quiet b h : quiet h (set_iov_overflow b h).
Proof. split; try done. unfold set_iov_overflow. simpl. by destruct (pf_iov_info h). Qed.

Lemma wf_vfs_frame h h' : total_vfs h' = total_vfs h ->
  (length ∘ vfs_array <$> pf_iov_info h') = (length ∘ vfs_array <$> pf_iov_info h) -> wf_vfs h -> wf_vfs h'.
Proof.
  intros E2 E3 Hw t Et. rewrite E2 in Et. destruct (Hw t Et) as [Ht Hl]. split; [done|]. intros iov' Ei. rewrite Ei in E3.
  destruct (pf_iov_info h) as [iov|]; [|discriminate]. injection E3 as E3. specialize (Hl iov eq_refl). unfold compose in E3. lia.
Qed.
Lemma quiet_wf h h' : quiet h h' -> wf_vfs h -> wf_vfs h'.
Proof. intros []. by apply wf_vfs_frame. Qed.

Lemma quiet_inv mem h h' d d' :
  quiet h h' -> pf_keeps d d' -> dq_fid d' = pf -> dorq_inv mem h d -> dorq_inv mem h' d'.
Proof.
  intros Q K Hf [I1 I2 [_ I3] I4 I5 I6]. split.
  - by eapply quiet_wf.
  - by rewrite (q_fid _ _ Q).
  - split; [done|]. intros x Hx. destruct (pk_drop _ _ K x Hx) as [|[]]; auto.
  - rewrite (q_info _ _ Q). exact I4.
  - intros x Hx. rewrite (q_info _ _ Q). destruct (pk_drop _ _ K x Hx) as [Hx0|[_ ?]]; [|by left].
    destruct (I5 x Hx0); [left; by apply (pk_sticky _ _ K)|by right].
  - rewrite (q_info _ _ Q), (q_recov _ _ Q), (q_active _ _ Q), (q_periodic _ _ Q). exact I6.
Qed.

Lemma active_entry h j vf : active h j vf -> exists iov, pf_iov_info h = Some iov /\ vfs_array iov !! Z.to_nat j = Some vf.
Proof. intros (iov & t & E & _ & _ & El & _). eauto. Qed.

(** One VF in the attention callback. *)
Lemma attn_vf_spec j vf h count d :
  active h j vf ->
  exists h' count' d', attn_vf_body (Z.to_nat j) (h, (count, d)) = Some (true, (h', (count', d'))) /\
    quiet h h' /\ pf_keeps d d'.
Proof.
  intros Ha. destruct (active_entry h j vf Ha) as (iov & Ei & Ev).
  unfold attn_vf_body. rewrite Ei. cbn [mbind option_bind]. rewrite Ev. cbn [mbind option_bind].
  destruct (pretend_keeps (u16 (concrete_fid vf)) d) as (_ & K1 & _). set (d1 := dq_pretend _ d) in *.
  pose proof (moves_pf _ _ _ (rd_moves DORQ_REG_VF_OVFL_STICKY d1)) as K2.
  destruct (dq_rd DORQ_REG_VF_OVFL_STICKY d1) as [v d2]. simpl in K2.
  pose proof (pf_keeps_trans _ _ _ K1 K2) as K.
  destruct (v =? 0); [by do 3 eexists; split; [reflexivity|split; [apply quiet_refl|]]|].
  match goal with |- context [if ?b then qed_db_rec_flush_queue ?r ?n d2 else _] =>
    destruct (flush_if_moves b r n d2) as (rc & n' & d3 & -> & M3 & _) end.
  pose proof (pf_keeps_trans _ _ _ K (moves_pf _ _ _ M3)) as K3.
  destruct (negb (rc =? 0)); do 3 eexists; (split; [reflexivity|]; split; [apply set_vf_quiet|]); [done|].
  eapply pf_keeps_trans; [exact K3|]. eapply moves_pf, vf_sticky_wr.
Qed.

Lemma periodic_start_spec h :
  rec_info (qed_periodic_db_rec_start h) = rec_info h /\ rel_pf_id (qed_periodic_db_rec_start h) = rel_pf_id h /\
  pf_iov_info (qed_periodic_db_rec_start h) = pf_iov_info h /\ total_vfs (qed_periodic_db_rec_start h) = total_vfs h /\
  recov_in_prog (qed_periodic_db_rec_start h) = recov_in_prog h /\
  slowpath_active (qed_periodic_db_rec_start h) = slowpath_active h /\
  (slowpath_active h = true -> periodic_flag (qed_periodic_db_rec_start h) = true).
Proof.
  unfold qed_periodic_db_rec_start, qed_slowpath_delayed_work. simpl. destruct (periodic_flag h) eqn:Ep; simpl; [by rewrite Ep|].
  destruct (slowpath_active h) eqn:Es; simpl; by rewrite ?Es.
Qed.

(** Everything but the overflow bits and the schedule stays; the accounting of
    the PF holds afterwards and the periodic handler is scheduled. *)
Lemma attn_overflow_spec mem h d :
  dorq_inv mem h d ->
  exists h' d', qed_dorq_attn_overflow h d = Some (h', d') /\ dorq_inv mem h' d' /\
    (slowpath_active h = true -> periodic_flag h' = true).
Proof.
  intros I. unfold qed_dorq_attn_overflow.
  pose proof (pf_sticky_read d (di_sane _ _ _ I)) as L. destruct (dq_rd DORQ_REG_PF_OVFL_STICKY d) as [v d1].
  destruct L as (M & Hs & _ & L1). destruct (negb (v =? 0)) eqn:Ev; zbool.
  - cbn [mbind option_bind]. specialize (L1 Ev).
    destruct (periodic_start_spec (attn_note h)) as (E1 & E2 & E3 & E4 & E5 & E6 & E7).
    assert (Q : rec_info (attn_note h) = rec_info h <| overflow := true |> /\ rel_pf_id (attn_note h) = rel_pf_id h /\
      wf_vfs (attn_note h) /\ slowpath_active (attn_note h) = slowpath_active h).
    { unfold attn_note. destruct (IS_PF_SRIOV_ALLOC _); split_and!; try done; [|apply (di_vfs _ _ _ I)].
      eapply quiet_wf; [apply set_iov_overflow_quiet|]. apply (di_vfs _ _ _ I). }
    destruct Q as (Q1 & Q2 & Q3 & Q4).
    do 2 eexists. split; [reflexivity|]. split; [|intros Ha; apply E7; congruence]. split.
    + intros t. rewrite E4, E3. apply Q3.
    + rewrite E2, Q2. apply (di_fid _ _ _ I).
    + unfold attn_release.
      match goal with |- context [if ?b then qed_db_rec_flush_queue ?r ?n d1 else _] =>
        destruct (flush_if_moves b r n d1) as (rc & n' & d2 & -> & M2 & _) end.
      destruct (negb (rc =? 0)); [by eapply sane_moves|].
      eapply sane_moves; [apply law_dq_wr|by eapply sane_moves].
    + unfold db_writes. rewrite E1, Q1. apply (di_registered _ _ _ I).
    + intros x _. right. by rewrite E1, Q1.
    + intros _ _ Ha. apply E7. congruence.
  - assert (I1 : dorq_inv mem h d1).
    { eapply quiet_inv; [apply quiet_refl|eapply moves_pf, M|apply Hs|exact I]. }
    destruct (for_each_vf_rule
      (fun _ s => wf_vfs s.1 /\ quiet h s.1 /\ pf_keeps d1 s.2.2)
      (fun s => quiet h s.1 /\ pf_keeps d1 s.2.2) attn_vf_body) with (n := vf_loop_fuel) (i := 0)
      (s := (h, (QED_DB_REC_COUNT, d1))) as ([h2 [c2 d2]] & -> & Q2 & K2).
    + intros i s Hp. apply Hp.
    + intros i j [h1 [c1 e1]] vf (Hw & Hq & Hk) _ _ Ha _. cbn [fst snd] in *.
      destruct (attn_vf_spec j vf h1 c1 e1 Ha) as (h2 & c2 & e2 & -> & Q & K). do 2 eexists. split; [reflexivity|]. simpl.
      split_and!; [by eapply quiet_wf|by eapply quiet_trans|by eapply pf_keeps_trans].
    + intros i s (_ & Hq & Hk) _. done.
    + simpl. split_and!; [apply (di_vfs _ _ _ I)|apply quiet_refl|apply pf_keeps_refl].
    + change MAX_NUM_VFS with 192. lia.
    + apply Nat.ltb_lt. reflexivity.
    + simpl in Q2, K2. cbn [mbind option_bind].
      destruct (pretend_keeps (rel_pf_id h2) d2) as (Ef & Kp & _).
      destruct (periodic_start_spec h2) as (E1 & E2 & E3 & E4 & E5 & E6 & E7).
      assert (I2 : dorq_inv mem h2 (dq_pretend (rel_pf_id h2) d2)).
      { apply (quiet_inv mem h h2 d1); [exact Q2|exact (pf_keeps_trans _ _ _ K2 Kp)|rewrite Ef, (q_fid _ _ Q2); apply (di_fid _ _ _ I)|exact I1]. }
      do 2 eexists. split; [reflexivity|].
      split; [|intros Ha; apply E7; rewrite (q_active _ _ Q2); exact Ha].
      destruct I2 as [J1 J2 J3 J4 J5 J6]. split.
      * intros t. rewrite E4, E3. apply J1.
      * by rewrite E2.
      * done.
      * unfold db_writes. rewrite E1. exact J4.
      * rewrite E1. exact J5.
      * rewrite E1, E5, E6. intros _ _ Ha. by apply E7.
Qed.

Lemma int_sts_moves d : dq_moves false None d (qed_dorq_attn_int_sts d).2.
Proof.
  unfold qed_dorq_attn_int_sts.
  pose proof (rd_moves DORQ_REG_INT_STS d) as M. destruct (dq_rd DORQ_REG_INT_STS d) as [s d1]. simpl in M.
  destruct (s =? _); [exact M|]. destruct (_ =? 0); [exact M|]. destruct (negb _); [|exact M].
  repeat match goal with
    | Hm : dq_moves false None d ?e |- context [dq_rd ?a ?e] =>
        apply (fun K => dq_moves_trans _ _ _ K (rd_moves a e)) in Hm; destruct (dq_rd a e); cbn [snd] in Hm
    end.
  match goal with |- context [dq_wr ?a2 ?v2 (dq_wr ?a1 ?v1 ?e)] =>
    pose proof (wr_moves a1 v1 e ltac:(discriminate) ltac:(discriminate)) as M1;
    pose proof (wr_moves a2 v2 (dq_wr a1 v1 e) ltac:(discriminate) ltac:(discriminate)) as M2 end.
  pose proof (dq_moves_trans _ _ _ M (dq_moves_trans _ _ _ M1 M2)) as M3. destruct (_ =? 0); exact M3.
Qed.

Lemma set_dorq_attn_inv mem b h d : dorq_inv mem h d -> dorq_inv mem (set_dorq_attn b h) d.
Proof. intros [I1 I2 I3 I4 I5 I6]. by split. Qed.

Lemma attn_cb_spec mem h d :
  dorq_inv mem h d -> exists rc h' d', qed_dorq_attn_cb h d = Some (rc, h', d') /\ dorq_inv mem h' d' /\
    (recov_in_prog h = false -> slowpath_active h = true -> periodic_flag h' = true).
Proof.
  intros I. unfold qed_dorq_attn_cb. destruct (recov_in_prog h); [by do 3 eexists|].
  destruct (attn_overflow_spec mem _ d (set_dorq_attn_inv mem true h d I)) as (h1 & d1 & -> & I1 & Hp). simpl.
  pose proof (int_sts_moves d1) as M. destruct (qed_dorq_attn_int_sts d1) as [rc d2]. simpl in M.
  do 3 eexists. split; [reflexivity|]. split; [|intros _; exact Hp].
  eapply quiet_inv; [apply quiet_refl|by eapply moves_pf| |exact I1].
  rewrite (mv_fid _ _ _ _ M). apply (di_sane _ _ _ I1).
Qed.

Lemma attn_handler_spec mem h d :
  dorq_inv mem h d -> exists h' d', qed_dorq_attn_handler h d = Some (h', d') /\ dorq_inv mem h' d'.
Proof.
  intros I. unfold qed_dorq_attn_handler. destruct (dorq_attn (rec_info h)).
  - do 2 eexists. split; [reflexivity|]. by apply set_dorq_attn_inv.
  - destruct (attn_cb_spec mem h d I) as (rc & h1 & d1 & -> & I1 & _). simpl. do 2 eexists. split; [reflexivity|].
    by apply set_dorq_attn_inv.
Qed.

(** ** Recovery of the VFs *)

Definition vf_fid (vf : qed_vf_info) : Z := u16 (concrete_fid vf).

(** A dropped doorbell of the VF is remembered: by a sticky bit, by the VF's
    noted overflow or by that of its PF ([b]). *)
Definition vf_pending (b : bool) (vf : qed_vf_info) d : Prop :=
  vf_dropped d (vf_fid vf) ->
  vf_sticky d (vf_fid vf) = true \/ pf_sticky d = true \/ vf_overflow vf = true \/ b = true.
(** It is still covered by a sticky bit, or the VF has been told to recover. *)
Definition vf_settled (vf0 vf : qed_vf_info) d : Prop :=
  vf_dropped d (vf_fid vf0) ->
  vf_sticky d (vf_fid vf0) = true \/ pf_sticky d = true \/ vf_execute vf = u8 (vf_execute vf0 + 1).

Lemma pending_keeps b vf d d' : vf_keeps (vf_fid vf) d d' -> vf_pending b vf d -> vf_pending b vf d'.
Proof. intros [K1 K2 K3] Hp Hx. destruct (K3 Hx) as [Hx0|[]]; [destruct (Hp Hx0) as [|[|]]|..]; auto. Qed.
Lemma settled_keeps vf0 vf d d' : vf_keeps (vf_fid vf0) d d' -> vf_settled vf0 vf d -> vf_settled vf0 vf d'.
Proof. intros [K1 K2 K3] Hp Hx. destruct (K3 Hx) as [Hx0|[]]; [destruct (Hp Hx0) as [|[|]]|..]; auto. Qed.

(** The VF table of [h'] is that of [h] with entry [i] replaced. *)
Definition vf_replaced (i : nat) (vf' : qed_vf_info) (iov : qed_pf_iov) h' : Prop :=
  exists iov', pf_iov_info h' = Some iov' /\ vfs_array iov' = <[i := vf']> (vfs_array iov) /\
    iov_overflow iov' = iov_overflow iov.

Lemma set_vf_replaced i vf h iov : pf_iov_info h = Some iov -> vf_replaced i vf iov (set_vf i vf h).
Proof. intros E. unfold vf_replaced, set_vf. simpl. rewrite E. simpl. by eexists. Qed.

Lemma vf_replaced_at i vf iov h : (i < length (vfs_array iov))%nat -> vf_replaced i vf iov h ->
  exists iov', pf_iov_info h = Some iov' /\ vfs_array iov' !! i = Some vf.
Proof. intros Hi (iov' & E & Ea & _). exists iov'. split; [done|]. by rewrite Ea, list_lookup_insert_eq. Qed.

Lemma vf_replaced_again i vf vf' iov h : vf_replaced i vf iov h -> vf_replaced i vf' iov (set_vf i vf' h).
Proof.
  intros (iov' & E & Ea & Eo). unfold vf_replaced, set_vf. simpl. rewrite E. simpl. eexists. split; [done|]. simpl.
  split; [|done]. by rewrite Ea, list_insert_insert_eq.
Qed.

Lemma stats_update_spec i h iov vf :
  (i < length (vfs_array iov))%nat -> vf_replaced i vf iov h ->
  exists h', qed_iov_db_rec_stats_update i h = Some h' /\ quiet h h' /\
    vf_replaced i (vf <| vf_count := u32 (vf_count vf + 1) |>) iov h'.
Proof.
  intros Hi Hr. unfold qed_iov_db_rec_stats_update.
  destruct (vf_replaced_at _ _ _ _ Hi Hr) as (iov' & -> & E2). cbn [mbind option_bind]. rewrite E2. cbn [mbind option_bind].
  set (vf1 := vf <| vf_count := u32 (vf_count vf + 1) |>).
  pose proof (vf_replaced_again i vf vf1 iov h Hr) as Hr1. pose proof (set_vf_quiet i vf1 h) as Q.
  destruct Hr1 as (iov1 & F1 & F2 & F3). rewrite F1. cbn [mbind option_bind].
  eexists. split; [reflexivity|]. destruct (_ <? _).
  - split; [|eexists; split; [reflexivity|done]]. destruct Q as [Q1 Q2 Q3 Q4 Q5 Q6 Q7]. split; try done.
    rewrite <- Q4, F1. reflexivity.
  - split; [done|]. by exists iov1.
Qed.

Lemma vf_sticky_read d :
  let '(v, d') := dq_rd DORQ_REG_VF_OVFL_STICKY d in
  dq_moves false None d d' /\ (v = 0 -> vf_sticky d (dq_fid d) = false) /\ (v <> 0 -> vf_sticky d' (dq_fid d) = true).
Proof.
  pose proof (law_dq_rd (pf := pf) DORQ_REG_VF_OVFL_STICKY d) as L. destruct (dq_rd _ d) as [v d'].
  destruct L as (M & _ & L). by destruct (L eq_refl).
Qed.

(** [qed_iov_db_rec_handler_vf] on an entry: no other VF is affected, and what
    was pending is settled. *)
Lemma handler_vf_spec i b h iov vf count d :
  pf_iov_info h = Some iov -> vfs_array iov !! i = Some vf -> dq_fid d = vf_fid vf ->
  exists h' count' d' vf', qed_iov_db_rec_handler_vf i b h count d = Some (h', (count', d')) /\
    quiet h h' /\ pf_keeps d d' /\ (forall g, g <> vf_fid vf -> vf_keeps g d d') /\
    vf_replaced i vf' iov h' /\ concrete_fid vf' = concrete_fid vf /\ b_init vf' = b_init vf /\
    (vf_pending b vf d -> vf_settled vf vf' d').
Proof.
  intros Ei Ev Ef. assert (Hi : (i < length (vfs_array iov))%nat) by by eapply lookup_lt_Some.
  unfold qed_iov_db_rec_handler_vf. rewrite Ei. cbn [mbind option_bind]. rewrite Ev. cbn [mbind option_bind].
  set (vf1 := vf <| vf_overflow := false |>). set (h1 := set_vf i vf1 h).
  assert (Hr1 : vf_replaced i vf1 iov h1) by by apply set_vf_replaced.
  assert (Q1 : quiet h h1) by apply set_vf_quiet.
  pose proof (vf_sticky_read d) as L. destruct (dq_rd DORQ_REG_VF_OVFL_STICKY d) as [cur d1]. destruct L as (M1 & L0 & L1).
  rewrite Ef in L0, L1.
  destruct (negb (negb (cur =? 0)) && negb (vf_overflow vf) && negb b) eqn:Eq.
  { do 4 eexists. split; [reflexivity|]. split_and!; [exact Q1|by eapply moves_pf|
      intros g _; eapply moves_vf; [exact M1|done]|exact Hr1|done|done|].
    intros Hp. apply andb_prop in Eq as [[E1 E2]%andb_prop E3]. zbool.
    assert (K : vf_keeps (vf_fid vf) d d1) by (eapply moves_vf; [exact M1|done]).
    intros Hx. destruct (vk_drop _ _ _ K Hx) as [Hx0|[|]]; auto.
    destruct (Hp Hx0) as [Hs|[Hs|[Hs|Hs]]]; [rewrite (L0 E1) in Hs; discriminate|right; left; by apply (vk_pf _ _ _ K)|congruence..]. }
  match goal with |- context [if ?c then qed_db_rec_flush_queue ?r ?n d1 else _] =>
    destruct (flush_if_moves c r n d1) as (rc & n' & d2 & -> & M2 & Hrc) end.
  pose proof (dq_moves_trans _ _ _ M1 M2) as M12.
  destruct (negb (rc =? 0)) eqn:Ec; zbool.
  { do 4 eexists. split; [reflexivity|]. split_and!; [exact Q1|by eapply moves_pf|
      intros g _; eapply moves_vf; [exact M12|done]|exact Hr1|done|done|].
    intros _ _. left. apply (mv_vf _ _ _ _ M2); [done|]. apply L1. intros ->. apply Ec, Hrc. reflexivity. }
  pose proof (vf_sticky_wr d2) as M3. rewrite (mv_fid _ _ _ _ M12), Ef in M3.
  assert (exists h2, (if negb (cur =? 0) || vf_overflow vf then qed_iov_db_rec_stats_update i h1 else Some h1) = Some h2 /\
    quiet h h2 /\ exists vf2, vf_replaced i vf2 iov h2 /\ concrete_fid vf2 = concrete_fid vf /\ b_init vf2 = b_init vf /\
      vf_execute vf2 = vf_execute vf) as (h2 & -> & Q2 & vf2 & Hr2 & F1 & F2 & F3).
  { destruct (_ || _); [|by exists h1; split_and!; [done|done|exists vf1]].
    destruct (stats_update_spec i h1 iov vf1 Hi Hr1) as (h2 & E & Q2 & Hr2). exists h2.
    split_and!; [done|by eapply quiet_trans|by eexists]. }
  cbn [mbind option_bind]. destruct (vf_replaced_at _ _ _ _ Hi Hr2) as (iov2 & -> & E2). cbn [mbind option_bind].
  rewrite E2. cbn [mbind option_bind]. do 4 eexists. split; [reflexivity|]. split_and!.
  - eapply quiet_trans; [exact Q2|apply set_vf_quiet].
  - eapply pf_keeps_trans; eapply moves_pf; eassumption.
  - intros g Hg. eapply vf_keeps_trans; eapply moves_vf; try eassumption; congruence.
  - eapply vf_replaced_again, Hr2.
  - done.
  - done.
  - intros _ _. right. right. simpl. by rewrite F3.
Qed.

(** The VFs of a table are told apart by their function ids. *)
Definition fids_distinct (vfs : list qed_vf_info) : Prop :=
  forall i j v w, vfs !! i = Some v -> vfs !! j = Some w -> vf_fid v = vf_fid w -> i = j.

(** State of the VF loop of [qed_iov_db_rec_handler] before VF [i]: the active
    VFs below [i] are settled, the others untouched. *)
Record iov_progress (b : bool) h0 d0 (vfs0 : list qed_vf_info) (i : Z) (s : dq_hwfn * (nat * D)) : Prop := {
  ip_quiet : quiet h0 s.1;
  ip_pf : pf_keeps d0 s.2.2;
  ip_fid : dq_fid s.2.2 = pf;
  ip_table : exists iov, pf_iov_info s.1 = Some iov /\ iov_overflow iov = false /\
    length (vfs_array iov) = length vfs0 /\
    forall k vf0, vfs0 !! k = Some vf0 -> exists vf, vfs_array iov !! k = Some vf /\
      concrete_fid vf = concrete_fid vf0 /\ b_init vf = b_init vf0 /\
      (fids_distinct vfs0 -> active h0 (Z.of_nat k) vf0 -> vf_pending b vf0 d0 ->
        if decide (Z.of_nat k < i) then vf_settled vf0 vf s.2.2 else vf = vf0 /\ vf_pending b vf0 s.2.2)
}.

Lemma progress_done b h0 d0 vfs0 i s :
  iov_progress b h0 d0 vfs0 i s -> pf_sticky s.2.2 = true -> iov_progress b h0 d0 vfs0 (Z.of_nat (length vfs0)) s.
Proof.
  intros [I1 I2 I3 (iov & E & Eo & El & Ht)] Hs. split; try done. exists iov. split_and!; try done.
  intros k vf0 Hk. destruct (Ht k vf0 Hk) as (vf & Ev & Ec & Ei & _). exists vf. split_and!; try done.
  intros _ _ _. rewrite decide_True by (apply lookup_lt_Some in Hk; lia). intros _. auto.
Qed.

(** Accesses of the PF between two VFs keep the progress. *)
Lemma progress_access b h0 d0 vfs0 i h c d d' c' :
  iov_progress b h0 d0 vfs0 i (h, (c, d)) -> dq_fid d' = pf -> pf_keeps d d' -> (forall g, vf_keeps g d d') ->
  iov_progress b h0 d0 vfs0 i (h, (c', d')).
Proof.
  intros [I1 I2 I3 (iov & E & Eo & El & Ht)] Hf Kp Kv. split; simpl in *; try done; [by eapply pf_keeps_trans|].
  exists iov. split_and!; try done. intros k vf0 Hk. destruct (Ht k vf0 Hk) as (vf & Ev & Ec & Ei & Hs).
  exists vf. split_and!; try done. intros Hdist Ha Hp. specialize (Hs Hdist Ha Hp).
  destruct (decide _); [by eapply settled_keeps|]. destruct Hs. split; [done|by eapply pending_keeps].
Qed.

Lemma progress_active b h0 d0 vfs0 i s j vf iov0 :
  pf_iov_info h0 = Some iov0 -> vfs_array iov0 = vfs0 ->
  iov_progress b h0 d0 vfs0 i s -> active s.1 j vf ->
  exists vf0, active h0 j vf0 /\ vfs0 !! Z.to_nat j = Some vf0 /\ concrete_fid vf = concrete_fid vf0.
Proof.
  intros E0 Ea [I1 I2 I3 (iov & E & Eo & El & Ht)] (iov' & t & E' & Et & Hj & Ev & Hb).
  rewrite E in E'. injection E' as <-.
  destruct (lookup_lt_is_Some_2 vfs0 (Z.to_nat j)) as [vf0 Ev0]. { apply lookup_lt_Some in Ev. lia. }
  destruct (Ht _ _ Ev0) as (vf' & Ev' & Ec & Ei & _). rewrite Ev in Ev'. injection Ev' as <-.
  exists vf0. split_and!; try done. exists iov0, t. rewrite <- (q_total _ _ I1). split_and!; try done; try lia; congruence.
Qed.

(** The loop body settles the VF it visits. *)
Lemma iov_body_progress b h0 d0 vfs0 iov0 i j s vf :
  pf_iov_info h0 = Some iov0 -> vfs_array iov0 = vfs0 -> rel_pf_id h0 = pf -> pf_sane d0 ->
  iov_progress b h0 d0 vfs0 i s -> 0 <= i <= j -> active s.1 j vf ->
  (forall k vf, i <= k < j -> ~ active s.1 k vf) ->
  exists go s', iov_vf_body b (Z.to_nat j) s = Some (go, s') /\
    iov_progress b h0 d0 vfs0 (if go : bool then j + 1 else Z.of_nat (length vfs0)) s'.
Proof.
  intros E0 Ea Hpf Hs0 I Hij Hact Hno. destruct s as [h [c d]].
  destruct (progress_active _ _ _ _ _ _ _ _ _ E0 Ea I Hact) as (vf0 & Hact0 & Hk0 & Ecf).
  unfold iov_vf_body. cbn [fst snd] in *.
  assert (Hs : pf_sane d).
  { split; [apply (ip_fid _ _ _ _ _ _ I)|]. intros x Hx. destruct (pk_drop _ _ (ip_pf _ _ _ _ _ _ I) x Hx) as [|[]]; [|done]. by apply Hs0. }
  pose proof (pf_sticky_read d Hs) as L. destruct (dq_rd DORQ_REG_PF_OVFL_STICKY d) as [v d1]. destruct L as (M & Hs1 & _ & L1).
  assert (I1 : iov_progress b h0 d0 vfs0 i (h, (c, d1))).
  { eapply progress_access; [exact I|apply Hs1|by eapply moves_pf|]. intros g. eapply moves_vf; [exact M|done]. }
  destruct (negb (v =? 0)) eqn:Ev; zbool.
  { do 2 eexists. split; [reflexivity|]. cbn iota. eapply progress_done; [exact I1|]. by apply L1. }
  destruct (active_entry h j vf Hact) as (iov & Ei & Evf). rewrite Ei. cbn [mbind option_bind]. rewrite Evf. cbn [mbind option_bind].
  destruct (pretend_keeps (vf_fid vf) d1) as (Ef2 & Kp2 & Kv2). fold (vf_fid vf). set (d2 := dq_pretend (vf_fid vf) d1) in *.
  destruct (handler_vf_spec (Z.to_nat j) b h iov vf c d2 Ei Evf Ef2) as (h3 & c3 & d3 & vf3 & -> & Q3 & Kp3 & Kv3 & Hr3 & Ec3 & Eb3 & Hset).
  cbn [mbind option_bind]. destruct (pretend_keeps (rel_pf_id h3) d3) as (Ef4 & Kp4 & Kv4). set (d4 := dq_pretend (rel_pf_id h3) d3) in *.
  do 2 eexists. split; [reflexivity|]. cbn iota.
  assert (Erel : rel_pf_id h3 = pf). { rewrite (q_fid _ _ Q3), <- Hpf. exact (q_fid _ _ (ip_quiet _ _ _ _ _ _ I)). }
  destruct I1 as [J1 J2 J3 (iov' & E' & Eo & El & Ht)]. cbn [fst snd] in *. rewrite Ei in E'. injection E' as <-.
  split; cbn [fst snd].
  - by eapply quiet_trans.
  - eapply pf_keeps_trans; [exact J2|]. eapply pf_keeps_trans; [exact Kp2|]. by eapply pf_keeps_trans.
  - congruence.
  - destruct Hr3 as (iov3 & E3 & Ea3 & Eo3). exists iov3. split_and!; [done|congruence|by rewrite Ea3, length_insert|].
    intros k vfk Hk. destruct (Ht k vfk Hk) as (vfk' & Evk & Eck & Ebk & Hsk). rewrite Ea3.
    destruct (decide (k = Z.to_nat j)) as [->|Hne].
    + rewrite Evf in Evk. injection Evk as <-. rewrite Hk0 in Hk. injection Hk as <-.
      exists vf3. rewrite list_lookup_insert_eq by (eapply lookup_lt_Some; done).
      split_and!; [done|congruence|congruence|]. intros Hdist Ha Hp.
      rewrite Z2Nat.id in * by lia. rewrite decide_True by lia. specialize (Hsk Hdist Ha Hp).
      rewrite decide_False in Hsk by lia. destruct Hsk as [-> Hpend].
      eapply settled_keeps; [apply Kv4|]. apply Hset. eapply pending_keeps; [apply Kv2|exact Hpend].
    + exists vfk'. rewrite list_lookup_insert_ne by done. split_and!; [done..|]. intros Hdist Ha Hp. specialize (Hsk Hdist Ha Hp).
      assert (Hfne : vf_fid vfk <> vf_fid vf).
      { intros E. apply Hne. eapply Hdist; [exact Hk|exact Hk0|]. unfold vf_fid in *. congruence. }
      assert (K : vf_keeps (vf_fid vfk) d1 d4).
      { eapply vf_keeps_trans; [apply Kv2|]. eapply vf_keeps_trans; [by apply Kv3|apply Kv4]. }
      destruct (decide (Z.of_nat k < i)).
      * rewrite decide_True by lia. by eapply settled_keeps.
      * destruct (decide (Z.of_nat k < j + 1)).
        -- exfalso. destruct Hsk as [-> _]. apply (Hno (Z.of_nat k) vfk ltac:(lia)).
           destruct Ha as (iov1 & t & A1 & A2 & A3 & A4 & A5). exists iov, t. rewrite Nat2Z.id.
           pose proof (q_total _ _ (ip_quiet _ _ _ _ _ _ I)) as Et. cbn [fst] in Et. split_and!; try done; try lia; congruence.
        -- destruct Hsk. split; [done|by eapply pending_keeps].
Qed.

Lemma iov_handler_spec mem h d iov :
  dorq_inv mem h d -> pf_iov_info h = Some iov ->
  exists rc h' d', qed_iov_db_rec_handler h d = Some (rc, h', d') /\ dorq_inv mem h' d' /\
    (rc = 0 \/ rc = - EAGAIN /\ h' = h) /\
    (rc = 0 -> fids_distinct (vfs_array iov) -> forall k vf, active h k vf -> vf_pending (iov_overflow iov) vf d ->
       exists vf', active h' k vf' /\ vf_settled vf vf' d').
Proof.
  intros I Ei. unfold qed_iov_db_rec_handler.
  pose proof (law_dq_acquire (pf := pf) d) as Ma. destruct (dq_acquire d) as [got d1]. cbn [snd] in Ma.
  pose proof (moves_pf _ _ _ Ma) as Ka.
  assert (I1 : dorq_inv mem h d1).
  { eapply quiet_inv; [apply quiet_refl|exact Ka| |exact I]. rewrite (mv_fid _ _ _ _ Ma). apply (di_sane _ _ _ I). }
  destruct got; cbn [negb].
  2: { do 3 eexists. split; [reflexivity|]. split; [exact I1|]. split; [by right|discriminate]. }
  rewrite Ei. cbn [mbind option_bind].
  set (h1 := set_iov_overflow false h). assert (Q1 : quiet h h1) by apply set_iov_overflow_quiet.
  assert (Ei1 : pf_iov_info h1 = Some (iov <| iov_overflow := false |>)) by (unfold h1, set_iov_overflow; simpl; by rewrite Ei).
  set (b := iov_overflow iov).
  assert (Hpf : rel_pf_id h1 = pf) by (rewrite (q_fid _ _ Q1); apply (di_fid _ _ _ I)).
  destruct (for_each_vf_rule (iov_progress b h1 d1 (vfs_array iov))
    (fun s => iov_progress b h1 d1 (vfs_array iov) (Z.of_nat (length (vfs_array iov))) s) (iov_vf_body b))
    with (n := vf_loop_fuel) (i := 0) (s := (h1, (QED_DB_REC_COUNT, d1))) as ([h2 [c2 d2]] & -> & P2).
  - intros i s P. eapply quiet_wf; [exact (ip_quiet _ _ _ _ _ _ P)|]. eapply quiet_wf; [exact Q1|]. apply (di_vfs _ _ _ I).
  - intros i j s vf P Hij _ Ha Hno.
    destruct (iov_body_progress b h1 d1 (vfs_array iov) _ i j s vf Ei1 eq_refl Hpf (di_sane _ _ _ I1) P Hij Ha Hno)
      as (go & s' & E & P'). exists go, s'. split; [exact E|]. by destruct go.
  - intros i s P Hno. destruct P as [J1 J2 J3 (iov' & E' & Eo & El & Ht)]. split; try done. exists iov'. split_and!; try done.
    intros k vf0 Hk. destruct (Ht k vf0 Hk) as (vf & Ev & Ec & Eb & Hs). exists vf. split_and!; try done. intros Hdist Ha Hp.
    specialize (Hs Hdist Ha Hp). rewrite decide_True by (apply lookup_lt_Some in Hk; lia).
    destruct (decide (Z.of_nat k < i)); [exact Hs|]. destruct Hs as [-> _]. exfalso.
    apply (Hno (Z.of_nat k) vf0); [lia|]. destruct Ha as (? & t & A1 & A2 & A3 & A4 & A5). exists iov', t.
    rewrite Nat2Z.id, (q_total _ _ J1). done.
  - split; cbn [fst snd]; [apply quiet_refl|apply pf_keeps_refl|apply (di_sane _ _ _ I1)|]. eexists. split; [exact Ei1|].
    split_and!; [done|done|]. intros k vf0 Hk. exists vf0. split_and!; [done..|]. intros _ _ Hp. rewrite decide_False by lia. done.
  - change MAX_NUM_VFS with 192. lia.
  - apply Nat.ltb_lt. reflexivity.
  - cbn [mbind option_bind]. pose proof (law_dq_release (pf := pf) d2) as Mr. set (d3 := dq_release d2) in *.
    destruct P2 as [J1 J2 J3 (iov2 & E2 & Eo & El & Ht)]. cbn [fst snd] in *.
    do 3 eexists. split; [reflexivity|]. split_and!; [|by left|].
    + apply (quiet_inv mem h _ d1); [|eapply pf_keeps_trans; [exact J2|by eapply moves_pf]| |exact I1].
      * destruct (quiet_trans _ _ _ Q1 J1) as [A1 A2 A3 A4 A5 A6 A7]. by split.
      * rewrite (mv_fid _ _ _ _ Mr). exact J3.
    + intros _ Hdist k vf Ha Hp. pose proof Ha as (iov0 & t & A1 & A2 & A3 & A4 & A5). rewrite Ei in A1. injection A1 as <-.
      destruct (Ht _ _ A4) as (vf' & Ev & Ec & Eb & Hs). exists vf'. split.
      * exists iov2, t. simpl. split_and!; try done; try lia; [|congruence]. rewrite (q_total _ _ J1). exact A2.
      * rewrite Z2Nat.id in Hs by lia.
        eapply settled_keeps; [eapply moves_vf; [exact Mr|done]|].
        rewrite decide_True in Hs by (apply lookup_lt_Some in A4; lia). apply Hs; [exact Hdist|..].
        -- exists (iov <| iov_overflow := false |>), t. done.
        -- eapply pending_keeps; [eapply moves_vf; [exact Ma|done]|exact Hp].
Qed.

Lemma handler_frame mem h d : let h' := (qed_db_rec_handler mem h d).1 in
  rel_pf_id h' = rel_pf_id h /\ total_vfs h' = total_vfs h /\
  (length ∘ vfs_array <$> pf_iov_info h') = (length ∘ vfs_array <$> pf_iov_info h).
Proof.
  unfold qed_db_rec_handler. destruct (dq_rd _ d) as [cur d1].
  destruct (negb (cur =? 0) || overflow (rec_info h)); [|by destruct (IS_PF_SRIOV_ALLOC _)].
  match goal with |- context [if ?c then qed_db_rec_flush_queue ?r ?n d1 else _] =>
    destruct (flush_if_moves c r n d1) as (rc & n' & d2 & -> & _ & _) end.
  destruct (negb (rc =? 0)); [done|]. cbn.
  destruct (negb (cur =? 0) && _); destruct (IS_PF_SRIOV_ALLOC _); cbn; destruct (pf_iov_info h); done.
Qed.

Lemma slowpath_spec always mem h d :
  dorq_inv mem h d ->
  dorq_inv mem (slowpath_db_rec always mem h d).1 (slowpath_db_rec always mem h d).2 /\
  (periodic_flag h = true -> recov_in_prog h = false -> slowpath_active h = true ->
     covered (slowpath_db_rec always mem h d).2).
Proof.
  intros I. unfold slowpath_db_rec. destruct (periodic_flag h) eqn:Ep; cbn [negb].
  2: { split; [exact I|discriminate]. }
  set (h1 := h <| periodic_flag := false |>).
  destruct (recov_in_prog h1 || negb (slowpath_active h1)) eqn:Er.
  { cbn [fst snd]. split.
    - destruct I as [I1 I2 I3 I4 I5 I6]. split; try done. intros _ H1 H2. apply orb_prop in Er as [Er|Er]; [congruence|].
      apply negb_true_iff in Er. congruence.
    - intros _ H1 H2. simpl in Er. rewrite H1, H2 in Er. discriminate. }
  pose proof (handler_spec mem h1 d (di_sane _ _ _ I) (di_registered _ _ _ I) (di_account _ _ _ I)) as L.
  destruct (handler_frame mem h1 d) as (F1 & F2 & F3). pose proof (wf_vfs_frame h _ F2 F3 (di_vfs _ _ _ I)) as Hw.
  destruct (qed_db_rec_handler mem h1 d) as [h2 d2]. cbn [fst snd] in *.
  destruct L as (Hs & Hc & Hreg & Ho & E1 & E2). split; [|by intros].
  assert (Hinv : forall h3, rec_info h3 = rec_info h2 -> rel_pf_id h3 = rel_pf_id h2 -> total_vfs h3 = total_vfs h2 ->
    pf_iov_info h3 = pf_iov_info h2 -> dorq_inv mem h3 d2).
  { intros h3 G1 G2 G3 G4. split; rewrite ?G1, ?G2; try done.
    - intros t. rewrite G3, G4. apply Hw.
    - rewrite F1. apply (di_fid _ _ _ I).
    - unfold db_writes. rewrite Hreg. apply (di_registered _ _ _ I).
    - intros x Hx. left. by eapply Hc.
    - rewrite Ho. discriminate. }
  clear Er. destruct (negb (periodic_db_rec_count h2 =? 0)).
  - unfold qed_slowpath_delayed_work. destruct (negb _); by apply Hinv.
  - destruct always; [|by apply Hinv]. match goal with |- dorq_inv mem (qed_periodic_db_rec_start ?h3) _ =>
      destruct (periodic_start_spec h3) as (G1 & G2 & G3 & G4 & _) end. by apply Hinv; rewrite ?G1, ?G2, ?G3, ?G4.
Qed.

(** ** Steps: the driver's callbacks, one at a time, and the chip on its own *)

Inductive dorq_step (mem : Z -> Z) : dq_hwfn * D -> dq_hwfn * D -> Prop :=
| step_attn_cb h d rc h' d' : qed_dorq_attn_cb h d = Some (rc, h', d') -> dorq_step mem (h, d) (h', d')
| step_attn_handler h d h' d' : qed_dorq_attn_handler h d = Some (h', d') -> dorq_step mem (h, d) (h', d')
| step_periodic always h d : dorq_step mem (h, d) (slowpath_db_rec always mem h d)
| step_iov h d rc h' d' : qed_iov_db_rec_handler h d = Some (rc, h', d') -> dorq_step mem (h, d) (h', d')
| step_chip h d d' : dq_moves false None d d' -> dorq_step mem (h, d) (h, d').

Lemma step_inv mem s s' : dorq_step mem s s' -> dorq_inv mem s.1 s.2 -> dorq_inv mem s'.1 s'.2.
Proof.
  intros St I. destruct St as [h d rc h' d' E|h d h' d' E|always h d|h d rc h' d' E|h d d' M]; cbn [fst snd] in *.
  - destruct (attn_cb_spec mem h d I) as (? & ? & ? & E' & I' & _). congruence.
  - destruct (attn_handler_spec mem h d I) as (? & ? & E' & I'). congruence.
  - by apply slowpath_spec.
  - destruct (pf_iov_info h) as [iov|] eqn:Ei.
    + destruct (iov_handler_spec mem h d iov I Ei) as (? & ? & ? & E' & I' & _). congruence.
    + unfold qed_iov_db_rec_handler in E. pose proof (law_dq_acquire (pf := pf) d) as M.
      destruct (dq_acquire d) as [got d1]. cbn [snd] in M. destruct got; [rewrite Ei in E; discriminate|]. injection E as <- <- <-.
      eapply quiet_inv; [apply quiet_refl|by eapply moves_pf| |exact I]. rewrite (mv_fid _ _ _ _ M). apply (di_sane _ _ _ I).
  - eapply quiet_inv; [apply quiet_refl|by eapply moves_pf| |exact I]. rewrite (mv_fid _ _ _ _ M). apply (di_sane _ _ _ I).
Qed.

Lemma steps_inv mem s s' : rtc (dorq_step mem) s s' -> dorq_inv mem s.1 s.2 -> dorq_inv mem s'.1 s'.2.
Proof. intros Hr. induction Hr as [|s1 s2 s3 St _ IH]; [done|]. intros I. by apply IH, (step_inv _ _ _ St). Qed.
End Proofs.

(** C3: Whatever the chip does between any two of the driver's accesses, and in
    whatever order the attention callback, the attention handler, the periodic
    work and the VF handler run, a dropped doorbell of the PF is never
    forgotten: the chip's sticky bit is set or the overflow is noted, and a
    noted overflow has the periodic work scheduled; the attention callbacks
    never fault. *)
Theorem dorq_overflow_never_lost (D : Type) `(DL : DorqLaws D pf) (mem : Z -> Z) (h h' : dq_hwfn) (d d' : D) :
  dorq_inv (pf := pf) mem h d -> rtc (dorq_step mem) (h, d) (h', d') ->
  (forall x, pf_dropped d' x -> pf_sticky d' = true \/ overflow (rec_info h') = true) /\
  (overflow (rec_info h') = true -> recov_in_prog h' = false -> slowpath_active h' = true -> periodic_flag h' = true) /\
  (exists r, qed_dorq_attn_cb h' d' = Some r) /\ (exists r, qed_dorq_attn_handler h' d' = Some r).
Proof.
  intros I Hr. pose proof (steps_inv mem _ _ Hr I) as I'. cbn [fst snd] in I'.
  destruct (attn_cb_spec mem h' d' I') as (? & ? & ? & E & _). destruct (attn_handler_spec mem h' d' I') as (? & ? & E2 & _).
  split_and!; [apply (di_account _ _ _ I')|apply (di_scheduled _ _ _ I')|eauto|eauto].
Qed.

(** C28: A run of the periodic work recovers: afterwards a doorbell is missing
    only while the chip's sticky bit is set again (the queue could not be
    flushed, or overflowed anew), so with the bit clear every doorbell has
    arrived. *)
Theorem dorq_periodic_recovers (D : Type) `(DL : DorqLaws D pf) (always : bool) (mem : Z -> Z) (h : dq_hwfn) (d : D) :
  dorq_inv (pf := pf) mem h d -> periodic_flag h = true -> recov_in_prog h = false -> slowpath_active h = true ->
  let '(h', d') := slowpath_db_rec always mem h d in
  dorq_inv (pf := pf) mem h' d' /\ (pf_sticky d' = false -> forall x, ~ pf_dropped d' x).
Proof.
  intros I H1 H2 H3. destruct (slowpath_spec always mem h d I) as [I' Hc]. specialize (Hc H1 H2 H3).
  destruct (slowpath_db_rec always mem h d) as [h' d']. cbn [fst snd] in *. split; [done|].
  intros Hs x Hx. specialize (Hc x Hx). congruence.
Qed.

(** The VF handler tells every active VF whose doorbells may have been
    dropped to recover: if the drop was remembered before (a sticky bit of the
    VF or its PF, or a noted overflow), then afterwards a sticky bit still
    covers it or the VF's bulletin asks for recovery.  The loop over the VFs
    ends within its fuel and never faults. *)
Theorem iov_recovery_notifies_vfs (D : Type) `(DL : DorqLaws D pf) (mem : Z -> Z) (h : dq_hwfn) (d : D) (iov : qed_pf_iov) :
  dorq_inv (pf := pf) mem h d -> pf_iov_info h = Some iov -> fids_distinct (vfs_array iov) ->
  exists rc h' d', qed_iov_db_rec_handler h d = Some (rc, h', d') /\
    (rc = 0 \/ rc = - EAGAIN /\ h' = h) /\
    (rc = 0 -> forall k vf, active h k vf -> vf_pending (iov_overflow iov) vf d ->
       exists vf', active h' k vf' /\ vf_settled vf vf' d').
Proof.
  intros I Ei Hd. destruct (iov_handler_spec mem h d iov I Ei) as (rc & h' & d' & E & _ & Hrc & Hall).
  exists rc, h', d'. auto.
Qed.

(** ** A chip *)

(** A chip with one PF doorbell and one VF, whose next accesses are preceded by
    an overflow where the script says so. *)
Record sim_dq := mk_sim_dq {
  sq_script : list bool;
  sq_fid : Z;
  sq_sticky : bool;
  sq_vf : bool;
  sq_drop : bool;
  sq_vdrop : bool
}.
#[export] Instance eta_sim_dq : Settable sim_dq := fun r =>
  mk_sim_dq (sq_script r) (sq_fid r) (sq_sticky r) (sq_vf r) (sq_drop r) (sq_vdrop r).

Definition sim_pf : Z := 0.
Definition sim_vf : Z := 0x800.
Definition sim_doorbell : Z * Z * Z := (0x10100, 32, 0x07070707).

Definition sq_pop (s : sim_dq) : sim_dq :=
  match sq_script s with
  | true :: r => s <| sq_script := r |> <| sq_sticky := true |> <| sq_drop := true |> <| sq_vdrop := true |>
  | false :: r => s <| sq_script := r |>
  | [] => s
  end.
Definition sq_clear (a v : Z) (s : sim_dq) : sim_dq :=
  if decide (a = DORQ_REG_PF_OVFL_STICKY /\ v = 0) then s <| sq_sticky := false |>
  else if decide (a = DORQ_REG_VF_OVFL_STICKY /\ v = 0 /\ sq_fid s = sim_vf) then s <| sq_vf := false |> else s.
Definition sq_ring (a w v : Z) (s : sim_dq) : sim_dq :=
  if sq_sticky s then s else if decide ((a, w, v) = sim_doorbell) then s <| sq_drop := false |> else s.

#[export] Instance sim_dq_bar : DoorbellBar sim_dq := fun a w v s => sq_ring a w v (sq_pop s).
#[export] Instance sim_dq_dev : DorqDev sim_dq := {|
  dq_rd a s := let s := sq_pop s in
    ((if a =? DORQ_REG_PF_OVFL_STICKY then if sq_sticky s then 1 else 0
      else if (a =? DORQ_REG_VF_OVFL_STICKY) && (sq_fid s =? sim_vf) && sq_vf s then 1 else 0), s);
  dq_wr a v s := sq_clear a v (sq_pop s);
  dq_pretend f s := sq_pop s <| sq_fid := f |>;
  dq_acquire s := (true, s);
  dq_release s := s;
  dq_fid := sq_fid;
  pf_sticky := sq_sticky;
  vf_sticky s f := bool_decide (f = sim_vf) && sq_vf s;
  pf_dropped s x := x = sim_doorbell /\ sq_drop s = true;
  vf_dropped s f := f = sim_vf /\ sq_vdrop s = true;
  pf_rings x := x = sim_doorbell
|}.

Lemma sq_pop_moves s : dq_moves false None s (sq_pop s).
Proof.
  unfold sq_pop. destruct (sq_script s) as [|[] r]; split; simpl; auto; try tauto.
Qed.

#[export] Instance sim_dq_laws : DorqLaws sim_dq sim_pf.
Proof.
  split.
  - intros a s. simpl. split; [apply sq_pop_moves|]. split.
    + intros -> _. simpl. unfold sq_pop. destruct (sq_script s) as [|[] r]; simpl; destruct (sq_sticky s); auto; split; auto; discriminate.
    + intros ->. simpl. replace (sq_fid (sq_pop s)) with (sq_fid s) by (unfold sq_pop; by destruct (sq_script s) as [|[] r]).
      replace (sq_vf (sq_pop s)) with (sq_vf s) by (unfold sq_pop; by destruct (sq_script s) as [|[] r]).
      destruct (Z.eqb_spec (sq_fid s) sim_vf); simpl; [|by rewrite bool_decide_false].
      rewrite bool_decide_true by done. destruct (sq_vf s); simpl; auto; split; auto; discriminate.
  - intros a v s. unfold clears. simpl. unfold sq_clear.
    destruct (decide (a = DORQ_REG_PF_OVFL_STICKY /\ v = 0)) as [Hc|Hc].
    + rewrite bool_decide_true by done. destruct (sq_pop_moves s) as [M1 M2 M3 M4 M5]. rewrite decide_False by (destruct Hc as [-> _]; by intros [? _]).
      split; simpl in *; auto; try done. intros x [-> Hx]. destruct (M4 sim_doorbell (conj eq_refl Hx)) as [|[]]; auto.
    + rewrite bool_decide_false by done. destruct (sq_pop_moves s) as [M1 M2 M3 M4 M5]. simpl in *.
      rewrite M1. destruct (decide (a = DORQ_REG_VF_OVFL_STICKY /\ v = 0)) as [Hv|Hv].
      * destruct (decide (sq_fid s = sim_vf)) as [Hf|Hf].
        -- rewrite decide_True by tauto. rewrite Hf. split; simpl; auto; try done.
           ++ intros f Hne. rewrite bool_decide_false by congruence. done.
           ++ intros f [-> _]. auto.
        -- rewrite decide_False by tauto. split; simpl; auto; try done.
           intros f Hx. destruct (M5 f Hx) as [|[|[|]]]; auto; discriminate.
      * rewrite decide_False by tauto. split; simpl; auto; try done.
  - intros f s. split; [done|]. exists (sq_pop s). split; [apply sq_pop_moves|]. done.
  - intros s. split; auto.
  - intros s. split; auto.
  - intros a w v s. unfold direct_reg_wr. simpl. unfold dq_bar, sim_dq_bar, sq_ring. destruct (sq_pop_moves s) as [M1 M2 M3 M4 M5].
    destruct (sq_sticky (sq_pop s)) eqn:Es; [split; [split; auto|done]|].
    destruct (decide ((a, w, v) = sim_doorbell)) as [Hd|Hd].
    + split; [|simpl; intros [_ ?]; discriminate]. split; simpl in *; auto; try done. intros x [_ ?]. discriminate.
    + split; [split; auto|]. simpl. intros [? _]. done.
Qed.

(** A request on the bulletin board makes the VF driver, at its next poll, ring
    every doorbell it has registered. *)
Lemma vf_request_rings_all (mem : Z -> Z) (prev : Z) (info : qed_db_recovery_info) :
  0 <= prev < 256 ->
  (qed_vf_db_recovery_execute mem prev (u8 (prev + 1)) info []).2 = reg_write mem ∘ of_entry <$> db_list info.
Proof.
  intros Hp. unfold qed_vf_db_recovery_execute.
  assert (Hne : prev <> u8 (prev + 1)).
  { unfold u8. intros E. destruct (decide (prev = 255)) as [->|]; [discriminate|].
    rewrite Z.mod_small in E by lia. lia. }
  replace (prev =? u8 (prev + 1)) with false by (symmetry; by apply Z.eqb_neq). cbn [negb].
  pose proof (execute_log mem info []) as E. destruct (qed_db_recovery_execute mem info []) as [i l]. exact E.
Qed.
(** ** Witnesses *)

Definition mem7 : Z -> Z := fun _ => 7.
Definition vf_a : qed_vf_info := mk_qed_vf_info true false sim_vf 0 true false 5.
Definition iov_a : qed_pf_iov := mk_qed_pf_iov [vf_a] 0 0 false.
Definition info_a (noted : bool) : qed_db_recovery_info :=
  mk_qed_db_recovery_info [mk_qed_db_recovery_entry 0x10100 0x900 DB_REC_WIDTH_32B DB_REC_KERNEL 0] 0 noted false true.
Definition hwfn_a (noted : bool) : dq_hwfn :=
  mk_dq_hwfn (info_a noted) true sim_pf (Some iov_a) (Some 1) false true noted 0 false false.
(** The chip has overflowed; the doorbell and one of the VF are dropped. *)
Definition chip_a (script : list bool) : sim_dq := mk_sim_dq script sim_pf true false true true.

Lemma hwfn_a_inv noted script : dorq_inv (pf := sim_pf) mem7 (hwfn_a noted) (chip_a script).
Proof.
  split; simpl; try done.
  - intros t [= <-]. split; [split; discriminate|]. intros iov [= <-]. done.
  - split; [done|]. intros x [-> _]. reflexivity.
  - intros x ->. apply elem_of_cons. left. reflexivity.
  - auto.
Qed.

Definition attn_result : dq_hwfn * sim_dq :=
  match qed_dorq_attn_cb (hwfn_a false) (chip_a []) with Some (_, h, d) => (h, d) | None => (hwfn_a false, chip_a []) end.

Lemma dorq_overflow_never_lost_witness :
  overflow (rec_info attn_result.1) = true /\ pf_sticky attn_result.2 = false /\
  (forall x, pf_dropped attn_result.2 x -> pf_sticky attn_result.2 = true \/ overflow (rec_info attn_result.1) = true).
Proof.
  split; [reflexivity|]. split; [reflexivity|].
  apply (dorq_overflow_never_lost sim_dq sim_dq_laws mem7 (hwfn_a false) attn_result.1 (chip_a []) attn_result.2
    (hwfn_a_inv false [])).
  apply rtc_once. refine (step_attn_cb mem7 (hwfn_a false) (chip_a []) 0 _ _ _). reflexivity.
Defined.

Lemma dorq_periodic_recovers_witness :
  pf_sticky (slowpath_db_rec false mem7 (hwfn_a true) (chip_a [])).2 = false /\
  forall x, ~ pf_dropped (slowpath_db_rec false mem7 (hwfn_a true) (chip_a [])).2 x.
Proof.
  pose proof (dorq_periodic_recovers sim_dq sim_dq_laws false mem7 (hwfn_a true) (chip_a []) (hwfn_a_inv true [])
    eq_refl eq_refl eq_refl) as Hr.
  destruct (slowpath_db_rec false mem7 (hwfn_a true) (chip_a [])) as [h' d'] eqn:E. vm_compute in E. injection E as <- <-.
  split; [reflexivity|]. exact (proj2 Hr eq_refl).
Defined.

Lemma iov_recovery_notifies_vfs_witness :
  exists rc h' d', qed_iov_db_rec_handler (hwfn_a true) (chip_a []) = Some (rc, h', d') /\
    (rc = 0 \/ rc = - EAGAIN /\ h' = hwfn_a true).
Proof.
  destruct (iov_recovery_notifies_vfs sim_dq sim_dq_laws mem7 (hwfn_a true) (chip_a []) iov_a (hwfn_a_inv true [])
    eq_refl) as (rc & h' & d' & E & Hrc & _).
  - intros [|i] [|j] v w; simpl; try discriminate; done.
  - exists rc, h', d'. auto.
Defined.

(** ** Two interleavings that lose doorbells *)

(** While the attention callback sits between noting the overflow and releasing
    the sticky bit, the periodic handler on another CPU consumes the note and
    recovers; an overflow after that is wiped by the callback's release.  The
    doorbell stays dropped with neither the sticky bit nor the note set. *)
Example attn_release_races_with_handler :
  let '(v, d1) := dq_rd DORQ_REG_PF_OVFL_STICKY (chip_a [false; false; false; false; true]) in
  let h1 := attn_note (hwfn_a false) in
  let '(h2, d2) := qed_db_rec_handler mem7 h1 d1 in
  let d3 := attn_release h1 d2 in
  (v, sq_drop d2, sq_drop d3, sq_sticky d3, overflow (rec_info h2)) = (1, false, true, false, false).
Proof. vm_compute. reflexivity. Qed.

(** With an overflow noted earlier and the sticky bit clear, an overflow
    between the handler's read of the sticky bit and its write of it is cleared
    without telling the VFs, although the PF's bit made the chip drop their
    doorbells too. *)
Example handler_forgets_vf_drops :
  let '(h, d) := qed_db_rec_handler mem7 (hwfn_a true) (mk_sim_dq [false; true] sim_pf false false true false) in
  (sq_drop d, sq_vdrop d, sq_sticky d, sq_vf d,
   (fun iov => (iov_overflow iov, vf_overflow <$> vfs_array iov)) <$> pf_iov_info h)
  = (false, true, false, false, Some (false, [false])).
Proof. vm_compute. reflexivity. Qed.
