(* ===== verification/Spq.v ===== *)
(** * The slow path queue and the event queue (qed_spq.c, qed_sp_commands.c)

    Configuration requests to the firmware ("ramrods") are queued on the slow
    path queue (SPQ).  A client takes an entry from a pool, fills it and posts
    it; when the pool is empty the entry is allocated and waits on a list of its
    own.  Entries are written to a ring, the firmware completes them in any
    order by the echo value the driver gave them, and a bitmap keeps the ring's
    consumer behind the first entry that is not completed.  Completions arrive
    on the event queue (EQ) together with asynchronous events.

    Entries are named by numbers: [0 .. capacity-1] are the DMA pool, larger
    numbers the ones allocated with [kzalloc].  An access to a freed entry, a
    [list_del] of an entry that is on no list, adding an entry that is on a list
    already and a null dereference are faults ([None]).  The functions that hold
    the SPQ lock run as one step; the lock itself and the prints are left out.
    Callbacks of the clients and what the rest of the system does while a
    client sleeps are parameters. *)

From S2P Require Import Prelude Dma Chain DbRec.

(** ** Constants *)

Definition QED_SPQ_MODE_BLOCK : Z := 0.
Definition QED_SPQ_MODE_CB : Z := 1.
Definition QED_SPQ_MODE_EBLOCK : Z := 2.
Definition QED_SPQ_PRIORITY_NORMAL : Z := 0.
Definition QED_SPQ_PRIORITY_HIGH : Z := 1.
Definition SPQ_HIGH_PRI_RESERVE_DEFAULT : Z := 1.
Definition SPQ_BLOCK_DELAY_MAX_ITER : Z := 10.
Definition SPQ_BLOCK_SLEEP_MAX_ITER : Z := 200.
Definition SPQ_BLOCK_SLEEP_MS : Z := 5.
Definition CORE_SPQE_PAGE_SIZE_BYTES : Z := 4096.
Definition sizeof_slow_path_element : Z := 16.
Definition SPQ_RING_SIZE : Z := CORE_SPQE_PAGE_SIZE_BYTES / sizeof_slow_path_element.
Definition MAX_PROTOCOL_TYPE : Z := 12.
Definition PROTOCOLID_ROCE : Z := 2.
Definition PROTOCOLID_CORE : Z := 3.
Definition PROTOCOLID_IWARP : Z := 5.
Definition PROTOCOLID_COMMON : Z := 8.
Definition ROCE_ASYNC_EVENT_DESTROY_QP_DONE : Z := 12.
Definition QED_CXT_PF_CID : Z := 0xff.
Definition RDMA_RETURN_OK : Z := 0.

(** ** Data *)

(** [struct slow_path_element] with its [struct ramrod_header]. *)
Record slow_path_element := mk_slow_path_element {
  hdr_cid : Z;
  hdr_cmd_id : Z;
  hdr_protocol_id : Z;
  hdr_echo : Z;
  data_ptr : regpair
}.
#[export] Instance eta_slow_path_element : Settable slow_path_element := fun r =>
  mk_slow_path_element (hdr_cid r) (hdr_cmd_id r) (hdr_protocol_id r) (hdr_echo r) (data_ptr r).

Record qed_spq_comp_done := mk_qed_spq_comp_done { done : Z; fw_return_code : Z }.
#[export] Instance eta_qed_spq_comp_done : Settable qed_spq_comp_done := fun r =>
  mk_qed_spq_comp_done (done r) (fw_return_code r).

(** [struct qed_spq_comp_cb]: the function is none, [qed_spq_blocking_cb] or a
    client's; the cookie points into an entry ([comp_done]) or elsewhere. *)
Inductive comp_fn := FnNull | FnBlocking | FnClient (f : Z).
Inductive cookie_ptr := CkEntry (e : nat) | CkMem (a : Z).
Inductive queue_ptr := QNull | QPending | QUnlimited.

Record qed_spq_entry := mk_qed_spq_entry {
  flags : Z;
  elem : slow_path_element;
  ramrod : Z;                     (* the contents of the ramrod data, as a whole *)
  priority : Z;
  queue : queue_ptr;
  comp_mode : Z;
  cb_function : comp_fn;
  cb_cookie : cookie_ptr;
  comp_done : qed_spq_comp_done;
  post_ent : option nat
}.
#[export] Instance eta_qed_spq_entry : Settable qed_spq_entry := fun r =>
  mk_qed_spq_entry (flags r) (elem r) (ramrod r) (priority r) (queue r) (comp_mode r) (cb_function r)
    (cb_cookie r) (comp_done r) (post_ent r).

(** What [kzalloc] returns. *)
Definition zero_entry : qed_spq_entry :=
  mk_qed_spq_entry 0 (mk_slow_path_element 0 0 0 0 (mk_regpair 0 0)) 0 0 QNull 0 FnNull (CkMem 0)
    (mk_qed_spq_comp_done 0 0) None.

Record core_db_data := mk_core_db_data { db_params : Z; agg_flags : Z; spq_prod : Z }.
#[export] Instance eta_core_db_data : Settable core_db_data := fun r =>
  mk_core_db_data (db_params r) (agg_flags r) (spq_prod r).
(** The doorbell word, little-endian. *)
Definition db_word (d : core_db_data) : Z := db_params d + 2 ^ 8 * agg_flags d + 2 ^ 16 * spq_prod d.

Record qed_spq := mk_qed_spq {
  unlimited_pending : list nat;
  pending : list nat;
  completion_pending : list nat;
  free_pool : list nat;
  chain : qed_chain;
  p_phys : Z;
  p_virt : Z;
  block_sleep_max_iter : Z;
  p_comp_bitmap : Z;              (* SPQ_RING_SIZE bits *)
  comp_bitmap_idx : Z;
  unlimited_pending_count : Z;
  normal_count : Z;
  high_count : Z;
  comp_sent_count : Z;
  comp_count : Z;
  cid : Z;
  db_addr_offset : Z;
  spq_db_data : core_db_data;
  async_comp_cb : list (option Z);
  drop_next_completion : bool
}.
#[export] Instance eta_qed_spq : Settable qed_spq := fun r =>
  mk_qed_spq (unlimited_pending r) (pending r) (completion_pending r) (free_pool r) (chain r) (p_phys r)
    (p_virt r) (block_sleep_max_iter r) (p_comp_bitmap r) (comp_bitmap_idx r) (unlimited_pending_count r)
    (normal_count r) (high_count r) (comp_sent_count r) (comp_count r) (cid r) (db_addr_offset r)
    (spq_db_data r) (async_comp_cb r) (drop_next_completion r).

(** [struct event_ring_entry]. *)
Record event_ring_entry := mk_event_ring_entry {
  protocol_id : Z;
  opcode : Z;
  eqe_flags : Z;
  eqe_fw_return_code : Z;
  vf_id : Z;
  echo : Z;
  eqe_data : Z
}.

(** The function's state: its SPQ ([p_hwfn->p_spq]), the entries in memory, the
    identity of the next allocated entry and the outcomes of [kzalloc] (success
    when used up), the ring memory, the doorbells rung, the completion words of
    clients in BLOCK mode, the events in the EQ's memory and the EQ producers
    written to the chip. *)
Record spq_world := mk_spq_world {
  w_spq : option qed_spq;
  w_ents : gmap nat qed_spq_entry;
  w_next : nat;
  w_kz : list bool;
  w_mem : dma_mem;
  w_ring : gmap Z slow_path_element;
  w_doorbells : Z;
  w_rung : list (Z * Z);
  w_done : gmap Z qed_spq_comp_done;
  w_recov : bool;
  w_eqes : gmap Z event_ring_entry;
  w_eq_prods : list Z
}.
#[export] Instance eta_spq_world : Settable spq_world := fun r =>
  mk_spq_world (w_spq r) (w_ents r) (w_next r) (w_kz r) (w_mem r) (w_ring r) (w_doorbells r) (w_rung r)
    (w_done r) (w_recov r) (w_eqes r) (w_eq_prods r).

Definition set_spq (sp : qed_spq) (w : spq_world) : spq_world := w <| w_spq := Some sp |>.
Definition set_ent (e : nat) (x : qed_spq_entry) (w : spq_world) : spq_world := w <| w_ents := <[e := x]> (w_ents w) |>.

(** ** Linked lists *)

Definition linked (sp : qed_spq) : list nat :=
  unlimited_pending sp ++ pending sp ++ completion_pending sp ++ free_pool sp.

(** [list_add_tail] and [list_add] to a list of the SPQ; the caller names the
    list by what it becomes.  The entry must exist and be on no list. *)
Definition may_link (w : spq_world) (sp : qed_spq) (e : nat) : bool :=
  bool_decide (is_Some (w_ents w !! e)) && bool_decide (e ∉ linked sp).

Definition list_del_from (e : nat) (l : list nat) : list nat := filter (fun x => x <> e) l.

(** [list_del]: the entry is unlinked from the list it is on. *)
Definition list_del (w : spq_world) (sp : qed_spq) (e : nat) : option qed_spq :=
  if bool_decide (is_Some (w_ents w !! e)) && bool_decide (e ∈ linked sp)
  then Some (sp <| unlimited_pending := list_del_from e (unlimited_pending sp) |>
                <| pending := list_del_from e (pending sp) |>
                <| completion_pending := list_del_from e (completion_pending sp) |>
                <| free_pool := list_del_from e (free_pool sp) |>)
  else None.

(** ** Entries *)

Definition qed_spq_get_entry (w : spq_world) : option (Z * option nat * spq_world) :=
  sp ← w_spq w;
  match free_pool sp with
  | [] =>
      let ok := match w_kz w with [] => true | b :: _ => b end in
      let w := w <| w_kz := tail (w_kz w) |> in
      if negb ok then Some (- ENOMEM, None, w) else
      let e := w_next w in
      Some (0, Some e, set_ent e (zero_entry <| queue := QUnlimited |>) (w <| w_next := S e |>))
  | e :: rest =>
      x ← w_ents w !! e;
      Some (0, Some e, set_ent e (x <| queue := QPending |>) (set_spq (sp <| free_pool := rest |>) w))
  end.

(** [__qed_spq_return_entry]; [qed_spq_return_entry] takes the lock around it. *)
Definition qed_spq_return_entry (w : spq_world) (e : nat) : option spq_world :=
  sp ← w_spq w;
  if may_link w sp e then Some (set_spq (sp <| free_pool := free_pool sp ++ [e] |>) w) else None.

(** [kfree] of an allocated entry: the pool is not [kzalloc] memory. *)
Definition kfree_ent (w : spq_world) (e : nat) : option spq_world :=
  sp ← w_spq w;
  if bool_decide (is_Some (w_ents w !! e)) && (capacity (chain sp) <=? Z.of_nat e)
  then Some (w <| w_ents := delete e (w_ents w) |>) else None.

Definition qed_sp_destroy_request (w : spq_world) (e : nat) : option spq_world :=
  x ← w_ents w !! e;
  match queue x with
  | QUnlimited => kfree_ent w e
  | _ => qed_spq_return_entry w e
  end.

Record qed_sp_init_data := mk_qed_sp_init_data {
  id_cid : Z;
  opaque_fid : Z;
  id_comp_mode : Z;
  p_comp_data : option (comp_fn * cookie_ptr)
}.

Definition qed_sp_init_request (w : spq_world) (cmd protocol : Z) (d : qed_sp_init_data)
    : option (Z * option nat * spq_world) :=
  let opaque_cid := u32 (Z.lor (Z.shiftl (opaque_fid d) 16) (id_cid d)) in
  '(rc, r, w) ← qed_spq_get_entry w;
  match r with
  | None => Some (rc, None, w)
  | Some e =>
      x ← w_ents w !! e;
      let x := x <| elem := elem x <| hdr_cid := opaque_cid |> <| hdr_cmd_id := u8 cmd |>
                                   <| hdr_protocol_id := u8 protocol |> |>
                 <| priority := QED_SPQ_PRIORITY_NORMAL |> <| comp_mode := id_comp_mode d |>
                 <| comp_done := comp_done x <| done := 0 |> |> in
      let r :=
        if id_comp_mode d =? QED_SPQ_MODE_EBLOCK then Some (x <| cb_cookie := CkEntry e |>)
        else if id_comp_mode d =? QED_SPQ_MODE_BLOCK then
          match p_comp_data d with None => None | Some (_, ck) => Some (x <| cb_cookie := ck |>) end
        else if id_comp_mode d =? QED_SPQ_MODE_CB then
          match p_comp_data d with
          | None => Some (x <| cb_function := FnNull |>)
          | Some (f, ck) => Some (x <| cb_function := f |> <| cb_cookie := ck |>)
          end
        else None in
      match r with
      | Some x => Some (0, Some e, set_ent e (x <| ramrod := 0 |>) w)
      | None => w ← qed_sp_destroy_request (set_ent e x w) e; Some (- EINVAL, Some e, w)
      end
  end.

(** [qed_spq_fill_entry]. *)
Definition qed_spq_fill_entry (x : qed_spq_entry) : Z * qed_spq_entry :=
  let x := x <| flags := 0 |> in
  if (comp_mode x =? QED_SPQ_MODE_EBLOCK) || (comp_mode x =? QED_SPQ_MODE_BLOCK)
  then (0, x <| cb_function := FnBlocking |>)
  else if comp_mode x =? QED_SPQ_MODE_CB then (0, x) else (- EINVAL, x).

(** ** The ring *)

Definition qed_spq_hw_post (w : spq_world) (e : nat) : option (Z * spq_world) :=
  sp ← w_spq w;
  x ← w_ents w !! e;
  let x := x <| elem := elem x <| hdr_echo := qed_chain_get_prod_idx (chain sp) |> |> in
  let w := set_ent e x w in
  '(addr, c) ← qed_chain_produce (w_mem w) (chain sp);
  let sp := sp <| chain := c |> in
  if addr =? 0 then Some (- EINVAL, set_spq sp w) else
  let w := w <| w_ring := <[addr := elem x]> (w_ring w) |> in
  let sp := sp <| spq_db_data := spq_db_data sp <| spq_prod := qed_chain_get_prod_idx c |> |> in
  Some (0, set_spq sp w <| w_rung := w_rung w ++ [(w_doorbells w + db_addr_offset sp, u32 (db_word (spq_db_data sp)))] |>).

(** The end of [qed_spq_add_entry]: the entry goes to the pending list. *)
Definition add_pending (w : spq_world) (e : nat) (prio : Z) : option (Z * spq_world) :=
  sp ← w_spq w;
  if prio =? QED_SPQ_PRIORITY_NORMAL then
    if may_link w sp e
    then Some (0, set_spq (sp <| pending := pending sp ++ [e] |> <| normal_count := u32 (normal_count sp + 1) |>) w)
    else None
  else if prio =? QED_SPQ_PRIORITY_HIGH then
    if may_link w sp e
    then Some (0, set_spq (sp <| pending := e :: pending sp |> <| high_count := u32 (high_count sp + 1) |>) w)
    else None
  else Some (- EINVAL, w).

Definition qed_spq_add_entry (w : spq_world) (e : nat) (prio : Z) : option (Z * spq_world) :=
  sp ← w_spq w;
  x ← w_ents w !! e;
  match queue x with
  | QUnlimited =>
      match free_pool sp with
      | [] =>
          if may_link w sp e
          then Some (0, set_spq (sp <| unlimited_pending := unlimited_pending sp ++ [e] |>
                                    <| unlimited_pending_count := u32 (unlimited_pending_count sp + 1) |>) w)
          else None
      | e2 :: rest =>
          x2 ← w_ents w !! e2;
          let w := set_spq (sp <| free_pool := rest |>) w in
          let x := x <| elem := elem x <| data_ptr := data_ptr (elem x2) |> |> in
          let w := set_ent e2 x (set_ent e x w) in
          w ← (if negb (comp_mode x =? QED_SPQ_MODE_EBLOCK) then kfree_ent w e
               else Some (set_ent e (x <| post_ent := Some e2 |>) w));
          add_pending w e2 prio
      end
  | _ => add_pending w e prio
  end.

(** [qed_spq_post_list] on the pending list: each round takes its first entry,
    so its length bounds the rounds. *)
Fixpoint post_list_loop (fuel : nat) (w : spq_world) (keep_reserve : Z) : option (Z * spq_world) :=
  match fuel with
  | O => Some (0, w)
  | S fuel =>
      sp ← w_spq w;
      if negb (keep_reserve <? qed_chain_get_elem_left (chain sp)) then Some (0, w) else
      match pending sp with
      | [] => Some (0, w)
      | e :: _ =>
          sp ← list_del w sp e;
          if may_link w sp e then
            let sp := sp <| completion_pending := completion_pending sp ++ [e] |>
                         <| comp_sent_count := u32 (comp_sent_count sp + 1) |> in
            '(rc, w) ← qed_spq_hw_post (set_spq sp w) e;
            if negb (rc =? 0) then
              sp ← w_spq w;
              sp ← list_del w sp e;
              w ← qed_spq_return_entry (set_spq sp w) e;
              Some (rc, w)
            else post_list_loop fuel w keep_reserve
          else None
      end
  end.

Definition qed_spq_post_list (w : spq_world) (keep_reserve : Z) : option (Z * spq_world) :=
  sp ← w_spq w; post_list_loop (length (pending sp)) w keep_reserve.

(** The loop of [qed_spq_pend_post]: each round empties one place of the
    unlimited list. *)
Fixpoint pend_loop (fuel : nat) (w : spq_world) : option spq_world :=
  match fuel with
  | O => Some w
  | S fuel =>
      sp ← w_spq w;
      match free_pool sp, unlimited_pending sp with
      | _ :: _, e :: _ =>
          sp ← list_del w sp e;
          x ← w_ents w !! e;
          '(_, w) ← qed_spq_add_entry (set_spq sp w) e (priority x);
          pend_loop fuel w
      | _, _ => Some w
      end
  end.

Definition qed_spq_pend_post (w : spq_world) : option (Z * spq_world) :=
  sp ← w_spq w;
  w ← pend_loop (length (unlimited_pending sp)) w;
  qed_spq_post_list w SPQ_HIGH_PRI_RESERVE_DEFAULT.

(** The bitmap macros and the loop of [qed_spq_comp_bmap_update].  Each round
    clears a bit, so one round more than there are bits is enough. *)
Definition SPQ_COMP_BMAP_SET_BIT (sp : qed_spq) (idx : Z) : qed_spq :=
  sp <| p_comp_bitmap := Z.setbit (p_comp_bitmap sp) (idx mod SPQ_RING_SIZE) |>.
Definition SPQ_COMP_BMAP_CLEAR_BIT (sp : qed_spq) (idx : Z) : qed_spq :=
  sp <| p_comp_bitmap := Z.clearbit (p_comp_bitmap sp) (idx mod SPQ_RING_SIZE) |>.
Definition SPQ_COMP_BMAP_TEST_BIT (sp : qed_spq) (idx : Z) : bool :=
  Z.testbit (p_comp_bitmap sp) (idx mod SPQ_RING_SIZE).

Fixpoint bmap_loop (fuel : nat) (sp : qed_spq) : option qed_spq :=
  match fuel with
  | O => None
  | S fuel =>
      if SPQ_COMP_BMAP_TEST_BIT sp (comp_bitmap_idx sp) then
        let sp := SPQ_COMP_BMAP_CLEAR_BIT sp (comp_bitmap_idx sp) in
        let sp := sp <| comp_bitmap_idx := u8 (comp_bitmap_idx sp + 1) |> in
        bmap_loop fuel (sp <| chain := qed_chain_return_produced (chain sp) |>)
      else Some sp
  end.

Definition bmap_fuel : nat := Z.to_nat (SPQ_RING_SIZE + 1).

Definition qed_spq_comp_bmap_update (sp : qed_spq) (echo : Z) : option qed_spq :=
  bmap_loop bmap_fuel (SPQ_COMP_BMAP_SET_BIT sp echo).

(** [qed_spq_blocking_cb]. *)
Definition qed_spq_blocking_cb (w : spq_world) (ck : cookie_ptr) (fw_ret : Z) : option spq_world :=
  match ck with
  | CkEntry e => x ← w_ents w !! e; Some (set_ent e (x <| comp_done := mk_qed_spq_comp_done 1 fw_ret |>) w)
  | CkMem a => Some (w <| w_done := <[a := mk_qed_spq_comp_done 1 fw_ret]> (w_done w) |>)
  end.

Section Callbacks.
(** The clients' completion callbacks (function, cookie, event data, firmware
    return code) and their asynchronous event callbacks, the SR-IOV code's
    handler of VF events, and what the rest of the system does during one delay
    of a waiting client. *)
Context (client_cb : Z -> cookie_ptr -> Z -> Z -> spq_world -> option spq_world).
Context (async_cb : Z -> event_ring_entry -> spq_world -> option (Z * spq_world)).
Context (iov_async_event_completion : event_ring_entry -> spq_world -> option (Z * spq_world)).
Context (others : spq_world -> option spq_world).

(** ** Completions *)

(** The first entry of the completion list with an echo. *)
Fixpoint find_echo (w : spq_world) (l : list nat) (echo : Z) : option (option nat) :=
  match l with
  | [] => Some None
  | e :: l => x ← w_ents w !! e; if hdr_echo (elem x) =? echo then Some (Some e) else find_echo w l echo
  end.

Definition call_comp_cb (w : spq_world) (x : qed_spq_entry) (fw_ret data : Z) : option spq_world :=
  match cb_function x with
  | FnNull => Some w
  | FnBlocking => qed_spq_blocking_cb w (cb_cookie x) fw_ret
  | FnClient f => client_cb f (cb_cookie x) data fw_ret w
  end.

(** The part of [qed_spq_completion] under the lock: the return code and the
    entry found, unlinked and accounted for. *)
Definition completion_take (w : spq_world) (echo : Z) : option (Z * option nat * spq_world) :=
  match w_spq w with
  | None => Some (- EINVAL, None, w)
  | Some sp =>
      found ← find_echo w (completion_pending sp) echo;
      match found with
      | None => Some (- EEXIST, None, w)
      | Some e =>
          x ← w_ents w !! e;
          if drop_next_completion sp && (comp_mode x =? QED_SPQ_MODE_EBLOCK)
          then Some (0, None, set_spq (sp <| drop_next_completion := false |>) w) else
          sp ← list_del w sp e;
          sp ← qed_spq_comp_bmap_update sp echo;
          Some (0, Some e, set_spq (sp <| comp_count := u32 (comp_count sp + 1) |>) w)
      end
  end.

(** Its end, after the callback: the mode is read from the entry again. *)
Definition completion_end (w : spq_world) (e : nat) : option spq_world :=
  x ← w_ents w !! e;
  if negb (comp_mode x =? QED_SPQ_MODE_EBLOCK) then qed_spq_return_entry w e else Some w.

Definition qed_spq_completion (w : spq_world) (echo fw_ret data : Z) : option (Z * spq_world) :=
  '(rc, found, w) ← completion_take w echo;
  match found with
  | None => Some (rc, w)
  | Some e =>
      x ← w_ents w !! e;
      w ← call_comp_cb w x fw_ret data;
      w ← completion_end w e;
      Some (0, w)
  end.

Definition qed_spq_drop_next_completion (w : spq_world) : option spq_world :=
  sp ← w_spq w; Some (set_spq (sp <| drop_next_completion := true |>) w).

(** [qed_eth_cqe_completion] with [qed_cqe_completion]. *)
Definition qed_eth_cqe_completion (is_vf : bool) (w : spq_world) (echo : Z) : option (Z * spq_world) :=
  if is_vf then Some (0, w) else qed_spq_completion w echo 0 0.

Definition qed_async_event_completion (is_pf : bool) (w : spq_world) (eqe : event_ring_entry) : option (Z * spq_world) :=
  if MAX_PROTOCOL_TYPE <=? protocol_id eqe then Some (- EINVAL, w) else
  if is_pf && negb (vf_id eqe =? QED_CXT_PF_CID) && negb (protocol_id eqe =? PROTOCOLID_COMMON) &&
     negb ((protocol_id eqe =? PROTOCOLID_ROCE) && (opcode eqe =? ROCE_ASYNC_EVENT_DESTROY_QP_DONE))
  then iov_async_event_completion eqe w else
  sp ← w_spq w;
  cb ← async_comp_cb sp !! Z.to_nat (protocol_id eqe);
  match cb with
  | None => Some (- EINVAL, w)
  | Some f => async_cb f eqe w
  end.

Definition qed_spq_register_async_cb (w : spq_world) (protocol : Z) (cb : Z) : Z * spq_world :=
  match w_spq w with
  | Some sp =>
      if (MAX_PROTOCOL_TYPE <=? protocol) || (protocol <? 0) then (- EINVAL, w)
      else (0, set_spq (sp <| async_comp_cb := <[Z.to_nat protocol := Some cb]> (async_comp_cb sp) |>) w)
  | None => (- EINVAL, w)
  end.

Definition qed_spq_unregister_async_cb (w : spq_world) (protocol : Z) : spq_world :=
  match w_spq w with
  | Some sp =>
      if (MAX_PROTOCOL_TYPE <=? protocol) || (protocol <? 0) then w
      else set_spq (sp <| async_comp_cb := <[Z.to_nat protocol := None]> (async_comp_cb sp) |>) w
  | None => w
  end.

Definition qed_spq_get_cid (w : spq_world) : Z :=
  match w_spq w with Some sp => cid sp | None => 0xffffffff end.

(** ** The event queue *)

Definition qed_eq_prod_update (w : spq_world) (prod : Z) : spq_world := w <| w_eq_prods := w_eq_prods w ++ [prod] |>.

(** One event, as the loop of [qed_eq_completion] dispatches it. *)
Definition eq_dispatch (is_pf : bool) (w : spq_world) (eqe : event_ring_entry) : option spq_world :=
  '(_, w) ← (if Z.testbit (eqe_flags eqe) 0 then qed_async_event_completion is_pf w eqe
             else qed_spq_completion w (echo eqe) (eqe_fw_return_code eqe) (eqe_data eqe));
  Some w.

(** The loop of [qed_eq_completion]; the 16-bit consumer index meets the
    firmware's within [2^16] rounds. *)
Fixpoint eq_loop (fuel : nat) (is_pf : bool) (fw_cons_idx : Z) (c : qed_chain) (w : spq_world)
    : option (qed_chain * spq_world) :=
  match fuel with
  | O => None
  | S fuel =>
      if fw_cons_idx =? qed_chain_get_cons_idx c then Some (c, w) else
      '(addr, c) ← qed_chain_consume (w_mem w) c;
      if addr =? 0 then Some (c, w) else
      eqe ← w_eqes w !! addr;
      w ← eq_dispatch is_pf w eqe;
      eq_loop fuel is_pf fw_cons_idx (qed_chain_recycle_consumed c) w
  end.

Definition eq_fuel : nat := Z.to_nat (2 ^ 16).

(** [fw_cons] is the index the firmware last wrote to [*p_eq->p_fw_cons]. *)
Definition qed_eq_completion (is_pf : bool) (fw_cons : Z) (c : qed_chain) (w : spq_world)
    : option (Z * qed_chain * spq_world) :=
  match w_spq w with
  | None => Some (- EINVAL, c, w)
  | Some _ =>
      let usable := qed_chain_get_usable_per_page c in
      let fw_cons := if Z.land fw_cons usable =? usable
                     then u16 (fw_cons + qed_chain_get_unusable_per_page c) else fw_cons in
      '(c, w) ← eq_loop eq_fuel is_pf fw_cons c w;
      let w := qed_eq_prod_update w (qed_chain_get_prod_idx c) in
      '(rc, w) ← qed_spq_pend_post w;
      Some (rc, c, w)
  end.

(** ** Posting *)

Definition qed_spq_recov_set_ret_code (x : qed_spq_entry) : option Z :=
  if (hdr_protocol_id (elem x) =? PROTOCOLID_ROCE) || (hdr_protocol_id (elem x) =? PROTOCOLID_IWARP)
  then Some RDMA_RETURN_OK else None.

(** The part of [qed_spq_post] under the lock: the return code and, on success,
    whether the client asked to wait (EBLOCK). *)
Definition post_locked (w : spq_world) (e : nat) : option (Z * bool * spq_world) :=
  x ← w_ents w !! e;
  let '(rc, x) := qed_spq_fill_entry x in
  let w := set_ent e x w in
  if negb (rc =? 0) then w ← qed_spq_return_entry w e; Some (rc, false, w) else
  let eblock := comp_mode x =? QED_SPQ_MODE_EBLOCK in
  '(rc, w) ← qed_spq_add_entry w e (priority x);
  if negb (rc =? 0) then w ← qed_spq_return_entry w e; Some (rc, false, w) else
  '(rc, w) ← qed_spq_pend_post w;
  if negb (rc =? 0) then Some (rc, false, w) else Some (0, eblock, w).

(** The completion word a cookie points to. *)
Definition comp_done_at (w : spq_world) (ck : cookie_ptr) : option qed_spq_comp_done :=
  match ck with
  | CkEntry e => comp_done <$> w_ents w !! e
  | CkMem a => Some (default (mk_qed_spq_comp_done 0 0) (w_done w !! a))
  end.

(** [__qed_spq_block]: at most [n] polls; the value read into [*p_fw_ret]. *)
Fixpoint block_loop (n : nat) (ck : cookie_ptr) (w : spq_world) : option (Z * option Z * spq_world) :=
  match n with
  | O => Some (- EBUSY, None, w)
  | S n =>
      if w_recov w then Some (0, None, w) else
      d ← comp_done_at w ck;
      if done d =? 1 then Some (0, Some (fw_return_code d), w) else
      w ← others w;
      block_loop n ck w
  end.

Definition spq_block_once (is_emul : bool) (w : spq_world) (e : nat) (sleep_between_iter : bool)
    : option (Z * option Z * spq_world) :=
  sp ← w_spq w;
  x ← w_ents w !! e;
  let iter_cnt := if sleep_between_iter then block_sleep_max_iter sp else SPQ_BLOCK_DELAY_MAX_ITER in
  let iter_cnt := if is_emul && sleep_between_iter then u32 (iter_cnt * 5) else iter_cnt in
  block_loop (Z.to_nat iter_cnt) (cb_cookie x) w.

(** [qed_spq_block]; [ptt_ok] and [drain_rc] are the outcomes of acquiring a
    PTT entry and of the drain request to the management firmware. *)
Definition qed_spq_block (is_emul ptt_ok : bool) (drain_rc : Z) (w : spq_world) (e : nat) (skip_quick_poll : bool)
    : option (Z * option Z * spq_world) :=
  '(rc, fw, w) ← (if skip_quick_poll then Some (- EBUSY, None, w) else spq_block_once is_emul w e false);
  if rc =? 0 then Some (rc, fw, w) else
  '(rc, fw, w) ← spq_block_once is_emul w e true;
  if rc =? 0 then Some (rc, fw, w) else
  if negb ptt_ok then Some (rc, None, w) else
  if negb (drain_rc =? 0) then Some (drain_rc, None, w) else
  '(rc, fw, w) ← spq_block_once is_emul w e true;
  if rc =? 0 then Some (rc, fw, w) else
  x ← w_ents w !! e;
  d ← comp_done_at w (cb_cookie x);
  if done d =? 1 then Some (0, Some (fw_return_code d), w) else Some (- EBUSY, None, w).

Definition qed_set_spq_block_timeout (w : spq_world) (spq_timeout_ms : Z) : option spq_world :=
  sp ← w_spq w;
  Some (set_spq (sp <| block_sleep_max_iter :=
    if negb (spq_timeout_ms =? 0) then spq_timeout_ms / SPQ_BLOCK_SLEEP_MS else SPQ_BLOCK_SLEEP_MAX_ITER |>) w).

(** The clean-up of [qed_spq_post] after waiting: an allocated entry is freed
    and the pool entry posted in its place ([post_ent]) takes over; NULL there
    is a fault at its first use. *)
Definition post_finish (w : spq_world) (e : nat) (rc : Z) : option (Z * spq_world) :=
  x ← w_ents w !! e;
  '(e, w) ← match queue x with
            | QUnlimited => w ← kfree_ent w e; e2 ← post_ent x; Some (e2, w)
            | _ => Some (e, w)
            end;
  if negb (rc =? 0) then
    sp ← w_spq w;
    sp ← list_del w sp e;
    x ← w_ents w !! e;
    sp ← qed_spq_comp_bmap_update sp (hdr_echo (elem x));
    w ← qed_spq_return_entry (set_spq sp w) e;
    Some (rc, w)
  else
    w ← qed_spq_return_entry w e;
    Some (rc, w).

Definition qed_spq_post (is_emul ptt_ok : bool) (drain_rc : Z) (w : spq_world) (p_ent : option nat)
    : option (Z * option Z * spq_world) :=
  match p_ent with
  | None => Some (- EINVAL, None, w)
  | Some e =>
      x ← w_ents w !! e;
      if w_recov w then Some (0, qed_spq_recov_set_ret_code x, w) else
      '(rc, wait, w) ← post_locked w e;
      if negb (rc =? 0) then Some (rc, None, w) else
      if negb wait then Some (0, None, w) else
      x ← w_ents w !! e;
      '(rc, fw, w) ← qed_spq_block is_emul ptt_ok drain_rc w e (match queue x with QUnlimited => true | _ => false end);
      '(rc, w) ← post_finish w e rc;
      Some (rc, fw, w)
  end.
End Callbacks.
