(* ===== verification/SpqRing.v ===== *)
(** * The slow path ring: echo values, bitmap and slots

    Elements are numbered in the order they are posted.  The echo of an element
    is its number modulo [2^16], its slot and its bit the number modulo the ring
    size; [n] were posted and [k] released.  The lemmas say what posting and
    completing one element do to this picture. *)

From S2P Require Import Prelude Dma Chain ChainRing Spq.

(** ** The ring's geometry *)

(** The chain of the SPQ: one page of [SPQ_RING_SIZE] elements with 16-bit
    indices. *)
Record spq_chain (c : qed_chain) : Prop := {
  sc_u16 : cnt_type c = QED_CHAIN_CNT_TYPE_U16;
  sc_mode : mode c = QED_CHAIN_MODE_SINGLE;
  sc_cap : capacity c = SPQ_RING_SIZE;
  sc_usable : usable_per_page c = SPQ_RING_SIZE;
  sc_epp : elem_per_page c = SPQ_RING_SIZE;
  sc_unusable : elem_unusable c = 0;
  sc_size : elem_size c = sizeof_slow_path_element;
  sc_pages : page_cnt c = 1
}.

Lemma spq_chain_cfg c c' : cfg c' = cfg c -> spq_chain c -> spq_chain c'.
Proof.
  intros E [H1 H2 H3 H4 H5 H6 H7 H8].
  pose proof (f_equal cnt_type E) as E1. pose proof (f_equal mode E) as E2. pose proof (f_equal capacity E) as E3.
  pose proof (f_equal usable_per_page E) as E4. pose proof (f_equal elem_per_page E) as E5.
  pose proof (f_equal elem_unusable E) as E6. pose proof (f_equal elem_size E) as E7. pose proof (f_equal page_cnt E) as E8.
  simpl in *. split; congruence.
Qed.

Lemma spq_idx c n : spq_chain c -> lazy_idx c n = n /\ (0 <= n -> eager_idx c n = n).
Proof.
  intros C. assert (H0 : elem_unusable c = 0) by apply C.
  assert (Hu : usable_per_page c + elem_unusable c = elem_per_page c)
    by (rewrite (sc_usable _ C), (sc_epp _ C), H0; reflexivity).
  assert (Hp : 0 < usable_per_page c) by (rewrite (sc_usable _ C); reflexivity). split.
  - by apply lazy_idx_dense.
  - intros _. by apply eager_idx_dense.
Qed.
Definition spq_slot (base n : Z) : Z := base + sizeof_slow_path_element * (n mod SPQ_RING_SIZE).

Lemma ring_size : SPQ_RING_SIZE = 256.
Proof. reflexivity. Qed.

Lemma spq_slot_addr c base n : spq_chain c -> slot_addr c [base] n = spq_slot base n.
Proof.
  intros C. unfold slot_addr, spq_slot. rewrite (sc_pages _ C), (sc_usable _ C), (sc_size _ C), Z.mod_1_r. reflexivity.
Qed.

(** Numbers less than a ring apart have different slots. *)
Lemma spq_slot_inj base p q : spq_slot base p = spq_slot base q -> Z.abs (p - q) < SPQ_RING_SIZE -> p = q.
Proof.
  unfold spq_slot, sizeof_slow_path_element. rewrite ring_size. intros E Ha.
  pose proof (Z.div_mod p 256 ltac:(lia)). pose proof (Z.div_mod q 256 ltac:(lia)). nia.
Qed.

Lemma mod_ring_inj p q : p mod SPQ_RING_SIZE = q mod SPQ_RING_SIZE -> Z.abs (p - q) < SPQ_RING_SIZE -> p = q.
Proof. intros E. apply (spq_slot_inj 0). unfold spq_slot. by rewrite E. Qed.

Lemma u16_ring q : u16 q mod SPQ_RING_SIZE = q mod SPQ_RING_SIZE.
Proof. unfold u16. rewrite ring_size. change 256 with (2 ^ 8). apply mod_mod_pow2. lia. Qed.

(** Echo values less than a ring apart are different. *)
Lemma echo_inj p q : u16 p = u16 q -> Z.abs (p - q) < SPQ_RING_SIZE -> p = q.
Proof. intros E. apply mod_ring_inj. by rewrite <- (u16_ring p), <- (u16_ring q), E. Qed.

(** ** The bitmap *)

(** Bit [i] is set exactly when the element in flight with that slot is
    completed; [seqs] are the numbers not yet completed. *)
Definition bits_ok (bm k n : Z) (seqs : list Z) : Prop :=
  forall i, 0 <= i < SPQ_RING_SIZE ->
    Z.testbit bm i = true <-> exists q, k <= q < n /\ q mod SPQ_RING_SIZE = i /\ q ∉ seqs.

Lemma bits_test bm k n seqs q :
  bits_ok bm k n seqs -> k <= q -> q - k < SPQ_RING_SIZE -> n - k <= SPQ_RING_SIZE ->
  Z.testbit bm (q mod SPQ_RING_SIZE) = bool_decide (q < n /\ q ∉ seqs).
Proof.
  intros B Hk Hq Hn.
  pose proof (Z.mod_pos_bound q SPQ_RING_SIZE ltac:(rewrite ring_size; lia)) as Hm.
  specialize (B _ Hm). apply eq_bool_prop_intro. rewrite Is_true_true, B, bool_decide_spec. split.
  - intros (p & Hp & E & Hs). assert (p = q) as -> by (apply mod_ring_inj; [done|lia]). tauto.
  - intros [H1 H2]. exists q. auto.
Qed.
Lemma bits_set bm k n seqs1 q seqs2 :
  bits_ok bm k n (seqs1 ++ q :: seqs2) -> NoDup (seqs1 ++ q :: seqs2) -> k <= q < n -> n - k <= SPQ_RING_SIZE ->
  bits_ok (Z.setbit bm (q mod SPQ_RING_SIZE)) k n (seqs1 ++ seqs2).
Proof.
  intros B ND Hq Hn i Hi. rewrite Z.setbit_eqb by (apply Z.mod_pos_bound; rewrite ring_size; lia).
  rewrite orb_true_iff, (B i Hi), Z.eqb_eq. split.
  - intros [<-|(p & Hp & E & Hs)].
    + exists q. split_and!; [lia|lia|done|]. intros Hin. apply NoDup_ListNoDup, NoDup_remove_2 in ND. apply ND. by apply list_elem_of_In.
    + exists p. split_and!; try done; try lia. set_solver.
  - intros (p & Hp & E & Hs). destruct (decide (p = q)) as [->|Hne]; [by left|].
    right. exists p. split_and!; try done; try lia. set_solver.
Qed.

Lemma bits_clear bm k n seqs :
  bits_ok bm k n seqs -> k < n -> n - k <= SPQ_RING_SIZE ->
  bits_ok (Z.clearbit bm (k mod SPQ_RING_SIZE)) (k + 1) n seqs.
Proof.
  intros B Hk Hn i Hi.
  pose proof (Z.mod_pos_bound k SPQ_RING_SIZE ltac:(rewrite ring_size; lia)) as Hm.
  rewrite Z.clearbit_eqb, andb_true_iff, negb_true_iff, Z.eqb_neq, (B i Hi). split.
  - intros [(p & Hp & E & Hs) Hne]. exists p. split_and!; try done; try lia.
    destruct (decide (p = k)) as [->|]; [done|lia].
  - intros (p & Hp & E & Hs). split; [exists p; split_and!; try done; lia|].
    intros E2. rewrite <- E in E2. apply mod_ring_inj in E2; rewrite ring_size in *; lia.
Qed.

(** The bits of a fresh element are clear, and stay so when it is in flight. *)
Lemma bits_post bm k n seqs :
  bits_ok bm k n seqs -> k <= n -> n - k < SPQ_RING_SIZE -> (forall q, q ∈ seqs -> q < n) ->
  bits_ok bm k (n + 1) (seqs ++ [n]).
Proof.
  intros B Hk Hn Hlt i Hi. rewrite (B i Hi). split.
  - intros (q & Hq & E & Hs). exists q. split_and!; try done; try lia. set_solver by lia.
  - intros (q & Hq & E & Hs). exists q. assert (q <> n) by (intros ->; set_solver).
    split_and!; try done; try lia. set_solver.
Qed.

(** The loop advances over the completed elements at the head and stops at the
    first one still in flight. *)
Lemma bmap_loop_spec m base n seqs fuel : forall k sp,
  tx_at m (chain sp) [base] n k -> spq_chain (chain sp) ->
  0 <= k <= n -> n - k < SPQ_RING_SIZE -> (Z.to_nat (n - k) < fuel)%nat ->
  comp_bitmap_idx sp = k mod SPQ_RING_SIZE -> bits_ok (p_comp_bitmap sp) k n seqs ->
  exists k' c bm, bmap_loop fuel sp =
      Some (sp <| p_comp_bitmap := bm |> <| comp_bitmap_idx := k' mod SPQ_RING_SIZE |> <| chain := c |>) /\
    k <= k' <= n /\ tx_at m c [base] n k' /\ spq_chain c /\ bits_ok bm k' n seqs /\
    (forall q, k <= q < k' -> q ∉ seqs) /\ (k' < n -> k' ∈ seqs).
Proof.
  assert (HR := ring_size). induction fuel as [|fuel IH]; intros k sp Ht Hc Hk Hn Hf Hi B; [lia|].
  cbn [bmap_loop]. unfold SPQ_COMP_BMAP_TEST_BIT at 1. rewrite Hi, Z.mod_mod by lia.
  rewrite (bits_test _ _ _ _ k B) by lia. destruct (bool_decide _) eqn:Eb.
  - apply bool_decide_eq_true_1 in Eb as [Hlt Hs].
    destruct (return_tx _ _ _ _ _ Ht ltac:(lia)) as [Ht' Hcfg].
    match goal with |- context [bmap_loop fuel ?sp'] =>
      destruct (IH (k + 1) sp') as (k' & c & bm & E & Hk' & Ht2 & Hc2 & B2 & Hd & Hh) end.
    + exact Ht'.
    + simpl. by eapply spq_chain_cfg.
    + lia.
    + lia.
    + lia.
    + unfold SPQ_COMP_BMAP_CLEAR_BIT. simpl. rewrite Hi. unfold u8. rewrite HR. change (2 ^ 8) with 256. rewrite Z.add_mod_idemp_l by lia. reflexivity.
    + unfold SPQ_COMP_BMAP_CLEAR_BIT. simpl. rewrite Z.mod_mod by lia. apply bits_clear; [done|lia|lia].
    + exists k', c, bm. split; [exact E|]. split_and!; try done; try lia. intros q Hq.
      destruct (decide (q = k)) as [->|]; [done|apply Hd; lia].
  - apply bool_decide_eq_false_1 in Eb. exists k, (chain sp), (p_comp_bitmap sp). rewrite <- Hi.
    split; [by destruct sp|]. split_and!; try done; try lia. intros Hlt. destruct (decide (k ∈ seqs)); [done|tauto].
Qed.

(** ** The ring invariant *)

(** [n] elements were posted, [k] are released; [seqs] gives the number of each
    entry on the completion list.  The element of an entry in flight is intact
    in its slot, and the consumer waits for the first one. *)
Record ring_ok (base n k : Z) (seqs : list Z) (w : spq_world) (sp : qed_spq) : Prop := {
  ro_base : 0 < base;
  ro_tx : tx_at (w_mem w) (chain sp) [base] n k;
  ro_chain : spq_chain (chain sp);
  ro_range : 0 <= k <= n /\ n - k < SPQ_RING_SIZE;
  ro_idx : comp_bitmap_idx sp = k mod SPQ_RING_SIZE;
  ro_bits : bits_ok (p_comp_bitmap sp) k n seqs;
  ro_nodup : NoDup seqs;
  ro_slots : Forall2 (fun e q => k <= q < n /\ exists x, w_ents w !! e = Some x /\
      hdr_echo (elem x) = u16 q /\ w_ring w !! spq_slot base q = Some (elem x)) (completion_pending sp) seqs;
  ro_head : k < n -> k ∈ seqs
}.

Lemma seqs_range base n k seqs w sp : ring_ok base n k seqs w sp -> forall q, q ∈ seqs -> k <= q < n.
Proof.
  intros R q Hq. apply list_elem_of_lookup_1 in Hq as [i Hi].
  destruct (Forall2_lookup_r _ _ _ _ _ (ro_slots _ _ _ _ _ _ R) Hi) as (e & _ & Hq & _). done.
Qed.

Lemma prod_idx_spq m c base n k :
  tx_at m c [base] n k -> spq_chain c -> 0 <= n -> qed_chain_get_prod_idx c = u16 n.
Proof.
  intros [_ _ [Hp _] _] C Hn. unfold qed_chain_get_prod_idx.
  unfold idx_prod, wrapw, width, is_chain_u16 in Hp. rewrite (sc_u16 _ C), bool_decide_true in Hp by done.
  rewrite Hp. rewrite (proj1 (spq_idx c n C)). reflexivity.
Qed.

(** The free count. *)
Lemma elem_left_spq base n k seqs w sp :
  ring_ok base n k seqs w sp -> qed_chain_get_elem_left (chain sp) = SPQ_RING_SIZE - (n - k).
Proof.
  intros R. pose proof (ro_chain _ _ _ _ _ _ R) as C. destruct (ro_range _ _ _ _ _ _ R) as [Hk Hn].
  destruct (ro_tx _ _ _ _ _ _ R) as [G W [Hp _] Hc].
  assert (E : elem_left (chain sp) = capacity (chain sp) - (n - k)).
  { apply (elem_left_lazy _ _ _ _ _ G).
    - unfold width, is_chain_u16. rewrite (sc_u16 _ C), (sc_epp _ C), (sc_pages _ C), bool_decide_true by done. reflexivity.
    - rewrite (sc_unusable _ C). lia.
    - exact Hp.
    - rewrite Hc. rewrite (proj1 (spq_idx _ k C)), (proj2 (spq_idx _ k C)) by lia. reflexivity.
    - lia.
    - rewrite (sc_cap _ C). lia. }
  rewrite (sc_cap _ C) in E. unfold elem_left, is_chain_u16 in E. rewrite (sc_u16 _ C), bool_decide_true in E by done. exact E.
Qed.
(** What concerns neither the ring nor the entries in flight keeps it. *)
Lemma ring_frame base n k seqs w sp w' sp' :
  ring_ok base n k seqs w sp -> w_mem w' = w_mem w -> w_ring w' = w_ring w -> chain sp' = chain sp ->
  comp_bitmap_idx sp' = comp_bitmap_idx sp -> p_comp_bitmap sp' = p_comp_bitmap sp ->
  completion_pending sp' = completion_pending sp ->
  (forall e x, e ∈ completion_pending sp -> w_ents w !! e = Some x ->
     exists x', w_ents w' !! e = Some x' /\ elem x' = elem x) ->
  ring_ok base n k seqs w' sp'.
Proof.
  intros R E1 E2 E3 E4 E5 E6 He. destruct R as [R1 R2 R3 R4 R5 R6 R7 R8 R9].
  split; rewrite ?E1, ?E3, ?E4, ?E5; try done. rewrite E6, E2.
  apply Forall2_same_length_lookup. split; [by eapply Forall2_length|].
  intros i e q Hi Hq. destruct (Forall2_lookup_lr _ _ _ _ _ _ R8 Hi Hq) as (Hr & x & Hx & Hec & Hs). split; [done|].
  destruct (He e x) as (x' & Hx' & Ee); [by eapply list_elem_of_lookup_2|done|]. exists x'. by rewrite Ee.
Qed.

(** Posting an entry: it gets the next number as its echo, its element goes to
    a slot no entry in flight uses, and the doorbell carries the new producer. *)
Lemma hw_post_ring base n k seqs w sp e x cnt :
  ring_ok base n k seqs w sp -> n - k < SPQ_RING_SIZE - 1 -> e ∉ completion_pending sp -> w_ents w !! e = Some x ->
  let sp1 := sp <| completion_pending := completion_pending sp ++ [e] |> <| comp_sent_count := cnt |> in
  let x' := x <| elem := elem x <| hdr_echo := u16 n |> |> in
  exists c, let sp' := sp1 <| chain := c |> <| spq_db_data := spq_db_data sp1 <| spq_prod := u16 (n + 1) |> |> in
  let w' := w <| w_spq := Some sp' |> <| w_ents := <[e := x']> (w_ents w) |>
              <| w_ring := <[spq_slot base n := elem x']> (w_ring w) |>
              <| w_rung := w_rung w ++ [(w_doorbells w + db_addr_offset sp, u32 (db_word (spq_db_data sp')))] |> in
  qed_spq_hw_post (set_spq sp1 w) e = Some (0, w') /\ ring_ok base (n + 1) k (seqs ++ [n]) w' sp'.
Proof.
  intros R Hn He Hx sp1 x'. assert (HR := ring_size).
  pose proof (ro_chain _ _ _ _ _ _ R) as C. pose proof (ro_range _ _ _ _ _ _ R) as [Hk Hnk].
  pose proof (seqs_range _ _ _ _ _ _ R) as Hseq.
  destruct (produce_tx _ _ _ _ _ (ro_tx _ _ _ _ _ _ R) ltac:(lia)) as (c & Hp & Ht & Hcfg).
  assert (C' : spq_chain c) by by eapply spq_chain_cfg. exists c. split.
  - unfold qed_spq_hw_post. cbn [w_spq set_spq mbind option_bind]. change (w_spq (set_spq sp1 w)) with (Some sp1).
    cbn [mbind option_bind]. change (w_ents (set_spq sp1 w) !! e) with (w_ents w !! e). rewrite Hx. cbn [mbind option_bind].
    change (chain sp1) with (chain sp). rewrite (prod_idx_spq _ _ _ _ _ (ro_tx _ _ _ _ _ _ R) C) by lia.
    change (w_mem (set_ent e _ (set_spq sp1 w))) with (w_mem w). rewrite Hp. cbn [mbind option_bind].
    rewrite (spq_slot_addr _ _ _ C). replace (spq_slot base n =? 0) with false.
    + rewrite (prod_idx_spq _ _ _ _ _ Ht C') by lia. reflexivity.
    + symmetry. apply Z.eqb_neq. pose proof (ro_base _ _ _ _ _ _ R). unfold spq_slot, sizeof_slow_path_element.
      pose proof (Z.mod_pos_bound n SPQ_RING_SIZE). lia.
  - split; simpl; try done.
    + apply R.
    + lia.
    + apply R.
    + apply bits_post; [apply R|lia|lia|]. intros q Hq. apply Hseq in Hq. lia.
    + apply list.NoDup_app. split_and!; [apply R| |apply NoDup_singleton]. intros q Hq Hin. apply list_elem_of_singleton in Hin as ->.
      apply Hseq in Hq. lia.
    + apply Forall2_app.
      * apply Forall2_same_length_lookup. split; [exact (Forall2_length (ro_slots _ _ _ _ _ _ R))|].
        intros i e' q Hi Hq. destruct (Forall2_lookup_lr _ _ _ _ _ _ (ro_slots _ _ _ _ _ _ R) Hi Hq) as (Hr & y & Hy & Hec & Hs).
        apply list_elem_of_lookup_2 in Hi. split; [lia|]. exists y.
        rewrite !lookup_insert_ne; [done| |congruence]. intros E. apply spq_slot_inj in E; lia.
      * constructor; [|constructor]. split; [lia|]. exists x'. rewrite !lookup_insert_eq. done.
    + intros _. destruct (decide (k = n)) as [->|]; [set_solver|]. apply elem_of_app. left. apply R. lia.
Qed.

(** Completing an entry in flight: the consumer moves on to the first element
    that is not completed; every other element stays in place. *)
Lemma complete_ring base n k seqs1 q seqs2 w sp e l1 l2 x :
  ring_ok base n k (seqs1 ++ q :: seqs2) w sp -> completion_pending sp = l1 ++ e :: l2 ->
  length l1 = length seqs1 -> w_ents w !! e = Some x ->
  let sp1 := sp <| completion_pending := l1 ++ l2 |> in
  hdr_echo (elem x) = u16 q /\
  exists k' c bm, let sp' := sp1 <| p_comp_bitmap := bm |> <| comp_bitmap_idx := k' mod SPQ_RING_SIZE |> <| chain := c |> in
    qed_spq_comp_bmap_update sp1 (hdr_echo (elem x)) = Some sp' /\ k <= k' /\
    forall w', w_mem w' = w_mem w -> w_ring w' = w_ring w -> w_ents w' = w_ents w ->
    ring_ok base n k' (seqs1 ++ seqs2) w' sp'.
Proof.
  intros R El Hlen Hx sp1. assert (HR := ring_size).
  pose proof (ro_range _ _ _ _ _ _ R) as [Hk Hnk]. pose proof (ro_slots _ _ _ _ _ _ R) as Hs. rewrite El in Hs.
  apply Forall2_app_inv in Hs as [Hs1 Hs2]; [|done]. inversion Hs2 as [|? ? ? ? Hhd Htl]; subst. destruct Hhd as (Hq & y & Hy & Hec & Hr).
  rewrite Hx in Hy. injection Hy as <-. split; [done|].
  pose proof (ro_nodup _ _ _ _ _ _ R) as ND.
  assert (B := bits_set _ _ _ _ _ _ (ro_bits _ _ _ _ _ _ R) ND Hq ltac:(lia)).
  destruct (bmap_loop_spec (w_mem w) base n (seqs1 ++ seqs2) bmap_fuel k (SPQ_COMP_BMAP_SET_BIT sp1 (hdr_echo (elem x))))
    as (k' & c & bm & E & Hk' & Ht & Hc & B' & Hd & Hh).
  { exact (ro_tx _ _ _ _ _ _ R). }
  { exact (ro_chain _ _ _ _ _ _ R). }
  { lia. }
  { lia. }
  { apply (Z2Nat.inj_lt (n - k) (SPQ_RING_SIZE + 1)); lia. }
  { exact (ro_idx _ _ _ _ _ _ R). }
  { unfold SPQ_COMP_BMAP_SET_BIT. simpl. rewrite Hec, u16_ring. exact B. }
  exists k', c, bm. split; [exact E|]. split; [lia|]. intros w' Em Er Ee.
  assert (Hge : forall q', q' ∈ seqs1 ++ seqs2 -> k' <= q').
  { intros q' Hin. destruct (decide (k' <= q')); [done|]. exfalso. eapply Hd; [|exact Hin].
    assert (Hin' : q' ∈ seqs1 ++ q :: seqs2) by (rewrite elem_of_app, elem_of_cons in *; tauto).
    apply (seqs_range _ _ _ _ _ _ R) in Hin'. lia. }
  split; simpl; rewrite ?Em, ?Er, ?Ee; try done.
  - apply R.
  - lia.
  - apply list.NoDup_app in ND as (N1 & N2 & N3). apply list.NoDup_cons in N3 as [_ N3]. apply list.NoDup_app. split_and!; [done| |done].
    intros z Hz1 Hz2. apply (N2 z Hz1). apply elem_of_cons. by right.
  - assert (Hall : Forall2 (fun (e : nat) (q : Z) => k <= q < n /\ exists x, w_ents w !! e = Some x /\
      hdr_echo (elem x) = u16 q /\ w_ring w !! spq_slot base q = Some (elem x)) (l1 ++ l2) (seqs1 ++ seqs2)) by by apply Forall2_app.
    apply Forall2_same_length_lookup. split; [by eapply Forall2_length|]. intros i e' q' Hi Hq'.
    destruct (Forall2_lookup_lr _ _ _ _ _ _ Hall Hi Hq') as [Hr' Hx']. split; [|exact Hx'].
    pose proof (Hge q' (list_elem_of_lookup_2 _ _ _ Hq')). lia.
Qed.
