(* ===== verification/SpqInv.v ===== *)
(** * The slow path queue: where every entry is

    The invariant of the SPQ assigns each entry in memory a place (on one of the
    four lists, with a client, with a running completion, ...) and says what the
    entry holds there: in particular which client, if any, its completion will
    wake.  It contains the invariant of the ring ([SpqRing]).  The lemmas say
    what taking, returning and adding an entry do. *)

From S2P Require Import Prelude Dma Chain ChainRing Spq SpqRing.

(** ** Where entries are *)

(** The place of an entry: on one of the SPQ's lists; with a client that has
    not posted it; with a completion that is about to run its callback, for a
    client that waits ([PWake]) or not ([PCallback]); completed and left to the
    client that waits for it; or an allocated entry whose client
    waits for the pool entry posted in its place. *)
Inductive place := PFree | PPend | PComp | PUnl | PClient | PCallback | PWake | PDone | PProxy.

#[export] Instance place_eq_dec : EqDecision place.
Proof. solve_decision. Defined.

Definition in_pool (e : nat) : Prop := Z.of_nat e < SPQ_RING_SIZE.

(** Requests clients make: see [qed_sp_init_request]. *)
Definition mode_ok (x : qed_spq_entry) : Prop :=
  (priority x = QED_SPQ_PRIORITY_NORMAL \/ priority x = QED_SPQ_PRIORITY_HIGH) /\
  (comp_mode x = QED_SPQ_MODE_EBLOCK \/
   comp_mode x = QED_SPQ_MODE_BLOCK /\ (exists a, cb_cookie x = CkMem a) \/
   comp_mode x = QED_SPQ_MODE_CB /\ cb_function x <> FnBlocking).
(** The same after [qed_spq_fill_entry]. *)
Definition submitted (x : qed_spq_entry) : Prop :=
  mode_ok x /\ (comp_mode x <> QED_SPQ_MODE_CB -> cb_function x = FnBlocking).

(** Posted, and not yet returned by its client. *)
Definition posted (p : place) : Prop := p = PPend \/ p = PComp \/ p = PWake \/ p = PDone.

Definition blocks (x : qed_spq_entry) : Prop := comp_mode x = QED_SPQ_MODE_EBLOCK.

Section Places.
Context (P : gmap nat place) (E : gmap nat qed_spq_entry).

(** Client [v] waits for [e] to complete: its own entry, or the pool entry
    posted for its allocated one. *)
Definition waits_for (v e : nat) : Prop := exists x, E !! v = Some x /\
  (v = e /\ queue x = QPending \/ P !! v = Some PProxy /\ post_ent x = Some e).
Definition is_done (v : nat) : Prop := exists x, E !! v = Some x /\ done (comp_done x) = 1.
Definition not_done (v : nat) : Prop := exists x, E !! v = Some x /\ done (comp_done x) <> 1.

Definition entry_ok (e : nat) (p : place) (x : qed_spq_entry) : Prop :=
  match p with
  | PFree => in_pool e
  | PClient => (in_pool e /\ queue x = QPending \/ ~ in_pool e /\ queue x = QUnlimited /\ post_ent x = None) /\
      mode_ok x /\ (blocks x -> cb_cookie x = CkEntry e /\ done (comp_done x) <> 1)
  | PUnl => ~ in_pool e /\ queue x = QUnlimited /\ post_ent x = None /\ submitted x /\
      (blocks x -> cb_cookie x = CkEntry e /\ done (comp_done x) <> 1)
  | PPend | PComp => in_pool e /\ submitted x /\
      (blocks x -> exists v, cb_cookie x = CkEntry v /\ waits_for v e /\ not_done v)
  | PCallback => in_pool e /\ submitted x /\ ~ blocks x
  | PWake => in_pool e /\ submitted x /\ blocks x /\
      exists v, cb_cookie x = CkEntry v /\ waits_for v e /\ not_done v
  | PDone => in_pool e /\ blocks x /\ exists v, cb_cookie x = CkEntry v /\ waits_for v e /\ is_done v
  | PProxy => ~ in_pool e /\ queue x = QUnlimited /\ blocks x /\ cb_cookie x = CkEntry e /\
      exists s y p, post_ent x = Some s /\ E !! s = Some y /\ P !! s = Some p /\ (posted p) /\
        blocks y /\ cb_cookie y = CkEntry e
  end.
End Places.

(** ** The invariant *)

(** The four lists of [sp] hold the entries [P] places there. *)
Record lists_ok (P : gmap nat place) (sp : qed_spq) : Prop := {
  lo_nodup : NoDup (unlimited_pending sp) /\ NoDup (pending sp) /\ NoDup (completion_pending sp) /\ NoDup (free_pool sp);
  lo_unl e : e ∈ unlimited_pending sp <-> P !! e = Some PUnl;
  lo_pend e : e ∈ pending sp <-> P !! e = Some PPend;
  lo_comp e : e ∈ completion_pending sp <-> P !! e = Some PComp;
  lo_free e : e ∈ free_pool sp <-> P !! e = Some PFree
}.

(** Every entry in memory has a place and is what the place asks for; the pool
    entries keep pointing at their own ramrod data ([dp]). *)
Record places_ok (dp : nat -> regpair) (P : gmap nat place) (E : gmap nat qed_spq_entry) (next : nat) : Prop := {
  po_dom e : is_Some (P !! e) <-> is_Some (E !! e);
  po_pool e : in_pool e -> is_Some (P !! e);
  po_next e : is_Some (P !! e) -> in_pool e \/ (e < next)%nat;
  po_next0 : ~ in_pool next;
  po_ent e p x : P !! e = Some p -> E !! e = Some x -> entry_ok P E e p x;
  po_data e x : in_pool e -> E !! e = Some x -> data_ptr (elem x) = dp e
}.

Record spq_inv (base : Z) (dp : nat -> regpair) (P : gmap nat place) (n k : Z) (seqs : list Z)
    (w : spq_world) (sp : qed_spq) : Prop := {
  si_spq : w_spq w = Some sp;
  si_ring : ring_ok base n k seqs w sp;
  si_lists : lists_ok P sp;
  si_places : places_ok dp P (w_ents w) (w_next w)
}.

(** ** Frames *)

(** Entries nobody waits with: their place and contents may change without
    disturbing another entry. *)
Definition quiet_place (p : place) : Prop := p = PFree \/ p = PUnl \/ p = PClient \/ p = PCallback.

Lemma entry_frame (P P' : gmap nat place) (E E' : gmap nat qed_spq_entry) (S : nat -> Prop) e p x :
  (forall i, ~ S i -> P' !! i = P !! i /\ E' !! i = E !! i) ->
  (forall v, S v -> v <> e -> posted p -> blocks x -> cb_cookie x <> CkEntry v) ->
  (forall s, S s -> p = PProxy -> post_ent x <> Some s) ->
  ~ S e -> entry_ok P E e p x -> entry_ok P' E' e p x.
Proof.
  intros Heq Hv Hs HSe H. destruct p; simpl in *; try done.
  - destruct H as (H1 & H2 & H3). split_and!; [done..|]. intros Hb. destruct (H3 Hb) as (v & Hc & (y & Hy & Hw) & (y' & Hy' & Hd)).
    assert (HSv : ~ S v). { intros HS. destruct (decide (v = e)) as [->|Hne]; [done|]. eapply (Hv v); unfold posted; eauto. }
    destruct (Heq v HSv) as [E1 E2]. exists v. unfold waits_for, not_done. rewrite E1, E2. eauto 8.
  - destruct H as (H1 & H2 & H3). split_and!; [done..|]. intros Hb. destruct (H3 Hb) as (v & Hc & (y & Hy & Hw) & (y' & Hy' & Hd)).
    assert (HSv : ~ S v). { intros HS. destruct (decide (v = e)) as [->|Hne]; [done|]. eapply (Hv v); unfold posted; eauto. }
    destruct (Heq v HSv) as [E1 E2]. exists v. unfold waits_for, not_done. rewrite E1, E2. eauto 8.
  - destruct H as (H1 & H2 & Hb & v & Hc & (y & Hy & Hw) & (y' & Hy' & Hd)). split_and!; [done..|].
    assert (HSv : ~ S v). { intros HS. destruct (decide (v = e)) as [->|Hne]; [done|]. eapply (Hv v); unfold posted; eauto. }
    destruct (Heq v HSv) as [E1 E2]. exists v. unfold waits_for, not_done. rewrite E1, E2. eauto 8.
  - destruct H as (H1 & Hb & v & Hc & (y & Hy & Hw) & (y' & Hy' & Hd)). split_and!; [done..|].
    assert (HSv : ~ S v). { intros HS. destruct (decide (v = e)) as [->|Hne]; [done|]. eapply (Hv v); unfold posted; eauto. }
    destruct (Heq v HSv) as [E1 E2]. exists v. unfold waits_for, is_done. rewrite E1, E2. eauto 8.
  - destruct H as (H1 & H2 & H3 & H4 & s & y & p & Hp & Hy & Hps & Hpl). split_and!; [done..|].
    assert (HSs : ~ S s) by (intros HS; by eapply (Hs s)). destruct (Heq s HSs) as [E1 E2].
    exists s, y, p. rewrite E1, E2. done.
Qed.

(** Who is referred to by whom. *)
Lemma waiter_place dp P E next e p x v :
  places_ok dp P E next -> P !! e = Some p -> E !! e = Some x ->
  posted p -> blocks x -> cb_cookie x = CkEntry v ->
  v <> e -> P !! v = Some PProxy /\ exists y, E !! v = Some y /\ post_ent y = Some e.
Proof.
  intros I Hp Hx Hpl Hb Hc Hne. pose proof (po_ent _ _ _ _ I e p x Hp Hx) as Ok.
  assert (Hw : waits_for P E v e).
  { destruct Hpl as [->|[->|[->| ->]]]; simpl in Ok.
    - destruct Ok as (_ & _ & Ok). destruct (Ok Hb) as (v' & Hc' & Hw & _). congruence.
    - destruct Ok as (_ & _ & Ok). destruct (Ok Hb) as (v' & Hc' & Hw & _). congruence.
    - destruct Ok as (_ & _ & _ & v' & Hc' & Hw & _). congruence.
    - destruct Ok as (_ & _ & v' & Hc' & Hw & _). congruence. }
  destruct Hw as (y & Hy & [[-> _]|[Hpr Hpo]]); [done|]. eauto.
Qed.

Lemma proxy_target dp P E next v x s :
  places_ok dp P E next -> P !! v = Some PProxy -> E !! v = Some x -> post_ent x = Some s ->
  exists y p, E !! s = Some y /\ P !! s = Some p /\ (posted p) /\ blocks y /\ cb_cookie y = CkEntry v.
Proof.
  intros I Hp Hx Hs. pose proof (po_ent _ _ _ _ I v _ x Hp Hx) as (_ & _ & _ & _ & s' & y & p & Es & Hy & Hps & Hpl & Hb & Hc).
  rewrite Hs in Es. injection Es as <-. eauto 8.
Qed.

(** Changing one entry at a quiet place. *)
Lemma quiet_frame dp P E next e p0 P' E' :
  places_ok dp P E next -> P !! e = Some p0 -> quiet_place p0 ->
  (forall i, i <> e -> P' !! i = P !! i /\ E' !! i = E !! i) ->
  forall i p x, i <> e -> P !! i = Some p -> E !! i = Some x -> entry_ok P' E' i p x.
Proof.
  intros I He Hq Heq i p x Hi Hp Hx.
  apply (entry_frame P P' E E' (eq e)); [intros j Hj; apply Heq; congruence| | |congruence|by eapply po_ent].
  - intros v <- _ Hpl Hb Hc. destruct (waiter_place _ _ _ _ _ _ _ _ I Hp Hx Hpl Hb Hc ltac:(congruence)) as [Hv _].
    rewrite He in Hv. injection Hv as ->. destruct Hq as [|[|[|]]]; discriminate.
  - intros s <- -> Hpo. destruct (proxy_target _ _ _ _ _ _ _ I Hp Hx Hpo) as (y & p & _ & Hps & Hpl & _).
    rewrite He in Hps. injection Hps as ->. destruct Hq as [|[|[|]]], Hpl as [|[|[|]]]; congruence.
Qed.

(** Giving an entry a new place and new contents. *)
Lemma places_set dp P E next e p0 p' x' :
  places_ok dp P E next -> P !! e = Some p0 ->
  (forall i p x, i <> e -> P !! i = Some p -> E !! i = Some x -> entry_ok (<[e := p']> P) (<[e := x']> E) i p x) ->
  entry_ok (<[e := p']> P) (<[e := x']> E) e p' x' -> (in_pool e -> data_ptr (elem x') = dp e) ->
  places_ok dp (<[e := p']> P) (<[e := x']> E) next.
Proof.
  intros [D Po Nx N0 En Da] He Ho Hn Hd. split.
  - intros i. destruct (decide (i = e)) as [->|]; [rewrite !lookup_insert_eq; split; by eexists|]. rewrite !lookup_insert_ne by done. apply D.
  - intros i Hi. destruct (decide (i = e)) as [->|]; [rewrite lookup_insert_eq; by eexists|]. rewrite lookup_insert_ne by done. by apply Po.
  - intros i Hi. apply Nx. destruct (decide (i = e)) as [->|]; [by eexists|]. by rewrite lookup_insert_ne in Hi.
  - done.
  - intros i p x Hp Hx. destruct (decide (i = e)) as [->|].
    + rewrite lookup_insert_eq in Hp. rewrite lookup_insert_eq in Hx. by simplify_eq.
    + rewrite lookup_insert_ne in Hp by done. rewrite lookup_insert_ne in Hx by done. by apply Ho.
  - intros i x Hi Hx. destruct (decide (i = e)) as [->|]; [rewrite lookup_insert_eq in Hx; simplify_eq; by apply Hd|].
    rewrite lookup_insert_ne in Hx by done. by apply Da.
Qed.

Lemma places_set_quiet dp P E next e p0 p' x' :
  places_ok dp P E next -> P !! e = Some p0 -> quiet_place p0 ->
  entry_ok (<[e := p']> P) (<[e := x']> E) e p' x' -> (in_pool e -> data_ptr (elem x') = dp e) ->
  places_ok dp (<[e := p']> P) (<[e := x']> E) next.
Proof.
  intros I He Hq. eapply places_set; [exact I|exact He|]. eapply quiet_frame; [exact I|exact He|exact Hq|].
  intros i Hi. by rewrite !lookup_insert_ne.
Qed.

(** A place of a changed list only. *)
Lemma places_move_quiet dp P E next e p0 p' :
  places_ok dp P E next -> P !! e = Some p0 -> quiet_place p0 ->
  (forall x, E !! e = Some x -> entry_ok (<[e := p']> P) E e p' x) -> places_ok dp (<[e := p']> P) E next.
Proof.
  intros I He Hq Hn. destruct (proj1 (po_dom _ _ _ _ I e)) as [x Hx]; [by eexists|].
  rewrite <- (insert_id E e x Hx). apply (places_set_quiet _ _ _ _ _ p0); [done|done|done| |by intros; eapply po_data].
  rewrite (insert_id E e x Hx). by apply Hn.
Qed.

(** Freeing an allocated entry nobody refers to. *)
Lemma places_del dp P E next e p0 :
  places_ok dp P E next -> P !! e = Some p0 -> ~ in_pool e ->
  (forall i p x, i <> e -> P !! i = Some p -> E !! i = Some x -> entry_ok (delete e P) (delete e E) i p x) ->
  places_ok dp (delete e P) (delete e E) next.
Proof.
  intros [D Po Nx N0 En Da] He Hn Ho. split.
  - intros i. destruct (decide (i = e)) as [->|]; [rewrite !lookup_delete_eq; split; intros [? ?]; done|]. rewrite !lookup_delete_ne by done. apply D.
  - intros i Hi. rewrite lookup_delete_ne by (intros ->; done). by apply Po.
  - intros i Hi. apply Nx. destruct (decide (i = e)) as [->|]; [by eexists|]. by rewrite lookup_delete_ne in Hi.
  - done.
  - intros i p x Hp Hx. destruct (decide (i = e)) as [->|]; [by rewrite lookup_delete_eq in Hp|].
    rewrite lookup_delete_ne in Hp by done. rewrite lookup_delete_ne in Hx by done. by apply Ho.
  - intros i x Hi Hx. destruct (decide (i = e)) as [->|]; [done|]. rewrite lookup_delete_ne in Hx by done. by apply Da.
Qed.
(** ** Lists *)

Definition list_place (p : place) : Prop := p = PUnl \/ p = PPend \/ p = PComp \/ p = PFree.

Section Lists.
Context {base : Z} {dp : nat -> regpair} {P : gmap nat place} {n k : Z} {seqs : list Z} {w : spq_world} {sp : qed_spq}.
Hypothesis I : spq_inv base dp P n k seqs w sp.

Lemma linked_place e : e ∈ linked sp <-> exists p, P !! e = Some p /\ list_place p.
Proof.
  unfold linked, list_place. rewrite !elem_of_app, (lo_unl _ _ (si_lists _ _ _ _ _ _ _ _ I)), (lo_pend _ _ (si_lists _ _ _ _ _ _ _ _ I)),
    (lo_comp _ _ (si_lists _ _ _ _ _ _ _ _ I)), (lo_free _ _ (si_lists _ _ _ _ _ _ _ _ I)). naive_solver.
Qed.

Lemma entry_at e p : P !! e = Some p -> exists x, w_ents w !! e = Some x.
Proof. intros Hp. apply (po_dom _ _ _ _ (si_places _ _ _ _ _ _ _ _ I) e). by eexists. Qed.

Lemma list_del_id e l : e ∉ l -> list_del_from e l = l.
Proof.
  unfold list_del_from. induction l as [|y l IH]; intros Hn; [done|].
  rewrite filter_cons_True by (intros ->; apply Hn; set_solver). f_equal. apply IH. set_solver.
Qed.
Lemma list_del_mid e l1 l2 : NoDup (l1 ++ e :: l2) -> list_del_from e (l1 ++ e :: l2) = l1 ++ l2.
Proof.
  intros ND. apply list.NoDup_app in ND as (_ & N2 & N3). apply list.NoDup_cons in N3 as [N3 _].
  unfold list_del_from. rewrite list.filter_app, filter_cons_False by tauto. fold (list_del_from e l1) (list_del_from e l2).
  rewrite !list_del_id; [done|done|]. intros Hin. apply (N2 e Hin). set_solver.
Qed.

Ltac not_in e := match goal with |- e ∉ ?l => intros Hin;
  first [apply (lo_unl _ _ (si_lists _ _ _ _ _ _ _ _ I)) in Hin | apply (lo_pend _ _ (si_lists _ _ _ _ _ _ _ _ I)) in Hin
        | apply (lo_comp _ _ (si_lists _ _ _ _ _ _ _ _ I)) in Hin | apply (lo_free _ _ (si_lists _ _ _ _ _ _ _ _ I)) in Hin]; congruence end.

Lemma list_del_ok e p : P !! e = Some p -> list_place p ->
  list_del w sp e = Some (sp <| unlimited_pending := list_del_from e (unlimited_pending sp) |>
                <| pending := list_del_from e (pending sp) |>
                <| completion_pending := list_del_from e (completion_pending sp) |>
                <| free_pool := list_del_from e (free_pool sp) |>).
Proof.
  intros Hp Hl. unfold list_del. destruct (entry_at e p Hp) as [x Hx]. rewrite Hx, bool_decide_true by by eexists.
  rewrite bool_decide_true; [done|]. apply linked_place. eauto.
Qed.

Lemma del_pend e l1 l2 : pending sp = l1 ++ e :: l2 -> list_del w sp e = Some (sp <| pending := l1 ++ l2 |>).
Proof.
  intros El. assert (Hp : P !! e = Some PPend) by (apply (lo_pend _ _ (si_lists _ _ _ _ _ _ _ _ I)); rewrite El; set_solver).
  rewrite (list_del_ok e PPend Hp) by (unfold list_place; tauto).
  rewrite El, list_del_mid by (rewrite <- El; apply (lo_nodup _ _ (si_lists _ _ _ _ _ _ _ _ I))).
  rewrite !list_del_id by not_in e. by destruct sp.
Qed.
Lemma del_unl e l1 l2 : unlimited_pending sp = l1 ++ e :: l2 -> list_del w sp e = Some (sp <| unlimited_pending := l1 ++ l2 |>).
Proof.
  intros El. assert (Hp : P !! e = Some PUnl) by (apply (lo_unl _ _ (si_lists _ _ _ _ _ _ _ _ I)); rewrite El; set_solver).
  rewrite (list_del_ok e PUnl Hp) by (unfold list_place; tauto).
  rewrite El, list_del_mid by (rewrite <- El; apply (lo_nodup _ _ (si_lists _ _ _ _ _ _ _ _ I))).
  rewrite !list_del_id by not_in e. by destruct sp.
Qed.
Lemma del_comp e l1 l2 : completion_pending sp = l1 ++ e :: l2 -> list_del w sp e = Some (sp <| completion_pending := l1 ++ l2 |>).
Proof.
  intros El. assert (Hp : P !! e = Some PComp) by (apply (lo_comp _ _ (si_lists _ _ _ _ _ _ _ _ I)); rewrite El; set_solver).
  rewrite (list_del_ok e PComp Hp) by (unfold list_place; tauto).
  rewrite El, list_del_mid by (rewrite <- El; apply (lo_nodup _ _ (si_lists _ _ _ _ _ _ _ _ I))).
  rewrite !list_del_id by not_in e. by destruct sp.
Qed.

Lemma may_link_ok e p : P !! e = Some p -> ~ list_place p -> may_link w sp e = true.
Proof.
  intros Hp Hl. unfold may_link. destruct (entry_at e p Hp) as [x Hx]. rewrite Hx, bool_decide_true by by eexists.
  rewrite bool_decide_true; [done|]. intros Hin. apply linked_place in Hin as (p' & Hp' & Hl'). congruence.
Qed.

Lemma pool_entry e p x : P !! e = Some p -> w_ents w !! e = Some x -> p = PFree \/ p = PPend \/ p = PComp \/ p = PCallback \/ p = PWake \/ p = PDone -> in_pool e.
Proof.
  intros Hp Hx Hpl. pose proof (po_ent _ _ _ _ (si_places _ _ _ _ _ _ _ _ I) e p x Hp Hx) as Ok.
  destruct Hpl as [->|[->|[->|[->|[->| ->]]]]]; simpl in Ok; tauto.
Qed.
End Lists.

Lemma may_link_lists P w sp e p x :
  lists_ok P sp -> P !! e = Some p -> ~ list_place p -> w_ents w !! e = Some x -> may_link w sp e = true.
Proof.
  intros [_ L1 L2 L3 L4] Hp Hl Hx. unfold may_link. rewrite Hx, bool_decide_true by by eexists. rewrite bool_decide_true; [done|].
  unfold linked. rewrite !elem_of_app, L1, L2, L3, L4, Hp. unfold list_place in Hl. naive_solver.
Qed.

(** ** Moving entries between lists *)

Section Moves.
Context (P : gmap nat place) (e : nat) (p p' : place).

Lemma place_rem (l1 l2 : list nat) : NoDup (l1 ++ e :: l2) -> (forall i, i ∈ l1 ++ e :: l2 <-> P !! i = Some p) -> p' <> p ->
  forall i, i ∈ l1 ++ l2 <-> <[e := p']> P !! i = Some p.
Proof.
  intros ND H Hne i. apply list.NoDup_app in ND as (_ & N2 & N3). apply list.NoDup_cons in N3 as [N3 _].
  destruct (decide (i = e)) as [->|Hi].
  - rewrite lookup_insert_eq. split; [|congruence]. rewrite elem_of_app. intros [Hin|Hin]; [|done].
    exfalso. apply (N2 e Hin), elem_of_cons. by left.
  - rewrite lookup_insert_ne, <- H by done. rewrite !elem_of_app, elem_of_cons. naive_solver.
Qed.
Lemma place_rem_del (l1 l2 : list nat) : NoDup (l1 ++ e :: l2) -> (forall i, i ∈ l1 ++ e :: l2 <-> P !! i = Some p) ->
  forall i, i ∈ l1 ++ l2 <-> delete e P !! i = Some p.
Proof.
  intros ND H i. apply list.NoDup_app in ND as (_ & N2 & N3). apply list.NoDup_cons in N3 as [N3 _].
  destruct (decide (i = e)) as [->|Hi].
  - rewrite lookup_delete_eq. split; [|congruence]. rewrite elem_of_app. intros [Hin|Hin]; [|done].
    exfalso. apply (N2 e Hin), elem_of_cons. by left.
  - rewrite lookup_delete_ne, <- H by done. rewrite !elem_of_app, elem_of_cons. naive_solver.
Qed.
Lemma place_add (l l' : list nat) : (forall i, i ∈ l <-> P !! i = Some p) -> (forall i, i ∈ l' <-> i = e \/ i ∈ l) ->
  forall i, i ∈ l' <-> <[e := p]> P !! i = Some p.
Proof.
  intros H H' i. rewrite H'. destruct (decide (i = e)) as [->|Hi]; [rewrite lookup_insert_eq; naive_solver|].
  rewrite lookup_insert_ne, H by done. naive_solver.
Qed.
Lemma place_same (l : list nat) : (forall i, i ∈ l <-> P !! i = Some p) -> P !! e <> Some p -> p' <> p ->
  forall i, i ∈ l <-> <[e := p']> P !! i = Some p.
Proof.
  intros H He Hne i. rewrite H. destruct (decide (i = e)) as [->|Hi]; [rewrite lookup_insert_eq; naive_solver|].
  by rewrite lookup_insert_ne.
Qed.
Lemma place_same_del (l : list nat) : (forall i, i ∈ l <-> P !! i = Some p) -> P !! e <> Some p ->
  forall i, i ∈ l <-> delete e P !! i = Some p.
Proof.
  intros H He i. rewrite H. destruct (decide (i = e)) as [->|Hi]; [rewrite lookup_delete_eq; naive_solver|].
  by rewrite lookup_delete_ne.
Qed.
End Moves.

Lemma in_snoc (e : nat) l : forall i, i ∈ l ++ [e] <-> i = e \/ i ∈ l.
Proof. intros i. rewrite elem_of_app, list_elem_of_singleton. tauto. Qed.
Lemma in_cons (e : nat) l : forall i, i ∈ e :: l <-> i = e \/ i ∈ l.
Proof. intros i. by rewrite elem_of_cons. Qed.
Lemma nodup_snoc (e : nat) l : NoDup l -> e ∉ l -> NoDup (l ++ [e]).
Proof.
  intros ND Hn. apply list.NoDup_app. split_and!; [done| |apply NoDup_singleton].
  intros i Hi. rewrite list_elem_of_singleton. intros ->. done.
Qed.
Lemma nodup_mid (e : nat) l1 l2 : NoDup (l1 ++ e :: l2) -> NoDup (l1 ++ l2).
Proof.
  intros ND. apply list.NoDup_app in ND as (N1 & N2 & N3). apply list.NoDup_cons in N3 as [N3 N4].
  apply list.NoDup_app. split_and!; [done| |done]. intros i Hi Hi2. apply (N2 i Hi), elem_of_cons. by right.
Qed.

(** Where an entry is not. *)
Ltac elsewhere := match goal with
  | H : ?P !! ?e = Some ?p |- ?P !! ?e <> Some ?q => rewrite H; discriminate
  | |- PUnl <> _ => discriminate | |- PPend <> _ => discriminate | |- PComp <> _ => discriminate
  | |- PFree <> _ => discriminate | |- PClient <> _ => discriminate | |- PCallback <> _ => discriminate
  | |- PWake <> _ => discriminate | |- PDone <> _ => discriminate | |- PProxy <> _ => discriminate
  end.

(** A move within the lists or off them, one lemma per list left or joined. *)
Lemma lists_take_free P sp e rest p' : lists_ok P sp -> free_pool sp = e :: rest -> ~ list_place p' ->
  lists_ok (<[e := p']> P) (sp <| free_pool := rest |>).
Proof.
  intros L Ef Hp. pose proof (lo_free _ _ L) as Hf. rewrite Ef in Hf. destruct L as [(N1 & N2 & N3 & N4) L1 L2 L3 L4]. rewrite Ef in N4.
  assert (He : P !! e = Some PFree) by (apply Hf; set_solver). unfold list_place in Hp. split; simpl.
  - split_and!; try done. by apply list.NoDup_cons in N4 as [_ N4].
  - apply place_same; [done|elsewhere|tauto].
  - apply place_same; [done|elsewhere|tauto].
  - apply place_same; [done|elsewhere|tauto].
  - apply (place_rem P e PFree p' [] rest); [done|done|tauto].
Qed.

Lemma lists_add_free P sp e p : lists_ok P sp -> P !! e = Some p -> ~ list_place p ->
  lists_ok (<[e := PFree]> P) (sp <| free_pool := free_pool sp ++ [e] |>).
Proof.
  intros [(N1 & N2 & N3 & N4) L1 L2 L3 L4] He Hp. unfold list_place in Hp. split; simpl.
  - split_and!; try done. apply nodup_snoc; [done|]. rewrite L4, He. intros [= ->]. tauto.
  - apply place_same; [done|rewrite He; intros [= ->]; tauto|elsewhere].
  - apply place_same; [done|rewrite He; intros [= ->]; tauto|elsewhere].
  - apply place_same; [done|rewrite He; intros [= ->]; tauto|elsewhere].
  - eapply place_add; [done|apply in_snoc].
Qed.

Lemma lists_add_pend P sp e p l : lists_ok P sp -> P !! e = Some p -> ~ list_place p ->
  (l = pending sp ++ [e] \/ l = e :: pending sp) ->
  lists_ok (<[e := PPend]> P) (sp <| pending := l |>).
Proof.
  intros [(N1 & N2 & N3 & N4) L1 L2 L3 L4] He Hp Hl. unfold list_place in Hp.
  assert (Hn : e ∉ pending sp) by (rewrite L2, He; intros [= ->]; tauto). split; simpl.
  - split_and!; try done. destruct Hl as [->| ->]; [by apply nodup_snoc|by apply list.NoDup_cons].
  - apply place_same; [done|rewrite He; intros [= ->]; tauto|elsewhere].
  - eapply place_add; [done|]. destruct Hl as [->| ->]; [apply in_snoc|apply in_cons].
  - apply place_same; [done|rewrite He; intros [= ->]; tauto|elsewhere].
  - apply place_same; [done|rewrite He; intros [= ->]; tauto|elsewhere].
Qed.

Lemma lists_add_unl P sp e p : lists_ok P sp -> P !! e = Some p -> ~ list_place p ->
  lists_ok (<[e := PUnl]> P) (sp <| unlimited_pending := unlimited_pending sp ++ [e] |>).
Proof.
  intros [(N1 & N2 & N3 & N4) L1 L2 L3 L4] He Hp. unfold list_place in Hp. split; simpl.
  - split_and!; try done. apply nodup_snoc; [done|]. rewrite L1, He. intros [= ->]. tauto.
  - eapply place_add; [done|apply in_snoc].
  - apply place_same; [done|rewrite He; intros [= ->]; tauto|elsewhere].
  - apply place_same; [done|rewrite He; intros [= ->]; tauto|elsewhere].
  - apply place_same; [done|rewrite He; intros [= ->]; tauto|elsewhere].
Qed.

Lemma lists_rem_unl P sp e l1 l2 p' : lists_ok P sp -> unlimited_pending sp = l1 ++ e :: l2 -> ~ list_place p' ->
  lists_ok (<[e := p']> P) (sp <| unlimited_pending := l1 ++ l2 |>).
Proof.
  intros L El Hp. pose proof (lo_unl _ _ L) as Hu. rewrite El in Hu. destruct L as [(N1 & N2 & N3 & N4) L1 L2 L3 L4]. rewrite El in N1.
  assert (He : P !! e = Some PUnl) by (apply Hu; set_solver). unfold list_place in Hp. split; simpl.
  - split_and!; try done. by eapply nodup_mid.
  - apply place_rem; [done|done|tauto].
  - apply place_same; [done|elsewhere|tauto].
  - apply place_same; [done|elsewhere|tauto].
  - apply place_same; [done|elsewhere|tauto].
Qed.

Lemma lists_rem_comp P sp e l1 l2 p' : lists_ok P sp -> completion_pending sp = l1 ++ e :: l2 -> ~ list_place p' ->
  lists_ok (<[e := p']> P) (sp <| completion_pending := l1 ++ l2 |>).
Proof.
  intros L El Hp. pose proof (lo_comp _ _ L) as Hu. rewrite El in Hu. destruct L as [(N1 & N2 & N3 & N4) L1 L2 L3 L4]. rewrite El in N3.
  assert (He : P !! e = Some PComp) by (apply Hu; set_solver). unfold list_place in Hp. split; simpl.
  - split_and!; try done. by eapply nodup_mid.
  - apply place_same; [done|elsewhere|tauto].
  - apply place_same; [done|elsewhere|tauto].
  - apply place_rem; [done|done|tauto].
  - apply place_same; [done|elsewhere|tauto].
Qed.

Lemma lists_pend_comp P sp e rest : lists_ok P sp -> pending sp = e :: rest ->
  lists_ok (<[e := PComp]> P) (sp <| pending := rest |> <| completion_pending := completion_pending sp ++ [e] |>).
Proof.
  intros L El. pose proof (lo_pend _ _ L) as Hu. rewrite El in Hu. destruct L as [(N1 & N2 & N3 & N4) L1 L2 L3 L4]. rewrite El in N2.
  assert (He : P !! e = Some PPend) by (apply Hu; set_solver). split; simpl.
  - split_and!; try done; [by apply list.NoDup_cons in N2 as [_ N2]|]. apply nodup_snoc; [done|]. by rewrite L3, He.
  - apply place_same; [done|elsewhere|elsewhere].
  - apply (place_rem P e PPend PComp [] rest); [done|done|elsewhere].
  - eapply place_add; [done|apply in_snoc].
  - apply place_same; [done|elsewhere|elsewhere].
Qed.

(** Dropping an entry that is on no list. *)
Lemma lists_drop P sp e p : lists_ok P sp -> P !! e = Some p -> ~ list_place p -> lists_ok (delete e P) sp.
Proof.
  intros [N L1 L2 L3 L4] He Hp. unfold list_place in Hp.
  split; [done|..]; apply place_same_del; (done || (rewrite He; intros [= ->]; tauto)).
Qed.
Lemma lists_off P sp e p p' : lists_ok P sp -> P !! e = Some p -> ~ list_place p -> ~ list_place p' -> lists_ok (<[e := p']> P) sp.
Proof.
  intros [N L1 L2 L3 L4] He Hp Hp'. unfold list_place in Hp, Hp'.
  split; [done|..]; (apply place_same; [done|rewrite He; intros [= ->]; tauto|tauto]).
Qed.
Lemma lists_new P sp e p' : lists_ok P sp -> P !! e = None -> ~ list_place p' -> lists_ok (<[e := p']> P) sp.
Proof.
  intros [N L1 L2 L3 L4] He Hp'. unfold list_place in Hp'.
  split; [done|..]; (apply place_same; [done|by rewrite He|tauto]).
Qed.
(** ** Steps of the invariant *)

Definition same_ring (w w' : spq_world) (sp sp' : qed_spq) : Prop :=
  w_mem w' = w_mem w /\ w_ring w' = w_ring w /\ chain sp' = chain sp /\ comp_bitmap_idx sp' = comp_bitmap_idx sp /\
  p_comp_bitmap sp' = p_comp_bitmap sp /\ completion_pending sp' = completion_pending sp.

Lemma quiet_not_comp p : quiet_place p -> p <> PComp.
Proof. intros [->|[->|[->| ->]]]; discriminate. Qed.

(** An entry at a quiet place gets a new place and new contents. *)
Lemma inv_set base dp P n k seqs w sp e p0 p' x' w' sp' :
  spq_inv base dp P n k seqs w sp -> P !! e = Some p0 -> quiet_place p0 ->
  w_spq w' = Some sp' -> w_ents w' = <[e := x']> (w_ents w) -> w_next w' = w_next w -> same_ring w w' sp sp' ->
  lists_ok (<[e := p']> P) sp' -> entry_ok (<[e := p']> P) (<[e := x']> (w_ents w)) e p' x' ->
  (in_pool e -> data_ptr (elem x') = dp e) ->
  spq_inv base dp (<[e := p']> P) n k seqs w' sp'.
Proof.
  intros I He Hq Hs Hw Hnx (E1 & E2 & E3 & E4 & E5 & E6) L Ok Hd. split; [done| |done|].
  - eapply ring_frame; [apply I|done..|]. intros i x Hi Hx. exists x. split; [|done].
    rewrite Hw, lookup_insert_ne; [done|]. intros <-. apply (lo_comp _ _ (si_lists _ _ _ _ _ _ _ _ I)) in Hi.
    rewrite He in Hi. injection Hi as ->. by apply quiet_not_comp in Hq.
  - rewrite Hw, Hnx. eapply places_set_quiet; [apply I|exact He|exact Hq|exact Ok|exact Hd].
Qed.

(** Its place alone changes. *)
Lemma inv_move base dp P n k seqs w sp e p0 p' w' sp' :
  spq_inv base dp P n k seqs w sp -> P !! e = Some p0 -> quiet_place p0 ->
  w_spq w' = Some sp' -> w_ents w' = w_ents w -> w_next w' = w_next w -> same_ring w w' sp sp' ->
  lists_ok (<[e := p']> P) sp' -> (forall x, w_ents w !! e = Some x -> entry_ok (<[e := p']> P) (w_ents w) e p' x) ->
  spq_inv base dp (<[e := p']> P) n k seqs w' sp'.
Proof.
  intros I He Hq Hs Hw Hnx Hr L Ok. destruct (entry_at I e p0 He) as [x Hx].
  eapply inv_set with (x' := x); [exact I|exact He|exact Hq|exact Hs| |exact Hnx|exact Hr|exact L| |].
  - by rewrite Hw, insert_id.
  - rewrite (insert_id (w_ents w) e x Hx). by apply Ok.
  - intros Hi. by apply (po_data _ _ _ _ (si_places _ _ _ _ _ _ _ _ I)).
Qed.

(** A freshly allocated entry. *)
Lemma inv_new base dp P n k seqs w sp p' x' w' sp' :
  let e := w_next w in
  spq_inv base dp P n k seqs w sp ->
  w_spq w' = Some sp' -> w_ents w' = <[e := x']> (w_ents w) -> w_next w' = S e -> same_ring w w' sp sp' ->
  lists_ok (<[e := p']> P) sp' -> entry_ok (<[e := p']> P) (<[e := x']> (w_ents w)) e p' x' ->
  spq_inv base dp (<[e := p']> P) n k seqs w' sp'.
Proof.
  intros e I Hs Hw Hnx (E1 & E2 & E3 & E4 & E5 & E6) L Ok. destruct (si_places _ _ _ _ _ _ _ _ I) as [D Po Nx N0 En Da].
  assert (HP : P !! e = None).
  { apply eq_None_not_Some. intros Hp. destruct (Nx e Hp); [done|]. unfold e in *. lia. }
  assert (HE : w_ents w !! e = None).
  { apply eq_None_not_Some. intros Hp. apply D in Hp. rewrite HP in Hp. by destruct Hp. }
  split; [done| |done|].
  - eapply ring_frame; [apply I|done..|]. intros i x Hi Hx. exists x. split; [|done]. rewrite Hw, lookup_insert_ne; congruence.
  - rewrite Hw, Hnx. split.
    + intros i. destruct (decide (i = e)) as [->|]; [rewrite !lookup_insert_eq; split; by eexists|]. rewrite !lookup_insert_ne by done. apply D.
    + intros i Hi. destruct (decide (i = e)) as [->|]; [rewrite lookup_insert_eq; by eexists|]. rewrite lookup_insert_ne by done. by apply Po.
    + intros i Hi. destruct (decide (i = e)) as [->|]; [right; lia|]. rewrite lookup_insert_ne in Hi by done. destruct (Nx i Hi); [by left|right; unfold e; lia].
    + unfold in_pool in *. unfold e. lia.
    + intros i p x Hp Hx. destruct (decide (i = e)) as [->|].
      * rewrite lookup_insert_eq in Hp. rewrite lookup_insert_eq in Hx. by simplify_eq.
      * rewrite lookup_insert_ne in Hp by done. rewrite lookup_insert_ne in Hx by done.
        apply (entry_frame P _ (w_ents w) _ (eq e)); [intros j Hj; rewrite !lookup_insert_ne by congruence; done| | |congruence|by apply En].
        -- intros v <- _ Hpl Hb Hc. destruct (waiter_place _ _ _ _ _ _ _ _ (si_places _ _ _ _ _ _ _ _ I) Hp Hx Hpl Hb Hc ltac:(congruence)) as [Hv _]. congruence.
        -- intros s <- -> Hpo. destruct (proxy_target _ _ _ _ _ _ _ (si_places _ _ _ _ _ _ _ _ I) Hp Hx Hpo) as (y & q & _ & Hps & _). congruence.
    + intros i x Hi Hx. destruct (decide (i = e)) as [->|]; [done|]. rewrite lookup_insert_ne in Hx by done. by apply Da.
Qed.

(** Freeing an allocated entry at a quiet place. *)
Lemma inv_kfree base dp P n k seqs w sp e p0 :
  spq_inv base dp P n k seqs w sp -> P !! e = Some p0 -> quiet_place p0 -> ~ list_place p0 -> ~ in_pool e ->
  exists w', kfree_ent w e = Some w' /\ w' = w <| w_ents := delete e (w_ents w) |> /\ spq_inv base dp (delete e P) n k seqs w' sp.
Proof.
  intros I He Hq Hl Hn. destruct (entry_at I e p0 He) as [x Hx]. eexists. split; [|split; [reflexivity|]].
  - unfold kfree_ent. rewrite (si_spq _ _ _ _ _ _ _ _ I). cbn [mbind option_bind].
    rewrite Hx, bool_decide_true by by eexists. rewrite (sc_cap _ (ro_chain _ _ _ _ _ _ (si_ring _ _ _ _ _ _ _ _ I))).
    unfold in_pool in Hn. replace (SPQ_RING_SIZE <=? Z.of_nat e) with true by lia. reflexivity.
  - split; [apply I| |by eapply lists_drop; [apply I|..]|].
    + eapply ring_frame; [apply I|done..|]. intros i y Hi Hy. exists y. split; [|done]. simpl. rewrite lookup_delete_ne; [done|].
      intros <-. apply (lo_comp _ _ (si_lists _ _ _ _ _ _ _ _ I)) in Hi. rewrite He in Hi. injection Hi as ->. by apply quiet_not_comp in Hq.
    + simpl. eapply places_del; [apply I|exact He|done|]. eapply quiet_frame; [apply I|exact He|exact Hq|].
      intros i Hi. by rewrite !lookup_delete_ne.
Qed.

(** Returning an entry to the pool. *)
Lemma inv_return base dp P n k seqs w sp e p0 :
  spq_inv base dp P n k seqs w sp -> P !! e = Some p0 -> p0 = PClient \/ p0 = PCallback -> in_pool e ->
  exists w' sp', qed_spq_return_entry w e = Some w' /\ w_recov w' = w_recov w /\ w_ents w' = w_ents w /\
    spq_inv base dp (<[e := PFree]> P) n k seqs w' sp'.
Proof.
  intros I He Hp Hi.
  assert (Hl : ~ list_place p0) by (unfold list_place; destruct Hp as [->| ->]; naive_solver).
  do 2 eexists. split; [|split; [|split; [|eapply inv_move; [exact I|exact He|destruct Hp as [->| ->]; unfold quiet_place; tauto|..]]]].
  - unfold qed_spq_return_entry. rewrite (si_spq _ _ _ _ _ _ _ _ I). cbn [mbind option_bind].
    rewrite (may_link_ok I e p0 He Hl). reflexivity.
  - done.
  - done.
  - reflexivity.
  - done.
  - done.
  - done.
  - by eapply lists_add_free; [apply I|..].
  - intros x Hx. done.
Qed.
(** ** Taking and giving back entries *)

Lemma inv_world base dp P n k seqs w w' sp :
  spq_inv base dp P n k seqs w sp -> w_spq w' = w_spq w -> w_ents w' = w_ents w -> w_next w' = w_next w ->
  w_mem w' = w_mem w -> w_ring w' = w_ring w -> spq_inv base dp P n k seqs w' sp.
Proof.
  intros I E1 E2 E3 E4 E5. split; [rewrite E1; apply I| |apply I|rewrite E2, E3; apply I].
  eapply ring_frame; [apply I|done..|]. rewrite E2. eauto.
Qed.

(** The SPQ of a function in order: the firmware and the clients see a ring of
    [n] posted and [k] released elements. *)
Definition Inv (base : Z) (dp : nat -> regpair) (P : gmap nat place) (w : spq_world) : Prop :=
  exists n k seqs sp, spq_inv base dp P n k seqs w sp.

(** What a client may ask for: in BLOCK mode the completion word is its own
    memory, in CB mode the callback is its own function. *)
Definition data_ok (d : qed_sp_init_data) : Prop :=
  (id_comp_mode d = QED_SPQ_MODE_BLOCK -> forall f ck, p_comp_data d = Some (f, ck) -> exists a, ck = CkMem a) /\
  (id_comp_mode d = QED_SPQ_MODE_CB -> forall f ck, p_comp_data d = Some (f, ck) -> f <> FnBlocking).

(** What the switch of [qed_sp_init_request] makes of an entry. *)
Definition init_entry (e : nat) (d : qed_sp_init_data) (x : qed_spq_entry) : option qed_spq_entry :=
  if id_comp_mode d =? QED_SPQ_MODE_EBLOCK then Some (x <| cb_cookie := CkEntry e |>)
  else if id_comp_mode d =? QED_SPQ_MODE_BLOCK then
    match p_comp_data d with None => None | Some (_, ck) => Some (x <| cb_cookie := ck |>) end
  else if id_comp_mode d =? QED_SPQ_MODE_CB then
    match p_comp_data d with
    | None => Some (x <| cb_function := FnNull |>)
    | Some (f, ck) => Some (x <| cb_function := f |> <| cb_cookie := ck |>)
    end
  else None.

Lemma init_entry_ok e d x x' :
  data_ok d -> init_entry e d x = Some x' -> priority x = QED_SPQ_PRIORITY_NORMAL -> comp_mode x = id_comp_mode d ->
  done (comp_done x) = 0 ->
  mode_ok x' /\ (blocks x' -> cb_cookie x' = CkEntry e /\ done (comp_done x') <> 1) /\
  queue x' = queue x /\ post_ent x' = post_ent x /\ elem x' = elem x.
Proof.
  intros [D1 D2] E Hp Hm Hd. unfold init_entry in E.
  destruct (id_comp_mode d =? QED_SPQ_MODE_EBLOCK) eqn:E1; zbool.
  { injection E as <-. unfold mode_ok, blocks. simpl. rewrite Hm, Hp, Hd. split_and!; try done; tauto. }
  destruct (id_comp_mode d =? QED_SPQ_MODE_BLOCK) eqn:E2; zbool.
  { destruct (p_comp_data d) as [[f ck]|]; [|done]. injection E as <-. destruct (D1 E2 f ck eq_refl) as [a ->].
    unfold mode_ok, blocks. simpl. rewrite Hm, Hp. split_and!; try done; [tauto|right; left; split; eauto]. }
  destruct (id_comp_mode d =? QED_SPQ_MODE_CB) eqn:E3; zbool; [|done].
  destruct (p_comp_data d) as [[f ck]|]; injection E as <-; unfold mode_ok, blocks; simpl; rewrite Hm, Hp.
  - split_and!; try done; [tauto|right; right; split; [done|by eapply D2]].
  - split_and!; try done; [tauto|right; right; done].
Qed.

(** The fields filled in before the switch. *)
Definition fill_request (cmd protocol : Z) (d : qed_sp_init_data) (x : qed_spq_entry) : qed_spq_entry :=
  x <| elem := elem x <| hdr_cid := u32 (Z.lor (Z.shiftl (opaque_fid d) 16) (id_cid d)) |>
                      <| hdr_cmd_id := u8 cmd |> <| hdr_protocol_id := u8 protocol |> |>
    <| priority := QED_SPQ_PRIORITY_NORMAL |> <| comp_mode := id_comp_mode d |>
    <| comp_done := comp_done x <| done := 0 |> |>.

Lemma init_request_eq w cmd protocol d :
  qed_sp_init_request w cmd protocol d =
  ('(rc, r, w) ← qed_spq_get_entry w;
   match r with
   | None => Some (rc, None, w)
   | Some e =>
       x ← w_ents w !! e;
       let x := fill_request cmd protocol d x in
       match init_entry e d x with
       | Some x => Some (0, Some e, set_ent e (x <| ramrod := 0 |>) w)
       | None => w ← qed_sp_destroy_request (set_ent e x w) e; Some (- EINVAL, Some e, w)
       end
   end).
Proof. reflexivity. Qed.

(** A request either gets an entry of its own, from the pool or allocated, or
    fails and leaves every entry where it was. *)
Lemma init_request_spec base dp P w cmd protocol d :
  Inv base dp P w -> data_ok d ->
  exists rc r w', qed_sp_init_request w cmd protocol d = Some (rc, r, w') /\ w_recov w' = w_recov w /\
    (rc = 0 /\ (exists e, r = Some e /\ (P !! e = Some PFree \/ P !! e = None) /\ Inv base dp (<[e := PClient]> P) w' /\
       forall i, i <> e -> w_ents w' !! i = w_ents w !! i) \/
     (rc = - EINVAL \/ rc = - ENOMEM) /\ Inv base dp P w' /\ forall i, P !! i <> Some PFree -> w_ents w' !! i = w_ents w !! i).
Proof.
  intros (n & k & seqs & sp & I) Hd. rewrite init_request_eq. unfold qed_spq_get_entry.
  rewrite (si_spq _ _ _ _ _ _ _ _ I). cbn [mbind option_bind]. destruct (free_pool sp) as [|e rest] eqn:Ef.
  - (* the pool is empty *)
    destruct (match w_kz w with [] => true | b :: _ => b end) eqn:Ek; cbn [negb].
    2: { do 3 eexists. split; [reflexivity|]. split; [done|]. right. split; [by right|]. split; [|done]. exists n, k, seqs, sp. by eapply inv_world. }
    cbn [mbind option_bind]. change (w_next (w <| w_kz := tail (w_kz w) |>)) with (w_next w). set (e := w_next w).
    unfold set_ent at 1. simpl. rewrite lookup_insert_eq. cbn [mbind option_bind].
    set (x := fill_request cmd protocol d _).
    assert (Hn : ~ in_pool e) by apply (po_next0 _ _ _ _ (si_places _ _ _ _ _ _ _ _ I)).
    assert (HP : P !! e = None).
    { apply eq_None_not_Some. intros Hp. destruct (po_next _ _ _ _ (si_places _ _ _ _ _ _ _ _ I) e Hp); [done|]. unfold e in *. lia. }
    destruct (init_entry e d x) as [x'|] eqn:Ex.
    + destruct (init_entry_ok e d x x' Hd Ex eq_refl eq_refl eq_refl) as (O1 & O2 & O3 & O4 & O5).
      do 3 eexists. split; [reflexivity|]. split; [done|]. left. split; [done|]. exists e. split_and!; [done|by right| |intros i Hi; simpl; by rewrite !lookup_insert_ne].
      exists n, k, seqs, sp. eapply (inv_new base dp P n k seqs w sp PClient (x' <| ramrod := 0 |>)); [exact I|apply I| |done|done| |].
      * simpl. by rewrite insert_insert_eq.
      * apply lists_new; [apply I|done|unfold list_place; naive_solver].
      * simpl. split; [right; rewrite O3, O4; done|]. split; [exact O1|exact O2].
    + unfold qed_sp_destroy_request. simpl. rewrite lookup_insert_eq. cbn [mbind option_bind]. change (queue x) with QUnlimited. cbn iota.
      unfold kfree_ent. simpl. rewrite (si_spq _ _ _ _ _ _ _ _ I). cbn [mbind option_bind].
      rewrite lookup_insert_eq, bool_decide_true by by eexists.
      rewrite (sc_cap _ (ro_chain _ _ _ _ _ _ (si_ring _ _ _ _ _ _ _ _ I))). unfold in_pool in Hn.
      replace (SPQ_RING_SIZE <=? Z.of_nat e) with true by lia. cbn [mbind option_bind].
      do 3 eexists. split; [reflexivity|]. split; [done|]. right. split; [by left|].
      assert (HE : w_ents w !! e = None).
      { apply eq_None_not_Some. intros Hp. apply (po_dom _ _ _ _ (si_places _ _ _ _ _ _ _ _ I)) in Hp. rewrite HP in Hp. by destruct Hp. }
      assert (El : forall y, delete e (<[e := x]> (<[e := y]> (w_ents w))) = w_ents w)
        by (intros y; rewrite insert_insert_eq, delete_insert_id; done).
      split; [|simpl; by rewrite El]. exists n, k, seqs, sp. split; [apply I| |apply I|].
      * eapply ring_frame; [apply I|done..|]. simpl. rewrite El. eauto.
      * simpl. rewrite El. destruct (si_places _ _ _ _ _ _ _ _ I) as [D Po Nx N0 En Da]. split; try done.
        -- intros i Hi. destruct (Nx i Hi); [by left|right; unfold e; lia].
        -- unfold in_pool in *. unfold e in *. lia.
  - (* an entry of the pool *)
    assert (He : P !! e = Some PFree) by (apply (lo_free _ _ (si_lists _ _ _ _ _ _ _ _ I)); rewrite Ef; set_solver).
    destruct (entry_at I e PFree He) as [x0 Hx0]. rewrite Hx0. cbn [mbind option_bind].
    assert (Hi : in_pool e) by (eapply (pool_entry I); [exact He|exact Hx0|tauto]).
    unfold set_ent at 1. simpl. rewrite lookup_insert_eq. cbn [mbind option_bind]. set (x := fill_request cmd protocol d _).
    assert (Hdp : data_ptr (elem x0) = dp e) by (eapply po_data; [apply I|done|done]).
    destruct (init_entry e d x) as [x'|] eqn:Ex.
    + destruct (init_entry_ok e d x x' Hd Ex eq_refl eq_refl eq_refl) as (O1 & O2 & O3 & O4 & O5).
      do 3 eexists. split; [reflexivity|]. split; [done|]. left. split; [done|]. exists e. split_and!; [done|by left| |intros i Hi'; simpl; by rewrite !lookup_insert_ne].
      exists n, k, seqs, (sp <| free_pool := rest |>).
      eapply (inv_set base dp P n k seqs w sp e PFree PClient (x' <| ramrod := 0 |>)); [exact I|done|unfold quiet_place; tauto|done| |done|done| | |].
      * simpl. by rewrite insert_insert_eq.
      * apply lists_take_free; [apply I|done|unfold list_place; naive_solver].
      * simpl. split; [left; rewrite O3; done|]. split; [exact O1|exact O2].
      * intros _. simpl. rewrite O5. exact Hdp.
    + unfold qed_sp_destroy_request. simpl. rewrite lookup_insert_eq. cbn [mbind option_bind]. change (queue x) with QPending. cbn iota.
      match goal with |- context [qed_spq_return_entry ?w' e] => set (w1 := w') end.
      pose proof (lists_take_free P sp e rest PClient (si_lists _ _ _ _ _ _ _ _ I) Ef ltac:(unfold list_place; naive_solver)) as L1.
      assert (Hw1 : w_ents w1 = <[e := x]> (w_ents w)) by (unfold w1; simpl; by rewrite insert_insert_eq).
      unfold qed_spq_return_entry. change (w_spq w1) with (Some (sp <| free_pool := rest |>)). cbn [mbind option_bind].
      rewrite (may_link_lists _ w1 _ e PClient x L1); [|by rewrite lookup_insert_eq|unfold list_place; naive_solver|by rewrite Hw1, lookup_insert_eq].
      cbn [mbind option_bind]. do 3 eexists. split; [reflexivity|]. split; [done|]. right. split; [by left|].
      split; [|intros i Hi'; simpl; by rewrite !lookup_insert_ne by congruence].
      exists n, k, seqs. eexists. rewrite <- (insert_id P e PFree He).
      eapply (inv_set base dp P n k seqs w sp e PFree PFree x); [exact I|done|unfold quiet_place; tauto|reflexivity|exact Hw1|done|done| |done|by intros].
      rewrite <- (insert_insert_eq P e PFree PClient).
      eapply lists_add_free; [exact L1|by rewrite lookup_insert_eq|unfold list_place; naive_solver].
Qed.

(** Giving an entry back before posting it. *)
Lemma destroy_request_spec base dp P w e :
  Inv base dp P w -> P !! e = Some PClient ->
  exists w', qed_sp_destroy_request w e = Some w' /\ w_recov w' = w_recov w /\
    (forall i, i <> e -> w_ents w' !! i = w_ents w !! i) /\
    (in_pool e /\ Inv base dp (<[e := PFree]> P) w' \/ ~ in_pool e /\ Inv base dp (delete e P) w').
Proof.
  intros (n & k & seqs & sp & I) He. destruct (entry_at I e _ He) as [x Hx].
  unfold qed_sp_destroy_request. rewrite Hx. cbn [mbind option_bind].
  pose proof (po_ent _ _ _ _ (si_places _ _ _ _ _ _ _ _ I) e _ x He Hx) as ([[Hi Hq]|(Hi & Hq & _)] & _); rewrite Hq.
  - destruct (inv_return _ _ _ _ _ _ _ _ e PClient I He ltac:(tauto) Hi) as (w' & sp' & E & Hr & Ee & I'). exists w'. split_and!; try done; [by rewrite Ee|].
    left. split; [done|]. by exists n, k, seqs, sp'.
  - destruct (inv_kfree _ _ _ _ _ _ _ _ e PClient I He) as (w' & E & -> & I'); [unfold quiet_place; tauto|unfold list_place; naive_solver|done|].
    eexists. split; [exact E|]. split; [done|]. split; [intros i Hi'; simpl; by rewrite lookup_delete_ne|].
    right. split; [done|]. by exists n, k, seqs, sp.
Qed.
(** ** Posting *)

Lemma fill_spec x : mode_ok x ->
  exists x', qed_spq_fill_entry x = (0, x') /\ submitted x' /\ comp_mode x' = comp_mode x /\ priority x' = priority x /\
    queue x' = queue x /\ post_ent x' = post_ent x /\ cb_cookie x' = cb_cookie x /\ comp_done x' = comp_done x /\ elem x' = elem x.
Proof.
  intros [Hp Hm]. unfold qed_spq_fill_entry. simpl. destruct Hm as [Hm|[[Hm Hc]|[Hm Hf]]]; rewrite Hm; simpl.
  - eexists. split; [reflexivity|]. unfold submitted, mode_ok. simpl. rewrite Hm. split_and!; try done; tauto.
  - eexists. split; [reflexivity|]. unfold submitted, mode_ok. simpl. rewrite Hm. split_and!; try done; tauto.
  - eexists. split; [reflexivity|]. unfold submitted, mode_ok. simpl. rewrite Hm. split_and!; try done; tauto.
Qed.

Lemma prio_cases x : mode_ok x -> exists b : bool,
  (priority x =? QED_SPQ_PRIORITY_NORMAL) = b /\ (b = false -> (priority x =? QED_SPQ_PRIORITY_HIGH) = true).
Proof. intros [[->| ->] _]; [exists true|exists false]; done. Qed.

(** An entry that is on no list joins the pending list. *)
Lemma add_pending_eq base dp P n k seqs w sp e p0 prio :
  spq_inv base dp P n k seqs w sp -> P !! e = Some p0 -> ~ list_place p0 ->
  prio = QED_SPQ_PRIORITY_NORMAL \/ prio = QED_SPQ_PRIORITY_HIGH ->
  exists l nc hc, (l = pending sp ++ [e] \/ l = e :: pending sp) /\
    add_pending w e prio = Some (0, set_spq (sp <| pending := l |> <| normal_count := nc |> <| high_count := hc |>) w).
Proof.
  intros I He Hl Hp. unfold add_pending. rewrite (si_spq _ _ _ _ _ _ _ _ I). cbn [mbind option_bind].
  rewrite (may_link_ok I e p0 He Hl). destruct Hp as [->| ->]; simpl.
  - exists (pending sp ++ [e]), (u32 (normal_count sp + 1)), (high_count sp). split; [by left|]. by destruct sp.
  - exists (e :: pending sp), (normal_count sp), (u32 (high_count sp + 1)). split; [by right|]. by destruct sp.
Qed.

Lemma not_list p : p = PClient \/ p = PCallback \/ p = PWake \/ p = PDone \/ p = PProxy -> ~ list_place p.
Proof. unfold list_place. naive_solver. Qed.

(** Case 1 of [qed_spq_add_entry]: an entry of the pool. *)
Lemma add_pool base dp P n k seqs w sp e x :
  spq_inv base dp P n k seqs w sp -> P !! e = Some PClient -> w_ents w !! e = Some x -> submitted x -> in_pool e ->
  exists w' sp', qed_spq_add_entry w e (priority x) = Some (0, w') /\ w_recov w' = w_recov w /\
    unlimited_pending sp' = unlimited_pending sp /\ spq_inv base dp (<[e := PPend]> P) n k seqs w' sp' /\ w_ents w' = w_ents w.
Proof.
  intros I He Hx Hs Hi. pose proof (po_ent _ _ _ _ (si_places _ _ _ _ _ _ _ _ I) e _ x He Hx) as ([[_ Hq]|(Hn & _)] & _ & Hb); [|done].
  destruct (add_pending_eq _ _ _ _ _ _ _ _ e _ (priority x) I He ltac:(apply not_list; tauto) ltac:(apply Hs)) as (l & nc & hc & Hl & E).
  set (sp1 := sp <| pending := l |> <| normal_count := nc |> <| high_count := hc |>).
  exists (set_spq sp1 w), sp1. split_and!; [| | |eapply inv_move; [exact I|exact He|unfold quiet_place; tauto|..]|done].
  - unfold qed_spq_add_entry. rewrite (si_spq _ _ _ _ _ _ _ _ I). cbn [mbind option_bind]. rewrite Hx. cbn [mbind option_bind].
    rewrite Hq. exact E.
  - done.
  - reflexivity.
  - reflexivity.
  - done.
  - done.
  - done.
  - pose proof (lists_add_pend P sp e PClient l (si_lists _ _ _ _ _ _ _ _ I) He ltac:(apply not_list; tauto) Hl) as [L0 L1 L2 L3 L4]. by split.
  - intros y Hy. rewrite Hx in Hy. injection Hy as <-. split; [done|]. split; [done|]. intros B. destruct (Hb B) as [Hc Hd].
    exists e. split; [done|]. split; [exists x; split; [done|by left]|by exists x].
Qed.

(** Case 2: an allocated entry while the pool is empty. *)
Lemma add_unlimited base dp P n k seqs w sp e x :
  spq_inv base dp P n k seqs w sp -> P !! e = Some PClient -> w_ents w !! e = Some x -> submitted x -> ~ in_pool e ->
  free_pool sp = [] ->
  exists w' sp', qed_spq_add_entry w e (priority x) = Some (0, w') /\ w_recov w' = w_recov w /\ free_pool sp' = [] /\
    spq_inv base dp (<[e := PUnl]> P) n k seqs w' sp' /\ w_ents w' = w_ents w.
Proof.
  intros I He Hx Hs Hn Hf. pose proof (po_ent _ _ _ _ (si_places _ _ _ _ _ _ _ _ I) e _ x He Hx) as ([[Hi _]|(_ & Hq & Hpo)] & _ & Hb); [done|].
  set (sp1 := sp <| unlimited_pending := unlimited_pending sp ++ [e] |>
                 <| unlimited_pending_count := u32 (unlimited_pending_count sp + 1) |>).
  exists (set_spq sp1 w), sp1. split_and!; [| | |eapply inv_move; [exact I|exact He|unfold quiet_place; tauto|..]|done].
  - unfold qed_spq_add_entry. rewrite (si_spq _ _ _ _ _ _ _ _ I). cbn [mbind option_bind]. rewrite Hx. cbn [mbind option_bind].
    rewrite Hq, Hf, (may_link_ok I e PClient He) by (apply not_list; tauto). reflexivity.
  - done.
  - exact Hf.
  - reflexivity.
  - done.
  - done.
  - done.
  - pose proof (lists_add_unl P sp e PClient (si_lists _ _ _ _ _ _ _ _ I) He ltac:(apply not_list; tauto)) as [L0 L1 L2 L3 L4]. by split.
  - intros y Hy. rewrite Hx in Hy. injection Hy as <-. simpl. tauto.
Qed.

(** Two quiet entries change at once. *)
Lemma places_set2 dp P E next e e2 p1 p2 q1 q2 x1 x2 :
  places_ok dp P E next -> e <> e2 -> P !! e = Some q1 -> P !! e2 = Some q2 -> quiet_place q1 -> quiet_place q2 ->
  let P' := <[e2 := p2]> (<[e := p1]> P) in let E' := <[e2 := x2]> (<[e := x1]> E) in
  entry_ok P' E' e p1 x1 -> entry_ok P' E' e2 p2 x2 ->
  (in_pool e -> data_ptr (elem x1) = dp e) -> (in_pool e2 -> data_ptr (elem x2) = dp e2) ->
  places_ok dp P' E' next.
Proof.
  intros I Hne H1 H2 Q1 Q2 P' E' O1 O2 D1 D2.
  assert (Hoth : forall i, i <> e -> i <> e2 -> P' !! i = P !! i /\ E' !! i = E !! i)
    by (intros i A B; unfold P', E'; by rewrite !lookup_insert_ne).
  assert (HPe : P' !! e = Some p1 /\ E' !! e = Some x1)
    by (unfold P', E'; rewrite !(lookup_insert_ne _ e2 e) by done; by rewrite !lookup_insert_eq).
  assert (HPe2 : P' !! e2 = Some p2 /\ E' !! e2 = Some x2) by (unfold P', E'; by rewrite !lookup_insert_eq).
  destruct HPe as [A1 A2], HPe2 as [B1 B2]. pose proof I as [D Po Nx N0 En Da]. split.
  - intros i. destruct (decide (i = e)) as [->|]; [rewrite A1, A2; split; by eexists|].
    destruct (decide (i = e2)) as [->|]; [rewrite B1, B2; split; by eexists|]. destruct (Hoth i) as [-> ->]; [done..|]. apply D.
  - intros i Hi. destruct (decide (i = e)) as [->|]; [rewrite A1; by eexists|].
    destruct (decide (i = e2)) as [->|]; [rewrite B1; by eexists|]. destruct (Hoth i) as [-> _]; [done..|]. by apply Po.
  - intros i Hi. apply Nx. destruct (decide (i = e)) as [->|]; [by eexists|]. destruct (decide (i = e2)) as [->|]; [by eexists|].
    destruct (Hoth i) as [E1 _]; [done..|]. by rewrite E1 in Hi.
  - done.
  - intros i p x Hp Hx. destruct (decide (i = e)) as [->|]; [rewrite A1 in Hp; rewrite A2 in Hx; by simplify_eq|].
    destruct (decide (i = e2)) as [->|]; [rewrite B1 in Hp; rewrite B2 in Hx; by simplify_eq|].
    destruct (Hoth i) as [E1 E2]; [done..|]. rewrite E1 in Hp. rewrite E2 in Hx.
    assert (Hquiet : forall j q, j = e \/ j = e2 -> P !! j = Some q -> quiet_place q) by (intros j q [->| ->] Hj; congruence).
    apply (entry_frame P P' E E' (fun j => j = e \/ j = e2)); [intros j Hj; apply Hoth; tauto| | |tauto|by apply En].
    + intros v Hv _ Hpl Hb Hc. destruct (waiter_place _ _ _ _ _ _ _ _ I Hp Hx Hpl Hb Hc) as [Hpr _].
      { intros ->. tauto. }
      destruct (Hquiet v _ Hv Hpr) as [|[|[|]]]; discriminate.
    + intros s Hv -> Hpo. destruct (proxy_target _ _ _ _ _ _ _ I Hp Hx Hpo) as (y & q & _ & Hps & Hpl & _).
      destruct (Hquiet s _ Hv Hps) as [->|[->|[->| ->]]]; destruct Hpl as [|[|[|]]]; discriminate.
  - intros i x Hi Hx. destruct (decide (i = e)) as [->|]; [rewrite A2 in Hx; simplify_eq; by apply D1|].
    destruct (decide (i = e2)) as [->|]; [rewrite B2 in Hx; simplify_eq; by apply D2|].
    destruct (Hoth i) as [_ E2]; [done..|]. rewrite E2 in Hx. by apply Da.
Qed.

(** Case 3: an allocated entry that can be posted as the pool entry [e2]; it is
    freed, unless its client waits. *)
Lemma add_proxy base dp P n k seqs w sp e x e2 rest :
  spq_inv base dp P n k seqs w sp -> P !! e = Some PClient -> w_ents w !! e = Some x -> submitted x -> ~ in_pool e ->
  free_pool sp = e2 :: rest ->
  exists w' sp' P', qed_spq_add_entry w e (priority x) = Some (0, w') /\ w_recov w' = w_recov w /\
    unlimited_pending sp' = unlimited_pending sp /\ spq_inv base dp P' n k seqs w' sp' /\
    P' = <[e2 := PPend]> (if decide (blocks x) then <[e := PProxy]> P else delete e P) /\ P !! e2 = Some PFree /\
    (forall i, i <> e -> i <> e2 -> w_ents w' !! i = w_ents w !! i) /\
    (exists y, w_ents w' !! e2 = Some y /\ comp_mode y = comp_mode x /\ cb_cookie y = cb_cookie x).
Proof.
  intros I He Hx Hs Hn Hf. pose proof (si_places _ _ _ _ _ _ _ _ I) as PO.
  pose proof (po_ent _ _ _ _ PO e _ x He Hx) as ([[Hi _]|(_ & Hq & Hpo)] & Hmo & Hb); [done|].
  assert (He2 : P !! e2 = Some PFree) by (apply (lo_free _ _ (si_lists _ _ _ _ _ _ _ _ I)); rewrite Hf; set_solver).
  destruct (entry_at I e2 _ He2) as [x2 Hx2]. assert (Hi2 : in_pool e2) by (eapply (pool_entry I); [exact He2|exact Hx2|tauto]).
  assert (Hdp : data_ptr (elem x2) = dp e2) by by apply (po_data _ _ _ _ PO).
  assert (Hne : e <> e2) by congruence.
  set (x' := x <| elem := elem x <| data_ptr := data_ptr (elem x2) |> |>). set (sp1 := sp <| free_pool := rest |>).
  assert (Hprio : priority x = QED_SPQ_PRIORITY_NORMAL \/ priority x = QED_SPQ_PRIORITY_HIGH) by apply Hmo.
  assert (L1 : forall p', ~ list_place p' -> lists_ok (<[e2 := p']> P) sp1) by (intros p' Hp'; by apply lists_take_free; [apply I|..]).
  unfold qed_spq_add_entry. rewrite (si_spq _ _ _ _ _ _ _ _ I). cbn [mbind option_bind]. rewrite Hx. cbn [mbind option_bind].
  rewrite Hq, Hf, Hx2. cbn [mbind option_bind]. fold x' sp1. change (comp_mode x') with (comp_mode x).
  destruct (decide (blocks x)) as [Hbl|Hbl].
  - unfold blocks in Hbl. rewrite Hbl. cbn [Z.eqb QED_SPQ_MODE_EBLOCK Pos.eqb negb mbind option_bind].
    destruct (Hb Hbl) as [Hck Hdn]. set (xe := x' <| post_ent := Some e2 |>).
    set (w1 := set_ent e xe (set_ent e2 x' (set_ent e x' (set_spq sp1 w)))).
    set (P' := <[e2 := PPend]> (<[e := PProxy]> P)).
    assert (EE : w_ents w1 = <[e2 := x']> (<[e := xe]> (w_ents w))).
    { unfold w1. simpl. rewrite (insert_insert_ne _ e e2) by done. rewrite insert_insert_eq. done. }
    assert (Hml : may_link w1 sp1 e2 = true).
    { unfold may_link. rewrite EE, lookup_insert_eq, bool_decide_true by by eexists. rewrite bool_decide_true; [done|].
      destruct (L1 PClient ltac:(apply not_list; tauto)) as [_ M1 M2 M3 M4].
      unfold linked. rewrite !elem_of_app, M1, M2, M3, M4, !lookup_insert_eq. naive_solver. }
    assert (exists l nc hc, (l = pending sp1 ++ [e2] \/ l = e2 :: pending sp1) /\
      add_pending w1 e2 (priority x) = Some (0, set_spq (sp1 <| pending := l |> <| normal_count := nc |> <| high_count := hc |>) w1))
      as (l & nc & hc & Hl & EA).
    { unfold add_pending. change (w_spq w1) with (Some sp1). cbn [mbind option_bind]. rewrite Hml. destruct Hprio as [->| ->]; simpl.
      - exists (pending sp1 ++ [e2]), (u32 (normal_count sp1 + 1)), (high_count sp1). split; [by left|]. done.
      - exists (e2 :: pending sp1), (normal_count sp1), (u32 (high_count sp1 + 1)). split; [by right|]. done. }
    set (sp2 := sp1 <| pending := l |> <| normal_count := nc |> <| high_count := hc |>) in *.
    exists (set_spq sp2 w1), sp2, P'. split; [exact EA|]. split_and!; try done.
    2: { intros i A1 A2. change (w_ents (set_spq sp2 w1)) with (w_ents w1). rewrite EE. by rewrite !lookup_insert_ne. }
    2: { exists x'. change (w_ents (set_spq sp2 w1)) with (w_ents w1). rewrite EE. by rewrite lookup_insert_eq. }
    assert (L : lists_ok P' sp2).
    { pose proof (L1 PClient ltac:(apply not_list; tauto)) as L2.
      assert (L3 : lists_ok (<[e2 := PPend]> P) (sp1 <| pending := l |>)).
      { rewrite <- (insert_insert_eq P e2 PPend PClient). eapply lists_add_pend; [exact L2|by rewrite lookup_insert_eq|apply not_list; tauto|exact Hl]. }
      unfold P'. rewrite insert_insert_ne by done.
      assert (L4 : lists_ok (<[e := PProxy]> (<[e2 := PPend]> P)) (sp1 <| pending := l |>)).
      { eapply lists_off; [exact L3|rewrite lookup_insert_ne by done; exact He|apply not_list; tauto|apply not_list; tauto]. }
      destruct L4 as [M0 M1 M2 M3 M4]. by split. }
    split; [done| |exact L|].
    + eapply ring_frame; [apply I|done..|]. intros i y Hi Hy. exists y. split; [|done]. change (w_ents (set_spq sp2 w1)) with (w_ents w1).
      rewrite EE. apply (lo_comp _ _ (si_lists _ _ _ _ _ _ _ _ I)) in Hi. rewrite !lookup_insert_ne by congruence. done.
    + change (w_ents (set_spq sp2 w1)) with (w_ents w1). rewrite EE.
      eapply places_set2; [exact PO|done|exact He|exact He2|unfold quiet_place; tauto|unfold quiet_place; tauto| | |done|by intros].
      * simpl. split_and!; try done. exists e2, x', PPend. rewrite !lookup_insert_eq. split_and!; try done. unfold posted. by left.
      * simpl. split; [done|]. split; [exact Hs|]. intros _. exists e. split; [exact Hck|].
        assert (EXe : <[e2 := x']> (<[e := xe]> (w_ents w)) !! e = Some xe) by (rewrite lookup_insert_ne by done; by rewrite lookup_insert_eq).
        split; [|exists xe; done]. exists xe. split; [exact EXe|]. right. split; [|done].
        rewrite lookup_insert_ne by done. by rewrite lookup_insert_eq.
  - replace (comp_mode x =? QED_SPQ_MODE_EBLOCK) with false by (symmetry; by apply Z.eqb_neq). cbn [negb].
    (* the copy, on no list *)
    set (w1 := set_ent e2 x' (set_spq sp1 w)).
    assert (I1 : spq_inv base dp (<[e2 := PCallback]> P) n k seqs w1 sp1).
    { eapply inv_set; [exact I|exact He2|unfold quiet_place; tauto|done|done|done|done|apply L1, not_list; tauto|done|by intros]. }
    set (w2 := set_ent e2 x' (set_ent e x' (set_spq sp1 w))).
    assert (He1 : <[e2 := PCallback]> P !! e = Some PClient) by by rewrite lookup_insert_ne.
    assert (I2 : spq_inv base dp (<[e2 := PCallback]> P) n k seqs w2 sp1).
    { rewrite <- (insert_id (<[e2 := PCallback]> P) e PClient He1).
      eapply inv_set with (x' := x'); [exact I1|exact He1|unfold quiet_place; tauto|done| |done|done| | |done].
      - unfold w2, w1. simpl. by rewrite insert_insert_ne.
      - rewrite insert_id by done. apply I1.
      - simpl. split; [right; done|]. split; [exact Hmo|done]. }
    destruct (inv_kfree _ _ _ _ _ _ _ _ e PClient I2 He1) as (w3 & -> & -> & I3);
      [unfold quiet_place; tauto|apply not_list; tauto|done|]. cbn [mbind option_bind].
    assert (He3 : delete e (<[e2 := PCallback]> P) !! e2 = Some PCallback) by (rewrite lookup_delete_ne by done; by rewrite lookup_insert_eq).
    destruct (add_pending_eq _ _ _ _ _ _ _ _ e2 _ (priority x) I3 He3 ltac:(apply not_list; tauto) Hprio) as (l & nc & hc & Hl & EA).
    do 3 eexists. split; [exact EA|]. split; [done|]. split; [|split; [|split; [reflexivity|split; [done|split]]]].
    3: { intros i A1 A2. simpl. by rewrite lookup_delete_ne, !lookup_insert_ne. }
    3: { exists x'. simpl. by rewrite lookup_delete_ne, lookup_insert_eq. }
    2: { rewrite <- (insert_insert_eq (delete e P) e2 PPend PCallback), <- delete_insert_ne by done.
         eapply inv_move; [exact I3|exact He3|unfold quiet_place; tauto|reflexivity|done|done|done| |].
         - pose proof (lists_add_pend _ _ e2 PCallback l (si_lists _ _ _ _ _ _ _ _ I3) He3 ltac:(apply not_list; tauto) Hl) as [M0 M1 M2 M3 M4]. by split.
         - intros y Hy. simpl in Hy. rewrite lookup_delete_ne in Hy by done. rewrite lookup_insert_eq in Hy. injection Hy as <-.
           split; [done|]. split; [exact Hs|]. intros B. done. }
    done.
Qed.
