(* ===== verification/SpqPost.v ===== *)
(** * The slow path queue: posting

    From the pool to the ring: the lemmas follow [qed_spq_post_list],
    [qed_spq_pend_post] and the locked part of [qed_spq_post].  They return
    success, keep the invariant and hand an entry over from its client to the
    queue without touching any other client's. *)

From S2P Require Import Prelude Dma Chain ChainRing Spq SpqRing SpqInv.

(** ** Posted entries *)

Lemma posted_not_quiet p : posted p -> ~ quiet_place p.
Proof. intros [->|[->|[->| ->]]] [|[|[|]]]; discriminate. Qed.

(** A posted entry moves on: who waits for it still does. *)
Lemma posted_frame dp P E next e p0 p' x x' :
  places_ok dp P E next -> P !! e = Some p0 -> posted p0 -> E !! e = Some x -> posted p' ->
  comp_mode x' = comp_mode x -> cb_cookie x' = cb_cookie x ->
  forall i p y, i <> e -> P !! i = Some p -> E !! i = Some y -> entry_ok (<[e := p']> P) (<[e := x']> E) i p y.
Proof.
  intros I He Hp0 Hx Hp' Em Ec i p y Hi Hp Hy.
  destruct (decide (p = PProxy /\ post_ent y = Some e)) as [[-> Hpo]|Hn].
  - destruct (po_ent _ _ _ _ I i _ y Hp Hy) as (O1 & O2 & O3 & O4 & s & z & q & Es & Hz & _ & _ & Hb & Hc).
    rewrite Hpo in Es. injection Es as <-. rewrite Hx in Hz. injection Hz as <-. simpl. split_and!; try done.
    exists e, x', p'. rewrite !lookup_insert_eq. unfold blocks. rewrite Em, Ec. done.
  - apply (entry_frame P _ E _ (eq e)); [intros j Hj; by rewrite !lookup_insert_ne| | |congruence|by eapply po_ent].
    + intros v <- _ Hpl Hb Hc. destruct (waiter_place _ _ _ _ _ _ _ _ I Hp Hy Hpl Hb Hc ltac:(congruence)) as [Hv _].
      rewrite He in Hv. injection Hv as ->. destruct Hp0 as [|[|[|]]]; discriminate.
    + intros s <- -> Hpo. tauto.
Qed.

(** Its own entry, when its client waits with it. *)
Lemma posted_keeps dp P E next e p0 p' x x' :
  places_ok dp P E next -> P !! e = Some p0 -> p0 = PPend \/ p0 = PComp -> E !! e = Some x ->
  p' = PPend \/ p' = PComp \/ p' = PWake ->
  submitted x' -> (p' = PWake -> blocks x) -> comp_mode x' = comp_mode x -> cb_cookie x' = cb_cookie x -> queue x' = queue x ->
  comp_done x' = comp_done x -> entry_ok (<[e := p']> P) (<[e := x']> E) e p' x'.
Proof.
  intros I He Hp0 Hx Hp' Hs Hwk Em Ec Eq Ed. pose proof (po_ent _ _ _ _ I e _ x He Hx) as Ok.
  assert (Ok' : in_pool e /\ (blocks x -> exists v, cb_cookie x = CkEntry v /\ waits_for P E v e /\ not_done E v))
    by (destruct Hp0 as [->| ->]; simpl in Ok; tauto).
  destruct Ok' as [Hi Hw].
  assert (G : in_pool e /\ submitted x' /\ (blocks x' -> exists v, cb_cookie x' = CkEntry v /\
    waits_for (<[e := p']> P) (<[e := x']> E) v e /\ not_done (<[e := x']> E) v)).
  { split; [done|]. split; [done|]. unfold blocks. rewrite Em, Ec. intros Hb. destruct (Hw Hb) as (v & Hc & (y & Hy & Hwv) & (y' & Hy' & Hd)).
    exists v. split; [done|]. rewrite Hy in Hy'. injection Hy' as <-. unfold waits_for, not_done. destruct (decide (v = e)) as [->|Hne].
    - rewrite lookup_insert_eq. rewrite Hx in Hy. injection Hy as <-. split; [|exists x'; rewrite Ed; done].
      exists x'. split; [done|]. left. split; [done|]. rewrite Eq. destruct Hwv as [[_ ?]|[Hpr _]]; [done|].
      rewrite He in Hpr. destruct Hp0 as [->| ->]; discriminate.
    - rewrite !lookup_insert_ne by done. split; [by exists y|by exists y]. }
  destruct G as (G1 & G2 & G3). assert (Eb : blocks x' <-> blocks x) by (unfold blocks; by rewrite Em).
  destruct Hp' as [->|[->| ->]]; simpl; tauto.
Qed.

(** ** What the rest of the system sees

    Entries held by a client, by a completion before, during and after its
    callback, and the ones whose client waits. *)
Definition waiting (P : gmap nat place) (E : gmap nat qed_spq_entry) (e : nat) : Prop := exists p x,
  P !! e = Some p /\ E !! e = Some x /\ blocks x /\ cb_cookie x = CkEntry e /\ (p = PUnl \/ p = PProxy \/ posted p).

Definition held_place (p : place) : Prop := p = PClient \/ p = PCallback \/ p = PWake \/ p = PDone.

Definition role_at (P : gmap nat place) (E : gmap nat qed_spq_entry) (P' : gmap nat place) (E' : gmap nat qed_spq_entry) (e : nat) : Prop :=
  (forall p, held_place p -> P !! e = Some p <-> P' !! e = Some p) /\ (waiting P E e <-> waiting P' E' e).

Definition same_roles P E P' E' : Prop := forall e, role_at P E P' E' e.

Lemma role_id (P P' : gmap nat place) (E E' : gmap nat qed_spq_entry) e : P' !! e = P !! e -> E' !! e = E !! e -> role_at P E P' E' e.
Proof. intros E1 E2. unfold role_at, waiting. rewrite E1, E2. done. Qed.

Lemma roles_refl P E : same_roles P E P E.
Proof. intros e. by apply role_id. Qed.
Lemma roles_trans P1 E1 P2 E2 P3 E3 : same_roles P1 E1 P2 E2 -> same_roles P2 E2 P3 E3 -> same_roles P1 E1 P3 E3.
Proof.
  intros A B e. destruct (A e) as [A1 A2], (B e) as [B1 B2]. split; [|by rewrite A2].
  intros p Hp. by rewrite (A1 p Hp), (B1 p Hp).
Qed.

(** A posted entry that stays posted, outside a completion. *)
Lemma role_posted (P P' : gmap nat place) (E E' : gmap nat qed_spq_entry) e p p' x x' :
  P !! e = Some p -> E !! e = Some x -> P' !! e = Some p' -> E' !! e = Some x' -> posted p -> posted p' ->
  p <> PWake -> p' <> PWake -> p <> PDone -> p' <> PDone -> comp_mode x' = comp_mode x -> cb_cookie x' = cb_cookie x -> role_at P E P' E' e.
Proof.
  intros Hp Hx Hp' Hx' Po Po' Hn Hn' Hd Hd' Em Ec. split.
  - intros q Hq. rewrite Hp, Hp'. split; intros [= ->]; exfalso; [destruct Hq as [->|[->|[->| ->]]], Po as [|[|[|]]]|destruct Hq as [->|[->|[->| ->]]], Po' as [|[|[|]]]]; congruence.
  - unfold waiting. rewrite Hp, Hx, Hp', Hx'. split.
    + intros (q & y & [= <-] & [= <-] & Hb & Hc & _). exists p', x'. unfold blocks in *. rewrite Em, Ec. tauto.
    + intros (q & y & [= <-] & [= <-] & Hb & Hc & _). exists p, x. unfold blocks in *. rewrite <- Em, <- Ec. tauto.
Qed.
(** ** Posting to the ring *)

Lemma post_one base dp P n k seqs w sp e rest :
  spq_inv base dp P n k seqs w sp -> pending sp = e :: rest -> n - k < SPQ_RING_SIZE - 1 ->
  exists w' sp', (forall fuel r, r < SPQ_RING_SIZE - (n - k) -> post_list_loop (S fuel) w r = post_list_loop fuel w' r) /\
    spq_inv base dp (<[e := PComp]> P) (n + 1) k (seqs ++ [n]) w' sp' /\ same_roles P (w_ents w) (<[e := PComp]> P) (w_ents w') /\
    w_recov w' = w_recov w /\ pending sp' = rest /\ completion_pending sp' = completion_pending sp ++ [e] /\
    unlimited_pending sp' = unlimited_pending sp /\ free_pool sp' = free_pool sp.
Proof.
  intros I El Hnk. pose proof (si_lists _ _ _ _ _ _ _ _ I) as L. pose proof (si_places _ _ _ _ _ _ _ _ I) as PO.
  assert (He : P !! e = Some PPend) by (apply (lo_pend _ _ L); rewrite El; set_solver).
  destruct (entry_at I e _ He) as [x Hx]. set (spd := sp <| pending := rest |>).
  assert (R : ring_ok base n k seqs w spd) by (eapply ring_frame; [apply I|done..|eauto]).
  assert (Hnc : e ∉ completion_pending sp) by (rewrite (lo_comp _ _ L), He; done).
  destruct (hw_post_ring _ _ _ _ _ _ e x (u32 (comp_sent_count spd + 1)) R Hnk Hnc Hx) as (c & E & R').
  match type of R' with ring_ok _ _ _ _ ?a ?b => set (w' := a) in *; set (sp' := b) in * end.
  set (x' := x <| elem := elem x <| hdr_echo := u16 n |> |>) in *.
  exists w', sp'. split_and!; try done.
  - intros fuel r Hr. cbn [post_list_loop]. rewrite (si_spq _ _ _ _ _ _ _ _ I). cbn [mbind option_bind].
    rewrite (elem_left_spq _ _ _ _ _ _ (si_ring _ _ _ _ _ _ _ _ I)). replace (r <? _) with true by lia. cbn [negb].
    rewrite El, (del_pend I e [] rest El). cbn [mbind option_bind app]. fold spd.
    replace (may_link w spd e) with true; [rewrite E; done|].
    symmetry. unfold may_link. rewrite Hx, bool_decide_true by by eexists. rewrite bool_decide_true; [done|].
    pose proof (lists_pend_comp _ _ _ _ L El) as [(_ & N2 & _ & _) L1 L2 L3 L4]. unfold linked. rewrite !elem_of_app.
    intros [H|[H|[H|H]]]; [apply L1 in H|apply L2 in H| |apply L4 in H]; try (by rewrite lookup_insert_eq in H). by apply Hnc in H.
  - split; [done|exact R'|..].
    + pose proof (lists_pend_comp _ _ _ _ L El) as [M0 M1 M2 M3 M4]. by split.
    + change (w_ents w') with (<[e := x']> (w_ents w)). eapply places_set; [exact PO|exact He| | |].
      * eapply posted_frame; [exact PO|exact He|by left|exact Hx|unfold posted; tauto|done|done].
      * eapply posted_keeps; [exact PO|exact He|by left|exact Hx|tauto| |done|done|done|done|done].
        pose proof (po_ent _ _ _ _ PO e _ x He Hx) as Ok. apply Ok.
      * intros Hi. simpl. by apply (po_data _ _ _ _ PO).
  - intros i. change (w_ents w') with (<[e := x']> (w_ents w)). destruct (decide (i = e)) as [->|]; [|apply role_id; by rewrite lookup_insert_ne].
    eapply role_posted; [exact He|exact Hx|by rewrite lookup_insert_eq|by rewrite lookup_insert_eq|by left|right; by left|done..].
Qed.

(** [qed_spq_post_list] with the reserve [r]: the first entries of the pending
    list are posted, in order, until the list is empty or only the reserve of
    the ring is left. *)
Definition post_room (r n k : Z) : nat := Z.to_nat (SPQ_RING_SIZE - r - (n - k)).

Lemma post_loop_spec base dp r (Hr : 1 <= r) fuel : forall P n k seqs w sp,
  spq_inv base dp P n k seqs w sp -> length (pending sp) = fuel ->
  let m := Nat.min fuel (post_room r n k) in
  exists w' sp' P' seqs', post_list_loop fuel w r = Some (0, w') /\
    spq_inv base dp P' (n + Z.of_nat m) k seqs' w' sp' /\ same_roles P (w_ents w) P' (w_ents w') /\ w_recov w' = w_recov w /\
    pending sp' = drop m (pending sp) /\ completion_pending sp' = completion_pending sp ++ take m (pending sp) /\
    unlimited_pending sp' = unlimited_pending sp /\ free_pool sp' = free_pool sp.
Proof.
  induction fuel as [|fuel IH]; intros P n k seqs w sp I Hl m.
  - destruct (pending sp) eqn:Ep; [|done]. exists w, sp, P, seqs. subst m. cbn [Nat.min Z.of_nat drop take].
    rewrite Z.add_0_r, app_nil_r. split_and!; try done.
  - destruct (pending sp) as [|e rest] eqn:Ep; [done|]. injection Hl as Hl.
    destruct (decide (r < SPQ_RING_SIZE - (n - k))) as [Hlt|Hge].
    + destruct (post_one _ _ _ _ _ _ _ _ _ _ I Ep ltac:(lia)) as (w1 & sp1 & E & I1 & R1 & Hrc & Ep1 & Ec1 & Eu1 & Ef1).
      rewrite E by done. destruct (IH _ _ _ _ _ _ I1 ltac:(by rewrite Ep1)) as (w2 & sp2 & P2 & seqs2 & E2 & I2 & R2 & Hrc2 & Ep2 & Ec2 & Eu2 & Ef2).
      assert (Hm : m = S (Nat.min fuel (post_room r (n + 1) k))) by (subst m; unfold post_room; lia).
      rewrite Hm. exists w2, sp2, P2, seqs2. split; [exact E2|]. split_and!.
      * replace (n + Z.of_nat (S (Nat.min fuel (post_room r (n + 1) k)))) with (n + 1 + Z.of_nat (Nat.min fuel (post_room r (n + 1) k))) by lia. exact I2.
      * by eapply roles_trans.
      * by rewrite Hrc2.
      * by rewrite Ep2, Ep1.
      * rewrite Ec2, Ec1, Ep1, <- app_assoc. done.
      * by rewrite Eu2.
      * by rewrite Ef2.
    + assert (Hm : m = 0%nat) by (subst m; unfold post_room; lia). rewrite Hm. exists w, sp, P, seqs. cbn [post_list_loop].
      rewrite (si_spq _ _ _ _ _ _ _ _ I). cbn [mbind option_bind]. rewrite (elem_left_spq _ _ _ _ _ _ (si_ring _ _ _ _ _ _ _ _ I)).
      replace (r <? SPQ_RING_SIZE - (n - k)) with false by lia. cbn [negb Z.of_nat drop take]. rewrite Z.add_0_r, app_nil_r.
      split_and!; try done.
Qed.

(** ** Requests that wait for a pool entry *)

(** Held by nobody. *)
Definition unheld (P : gmap nat place) (e : nat) : Prop := forall p, held_place p -> P !! e <> Some p.

(** What a pool entry posted for an allocated one changes. *)
Lemma proxy_roles base dp (P P' : gmap nat place) n k seqs w' sp' (E : gmap nat qed_spq_entry) e e2 x :
  spq_inv base dp P' n k seqs w' sp' ->
  P' = <[e2 := PPend]> (if decide (blocks x) then <[e := PProxy]> P else delete e P) -> P !! e2 = Some PFree ->
  (forall i, i <> e -> i <> e2 -> w_ents w' !! i = E !! i) ->
  (blocks x -> cb_cookie x = CkEntry e /\ done (comp_done x) <> 1) ->
  (exists y, w_ents w' !! e2 = Some y /\ comp_mode y = comp_mode x /\ cb_cookie y = cb_cookie x) -> e <> e2 ->
  (forall i, i <> e -> role_at P E P' (w_ents w') i) /\ unheld P' e /\ (waiting P' (w_ents w') e <-> blocks x).
Proof.
  intros I' EP He2 Eo Hb (y & Hy & Em & Ec) Hne.
  assert (Hpr : P' !! e2 = Some PPend) by (rewrite EP; by rewrite lookup_insert_eq).
  assert (Hpe : P' !! e = if decide (blocks x) then Some PProxy else None).
  { rewrite EP, lookup_insert_ne by done. destruct (decide (blocks x)); [by rewrite lookup_insert_eq|by rewrite lookup_delete_eq]. }
  split_and!.
  - intros i Hi. destruct (decide (i = e2)) as [->|Hi2].
    + split; [intros p Hp|].
      * rewrite He2, Hpr. split; intros [= <-]; destruct Hp as [|[|[|]]]; discriminate.
      * unfold waiting. split.
        -- intros (p & z & Hp & _ & _ & _ & Hpl). rewrite He2 in Hp. injection Hp as <-. destruct Hpl as [|[|[|[|[|]]]]]; discriminate.
        -- intros (p & z & Hp & Hz & B & C & _). rewrite Hy in Hz. injection Hz as <-. exfalso.
           assert (Bx : blocks x) by (unfold blocks in *; congruence). destruct (Hb Bx) as [C' _]. congruence.
    + apply role_id; [|by rewrite Eo]. rewrite EP, lookup_insert_ne by done.
      destruct (decide (blocks x)); [by rewrite lookup_insert_ne|by rewrite lookup_delete_ne].
  - intros p Hp. rewrite Hpe. destruct (decide (blocks x)); [|done]. intros [= <-]. destruct Hp as [|[|[|]]]; discriminate.
  - unfold waiting. split.
    + intros (p & z & Hp & _). rewrite Hpe in Hp. by destruct (decide (blocks x)).
    + intros B. rewrite decide_True in Hpe by done. destruct (entry_at I' e _ Hpe) as [x' Hx'].
      pose proof (po_ent _ _ _ _ (si_places _ _ _ _ _ _ _ _ I') e _ x' Hpe Hx') as (_ & _ & B' & C' & _).
      exists PProxy, x'. tauto.
Qed.

(** One round of the loop of [qed_spq_pend_post]. *)
Lemma pend_one base dp P n k seqs w sp e e2 rest free :
  spq_inv base dp P n k seqs w sp -> unlimited_pending sp = e :: rest -> free_pool sp = e2 :: free ->
  exists w' sp' P', (forall fuel, pend_loop (S fuel) w = pend_loop fuel w') /\
    spq_inv base dp P' n k seqs w' sp' /\ same_roles P (w_ents w) P' (w_ents w') /\ w_recov w' = w_recov w /\
    unlimited_pending sp' = rest.
Proof.
  intros I Eu Ef. pose proof (si_lists _ _ _ _ _ _ _ _ I) as L. pose proof (si_places _ _ _ _ _ _ _ _ I) as PO.
  assert (He : P !! e = Some PUnl) by (apply (lo_unl _ _ L); rewrite Eu; set_solver).
  destruct (entry_at I e _ He) as [x Hx]. pose proof (po_ent _ _ _ _ PO e _ x He Hx) as (Hn & Hq & Hpo & Hs & Hb).
  set (sp1 := sp <| unlimited_pending := rest |>).
  assert (I1 : spq_inv base dp (<[e := PClient]> P) n k seqs (set_spq sp1 w) sp1).
  { eapply inv_move; [exact I|exact He|unfold quiet_place; tauto|done|done|done|done| |].
    - apply (lists_rem_unl P sp e [] rest PClient L Eu). apply not_list; tauto.
    - intros y Hy. rewrite Hx in Hy. injection Hy as <-. simpl. split; [right; done|]. split; [apply Hs|done]. }
  destruct (add_proxy _ _ _ _ _ _ _ _ e x e2 free I1) as (w' & sp' & P' & E & Hrc & Eu' & I' & EP & He2 & Eo & y & Hy & Em & Ec); try done.
  { by rewrite lookup_insert_eq. }
  exists w', sp', P'. split_and!; try done.
  - intros fuel. cbn [pend_loop]. rewrite (si_spq _ _ _ _ _ _ _ _ I). cbn [mbind option_bind]. rewrite Ef, Eu, (del_unl I e [] rest Eu).
    cbn [mbind option_bind app]. rewrite Hx. cbn [mbind option_bind]. fold sp1. rewrite E. done.
  - destruct (proxy_roles _ _ _ _ _ _ _ _ _ _ e e2 x I' EP He2 Eo Hb (ex_intro _ y (conj Hy (conj Em Ec)))
      ltac:(intros ->; rewrite lookup_insert_eq in He2; done)) as (Ro & Uh & Wt).
    intros i. destruct (decide (i = e)) as [->|Hi].
    + split; [intros p Hp; split; [rewrite He; intros [= <-]; destruct Hp as [|[|[|]]]; discriminate|intros Hpe; by apply Uh in Hpe]|].
      rewrite Wt. split.
      * intros (p & z & Hp & Hz & B & _). by simplify_eq.
      * intros B. destruct (Hb B) as [C _]. exists PUnl, x. tauto.
    + destruct (Ro i Hi) as [R1 R2]. unfold role_at, waiting in *. by rewrite lookup_insert_ne in R1, R2 by done.
Qed.

Lemma pend_loop_spec base dp fuel : forall P n k seqs w sp,
  spq_inv base dp P n k seqs w sp -> (length (unlimited_pending sp) <= fuel)%nat ->
  exists w' sp' P', pend_loop fuel w = Some w' /\ spq_inv base dp P' n k seqs w' sp' /\
    same_roles P (w_ents w) P' (w_ents w') /\ w_recov w' = w_recov w /\ (free_pool sp' = [] \/ unlimited_pending sp' = []).
Proof.
  induction fuel as [|fuel IH]; intros P n k seqs w sp I Hl.
  - exists w, sp, P. split_and!; try done. right. destruct (unlimited_pending sp); [done|simpl in Hl; lia].
  - destruct (free_pool sp) as [|e2 free] eqn:Ef; [|destruct (unlimited_pending sp) as [|e rest] eqn:Eu].
    + exists w, sp, P. split_and!; try done; [|by left]. cbn [pend_loop]. rewrite (si_spq _ _ _ _ _ _ _ _ I). cbn [mbind option_bind]. by rewrite Ef.
    + exists w, sp, P. split_and!; try done; [|by right]. cbn [pend_loop]. rewrite (si_spq _ _ _ _ _ _ _ _ I). cbn [mbind option_bind]. by rewrite Ef, Eu.
    + destruct (pend_one _ _ _ _ _ _ _ _ _ _ _ _ I Eu Ef) as (w1 & sp1 & P1 & E & I1 & R1 & H1 & Eu1). rewrite E.
      destruct (IH _ _ _ _ _ _ I1) as (w2 & sp2 & P2 & E2 & I2 & R2 & H2 & Hd); [rewrite Eu1; simpl in Hl; lia|].
      exists w2, sp2, P2. split_and!; try done; [by eapply roles_trans|by rewrite H2].
Qed.
(** [qed_spq_pend_post] never fails; afterwards no request is left waiting that
    could be posted. *)
Definition drained (n k : Z) (sp : qed_spq) : Prop :=
  (free_pool sp = [] \/ unlimited_pending sp = []) /\
  (pending sp = [] \/ SPQ_RING_SIZE - (n - k) = SPQ_HIGH_PRI_RESERVE_DEFAULT).

Lemma pend_post_spec base dp P n k seqs w sp :
  spq_inv base dp P n k seqs w sp ->
  exists w' sp' P' n' seqs', qed_spq_pend_post w = Some (0, w') /\ spq_inv base dp P' n' k seqs' w' sp' /\
    same_roles P (w_ents w) P' (w_ents w') /\ w_recov w' = w_recov w /\ drained n' k sp'.
Proof.
  intros I. unfold qed_spq_pend_post. rewrite (si_spq _ _ _ _ _ _ _ _ I). cbn [mbind option_bind].
  destruct (pend_loop_spec _ _ (length (unlimited_pending sp)) _ _ _ _ _ _ I ltac:(lia)) as (w1 & sp1 & P1 & -> & I1 & R1 & H1 & Hd).
  cbn [mbind option_bind]. unfold qed_spq_post_list. rewrite (si_spq _ _ _ _ _ _ _ _ I1). cbn [mbind option_bind].
  destruct (post_loop_spec base dp SPQ_HIGH_PRI_RESERVE_DEFAULT ltac:(done) _ _ _ _ _ _ _ I1 eq_refl)
    as (w2 & sp2 & P2 & seqs2 & E2 & I2 & R2 & H2 & Ep & Ec & Eu & Ef).
  set (m := Nat.min _ _) in *. exists w2, sp2, P2, (n + Z.of_nat m), seqs2.
  split; [exact E2|]. split_and!; [exact I2|by eapply roles_trans|by rewrite H2|]. split; [by rewrite Ef, Eu|].
  pose proof (ro_range _ _ _ _ _ _ (si_ring _ _ _ _ _ _ _ _ I)) as [_ Hr]. change SPQ_HIGH_PRI_RESERVE_DEFAULT with 1 in *.
  destruct (decide (m = length (pending sp1))) as [Hm|Hm].
  - left. rewrite Ep, Hm. apply drop_all.
  - right. assert (m = post_room 1 n k) as -> by (subst m; lia). unfold post_room. lia.
Qed.

(** ** [qed_spq_post] up to the wait *)

(** Entry [e] leaves its client's hands; the client waits for it when [wait]. *)
Definition handed_over (P : gmap nat place) (E : gmap nat qed_spq_entry) (P' : gmap nat place) (E' : gmap nat qed_spq_entry)
    (e : nat) (wait : Prop) : Prop :=
  (forall i, i <> e -> role_at P E P' E' i) /\ unheld P' e /\ (waiting P' E' e <-> wait).

Lemma handed_roles P E P1 E1 P2 E2 e wait :
  handed_over P E P1 E1 e wait -> same_roles P1 E1 P2 E2 -> handed_over P E P2 E2 e wait.
Proof.
  intros (A & B & C) R. split_and!.
  - intros i Hi. destruct (A i Hi) as [A1 A2], (R i) as [R1 R2]. split; [|by rewrite A2]. intros p Hp. by rewrite (A1 p Hp), (R1 p Hp).
  - intros p Hp H. apply (proj1 (R e) p Hp) in H. by apply (B p Hp).
  - destruct (R e) as [_ R2]. by rewrite <- R2.
Qed.

Lemma handed_queue (P : gmap nat place) (E E' : gmap nat qed_spq_entry) e p' x :
  p' = PPend \/ p' = PUnl -> E' !! e = Some x -> (forall i, i <> e -> E' !! i = E !! i) -> (blocks x -> cb_cookie x = CkEntry e) ->
  handed_over P E (<[e := p']> P) E' e (blocks x).
Proof.
  intros Hp Hx Ho Hb. split_and!.
  - intros i Hi. apply role_id; [by rewrite lookup_insert_ne|by apply Ho].
  - intros q Hq. rewrite lookup_insert_eq. intros [= ->]. destruct Hq as [|[|[|]]], Hp; congruence.
  - unfold waiting. rewrite lookup_insert_eq, Hx. split; [intros (? & ? & _ & [= <-] & ? & _); done|].
    intros B. exists p', x. split_and!; try done; [by apply Hb|]. destruct Hp as [->| ->]; unfold posted; tauto.
Qed.

(** [qed_spq_add_entry], whatever the entry. *)
Lemma add_entry_spec base dp P n k seqs w sp e x :
  spq_inv base dp P n k seqs w sp -> P !! e = Some PClient -> w_ents w !! e = Some x -> submitted x ->
  exists w' sp' P', qed_spq_add_entry w e (priority x) = Some (0, w') /\ spq_inv base dp P' n k seqs w' sp' /\
    handed_over P (w_ents w) P' (w_ents w') e (blocks x) /\ w_recov w' = w_recov w.
Proof.
  intros I He Hx Hs. pose proof (po_ent _ _ _ _ (si_places _ _ _ _ _ _ _ _ I) e _ x He Hx) as (Hpl & _ & Hb).
  assert (Hb' : blocks x -> cb_cookie x = CkEntry e) by (intros B; by apply Hb).
  destruct Hpl as [[Hi _]|[Hi _]].
  - destruct (add_pool _ _ _ _ _ _ _ _ e x I He Hx Hs Hi) as (w' & sp' & E & Hr & _ & I' & EE).
    exists w', sp', (<[e := PPend]> P). split_and!; try done. eapply handed_queue; [by left|by rewrite EE|by rewrite EE|done].
  - destruct (free_pool sp) as [|e2 rest] eqn:Ef.
    + destruct (add_unlimited _ _ _ _ _ _ _ _ e x I He Hx Hs Hi Ef) as (w' & sp' & E & Hr & _ & I' & EE).
      exists w', sp', (<[e := PUnl]> P). split_and!; try done. eapply handed_queue; [by right|by rewrite EE|by rewrite EE|done].
    + destruct (add_proxy _ _ _ _ _ _ _ _ e x e2 rest I He Hx Hs Hi Ef) as (w' & sp' & P' & E & Hr & _ & I' & EP & He2 & Eo & Hy).
      exists w', sp', P'. split_and!; try done. eapply proxy_roles; [exact I'|exact EP|exact He2|exact Eo|exact Hb|exact Hy|congruence].
Qed.

Lemma post_locked_spec base dp P w e x :
  Inv base dp P w -> P !! e = Some PClient -> w_ents w !! e = Some x ->
  exists w' P' n k seqs sp, post_locked w e = Some (0, comp_mode x =? QED_SPQ_MODE_EBLOCK, w') /\
    spq_inv base dp P' n k seqs w' sp /\ drained n k sp /\
    handed_over P (w_ents w) P' (w_ents w') e (blocks x) /\ w_recov w' = w_recov w.
Proof.
  intros (n & k & seqs & sp & I) He Hx. pose proof (po_ent _ _ _ _ (si_places _ _ _ _ _ _ _ _ I) e _ x He Hx) as (Hpl & Hmo & Hb).
  destruct (fill_spec x Hmo) as (x' & Ef & Hs & Em & Ep & Eq & Epo & Eck & Ed & Eel).
  assert (I1 : spq_inv base dp P n k seqs (set_ent e x' w) sp).
  { rewrite <- (insert_id P e PClient He). eapply inv_set; [exact I|exact He|unfold quiet_place; tauto|apply I|reflexivity|done|done| | |].
    - rewrite insert_id by done. apply I.
    - simpl. rewrite Eq, Epo, Eck, Ed. unfold blocks in *. rewrite Em. split_and!; [done|apply Hs|done].
    - intros Hi. rewrite Eel. by apply (po_data _ _ _ _ (si_places _ _ _ _ _ _ _ _ I)). }
  destruct (add_entry_spec _ _ _ _ _ _ _ _ e x' I1 He) as (w2 & sp2 & P2 & E2 & I2 & H2 & R2); [simpl; by rewrite lookup_insert_eq|done|].
  destruct (pend_post_spec _ _ _ _ _ _ _ _ I2) as (w3 & sp3 & P3 & n3 & seqs3 & E3 & I3 & R3 & Hr3 & Hd).
  exists w3, P3, n3, k, seqs3, sp3. split_and!; [|exact I3|exact Hd| |by rewrite Hr3].
  - unfold post_locked. rewrite Hx. cbn [mbind option_bind]. rewrite Ef. cbn [Z.eqb negb]. rewrite E2. cbn [mbind option_bind Z.eqb negb].
    rewrite E3. cbn [mbind option_bind Z.eqb negb]. by rewrite Em.
  - assert (Eb : blocks x' <-> blocks x) by (unfold blocks; by rewrite Em).
    destruct (handed_roles _ _ _ _ _ _ _ _ H2 R3) as (A & B & C). split_and!; [|done|by rewrite C].
    intros i Hi. destruct (A i Hi) as [A1 A2]. split; [done|]. rewrite <- A2. unfold waiting. simpl. by rewrite lookup_insert_ne.
Qed.
