(* ===== verification/SpqComp.v ===== *)
(** * The slow path queue: completions

    Taking a completion, waking the client that waits for it, and the end of a
    client's wait, by a completion or by a time-out. *)

From S2P Require Import Prelude Dma Chain ChainRing Spq SpqRing SpqInv SpqPost.

(** ** Finding the entry of a completion *)

Lemma find_echo_spec w ec l :
  (forall e, e ∈ l -> is_Some (w_ents w !! e)) ->
  exists r, find_echo w l ec = Some r /\
    match r with
    | None => forall e x, e ∈ l -> w_ents w !! e = Some x -> hdr_echo (elem x) <> ec
    | Some e => exists l1 l2 x, l = l1 ++ e :: l2 /\ w_ents w !! e = Some x /\ hdr_echo (elem x) = ec
    end.
Proof.
  induction l as [|e l IH]; intros H.
  - exists None. split; [done|]. intros e x He. by apply elem_of_nil in He.
  - destruct (H e ltac:(set_solver)) as [x Hx]. cbn [find_echo]. rewrite Hx. cbn [mbind option_bind].
    destruct (hdr_echo (elem x) =? ec) eqn:Ee; zbool.
    + exists (Some e). split; [done|]. by exists [], l, x.
    + destruct IH as (r & -> & Hr); [set_solver|]. exists r. split; [done|]. destruct r as [e'|].
      * destruct Hr as (l1 & l2 & y & -> & Hy & Hec). by exists (e :: l1), l2, y.
      * intros i y Hi Hy. apply elem_of_cons in Hi as [->|Hi]; [congruence|by eapply Hr].
Qed.

(** The number of the entry at a position of the completion list. *)
Lemma seqs_split base n k seqs w sp l1 e l2 :
  ring_ok base n k seqs w sp -> completion_pending sp = l1 ++ e :: l2 ->
  exists s1 q s2, seqs = s1 ++ q :: s2 /\ length l1 = length s1.
Proof.
  intros R El. pose proof (ro_slots _ _ _ _ _ _ R) as F. rewrite El in F.
  apply Forall2_app_inv_l in F as (s1 & s' & F1 & F2 & ->). inversion F2; subst. eexists s1, _, _. split; [done|]. by eapply Forall2_length.
Qed.

(** Entries nobody waits for through a pool entry. *)
Lemma places_off dp P E next e p0 p' x :
  places_ok dp P E next -> P !! e = Some p0 -> posted p0 -> E !! e = Some x -> (blocks x -> cb_cookie x = CkEntry e) ->
  (entry_ok (<[e := p']> P) E e p' x) -> places_ok dp (<[e := p']> P) E next.
Proof.
  intros I He Hp0 Hx Hc Ok. rewrite <- (insert_id E e x Hx).
  eapply places_set; [exact I|exact He| |by rewrite (insert_id E e x Hx)|by intros; eapply po_data].
  intros i p y Hi Hp Hy. rewrite (insert_id E e x Hx).
  apply (entry_frame P _ E _ (eq e)); [intros j Hj; by rewrite !lookup_insert_ne| | |congruence|by eapply po_ent].
  - intros v <- _ Hpl Hb Hcy. destruct (waiter_place _ _ _ _ _ _ _ _ I Hp Hy Hpl Hb Hcy ltac:(congruence)) as [Hv _].
    rewrite He in Hv. injection Hv as ->. destruct Hp0 as [|[|[|]]]; discriminate.
  - intros s <- -> Hpo. destruct (proxy_target _ _ _ _ _ _ _ I Hp Hy Hpo) as (z & q & Hz & _ & _ & Bz & Cz).
    rewrite Hx in Hz. injection Hz as <-. rewrite (Hc Bz) in Cz. injection Cz as <-. done.
Qed.

(** ** The locked part of [qed_spq_completion] *)

Lemma unlink_comp base dp P n k seqs w sp l1 e l2 x :
  spq_inv base dp P n k seqs w sp -> completion_pending sp = l1 ++ e :: l2 -> w_ents w !! e = Some x ->
  exists k' seqs' sp2, (sp1 ← list_del w sp e; qed_spq_comp_bmap_update sp1 (hdr_echo (elem x))) = Some sp2 /\
    (forall w', w_mem w' = w_mem w -> w_ring w' = w_ring w -> w_ents w' = w_ents w -> ring_ok base n k' seqs' w' sp2) /\
    (forall p', ~ list_place p' -> lists_ok (<[e := p']> P) sp2) /\ k <= k' /\ completion_pending sp2 = l1 ++ l2.
Proof.
  intros I El Hx. pose proof (si_ring _ _ _ _ _ _ _ _ I) as R. destruct (seqs_split _ _ _ _ _ _ _ _ _ R El) as (s1 & q & s2 & -> & Hlen).
  destruct (complete_ring _ _ _ _ _ _ _ _ _ _ _ x R El Hlen Hx) as (Hec & k' & c & bm & E & Hk & R').
  rewrite (del_comp I e l1 l2 El). cbn [mbind option_bind]. exists k', (s1 ++ s2). eexists. split; [exact E|].
  split_and!; [exact R'| |done|done]. intros p' Hp'.
  pose proof (lists_rem_comp _ _ _ _ _ _ (si_lists _ _ _ _ _ _ _ _ I) El Hp') as [L0 L1 L2 L3 L4]. by split.
Qed.

Lemma comp_entry base dp P n k seqs w sp l1 e l2 :
  spq_inv base dp P n k seqs w sp -> completion_pending sp = l1 ++ e :: l2 -> P !! e = Some PComp.
Proof. intros I El. apply (lo_comp _ _ (si_lists _ _ _ _ _ _ _ _ I)). rewrite El. set_solver. Qed.

(** The place an entry goes to when its completion is taken. *)
Definition taken (x : qed_spq_entry) : place := if decide (blocks x) then PWake else PCallback.

Definition in_flight (w : spq_world) (sp : qed_spq) (ec : Z) (e : nat) (x : qed_spq_entry) : Prop :=
  e ∈ completion_pending sp /\ w_ents w !! e = Some x /\ hdr_echo (elem x) = ec.

(** At most one entry in flight has a given echo. *)
Lemma in_flight_unique base dp P n k seqs w sp ec e x e' x' :
  spq_inv base dp P n k seqs w sp -> in_flight w sp ec e x -> in_flight w sp ec e' x' -> e = e'.
Proof.
  intros I (He & Hx & Ex) (He' & Hx' & Ex'). pose proof (si_ring _ _ _ _ _ _ _ _ I) as R.
  apply list_elem_of_lookup in He as [i Hi]. apply list_elem_of_lookup in He' as [j Hj].
  pose proof (ro_slots _ _ _ _ _ _ R) as F. destruct (Forall2_lookup_l _ _ _ _ _ F Hi) as (q & Hq & Rq & y & Hy & Ey & _).
  destruct (Forall2_lookup_l _ _ _ _ _ F Hj) as (q' & Hq' & Rq' & y' & Hy' & Ey' & _). simplify_eq.
  assert (q = q') as <- by (apply echo_inj; [congruence|pose proof (ro_range _ _ _ _ _ _ R); lia]).
  assert (i = j) as -> by (eapply NoDup_lookup; [apply R|exact Hq|exact Hq']). congruence.
Qed.

Lemma completion_take_spec base dp P w ec n k seqs sp :
  spq_inv base dp P n k seqs w sp ->
  exists rc found w', completion_take w ec = Some (rc, found, w') /\ w_recov w' = w_recov w /\ w_ents w' = w_ents w /\
    match found with
    | Some e => rc = 0 /\ exists x k' seqs' sp', in_flight w sp ec e x /\ P !! e = Some PComp /\
        (forall i, i ∈ completion_pending sp' <-> i <> e /\ i ∈ completion_pending sp) /\
        k <= k' /\ spq_inv base dp (<[e := taken x]> P) n k' seqs' w' sp'
    | None => (rc = - EEXIST /\ w' = w /\ (forall e x, ~ in_flight w sp ec e x) \/
               rc = 0 /\ exists e x, in_flight w sp ec e x /\ blocks x /\ drop_next_completion sp = true) /\
              exists sp', spq_inv base dp P n k seqs w' sp'
    end.
Proof.
  intros I. unfold completion_take. rewrite (si_spq _ _ _ _ _ _ _ _ I).
  destruct (find_echo_spec w ec (completion_pending sp)) as (r & -> & Hr).
  { intros e He. apply (lo_comp _ _ (si_lists _ _ _ _ _ _ _ _ I)) in He. destruct (entry_at I e _ He) as [x Hx]. by eexists. }
  cbn [mbind option_bind]. destruct r as [e|].
  2: { exists (- EEXIST), None, w. split_and!; try done; [|by exists sp]. left. split_and!; try done. intros e x (A & B & C). by eapply Hr. }
  destruct Hr as (l1 & l2 & x & El & Hx & Hec). rewrite Hx. cbn [mbind option_bind].
  assert (Hf : in_flight w sp ec e x) by (split; [rewrite El; set_solver|done]).
  pose proof (comp_entry _ _ _ _ _ _ _ _ _ _ _ I El) as He. pose proof (si_places _ _ _ _ _ _ _ _ I) as PO.
  destruct (drop_next_completion sp && (comp_mode x =? QED_SPQ_MODE_EBLOCK)) eqn:Ed.
  - do 3 eexists. split; [reflexivity|]. split_and!; try done; zbool.
    + right. split; [done|]. exists e, x. done.
    + eexists. split; [reflexivity| |destruct (si_lists _ _ _ _ _ _ _ _ I); by split|exact PO]. eapply ring_frame; [apply I|done..|eauto].
  - destruct (unlink_comp _ _ _ _ _ _ _ _ _ _ _ x I El Hx) as (k' & seqs' & sp2 & E & Rg & Ls & Hk & Ec).
    destruct (list_del w sp e) as [sp1|]; [|done]. cbn [mbind option_bind] in E |- *. rewrite <- Hec, E. cbn [mbind option_bind].
    do 3 eexists. split; [reflexivity|]. split_and!; try done.
    eexists x, k', seqs', _. split_and!; [by rewrite Hec|done| |done|]; [|split; [reflexivity|..]].
    + intros i. simpl. rewrite Ec, El. pose proof (lo_nodup _ _ (si_lists _ _ _ _ _ _ _ _ I)) as (_ & _ & ND & _). rewrite El in ND.
      apply list.NoDup_app in ND as (_ & N2 & N3). apply list.NoDup_cons in N3 as [N3 _].
      rewrite !elem_of_app, elem_of_cons. assert (i = e -> i ∉ l1) by (intros -> Hin; apply (N2 e Hin); set_solver).
      assert (i = e -> i ∉ l2) by (intros ->; done). tauto.
    + eapply ring_frame; [apply (Rg w)|..]; try done. eauto.
    + assert (Hnl : ~ list_place (taken x)) by (apply not_list; unfold taken; destruct (decide (blocks x)); tauto).
      destruct (Ls _ Hnl) as [L0 L1 L2 L3 L4]. by split.
    + simpl. pose proof (po_ent _ _ _ _ PO e _ x He Hx) as (O1 & O2 & O3). unfold taken. destruct (decide (blocks x)) as [B|B].
      * rewrite <- (insert_id (w_ents w) e x Hx). eapply places_set; [exact PO|exact He| | |by intros; eapply po_data].
        -- eapply posted_frame; [exact PO|exact He|right; by left|exact Hx|right; right; by left|done|done].
        -- eapply posted_keeps; [exact PO|exact He|by right|exact Hx|tauto|done|done|done|done|done|done].
      * eapply places_off; [exact PO|exact He|right; by left|exact Hx|done|done].
Qed.
(** ** Waking a client *)

Lemma places_change dp P E next P' E' :
  places_ok dp P E next -> (forall i, is_Some (P' !! i) <-> is_Some (P !! i)) -> (forall i, is_Some (E' !! i) <-> is_Some (E !! i)) ->
  (forall i p x, P' !! i = Some p -> E' !! i = Some x -> entry_ok P' E' i p x) ->
  (forall i x, in_pool i -> E' !! i = Some x -> data_ptr (elem x) = dp i) -> places_ok dp P' E' next.
Proof.
  intros [D Po Nx N0 En Da] HP HE Hok Hd. split; try done.
  - intros i. by rewrite HP, HE.
  - intros i Hi. rewrite HP. by apply Po.
  - intros i Hi. apply Nx. by rewrite <- HP.
Qed.

Definition woken (x : qed_spq_entry) (fw : Z) : qed_spq_entry := x <| comp_done := mk_qed_spq_comp_done 1 fw |>.

(** The places of an allocated entry and of the pool entry posted for it. *)
Lemma wake_places dp P E next e v x y fw :
  places_ok dp P E next -> P !! e = Some PWake -> E !! e = Some x -> cb_cookie x = CkEntry v -> E !! v = Some y ->
  places_ok dp (<[e := PDone]> P) (<[v := woken y fw]> E) next.
Proof.
  intros I He Hx Hc Hy. pose proof (po_ent _ _ _ _ I e _ x He Hx) as (Hi & Hs & Hb & v' & Hc' & (y' & Hy' & Hw) & _).
  rewrite Hc in Hc'. injection Hc' as <-. rewrite Hy in Hy'. injection Hy' as <-.
  apply (places_change dp P E); [done| | | |].
  - intros i. destruct (decide (i = e)) as [->|]; [rewrite lookup_insert_eq, He; split; by eexists|by rewrite lookup_insert_ne].
  - intros i. destruct (decide (i = v)) as [->|]; [rewrite lookup_insert_eq, Hy; split; by eexists|by rewrite lookup_insert_ne].
  - intros i p z Hp Hz.
    assert (HEv : <[v := woken y fw]> E !! v = Some (woken y fw)) by by rewrite lookup_insert_eq.
    destruct (decide (i = e)) as [->|Hie].
    + rewrite lookup_insert_eq in Hp. injection Hp as <-. simpl.
      assert (Ez : comp_mode z = comp_mode x /\ cb_cookie z = cb_cookie x).
      { destruct (decide (e = v)) as [<-|Hne]; [rewrite lookup_insert_eq in Hz|rewrite lookup_insert_ne in Hz by done]; simplify_eq; done. }
      destruct Ez as [Em Ec]. unfold blocks in *. rewrite Em, Ec. split_and!; try done. exists v. split; [done|].
      split; [|by exists (woken y fw)]. exists (woken y fw). split; [done|]. destruct Hw as [[-> Hq]|[Hpr Hpo]]; [by left|].
      right. split; [|done]. rewrite lookup_insert_ne; [done|]. congruence.
    + rewrite lookup_insert_ne in Hp by done. destruct (decide (i = v)) as [->|Hiv].
      * (* the allocated entry *)
        destruct Hw as [[-> _]|[Hpr Hpo]]; [done|]. rewrite Hpr in Hp. injection Hp as <-. rewrite HEv in Hz. injection Hz as <-.
        pose proof (po_ent _ _ _ _ I v _ y Hpr Hy) as (O1 & O2 & O3 & O4 & _). simpl. split_and!; try done.
        exists e, x, PDone. rewrite lookup_insert_eq, lookup_insert_ne by congruence. unfold posted. split_and!; try done. tauto.
      * rewrite lookup_insert_ne in Hz by done.
        apply (entry_frame P _ E _ (fun j => j = e \/ j = v)); [intros j Hj; rewrite !lookup_insert_ne by (intros ->; tauto); done| | |tauto|by eapply po_ent].
        -- intros j Hj Hji Hpl Hbz Hcz. destruct (waiter_place _ _ _ _ _ _ _ _ I Hp Hz Hpl Hbz Hcz Hji) as [Hj' (y2 & Hy2 & Hpo2)].
           destruct Hj as [->| ->]; [congruence|]. destruct Hw as [[-> _]|[_ Hpo]]; congruence.
        -- intros j Hj -> Hpo. destruct (proxy_target _ _ _ _ _ _ _ I Hp Hz Hpo) as (y2 & q & Hy2 & Hq & Hpl & _ & Hc2).
           destruct Hj as [->| ->]; [congruence|]. destruct Hw as [[-> _]|[Hpr _]]; [congruence|].
           rewrite Hpr in Hq. injection Hq as <-. destruct Hpl as [|[|[|]]]; discriminate.
  - intros i z Hin Hz. destruct (decide (i = v)) as [->|Hiv].
    + rewrite lookup_insert_eq in Hz. injection Hz as <-. simpl. by apply (po_data _ _ _ _ I).
    + rewrite lookup_insert_ne in Hz by done. by apply (po_data _ _ _ _ I).
Qed.

Lemma wake_spec base dp P w e x fw :
  Inv base dp P w -> P !! e = Some PWake -> w_ents w !! e = Some x ->
  exists v y w', cb_function x = FnBlocking /\ cb_cookie x = CkEntry v /\ w_ents w !! v = Some y /\
    w' = set_ent v (woken y fw) w /\ qed_spq_blocking_cb w (cb_cookie x) fw = Some w' /\ completion_end w' e = Some w' /\
    Inv base dp (<[e := PDone]> P) w' /\ waiting P (w_ents w) v.
Proof.
  intros (n & k & seqs & sp & I) He Hx. pose proof (si_places _ _ _ _ _ _ _ _ I) as PO.
  pose proof (po_ent _ _ _ _ PO e _ x He Hx) as (Hi & [_ Hs] & Hb & v & Hc & (y & Hy & Hw) & _).
  exists v, y, (set_ent v (woken y fw) w). split_and!; try done.
  - apply Hs. unfold blocks in Hb. rewrite Hb. done.
  - unfold qed_spq_blocking_cb. rewrite Hc, Hy. done.
  - unfold completion_end. simpl. destruct (decide (e = v)) as [<-|Hne].
    + rewrite lookup_insert_eq. rewrite Hx in Hy. injection Hy as <-. cbn [mbind option_bind woken]. unfold blocks in Hb. simpl. by rewrite Hb.
    + rewrite lookup_insert_ne, Hx by done. cbn [mbind option_bind]. unfold blocks in Hb. by rewrite Hb.
  - exists n, k, seqs, sp. split; [apply I| | |by eapply wake_places].
    + eapply ring_frame; [apply I|done..|]. intros i z Hin Hz. simpl. destruct (decide (i = v)) as [->|].
      * exists (woken y fw). rewrite lookup_insert_eq. simplify_eq. done.
      * exists z. by rewrite lookup_insert_ne.
    + eapply lists_off; [apply I|exact He|apply not_list; tauto|apply not_list; tauto].
  - destruct Hw as [[-> Hq]|[Hpr Hpo]].
    + exists PWake, x. unfold posted. rewrite Hx in Hy. split_and!; try done. tauto.
    + pose proof (po_ent _ _ _ _ PO v _ y Hpr Hy) as (_ & _ & B & C & _). exists PProxy, y. split_and!; try done. tauto.
Qed.

(** ** The end of the wait *)

(** The entry posted for a waiting client's. *)
Definition stand_in (x : qed_spq_entry) (e : nat) : option nat :=
  match queue x with QUnlimited => post_ent x | _ => Some e end.

Definition finished (P : gmap nat place) (e t : nat) : gmap nat place := <[t := PFree]> (if decide (t = e) then P else delete e P).

(** A waiting client's entry is in the pool and posted, or allocated with a
    posted pool entry, or has not been posted yet. *)
Lemma waiting_cases base dp P n k seqs w sp e x :
  spq_inv base dp P n k seqs w sp -> waiting P (w_ents w) e -> w_ents w !! e = Some x ->
  (exists p, P !! e = Some p /\ posted p /\ in_pool e /\ queue x = QPending) \/
  (P !! e = Some PProxy /\ ~ in_pool e /\ queue x = QUnlimited /\ exists t y p, post_ent x = Some t /\ w_ents w !! t = Some y /\
     P !! t = Some p /\ posted p /\ cb_cookie y = CkEntry e /\ t <> e) \/
  (P !! e = Some PUnl /\ queue x = QUnlimited /\ post_ent x = None /\ done (comp_done x) <> 1).
Proof.
  intros I (p & x' & Hp & Hx' & Hb & Hc & Hpl) Hx. rewrite Hx in Hx'. injection Hx' as <-.
  pose proof (si_places _ _ _ _ _ _ _ _ I) as PO. pose proof (po_ent _ _ _ _ PO e _ x Hp Hx) as Ok.
  assert (G : forall v, cb_cookie x = CkEntry v -> waits_for P (w_ents w) v e -> posted p -> queue x = QPending).
  { intros v Hv (z & Hz & Hw) Po. rewrite Hc in Hv. injection Hv as <-. rewrite Hx in Hz. injection Hz as <-.
    destruct Hw as [[_ Hq]|[Hpr _]]; [done|]. rewrite Hp in Hpr. injection Hpr as ->. destruct Po as [|[|[|]]]; discriminate. }
  destruct Hpl as [->|[->|Hpo]].
  - right. right. destruct Ok as (_ & O1 & O2 & _ & O3). destruct (O3 Hb). tauto.
  - right. left. destruct Ok as (O0 & O1 & _ & _ & t & y & q & O2 & O3 & O4 & O5 & _ & O6). split_and!; try done.
    exists t, y, q. split_and!; try done. intros ->. rewrite Hp in O4. injection O4 as <-. destruct O5 as [|[|[|]]]; discriminate.
  - left. exists p. split_and!; try done.
    + destruct Hpo as [->|[->|[->| ->]]]; apply Ok.
    + destruct Hpo as [->|[->|[->| ->]]]; simpl in Ok.
      * destruct Ok as (_ & _ & Ok). destruct (Ok Hb) as (v & Hv & Hw & _). by eapply G; unfold posted; eauto.
      * destruct Ok as (_ & _ & Ok). destruct (Ok Hb) as (v & Hv & Hw & _). by eapply G; unfold posted; eauto.
      * destruct Ok as (_ & _ & _ & v & Hv & Hw & _). by eapply G; unfold posted; eauto.
      * destruct Ok as (_ & _ & v & Hv & Hw & _). by eapply G; unfold posted; eauto.
Qed.
Lemma finish_places dp P E next e t x y p :
  places_ok dp P E next -> P !! e = Some PProxy -> E !! e = Some x -> post_ent x = Some t -> ~ in_pool e ->
  P !! t = Some p -> posted p -> E !! t = Some y -> cb_cookie y = CkEntry e -> in_pool t -> t <> e ->
  places_ok dp (<[t := PFree]> (delete e P)) (delete e E) next.
Proof.
  intros I He Hx Hpo Hne Ht Hpt Hy Hc Hi Hte. pose proof I as [D Po Nx N0 En Da].
  assert (Hoth : forall i, i <> e -> i <> t -> <[t := PFree]> (delete e P) !! i = P !! i /\ delete e E !! i = E !! i)
    by (intros i A B; by rewrite lookup_insert_ne, !lookup_delete_ne).
  assert (H1 : <[t := PFree]> (delete e P) !! e = None /\ delete e E !! e = None)
    by (rewrite lookup_insert_ne by done; by rewrite !lookup_delete_eq).
  assert (H2 : <[t := PFree]> (delete e P) !! t = Some PFree /\ delete e E !! t = Some y)
    by (rewrite lookup_insert_eq, lookup_delete_ne by done; done).
  split; try done.
  - intros i. destruct (decide (i = e)) as [->|]; [destruct H1 as [-> ->]; split; intros [? ?]; done|].
    destruct (decide (i = t)) as [->|]; [destruct H2 as [-> ->]; split; by eexists|]. destruct (Hoth i) as [-> ->]; [done..|]. apply D.
  - intros i Hin. destruct (decide (i = t)) as [->|]; [destruct H2 as [-> _]; by eexists|].
    destruct (Hoth i) as [-> _]; [by intros ->|done|]. by apply Po.
  - intros i Hin. destruct (decide (i = t)) as [->|]; [by left|]. apply Nx. destruct (decide (i = e)) as [->|]; [by eexists|].
    destruct (Hoth i) as [E1 _]; [done..|]. by rewrite E1 in Hin.
  - intros i q z Hq Hz. destruct (decide (i = e)) as [->|]; [destruct H1; congruence|].
    destruct (decide (i = t)) as [->|]; [destruct H2 as [E1 _]; rewrite E1 in Hq; by injection Hq as <-|].
    destruct (Hoth i) as [E1 E2]; [done..|]. rewrite E1 in Hq. rewrite E2 in Hz.
    apply (entry_frame P _ E _ (fun j => j = e \/ j = t)); [intros j Hj; apply Hoth; tauto| | |tauto|by apply En].
    + intros j Hj Hji Hpl Hbz Hcz. destruct (waiter_place _ _ _ _ _ _ _ _ I Hq Hz Hpl Hbz Hcz Hji) as [Hj' (y2 & Hy2 & Hpo2)].
      destruct Hj as [->| ->]; [congruence|]. rewrite Ht in Hj'. injection Hj' as ->. destruct Hpt as [|[|[|]]]; discriminate.
    + intros j Hj -> Hpo2. destruct (proxy_target _ _ _ _ _ _ _ I Hq Hz Hpo2) as (y2 & r & Hy2 & Hr & Hpl & _ & Hc2).
      destruct Hj as [->| ->]; [|congruence]. rewrite He in Hr. injection Hr as <-. destruct Hpl as [|[|[|]]]; discriminate.
  - intros i z Hin Hz. destruct (decide (i = e)) as [->|]; [done|]. rewrite lookup_delete_ne in Hz by done. by apply Da.
Qed.

(** The client's last look: its entry, or the one posted for it, is done. *)
Definition target_at (P : gmap nat place) (E : gmap nat qed_spq_entry) (e t : nat) (p : place) : Prop :=
  exists x, E !! e = Some x /\ stand_in x e = Some t /\ P !! t = Some p.

Lemma done_target base dp P n k seqs w sp e x :
  spq_inv base dp P n k seqs w sp -> waiting P (w_ents w) e -> w_ents w !! e = Some x -> done (comp_done x) = 1 ->
  exists t, target_at P (w_ents w) e t PDone.
Proof.
  intros I Hwt Hx Hd. pose proof (si_places _ _ _ _ _ _ _ _ I) as PO. pose proof Hwt as (pe & xe & Hpe & Hxe & Hbe & Hce & _).
  rewrite Hx in Hxe. injection Hxe as <-.
  assert (G : forall t y p, P !! t = Some p -> w_ents w !! t = Some y -> posted p -> blocks y -> cb_cookie y = CkEntry e -> p = PDone).
  { intros t y p Hp Hy Hpo Hb Hc. pose proof (po_ent _ _ _ _ PO t _ y Hp Hy) as Ok.
    assert (N : forall v, cb_cookie y = CkEntry v -> not_done (w_ents w) v -> False).
    { intros v Hv (z & Hz & Hnd). rewrite Hc in Hv. injection Hv as <-. rewrite Hx in Hz. injection Hz as <-. done. }
    destruct Hpo as [->|[->|[->| ->]]]; [..|done]; simpl in Ok.
    - destruct Ok as (_ & _ & Ok). destruct (Ok Hb) as (v & Hv & _ & Hn). by apply N in Hn.
    - destruct Ok as (_ & _ & Ok). destruct (Ok Hb) as (v & Hv & _ & Hn). by apply N in Hn.
    - destruct Ok as (_ & _ & _ & v & Hv & _ & Hn). by apply N in Hn. }
  destruct (waiting_cases _ _ _ _ _ _ _ _ e x I Hwt Hx) as [(p & Hp & Hpo & Hi & Hq)|[(Hp & Hi & Hq & t & y & p & Ht & Hy & Hpt & Hpo & Hc & Hne)|(_ & _ & _ & Hn)]]; [| |done].
  - exists e, x. unfold stand_in. rewrite Hq. split_and!; try done. rewrite Hp. f_equal. by eapply G.
  - exists t, x. unfold stand_in. rewrite Hq. split_and!; try done. rewrite Hpt. f_equal.
    destruct (proxy_target _ _ _ _ _ _ _ PO Hp Hx Ht) as (y2 & q & Hy2 & Hq2 & _ & Hb & _). simplify_eq. by eapply G.
Qed.

(** Freeing the allocated entry, if any; the rest of the clean-up works on the
    entry that was posted. *)
Definition finish_free (w : spq_world) (e t : nat) : spq_world :=
  if decide (t = e) then w else w <| w_ents := delete e (w_ents w) |>.

Lemma finish_head base dp P n k seqs w sp e t p rc :
  spq_inv base dp P n k seqs w sp -> waiting P (w_ents w) e -> target_at P (w_ents w) e t p -> p = PDone \/ p = PComp ->
  exists y, w_ents w !! t = Some y /\ w_ents (finish_free w e t) !! t = Some y /\ P !! t = Some p /\ in_pool t /\
    places_ok dp (finished P e t) (w_ents (finish_free w e t)) (w_next w) /\
    (t <> e -> P !! e = Some PProxy) /\
    post_finish w e rc =
      (let w := finish_free w e t in
       if negb (rc =? 0) then
         sp ← w_spq w; sp ← list_del w sp t; x ← w_ents w !! t; sp ← qed_spq_comp_bmap_update sp (hdr_echo (elem x));
         w ← qed_spq_return_entry (set_spq sp w) t; Some (rc, w)
       else w ← qed_spq_return_entry w t; Some (rc, w)).
Proof.
  intros I Hwt (x & Hx & Hst & Ht) Hp. pose proof (si_places _ _ _ _ _ _ _ _ I) as PO.
  assert (Hpo : posted p) by (unfold posted; tauto). pose proof Hwt as (pe & xe & Hpe & Hxe & Hbe & Hce & _). rewrite Hx in Hxe. injection Hxe as <-.
  unfold post_finish. rewrite Hx. cbn [mbind option_bind]. unfold finished, finish_free, stand_in in *.
  destruct (waiting_cases _ _ _ _ _ _ _ _ e x I Hwt Hx) as [(q & Hq & Hpq & Hi & Hqu)|[(Hq & Hi & Hqu & t' & y & q & Ht' & Hy & Hpt & Hpq & Hc & Hne)|(_ & Hqu & Hn & _)]];
    rewrite Hqu in Hst |- *; [..|congruence].
  - injection Hst as <-. exists x. rewrite !decide_True by done. split_and!; try done.
    eapply places_off; [exact PO|exact Ht|exact Hpo|exact Hx|done|done].
  - rewrite Ht' in Hst. injection Hst as ->. exists y. rewrite !decide_False by done. split_and!; try done.
    + simpl. by rewrite lookup_delete_ne.
    + eapply (pool_entry I); [exact Ht|exact Hy|naive_solver].
    + simpl. eapply (finish_places dp P (w_ents w) _ e t x y p); try done. eapply (pool_entry I); [exact Ht|exact Hy|naive_solver].
    + rewrite Ht'. unfold kfree_ent. rewrite (si_spq _ _ _ _ _ _ _ _ I). cbn [mbind option_bind].
      rewrite Hx, bool_decide_true by by eexists. rewrite (sc_cap _ (ro_chain _ _ _ _ _ _ (si_ring _ _ _ _ _ _ _ _ I))).
      unfold in_pool in Hi. replace (SPQ_RING_SIZE <=? Z.of_nat e) with true by lia. reflexivity.
Qed.
Lemma finished_lists P sp e t : lists_ok (<[t := PDone]> P) sp -> (t <> e -> P !! e = Some PProxy) ->
  lists_ok (finished P e t) (sp <| free_pool := free_pool sp ++ [t] |>).
Proof.
  intros L He. unfold finished. rewrite <- (insert_insert_eq (if decide (t = e) then P else delete e P) t PFree PDone).
  eapply lists_add_free; [|by rewrite lookup_insert_eq|apply not_list; tauto].
  destruct (decide (t = e)) as [->|Hne]; [done|]. rewrite <- delete_insert_ne by done.
  eapply lists_drop; [exact L|by rewrite lookup_insert_ne, He|apply not_list; tauto].
Qed.

(** Returning the posted entry at the end. *)
Lemma finish_tail base dp P n k seqs w w' sp e t y :
  spq_inv base dp P n k seqs w sp -> (t <> e -> P !! e = Some PProxy) -> forall sp' k' seqs',
  w' = set_spq sp' (finish_free w e t) -> w_ents w' !! t = Some y -> places_ok dp (finished P e t) (w_ents w') (w_next w) ->
  lists_ok (<[t := PDone]> P) sp' -> ring_ok base n k' seqs' w sp' ->
  exists w2, qed_spq_return_entry w' t = Some w2 /\ w_recov w2 = w_recov w /\ w_ents w2 = w_ents w' /\ Inv base dp (finished P e t) w2.
Proof.
  intros I He sp' k' seqs' -> Hy PO L R. unfold qed_spq_return_entry. simpl. cbn [mbind option_bind].
  rewrite (may_link_lists (<[t := PDone]> P) _ sp' t PDone y L); [|by rewrite lookup_insert_eq|apply not_list; tauto|exact Hy].
  eexists. split; [reflexivity|]. split_and!; [unfold finish_free; by case_decide|done|].
  exists n, k', seqs'. eexists. split; [reflexivity| |by apply finished_lists|].
  - eapply ring_frame; [exact R|unfold finish_free; by case_decide|unfold finish_free; by case_decide|done..|].
    intros i z Hi Hz. exists z. split; [|done]. simpl. unfold finish_free. case_decide as Ht; [done|]. simpl. rewrite lookup_delete_ne; [done|].
    intros <-. apply (lo_comp _ _ L) in Hi. rewrite lookup_insert_ne, He in Hi; done.
  - unfold finish_free in *. case_decide; exact PO.
Qed.

Lemma post_finish_spec base dp P w e t rc :
  Inv base dp P w -> waiting P (w_ents w) e -> target_at P (w_ents w) e t (if rc =? 0 then PDone else PComp) ->
  exists w', post_finish w e rc = Some (rc, w') /\ Inv base dp (finished P e t) w' /\ w_recov w' = w_recov w /\
    (forall i, i <> e -> w_ents w' !! i = w_ents w !! i) /\ (t = e -> w_ents w' = w_ents w) /\ (t <> e -> P !! e = Some PProxy).
Proof.
  intros (n & k & seqs & sp & I) Hwt Htg.
  destruct (finish_head _ _ _ _ _ _ _ _ e t _ rc I Hwt Htg) as (y & Hy & Hyf & Ht & Hi & PO & He & Ef); [destruct (rc =? 0); tauto|].
  assert (Hfr : forall w', w_ents w' = w_ents (finish_free w e t) ->
    (forall i, i <> e -> w_ents w' !! i = w_ents w !! i) /\ (t = e -> w_ents w' = w_ents w)).
  { intros w' ->. unfold finish_free. split; [intros i Hie|intros ->]; [|by rewrite decide_True].
    case_decide; [done|]. simpl. by rewrite lookup_delete_ne. }
  rewrite Ef. cbn zeta. destruct (rc =? 0) eqn:Er; cbn [negb].
  - destruct (finish_tail _ _ _ _ _ _ _ (finish_free w e t) _ e t y I He sp k seqs) as (w2 & -> & Hr & Hee & I2).
    { unfold finish_free, set_spq. pose proof (si_spq _ _ _ _ _ _ _ _ I) as Es. case_decide; destruct w; simpl in *; by subst. }
    { done. }
    { done. }
    { rewrite (insert_id P t PDone Ht). apply I. }
    { apply I. }
    cbn [mbind option_bind]. exists w2. destruct (Hfr w2 Hee). split_and!; done.
  - assert (Es : w_spq (finish_free w e t) = Some sp) by (unfold finish_free; case_decide; apply I). rewrite Es. cbn [mbind option_bind].
    assert (El : list_del (finish_free w e t) sp t = list_del w sp t) by (unfold list_del; by rewrite Hy, Hyf). rewrite El, Hyf.
    destruct (list_elem_of_split (completion_pending sp) t) as (l1 & l2 & Ec); [by apply (lo_comp _ _ (si_lists _ _ _ _ _ _ _ _ I))|].
    destruct (unlink_comp _ _ _ _ _ _ _ _ _ _ _ y I Ec Hy) as (k' & seqs' & sp2 & E & Rg & Ls & _ & _).
    destruct (list_del w sp t) as [sp1|]; [|done]. cbn [mbind option_bind] in E |- *. rewrite E. cbn [mbind option_bind].
    destruct (finish_tail _ _ _ _ _ _ _ (set_spq sp2 (finish_free w e t)) _ e t y I He sp2 k' seqs') as (w2 & -> & Hr & Hee & I2); try done.
    { apply Ls, not_list; tauto. }
    { by apply Rg. }
    cbn [mbind option_bind]. exists w2. destruct (Hfr w2 Hee). split_and!; done.
Qed.
