(* ===== verification/SpqRun.v ===== *)
(** * The slow path queue: runs

    The steps of the threads around the SPQ, the order of steps the design relies
    on, and that in this order none of them can break the invariant or fault. *)

From S2P Require Import Prelude Dma Chain ChainRing Spq SpqRing SpqInv SpqPost SpqComp.

(** ** The system

    The state of the SPQ with what the threads around it hold: the entries
    clients have taken and not posted, the completions that are about to run a
    callback ([s_callbacks]) or to wake a client ([s_wakes]), the ones that have
    woken their client and have not looked at [comp_mode] yet ([s_ends]), and
    the clients that wait. *)
Record spq_sys := mk_spq_sys {
  s_w : spq_world;
  s_clients : gset nat;
  s_callbacks : gset nat;
  s_wakes : gset nat;
  s_ends : gset nat;
  s_waiting : gset nat
}.

(** The steps threads interleave: every part of the code between taking and
    releasing the SPQ lock is one, and so are the callback of a completion
    ([OCall], [OWake]) and the test of [comp_mode] after it with the return of
    the entry ([OEnd], [OTest]); what a callback does to the queue is made of
    such steps itself.  The clean-up of a client that stops waiting ([OFinish]
    after its completion, [OTimeout] with the error of the wait), that is
    [kfree] of an allocated entry and the locked region after it, is one step. *)
Inductive spq_op :=
  | OInit (cmd protocol : Z) (d : qed_sp_init_data)
  | OFill (e : nat) (data prio : Z)
  | ODestroy (e : nat)
  | OPost (e : nat)
  | OTake (echo : Z)
  | OCall (e : nat) (fw : Z)
  | OEnd (e : nat)
  | OWake (e : nat) (fw : Z)
  | OTest (e : nat)
  | OFinish (e : nat)
  | OTimeout (e : nat) (rc : Z)
  | OPend
  | ODropNext.

(** What the threads can do: each acts on what it holds.  A client posts outside
    a recovery; its wait ends with its completion word, with a recovery, or with
    an error at any time.  The firmware may complete any echo. *)
Definition enabled (o : spq_op) (s : spq_sys) : Prop :=
  match o with
  | OInit _ _ d => data_ok d
  | OFill e _ prio => e ∈ s_clients s /\ (prio = QED_SPQ_PRIORITY_NORMAL \/ prio = QED_SPQ_PRIORITY_HIGH)
  | ODestroy e => e ∈ s_clients s
  | OPost e => e ∈ s_clients s /\ w_recov (s_w s) = false
  | OCall e _ | OEnd e => e ∈ s_callbacks s
  | OWake e _ => e ∈ s_wakes s
  | OTest e => e ∈ s_ends s
  | OFinish e => e ∈ s_waiting s /\ exists x, w_ents (s_w s) !! e = Some x /\ (done (comp_done x) = 1 \/ w_recov (s_w s) = true)
  | OTimeout e rc => e ∈ s_waiting s /\ rc <> 0
  | OTake _ | OPend | ODropNext => True
  end.

(** What the code takes for granted without enforcing it: a client that has been
    woken returns its entry only after the completion has looked at the entry's
    mode; a wait that ends without a completion does so while the entry posted
    for the client is in flight.  [late_mode_test_returns_reused_entry],
    [timeout_before_posting_faults] and [timeout_after_completion_faults] show
    what enabled steps out of this order do. *)
Definition orderly (o : spq_op) (s : spq_sys) : Prop :=
  match o with
  | OFinish e => exists x, w_ents (s_w s) !! e = Some x /\ done (comp_done x) = 1 /\ forall t, stand_in x e = Some t -> t ∉ s_ends s
  | OTimeout e _ => exists x t sp, w_ents (s_w s) !! e = Some x /\ stand_in x e = Some t /\ w_spq (s_w s) = Some sp /\ t ∈ completion_pending sp
  | _ => True
  end.

Definition allowed (o : spq_op) (s : spq_sys) : Prop := enabled o s /\ orderly o s.

Definition exec (o : spq_op) (s : spq_sys) : option spq_sys :=
  let '(mk_spq_sys w c b k m v) := s in
  match o with
  | OInit cmd protocol d =>
      '(rc, r, w) ← qed_sp_init_request w cmd protocol d;
      Some (mk_spq_sys w (match r with Some e => if rc =? 0 then {[e]} ∪ c else c | None => c end) b k m v)
  | OFill e data prio => x ← w_ents w !! e; Some (mk_spq_sys (set_ent e (x <| ramrod := data |> <| priority := prio |>) w) c b k m v)
  | ODestroy e => w ← qed_sp_destroy_request w e; Some (mk_spq_sys w (c ∖ {[e]}) b k m v)
  | OPost e =>
      '(rc, wait, w) ← post_locked w e;
      Some (mk_spq_sys w (c ∖ {[e]}) b k m (if (wait : bool) then {[e]} ∪ v else v))
  | OTake ec =>
      '(rc, found, w) ← completion_take w ec;
      match found with
      | None => Some (mk_spq_sys w c b k m v)
      | Some e =>
          x ← w_ents w !! e;
          Some (if comp_mode x =? QED_SPQ_MODE_EBLOCK then mk_spq_sys w c b ({[e]} ∪ k) m v else mk_spq_sys w c ({[e]} ∪ b) k m v)
      end
  | OCall e fw =>
      x ← w_ents w !! e;
      w ← match cb_function x with FnBlocking => qed_spq_blocking_cb w (cb_cookie x) fw | _ => Some w end;
      Some (mk_spq_sys w c b k m v)
  | OEnd e => w ← completion_end w e; Some (mk_spq_sys w c (b ∖ {[e]}) k m v)
  | OWake e fw =>
      x ← w_ents w !! e;
      w ← call_comp_cb (fun _ _ _ _ => Some) w x fw 0;
      Some (mk_spq_sys w c b (k ∖ {[e]}) ({[e]} ∪ m) v)
  | OTest e => w ← completion_end w e; Some (mk_spq_sys w c b k (m ∖ {[e]}) v)
  | OFinish e => '(_, w) ← post_finish w e 0; Some (mk_spq_sys w c b k m (v ∖ {[e]}))
  | OTimeout e rc => '(_, w) ← post_finish w e rc; Some (mk_spq_sys w c b k m (v ∖ {[e]}))
  | OPend => '(_, w) ← qed_spq_pend_post w; Some (mk_spq_sys w c b k m v)
  | ODropNext => w ← qed_spq_drop_next_completion w; Some (mk_spq_sys w c b k m v)
  end.

(** ** Its invariant *)

Definition roles (s : spq_sys) (P : gmap nat place) : Prop := forall e,
  (e ∈ s_clients s <-> P !! e = Some PClient) /\ (e ∈ s_callbacks s <-> P !! e = Some PCallback) /\
  (e ∈ s_wakes s <-> P !! e = Some PWake) /\ (e ∈ s_waiting s <-> waiting P (w_ents (s_w s)) e) /\
  (e ∈ s_ends s -> P !! e = Some PDone).

Definition sys_ok (base : Z) (dp : nat -> regpair) (s : spq_sys) : Prop :=
  exists P, Inv base dp P (s_w s) /\ roles s P.

Lemma roles_same w w' c b k m v P P' :
  roles (mk_spq_sys w c b k m v) P -> same_roles P (w_ents w) P' (w_ents w') -> roles (mk_spq_sys w' c b k m v) P'.
Proof.
  intros R S e. destruct (R e) as (R1 & R2 & R3 & R4 & R5), (S e) as [S1 S2]. simpl in *.
  rewrite R1, R2, R3, R4. unfold held_place in S1. split_and!; [apply S1; tauto..|done|intros H; apply S1; tauto].
Qed.

(** One entry changes hands. *)
Lemma roles_change w w' c b k m v c' b' k' m' v' P P' e :
  roles (mk_spq_sys w c b k m v) P -> (forall i, i <> e -> role_at P (w_ents w) P' (w_ents w') i) ->
  (forall i, i <> e -> (i ∈ c' <-> i ∈ c) /\ (i ∈ b' <-> i ∈ b) /\ (i ∈ k' <-> i ∈ k) /\ (i ∈ v' <-> i ∈ v) /\ (i ∈ m' -> i ∈ m)) ->
  (e ∈ c' <-> P' !! e = Some PClient) -> (e ∈ b' <-> P' !! e = Some PCallback) -> (e ∈ k' <-> P' !! e = Some PWake) ->
  (e ∈ v' <-> waiting P' (w_ents w') e) -> (e ∈ m' -> P' !! e = Some PDone) -> roles (mk_spq_sys w' c' b' k' m' v') P'.
Proof.
  intros R S D D1 D2 D3 D4 D5 i. destruct (decide (i = e)) as [->|Hi]; [done|]. simpl.
  destruct (D i Hi) as (-> & -> & -> & -> & Hm), (R i) as (R1 & R2 & R3 & R4 & R5), (S i Hi) as [S1 S2]. simpl in *.
  rewrite R1, R2, R3, R4. unfold held_place in S1. split_and!; [apply S1; tauto..|done|intros H; apply S1; tauto].
Qed.

Lemma role_frame (P P' : gmap nat place) (E E' : gmap nat qed_spq_entry) e :
  (forall i, i <> e -> P' !! i = P !! i) -> (forall i, i <> e -> E' !! i = E !! i) -> forall i, i <> e -> role_at P E P' E' i.
Proof. intros A B i Hi. apply role_id; auto. Qed.

Lemma not_waiting (P : gmap nat place) (E : gmap nat qed_spq_entry) e p :
  P !! e = Some p -> quiet_place p -> p <> PUnl -> ~ waiting P E e.
Proof.
  intros Hp Hq Hu (p' & x & Hp' & _ & _ & _ & Hpl). rewrite Hp in Hp'. injection Hp' as <-.
  destruct Hpl as [->|[->|Hpo]]; [done|destruct Hq as [|[|[|]]]; discriminate|by apply posted_not_quiet in Hpo].
Qed.
Lemma absent_not_waiting (P : gmap nat place) (E : gmap nat qed_spq_entry) e : P !! e = None -> ~ waiting P E e.
Proof. intros Hp (p' & x & Hp' & _). congruence. Qed.
(** ** Every step is safe *)

Section Steps.
Context (base : Z) (dp : nat -> regpair).
Notation ok := (sys_ok base dp).
Notation safe o s := (exists s', exec o s = Some s' /\ ok s').


Lemma init_safe cmd protocol d s : ok s -> data_ok d -> safe (OInit cmd protocol d) s.
Proof.
  intros (P & I & R) Hd. destruct s as [w c b k m v]. simpl in *.
  destruct (init_request_spec _ _ _ _ cmd protocol d I Hd) as (rc & r & w' & -> & _ & H). cbn [mbind option_bind].
  eexists. split; [reflexivity|]. destruct H as [(-> & e & -> & Hp & I' & Ho)|(Hrc & I' & Ho)].
  - exists (<[e := PClient]> P). split; [exact I'|]. cbn [Z.eqb].
    assert (Hn : P !! e <> Some PClient /\ P !! e <> Some PCallback /\ P !! e <> Some PWake /\ ~ waiting P (w_ents w) e).
    { destruct Hp as [Hp|Hp]; rewrite Hp; split_and!; try done; [eapply not_waiting; unfold quiet_place; eauto; done|by apply absent_not_waiting]. }
    destruct (R e) as (R1 & R2 & R3 & R4 & R5). simpl in *.
    eapply (roles_change w w' c b k m v _ _ _ _ _ P _ e R); [apply role_frame; [by intros; rewrite lookup_insert_ne|done]|set_solver| | | | |].
    + rewrite lookup_insert_eq. set_solver.
    + rewrite lookup_insert_eq. split; [tauto|done].
    + rewrite lookup_insert_eq. split; [tauto|done].
    + split; [tauto|]. intros Hw. exfalso. revert Hw. eapply not_waiting; [by rewrite lookup_insert_eq|unfold quiet_place; tauto|done].
    + intros H. apply R5 in H. destruct Hp; congruence.
  - exists P. split; [exact I'|]. assert (E : match r with Some e => if rc =? 0 then {[e]} ∪ c else c | None => c end = c).
    { destruct r; [|done]. destruct Hrc as [->| ->]; done. }
    rewrite E. eapply roles_same; [exact R|]. intros i. destruct (decide (P !! i = Some PFree)) as [Hf|Hf].
    + split; [done|]. split; intros Hw; exfalso; revert Hw; eapply not_waiting; unfold quiet_place; eauto; done.
    + apply role_id; [done|by apply Ho].
Qed.

Lemma fill_safe e data prio s : ok s -> enabled (OFill e data prio) s -> safe (OFill e data prio) s.
Proof.
  intros (P & (n & q & seqs & sp & I) & R) [He Hp]. destruct s as [w c b k m v]. simpl in *. apply (R e) in He.
  destruct (entry_at I e _ He) as [x Hx]. rewrite Hx. cbn [mbind option_bind]. eexists. split; [reflexivity|]. exists P. split.
  - exists n, q, seqs, sp. simpl. rewrite <- (insert_id P e PClient He).
    eapply inv_set; [exact I|exact He|unfold quiet_place; tauto|apply I|reflexivity|done|done| | |].
    + rewrite insert_id by done. apply I.
    + pose proof (po_ent _ _ _ _ (si_places _ _ _ _ _ _ _ _ I) e _ x He Hx) as (O1 & [_ O2] & O3). simpl. split_and!; try done.
    + intros Hi. simpl. by apply (po_data _ _ _ _ (si_places _ _ _ _ _ _ _ _ I)).
  - eapply roles_same; [exact R|]. intros i. destruct (decide (i = e)) as [->|]; [|apply role_id; [done|simpl; by rewrite lookup_insert_ne]].
    split; [done|]. split; intros Hw; exfalso; revert Hw; eapply not_waiting; unfold quiet_place; eauto; done.
Qed.

Lemma destroy_safe e s : ok s -> e ∈ s_clients s -> safe (ODestroy e) s.
Proof.
  intros (P & I & R) He. destruct s as [w c b k m v]. simpl in *. apply (R e) in He.
  destruct (destroy_request_spec _ _ _ _ e I He) as (w' & -> & _ & Ho & H). cbn [mbind option_bind]. eexists. split; [reflexivity|].
  destruct (R e) as (R1 & R2 & R3 & R4 & R5). simpl in *. rewrite He in R1, R2, R3.
  assert (Nv : e ∉ v) by (rewrite R4; eapply not_waiting; unfold quiet_place; eauto; done).
  assert (Nb : e ∉ b) by (rewrite R2; done). assert (Nk : e ∉ k) by (rewrite R3; done).
  destruct H as [[Hi I']|[Hi I']]; (eexists; split; [exact I'|]).
  - eapply (roles_change w w' c b k m v _ _ _ _ _ P _ e R); [apply role_frame; [by intros; rewrite lookup_insert_ne|done]|set_solver| | | | |];
      rewrite ?lookup_insert_eq; try (split; [set_solver|done]); [|by intros H; apply R5 in H; congruence].
    split; [done|]. intros Hw. exfalso. revert Hw. eapply not_waiting; [by rewrite lookup_insert_eq|unfold quiet_place; tauto|done].
  - eapply (roles_change w w' c b k m v _ _ _ _ _ P _ e R); [apply role_frame; [by intros; rewrite lookup_delete_ne|done]|set_solver| | | | |];
      rewrite ?lookup_delete_eq; try (split; [set_solver|done]); [|by intros H; apply R5 in H; congruence].
    split; [done|]. intros Hw. exfalso. revert Hw. apply absent_not_waiting. by rewrite lookup_delete_eq.
Qed.

Lemma post_safe e s : ok s -> e ∈ s_clients s -> safe (OPost e) s.
Proof.
  intros (P & I & R) He. destruct s as [w c b k m v]. simpl in *. apply (R e) in He. pose proof I as (n0 & k0 & seqs0 & sp0 & I0).
  destruct (entry_at I0 e _ He) as [x Hx].
  destruct (post_locked_spec _ _ _ _ _ _ I He Hx) as (w' & P' & n & q & seqs & sp & -> & I' & _ & (Ro & Uh & Wt) & _). cbn [mbind option_bind].
  eexists. split; [reflexivity|]. exists P'. split; [by exists n, q, seqs, sp|].
  destruct (R e) as (R1 & R2 & R3 & R4 & R5). simpl in *. rewrite He in R1, R2, R3.
  assert (Nv : e ∉ v) by (rewrite R4; eapply not_waiting; unfold quiet_place; eauto; done).
  assert (Nb : e ∉ b) by (rewrite R2; done). assert (Nk : e ∉ k) by (rewrite R3; done). unfold unheld, held_place in Uh.
  eapply (roles_change w w' c b k m v _ _ _ _ _ P _ e R); [exact Ro| | | | | |].
  - intros i Hi. split_and!; [set_solver|done|done| |done]. destruct (_ =? _); set_solver.
  - split; [set_solver|]. intros H. exfalso. by eapply Uh; [|exact H]; tauto.
  - split; [done|]. intros H. exfalso. by eapply Uh; [|exact H]; tauto.
  - split; [done|]. intros H. exfalso. by eapply Uh; [|exact H]; tauto.
  - rewrite Wt. unfold blocks. destruct (comp_mode x =? QED_SPQ_MODE_EBLOCK) eqn:Eb; zbool; [split; [done|set_solver]|split; [done|congruence]].
  - intros H. apply R5 in H. congruence.
Qed.

Lemma take_safe ec s : ok s -> safe (OTake ec) s.
Proof.
  intros (P & (n & q & seqs & sp & I) & R). destruct s as [w c b k m v]. simpl in *.
  destruct (completion_take_spec _ _ _ _ ec _ _ _ _ I) as (rc & found & w' & -> & _ & Ee & H). cbn [mbind option_bind].
  destruct found as [e|].
  2: { destruct H as (_ & sp' & I'). eexists. split; [reflexivity|]. exists P. split; [by exists n, q, seqs, sp'|].
       eapply roles_same; [exact R|]. intros i. apply role_id; [done|by rewrite Ee]. }
  destruct H as (_ & x & q' & seqs' & sp' & (Hin & Hx & _) & He & _ & _ & I'). rewrite Ee, Hx. cbn [mbind option_bind].
  eexists. split; [reflexivity|].
  destruct (R e) as (R1 & R2 & R3 & R4 & R5). simpl in *. rewrite He in R1, R2, R3.
  assert (Nc : e ∉ c) by (rewrite R1; done). assert (Nb : e ∉ b) by (rewrite R2; done). assert (Nk : e ∉ k) by (rewrite R3; done).
  exists (<[e := taken x]> P). split; [destruct (_ =? _); by exists n, q', seqs', sp'|].
  assert (Hf : forall i, i <> e -> role_at P (w_ents w) (<[e := taken x]> P) (w_ents w') i)
    by (apply role_frame; [by intros; rewrite lookup_insert_ne|by rewrite Ee]).
  unfold taken in *. destruct (decide (blocks x)) as [B|B]; unfold blocks in B.
  - replace (comp_mode x =? QED_SPQ_MODE_EBLOCK) with true by (symmetry; by apply Z.eqb_eq).
    eapply (roles_change w w' c b k m v _ _ _ _ _ P _ e R Hf); [set_solver| | | | |]; [rewrite lookup_insert_eq..| |by intros H; apply R5 in H; congruence].
    + split; [tauto|done].
    + split; [tauto|done].
    + split; [done|set_solver].
    + rewrite R4. unfold waiting. rewrite He, lookup_insert_eq, Ee, Hx. unfold posted. naive_solver.
  - replace (comp_mode x =? QED_SPQ_MODE_EBLOCK) with false by (symmetry; by apply Z.eqb_neq).
    eapply (roles_change w w' c b k m v _ _ _ _ _ P _ e R Hf); [set_solver| | | | |]; [rewrite lookup_insert_eq..| |by intros H; apply R5 in H; congruence].
    + split; [tauto|done].
    + split; [done|set_solver].
    + split; [tauto|done].
    + rewrite R4. unfold waiting. rewrite He, lookup_insert_eq, Ee, Hx. unfold posted, blocks. naive_solver.
Qed.

Lemma call_safe e fw s : ok s -> e ∈ s_callbacks s -> safe (OCall e fw) s.
Proof.
  intros (P & (n & q & seqs & sp & I) & R) He. destruct s as [w c b k m v]. simpl in *. apply (R e) in He.
  destruct (entry_at I e _ He) as [x Hx]. rewrite Hx. cbn [mbind option_bind].
  pose proof (po_ent _ _ _ _ (si_places _ _ _ _ _ _ _ _ I) e _ x He Hx) as (_ & [[_ Hm] Hf] & Hb).
  assert (H : exists w', match cb_function x with FnBlocking => qed_spq_blocking_cb w (cb_cookie x) fw | _ => Some w end = Some w' /\
    Inv base dp P w' /\ w_ents w' = w_ents w).
  { assert (Hw : Inv base dp P w) by by exists n, q, seqs, sp. destruct (cb_function x) eqn:Ec; [by exists w| |by exists w].
    destruct Hm as [Hm|[[Hm [a Ha]]|[Hm Hc]]]; [done| |done]. rewrite Ha. eexists. split; [reflexivity|]. split; [|done].
    exists n, q, seqs, sp. by eapply inv_world. }
  destruct H as (w' & -> & I' & Ee). cbn [mbind option_bind]. eexists. split; [reflexivity|]. exists P. split; [exact I'|].
  eapply roles_same; [exact R|]. intros i. apply role_id; [done|by rewrite Ee].
Qed.

Lemma end_safe e s : ok s -> e ∈ s_callbacks s -> safe (OEnd e) s.
Proof.
  intros (P & (n & q & seqs & sp & I) & R) He. destruct s as [w c b k m v]. simpl in *. apply (R e) in He.
  destruct (entry_at I e _ He) as [x Hx]. unfold completion_end. rewrite Hx. cbn [mbind option_bind].
  pose proof (po_ent _ _ _ _ (si_places _ _ _ _ _ _ _ _ I) e _ x He Hx) as (Hi & _ & Hb).
  replace (comp_mode x =? QED_SPQ_MODE_EBLOCK) with false by (symmetry; by apply Z.eqb_neq). cbn [negb].
  destruct (inv_return _ _ _ _ _ _ _ _ e _ I He ltac:(tauto) Hi) as (w' & sp' & -> & _ & Ee & I'). cbn [mbind option_bind].
  eexists. split; [reflexivity|]. exists (<[e := PFree]> P). split; [by exists n, q, seqs, sp'|].
  destruct (R e) as (R1 & R2 & R3 & R4 & R5). simpl in *. rewrite He in R1, R2, R3.
  assert (Nv : e ∉ v) by (rewrite R4; eapply not_waiting; unfold quiet_place; eauto; done).
  assert (Nc : e ∉ c) by (rewrite R1; done). assert (Nk : e ∉ k) by (rewrite R3; done).
  eapply (roles_change w w' c b k m v _ _ _ _ _ P _ e R); [apply role_frame; [by intros; rewrite lookup_insert_ne|by rewrite Ee]|set_solver| | | | |];
    [rewrite lookup_insert_eq..| |by intros H; apply R5 in H; congruence].
  - split; [tauto|done].
  - split; [set_solver|done].
  - split; [tauto|done].
  - split; [done|]. intros Hw. exfalso. revert Hw. eapply not_waiting; [by rewrite lookup_insert_eq|unfold quiet_place; tauto|done].
Qed.

Lemma wake_safe e fw s : ok s -> e ∈ s_wakes s -> safe (OWake e fw) s.
Proof.
  intros (P & I & R) He. destruct s as [w c b k m v]. simpl in *. apply (R e) in He. pose proof I as (n & q & seqs & sp & I0).
  destruct (entry_at I0 e _ He) as [x Hx]. rewrite Hx. cbn [mbind option_bind].
  destruct (wake_spec _ _ _ _ _ _ fw I He Hx) as (u & y & w' & Hf & Hc & Hy & Ew & E & En & I' & Hwt).
  unfold call_comp_cb. rewrite Hf, E. cbn [mbind option_bind].
  eexists. split; [reflexivity|]. exists (<[e := PDone]> P). split; [exact I'|].
  assert (Ee : w_ents w' = <[u := woken y fw]> (w_ents w)) by by rewrite Ew.
  assert (Wt : forall i, waiting P (w_ents w) i <-> waiting (<[e := PDone]> P) (w_ents w') i).
  { assert (HE : forall i z, w_ents w !! i = Some z -> exists z', w_ents w' !! i = Some z' /\ comp_mode z' = comp_mode z /\ cb_cookie z' = cb_cookie z).
    { intros i z Hz. rewrite Ee. destruct (decide (i = u)) as [->|]; [|exists z; by rewrite lookup_insert_ne].
      rewrite Hy in Hz. injection Hz as <-. exists (woken y fw). by rewrite lookup_insert_eq. }
    assert (HE' : forall i z', w_ents w' !! i = Some z' -> exists z, w_ents w !! i = Some z /\ comp_mode z = comp_mode z' /\ cb_cookie z = cb_cookie z').
    { intros i z Hz. rewrite Ee in Hz. destruct (decide (i = u)) as [->|]; [|exists z; by rewrite lookup_insert_ne in Hz].
      rewrite lookup_insert_eq in Hz. injection Hz as <-. by exists y. }
    intros i. unfold waiting, blocks. split.
    - intros (p & z & Hp & Hz & B & C & Hpl). destruct (HE i z Hz) as (z' & Hz' & Em & Ec). destruct (decide (i = e)) as [->|].
      + exists PDone, z'. rewrite lookup_insert_eq, Em, Ec. unfold posted. split_and!; try done. tauto.
      + exists p, z'. rewrite lookup_insert_ne, Em, Ec by done. done.
    - intros (p & z & Hp & Hz & B & C & Hpl). destruct (HE' i z Hz) as (z' & Hz' & Em & Ec). destruct (decide (i = e)) as [->|].
      + exists PWake, z'. rewrite Em, Ec. unfold posted. split_and!; try done. tauto.
      + exists p, z'. rewrite lookup_insert_ne in Hp by done. rewrite Em, Ec. done. }
  intros i. destruct (R i) as (R1 & R2 & R3 & R4 & R5). simpl in *. rewrite <- Wt. destruct (decide (i = e)) as [->|Hi].
  - rewrite lookup_insert_eq. rewrite He in R1, R2, R3. split_and!; [rewrite R1; done|rewrite R2; done|set_solver|done|done].
  - rewrite lookup_insert_ne by done. split_and!; [done|done|set_solver|done|]. intros H. apply R5. set_solver.
Qed.

(** The test of the mode finds an entry its client still owns, and leaves it. *)
Lemma test_safe e s : ok s -> e ∈ s_ends s -> safe (OTest e) s.
Proof.
  intros (P & (n & q & seqs & sp & I) & R) He. destruct s as [w c b k m v]. simpl in *.
  destruct (R e) as (_ & _ & _ & _ & Hd). apply Hd in He. clear Hd. destruct (entry_at I e _ He) as [x Hx].
  pose proof (po_ent _ _ _ _ (si_places _ _ _ _ _ _ _ _ I) e _ x He Hx) as (_ & Hb & _). unfold blocks in Hb.
  unfold completion_end. rewrite Hx. cbn [mbind option_bind]. rewrite Hb, Z.eqb_refl. cbn [negb mbind option_bind].
  eexists. split; [reflexivity|]. exists P. split; [by exists n, q, seqs, sp|]. intros i.
  destruct (R i) as (R1 & R2 & R3 & R4 & R5). simpl in *. split_and!; try done. intros H. apply R5. set_solver.
Qed.

Lemma finish_roles w w' c b k m v P e t p :
  roles (mk_spq_sys w c b k m v) P -> waiting P (w_ents w) e -> Inv base dp P w -> target_at P (w_ents w) e t p -> p = PDone \/ p = PComp ->
  (forall i, i <> e -> w_ents w' !! i = w_ents w !! i) -> (t <> e -> P !! e = Some PProxy) -> t ∉ m ->
  roles (mk_spq_sys w' c b k m (v ∖ {[e]})) (finished P e t).
Proof.
  intros R Hwt (n & q & seqs & sp & I) (x & Hx & Hst & Ht) Hp Ho Hpr Hm.
  assert (Hpo : posted p) by (unfold posted; tauto).
  assert (Hh : forall i, i = t -> forall r, r = PClient \/ r = PCallback \/ r = PWake -> P !! i <> Some r).
  { intros i -> r Hr. rewrite Ht. intros [= ->]. destruct Hr as [|[|]], Hp; congruence. }
  assert (Nt : forall i, finished P e t !! i = if decide (i = t) then Some PFree else if decide (i = e) then None else P !! i).
  { intros i. unfold finished. destruct (decide (i = t)) as [->|]; [by rewrite lookup_insert_eq|]. rewrite lookup_insert_ne by done.
    destruct (decide (i = e)) as [->|]; [by rewrite decide_False, lookup_delete_eq|]. destruct (decide (t = e)); [done|by rewrite lookup_delete_ne]. }
  assert (Hself : ~ waiting (finished P e t) (w_ents w') e).
  { intros (r & z & Hr & _ & _ & _ & Hpl). rewrite Nt in Hr. destruct (decide (e = t)) as [->|]; [|by rewrite decide_True in Hr].
    injection Hr as <-. destruct Hpl as [|[|[|[|[|]]]]]; discriminate. }
  destruct (decide (t = e)) as [->|Hne].
  - destruct (R e) as (R1 & R2 & R3 & R4 & R5). simpl in *. pose proof (Hh e eq_refl) as Hn.
    assert (Hfe : finished P e e !! e = Some PFree) by (rewrite Nt, decide_True; done).
    eapply (roles_change w w' c b k m v _ _ _ _ _ P _ e R); [|set_solver| | | | |].
    + apply role_frame; [intros i Hi; rewrite Nt, !decide_False by done; done|done].
    + rewrite R1, Hfe. split; [intros H; by apply Hn in H; tauto|done].
    + rewrite R2, Hfe. split; [intros H; by apply Hn in H; tauto|done].
    + rewrite R3, Hfe. split; [intros H; by apply Hn in H; tauto|done].
    + split; [set_solver|done].
    + done.
  - (* the pool entry was posted for an allocated one *)
    specialize (Hpr Hne). pose proof (si_places _ _ _ _ _ _ _ _ I) as PO. unfold stand_in in Hst.
    destruct (waiting_cases _ _ _ _ _ _ _ _ e x I Hwt Hx) as [(r & Hr & Hpr' & _ & Hq)|[(_ & _ & Hq & t' & y & r & Ht' & Hy & Hpt & _ & Hc & _)|(_ & Hq & Hn & _)]];
      rewrite Hq in Hst; [congruence| |congruence]. rewrite Ht' in Hst. injection Hst as ->.
    assert (Hnt : ~ waiting P (w_ents w) t) by (intros (r' & z & _ & Hz & _ & Hcz & _); congruence).
    intros i. destruct (R i) as (R1 & R2 & R3 & R4 & R5). simpl in *. rewrite R1, R2, R3, elem_of_difference, elem_of_singleton, R4, Nt.
    destruct (decide (i = t)) as [->|Hit].
    + pose proof (Hh t eq_refl) as Hn. split_and!; try (split; [intros H; by apply Hn in H; tauto|done]); [|done].
      split; [tauto|]. intros (r' & z & Hr' & _ & _ & _ & Hpl). rewrite Nt, decide_True in Hr' by done. injection Hr' as <-.
      destruct Hpl as [|[|[|[|[|]]]]]; discriminate.
    + destruct (decide (i = e)) as [->|Hie].
      * rewrite Hpr. split_and!; try (split; done); [split; [tauto|done]|]. intros H. apply R5 in H. congruence.
      * split_and!; try done. unfold waiting. rewrite Nt, !decide_False, Ho by done. tauto.
Qed.

Lemma finish_safe e s : ok s -> allowed (OFinish e) s -> safe (OFinish e) s.
Proof.
  intros (P & I & R) [[He _] (x & Hx & Hd & Hn)]. destruct s as [w c b k m v]. simpl in *. apply (R e) in He. pose proof I as (n & q & seqs & sp & I0).
  destruct (done_target _ _ _ _ _ _ _ _ e x I0 He Hx Hd) as [t Ht].
  destruct (post_finish_spec _ _ _ _ e t 0 I He Ht) as (w' & -> & I' & _ & Ho & _ & Hpr). cbn [mbind option_bind].
  eexists. split; [reflexivity|]. eexists. split; [exact I'|]. eapply finish_roles; eauto.
  destruct Ht as (x' & Hx' & Hst & _). simplify_eq. auto.
Qed.

Lemma timeout_safe e rc s : ok s -> allowed (OTimeout e rc) s -> safe (OTimeout e rc) s.
Proof.
  intros (P & I & R) ((He & Hrc) & x & t & sp & Hx & Hst & Hsp & Hin). destruct s as [w c b k m v]. simpl in *. apply (R e) in He.
  assert (Ht : target_at P (w_ents w) e t PComp).
  { exists x. split_and!; try done. destruct I as (n & q & seqs & sp' & I). rewrite (si_spq _ _ _ _ _ _ _ _ I) in Hsp. injection Hsp as <-.
    by apply (lo_comp _ _ (si_lists _ _ _ _ _ _ _ _ I)). }
  destruct (post_finish_spec _ _ _ _ e t rc I He) as (w' & -> & I' & _ & Ho & _ & Hpr).
  { by replace (rc =? 0) with false by (symmetry; by apply Z.eqb_neq). }
  cbn [mbind option_bind]. eexists. split; [reflexivity|]. eexists. split; [exact I'|]. eapply finish_roles; eauto.
  destruct Ht as (x' & _ & _ & Ht). intros H. apply (R t) in H. congruence.
Qed.

Lemma pend_safe s : ok s -> safe OPend s.
Proof.
  intros (P & (n & q & seqs & sp & I) & R). destruct s as [w c b k m v]. simpl in *.
  destruct (pend_post_spec _ _ _ _ _ _ _ _ I) as (w' & sp' & P' & n' & seqs' & -> & I' & Sr & _). cbn [mbind option_bind].
  eexists. split; [reflexivity|]. exists P'. split; [by exists n', q, seqs', sp'|]. by eapply roles_same.
Qed.

Lemma drop_safe s : ok s -> safe ODropNext s.
Proof.
  intros (P & (n & q & seqs & sp & I) & R). destruct s as [w c b k m v]. simpl in *.
  unfold qed_spq_drop_next_completion. rewrite (si_spq _ _ _ _ _ _ _ _ I). cbn [mbind option_bind].
  eexists. split; [reflexivity|]. exists P. split; [|eapply roles_same; [exact R|done]]. exists n, q, seqs. eexists.
  split; [reflexivity| |destruct (si_lists _ _ _ _ _ _ _ _ I); by split|apply I]. eapply ring_frame; [apply I|done..|eauto].
Qed.

Lemma step_safe o s : ok s -> allowed o s -> safe o s.
Proof.
  intros H A. pose proof A as [En _]. destruct o; [by apply init_safe|by apply fill_safe|by apply destroy_safe|by apply post_safe, En|by apply take_safe
    |by apply call_safe|by apply end_safe|by apply wake_safe|by apply test_safe|by apply finish_safe|by apply timeout_safe|by apply pend_safe|by apply drop_safe].
Qed.
End Steps.
