(* ===== verification/SpqSetup.v ===== *)
(** * The slow path queue: allocation and set-up (qed_spq.c, qed_int.c)

    [qed_spq_alloc], [qed_spq_setup] and [qed_spq_free] with the event queue
    ([qed_eq_*]), the consolidation queue ([qed_consq_*]) and the registration
    of the event queue's callback on the slow path status block
    ([qed_int_register_cb]).  They are composed with the models of the chains,
    of the DMA allocator and of the doorbell recovery registry. *)

From S2P Require Import Prelude Dma Chain DbRec Spq.

(** ** Data *)

(** [struct qed_sb_sp_info]: the callbacks, cookies and index words of the
    status block. *)
Inductive pi_cb := CbNull | CbDummy | CbFn (f : Z).
#[export] Instance pi_cb_eq_dec : EqDecision pi_cb.
Proof. solve_decision. Defined.

Record qed_pi_info := mk_qed_pi_info { comp_cb : pi_cb; cookie : Z }.
#[export] Instance eta_qed_pi_info : Settable qed_pi_info := fun r => mk_qed_pi_info (comp_cb r) (cookie r).

Record qed_sb_sp_info := mk_qed_sb_sp_info { sb_pi_array : list Z; pi_info_arr : list qed_pi_info; pi_info_arr_size : Z }.
#[export] Instance eta_qed_sb_sp_info : Settable qed_sb_sp_info := fun r =>
  mk_qed_sb_sp_info (sb_pi_array r) (pi_info_arr r) (pi_info_arr_size r).

(** [struct qed_eq]; [p_fw_cons] points to an index word of the status block. *)
Record qed_eq := mk_qed_eq { eq_chain : qed_chain; eq_sb_index : Z; p_fw_cons : option nat }.
#[export] Instance eta_qed_eq : Settable qed_eq := fun r => mk_qed_eq (eq_chain r) (eq_sb_index r) (p_fw_cons r).

(** The function: the SPQ's world, the device's doorbell registry, the queues,
    the status block and the structures [kzalloc] handed out and did not get
    back. *)
Record sp_hwfn := mk_sp_hwfn {
  f_w : spq_world;
  f_dev : db_dev;
  p_eq : option qed_eq;
  p_consq : option qed_chain;
  p_sp_sb : qed_sb_sp_info;
  f_structs : Z
}.
#[export] Instance eta_sp_hwfn : Settable sp_hwfn := fun r =>
  mk_sp_hwfn (f_w r) (f_dev r) (p_eq r) (p_consq r) (p_sp_sb r) (f_structs r).

Definition zero_chain : qed_chain :=
  mk_qed_chain 0 0 None (mk_idx_union 0 0) (mk_idx_union 0 0) 0 0 QED_CHAIN_MODE_NEXT_PTR 0 0 0 0 0 0
    QED_CHAIN_CNT_TYPE_U16 0 0 0 0 0 0 QED_CHAIN_USE_TO_PRODUCE false 0.

Definition zero_spq : qed_spq :=
  mk_qed_spq [] [] [] [] zero_chain 0 0 0 0 0 0 0 0 0 0 0 0 (mk_core_db_data 0 0 0)
    (replicate (Z.to_nat MAX_PROTOCOL_TYPE) None) false.

(** [kzalloc] and [kfree] of the structures. *)
Definition kzalloc_struct (h : sp_hwfn) : bool * sp_hwfn :=
  let ok := match w_kz (f_w h) with [] => true | b :: _ => b end in
  (ok, h <| f_w := f_w h <| w_kz := tail (w_kz (f_w h)) |> |> <| f_structs := f_structs h + (if ok then 1 else 0) |>).
Definition kfree_struct (h : sp_hwfn) : sp_hwfn := h <| f_structs := f_structs h - 1 |>.

Definition set_mem (m : dma_mem) (h : sp_hwfn) : sp_hwfn := h <| f_w := f_w h <| w_mem := m |> |>.

(** [SET_FIELD(value, name, flag)] on a [u8]. *)
Definition SET_FIELD8 (value mask shift flag : Z) : Z :=
  u8 (Z.lor (Z.land value (Z.lnot (Z.shiftl mask shift))) (Z.shiftl (Z.land flag mask) shift)).

Definition QED_PF_DEMS_SIZE : Z := 4.
Definition DQ_DEMS_LEGACY : Z := 0.
Definition DB_ADDR (cid dems : Z) : Z := Z.lor (Z.shiftl (Z.land dems 7) 2) (u32 (cid * QED_PF_DEMS_SIZE)).
Definition DB_DEST_XCM : Z := 0.
Definition DB_AGG_CMD_MAX : Z := 3.
Definition DQ_XCM_CORE_SPQ_PROD_CMD : Z := 2.
Definition DQ_XCM_CORE_DQ_CF_CMD : Z := Z.shiftl 1 4.

(** ** The status block *)

(** The search of [qed_int_register_cb] from index [pi]. *)
Fixpoint register_loop (n pi : nat) (sb : qed_sb_sp_info) (cb : pi_cb) (ck : Z) : option (Z * option nat * qed_sb_sp_info) :=
  match n with
  | O => Some (- ENOMEM, None, sb)
  | S n =>
      p ← pi_info_arr sb !! pi;
      if negb (bool_decide (comp_cb p = CbNull)) && negb (bool_decide (comp_cb p = CbDummy))
      then register_loop n (S pi) sb cb ck
      else
        _ ← sb_pi_array sb !! pi;
        Some (0, Some pi, sb <| pi_info_arr := <[pi := mk_qed_pi_info cb ck]> (pi_info_arr sb) |>
                             <| sb_pi_array := <[pi := 0]> (sb_pi_array sb) |>)
  end.

Definition qed_int_register_cb (sb : qed_sb_sp_info) (cb : pi_cb) (ck : Z) : option (Z * option nat * qed_sb_sp_info) :=
  register_loop (Z.to_nat (pi_info_arr_size sb)) 0 sb cb ck.

Definition qed_int_unregister_cb (sb : qed_sb_sp_info) (pi : nat) : option (Z * qed_sb_sp_info) :=
  p ← pi_info_arr sb !! pi;
  if bool_decide (comp_cb p = CbNull) then Some (- ENOMEM, sb)
  else Some (0, sb <| pi_info_arr := <[pi := p <| comp_cb := CbDummy |>]> (pi_info_arr sb) |>).

Section Setup.
(** The layout of [struct qed_spq_entry], the address of [p_spq->db_data], the
    device's debug context, and the identities of [qed_eq_completion] and of the
    EQ as a cookie. *)
Context (sizeof_entry offsetof_ramrod : Z) (p_db_data dp_ctx : Z) (eq_completion_fn eq_cookie : Z).

(** ** The slow path queue *)

Definition spq_params : qed_chain_params :=
  qed_chain_params_init QED_CHAIN_USE_TO_PRODUCE QED_CHAIN_MODE_SINGLE QED_CHAIN_CNT_TYPE_U16 0 sizeof_slow_path_element.

(** The pool, zeroed by the allocator. *)
Definition pool_entries (n : nat) : gmap nat qed_spq_entry := list_to_map ((fun i => (i, zero_entry)) <$> seq 0 n).

(** The label [spq_allocate_fail]. *)
Definition spq_allocate_fail (c : qed_chain) (h : sp_hwfn) : option (Z * sp_hwfn) :=
  '(_, m) ← qed_chain_free c (w_mem (f_w h));
  Some (- ENOMEM, kfree_struct (set_mem m h)).

Definition qed_spq_alloc (is_vf : bool) (h : sp_hwfn) : option (Z * sp_hwfn) :=
  let '(ok, h) := kzalloc_struct h in
  if negb ok then Some (- ENOMEM, h) else
  if is_vf then Some (0, h <| f_w := set_spq zero_spq (f_w h) |>) else
  '(rc, c, m) ← qed_chain_alloc dp_ctx (chain zero_spq) spq_params (w_mem (f_w h));
  let h := set_mem m h in
  if negb (rc =? 0) then spq_allocate_fail c h else
  let capacity := qed_chain_get_capacity c in
  let '(virt, phys, m) := dma_alloc_coherent (capacity * sizeof_entry) (w_mem (f_w h)) in
  let h := set_mem m h in
  if virt =? 0 then spq_allocate_fail c h else
  let sp := zero_spq <| chain := c |> <| p_virt := virt |> <| p_phys := phys |> in
  Some (0, h <| f_w := set_spq sp (f_w h) <| w_ents := pool_entries (Z.to_nat capacity) ∪ w_ents (f_w h) |> |>).

(** The pool loop of [qed_spq_setup] from entry [i]. *)
Fixpoint pool_loop (n i : nat) (phys : Z) (sp : qed_spq) (w : spq_world) : option (qed_spq * spq_world) :=
  match n with
  | O => Some (sp, w)
  | S n =>
      x ← w_ents w !! i;
      let w := set_ent i (x <| elem := elem x <| data_ptr := DMA_REGPAIR_LE phys |> |>) w in
      if may_link w sp i
      then pool_loop n (S i) (u64 (phys + sizeof_entry)) (sp <| free_pool := free_pool sp ++ [i] |>) w
      else None
  end.

(** [qed_spq_setup]; [acquired] is what [qed_cxt_acquire_cid] stores in
    [p_spq->cid].  The connection context written by [qed_spq_hw_initialize] is
    left out. *)
Definition qed_spq_setup (acquired : Z) (h : sp_hwfn) : option sp_hwfn :=
  sp ← w_spq (f_w h);
  let sp := sp <| pending := [] |> <| completion_pending := [] |> <| free_pool := [] |> <| unlimited_pending := [] |> in
  '(sp, w) ← pool_loop (Z.to_nat (qed_chain_get_capacity (chain sp))) 0 (u64 (p_phys sp + offsetof_ramrod)) sp (f_w h);
  let sp := sp <| normal_count := 0 |> <| comp_count := 0 |> <| comp_sent_count := 0 |> <| unlimited_pending_count := 0 |>
               <| p_comp_bitmap := 0 |> <| comp_bitmap_idx := 0 |> <| cid := acquired |>
               <| chain := qed_chain_reset (chain sp) |> <| db_addr_offset := DB_ADDR acquired DQ_DEMS_LEGACY |> in
  let params := SET_FIELD8 0 3 0 DB_DEST_XCM in
  let params := SET_FIELD8 params 3 2 DB_AGG_CMD_MAX in
  let params := SET_FIELD8 params 3 6 DQ_XCM_CORE_SPQ_PROD_CMD in
  let sp := sp <| spq_db_data := mk_core_db_data params DQ_XCM_CORE_DQ_CF_CMD 0 |> in
  '(_, cdev) ← qed_db_recovery_add (f_dev h) (w_doorbells w + db_addr_offset sp) p_db_data DB_REC_WIDTH_32B DB_REC_KERNEL;
  Some (h <| f_w := set_spq sp w |> <| f_dev := cdev |>).

Definition qed_spq_free (is_vf : bool) (h : sp_hwfn) : option sp_hwfn :=
  match w_spq (f_w h) with
  | None => Some h
  | Some sp =>
      h ← (if is_vf then Some h else
             '(_, cdev) ← qed_db_recovery_del (f_dev h) (w_doorbells (f_w h) + db_addr_offset sp) p_db_data;
             let h := h <| f_dev := cdev |> in
             h ← (if p_virt sp =? 0 then Some h else
                    let capacity := qed_chain_get_capacity (chain sp) in
                    m ← dma_free_coherent (capacity * sizeof_entry) (p_virt sp) (p_phys sp) (w_mem (f_w h));
                    Some (set_mem m h <| f_w := f_w (set_mem m h) <| w_ents := filter (fun ix => capacity <= Z.of_nat ix.1) (w_ents (f_w h)) |> |>));
             '(_, m) ← qed_chain_free (chain sp) (w_mem (f_w h));
             Some (set_mem m h));
      Some (kfree_struct (h <| f_w := f_w h <| w_spq := None |> |>))
  end.

(** ** The event queue and the consolidation queue *)

Definition sizeof_event_ring_element : Z := 16.
Definition eq_params (num_elem : Z) : qed_chain_params :=
  qed_chain_params_init QED_CHAIN_USE_TO_PRODUCE QED_CHAIN_MODE_PBL QED_CHAIN_CNT_TYPE_U16 num_elem sizeof_event_ring_element.
Definition consq_params : qed_chain_params :=
  qed_chain_params_init QED_CHAIN_USE_TO_PRODUCE QED_CHAIN_MODE_PBL QED_CHAIN_CNT_TYPE_U16 (QED_CHAIN_PAGE_SIZE / 0x80) 0x80.

(** The return code of [qed_int_register_cb] is not looked at. *)
Definition qed_eq_alloc (num_elem : Z) (h : sp_hwfn) : option (Z * sp_hwfn) :=
  let '(ok, h) := kzalloc_struct h in
  if negb ok then Some (- ENOMEM, h) else
  '(rc, c, m) ← qed_chain_alloc dp_ctx zero_chain (eq_params num_elem) (w_mem (f_w h));
  let h := set_mem m h in
  if negb (rc =? 0) then Some (- ENOMEM, kfree_struct h) else
  '(_, r, sb) ← qed_int_register_cb (p_sp_sb h) (CbFn eq_completion_fn) eq_cookie;
  let idx := match r with Some pi => Z.of_nat pi | None => 0 end in
  Some (0, h <| p_sp_sb := sb |> <| p_eq := Some (mk_qed_eq c idx r) |>).

Definition qed_eq_setup (h : sp_hwfn) : option sp_hwfn :=
  e ← p_eq h; Some (h <| p_eq := Some (e <| eq_chain := qed_chain_reset (eq_chain e) |>) |>).

Definition qed_eq_free (h : sp_hwfn) : option sp_hwfn :=
  match p_eq h with
  | None => Some h
  | Some e => '(_, m) ← qed_chain_free (eq_chain e) (w_mem (f_w h)); Some (kfree_struct (set_mem m h) <| p_eq := None |>)
  end.

Definition qed_consq_alloc (h : sp_hwfn) : option (Z * sp_hwfn) :=
  let '(ok, h) := kzalloc_struct h in
  if negb ok then Some (- ENOMEM, h) else
  '(rc, c, m) ← qed_chain_alloc dp_ctx zero_chain consq_params (w_mem (f_w h));
  let h := set_mem m h in
  if negb (rc =? 0) then Some (- ENOMEM, kfree_struct h) else Some (0, h <| p_consq := Some c |>).

Definition qed_consq_setup (h : sp_hwfn) : option sp_hwfn :=
  c ← p_consq h; Some (h <| p_consq := Some (qed_chain_reset c) |>).

Definition qed_consq_free (h : sp_hwfn) : option sp_hwfn :=
  match p_consq h with
  | None => Some h
  | Some c => '(_, m) ← qed_chain_free c (w_mem (f_w h)); Some (kfree_struct (set_mem m h) <| p_consq := None |>)
  end.
End Setup.
