(* ===== verification/SpqReady.v ===== *)
(** * The slow path queue: from allocation to the first request

    [qed_spq_alloc] gives back what it took when it fails; [qed_spq_setup] brings
    a freshly allocated SPQ into the initial state of the runs; [qed_spq_free]
    releases it. *)

From S2P Require Import Prelude Dma Chain ChainRing ChainAlloc DbRec Spq SpqRing SpqInv SpqPost SpqComp SpqRun SpqSetup.

(** ** The ring *)

Lemma spq_chain_alloc dp_ctx m :
  exists rc c m', qed_chain_alloc dp_ctx zero_chain spq_params m = Some (rc, c, m') /\
    (rc = - ENOMEM /\ p_virt_addr c = 0 /\ mode c = QED_CHAIN_MODE_SINGLE /\ live m' = live m \/
     rc = 0 /\ exists base phys, 0 < base /\ live m !! base = None /\ live m' = <[base := (QED_CHAIN_PAGE_SIZE, phys)]> (live m) /\
       spq_chain c /\ chain_geom m' c [base] /\ chain_wf c /\ intended_use c = QED_CHAIN_USE_TO_PRODUCE /\
       p_virt_addr c = base /\ p_phys_addr c = phys /\ page_size c = QED_CHAIN_PAGE_SIZE).
Proof.
  unfold qed_chain_alloc. change (par_elem_size spq_params =? 0) with false. cbn iota. cbn [par_mode spq_params qed_chain_params_init].
  cbn [mbind option_bind]. change (qed_chain_alloc_sanity_check _ _ _ _) with 0. cbn [Z.eqb negb].
  set (r := qed_chain_init _ _ _ _ _ _ _ _). vm_compute in r. subst r. cbn [mbind option_bind].
  unfold qed_chain_alloc_single. cbn [page_size].
  destruct (dma_alloc_coherent 4096 m) as [[v p] m1] eqn:Ea. destruct (v =? 0) eqn:Ev; zbool.
  - do 3 eexists. split; [reflexivity|]. left. split_and!; try done. by eapply dma_alloc_null.
  - cbn [mbind option_bind Z.eqb negb]. do 3 eexists. split; [reflexivity|]. right. split; [done|].
    destruct (dma_alloc_inv _ _ _ _ _ Ea Ev) as (Hf & Hl & _). apply fresh_block_spec in Hf as (Hv & Hn & _).
    exists v, p. split_and!; try done.
    split; try done. exists 8. done.
Qed.

(** ** The pool *)

Definition pool_ptr (sizeof phys : Z) (e : nat) : regpair := DMA_REGPAIR_LE (u64 (phys + sizeof * Z.of_nat e)).

Lemma u64_add a b : u64 (u64 a + b) = u64 (a + b).
Proof. unfold u64. by rewrite Z.add_mod_idemp_l by done. Qed.

Lemma pool_loop_spec sizeof phys n : forall i sp w,
  unlimited_pending sp = [] -> pending sp = [] -> completion_pending sp = [] -> free_pool sp = seq 0 i ->
  (forall j, (i <= j < i + n)%nat -> is_Some (w_ents w !! j)) ->
  exists sp' w', pool_loop sizeof n i (u64 (phys + sizeof * Z.of_nat i)) sp w = Some (sp', w') /\
    sp' = sp <| free_pool := seq 0 (i + n) |> /\
    (exists E, w' = w <| w_ents := E |> /\ forall j, E !! j =
      if decide (i <= j < i + n)%nat then (fun x => x <| elem := elem x <| data_ptr := pool_ptr sizeof phys j |> |>) <$> w_ents w !! j
      else w_ents w !! j).
Proof.
  induction n as [|n IH]; intros i sp w Hu Hp Hc Hf Hex.
  - exists sp, w. split; [done|]. split; [rewrite Nat.add_0_r, <- Hf; by destruct sp|]. exists (w_ents w). split; [by destruct w|].
    intros j. rewrite decide_False by lia. done.
  - destruct (Hex i ltac:(lia)) as [x Hx]. cbn [pool_loop]. rewrite Hx. cbn [mbind option_bind].
    set (x' := x <| elem := elem x <| data_ptr := DMA_REGPAIR_LE (u64 (phys + sizeof * Z.of_nat i)) |> |>).
    assert (Hml : may_link (set_ent i x' w) sp i = true).
    { unfold may_link. simpl. rewrite lookup_insert_eq, bool_decide_true by by eexists. rewrite bool_decide_true; [done|].
      unfold linked. rewrite Hu, Hp, Hc, Hf. simpl. rewrite elem_of_seq. lia. }
    rewrite Hml, u64_add. replace (phys + sizeof * Z.of_nat i + sizeof) with (phys + sizeof * Z.of_nat (S i)) by lia.
    destruct (IH (S i) (sp <| free_pool := free_pool sp ++ [i] |>) (set_ent i x' w)) as (sp' & w' & -> & Hs & E & Hw & HE); try done.
    { change (free_pool sp ++ [i] = seq 0 (S i)). by rewrite Hf, seq_S. }
    { intros j Hj. simpl. rewrite lookup_insert_ne by lia. apply Hex. lia. }
    exists sp', w'. split; [done|]. split; [rewrite Hs; replace (S i + n)%nat with (i + S n)%nat by lia; done|].
    exists E. split; [by rewrite Hw|]. intros j. rewrite HE. simpl. destruct (decide (j = i)) as [->|Hj].
    + rewrite decide_False, decide_True, lookup_insert_eq, Hx by lia. done.
    + rewrite lookup_insert_ne by done. destruct (decide (i <= j < i + S n)%nat); [rewrite decide_True by lia|rewrite decide_False by lia]; done.
Qed.

Lemma seq_map_lookup {A} (a : A) n j :
  (list_to_map ((fun i => (i, a)) <$> seq 0 n) : gmap nat A) !! j = if decide (j < n)%nat then Some a else None.
Proof.
  assert (Hf : ((fun i : nat => (i, a)) <$> seq 0 n).*1 = seq 0 n).
  { rewrite <- list_fmap_compose. exact (list_fmap_id (seq 0 n)). }
  destruct (decide (j < n)%nat) as [Hj|Hj].
  - apply elem_of_list_to_map_1; [rewrite Hf; apply list.NoDup_seq|].
    apply list_elem_of_fmap. exists j. split; [done|]. apply elem_of_seq. lia.
  - apply not_elem_of_list_to_map_1. rewrite Hf, elem_of_seq. lia.
Qed.

(** ** Ready for use *)

(** A pool of fresh entries and a reset ring are the initial state of every run. *)
Lemma fresh_sys_ok base sizeof phys w sp :
  w_spq w = Some sp -> unlimited_pending sp = [] -> pending sp = [] -> completion_pending sp = [] ->
  free_pool sp = seq 0 (Z.to_nat SPQ_RING_SIZE) ->
  (forall j, w_ents w !! j = if decide (j < Z.to_nat SPQ_RING_SIZE)%nat
     then Some (zero_entry <| elem := elem zero_entry <| data_ptr := pool_ptr sizeof phys j |> |>) else None) ->
  ~ in_pool (w_next w) -> 0 < base -> spq_chain (chain sp) -> tx_at (w_mem w) (chain sp) [base] 0 0 ->
  p_comp_bitmap sp = 0 -> comp_bitmap_idx sp = 0 ->
  sys_ok base (pool_ptr sizeof phys) (mk_spq_sys w ∅ ∅ ∅ ∅ ∅).
Proof.
  intros Hsp Hu Hp Hc Hf HE Hnx Hb C T Hbm Hbi.
  set (N := Z.to_nat SPQ_RING_SIZE) in *. set (P := list_to_map ((fun i => (i, PFree)) <$> seq 0 N) : gmap nat place).
  assert (HP : forall j, P !! j = if decide (j < N)%nat then Some PFree else None).
  { intros j. apply seq_map_lookup. }
  assert (HN : forall j, (j < N)%nat <-> in_pool j) by (intros j; unfold in_pool, N; lia).
  assert (Hfree : forall j p, P !! j = Some p -> p = PFree /\ in_pool j).
  { intros j p. rewrite HP. destruct (decide (j < N)%nat); [|done]. intros [= <-]. split; [done|by apply HN]. }
  exists P. split.
  - exists 0, 0, [], sp. split; [done| | |].
    + split; try done.
      * rewrite Hbm. intros i Hi. rewrite Z.bits_0. split; [done|]. intros (q & Hq & _). lia.
      * apply NoDup_nil_2.
      * cbn [s_w]. rewrite Hc. constructor.
    + split; rewrite ?Hu, ?Hp, ?Hc, ?Hf.
      * split_and!; [apply NoDup_nil_2..|apply list.NoDup_seq].
      * intros e. split; [by intros H; apply elem_of_nil in H|]. intros H. by destruct (Hfree _ _ H).
      * intros e. split; [by intros H; apply elem_of_nil in H|]. intros H. by destruct (Hfree _ _ H).
      * intros e. split; [by intros H; apply elem_of_nil in H|]. intros H. by destruct (Hfree _ _ H).
      * intros e. rewrite elem_of_seq, HP. destruct (decide (e < N)%nat); split; try done; lia.
    + simpl. split.
      * intros e. rewrite HP, HE. destruct (decide (e < N)%nat); split; intros [? ?]; try done; by eexists.
      * intros e He. rewrite HP, decide_True by (by apply HN). by eexists.
      * intros e [p Hpe]. left. exact (proj2 (Hfree _ _ Hpe)).
      * done.
      * intros e p x Hpe _. apply Hfree in Hpe as [-> Hi]. done.
      * intros e x Hi Hx. rewrite HE, decide_True in Hx by (by apply HN). injection Hx as <-. done.
  - intros e. simpl. split_and!; try (intros H; by apply elem_of_empty in H); split; try (intros H; by apply elem_of_empty in H); intros H.
    + by apply Hfree in H as [? _].
    + by apply Hfree in H as [? _].
    + by apply Hfree in H as [? _].
    + destruct H as (p & x & Hpe & _ & _ & _ & Hpl). apply Hfree in Hpe as [-> _]. exfalso. destruct Hpl as [|[|[|[|[|]]]]]; discriminate.
Qed.

(** ** Allocation *)

Lemma geom_single m m' c pages : mode c = QED_CHAIN_MODE_SINGLE -> chain_geom m c pages -> chain_geom m' c pages.
Proof. intros Hm [? ? ? ? ? ? ? ? ? ? ? G]. split; try done. rewrite Hm in *. done. Qed.

(** Freeing the ring of the SPQ, and freeing one that was not allocated. *)
Lemma free_single c m base phys :
  mode c = QED_CHAIN_MODE_SINGLE -> p_virt_addr c = base -> base <> 0 -> p_phys_addr c = phys -> live m !! base = Some (page_size c, phys) ->
  exists c' m', qed_chain_free c m = Some (c', m') /\ live m' = delete base (live m).
Proof.
  intros Hm Hv Hb Hp Hl. unfold qed_chain_free, qed_chain_free_single, dma_free_coherent. rewrite Hm, Hv, Hp, Hl.
  replace (base =? 0) with false by (symmetry; by apply Z.eqb_neq). rewrite !Z.eqb_refl. cbn [andb mbind option_bind]. eauto.
Qed.
Lemma free_single_none c m :
  mode c = QED_CHAIN_MODE_SINGLE -> p_virt_addr c = 0 -> exists c', qed_chain_free c m = Some (c', m).
Proof. intros Hm Hv. unfold qed_chain_free, qed_chain_free_single. rewrite Hm, Hv. cbn. eauto. Qed.

Lemma kzalloc_struct_spec h ok h1 : kzalloc_struct h = (ok, h1) ->
  f_dev h1 = f_dev h /\ (exists kz, f_w h1 = f_w h <| w_kz := kz |>) /\ f_structs h1 = f_structs h + (if ok then 1 else 0).
Proof. intros [= <- <-]. split_and!; try done. by eexists. Qed.

(** The SPQ [sp] owns its ring and its pool, on top of the blocks [L]. *)
Record spq_alloced (sizeof : Z) (L : gmap Z (Z * Z)) (sp : qed_spq) (m : dma_mem) : Prop := {
  sa_chain : spq_chain (chain sp);
  sa_geom : chain_geom m (chain sp) [p_virt_addr (chain sp)];
  sa_page : page_size (chain sp) = QED_CHAIN_PAGE_SIZE;
  sa_base : 0 < p_virt_addr (chain sp) /\ L !! p_virt_addr (chain sp) = None;
  sa_pool : 0 < p_virt sp /\ L !! p_virt sp = None /\ p_virt sp <> p_virt_addr (chain sp);
  sa_live : live m = <[p_virt sp := (SPQ_RING_SIZE * sizeof, p_phys sp)]>
              (<[p_virt_addr (chain sp) := (QED_CHAIN_PAGE_SIZE, p_phys_addr (chain sp))]> L)
}.

Lemma spq_alloc_spec sizeof dp_ctx h :
  exists rc h', qed_spq_alloc sizeof dp_ctx false h = Some (rc, h') /\ f_dev h' = f_dev h /\
    (rc = - ENOMEM /\ live (w_mem (f_w h')) = live (w_mem (f_w h)) /\ f_structs h' = f_structs h /\ w_spq (f_w h') = w_spq (f_w h) /\
       w_ents (f_w h') = w_ents (f_w h) \/
     rc = 0 /\ f_structs h' = f_structs h + 1 /\ w_next (f_w h') = w_next (f_w h) /\
       w_ents (f_w h') = pool_entries (Z.to_nat SPQ_RING_SIZE) ∪ w_ents (f_w h) /\ w_doorbells (f_w h') = w_doorbells (f_w h) /\
       exists sp, w_spq (f_w h') = Some sp /\ spq_alloced sizeof (live (w_mem (f_w h))) sp (w_mem (f_w h')) /\
         chain_wf (chain sp) /\ intended_use (chain sp) = QED_CHAIN_USE_TO_PRODUCE).
Proof.
  unfold qed_spq_alloc. destruct (kzalloc_struct h) as [ok h1] eqn:Ek.
  destruct (kzalloc_struct_spec _ _ _ Ek) as (Ed & (kz & Ew) & Es). destruct ok; cbn [negb].
  2: { do 2 eexists. split; [reflexivity|]. split; [done|]. left. rewrite Ew, Es, Z.add_0_r. done. }
  cbn [chain zero_spq]. rewrite Ew. change (w_mem (f_w h <| w_kz := kz |>)) with (w_mem (f_w h)).
  destruct (spq_chain_alloc dp_ctx (w_mem (f_w h))) as (rc & c & m1 & -> & [(-> & Hv & Hm & Hl)|(-> & base & phys & Hb & Hn & Hl & C & G & W & U & Hv & Hp & Hps)]);
    cbn [mbind option_bind].
  - cbn [Z.eqb negb ENOMEM Z.opp]. unfold spq_allocate_fail. destruct (free_single_none c (w_mem (f_w (set_mem m1 h1))) Hm Hv) as [c' ->].
    cbn [mbind option_bind]. do 2 eexists. split; [reflexivity|]. split; [done|]. left. simpl. rewrite Ew, Es. split_and!; try done. lia.
  - cbn [Z.eqb negb]. unfold qed_chain_get_capacity. rewrite (sc_cap _ C). cbn [f_w set_mem w_mem].
    change (w_mem (f_w (set_mem m1 h1))) with m1.
    destruct (dma_alloc_coherent (SPQ_RING_SIZE * sizeof) m1) as [[v p] m2] eqn:Ea. destruct (v =? 0) eqn:Ev; zbool.
    + destruct (dma_alloc_null _ _ _ _ _ Ea Ev) as (Hl2 & _). unfold spq_allocate_fail. change (w_mem (f_w (set_mem m2 _))) with m2.
      destruct (free_single c m2 base phys (sc_mode _ C) Hv ltac:(lia) Hp) as (c' & m3 & -> & Hl3).
      { rewrite Hl2, Hl, Hps, lookup_insert_eq. done. }
      cbn [mbind option_bind]. do 2 eexists. split; [reflexivity|]. split; [done|]. left. simpl. rewrite Ew, Es. split_and!; try done; [|lia].
      simpl. by rewrite Hl3, Hl2, Hl, delete_insert_id.
    + destruct (dma_alloc_inv _ _ _ _ _ Ea Ev) as (Hf & Hl2 & _). apply fresh_block_spec in Hf as (Hv0 & Hnv & _).
      do 2 eexists. split; [reflexivity|]. split; [done|]. right. simpl. rewrite Ew, Es. split_and!; try done. eexists. split; [reflexivity|].
      rewrite Hl in Hnv. assert (Hvb : v <> base) by (intros ->; by rewrite lookup_insert_eq in Hnv).
      split_and!; try done. split; simpl; rewrite ?Hv; try done.
      * by eapply geom_single; [apply C|].
      * split_and!; try done. by rewrite lookup_insert_ne in Hnv.
      * by rewrite Hl2, Hl, Hp.
Qed.

(** ** Set-up and release *)

Definition db_find_ok (cdev : db_dev) (addr : Z) : Prop :=
  exists i h, qed_db_rec_find_hwfn cdev addr = Some i /\ hwfns cdev !! i = Some h.

Lemma db_add_total cdev addr data w s : db_find_ok cdev addr -> exists rc cdev', qed_db_recovery_add cdev addr data w s = Some (rc, cdev').
Proof.
  intros (i & h & Hi & Hh). unfold qed_db_recovery_add, qed_db_rec_sanity. rewrite Hi. cbn [mbind option_bind]. rewrite Hh. cbn [mbind option_bind].
  destruct (negb _); [eauto|]. destruct (kzalloc_entry cdev) as [[] cdev1]; cbn [negb]; eauto.
Qed.
Lemma db_del_total cdev addr data : db_find_ok cdev addr -> exists rc cdev', qed_db_recovery_del cdev addr data = Some (rc, cdev').
Proof.
  intros (i & h & Hi & Hh). unfold qed_db_recovery_del. rewrite Hi. cbn [mbind option_bind]. rewrite Hh. cbn [mbind option_bind].
  destruct (del_entry _ _); eauto.
Qed.

Lemma cfg_addrs c c' : cfg c' = cfg c ->
  p_virt_addr c' = p_virt_addr c /\ p_phys_addr c' = p_phys_addr c /\ page_size c' = page_size c.
Proof.
  intros E. pose proof (f_equal p_virt_addr E) as E1. pose proof (f_equal p_phys_addr E) as E2. pose proof (f_equal page_size E) as E3. done.
Qed.

(** Using the ring does not change what is allocated. *)
Lemma alloced_cfg sizeof L sp sp' m :
  cfg (chain sp') = cfg (chain sp) -> p_virt sp' = p_virt sp -> p_phys sp' = p_phys sp ->
  spq_alloced sizeof L sp m -> spq_alloced sizeof L sp' m.
Proof.
  intros Hcfg Ev Ep [C G Hps Hb Hp Hl]. destruct (cfg_addrs _ _ Hcfg) as (E1 & E2 & E3). split; rewrite ?E1, ?E2, ?E3, ?Ev, ?Ep; try done.
  - by eapply spq_chain_cfg.
  - by eapply chain_geom_cfg.
Qed.

Lemma spq_setup_spec sizeof offs p_db cid_ h sp L :
  w_spq (f_w h) = Some sp -> spq_alloced sizeof L sp (w_mem (f_w h)) -> chain_wf (chain sp) ->
  intended_use (chain sp) = QED_CHAIN_USE_TO_PRODUCE -> w_ents (f_w h) = pool_entries (Z.to_nat SPQ_RING_SIZE) ->
  ~ in_pool (w_next (f_w h)) -> db_find_ok (f_dev h) (w_doorbells (f_w h) + DB_ADDR cid_ DQ_DEMS_LEGACY) ->
  exists h' sp', qed_spq_setup sizeof offs p_db cid_ h = Some h' /\ w_spq (f_w h') = Some sp' /\ w_mem (f_w h') = w_mem (f_w h) /\
    f_structs h' = f_structs h /\ spq_alloced sizeof L sp' (w_mem (f_w h')) /\ cid sp' = cid_ /\
    db_addr_offset sp' = DB_ADDR cid_ DQ_DEMS_LEGACY /\ w_doorbells (f_w h') = w_doorbells (f_w h) /\
    (exists rc, qed_db_recovery_add (f_dev h) (w_doorbells (f_w h) + db_addr_offset sp') p_db DB_REC_WIDTH_32B DB_REC_KERNEL = Some (rc, f_dev h')) /\
    sys_ok (p_virt_addr (chain sp)) (pool_ptr sizeof (p_phys sp + offs)) (mk_spq_sys (f_w h') ∅ ∅ ∅ ∅ ∅).
Proof.
  intros Hsp A W U HE Hnx Hdb. unfold qed_spq_setup. rewrite Hsp. cbn [mbind option_bind].
  set (sp0 := sp <| pending := [] |> <| completion_pending := [] |> <| free_pool := [] |> <| unlimited_pending := [] |>).
  change (chain sp0) with (chain sp). change (p_phys sp0) with (p_phys sp). unfold qed_chain_get_capacity. rewrite (sc_cap _ (sa_chain _ _ _ _ A)).
  destruct (pool_loop_spec sizeof (p_phys sp + offs) (Z.to_nat SPQ_RING_SIZE) 0 sp0 (f_w h)) as (sp1 & w1 & E & Es & Em & Ew & HEm); try done.
  { intros j Hj. rewrite HE. unfold pool_entries. rewrite seq_map_lookup, decide_True by lia. by eexists. }
  rewrite Z.mul_0_r, Z.add_0_r in E. rewrite E. cbn [mbind option_bind]. rewrite Ew, Es.
  destruct (db_add_total _ _ p_db DB_REC_WIDTH_32B DB_REC_KERNEL Hdb) as (rc & cdev & Ea).
  match goal with |- context [qed_db_recovery_add (f_dev h) ?a _ _ _] => change a with (w_doorbells (f_w h) + DB_ADDR cid_ DQ_DEMS_LEGACY) end.
  rewrite Ea. cbn [mbind option_bind]. do 2 eexists. split; [reflexivity|]. split; [reflexivity|].
  destruct (reset_tx (w_mem (f_w h)) (chain sp) _ (sa_geom _ _ _ _ A) W ltac:(by rewrite U)) as [R Hcfg].
  split_and!; try done.
  - eapply alloced_cfg; [exact Hcfg|reflexivity..|exact A].
  - by exists rc.
  - eapply fresh_sys_ok; try reflexivity; try done.
    + intros j. cbn [f_w w_ents]. change (Em !! j = if decide (j < Z.to_nat SPQ_RING_SIZE)%nat then Some (zero_entry <| elem := elem zero_entry <| data_ptr := pool_ptr sizeof (p_phys sp + offs) j |> |>) else None).
      rewrite HEm, HE. unfold pool_entries. rewrite seq_map_lookup. destruct (decide (j < Z.to_nat SPQ_RING_SIZE)%nat).
      * rewrite decide_True by lia. done.
      * rewrite decide_False by lia. done.
    + apply (sa_base _ _ _ _ A).
    + simpl. eapply spq_chain_cfg; [exact Hcfg|apply A].
    + simpl. by apply ring_tx.
Qed.

Lemma spq_free_spec sizeof p_db h sp L :
  w_spq (f_w h) = Some sp -> spq_alloced sizeof L sp (w_mem (f_w h)) ->
  db_find_ok (f_dev h) (w_doorbells (f_w h) + db_addr_offset sp) ->
  exists h', qed_spq_free sizeof p_db false h = Some h' /\ live (w_mem (f_w h')) = L /\ f_structs h' = f_structs h - 1 /\ w_spq (f_w h') = None.
Proof.
  intros Hsp [C G Hps Hb Hp Hl] Hdb. unfold qed_spq_free. rewrite Hsp. destruct (db_del_total _ _ p_db Hdb) as (rc & cdev & ->).
  cbn [mbind option_bind]. replace (p_virt sp =? 0) with false by (symmetry; apply Z.eqb_neq; lia).
  unfold qed_chain_get_capacity. rewrite (sc_cap _ C). cbn [f_w]. change (w_mem (f_w (h <| f_dev := cdev |>))) with (w_mem (f_w h)).
  unfold dma_free_coherent. rewrite Hl, lookup_insert_eq, !Z.eqb_refl. cbn [andb mbind option_bind].
  match goal with |- context [qed_chain_free (chain sp) ?m] =>
    destruct (free_single (chain sp) m (p_virt_addr (chain sp)) (p_phys_addr (chain sp)) (sc_mode _ C) eq_refl ltac:(lia) eq_refl) as (c' & m' & E & El) end.
  { simpl. rewrite delete_insert_id; [by rewrite lookup_insert_eq, Hps|]. rewrite lookup_insert_ne by lia. apply Hp. }
  rewrite E. cbn [mbind option_bind]. eexists. split; [reflexivity|]. split_and!; try done. simpl. rewrite El. simpl.
  rewrite delete_insert_id by (rewrite lookup_insert_ne by lia; apply Hp). apply delete_insert_id, Hb.
Qed.
