(* ===== verification/SpqProps.v ===== *)
(** * Properties of the slow path queue and the event queue

    What the clients of the SPQ rely on, for every orderly interleaving of the
    threads that use it, with concrete runs from a freshly set-up queue, and what
    the enabled steps out of that order do. *)

From S2P Require Import Prelude Dma Chain ChainRing ChainAlloc ChainProps DbRec Spq SpqRing SpqInv SpqPost SpqComp SpqRun SpqSetup SpqReady.

(** ** Runs *)

(** The states an orderly run of the threads can reach. *)
Inductive spq_reach (s0 : spq_sys) : spq_sys -> Prop :=
  | reach_refl : spq_reach s0 s0
  | reach_step s o s' : spq_reach s0 s -> allowed o s -> exec o s = Some s' -> spq_reach s0 s'.

Lemma reach_ok base dp s0 s : sys_ok base dp s0 -> spq_reach s0 s -> sys_ok base dp s.
Proof.
  intros H0 R. induction R as [|s o s' R IH A E]; [done|]. destruct (step_safe base dp o s IH A) as (s2 & E2 & H2). congruence.
Qed.

Fixpoint exec_ops (ops : list spq_op) (s : spq_sys) : option spq_sys :=
  match ops with [] => Some s | o :: ops => s ← exec o s; exec_ops ops s end.

(** Who may hold an entry. *)
Definition owned_once (s : spq_sys) (sp : qed_spq) : Prop :=
  NoDup (linked sp) /\
  (forall e, e ∈ s_clients s -> e ∉ linked sp /\ e ∉ s_callbacks s /\ e ∉ s_wakes s /\ e ∉ s_waiting s) /\
  (forall e, e ∈ s_callbacks s -> e ∉ linked sp /\ e ∉ s_wakes s /\ e ∉ s_waiting s) /\
  (forall e, e ∈ s_wakes s -> e ∉ linked sp) /\
  (forall e, Z.of_nat e < SPQ_RING_SIZE -> e ∈ linked sp \/ e ∈ s_clients s \/ e ∈ s_callbacks s \/ e ∈ s_wakes s \/
     exists v x, v ∈ s_waiting s /\ w_ents (s_w s) !! v = Some x /\ stand_in x v = Some e /\ done (comp_done x) = 1).

Lemma inv_owned_once base dp s : sys_ok base dp s -> exists sp, w_spq (s_w s) = Some sp /\ owned_once s sp.
Proof.
  intros (P & (n & k & seqs & sp & I) & R). exists sp. split; [apply I|]. pose proof (si_lists _ _ _ _ _ _ _ _ I) as L.
  assert (Lk : forall e p, P !! e = Some p -> ~ list_place p -> e ∉ linked sp).
  { intros e p He Hp Hin. apply (linked_place I) in Hin as (p' & He' & Hp'). congruence. }
  assert (Nw : forall e p, P !! e = Some p -> quiet_place p -> p <> PUnl -> e ∉ s_waiting s).
  { intros e p He Hq Hu Hin. apply (R e) in Hin. by eapply not_waiting in Hin. }
  split_and!.
  - destruct L as [(N1 & N2 & N3 & N4) L1 L2 L3 L4]. unfold linked. apply list.NoDup_app. split_and!; [done| |].
    { intros e He. rewrite !elem_of_app, L2, L3, L4. apply L1 in He. rewrite He. naive_solver. }
    apply list.NoDup_app. split_and!; [done| |].
    { intros e He. rewrite !elem_of_app, L3, L4. apply L2 in He. rewrite He. naive_solver. }
    apply list.NoDup_app. split_and!; [done| |done]. intros e He. rewrite L4. apply L3 in He. rewrite He. done.
  - intros e He. destruct (R e) as (R1 & R2 & R3 & _). rewrite R1 in He. rewrite R2, R3, He. split_and!; try done.
    + eapply Lk; [exact He|apply not_list; tauto].
    + eapply Nw; [exact He|unfold quiet_place; tauto|done].
  - intros e He. destruct (R e) as (R1 & R2 & R3 & _). rewrite R2 in He. rewrite R3, He. split_and!; try done.
    + eapply Lk; [exact He|apply not_list; tauto].
    + eapply Nw; [exact He|unfold quiet_place; tauto|done].
  - intros e He. destruct (R e) as (_ & _ & R3 & _). rewrite R3 in He. eapply Lk; [exact He|apply not_list; tauto].
  - intros e Hi. destruct (po_pool _ _ _ _ (si_places _ _ _ _ _ _ _ _ I) e Hi) as [p Hp]. destruct (R e) as (R1 & R2 & R3 & _).
    destruct (entry_at I e p Hp) as [x Hx]. pose proof (po_ent _ _ _ _ (si_places _ _ _ _ _ _ _ _ I) e p x Hp Hx) as Ok.
    destruct p; try (left; apply (linked_place I); eexists; split; [exact Hp|unfold list_place; tauto]).
    + right. left. by apply R1.
    + right. right. left. by apply R2.
    + do 3 right. left. by apply R3.
    + do 4 right. destruct Ok as (_ & Hb & v & Hc & (y & Hy & Hw) & (y' & Hy' & Hd)). rewrite Hy in Hy'. injection Hy' as <-.
      exists v, y. assert (Hst : stand_in y v = Some e).
      { unfold stand_in. destruct Hw as [[-> ->]|[Hpr Hpo]]; [done|].
        destruct (po_ent _ _ _ _ (si_places _ _ _ _ _ _ _ _ I) v _ y Hpr Hy) as (_ & -> & _). done. }
      split_and!; try done. destruct (R v) as (_ & _ & _ & R4). apply R4.
      destruct Hw as [[-> Hq]|[Hpr Hpo]].
      * exists PDone, x. unfold posted. split_and!; try done. tauto.
      * destruct (po_ent _ _ _ _ (si_places _ _ _ _ _ _ _ _ I) v _ y Hpr Hy) as (_ & _ & B & C & _). exists PProxy, y. split_and!; try done. tauto.
    + destruct Ok as (Hn & _). done.
Qed.

(** C1: in every orderly interleaving of clients, completions and wake-ups,
    whatever echoes the firmware completes, no operation of the slow path queue
    faults (no entry is linked twice, unlinked while on no list, freed while in
    use or reached through NULL); an entry is on at most one list, or held by
    exactly one thread, and no entry of the pool is ever lost.  Orderly
    ([allowed] = [enabled] and [orderly]): no recovery is in progress when a
    client posts or stops waiting; a woken client returns its entry after the
    completion that woke it has tested [comp_mode]; a wait that ends with an
    error does so while the entry posted for the client is in
    [completion_pending]; and the clean-up after the wait, [kfree] included, is
    one step.  The code enforces none of these:
    [late_mode_test_returns_reused_entry], [timeout_before_posting_faults] and
    [timeout_after_completion_faults] below are enabled runs that break the
    property. *)
Theorem spq_runs_safe base dp s0 s :
  sys_ok base dp s0 -> spq_reach s0 s ->
  (forall o, allowed o s -> exists s', exec o s = Some s') /\
  exists sp, w_spq (s_w s) = Some sp /\ owned_once s sp.
Proof.
  intros H0 R. pose proof (reach_ok _ _ _ _ H0 R) as H. split; [|by eapply inv_owned_once].
  intros o A. destruct (step_safe base dp o s H A) as (s' & E & _). eauto.
Qed.

Lemma nodup_range (l : list Z) k n : NoDup l -> (forall q, q ∈ l -> k <= q < n) -> k <= n -> Z.of_nat (length l) <= n - k.
Proof.
  intros ND H Hkn. assert (S : l ⊆+ (fun i => k + Z.of_nat i) <$> seq 0 (Z.to_nat (n - k))).
  { apply NoDup_submseteq; [done|]. intros q Hq. specialize (H q Hq). apply list_elem_of_fmap. exists (Z.to_nat (q - k)). split; [lia|].
    apply elem_of_seq. lia. }
  apply submseteq_length in S. rewrite length_fmap, length_seq in S. lia.
Qed.

(** The slot of the ring an entry in flight was written to. *)
Definition slot_of (base : Z) (x : qed_spq_entry) : Z := spq_slot base (hdr_echo (elem x)).

(** C5: in every state an orderly run reaches (the steps of [allowed]: a client
    returns its entry after the completion's mode test, gives up only while its
    entry is in [completion_pending], and there is no recovery) the requests in flight
    (at most 255) have pairwise different echoes, and each one's element, as its entry holds it, is
    intact in a slot of its own within the page of the ring, in whatever order
    the firmware completed the requests before. *)
Theorem spq_in_flight_intact base dp s0 s :
  sys_ok base dp s0 -> spq_reach s0 s ->
  exists sp, w_spq (s_w s) = Some sp /\ Z.of_nat (length (completion_pending sp)) < SPQ_RING_SIZE /\
    (forall e, e ∈ completion_pending sp -> exists x, w_ents (s_w s) !! e = Some x /\
       w_ring (s_w s) !! slot_of base x = Some (elem x) /\
       base <= slot_of base x /\ slot_of base x + sizeof_slow_path_element <= base + CORE_SPQE_PAGE_SIZE_BYTES) /\
    (forall e e' x x', e ∈ completion_pending sp -> e' ∈ completion_pending sp -> e <> e' ->
       w_ents (s_w s) !! e = Some x -> w_ents (s_w s) !! e' = Some x' ->
       hdr_echo (elem x) <> hdr_echo (elem x') /\
       (slot_of base x + sizeof_slow_path_element <= slot_of base x' \/ slot_of base x' + sizeof_slow_path_element <= slot_of base x)).
Proof.
  intros H0 R. destruct (reach_ok _ _ _ _ H0 R) as (P & (n & k & seqs & sp & I) & _). exists sp. split; [apply I|].
  pose proof (si_ring _ _ _ _ _ _ _ _ I) as Rg. pose proof (ro_range _ _ _ _ _ _ Rg) as [Hk Hnk].
  pose proof (Z.mod_pos_bound) as Hmod.
  assert (Hslot : forall e, e ∈ completion_pending sp -> exists q x, k <= q < n /\ w_ents (s_w s) !! e = Some x /\
    hdr_echo (elem x) = u16 q /\ slot_of base x = spq_slot base q /\ w_ring (s_w s) !! spq_slot base q = Some (elem x)).
  { intros e He. apply list_elem_of_lookup in He as [i Hi].
    destruct (Forall2_lookup_l _ _ _ _ _ (ro_slots _ _ _ _ _ _ Rg) Hi) as (q & _ & Hq & x & Hx & Hec & Hs).
    exists q, x. split_and!; try done; try lia. unfold slot_of, spq_slot. by rewrite Hec, u16_ring. }
  split_and!.
  - rewrite (Forall2_length (ro_slots _ _ _ _ _ _ Rg)).
    pose proof (nodup_range seqs k n (ro_nodup _ _ _ _ _ _ Rg) (seqs_range _ _ _ _ _ _ Rg) ltac:(lia)). lia.
  - intros e He. destruct (Hslot e He) as (q & x & Hq & Hx & _ & Es & Hs). exists x. rewrite Es. split_and!; try done;
      unfold spq_slot, sizeof_slow_path_element, CORE_SPQE_PAGE_SIZE_BYTES; specialize (Hmod q SPQ_RING_SIZE ltac:(done)); rewrite ring_size in *; lia.
  - intros e e' x x' He He' Hne Hx Hx'. destruct (Hslot e He) as (q & y & Hq & Hy & Ey & Es & _), (Hslot e' He') as (q' & y' & Hq' & Hy' & Ey' & Es' & _).
    assert (y = x) as -> by congruence. assert (y' = x') as -> by congruence. rewrite Es, Es'.
    assert (Hech : hdr_echo (elem x) <> hdr_echo (elem x')).
    { intros E. apply Hne. eapply (in_flight_unique _ _ _ _ _ _ _ _ (hdr_echo (elem x)) e x e' x' I); split_and!; done. }
    split; [done|]. assert (Hq12 : q mod SPQ_RING_SIZE <> q' mod SPQ_RING_SIZE).
    { intros E. apply mod_ring_inj in E; [|lia]. congruence. }
    unfold spq_slot, sizeof_slow_path_element. lia.
Qed.

(** ** Completions *)

Section Completion.
Context (client_cb : Z -> cookie_ptr -> Z -> Z -> spq_world -> option spq_world).
Context {base : Z} {dp : nat -> regpair} {P : gmap nat place} {n k : Z} {seqs : list Z} {w : spq_world} {sp : qed_spq}.
Hypothesis I : spq_inv base dp P n k seqs w sp.

Lemma completion_unknown ec fw data :
  (forall e x, ~ in_flight w sp ec e x) -> qed_spq_completion client_cb w ec fw data = Some (- EEXIST, w).
Proof.
  intros H. unfold qed_spq_completion. destruct (completion_take_spec _ _ _ _ ec _ _ _ _ I) as (rc & found & w' & -> & _ & _ & Hf).
  cbn [mbind option_bind]. destruct found as [e|].
  - destruct Hf as (_ & x & _ & _ & _ & Hfl & _). by apply H in Hfl.
  - destruct Hf as ([(-> & -> & _)|(_ & e & x & Hfl & _)] & _); [done|]. by apply H in Hfl.
Qed.

(** What taking the completion of [e] leaves. *)
Lemma completion_found ec e x :
  in_flight w sp ec e x -> drop_next_completion sp = false \/ ~ blocks x ->
  exists w' k' seqs' sp', completion_take w ec = Some (0, Some e, w') /\ w_ents w' = w_ents w /\ P !! e = Some PComp /\
    (forall i, i ∈ completion_pending sp' <-> i <> e /\ i ∈ completion_pending sp) /\
    spq_inv base dp (<[e := taken x]> P) n k' seqs' w' sp'.
Proof.
  intros Hfl Hd. destruct (completion_take_spec _ _ _ _ ec _ _ _ _ I) as (rc & found & w' & -> & _ & Ee & Hf). destruct found as [e'|].
  - destruct Hf as (-> & x' & k' & seqs' & sp' & Hfl' & He & Hcp & _ & I').
    assert (e' = e) as -> by (eapply in_flight_unique; [exact I|exact Hfl'|exact Hfl]). destruct Hfl as (_ & Hx & _), Hfl' as (_ & Hx' & _). assert (x' = x) as -> by congruence.
    exists w', k', seqs', sp'. done.
  - exfalso. destruct Hf as ([(_ & _ & Hn)|(_ & e' & x' & Hfl' & Hb & Hdr)] & _); [by apply Hn in Hfl|].
    assert (e' = e) as -> by (eapply in_flight_unique; [exact I|exact Hfl'|exact Hfl]). destruct Hfl as (_ & Hx & _), Hfl' as (_ & Hx' & _). assert (x' = x) as -> by congruence.
    destruct Hd as [Hd|Hd]; [congruence|done].
Qed.

Lemma completion_wakes ec fw data e x :
  in_flight w sp ec e x -> drop_next_completion sp = false -> blocks x ->
  exists v y w' sp', cb_cookie x = CkEntry v /\ w_ents w !! v = Some y /\ waiting P (w_ents w) v /\
    qed_spq_completion client_cb w ec fw data = Some (0, w') /\ w_ents w' = <[v := woken y fw]> (w_ents w) /\
    w_spq w' = Some sp' /\ (forall i, i ∈ completion_pending sp' <-> i <> e /\ i ∈ completion_pending sp) /\
    Inv base dp (<[e := PDone]> P) w'.
Proof.
  intros Hfl Hd Hb. destruct (completion_found ec e x Hfl ltac:(by left)) as (w1 & k' & seqs' & sp' & E & Ee & He & Hcp & I').
  unfold taken in I'. rewrite decide_True in I' by done. pose proof Hfl as (_ & Hx & _).
  destruct (wake_spec base dp (<[e := PWake]> P) w1 e x fw) as (v & y & w2 & Hf & Hc & Hy & Ew & Eb & En & I2 & Hwt).
  { by exists n, k', seqs', sp'. }
  { by rewrite lookup_insert_eq. }
  { by rewrite Ee. }
  exists v, y, w2, sp'. rewrite Ee in Hy. split_and!; try done.
  - destruct Hwt as (p & z & Hp & Hz & Hbz & Hcz & Hpl). rewrite Ee in Hz. destruct (decide (v = e)) as [->|Hne].
    + exists PComp, z. unfold posted. split_and!; try done. tauto.
    + rewrite lookup_insert_ne in Hp by done. exists p, z. split_and!; done.
  - unfold qed_spq_completion. rewrite E. cbn [mbind option_bind]. rewrite Ee, Hx. cbn [mbind option_bind].
    unfold call_comp_cb. rewrite Hf, Eb. cbn [mbind option_bind]. rewrite En. done.
  - rewrite Ew. simpl. by rewrite Ee.
  - rewrite Ew. apply I'.
  - by rewrite insert_insert_eq in I2.
Qed.

Lemma completion_block ec fw data e x a :
  in_flight w sp ec e x -> comp_mode x = QED_SPQ_MODE_BLOCK -> cb_cookie x = CkMem a ->
  exists w' sp', qed_spq_completion client_cb w ec fw data = Some (0, w') /\ w_ents w' = w_ents w /\
    w_done w' !! a = Some (mk_qed_spq_comp_done 1 fw) /\ w_spq w' = Some sp' /\ e ∈ free_pool sp' /\ Inv base dp (<[e := PFree]> P) w'.
Proof.
  intros Hfl Hm Hc. assert (Hnb : ~ blocks x) by (unfold blocks; by rewrite Hm).
  destruct (completion_found ec e x Hfl ltac:(by right)) as (w1 & k' & seqs' & sp' & E & Ee & He & _ & I').
  unfold taken in I'. rewrite decide_False in I' by done. pose proof Hfl as (_ & Hx & _).
  assert (Hf : cb_function x = FnBlocking).
  { destruct (po_ent _ _ _ _ (si_places _ _ _ _ _ _ _ _ I) e _ x He Hx) as (_ & [_ Hf] & _). apply Hf. by rewrite Hm. }
  set (w2 := w1 <| w_done := <[a := mk_qed_spq_comp_done 1 fw]> (w_done w1) |>).
  assert (I2 : spq_inv base dp (<[e := PCallback]> P) n k' seqs' w2 sp') by by eapply inv_world.
  assert (Hi : in_pool e) by (eapply (pool_entry I); [exact He|exact Hx|tauto]).
  destruct (inv_return _ _ _ _ _ _ _ _ e PCallback I2) as (w3 & sp3 & Er & _ & Ee3 & I3); [by rewrite lookup_insert_eq|tauto|done|].
  rewrite insert_insert_eq in I3. exists w3, sp3. split_and!.
  - unfold qed_spq_completion. rewrite E. cbn [mbind option_bind]. rewrite Ee, Hx. cbn [mbind option_bind].
    unfold call_comp_cb. rewrite Hf, Hc. cbn [qed_spq_blocking_cb mbind option_bind]. fold w2.
    unfold completion_end. change (w_ents w2) with (w_ents w1). rewrite Ee, Hx. cbn [mbind option_bind]. rewrite Hm.
    change (negb (QED_SPQ_MODE_BLOCK =? QED_SPQ_MODE_EBLOCK)) with true. cbn iota. by rewrite Er.
  - rewrite Ee3. exact Ee.
  - unfold qed_spq_return_entry in Er. rewrite (si_spq _ _ _ _ _ _ _ _ I2) in Er. cbn [mbind option_bind] in Er.
    destruct (may_link w2 sp' e); [|done]. injection Er as <-. simpl. by rewrite lookup_insert_eq.
  - apply I3.
  - apply (lo_free _ _ (si_lists _ _ _ _ _ _ _ _ I3)). by rewrite lookup_insert_eq.
  - by exists n, k', seqs', sp3.
Qed.
End Completion.

(** C19: a completion finds its request by the echo alone: an echo no request in
    flight has is refused with -EEXIST and changes nothing; the completion of a
    request whose client waits sets exactly that client's completion word, with
    the firmware's return code, and takes the request out of flight; one of a
    request in BLOCK mode sets the word its cookie names and returns the entry
    to the pool. *)
Theorem spq_completion_exact client_cb base dp s0 s ec fw data :
  sys_ok base dp s0 -> spq_reach s0 s ->
  exists sp, w_spq (s_w s) = Some sp /\
  ((forall e x, ~ in_flight (s_w s) sp ec e x) -> qed_spq_completion client_cb (s_w s) ec fw data = Some (- EEXIST, s_w s)) /\
  (forall e x, in_flight (s_w s) sp ec e x -> blocks x -> drop_next_completion sp = false ->
     exists v y w' sp', cb_cookie x = CkEntry v /\ v ∈ s_waiting s /\ w_ents (s_w s) !! v = Some y /\
       qed_spq_completion client_cb (s_w s) ec fw data = Some (0, w') /\
       w_ents w' = <[v := y <| comp_done := mk_qed_spq_comp_done 1 fw |>]> (w_ents (s_w s)) /\
       w_spq w' = Some sp' /\ (forall i, i ∈ completion_pending sp' <-> i <> e /\ i ∈ completion_pending sp)) /\
  (forall e x a, in_flight (s_w s) sp ec e x -> comp_mode x = QED_SPQ_MODE_BLOCK -> cb_cookie x = CkMem a ->
     exists w' sp', qed_spq_completion client_cb (s_w s) ec fw data = Some (0, w') /\
       w_done w' !! a = Some (mk_qed_spq_comp_done 1 fw) /\ w_spq w' = Some sp' /\ e ∈ free_pool sp').
Proof.
  intros H0 R. destruct (reach_ok _ _ _ _ H0 R) as (P & (n & k & seqs & sp & I) & Ro). exists sp. split_and!.
  - apply I.
  - intros H. by apply (completion_unknown _ I).
  - intros e x Hfl Hb Hd. destruct (completion_wakes client_cb I ec fw data e x Hfl Hd Hb) as (v & y & w' & sp' & Hc & Hy & Hwt & E & Ee & Hs & Hcp & _).
    exists v, y, w', sp'. split_and!; try done. by apply (Ro v).
  - intros e x a Hfl Hm Hc. destruct (completion_block client_cb I ec fw data e x a Hfl Hm Hc) as (w' & sp' & E & _ & Hd & Hs & Hf & _).
    exists w', sp'. done.
Qed.

(** [qed_spq_post] never fails to queue a request a client holds: the
    locked part returns 0 and asks the client to wait exactly in EBLOCK mode.
    Afterwards every request that can be posted is: none waits for a pool entry
    while the pool has one, and none is pending while the ring has more room
    than the reserve. *)
Theorem spq_post_drains base dp s0 s e :
  sys_ok base dp s0 -> spq_reach s0 s -> e ∈ s_clients s ->
  exists x w' sp', w_ents (s_w s) !! e = Some x /\
    post_locked (s_w s) e = Some (0, comp_mode x =? QED_SPQ_MODE_EBLOCK, w') /\ w_spq w' = Some sp' /\
    (free_pool sp' = [] \/ unlimited_pending sp' = []) /\
    (pending sp' = [] \/ qed_chain_get_elem_left (chain sp') = SPQ_HIGH_PRI_RESERVE_DEFAULT).
Proof.
  intros H0 R He. destruct (reach_ok _ _ _ _ H0 R) as (P & I & Ro). apply (Ro e) in He. pose proof I as (n0 & k0 & seqs0 & sp0 & I0).
  destruct (entry_at I0 e _ He) as [x Hx].
  destruct (post_locked_spec _ _ _ _ _ _ I He Hx) as (w' & P' & n & k & seqs & sp & E & I' & [D1 D2] & _).
  exists x, w', sp. split_and!; try done; [apply I'|]. by rewrite (elem_left_spq _ _ _ _ _ _ (si_ring _ _ _ _ _ _ _ _ I')).
Qed.

(** The pending list is posted in order: [qed_spq_post_list] with a reserve
    [r] moves a prefix of the list to the end of the completion list, of the
    length of the list or of the room the ring has above the reserve. *)
Theorem spq_post_list_fifo base dp s0 s r :
  sys_ok base dp s0 -> spq_reach s0 s -> 1 <= r ->
  exists sp w' sp' m, w_spq (s_w s) = Some sp /\ qed_spq_post_list (s_w s) r = Some (0, w') /\ w_spq w' = Some sp' /\
    m = Nat.min (length (pending sp)) (Z.to_nat (qed_chain_get_elem_left (chain sp) - r)) /\
    pending sp' = drop m (pending sp) /\ completion_pending sp' = completion_pending sp ++ take m (pending sp) /\
    qed_chain_get_elem_left (chain sp') = qed_chain_get_elem_left (chain sp) - Z.of_nat m.
Proof.
  intros H0 R Hr. destruct (reach_ok _ _ _ _ H0 R) as (P & (n & k & seqs & sp & I) & _).
  destruct (post_loop_spec base dp r Hr _ _ _ _ _ _ _ I eq_refl) as (w' & sp' & P' & seqs' & E & I' & _ & _ & Ep & Ec & _).
  exists sp, w', sp'. eexists. split_and!; [apply I| |apply I'|reflexivity|..].
  - unfold qed_spq_post_list. rewrite (si_spq _ _ _ _ _ _ _ _ I). exact E.
  - rewrite (elem_left_spq _ _ _ _ _ _ (si_ring _ _ _ _ _ _ _ _ I)). replace (Z.to_nat _) with (post_room r n k) by (unfold post_room; lia). exact Ep.
  - rewrite (elem_left_spq _ _ _ _ _ _ (si_ring _ _ _ _ _ _ _ _ I)). replace (Z.to_nat _) with (post_room r n k) by (unfold post_room; lia). exact Ec.
  - rewrite (elem_left_spq _ _ _ _ _ _ (si_ring _ _ _ _ _ _ _ _ I)), (elem_left_spq _ _ _ _ _ _ (si_ring _ _ _ _ _ _ _ _ I')).
    replace (Z.to_nat _) with (post_room r n k) by (unfold post_room; lia). lia.
Qed.

(** ** The event queue *)

Section EventQueue.
Context (client_cb : Z -> cookie_ptr -> Z -> Z -> spq_world -> option spq_world).
Context (async_cb : Z -> event_ring_entry -> spq_world -> option (Z * spq_world)).
Context (iov_async_event_completion : event_ring_entry -> spq_world -> option (Z * spq_world)).

(** The memory of the event queue belongs to the firmware: callbacks leave it. *)
Definition keeps (w w' : spq_world) : Prop := w_mem w' = w_mem w /\ w_eqes w' = w_eqes w.
Hypothesis client_keeps : forall f ck d r w w', client_cb f ck d r w = Some w' -> keeps w w'.
Hypothesis async_keeps : forall f e w rc w', async_cb f e w = Some (rc, w') -> keeps w w'.
Hypothesis iov_keeps : forall e w rc w', iov_async_event_completion e w = Some (rc, w') -> keeps w w'.

Lemma keeps_trans w1 w2 w3 : keeps w1 w2 -> keeps w2 w3 -> keeps w1 w3.
Proof. intros [A B] [C D]. split; congruence. Qed.

Lemma take_keeps w ec rc f w' : completion_take w ec = Some (rc, f, w') -> keeps w w'.
Proof.
  unfold completion_take. destruct (w_spq w) as [sp|]; [|by intros [= <- <- <-]].
  destruct (find_echo _ _ _) as [[e|]|]; cbn [mbind option_bind]; [|by intros [= <- <- <-]|done].
  destruct (w_ents w !! e); cbn [mbind option_bind]; [|done]. destruct (_ && _); [by intros [= <- <- <-]|].
  destruct (list_del _ _ _); cbn [mbind option_bind]; [|done]. destruct (qed_spq_comp_bmap_update _ _); cbn [mbind option_bind]; [|done].
  by intros [= <- <- <-].
Qed.

Lemma call_keeps w x fw d w' : call_comp_cb client_cb w x fw d = Some w' -> keeps w w'.
Proof.
  unfold call_comp_cb, qed_spq_blocking_cb. destruct (cb_function x) as [| |f]; [by intros [= <-]| |by apply client_keeps].
  destruct (cb_cookie x); [|by intros [= <-]]. destruct (w_ents w !! e); cbn [mbind option_bind]; [|done]. by intros [= <-].
Qed.

Lemma end_keeps w e w' : completion_end w e = Some w' -> keeps w w'.
Proof.
  unfold completion_end, qed_spq_return_entry. destruct (w_ents w !! e); cbn [mbind option_bind]; [|done].
  destruct (negb _); [|by intros [= <-]]. destruct (w_spq w); cbn [mbind option_bind]; [|done]. destruct (may_link _ _ _); [|done]. by intros [= <-].
Qed.

Lemma completion_keeps w ec fw d rc w' : qed_spq_completion client_cb w ec fw d = Some (rc, w') -> keeps w w'.
Proof.
  unfold qed_spq_completion. destruct (completion_take w ec) as [[[rc1 f] w1]|] eqn:E; cbn [mbind option_bind]; [|done].
  apply take_keeps in E. destruct f as [e|]; [|by intros [= <- <-]]. destruct (w_ents w1 !! e) as [x|]; cbn [mbind option_bind]; [|done].
  destruct (call_comp_cb _ _ _ _ _) as [w2|] eqn:E2; cbn [mbind option_bind]; [|done]. apply call_keeps in E2.
  destruct (completion_end w2 e) as [w3|] eqn:E3; cbn [mbind option_bind]; [|done]. apply end_keeps in E3. intros [= <- <-].
  by eapply keeps_trans, keeps_trans.
Qed.

Lemma dispatch_keeps is_pf w e w' :
  eq_dispatch client_cb async_cb iov_async_event_completion is_pf w e = Some w' -> keeps w w'.
Proof.
  unfold eq_dispatch. destruct (Z.testbit (eqe_flags e) 0).
  - unfold qed_async_event_completion. destruct (_ <=? _); [by intros [= <-]|].
    match goal with |- context [if ?b then _ else _] => destruct b end.
    + destruct (iov_async_event_completion e w) as [[rc w1]|] eqn:E; cbn [mbind option_bind]; [|done]. intros [= <-]. by eapply iov_keeps.
    + destruct (w_spq w); cbn [mbind option_bind]; [|done]. destruct (async_comp_cb _ !! _) as [[f|]|]; cbn [mbind option_bind]; [|by intros [= <-]|done].
      destruct (async_cb f e w) as [[rc w1]|] eqn:E; cbn [mbind option_bind]; [|done]. intros [= <-]. by eapply async_keeps.
  - destruct (qed_spq_completion _ _ _ _ _) as [[rc w1]|] eqn:E; cbn [mbind option_bind]; [|done]. intros [= <-]. by eapply completion_keeps.
Qed.

(** The events of a segment of the queue, handled one after the other. *)
Fixpoint dispatch_all (is_pf : bool) (evs : list event_ring_entry) (w : spq_world) : option spq_world :=
  match evs with
  | [] => Some w
  | e :: evs => w ← eq_dispatch client_cb async_cb iov_async_event_completion is_pf w e; dispatch_all is_pf evs w
  end.

(** The event queue's chain: a page table of 16-bit indices, at addresses that
    are not NULL. *)
Record eq_ring (m : dma_mem) (c : qed_chain) (pages : list Z) (n k : Z) : Prop := {
  er_rx : rx_at m c pages n k;
  er_u16 : cnt_type c = QED_CHAIN_CNT_TYPE_U16;
  er_dense : elem_unusable c = 0;
  er_addr : forall i, 0 <= i -> slot_addr c pages i <> 0;
  er_pos : 0 <= n /\ 0 <= k
}.

Lemma eq_ring_cfg m m' c c' pages n k n' k' :
  eq_ring m c pages n k -> cfg c' = cfg c -> rx_at m' c' pages n' k' -> 0 <= n' -> 0 <= k' -> eq_ring m' c' pages n' k'.
Proof.
  intros [_ U D A _] Hc R Hn Hk. pose proof (f_equal cnt_type Hc) as E1. pose proof (f_equal elem_unusable Hc) as E2.
  split; try done; [by rewrite <- U|by rewrite <- D|]. intros i Hi. rewrite (slot_addr_cfg c' c) by done. by apply A.
Qed.

Lemma eq_indices m c pages n k : eq_ring m c pages n k ->
  qed_chain_get_cons_idx c = u16 k /\ qed_chain_get_prod_idx c = u16 n.
Proof.
  intros [[G W Pr Co] U D A _]. assert (Hw : is_chain_u16 c = true) by (unfold is_chain_u16; by rewrite bool_decide_true).
  unfold cons_side, side_at in Co. destruct Co as [Co _]. unfold idx_cons, idx_prod, wrapw, width in *. rewrite Hw in *.
  rewrite lazy_idx_dense in Co, Pr by (try apply G; done). done.
Qed.

Lemma eq_loop_spec is_pf evs : forall fuel c pages n k w w1,
  eq_ring (w_mem w) c pages n k -> Z.of_nat (length evs) < 2 ^ 16 -> (length evs < fuel)%nat ->
  (forall i ev, evs !! i = Some ev -> w_eqes w !! slot_addr c pages (k + Z.of_nat i) = Some ev) ->
  dispatch_all is_pf evs w = Some w1 ->
  exists c', eq_loop client_cb async_cb iov_async_event_completion fuel is_pf (u16 (k + Z.of_nat (length evs))) c w = Some (c', w1) /\
    eq_ring (w_mem w1) c' pages (n + Z.of_nat (length evs)) (k + Z.of_nat (length evs)) /\ w_mem w1 = w_mem w.
Proof.
  induction evs as [|ev evs IH]; intros [|fuel] c pages n k w w1 R Hl Hf Hev Hd; try (simpl in Hf; lia).
  - injection Hd as <-. exists c. cbn [eq_loop length Z.of_nat]. destruct (eq_indices _ _ _ _ _ R) as [-> _].
    rewrite !Z.add_0_r, Z.eqb_refl. done.
  - cbn [dispatch_all] in Hd. destruct (eq_dispatch _ _ _ _ _ _) as [w2|] eqn:E; [|done]. cbn [mbind option_bind] in Hd.
    pose proof (dispatch_keeps _ _ _ _ E) as [Em Ee]. pose proof (er_pos _ _ _ _ _ R) as [Hn Hk].
    cbn [eq_loop]. destruct (eq_indices _ _ _ _ _ R) as [-> _].
    replace (u16 (k + Z.of_nat (length (ev :: evs))) =? u16 k) with false.
    2: { symmetry. apply Z.eqb_neq. unfold u16. intros Heq. cbn [length] in *.
         pose proof (Z.div_mod (k + Z.of_nat (S (length evs))) (2 ^ 16) ltac:(lia)). pose proof (Z.div_mod k (2 ^ 16) ltac:(lia)).
         rewrite Heq in H. lia. }
    destruct (consume_rx _ _ _ _ _ (er_rx _ _ _ _ _ R) Hk) as (c1 & -> & R1 & C1). cbn [mbind option_bind].
    replace (slot_addr c pages k =? 0) with false by (symmetry; apply Z.eqb_neq, (er_addr _ _ _ _ _ R); done).
    pose proof (Hev 0%nat ev eq_refl) as He0. rewrite Z.add_0_r in He0. rewrite He0. cbn [mbind option_bind]. rewrite E. cbn [mbind option_bind].
    destruct (recycle_rx _ _ _ _ _ R1 Hn) as [R2 C2]. rewrite <- Em in R2.
    assert (Hcfg : cfg (qed_chain_recycle_consumed c1) = cfg c) by congruence.
    pose proof (eq_ring_cfg _ _ _ _ _ _ _ _ _ R Hcfg R2 ltac:(lia) ltac:(lia)) as R3.
    destruct (IH fuel _ pages (n + 1) (k + 1) w2 w1 R3) as (c' & E' & R' & Em'); [cbn [length] in Hl; lia|simpl in Hf; lia| |done|].
    { intros i e Hi. rewrite Ee, (slot_addr_cfg _ c) by done. replace (k + 1 + Z.of_nat i) with (k + Z.of_nat (S i)) by lia. by apply Hev. }
    exists c'. cbn [length]. replace (k + Z.of_nat (S (length evs))) with (k + 1 + Z.of_nat (length evs)) by lia.
    replace (n + Z.of_nat (S (length evs))) with (n + 1 + Z.of_nat (length evs)) by lia. split_and!; [done|done|congruence].
Qed.
End EventQueue.

(** C23: the event queue handler processes exactly the events between its
    consumer and the firmware's index (fewer than [2^16], through index
    wrap-around), once each and in order, returns as many elements to the
    firmware through the producer it writes, and then posts the requests that
    wait. *)
Theorem eq_completion_exact client_cb async_cb iov is_pf evs c pages n k w sp w1 :
  (forall f ck d r w w', client_cb f ck d r w = Some w' -> keeps w w') ->
  (forall f e w rc w', async_cb f e w = Some (rc, w') -> keeps w w') ->
  (forall e w rc w', iov e w = Some (rc, w') -> keeps w w') ->
  w_spq w = Some sp -> eq_ring (w_mem w) c pages n k -> Z.of_nat (length evs) < 2 ^ 16 ->
  (forall i ev, evs !! i = Some ev -> w_eqes w !! slot_addr c pages (k + Z.of_nat i) = Some ev) ->
  dispatch_all client_cb async_cb iov is_pf evs w = Some w1 ->
  exists c', eq_ring (w_mem w1) c' pages (n + Z.of_nat (length evs)) (k + Z.of_nat (length evs)) /\
    qed_eq_completion client_cb async_cb iov is_pf (u16 (k + Z.of_nat (length evs))) c w =
    ('(rc, w2) ← qed_spq_pend_post (qed_eq_prod_update w1 (u16 (n + Z.of_nat (length evs)))); Some (rc, c', w2)).
Proof.
  intros K1 K2 K3 Hsp R Hl Hev Hd.
  destruct (eq_loop_spec client_cb async_cb iov K1 K2 K3 is_pf evs eq_fuel c pages n k w w1 R Hl) as (c' & E & R' & _); [|done|done|].
  { unfold eq_fuel. lia. }
  exists c'. split; [done|]. unfold qed_eq_completion. rewrite Hsp. unfold qed_chain_get_unusable_per_page. rewrite (er_dense _ _ _ _ _ R), Z.add_0_r.
  assert (Ef : forall b : bool, (if b then u16 (u16 (k + Z.of_nat (length evs))) else u16 (k + Z.of_nat (length evs))) = u16 (k + Z.of_nat (length evs))).
  { intros []; [|done]. rewrite u16_small; [done|apply u16_bound]. }
  rewrite Ef, E. cbn [mbind option_bind]. destruct (eq_indices _ _ _ _ _ R') as [_ ->]. done.
Qed.

(** ** From allocation to release *)

(** [qed_spq_alloc] always returns; when it fails, it has given back the
    ring, the pool and the structure.  After it succeeded, [qed_spq_setup]
    brings the queue into an initial state of its runs and hands its doorbell to
    the recovery registry, and [qed_spq_free], after any use of the ring,
    releases exactly what was allocated. *)
Theorem spq_alloc_setup_free sizeof offs p_db dp_ctx cid_ h :
  w_ents (f_w h) = ∅ -> ~ in_pool (w_next (f_w h)) ->
  db_find_ok (f_dev h) (w_doorbells (f_w h) + DB_ADDR cid_ DQ_DEMS_LEGACY) ->
  exists rc h1, qed_spq_alloc sizeof dp_ctx false h = Some (rc, h1) /\
    (rc <> 0 -> rc = - ENOMEM /\ live (w_mem (f_w h1)) = live (w_mem (f_w h)) /\ f_structs h1 = f_structs h) /\
    (rc = 0 -> exists h2 sp base dp, qed_spq_setup sizeof offs p_db cid_ h1 = Some h2 /\ w_spq (f_w h2) = Some sp /\
       f_structs h2 = f_structs h + 1 /\ sys_ok base dp (mk_spq_sys (f_w h2) ∅ ∅ ∅ ∅ ∅) /\
       (exists rc, qed_db_recovery_add (f_dev h) (w_doorbells (f_w h) + db_addr_offset sp) p_db DB_REC_WIDTH_32B DB_REC_KERNEL = Some (rc, f_dev h2)) /\
       forall h3 sp3, w_spq (f_w h3) = Some sp3 -> cfg (chain sp3) = cfg (chain sp) -> p_virt sp3 = p_virt sp -> p_phys sp3 = p_phys sp ->
         w_mem (f_w h3) = w_mem (f_w h2) -> db_find_ok (f_dev h3) (w_doorbells (f_w h3) + db_addr_offset sp3) ->
         exists h4, qed_spq_free sizeof p_db false h3 = Some h4 /\ live (w_mem (f_w h4)) = live (w_mem (f_w h)) /\
           f_structs h4 = f_structs h3 - 1 /\ w_spq (f_w h4) = None).
Proof.
  intros HE Hnx Hdb. destruct (spq_alloc_spec sizeof dp_ctx h) as (rc & h1 & E & Ed & [(-> & Hl & Hs & _)|(-> & Hs & Hn & He & Hw & sp & Hsp & A & W & U)]);
    eexists _, h1; (split; [exact E|]).
  - split; [done|discriminate].
  - split; [done|]. intros _. rewrite HE, map_union_empty in He.
    destruct (spq_setup_spec sizeof offs p_db cid_ h1 sp _ Hsp A W U He) as (h2 & sp2 & E2 & Hsp2 & Hm2 & Hs2 & A2 & _ & Ho & Hdb2 & [rc' Hr] & Ok);
      [by rewrite Hn|by rewrite Ed, Hw|].
    exists h2, sp2. do 2 eexists. split_and!; [exact E2|exact Hsp2|by rewrite Hs2|exact Ok|exists rc'; by rewrite Ed, Hw in Hr|].
    intros h3 sp3 Hsp3 Hc Hv Hp Hm3 Hf. eapply spq_free_spec; [exact Hsp3| |exact Hf]. rewrite Hm3. by eapply alloced_cfg.
Qed.

(** ** A concrete function *)

Definition demo_db_dev : db_dev :=
  mk_db_dev [mk_db_hwfn 0 0x1000000 0x10000 (mk_qed_db_recovery_info [] 0 false false true)] [] 0.
Definition demo_hwfn : sp_hwfn :=
  mk_sp_hwfn (mk_spq_world None ∅ 256 [] (demo_mem 4) ∅ 0x1000000 [] ∅ false ∅ []) demo_db_dev None None
    (mk_qed_sb_sp_info (replicate 12 0) (replicate 12 (mk_qed_pi_info CbNull 0)) 12) 0.
Definition demo_setup : option sp_hwfn :=
  '(_, h) ← qed_spq_alloc 128 0 false demo_hwfn; qed_spq_setup 128 64 0x500 7 h.
Definition demo_sys : spq_sys :=
  match demo_setup with Some h => mk_spq_sys (f_w h) ∅ ∅ ∅ ∅ ∅ | None => mk_spq_sys (f_w demo_hwfn) ∅ ∅ ∅ ∅ ∅ end.

Lemma demo_find a : db_find_ok demo_db_dev a.
Proof. by eexists _, _. Qed.

Lemma demo_sys_ok : exists base dp, sys_ok base dp demo_sys.
Proof.
  assert (E0 : (fun r => r.1) <$> qed_spq_alloc 128 0 false demo_hwfn = Some 0) by (vm_compute; reflexivity).
  unfold demo_sys, demo_setup.
  destruct (spq_alloc_spec 128 0 demo_hwfn) as (rc & h1 & E & Ed & [(-> & _)|(-> & _ & Hn & He & Hw & sp & Hsp & A & W & U)]); rewrite E in E0 |- *; [done|].
  cbn [mbind option_bind].
  destruct (spq_setup_spec 128 64 0x500 7 h1 sp _ Hsp A W U) as (h2 & sp2 & -> & _ & _ & _ & _ & _ & _ & _ & _ & Ok).
  { rewrite He. apply map_union_empty. }
  { rewrite Hn. unfold in_pool. simpl. rewrite ring_size. lia. }
  { rewrite Ed. apply demo_find. }
  eauto.
Qed.

(** Requests: one whose client waits, and one with a callback. *)
Definition wait_data : qed_sp_init_data := mk_qed_sp_init_data 1 2 QED_SPQ_MODE_EBLOCK None.
Definition cb_data : qed_sp_init_data := mk_qed_sp_init_data 1 2 QED_SPQ_MODE_CB None.
Definition init_op (d : qed_sp_init_data) : spq_op := OInit 3 4 d.

Lemma wait_data_ok : data_ok wait_data.
Proof. split; [discriminate|done]. Qed.
Lemma cb_data_ok : data_ok cb_data.
Proof. split; done. Qed.

Lemma reach_ops ops : forall s0 s s',
  spq_reach s0 s -> exec_ops ops s = Some s' ->
  (forall i o si, ops !! i = Some o -> exec_ops (take i ops) s = Some si -> allowed o si) -> spq_reach s0 s'.
Proof.
  induction ops as [|o ops IH]; intros s0 s s' R E A; [by injection E as <-|]. cbn [exec_ops] in E.
  destruct (exec o s) as [s1|] eqn:E1; [|done]. cbn [mbind option_bind] in E.
  apply (IH s0 s1 s'); [|done|].
  - eapply reach_step; [exact R| |exact E1]. by apply (A 0%nat).
  - intros i o' si Hi Hs. apply (A (S i) o' si Hi). cbn [take exec_ops]. by rewrite E1.
Qed.

(** The first request of a function: posted and waited for. *)
Definition demo_ops : list spq_op := [init_op wait_data; OPost 0].
Definition demo_posted : spq_sys := default demo_sys (exec_ops demo_ops demo_sys).

Lemma demo_posted_reach : spq_reach demo_sys demo_posted.
Proof.
  assert (E1 : exists s, exec (init_op wait_data) demo_sys = Some s /\ bool_decide (0%nat ∈ s_clients s) = true)
    by (eexists; split; [vm_compute; reflexivity|vm_compute; reflexivity]).
  destruct E1 as (s1 & E1 & H1). apply bool_decide_eq_true_1 in H1.
  destruct (exec (OPost 0) s1) as [s2|] eqn:E2.
  2: { exfalso. assert (X : exec_ops demo_ops demo_sys = None) by (cbn [demo_ops exec_ops]; rewrite E1; cbn [mbind option_bind]; by rewrite E2).
       assert (Y : bool_decide (is_Some (exec_ops demo_ops demo_sys)) = true) by (vm_compute; reflexivity). rewrite X in Y. discriminate. }
  assert (Ed : demo_posted = s2) by (unfold demo_posted; cbn [demo_ops exec_ops]; rewrite E1; cbn [mbind option_bind]; by rewrite E2).
  rewrite Ed. assert (Hr : w_recov (s_w s1) = false).
  { assert (X : (fun s => w_recov (s_w s)) <$> exec (init_op wait_data) demo_sys = Some false) by (vm_compute; reflexivity).
    rewrite E1 in X. by injection X. }
  eapply (reach_step _ _ (OPost 0)); [|exact (conj (conj H1 Hr) Logic.I)|exact E2].
  eapply (reach_step _ _ (init_op wait_data)); [apply reach_refl|exact (conj wait_data_ok Logic.I)|exact E1].
Qed.

Lemma spq_runs_safe_witness : exists sp, w_spq (s_w demo_posted) = Some sp /\ owned_once demo_posted sp.
Proof. destruct demo_sys_ok as (base & dp & Ok). exact (proj2 (spq_runs_safe base dp demo_sys demo_posted Ok demo_posted_reach)). Defined.

Lemma spq_in_flight_intact_witness :
  exists base sp x, w_spq (s_w demo_posted) = Some sp /\ completion_pending sp = [0%nat] /\
    w_ents (s_w demo_posted) !! 0%nat = Some x /\ w_ring (s_w demo_posted) !! slot_of base x = Some (elem x).
Proof.
  destruct demo_sys_ok as (base & dp & Ok).
  destruct (spq_in_flight_intact base dp demo_sys demo_posted Ok demo_posted_reach) as (sp & Hsp & _ & H & _).
  assert (E : completion_pending <$> w_spq (s_w demo_posted) = Some [0%nat]) by (vm_compute; reflexivity).
  rewrite Hsp in E. injection E as E. destruct (H 0%nat) as (x & Hx & Hr & _); [rewrite E; apply list_elem_of_here|].
  exists base, sp, x. split_and!; [exact Hsp|exact E|exact Hx|exact Hr].
Defined.

Lemma spq_completion_exact_witness :
  qed_spq_completion (fun _ _ _ _ => Some) (s_w demo_posted) 5 0 0 = Some (- EEXIST, s_w demo_posted) /\
  exists w', qed_spq_completion (fun _ _ _ _ => Some) (s_w demo_posted) 0 9 0 = Some (0, w') /\
    comp_done <$> w_ents w' !! 0%nat = Some (mk_qed_spq_comp_done 1 9).
Proof.
  destruct demo_sys_ok as (base & dp & Ok).
  assert (E : (fun sp => (completion_pending sp, drop_next_completion sp)) <$> w_spq (s_w demo_posted) = Some ([0%nat], false)) by (vm_compute; reflexivity).
  assert (X : (fun x => (hdr_echo (elem x), comp_mode x, cb_cookie x)) <$> w_ents (s_w demo_posted) !! 0%nat = Some (0, 2, CkEntry 0)) by (vm_compute; reflexivity).
  destruct (w_ents (s_w demo_posted) !! 0%nat) as [x|] eqn:Hx; [|discriminate X]. injection X as X1 X2 X3. split.
  - destruct (spq_completion_exact (fun _ _ _ _ => Some) base dp demo_sys demo_posted 5 0 0 Ok demo_posted_reach) as (sp & Hsp & H1 & _).
    rewrite Hsp in E. injection E as E1 E2. apply H1. intros e y (He & Hy & Hec). rewrite E1 in He. apply list_elem_of_singleton in He as ->.
    rewrite Hx in Hy. injection Hy as <-. rewrite X1 in Hec. discriminate.
  - destruct (spq_completion_exact (fun _ _ _ _ => Some) base dp demo_sys demo_posted 0 9 0 Ok demo_posted_reach) as (sp & Hsp & _ & H2 & _).
    rewrite Hsp in E. injection E as E1 E2.
    destruct (H2 0%nat x) as (v & y & w' & sp' & Hc & _ & Hy & Hq & He & _); 
      [split_and!; [rewrite E1; apply list_elem_of_here|exact Hx|exact X1]|exact X2|exact E2|].
    exists w'. split; [exact Hq|]. rewrite X3 in Hc. injection Hc as <-. rewrite He, lookup_insert_eq. reflexivity.
Defined.

Definition demo_inited : spq_sys := default demo_sys (exec (init_op wait_data) demo_sys).
Lemma demo_inited_reach : spq_reach demo_sys demo_inited /\ 0%nat ∈ s_clients demo_inited.
Proof.
  unfold demo_inited. assert (E1 : exists s, exec (init_op wait_data) demo_sys = Some s /\ bool_decide (0%nat ∈ s_clients s) = true)
    by (eexists; split; [vm_compute; reflexivity|vm_compute; reflexivity]).
  destruct E1 as (s1 & E1 & H1). rewrite E1. simpl. split; [|by apply bool_decide_eq_true_1 in H1].
  eapply (reach_step _ _ (init_op wait_data)); [apply reach_refl|exact (conj wait_data_ok Logic.I)|exact E1].
Qed.

Lemma spq_post_drains_witness : exists w', post_locked (s_w demo_inited) 0 = Some (0, true, w').
Proof.
  destruct demo_sys_ok as (base & dp & Ok), demo_inited_reach as [R He].
  destruct (spq_post_drains base dp demo_sys demo_inited 0 Ok R He) as (x & w' & sp' & Hx & E & _).
  assert (X : comp_mode <$> w_ents (s_w demo_inited) !! 0%nat = Some QED_SPQ_MODE_EBLOCK) by (vm_compute; reflexivity).
  rewrite Hx in X. injection X as X. rewrite X in E. exists w'. exact E.
Defined.

Lemma spq_alloc_setup_free_witness : exists h1 h2 h4,
  qed_spq_alloc 128 0 false demo_hwfn = Some (0, h1) /\ qed_spq_setup 128 64 0x500 7 h1 = Some h2 /\
  qed_spq_free 128 0x500 false h2 = Some h4 /\ live (w_mem (f_w h4)) = ∅ /\ f_structs h4 = 0.
Proof.
  destruct (spq_alloc_setup_free 128 64 0x500 0 7 demo_hwfn) as (rc & h1 & E & _ & H).
  { reflexivity. }
  { unfold in_pool. simpl. rewrite ring_size. lia. }
  { apply demo_find. }
  assert (E0 : (fun r => r.1) <$> qed_spq_alloc 128 0 false demo_hwfn = Some 0) by (vm_compute; reflexivity).
  rewrite E in E0. injection E0 as ->. destruct (H eq_refl) as (h2 & sp & base & dp & E2 & Hsp & Hs & _ & [rc Ha] & Hf).
  assert (E1 : (fun h => length (hwfns (f_dev h))) <$> demo_setup = Some 1%nat) by (vm_compute; reflexivity).
  unfold demo_setup in E1. rewrite E in E1. cbn [mbind option_bind] in E1. rewrite E2 in E1. injection E1 as E1.
  destruct (Hf h2 sp Hsp eq_refl eq_refl eq_refl eq_refl) as (h4 & E4 & Hl & Hs4 & _).
  { destruct (hwfns (f_dev h2)) as [|x [|]] eqn:Ed; try discriminate. exists 0%nat, x. unfold qed_db_rec_find_hwfn, QED_IS_CMT. by rewrite Ed. }
  exists h1, h2, h4. split_and!; [exact E|exact E2|exact E4|exact Hl|]. rewrite Hs4, Hs. reflexivity.
Defined.


(** A completion of the first request, alone on an event queue. *)
Definition demo_event : event_ring_entry := mk_event_ring_entry PROTOCOLID_CORE 0 0 9 0xff 0 0.
Definition demo_eq_world : spq_world := s_w demo_posted <| w_mem := demo_pbl.2 |> <| w_eqes := {[0x20000 := demo_event]} |>.

Lemma demo_eq_ring : eq_ring demo_pbl.2 demo_pbl.1 [0x20000; 0x30000; 0x40000] 0 0.
Proof.
  split; [apply ring_rx, demo_pbl_ring|reflexivity|reflexivity| |done].
  intros i Hi. unfold slot_addr. change (usable_per_page demo_pbl.1) with 64. change (page_cnt demo_pbl.1) with 3. change (elem_size demo_pbl.1) with 64.
  pose proof (Z.mod_pos_bound i 64 ltac:(lia)). pose proof (Z.mod_pos_bound (i / 64) 3 ltac:(lia)) as Hj. set (j := (i / 64) mod 3) in *.
  assert (j = 0 \/ j = 1 \/ j = 2) as [->|[->| ->]] by lia; unfold page_at; simpl; lia.
Qed.

Lemma eq_completion_exact_witness : exists c' w1,
  dispatch_all (fun _ _ _ _ => Some) (fun _ _ w => Some (0, w)) (fun _ w => Some (0, w)) true [demo_event] demo_eq_world = Some w1 /\
  comp_done <$> w_ents w1 !! 0%nat = Some (mk_qed_spq_comp_done 1 9) /\
  eq_ring (w_mem w1) c' [0x20000; 0x30000; 0x40000] 1 1 /\
  qed_eq_completion (fun _ _ _ _ => Some) (fun _ _ w => Some (0, w)) (fun _ w => Some (0, w)) true 1 demo_pbl.1 demo_eq_world =
  ('(rc, w2) ← qed_spq_pend_post (qed_eq_prod_update w1 1); Some (rc, c', w2)).
Proof.
  assert (E : (fun w => comp_done <$> w_ents w !! 0%nat) <$>
    dispatch_all (fun _ _ _ _ => Some) (fun _ _ w => Some (0, w)) (fun _ w => Some (0, w)) true [demo_event] demo_eq_world =
    Some (Some (mk_qed_spq_comp_done 1 9))) by (vm_compute; reflexivity).
  destruct (dispatch_all _ _ _ _ _ _) as [w1|] eqn:Ed; [|discriminate E]. injection E as E.
  assert (Hs : bool_decide (is_Some (w_spq demo_eq_world)) = true) by (vm_compute; reflexivity). apply bool_decide_eq_true_1 in Hs as [sp Hs].
  destruct (eq_completion_exact (fun _ _ _ _ => Some) (fun _ _ w => Some (0, w)) (fun _ w => Some (0, w)) true [demo_event]
    demo_pbl.1 [0x20000; 0x30000; 0x40000] 0 0 demo_eq_world sp w1) as (c' & R & Q).
  { intros f ck d r w w' [= <-]. split; reflexivity. }
  { intros f e w rc w' [= <- <-]. split; reflexivity. }
  { intros e w rc w' [= <- <-]. split; reflexivity. }
  { exact Hs. }
  { exact demo_eq_ring. }
  { reflexivity. }
  { intros [|i] ev Hi; [|discriminate Hi]. injection Hi as <-. vm_compute. reflexivity. }
  { exact Ed. }
  exists c', w1. split_and!; [reflexivity|exact E|exact R|exact Q].
Defined.

(** ** Limits of the design *)

(** The completion path reads [comp_mode] from the entry after it has run
    the callback.  For a waiting client's entry the callback has already let
    the client go: when the client returns the entry and another client takes
    it for a request of another mode before the test, the completion returns
    the entry to the pool a second time, while its new client holds it. *)
Theorem late_mode_test_returns_reused_entry :
  match exec_ops (replicate 255 (init_op cb_data) ++
    [init_op wait_data; OPost 255; OTake 0;
     (* the completion runs the callback and is interrupted *)
     OWake 255 0;
     (* the client wakes up, and another one takes the entry *)
     OFinish 255; init_op cb_data;
     (* the completion resumes *)
     OTest 255]) demo_sys with
  | Some s => bool_decide (255%nat ∈ s_clients s) = true /\ free_pool <$> w_spq (s_w s) = Some [255%nat]
  | None => False
  end.
Proof. vm_compute. done. Qed.

(** A client's wait may end with an error just when the completion arrives: the
    completion has taken the entry off [completion_pending], and the clean-up
    of the client takes it off a second time. *)
Theorem timeout_after_completion_faults :
  match exec_ops [init_op wait_data; OPost 0; OTake 0] demo_sys with
  | Some s => bool_decide (0%nat ∈ s_waiting s) = true /\ bool_decide (0%nat ∈ s_wakes s) = true /\ exec (OTimeout 0 (- EBUSY)) s = None
  | None => False
  end.
Proof. vm_compute. done. Qed.

(** A client that waits for an allocated entry which has not been posted yet
    (the pool has been empty since) and whose wait ends without a completion, by
    a time-out or by a recovery, makes [qed_spq_post] go on with the entry posted
    in its place, which does not exist: a NULL pointer is dereferenced. *)
Theorem timeout_before_posting_faults :
  match exec_ops (replicate 256 (init_op cb_data) ++ [init_op wait_data; OPost 256]) demo_sys with
  | Some s => bool_decide (256%nat ∈ s_waiting s) = true /\ exec (OTimeout 256 (- EBUSY)) s = None /\ exec (OFinish 256) s = None
  | None => False
  end.
Proof. vm_compute. done. Qed.
