(* ===== verification/Cxt.v ===== *)
(** * The context manager: connection ids (qed_cxt.c, qed_cxt.h)

    The context manager hands out connection ids (cids) of the protocols, for
    the physical function and for each of its VFs, from bitmaps it allocates per
    protocol and owner.  An owner is a VF number or [QED_CXT_PF_CID], the
    physical function.  The doorbell block of the device gets the limits of the
    ranges of cids.

    An access to an array out of range, through NULL or to a bit outside a
    bitmap, and a division by zero, are faults ([None]).  A protocol is the
    value of [enum protocol_type]. *)

From S2P Require Import Prelude.

(** ** Data *)

Definition PROTOCOLID_ISCSI : nat := 0.
Definition PROTOCOLID_FCOE : nat := 1.
Definition PROTOCOLID_ROCE : nat := 2.
Definition PROTOCOLID_CORE : nat := 3.
Definition PROTOCOLID_ETH : nat := 4.
Definition PROTOCOLID_IWARP : nat := 5.
Definition MAX_CONN_TYPES : nat := 8.
Definition QED_CXT_PF_CID : Z := 0xff.
Definition DQ_RANGE_SHIFT : Z := 4.
Definition DQ_RANGE_ALIGN : Z := 2 ^ DQ_RANGE_SHIFT.
Definition MAP_WORD_SIZE : Z := 8.
Definition BITS_PER_MAP_WORD : Z := MAP_WORD_SIZE * 8.

(** A bitmap in memory: the number of bits allocated and their values. *)
Record bitmap := mk_bitmap { bm_size : Z; bm_bits : Z }.

Record qed_cid_acquired_map := mk_qed_cid_acquired_map {
  start_cid : Z; max_count : Z; cid_map : option bitmap
}.
#[export] Instance eta_qed_cid_acquired_map : Settable qed_cid_acquired_map := fun r =>
  mk_qed_cid_acquired_map (start_cid r) (max_count r) (cid_map r).
Definition zero_map : qed_cid_acquired_map := mk_qed_cid_acquired_map 0 0 None.

Record qed_tid_seg := mk_qed_tid_seg { seg_count : Z; seg_type : Z; has_fl_mem : bool }.
Definition zero_seg : qed_tid_seg := mk_qed_tid_seg 0 0 false.

Record qed_conn_type_cfg := mk_qed_conn_type_cfg { cid_count : Z; cids_per_vf : Z; tid_seg : list qed_tid_seg }.
#[export] Instance eta_qed_conn_type_cfg : Settable qed_conn_type_cfg := fun r =>
  mk_qed_conn_type_cfg (cid_count r) (cids_per_vf r) (tid_seg r).

(** The manager, with what its functions take from the hardware function: the
    number of VFs of the device ([NUM_OF_VFS]), the runtime array of registers
    ([rt_data], the valid values), and of the kernel: the outcomes of the next
    allocations (success when used up) and the number of blocks handed out and
    not freed. *)
Record qed_cxt_mngr := mk_qed_cxt_mngr {
  conn_cfg : list qed_conn_type_cfg;
  acquired : list qed_cid_acquired_map;
  acquired_vf : list (option (list qed_cid_acquired_map));
  num_of_vfs : Z;
  rt_data : gmap Z Z;
  cx_oracle : list bool;
  cx_live : Z
}.
#[export] Instance eta_qed_cxt_mngr : Settable qed_cxt_mngr := fun r =>
  mk_qed_cxt_mngr (conn_cfg r) (acquired r) (acquired_vf r) (num_of_vfs r) (rt_data r) (cx_oracle r) (cx_live r).

(** [kzalloc] and [kfree]. *)
Definition cx_kzalloc (m : qed_cxt_mngr) : bool * qed_cxt_mngr :=
  let ok := match cx_oracle m with [] => true | b :: _ => b end in
  (ok, m <| cx_oracle := tail (cx_oracle m) |> <| cx_live := cx_live m + (if ok then 1 else 0) |>).
Definition cx_kfree {A} (p : option A) (m : qed_cxt_mngr) : qed_cxt_mngr :=
  match p with Some _ => m <| cx_live := cx_live m - 1 |> | None => m end.

(** The map of a protocol and an owner: [&p_mngr->acquired[type]] or
    [&p_mngr->acquired_vf[type][vfid]]. *)
Definition map_at (m : qed_cxt_mngr) (type : nat) (vfid : Z) : option qed_cid_acquired_map :=
  if vfid =? QED_CXT_PF_CID then acquired m !! type
  else row ← acquired_vf m !! type; l ← row; l !! Z.to_nat vfid.
Definition set_map_at (type : nat) (vfid : Z) (p : qed_cid_acquired_map) (m : qed_cxt_mngr) : qed_cxt_mngr :=
  if vfid =? QED_CXT_PF_CID then m <| acquired := <[type := p]> (acquired m) |>
  else m <| acquired_vf := alter (fmap <[Z.to_nat vfid := p]>) type (acquired_vf m) |>.

(** Bits of a bitmap. *)
Definition bit_inside (i : Z) (b : bitmap) : bool := (0 <=? i) && (i <? bm_size b).
Definition test_bit (i : Z) (b : bitmap) : option bool :=
  if bit_inside i b then Some (Z.testbit (bm_bits b) i) else None.
Definition set_bit (i : Z) (b : bitmap) : option bitmap :=
  if bit_inside i b then Some (mk_bitmap (bm_size b) (Z.setbit (bm_bits b) i)) else None.
Definition clear_bit (i : Z) (b : bitmap) : option bitmap :=
  if bit_inside i b then Some (mk_bitmap (bm_size b) (Z.clearbit (bm_bits b) i)) else None.

(** [find_first_zero_bit(map, size)]: from bit [i], [n] bits to go. *)
Fixpoint first_zero (n : nat) (i : Z) (bits : Z) : Z :=
  match n with O => i | S n => if Z.testbit bits i then first_zero n (i + 1) bits else i end.
Definition find_first_zero_bit (b : bitmap) (size : Z) : Z := first_zero (Z.to_nat size) 0 (bm_bits b).

(** ** Configuration *)

(** [roundup(x, y)] of a [u32] by an [unsigned long] constant and by a [u32],
    both stored in a [u32]. *)
Definition roundup_ul (x y : Z) : Z := u32 ((x + (y - 1)) / y * y).
Definition roundup_u32 (x y : Z) : option Z := if y =? 0 then None else Some (u32 (u32 (x + (y - 1)) / y * y)).

(** [elems_per_page] is the number of connection contexts in an ILT page. *)
Definition qed_cxt_set_proto_cid_count (elems_per_page : Z) (type : nat) (cid_cnt vf_cid_cnt : Z) (m : qed_cxt_mngr)
    : option qed_cxt_mngr :=
  cfg ← conn_cfg m !! type;
  let c := roundup_ul cid_cnt DQ_RANGE_ALIGN in
  let v := roundup_ul vf_cid_cnt DQ_RANGE_ALIGN in
  '(c, v) ← (if bool_decide (type = PROTOCOLID_ROCE)
             then let align := u32 (elems_per_page * DQ_RANGE_ALIGN) / Z.gcd elems_per_page DQ_RANGE_ALIGN in
                  c ← roundup_u32 c align; v ← roundup_u32 v align; Some (c, v)
             else Some (c, v));
  Some (m <| conn_cfg := <[type := cfg <| cid_count := c |> <| cids_per_vf := v |>]> (conn_cfg m) |>).

Definition qed_cxt_get_proto_cid_count (m : qed_cxt_mngr) (type : nat) : option (Z * Z) :=
  c ← conn_cfg m !! type; Some (cid_count c, cids_per_vf c).

Definition qed_cxt_get_proto_cid_start (m : qed_cxt_mngr) (type : nat) (vf_id : Z) : option Z :=
  p ← map_at m type vf_id; Some (start_cid p).

(** ** Allocation of the bitmaps *)

(** The bytes of a bitmap for [count] cids. *)
Definition map_bytes (count : Z) : Z := u32 (MAP_WORD_SIZE * ((count + BITS_PER_MAP_WORD - 1) / BITS_PER_MAP_WORD)).

(** [__qed_cid_map_alloc_single] on the map of [type] and [vfid]. *)
Definition cid_map_alloc_one (type : nat) (vfid cid_start cid_cnt : Z) (m : qed_cxt_mngr) : option (Z * qed_cxt_mngr) :=
  if cid_cnt =? 0 then Some (0, m) else
  p ← map_at m type vfid;
  let '(ok, m) := cx_kzalloc m in
  if negb ok then Some (- ENOMEM, set_map_at type vfid (p <| cid_map := None |>) m) else
  Some (0, set_map_at type vfid
             (p <| cid_map := Some (mk_bitmap (map_bytes cid_cnt * 8) 0) |> <| max_count := cid_cnt |> <| start_cid := cid_start |>) m).

(** The VF loop of [qed_cid_map_alloc_single], from VF [vf]. *)
Fixpoint vf_alloc_loop (n : nat) (vf : Z) (type : nat) (vf_start_cid cnt : Z) (m : qed_cxt_mngr)
    : option (Z * qed_cxt_mngr) :=
  match n with
  | O => Some (0, m)
  | S n =>
      '(rc, m) ← cid_map_alloc_one type vf vf_start_cid cnt m;
      if negb (rc =? 0) then Some (rc, m) else vf_alloc_loop n (vf + 1) type vf_start_cid cnt m
  end.

Definition qed_cid_map_alloc_single (type : nat) (start vf_start : Z) (m : qed_cxt_mngr) : option (Z * qed_cxt_mngr) :=
  cfg ← conn_cfg m !! type;
  '(rc, m) ← cid_map_alloc_one type QED_CXT_PF_CID start (cid_count cfg) m;
  if negb (rc =? 0) then Some (rc, m) else
  vf_alloc_loop (Z.to_nat (num_of_vfs m)) 0 type vf_start (cids_per_vf cfg) m.

(** Freeing and clearing one map. *)
Definition map_free (type : nat) (vfid : Z) (m : qed_cxt_mngr) : option qed_cxt_mngr :=
  p ← map_at m type vfid; Some (set_map_at type vfid zero_map (cx_kfree (cid_map p) m)).

Fixpoint vf_free_loop (n : nat) (vf : Z) (type : nat) (m : qed_cxt_mngr) : option qed_cxt_mngr :=
  match n with O => Some m | S n => m ← map_free type vf m; vf_free_loop n (vf + 1) type m end.

Fixpoint type_free_loop (n type : nat) (m : qed_cxt_mngr) : option qed_cxt_mngr :=
  match n with
  | O => Some m
  | S n =>
      m ← map_free type QED_CXT_PF_CID m;
      row ← acquired_vf m !! type;
      m ← match row with None => Some m | Some _ => vf_free_loop (Z.to_nat (num_of_vfs m)) 0 type m end;
      type_free_loop n (S type) m
  end.

Definition qed_cid_map_free (m : qed_cxt_mngr) : option qed_cxt_mngr := type_free_loop MAX_CONN_TYPES 0 m.

Fixpoint type_alloc_loop (n type : nat) (start vf_start : Z) (m : qed_cxt_mngr) : option (Z * qed_cxt_mngr) :=
  match n with
  | O => Some (0, m)
  | S n =>
      '(rc, m) ← qed_cid_map_alloc_single type start vf_start m;
      if negb (rc =? 0) then m ← qed_cid_map_free m; Some (rc, m) else
      cfg ← conn_cfg m !! type;
      type_alloc_loop n (S type) (u32 (start + cid_count cfg)) (u32 (vf_start + cids_per_vf cfg)) m
  end.

Definition qed_cid_map_alloc (m : qed_cxt_mngr) : option (Z * qed_cxt_mngr) := type_alloc_loop MAX_CONN_TYPES 0 0 0 m.

(** [memset(p_map->cid_map, 0, len)] of [qed_cxt_mngr_setup]. *)
Definition map_reset (type : nat) (vfid : Z) (m : qed_cxt_mngr) : option qed_cxt_mngr :=
  p ← map_at m type vfid;
  b ← cid_map p;
  let len := map_bytes (max_count p) in
  if bm_size b <? len * 8 then None else
  Some (set_map_at type vfid
          (p <| cid_map := Some (mk_bitmap (bm_size b) (Z.shiftl (Z.shiftr (bm_bits b) (len * 8)) (len * 8))) |>) m).
Fixpoint vf_reset_loop (n : nat) (vf : Z) (type : nat) (m : qed_cxt_mngr) : option qed_cxt_mngr :=
  match n with O => Some m | S n => m ← map_reset type vf m; vf_reset_loop n (vf + 1) type m end.
Fixpoint type_reset_loop (n type : nat) (m : qed_cxt_mngr) : option qed_cxt_mngr :=
  match n with
  | O => Some m
  | S n =>
      cfg ← conn_cfg m !! type;
      m ← (if negb (cid_count cfg =? 0) then map_reset type QED_CXT_PF_CID m else Some m);
      m ← (if negb (cids_per_vf cfg =? 0) then vf_reset_loop (Z.to_nat (num_of_vfs m)) 0 type m else Some m);
      type_reset_loop n (S type) m
  end.
Definition qed_cxt_mngr_setup (m : qed_cxt_mngr) : option qed_cxt_mngr := type_reset_loop MAX_CONN_TYPES 0 m.

(** ** Acquiring and releasing *)

(** The return code and the value stored to [*p_cid]. *)
Definition _qed_cxt_acquire_cid (type vfid : Z) (m : qed_cxt_mngr) : option (Z * option Z * qed_cxt_mngr) :=
  if (Z.of_nat MAX_CONN_TYPES <=? type) || (type <? 0) then Some (- EINVAL, None, m) else
  if (num_of_vfs m <=? vfid) && negb (vfid =? QED_CXT_PF_CID) then Some (- EINVAL, None, m) else
  p ← map_at m (Z.to_nat type) vfid;
  match cid_map p with
  | None => Some (- EINVAL, None, m)
  | Some b =>
      let rel_cid := find_first_zero_bit b (max_count p) in
      if max_count p <=? rel_cid then Some (- EINVAL, None, m) else
      b ← set_bit rel_cid b;
      Some (0, Some (u32 (rel_cid + start_cid p)), set_map_at (Z.to_nat type) vfid (p <| cid_map := Some b |>) m)
  end.

Definition qed_cxt_acquire_cid (type : Z) (m : qed_cxt_mngr) : option (Z * option Z * qed_cxt_mngr) :=
  _qed_cxt_acquire_cid type QED_CXT_PF_CID m.

(** The search of [qed_cxt_test_cid_acquired], from protocol [type]. *)
Fixpoint find_type (n type : nat) (m : qed_cxt_mngr) (cid vfid : Z) : option (option (nat * qed_cid_acquired_map)) :=
  match n with
  | O => Some None
  | S n =>
      p ← map_at m type vfid;
      match cid_map p with
      | None => find_type n (S type) m cid vfid
      | Some _ => if (start_cid p <=? cid) && (cid <? u32 (start_cid p + max_count p)) then Some (Some (type, p))
                  else find_type n (S type) m cid vfid
      end
  end.

(** The protocol and map found, [None] for [false]. *)
Definition qed_cxt_test_cid_acquired (m : qed_cxt_mngr) (cid vfid : Z) : option (option (nat * qed_cid_acquired_map)) :=
  r ← find_type MAX_CONN_TYPES 0 m cid vfid;
  match r with
  | None => Some None
  | Some (type, p) =>
      b ← cid_map p;
      t ← test_bit (u32 (cid - start_cid p)) b;
      Some (if (t : bool) then Some (type, p) else None)
  end.

Definition _qed_cxt_release_cid (cid vfid : Z) (m : qed_cxt_mngr) : option qed_cxt_mngr :=
  if negb (vfid =? QED_CXT_PF_CID) && (num_of_vfs m <? vfid) then Some m else
  r ← qed_cxt_test_cid_acquired m cid vfid;
  match r with
  | None => Some m
  | Some (type, p) =>
      b ← cid_map p;
      b ← clear_bit (u32 (cid - start_cid p)) b;
      Some (set_map_at type vfid (p <| cid_map := Some b |>) m)
  end.

Definition qed_cxt_release_cid (cid : Z) (m : qed_cxt_mngr) : option qed_cxt_mngr :=
  _qed_cxt_release_cid cid QED_CXT_PF_CID m.

(** ** The limits of the doorbell block *)

Definition RUNTIME_ARRAY_SIZE : Z := 34984.
Definition DORQ_REG_PF_MAX_ICID_0_RT_OFFSET : Z := 0.
Definition DORQ_REG_VF_MAX_ICID_0_RT_OFFSET : Z := 8.

Definition qed_init_store_rt_reg (rt_offset val : Z) (m : qed_cxt_mngr) : qed_cxt_mngr :=
  if RUNTIME_ARRAY_SIZE <=? rt_offset then m else m <| rt_data := <[rt_offset := val]> (rt_data m) |>.

(** The stores of the protocols [type .. type+n-1] of [qed_dq_init_pf]; returns
    the two sums. *)
Fixpoint dq_stores (n type : nat) (dq_pf_max_cid dq_vf_max_cid : Z) (m : qed_cxt_mngr)
    : option (Z * Z * qed_cxt_mngr) :=
  match n with
  | O => Some (dq_pf_max_cid, dq_vf_max_cid, m)
  | S n =>
      cfg ← conn_cfg m !! type;
      let pf := u32 (dq_pf_max_cid + Z.shiftr (cid_count cfg) DQ_RANGE_SHIFT) in
      let m := qed_init_store_rt_reg (DORQ_REG_PF_MAX_ICID_0_RT_OFFSET + Z.of_nat type) pf m in
      let vf := u32 (dq_vf_max_cid + Z.shiftr (cids_per_vf cfg) DQ_RANGE_SHIFT) in
      let m := qed_init_store_rt_reg (DORQ_REG_VF_MAX_ICID_0_RT_OFFSET + Z.of_nat type) vf m in
      dq_stores n (S type) pf vf m
  end.

Definition qed_dq_init_pf (m : qed_cxt_mngr) : option qed_cxt_mngr :=
  '(pf, vf, m) ← dq_stores 6 0 0 0 m;
  let m := qed_init_store_rt_reg (DORQ_REG_PF_MAX_ICID_0_RT_OFFSET + 6) pf m in
  let m := qed_init_store_rt_reg (DORQ_REG_VF_MAX_ICID_0_RT_OFFSET + 6) vf m in
  let m := qed_init_store_rt_reg (DORQ_REG_PF_MAX_ICID_0_RT_OFFSET + 7) pf m in
  Some (qed_init_store_rt_reg (DORQ_REG_VF_MAX_ICID_0_RT_OFFSET + 7) vf m).
