(* ===== verification/CxtProps.v ===== *)
(** * The connection-id maps implement a set of ids per owner

    Lemmas on Cxt.v: the layout that allocation gives the maps (consecutive
    ranges of cids, one per protocol and owner), its preservation, and what
    acquiring and releasing do to the set of ids in use. *)

From S2P Require Import Prelude Cxt.

(** ** Access to the maps *)

(** The arrays have the sizes of the struct and of the device. *)
Record shape (m : qed_cxt_mngr) : Prop := {
  sh_cfg : length (conn_cfg m) = MAX_CONN_TYPES;
  sh_pf : length (acquired m) = MAX_CONN_TYPES;
  sh_vf : length (acquired_vf m) = MAX_CONN_TYPES;
  sh_rows : forall t row, acquired_vf m !! t = Some row ->
    exists l, row = Some l /\ length l = Z.to_nat (num_of_vfs m);
  sh_vfs : 0 <= num_of_vfs m < QED_CXT_PF_CID
}.

(** The owners of maps: the physical function and the VFs of the device. *)
Definition owner_ok (m : qed_cxt_mngr) (v : Z) : Prop := v = QED_CXT_PF_CID \/ 0 <= v < num_of_vfs m.

#[export] Instance owner_ok_dec m v : Decision (owner_ok m v).
Proof. unfold owner_ok. apply _. Defined.

(** The count of cids a configuration gives an owner, and where the range of
    protocol [t] starts: after those of the protocols before it. *)
Definition count_of (v : Z) (c : qed_conn_type_cfg) : Z := if v =? QED_CXT_PF_CID then cid_count c else cids_per_vf c.
Fixpoint sum_counts (v : Z) (l : list qed_conn_type_cfg) : Z :=
  match l with [] => 0 | c :: l => count_of v c + sum_counts v l end.
Definition range_start (m : qed_cxt_mngr) (t : nat) (v : Z) : Z := sum_counts v (take t (conn_cfg m)).

(** Sensible counts: [u32] values whose totals are [u32] values. *)
Record counts_ok (m : qed_cxt_mngr) : Prop := {
  co_pos : Forall (fun c => 0 <= cid_count c /\ 0 <= cids_per_vf c) (conn_cfg m);
  co_pf : sum_counts QED_CXT_PF_CID (conn_cfg m) < 2 ^ 32;
  co_vf : sum_counts 0 (conn_cfg m) < 2 ^ 32
}.

(** Everything of a manager except the maps and the allocator's state. *)
Definition same_cfg (m m' : qed_cxt_mngr) : Prop :=
  conn_cfg m' = conn_cfg m /\ num_of_vfs m' = num_of_vfs m /\ rt_data m' = rt_data m.

Lemma same_cfg_refl m : same_cfg m m.
Proof. done. Qed.
Lemma same_cfg_trans m1 m2 m3 : same_cfg m1 m2 -> same_cfg m2 m3 -> same_cfg m1 m3.
Proof. unfold same_cfg. intuition congruence. Qed.

Lemma map_at_some m t v : shape m -> (t < MAX_CONN_TYPES)%nat -> owner_ok m v -> is_Some (map_at m t v).
Proof.
  intros S Ht Hv. unfold map_at. destruct (Z.eqb_spec v QED_CXT_PF_CID).
  - apply lookup_lt_is_Some_2. by rewrite (sh_pf _ S).
  - destruct (lookup_lt_is_Some_2 (acquired_vf m) t) as [row E]; [by rewrite (sh_vf _ S)|].
    destruct (sh_rows _ S _ _ E) as (l & -> & El). rewrite E. simpl.
    apply lookup_lt_is_Some_2. destruct Hv as [|]; lia.
Qed.

Lemma map_at_owner m t v p : shape m -> 0 <= v -> map_at m t v = Some p -> (t < MAX_CONN_TYPES)%nat /\ owner_ok m v.
Proof.
  intros S H0. unfold map_at. destruct (Z.eqb_spec v QED_CXT_PF_CID) as [->|Hv].
  - intros E%lookup_lt_Some. rewrite (sh_pf _ S) in E. split; [done|by left].
  - destruct (acquired_vf m !! t) as [row|] eqn:E; [|done]. simpl.
    destruct (sh_rows _ S _ _ E) as (l & -> & El). simpl. intros E'%lookup_lt_Some.
    apply lookup_lt_Some in E. rewrite (sh_vf _ S) in E. split; [done|right]. lia.
Qed.

Lemma set_map_cfg m t v p : same_cfg m (set_map_at t v p m).
Proof. unfold set_map_at. by destruct (v =? _). Qed.

Lemma set_map_shape m t v p : shape m -> shape (set_map_at t v p m).
Proof.
  intros [H1 H2 H3 H4 H5]. unfold set_map_at. destruct (v =? _); split; simpl; try done.
  - by rewrite length_insert.
  - by rewrite length_alter.
  - intros t' row E. destruct (decide (t' = t)) as [->|Hne].
    + rewrite list_lookup_alter_eq in E. destruct (acquired_vf m !! t) as [row'|] eqn:E'; [|done].
      destruct (H4 _ _ E') as (l & -> & El). simplify_eq/=. eexists. split; [done|]. by rewrite length_insert.
    + rewrite list_lookup_alter_ne in E by done. eauto.
Qed.

Lemma map_at_set m t v p t' v' :
  shape m -> (t < MAX_CONN_TYPES)%nat -> owner_ok m v -> owner_ok m v' ->
  map_at (set_map_at t v p m) t' v' = if decide (t' = t /\ v' = v) then Some p else map_at m t' v'.
Proof.
  intros S Ht Hv Hv'. unfold map_at, set_map_at.
  destruct (Z.eqb_spec v QED_CXT_PF_CID) as [->|Hn]; destruct (Z.eqb_spec v' QED_CXT_PF_CID) as [->|Hn']; simpl.
  - case_decide as D.
    + destruct D as [-> _]. rewrite list_lookup_insert_eq; [done|]. by rewrite (sh_pf _ S).
    + rewrite list_lookup_insert_ne; [done|]. intros ->. by apply D.
  - by rewrite decide_False by naive_solver.
  - by rewrite decide_False by naive_solver.
  - destruct Hv as [|Hv]; [done|]. destruct Hv' as [|Hv']; [done|].
    destruct (decide (t' = t)) as [->|Ht'].
    + destruct (lookup_lt_is_Some_2 (acquired_vf m) t) as [row E]; [by rewrite (sh_vf _ S)|].
      destruct (sh_rows _ S _ _ E) as (l & -> & El). rewrite list_lookup_alter_eq, E. simpl.
      case_decide as D.
      * destruct D as [_ ->]. rewrite list_lookup_insert_eq; [done|]. lia.
      * rewrite list_lookup_insert_ne; [done|]. intros Hz%Z2Nat.inj; lia.
    + rewrite list_lookup_alter_ne by done. by rewrite decide_False by naive_solver.
Qed.

(** [same_cfg] carries the predicates that depend on the configuration. *)
Lemma owner_ok_same m m' v : same_cfg m m' -> owner_ok m v -> owner_ok m' v.
Proof. intros (_ & E & _). unfold owner_ok. by rewrite E. Qed.
Lemma range_start_same m m' t v : same_cfg m m' -> range_start m' t v = range_start m t v.
Proof. intros (E & _). unfold range_start. by rewrite E. Qed.
Lemma counts_ok_same m m' : same_cfg m m' -> counts_ok m -> counts_ok m'.
Proof. intros (E & _) [H1 H2 H3]. split; by rewrite E. Qed.

(** ** Ranges *)

Lemma count_of_vf v c : v <> QED_CXT_PF_CID -> count_of v c = count_of 0 c.
Proof. intros H. unfold count_of. destruct (Z.eqb_spec v QED_CXT_PF_CID); [done|]. done. Qed.

Lemma sum_counts_app v l l' : sum_counts v (l ++ l') = sum_counts v l + sum_counts v l'.
Proof. induction l as [|c l IH]; simpl; [done|]. rewrite IH. lia. Qed.

Lemma sum_counts_vf v l : v <> QED_CXT_PF_CID -> sum_counts v l = sum_counts 0 l.
Proof. intros H. induction l as [|c l IH]; simpl; [done|]. by rewrite IH, (count_of_vf v). Qed.

Lemma sum_counts_pos v l : Forall (fun c => 0 <= cid_count c /\ 0 <= cids_per_vf c) l -> 0 <= sum_counts v l.
Proof.
  induction 1 as [|c l [H1 H2] _ IH]; simpl; [done|]. unfold count_of. destruct (v =? _); lia.
Qed.

Lemma count_of_pos m t c v : counts_ok m -> conn_cfg m !! t = Some c -> 0 <= count_of v c.
Proof.
  intros [H _ _] E. rewrite Forall_lookup in H. destruct (H _ _ E). unfold count_of. by destruct (v =? _).
Qed.

Lemma range_start_S m t v c : conn_cfg m !! t = Some c -> range_start m (S t) v = range_start m t v + count_of v c.
Proof.
  intros E. unfold range_start. rewrite (take_S_r _ _ _ E), sum_counts_app. simpl. lia.
Qed.

(** Ranges follow each other and end in the [u32] values. *)
Lemma range_mono m t t' v c :
  counts_ok m -> conn_cfg m !! t = Some c -> (t < t')%nat -> range_start m t v + count_of v c <= range_start m t' v.
Proof.
  intros C E Ht. rewrite <- (range_start_S _ _ _ _ E). unfold range_start.
  replace t' with (S t + (t' - S t))%nat by lia. rewrite <- take_take_drop, sum_counts_app.
  pose proof (sum_counts_pos v (take (t' - S t) (drop (S t) (conn_cfg m))) ltac:(apply Forall_take, Forall_drop, C)). lia.
Qed.

Lemma range_bound m t v c :
  counts_ok m -> conn_cfg m !! t = Some c ->
  0 <= range_start m t v /\ 0 <= count_of v c /\ range_start m t v + count_of v c < 2 ^ 32.
Proof.
  intros C E. split; [apply sum_counts_pos, Forall_take, C|]. split; [by eapply count_of_pos|].
  assert (H : range_start m t v + count_of v c <= sum_counts v (conn_cfg m)).
  { rewrite <- (range_start_S _ _ _ _ E). unfold range_start.
    rewrite <- (take_drop (S t) (conn_cfg m)) at 2. rewrite sum_counts_app.
    pose proof (sum_counts_pos v (drop (S t) (conn_cfg m)) ltac:(apply Forall_drop, C)). lia. }
  destruct (decide (v = QED_CXT_PF_CID)) as [->|Hn]; [pose proof (co_pf _ C); lia|].
  rewrite (sum_counts_vf v (conn_cfg m)) in H by done. pose proof (co_vf _ C). lia.
Qed.

(** A cid lies in the range of at most one protocol. *)
Lemma range_unique m t t' v c c' x :
  counts_ok m -> conn_cfg m !! t = Some c -> conn_cfg m !! t' = Some c' ->
  range_start m t v <= x < range_start m t v + count_of v c ->
  range_start m t' v <= x < range_start m t' v + count_of v c' -> t = t'.
Proof.
  intros C E E' Hx Hx'. destruct (Nat.lt_trichotomy t t') as [H|[->|H]]; [|done|].
  - pose proof (range_mono _ _ _ v _ C E H). lia.
  - pose proof (range_mono _ _ _ v _ C E' H). lia.
Qed.

(** ** The invariant *)

(** A map for [count] cids from [start]; no map for none. *)
Definition map_ok (start count : Z) (p : qed_cid_acquired_map) : Prop :=
  if count =? 0 then p = zero_map
  else start_cid p = start /\ max_count p = count /\
       exists b, cid_map p = Some b /\ bm_size b = map_bytes count * 8.

Record cid_inv (m : qed_cxt_mngr) : Prop := {
  ci_shape : shape m;
  ci_counts : counts_ok m;
  ci_maps : forall t v c p, conn_cfg m !! t = Some c -> owner_ok m v -> map_at m t v = Some p ->
    map_ok (range_start m t v) (count_of v c) p
}.

(** The ids in use: owner [v] holds [x] of protocol [t]. *)
Definition held (m : qed_cxt_mngr) (t : nat) (v x : Z) : Prop :=
  exists p b, map_at m t v = Some p /\ cid_map p = Some b /\
    start_cid p <= x < start_cid p + max_count p /\ Z.testbit (bm_bits b) (x - start_cid p) = true.

Lemma map_bytes_size count : 0 <= count < 2 ^ 32 -> count <= map_bytes count * 8.
Proof.
  intros H. unfold map_bytes, BITS_PER_MAP_WORD, MAP_WORD_SIZE.
  pose proof (Z.div_mod (count + 8 * 8 - 1) (8 * 8) ltac:(lia)).
  pose proof (Z.mod_pos_bound (count + 8 * 8 - 1) (8 * 8) ltac:(lia)).
  rewrite u32_small by lia. lia.
Qed.

Lemma cfg_at m t : shape m -> (t < MAX_CONN_TYPES)%nat -> is_Some (conn_cfg m !! t).
Proof. intros S Ht. apply lookup_lt_is_Some_2. by rewrite (sh_cfg _ S). Qed.
Lemma cfg_lt m t c : shape m -> conn_cfg m !! t = Some c -> (t < MAX_CONN_TYPES)%nat.
Proof. intros S E%lookup_lt_Some. by rewrite (sh_cfg _ S) in E. Qed.

(** What the map of a protocol and an owner is. *)
Lemma inv_map m t v :
  cid_inv m -> (t < MAX_CONN_TYPES)%nat -> owner_ok m v ->
  exists c p, conn_cfg m !! t = Some c /\ map_at m t v = Some p /\ map_ok (range_start m t v) (count_of v c) p.
Proof.
  intros [S C M] Ht Hv. destruct (cfg_at _ _ S Ht) as [c Ec]. destruct (map_at_some _ _ _ S Ht Hv) as [p Ep].
  exists c, p. eauto.
Qed.

Lemma map_ok_some start count p b :
  map_ok start count p -> cid_map p = Some b ->
  count <> 0 /\ start_cid p = start /\ max_count p = count /\ bm_size b = map_bytes count * 8.
Proof.
  unfold map_ok. destruct (Z.eqb_spec count 0); [by intros -> | ].
  intros (-> & -> & b' & -> & H) E. by simplify_eq.
Qed.

Lemma map_ok_none start count p : map_ok start count p -> cid_map p = None -> count = 0.
Proof. unfold map_ok. destruct (Z.eqb_spec count 0); [done|]. intros (_ & _ & b & -> & _). done. Qed.

(** Replacing the bits of a map keeps the invariant. *)
Lemma inv_set_bits m t v p b b' :
  cid_inv m -> (t < MAX_CONN_TYPES)%nat -> owner_ok m v -> map_at m t v = Some p -> cid_map p = Some b ->
  bm_size b' = bm_size b -> cid_inv (set_map_at t v (p <| cid_map := Some b' |>) m).
Proof.
  intros [S C M] Ht Hv Ep Eb Hs. pose proof (set_map_cfg m t v (p <| cid_map := Some b' |>)) as SC.
  split; [by apply set_map_shape|by eapply counts_ok_same|].
  intros t' v' c p' Ec Hv' Ep'. rewrite (range_start_same _ _ _ _ SC). destruct SC as (Ecfg & Evf & _).
  rewrite Ecfg in Ec. assert (owner_ok m v') by (unfold owner_ok in *; by rewrite Evf in Hv').
  rewrite map_at_set in Ep' by done. case_decide as D; [|eauto].
  destruct D as [-> ->]. simplify_eq. pose proof (M _ _ _ _ Ec Hv Ep) as K.
  destruct (map_ok_some _ _ _ _ K Eb) as (Hc & E1 & E2 & E3).
  unfold map_ok. destruct (Z.eqb_spec (count_of v c) 0); [done|]. simpl. repeat split; try done.
  exists b'. split; [done|]. by rewrite Hs.
Qed.

(** ** The specification: a set of pairs of an owner and an id *)

Definition cid_set := gset (Z * Z).

(** The least of the [n] ids from [x] that owner [v] does not hold. *)
Fixpoint least_free (S : cid_set) (v x : Z) (n : nat) : option Z :=
  match n with
  | O => None
  | S n => if decide ((v, x) ∈ S) then least_free S v (x + 1) n else Some x
  end.

Definition spec_acquire (cfgs : list qed_conn_type_cfg) (nvfs t v : Z) (S : cid_set) : Z * option Z * cid_set :=
  if bool_decide (0 <= t /\ (v < nvfs \/ v = QED_CXT_PF_CID)) then
    match cfgs !! Z.to_nat t with
    | None => (- EINVAL, None, S)
    | Some c =>
        match least_free S v (sum_counts v (take (Z.to_nat t) cfgs)) (Z.to_nat (count_of v c)) with
        | None => (- EINVAL, None, S)
        | Some x => (0, Some x, {[(v, x)]} ∪ S)
        end
    end
  else (- EINVAL, None, S).

Definition spec_release (x v : Z) (S : cid_set) : cid_set := S ∖ {[(v, x)]}.

(** The manager's bitmaps represent a set. *)
Definition represents (m : qed_cxt_mngr) (S : cid_set) : Prop :=
  forall v x, (v, x) ∈ S <-> 0 <= v /\ exists t, held m t v x.

Lemma least_free_some S v n x y :
  least_free S v x n = Some y -> x <= y < x + Z.of_nat n /\ (v, y) ∉ S /\ forall z, x <= z < y -> (v, z) ∈ S.
Proof.
  revert x. induction n as [|n IH]; intros x; simpl; [done|]. case_decide as D.
  - intros (H1 & H2 & H3)%IH. split; [lia|]. split; [done|]. intros z Hz.
    destruct (decide (z = x)) as [->|]; [done|]. apply H3. lia.
  - intros [= <-]. split; [lia|]. split; [done|]. lia.
Qed.

Lemma least_free_none S v n x : least_free S v x n = None -> forall z, x <= z < x + Z.of_nat n -> (v, z) ∈ S.
Proof.
  revert x. induction n as [|n IH]; intros x; simpl; [lia|]. case_decide as D; [|done].
  intros E z Hz. destruct (decide (z = x)) as [->|]; [done|]. apply (IH _ E). lia.
Qed.

(** The bitmap search computes the least free id. *)
Lemma first_zero_least S v bits s n k :
  (forall i, k <= i < k + Z.of_nat n -> Z.testbit bits i = true <-> (v, s + i) ∈ S) ->
  first_zero n k bits = match least_free S v (s + k) n with Some x => x - s | None => k + Z.of_nat n end.
Proof.
  revert k. induction n as [|n IH]; intros k H; simpl; [lia|].
  destruct (Z.testbit bits k) eqn:E.
  - rewrite decide_True by (apply H; [lia|done]). rewrite IH by (intros; apply H; lia).
    rewrite Z.add_assoc. destruct (least_free _ _ _ _); lia.
  - rewrite decide_False; [lia|]. intros D. apply H in D; [congruence|lia].
Qed.

(** ** Ids in use *)

Lemma held_range m t v x :
  cid_inv m -> 0 <= v -> held m t v x ->
  exists c, conn_cfg m !! t = Some c /\ owner_ok m v /\ range_start m t v <= x < range_start m t v + count_of v c.
Proof.
  intros [S C M] Hv (p & b & Ep & Eb & Hx & _). destruct (map_at_owner _ _ _ _ S Hv Ep) as [Ht Ho].
  destruct (cfg_at _ _ S Ht) as [c Ec]. destruct (map_ok_some _ _ _ _ (M _ _ _ _ Ec Ho Ep) Eb) as (_ & E1 & E2 & _).
  exists c. split; [done|]. split; [done|]. by rewrite <- E1, <- E2.
Qed.

(** An id is held for one protocol only. *)
Lemma held_unique m t t' v x : cid_inv m -> 0 <= v -> held m t v x -> held m t' v x -> t = t'.
Proof.
  intros I Hv H H'. destruct (held_range _ _ _ _ I Hv H) as (c & E & _ & R).
  destruct (held_range _ _ _ _ I Hv H') as (c' & E' & _ & R'). eapply range_unique; eauto using ci_counts.
Qed.

(** The bits of a map are the ids of its range in the set. *)
Lemma held_bit m S t v p b i :
  cid_inv m -> represents m S -> 0 <= v -> map_at m t v = Some p -> cid_map p = Some b -> 0 <= i < max_count p ->
  Z.testbit (bm_bits b) i = true <-> (v, start_cid p + i) ∈ S.
Proof.
  intros I R Hv Ep Eb Hi. rewrite (R v _). split.
  - intros Hb. split; [done|]. exists t, p, b. replace (start_cid p + i - start_cid p) with i by lia. repeat split; try done; lia.
  - intros (_ & t' & H'). pose proof H' as (p' & b' & Ep' & Eb' & Hx & Hbit).
    destruct (held_range _ _ _ _ I Hv H') as (c' & Ec' & Ho & Hr).
    destruct I as [Sh C M]. destruct (map_at_owner _ _ _ _ Sh Hv Ep) as [Ht _]. destruct (cfg_at _ _ Sh Ht) as [c Ec].
    destruct (map_ok_some _ _ _ _ (M _ _ _ _ Ec Ho Ep) Eb) as (_ & E1 & E2 & _).
    assert (t' = t) as -> by (eapply (range_unique _ t' t); eauto; lia).
    simplify_eq. by replace (start_cid p + i - start_cid p) with i in Hbit by lia.
Qed.

Lemma held_set_bits m t v p b b' t' v' x :
  cid_inv m -> 0 <= v -> 0 <= v' -> map_at m t v = Some p -> cid_map p = Some b -> bm_size b' = bm_size b ->
  held (set_map_at t v (p <| cid_map := Some b' |>) m) t' v' x <->
  if decide (t' = t /\ v' = v)
  then start_cid p <= x < start_cid p + max_count p /\ Z.testbit (bm_bits b') (x - start_cid p) = true
  else held m t' v' x.
Proof.
  intros I Hv Hv' Ep Eb Hs. destruct (map_at_owner _ _ _ _ (ci_shape _ I) Hv Ep) as [Ht Ho].
  destruct (decide (owner_ok m v')) as [Ho'|Ho'].
  - unfold held. setoid_rewrite map_at_set; [|apply I|done..]. case_decide as D; [|done].
    split.
    + intros (p' & b'' & [= <-] & [= <-] & H). exact H.
    + intros H. exists (p <| cid_map := Some b' |>), b'. repeat split; try done; apply H.
  - rewrite decide_False by (intros [_ ->]; done).
    pose proof (inv_set_bits _ _ _ _ _ b' I Ht Ho Ep Eb Hs) as I'. pose proof (set_map_cfg m t v (p <| cid_map := Some b' |>)) as (_ & Evf & _).
    split; intros (c & _ & O & _)%held_range; try done. unfold owner_ok in *. by rewrite Evf in O.
Qed.

(** Setting or clearing one bit adds or removes one pair. *)
Lemma represents_set_bits m S t v p b b' x (on : bool) :
  cid_inv m -> represents m S -> 0 <= v -> map_at m t v = Some p -> cid_map p = Some b -> bm_size b' = bm_size b ->
  start_cid p <= x < start_cid p + max_count p ->
  (forall i, 0 <= i -> Z.testbit (bm_bits b') i = if decide (i = x - start_cid p) then on else Z.testbit (bm_bits b) i) ->
  represents (set_map_at t v (p <| cid_map := Some b' |>) m) (if on then {[(v, x)]} ∪ S else S ∖ {[(v, x)]}).
Proof.
  intros I R Hv Ep Eb Hs Hx Hb v' y.
  assert (E : (v', y) ∈ (if on then {[(v, x)]} ∪ S else S ∖ {[(v, x)]}) <->
              if decide (v' = v /\ y = x) then on = true else (v', y) ∈ S).
  { destruct (decide (v' = v /\ y = x)) as [[-> ->]|D]; destruct on; set_solver. }
  rewrite E. clear E. split.
  - destruct (decide (v' = v /\ y = x)) as [[-> ->]|D].
    + intros ->. split; [done|]. exists t. apply (held_set_bits _ _ _ _ b); try done.
      rewrite decide_True by done. split; [lia|]. rewrite Hb by lia. by rewrite decide_True.
    + intros (H0 & t' & H')%R. split; [done|]. exists t'. apply (held_set_bits _ _ _ _ b); try done.
      case_decide as D'; [|done]. destruct D' as [-> ->]. destruct H' as (p' & b'' & E1 & E2 & H1 & H2). simplify_eq.
      split; [lia|]. rewrite Hb by lia. rewrite decide_False; [done|]. intros ?. apply D. split; [done|lia].
  - intros (H0 & t' & H'). apply (held_set_bits _ _ _ _ b) in H'; try done. case_decide as D'.
    + destruct D' as [-> ->]. destruct H' as [H1 H2]. rewrite Hb in H2 by lia. case_decide as D2.
      * rewrite decide_True; [done|]. split; [done|lia].
      * rewrite decide_False by (intros [_ ->]; done). replace y with (start_cid p + (y - start_cid p)) by lia.
        eapply held_bit; eauto; lia.
    + case_decide as D2; [|apply R; eauto]. destruct D2 as [-> ->]. exfalso. apply D'. split; [|done].
      destruct (held_range _ _ _ _ I Hv H') as (c' & Ec' & Ho & Hr). destruct I as [Sh C M].
      destruct (map_at_owner _ _ _ _ Sh Hv Ep) as [Ht _]. destruct (cfg_at _ _ Sh Ht) as [c Ec].
      destruct (map_ok_some _ _ _ _ (M _ _ _ _ Ec Ho Ep) Eb) as (_ & E1 & E2 & _).
      eapply (range_unique _ t' t); eauto. lia.
Qed.

(** ** Acquiring *)

Lemma setbit_bits b k i : 0 <= k -> 0 <= i -> Z.testbit (Z.setbit b k) i = if decide (i = k) then true else Z.testbit b i.
Proof.
  intros Hk Hi. case_decide as D; [subst; by rewrite Z.setbit_eq|]. by rewrite Z.setbit_neq by lia.
Qed.
Lemma clearbit_bits b k i : 0 <= i -> Z.testbit (Z.clearbit b k) i = if decide (i = k) then false else Z.testbit b i.
Proof.
  intros Hi. case_decide as D; [subst; by rewrite Z.clearbit_eq|]. by rewrite Z.clearbit_neq by lia.
Qed.

(** A map in use lies in the [u32] values and in its bitmap. *)
Lemma inv_map_bounds m t v p b :
  cid_inv m -> 0 <= v -> map_at m t v = Some p -> cid_map p = Some b ->
  exists c, conn_cfg m !! t = Some c /\ start_cid p = range_start m t v /\ max_count p = count_of v c /\
    0 <= start_cid p /\ 0 < max_count p /\ start_cid p + max_count p < 2 ^ 32 /\ max_count p <= bm_size b.
Proof.
  intros [Sh C M] Hv Ep Eb. destruct (map_at_owner _ _ _ _ Sh Hv Ep) as [Ht Ho]. destruct (cfg_at _ _ Sh Ht) as [c Ec].
  destruct (map_ok_some _ _ _ _ (M _ _ _ _ Ec Ho Ep) Eb) as (H0 & E1 & E2 & E3).
  destruct (range_bound _ _ v _ C Ec) as (B1 & B2 & B3). exists c.
  rewrite E1, E2, E3. pose proof (map_bytes_size (count_of v c) ltac:(lia)). repeat split; try done; lia.
Qed.

Lemma acquire_spec m S type v :
  cid_inv m -> represents m S -> 0 <= v ->
  exists m', _qed_cxt_acquire_cid type v m =
      Some ((spec_acquire (conn_cfg m) (num_of_vfs m) type v S).1, m') /\
    cid_inv m' /\ represents m' (spec_acquire (conn_cfg m) (num_of_vfs m) type v S).2 /\
    same_cfg m m' /\ cx_live m' = cx_live m.
Proof.
  intros I R Hv. unfold _qed_cxt_acquire_cid, spec_acquire.
  destruct ((Z.of_nat MAX_CONN_TYPES <=? type) || (type <? 0)) eqn:Et.
  { exists m. case_bool_decide as D; [|done]. assert (8 <= type) by (unfold MAX_CONN_TYPES in Et; apply orb_prop in Et as [Et|Et]; zbool; lia).
    rewrite lookup_ge_None_2 by (rewrite (sh_cfg _ (ci_shape _ I)); unfold MAX_CONN_TYPES; lia). done. }
  apply orb_false_elim in Et as [Et1 Et2]. zbool. unfold MAX_CONN_TYPES in Et1.
  destruct ((num_of_vfs m <=? v) && negb (v =? QED_CXT_PF_CID)) eqn:Ev.
  { exists m. rewrite bool_decide_eq_false_2 by lia. done. }
  assert (Ho : owner_ok m v) by (unfold owner_ok; lia). rewrite bool_decide_eq_true_2 by (unfold owner_ok in Ho; lia). clear Ev.
  destruct (inv_map _ (Z.to_nat type) v I ltac:(unfold MAX_CONN_TYPES; lia) Ho) as (c & p & Ec & Ep & Mp).
  rewrite Ec, Ep. simpl. destruct (cid_map p) as [b|] eqn:Eb.
  2:{ exists m. rewrite (map_ok_none _ _ _ Mp Eb). done. }
  destruct (inv_map_bounds _ _ _ _ _ I Hv Ep Eb) as (c' & Ec' & E1 & E2 & B1 & B2 & B3 & B4). simplify_eq.
  fold (range_start m (Z.to_nat type) v). rewrite <- E1, <- E2.
  assert (F : find_first_zero_bit b (max_count p) =
              match least_free S v (start_cid p) (Z.to_nat (max_count p)) with
              | Some x => x - start_cid p | None => max_count p end).
  { unfold find_first_zero_bit. rewrite (first_zero_least S v _ (start_cid p)), Z.add_0_r, Z2Nat.id, Z.add_0_l by
      (try lia; intros i Hi; eapply held_bit; eauto; lia). done. }
  rewrite F. destruct (least_free S v (start_cid p) (Z.to_nat (max_count p))) as [x|] eqn:L.
  2:{ exists m. by rewrite Z.leb_refl. }
  apply least_free_some in L as (L & _). rewrite Z2Nat.id in L by lia.
  destruct (max_count p <=? x - start_cid p) eqn:?; zbool; [lia|].
  unfold set_bit, bit_inside. replace ((0 <=? x - start_cid p) && (x - start_cid p <? bm_size b)) with true by lia. simpl.
  replace (x - start_cid p + start_cid p) with x by lia. rewrite u32_small by lia.
  eexists. split; [done|]. destruct (map_at_owner _ _ _ _ (ci_shape _ I) Hv Ep) as [Ht _].
  split; [by eapply inv_set_bits|]. split; [|split; [apply set_map_cfg|unfold set_map_at; by destruct (v =? _)]].
  apply (represents_set_bits m S _ _ _ b _ x true); try done. intros i Hi. simpl. apply setbit_bits; lia.
Qed.

(** ** Releasing *)

Lemma find_type_spec m n t x v :
  cid_inv m -> owner_ok m v -> 0 <= v -> (t + n = MAX_CONN_TYPES)%nat ->
  exists r, find_type n t m x v = Some r /\
    match r with
    | None => forall t', (t <= t')%nat -> ~ held m t' v x
    | Some (t', p) => map_at m t' v = Some p /\ is_Some (cid_map p) /\ start_cid p <= x < start_cid p + max_count p
    end.
Proof.
  intros I Ho Hv. revert t. induction n as [|n IH]; intros t Hn; simpl.
  { eexists. split; [done|]. intros t' Ht (c & Ec%cfg_lt & _)%held_range; try done; [lia|apply I]. }
  destruct (inv_map _ t v I ltac:(lia) Ho) as (c & p & Ec & Ep & Mp). rewrite Ep. simpl.
  assert (Next : ~ held m t v x -> exists r, find_type n (S t) m x v = Some r /\
    match r with
    | None => forall t', (t <= t')%nat -> ~ held m t' v x
    | Some (t', p) => map_at m t' v = Some p /\ is_Some (cid_map p) /\ start_cid p <= x < start_cid p + max_count p
    end).
  { intros Hh. destruct (IH (S t) ltac:(lia)) as (r & Er & Hr). exists r. split; [done|]. destruct r as [|]; [done|].
    intros t' Ht'. destruct (decide (t' = t)) as [->|]; [done|]. apply Hr. lia. }
  destruct (cid_map p) as [b|] eqn:Eb.
  2:{ apply Next. intros (p' & b' & ? & ? & _). congruence. }
  destruct (inv_map_bounds _ _ _ _ _ I Hv Ep Eb) as (c' & _ & _ & _ & B1 & B2 & B3 & _).
  rewrite u32_small by lia. destruct ((start_cid p <=? x) && (x <? start_cid p + max_count p)) eqn:E.
  - eexists. split; [done|]. simpl. rewrite Eb. split; [done|]. split; [done|lia].
  - apply Next. intros (p' & b' & ? & ? & ? & _). simplify_eq. lia.
Qed.

Lemma test_acquired_spec m x v :
  cid_inv m -> owner_ok m v -> 0 <= v ->
  exists r, qed_cxt_test_cid_acquired m x v = Some r /\
    match r with
    | None => forall t, ~ held m t v x
    | Some (t, p) => map_at m t v = Some p /\ held m t v x
    end.
Proof.
  intros I Ho Hv. unfold qed_cxt_test_cid_acquired.
  destruct (find_type_spec m MAX_CONN_TYPES 0 x v I Ho Hv eq_refl) as (r & -> & Hr). simpl.
  destruct r as [[t p]|]; [|eexists; split; [done|]; intros t; apply Hr; lia].
  destruct Hr as (Ep & [b Eb] & Hx). rewrite Eb. simpl.
  destruct (inv_map_bounds _ _ _ _ _ I Hv Ep Eb) as (c & Ec & E1 & E2 & B1 & B2 & B3 & B4).
  rewrite u32_small by lia. unfold test_bit, bit_inside.
  replace ((0 <=? x - start_cid p) && (x - start_cid p <? bm_size b)) with true by lia. simpl.
  destruct (Z.testbit (bm_bits b) (x - start_cid p)) eqn:T; eexists; split; try done; simpl.
  - split; [done|]. by exists p, b.
  - intros t' H'. destruct (held_range _ _ _ _ I Hv H') as (c' & Ec' & _ & Hr').
    assert (t' = t) as -> by (eapply (range_unique _ t' t); eauto using ci_counts; lia).
    destruct H' as (p' & b' & ? & ? & _ & ?). congruence.
Qed.

Lemma release_spec m S x v :
  cid_inv m -> represents m S -> 0 <= v -> v <> num_of_vfs m ->
  exists m', _qed_cxt_release_cid x v m = Some m' /\ cid_inv m' /\ represents m' (spec_release x v S) /\
    same_cfg m m' /\ cx_live m' = cx_live m.
Proof.
  intros I R Hv Hn. unfold _qed_cxt_release_cid, spec_release.
  assert (Skip : (v, x) ∉ S -> represents m (S ∖ {[(v, x)]})).
  { intros H. replace (S ∖ {[(v, x)]}) with S by set_solver. done. }
  destruct (negb (v =? QED_CXT_PF_CID) && (num_of_vfs m <? v)) eqn:E.
  { exists m. split; [done|]. split; [done|]. split; [|done]. apply Skip. intros (_ & t & Hh)%R.
    destruct (held_range _ _ _ _ I Hv Hh) as (_ & _ & [|] & _); lia. }
  assert (Ho : owner_ok m v) by (unfold owner_ok; lia).
  destruct (test_acquired_spec m x v I Ho Hv) as (r & -> & Hr). simpl. destruct r as [[t p]|].
  2:{ exists m. split; [done|]. split; [done|]. split; [|done]. apply Skip. intros (_ & t & Hh)%R. by eapply Hr. }
  destruct Hr as (Ep & p' & b & ? & Eb & Hx & Hbit). simplify_eq. rewrite Eb. simpl.
  destruct (inv_map_bounds _ _ _ _ _ I Hv Ep Eb) as (c & Ec & E1 & E2 & B1 & B2 & B3 & B4).
  rewrite u32_small by lia. unfold clear_bit, bit_inside.
  replace ((0 <=? x - start_cid p) && (x - start_cid p <? bm_size b)) with true by lia. simpl.
  eexists. split; [done|]. destruct (map_at_owner _ _ _ _ (ci_shape _ I) Hv Ep) as [Ht _].
  split; [by eapply inv_set_bits|]. split; [|split; [apply set_map_cfg|unfold set_map_at; by destruct (v =? _)]].
  apply (represents_set_bits m S _ _ _ b _ x false); try done. intros i Hi. simpl. by apply clearbit_bits.
Qed.
