(* ===== verification/CxtAlloc.v ===== *)
(** * Allocation, reset and release of the connection-id maps

    Allocation gives every protocol and owner its map or, when the allocator
    fails, frees what it took; reset leaves no id in use; freeing clears every
    map. *)

From S2P Require Import Prelude Cxt CxtProps.

(** ** Counting the bitmaps *)

Definition owned1 (p : qed_cid_acquired_map) : Z := match cid_map p with Some _ => 1 | None => 0 end.
Definition total {A} (f : A -> Z) (l : list A) : Z := foldr (fun x s => f x + s) 0 l.
Definition owned_row (row : option (list qed_cid_acquired_map)) : Z := default 0 (total owned1 <$> row).
Definition owned (m : qed_cxt_mngr) : Z := total owned1 (acquired m) + total owned_row (acquired_vf m).

(** The live blocks are [base] and the bitmaps of the maps. *)
Definition balanced (base : Z) (m : qed_cxt_mngr) : Prop := cx_live m = base + owned m.

Lemma total_insert {A} (f : A -> Z) l i x y :
  l !! i = Some x -> total f (<[i := y]> l) = total f l - f x + f y.
Proof.
  revert i. induction l as [|z l IH]; intros [|i] E; simplify_eq/=; [lia|].
  rewrite (IH i E). lia.
Qed.

Lemma total_zero {A} (f : A -> Z) l : (forall i x, l !! i = Some x -> f x = 0) -> total f l = 0.
Proof.
  induction l as [|x l IH]; intros H; simpl; [done|]. rewrite (H 0%nat x), IH; [done| |done].
  intros i y E. by apply (H (S i)).
Qed.

Lemma alter_insert {A} (f : A -> A) (l : list A) i x : l !! i = Some x -> alter f i l = <[i := f x]> l.
Proof. revert i. induction l as [|y l IH]; intros [|i] E; simplify_eq/=; [done|]. by rewrite <- (IH i E). Qed.

Lemma owned_set m t v p p' :
  map_at m t v = Some p -> owned (set_map_at t v p' m) = owned m - owned1 p + owned1 p'.
Proof.
  unfold map_at, set_map_at, owned. destruct (v =? QED_CXT_PF_CID); simpl.
  - intros E. rewrite (total_insert _ _ _ p) by done. lia.
  - destruct (acquired_vf m !! t) as [[l|]|] eqn:E; try done. simpl. intros El.
    rewrite (alter_insert _ _ _ _ E), (total_insert _ _ _ (Some l)) by done. simpl.
    unfold owned_row. simpl. rewrite (total_insert _ _ _ p) by done. lia.
Qed.

Lemma owned_zero m :
  shape m -> (forall t v p, owner_ok m v -> map_at m t v = Some p -> cid_map p = None) -> owned m = 0.
Proof.
  intros S H. unfold owned. rewrite !total_zero; [done| |].
  - intros t row E. destruct (sh_rows _ S _ _ E) as (l & -> & El). unfold owned_row. simpl. apply total_zero.
    intros i p Ei. unfold owned1. rewrite (H t (Z.of_nat i) p); [done| |].
    + right. apply lookup_lt_Some in Ei. lia.
    + unfold map_at. pose proof (sh_vfs _ S). apply lookup_lt_Some in Ei as L.
      destruct (Z.eqb_spec (Z.of_nat i) QED_CXT_PF_CID); [lia|]. rewrite E. simpl. by rewrite Nat2Z.id.
  - intros t p E. unfold owned1. rewrite (H t QED_CXT_PF_CID p); [done|by left|]. unfold map_at. by rewrite Z.eqb_refl.
Qed.

(** ** Maps change one at a time *)

(** [m'] is [m] with the map of [t], [v] replaced by [p]. *)
Definition updated (m : qed_cxt_mngr) (t : nat) (v : Z) (p : qed_cid_acquired_map) (m' : qed_cxt_mngr) : Prop :=
  same_cfg m m' /\ shape m' /\
  forall t' v', owner_ok m v' -> map_at m' t' v' = if decide (t' = t /\ v' = v) then Some p else map_at m t' v'.

Lemma set_map_updated m t v p :
  shape m -> (t < MAX_CONN_TYPES)%nat -> owner_ok m v -> updated m t v p (set_map_at t v p m).
Proof. intros S Ht Hv. split; [apply set_map_cfg|]. split; [by apply set_map_shape|]. intros. by apply map_at_set. Qed.

(** Reading the maps and the configuration ignores the allocator's state. *)
Lemma shape_alloc m o l : shape m -> shape (m <| cx_oracle := o |> <| cx_live := l |>).
Proof. intros [H1 H2 H3 H4 H5]. by split. Qed.

Lemma map_free_spec base m t v :
  shape m -> balanced base m -> (t < MAX_CONN_TYPES)%nat -> owner_ok m v ->
  exists m', map_free t v m = Some m' /\ updated m t v zero_map m' /\ balanced base m'.
Proof.
  intros S B Ht Hv. unfold map_free. destruct (map_at_some _ _ _ S Ht Hv) as [p Ep]. rewrite Ep. simpl.
  eexists. split; [done|]. unfold cx_kfree, balanced in *.
  assert (O : owned1 p = match cid_map p with Some _ => 1 | None => 0 end) by done.
  destruct (cid_map p) as [b|].
  - pose proof (set_map_updated (m <| cx_live := cx_live m - 1 |>) t v zero_map ltac:(destruct S; by split) Ht Hv) as U.
    split; [done|]. rewrite (owned_set _ _ _ p) by done.
    change (owned (m <| cx_live := cx_live m - 1 |>)) with (owned m). change (owned1 zero_map) with 0.
    replace (cx_live (set_map_at t v zero_map (m <| cx_live := cx_live m - 1 |>))) with (cx_live m - 1)
      by (unfold set_map_at; by destruct (v =? _)). lia.
  - split; [by apply set_map_updated|]. rewrite (owned_set _ _ _ p) by done. change (owned1 zero_map) with 0.
    replace (cx_live (set_map_at t v zero_map m)) with (cx_live m) by (unfold set_map_at; by destruct (v =? _)). lia.
Qed.

(** ** Freeing *)

(** Decisions about predicates given by functions. *)
#[local] Hint Extern 2 (Decision _) => progress cbv beta : typeclass_instances.

(** [m'] is [m] with the maps chosen by [D] replaced by [f]. *)
Definition rewritten (m : qed_cxt_mngr) (D : nat -> Z -> Prop) `{forall t v, Decision (D t v)}
    (f : nat -> Z -> qed_cid_acquired_map) (m' : qed_cxt_mngr) : Prop :=
  same_cfg m m' /\ shape m' /\
  forall t v, (t < MAX_CONN_TYPES)%nat -> owner_ok m v -> map_at m' t v = if decide (D t v) then Some (f t v) else map_at m t v.

Lemma rewritten_none m D `{forall t v, Decision (D t v)} f :
  shape m -> (forall t v, (t < MAX_CONN_TYPES)%nat -> owner_ok m v -> ~ D t v) -> rewritten m D f m.
Proof. intros S H0. split; [done|]. split; [done|]. intros t v Ht Hv. by rewrite decide_False by auto. Qed.

Lemma rewritten_trans m1 m2 m3 D D' D'' `{forall t v, Decision (D t v)} `{forall t v, Decision (D' t v)}
    `{forall t v, Decision (D'' t v)} f :
  rewritten m1 D f m2 -> rewritten m2 D' f m3 ->
  (forall t v, (t < MAX_CONN_TYPES)%nat -> owner_ok m1 v -> D'' t v <-> D t v \/ D' t v) -> rewritten m1 D'' f m3.
Proof.
  intros (C1 & _ & M1) (C2 & S & M2) E. split; [by eapply same_cfg_trans|]. split; [done|]. intros t v Ht Hv.
  rewrite M2 by (try done; by eapply owner_ok_same). rewrite M1 by done. specialize (E t v Ht Hv).
  repeat case_decide; try done; tauto.
Qed.

Lemma updated_rewritten m t v p m' D `{forall t v, Decision (D t v)} f :
  updated m t v p m' -> p = f t v ->
  (forall t' v', (t' < MAX_CONN_TYPES)%nat -> owner_ok m v' -> D t' v' <-> t' = t /\ v' = v) -> rewritten m D f m'.
Proof.
  intros (C & S & M) -> E. split; [done|]. split; [done|]. intros t' v' Ht Hv. rewrite M by done. specialize (E t' v' Ht Hv).
  repeat case_decide; try tauto. destruct E as [E _]. by destruct E as [-> ->].
Qed.

Lemma vf_free_spec base n vf t m :
  shape m -> balanced base m -> (t < MAX_CONN_TYPES)%nat -> 0 <= vf -> vf + Z.of_nat n <= num_of_vfs m ->
  exists m', vf_free_loop n vf t m = Some m' /\ balanced base m' /\
    rewritten m (fun t' v => t' = t /\ vf <= v < vf + Z.of_nat n) (fun _ _ => zero_map) m'.
Proof.
  revert vf m. induction n as [|n IH]; intros vf m S B Ht H0 Hn; simpl.
  { exists m. split; [done|]. split; [done|]. apply rewritten_none; [done|]. lia. }
  destruct (map_free_spec base m t vf S B Ht ltac:(right; lia)) as (m1 & -> & U & B1). simpl.
  pose proof U as ((_ & Ev & _) & S1 & _).
  destruct (IH (vf + 1) m1 S1 B1 Ht ltac:(lia) ltac:(lia)) as (m2 & -> & B2 & R). exists m2. split; [done|]. split; [done|].
  eapply rewritten_trans; [|exact R|].
  - eapply (updated_rewritten _ _ _ _ _ (fun t' v => t' = t /\ v = vf)); [done|done|]. done.
  - simpl. lia.
Qed.

Lemma type_free_spec base n t m :
  shape m -> balanced base m -> (t + n = MAX_CONN_TYPES)%nat ->
  exists m', type_free_loop n t m = Some m' /\ balanced base m' /\
    rewritten m (fun t' _ => (t <= t')%nat) (fun _ _ => zero_map) m'.
Proof.
  revert t m. induction n as [|n IH]; intros t m S B Hn; simpl.
  { exists m. split; [done|]. split; [done|]. apply rewritten_none; [done|]. lia. }
  destruct (map_free_spec base m t QED_CXT_PF_CID S B ltac:(lia) ltac:(by left)) as (m1 & -> & U & B1). simpl.
  pose proof U as ((_ & Ev & _) & S1 & _).
  destruct (lookup_lt_is_Some_2 (acquired_vf m1) t) as [row E]; [rewrite (sh_vf _ S1); lia|].
  destruct (sh_rows _ S1 _ _ E) as (l & -> & El). rewrite E. simpl.
  pose proof (sh_vfs _ S1).
  destruct (vf_free_spec base (Z.to_nat (num_of_vfs m1)) 0 t m1 S1 B1 ltac:(lia) ltac:(lia) ltac:(lia)) as (m2 & -> & B2 & R2).
  simpl. pose proof R2 as ((_ & Ev2 & _) & S2 & _).
  destruct (IH (Datatypes.S t) m2 S2 B2 ltac:(lia)) as (m3 & -> & B3 & R3). exists m3. split; [done|]. split; [done|].
  eapply (rewritten_trans _ m1 _ (fun t' v => t' = t /\ v = QED_CXT_PF_CID)); [by eapply updated_rewritten|
    eapply (rewritten_trans _ m2 _ _ _ (fun t' v => t' = t /\ v <> QED_CXT_PF_CID \/ (t < t')%nat)); [exact R2|exact R3|] | ].
  - simpl. unfold owner_ok. intros t' v Ht' Hv. pose proof (sh_vfs _ S1). lia.
  - simpl. intros t' v Ht' Hv. lia.
Qed.

(** Freeing clears every map and gives every bitmap back. *)
Lemma cid_map_free_spec base m :
  shape m -> balanced base m ->
  exists m', qed_cid_map_free m = Some m' /\ cx_live m' = base /\ same_cfg m m' /\ shape m' /\
    forall t v, (t < MAX_CONN_TYPES)%nat -> owner_ok m v -> map_at m' t v = Some zero_map.
Proof.
  intros S B. destruct (type_free_spec base MAX_CONN_TYPES 0 m S B eq_refl) as (m' & E & B' & C & S' & M).
  exists m'. split; [done|].
  assert (Zm : forall t v, (t < MAX_CONN_TYPES)%nat -> owner_ok m v -> map_at m' t v = Some zero_map).
  { intros t v Ht Hv. rewrite M by done. case_decide as D; [done|lia]. }
  split; [|done]. unfold balanced in B'. rewrite (owned_zero m' S') in B'; [lia|].
  intros t v p Hv Ep. assert (owner_ok m v) by (destruct C as (_ & Ev & _); unfold owner_ok in *; by rewrite <- Ev).
  assert (H0 : 0 <= v) by (destruct Hv as [-> | ?]; [done|lia]). destruct (map_at_owner _ _ _ _ S' H0 Ep) as [Ht _].
  rewrite Zm in Ep by done. by simplify_eq.
Qed.

(** ** Allocating *)

(** The map that allocation makes for [count] cids from [start]. *)
Definition fresh_map (start count : Z) : qed_cid_acquired_map :=
  if count =? 0 then zero_map else mk_qed_cid_acquired_map start count (Some (mk_bitmap (map_bytes count * 8) 0)).

(** The map of a protocol and an owner after allocation. *)
Definition planned (m : qed_cxt_mngr) (t : nat) (v : Z) : qed_cid_acquired_map :=
  fresh_map (range_start m t v) (default 0 (count_of v <$> conn_cfg m !! t)).

(** What allocating some maps does: either all of them are planned ones, or an
    allocation failed. *)
Definition alloc_result (base : Z) (m : qed_cxt_mngr) (D : nat -> Z -> Prop) `{forall t v, Decision (D t v)}
    (rc : Z) (m' : qed_cxt_mngr) : Prop :=
  same_cfg m m' /\ shape m' /\ balanced base m' /\ (forall b, b ∈ cx_oracle m' -> b ∈ cx_oracle m) /\
  (rc = 0 /\ rewritten m D (planned m) m' \/ rc = - ENOMEM /\ false ∈ cx_oracle m).

(** Storing a map with the block it owns. *)
Lemma alloc_set base m t v q o :
  shape m -> balanced base m -> (t < MAX_CONN_TYPES)%nat -> owner_ok m v -> map_at m t v = Some zero_map ->
  let m' := set_map_at t v q (m <| cx_oracle := o |> <| cx_live := cx_live m + owned1 q |>) in
  updated m t v q m' /\ balanced base m' /\ cx_oracle m' = o.
Proof.
  intros S B Ht Hv Em. set (n := m <| cx_oracle := o |> <| cx_live := cx_live m + owned1 q |>). simpl.
  pose proof (set_map_updated n t v q ltac:(by apply shape_alloc) Ht Hv) as U.
  pose proof (owned_set n t v zero_map q Em) as O. change (owned n) with (owned m) in O. change (owned1 zero_map) with 0 in O.
  split; [exact U|]. unfold balanced in *. rewrite O. unfold set_map_at. destruct (v =? _); simpl; (split; [lia|done]).
Qed.

Lemma alloc_one_spec base m t v c :
  shape m -> balanced base m -> owner_ok m v -> conn_cfg m !! t = Some c -> map_at m t v = Some zero_map ->
  exists rc m', cid_map_alloc_one t v (range_start m t v) (count_of v c) m = Some (rc, m') /\
    alloc_result base m (fun t' v' => t' = t /\ v' = v) rc m'.
Proof.
  intros S B Hv Ec Em. pose proof (cfg_lt _ _ _ S Ec) as Ht. unfold cid_map_alloc_one.
  assert (P : planned m t v = fresh_map (range_start m t v) (count_of v c)) by (unfold planned; by rewrite Ec).
  unfold fresh_map in P. destruct (Z.eqb_spec (count_of v c) 0) as [E0|N0].
  { exists 0, m. split; [done|]. do 4 (split; [done|]). left. split; [done|]. split; [done|]. split; [done|].
    intros t' v' Ht' Hv'. case_decide as D; [|done]. destruct D as [-> ->]. by rewrite P. }
  rewrite Em. unfold cx_kzalloc. destruct (match cx_oracle m with [] => true | b :: _ => b end) eqn:Eo; simpl;
    (eexists _, _; split; [done|]);
    match goal with |- context [set_map_at _ _ ?q _] =>
      destruct (alloc_set base m t v q (tail (cx_oracle m)) S B Ht Hv Em) as (U & B' & Or)
    end; unfold owned1 in *; simpl in *; (split; [apply U|]); (split; [apply U|]); (split; [exact B'|]); rewrite Or;
    (split; [by destruct (cx_oracle m); simpl; [|right]|]).
  - left. split; [done|]. apply (updated_rewritten _ t v _ _ _ _ U); [by rewrite P|done].
  - right. split; [done|]. destruct (cx_oracle m); [done|]. subst. by left.
Qed.

Lemma planned_same m m' t v : same_cfg m m' -> planned m' t v = planned m t v.
Proof. intros C. unfold planned. rewrite (range_start_same _ _ _ _ C). by destruct C as (-> & _). Qed.

Lemma alloc_result_trans base m m1 m2 rc D D' D'' `{forall t v, Decision (D t v)} `{forall t v, Decision (D' t v)}
    `{forall t v, Decision (D'' t v)} :
  alloc_result base m D 0 m1 -> alloc_result base m1 D' rc m2 ->
  (forall t v, (t < MAX_CONN_TYPES)%nat -> owner_ok m v -> D'' t v <-> D t v \/ D' t v) -> alloc_result base m D'' rc m2.
Proof.
  intros (C1 & S1 & B1 & O1 & [[_ R1]|[? _]]) (C2 & S2 & B2 & O2 & R2) E; [|done].
  split; [by eapply same_cfg_trans|]. split; [done|]. split; [done|]. split; [by auto|].
  destruct R2 as [[-> R2]|[-> F]]; [left|right; by auto]. split; [done|].
  eapply (rewritten_trans _ m1 _ D D'); [exact R1| |exact E].
  destruct R2 as (Q1 & Q2 & Q3). split; [done|]. split; [done|]. intros t v Ht Hv. rewrite Q3 by done.
  by rewrite (planned_same m m1) by done.
Qed.

(** Maps not chosen are left alone by a successful step. *)
Lemma alloc_result_other base m m' D `{forall t v, Decision (D t v)} t v :
  alloc_result base m D 0 m' -> (t < MAX_CONN_TYPES)%nat -> owner_ok m v -> ~ D t v -> map_at m' t v = map_at m t v.
Proof.
  intros (_ & _ & _ & _ & [[_ (_ & _ & M)]|[? _]]) Ht Hv N; [|done]. rewrite M by done. by rewrite decide_False.
Qed.

Lemma vf_alloc_spec base n vf t m c :
  shape m -> balanced base m -> conn_cfg m !! t = Some c -> 0 <= vf -> vf + Z.of_nat n <= num_of_vfs m ->
  (forall v, vf <= v < vf + Z.of_nat n -> map_at m t v = Some zero_map) ->
  exists rc m', vf_alloc_loop n vf t (range_start m t 0) (cids_per_vf c) m = Some (rc, m') /\
    alloc_result base m (fun t' v => t' = t /\ vf <= v < vf + Z.of_nat n) rc m'.
Proof.
  revert vf m. induction n as [|n IH]; intros vf m S B Ec H0 Hn Hz; simpl.
  { exists 0, m. split; [done|]. do 4 (split; [done|]). left. split; [done|]. apply rewritten_none; [done|]. lia. }
  pose proof (cfg_lt _ _ _ S Ec) as Ht. pose proof (sh_vfs _ S) as Hvfs.
  assert (Hpf : vf <> QED_CXT_PF_CID) by lia. assert (Ho : owner_ok m vf) by (right; lia).
  destruct (alloc_one_spec base m t vf c S B Ho Ec (Hz vf ltac:(lia))) as (rc & m1 & E & R).
  unfold range_start in E at 1. rewrite (sum_counts_vf vf) in E by done. fold (range_start m t 0) in E.
  unfold count_of in E. destruct (Z.eqb_spec vf QED_CXT_PF_CID); [done|]. rewrite E. simpl.
  destruct (Z.eqb_spec rc 0) as [->|Hrc]; simpl.
  2:{ exists rc, m1. split; [done|]. destruct R as (R1 & R2 & R3 & R4 & [[? _]|R5]); [done|]. do 4 (split; [done|]). by right. }
  pose proof R as (C & S1 & B1 & _). rewrite <- (range_start_same _ _ t 0 C). pose proof C as (Ecfg & Evf & _).
  destruct (IH (vf + 1) m1 S1 B1 ltac:(by rewrite Ecfg) ltac:(lia) ltac:(lia)) as (rc' & m2 & E' & R').
  { intros v Hv. rewrite (alloc_result_other _ _ _ _ _ _ R Ht) by (try lia; right; lia). apply Hz. lia. }
  exists rc', m2. split; [done|]. eapply alloc_result_trans; [exact R|exact R'|]. simpl. lia.
Qed.

Lemma cid_alloc_single_spec base t m :
  shape m -> balanced base m -> (t < MAX_CONN_TYPES)%nat ->
  (forall v, owner_ok m v -> map_at m t v = Some zero_map) ->
  exists rc m', qed_cid_map_alloc_single t (range_start m t QED_CXT_PF_CID) (range_start m t 0) m = Some (rc, m') /\
    alloc_result base m (fun t' _ => t' = t) rc m'.
Proof.
  intros S B Ht Hz. unfold qed_cid_map_alloc_single. destruct (cfg_at _ _ S Ht) as [c Ec]. rewrite Ec. simpl.
  assert (Ho : owner_ok m QED_CXT_PF_CID) by by left.
  destruct (alloc_one_spec base m t QED_CXT_PF_CID c S B Ho Ec (Hz _ Ho)) as (rc & m1 & E & R).
  change (count_of QED_CXT_PF_CID c) with (cid_count c) in E. rewrite E. simpl.
  destruct (Z.eqb_spec rc 0) as [->|Hrc]; simpl.
  2:{ exists rc, m1. split; [done|]. destruct R as (R1 & R2 & R3 & R4 & [[? _]|R5]); [done|]. do 4 (split; [done|]). by right. }
  pose proof R as (C & S1 & B1 & _). rewrite <- (range_start_same _ _ t 0 C). pose proof C as (Ecfg & Evf & _).
  pose proof (sh_vfs _ S1) as Hvfs.
  destruct (vf_alloc_spec base (Z.to_nat (num_of_vfs m1)) 0 t m1 c S1 B1 ltac:(by rewrite Ecfg) ltac:(lia) ltac:(lia))
    as (rc' & m2 & E' & R').
  { intros v Hv. assert (owner_ok m v) by (right; lia).
    rewrite (alloc_result_other _ _ _ _ _ _ R Ht) by (try done; lia). by apply Hz. }
  exists rc', m2. split; [done|]. eapply alloc_result_trans; [exact R|exact R'|].
  simpl. unfold owner_ok. intros t' v _ Hv. lia.
Qed.

(** The whole allocation: every map is planned, or an allocation failed and all
    of them are cleared. *)
Definition alloc_done (base : Z) (m : qed_cxt_mngr) (rc : Z) (m' : qed_cxt_mngr) : Prop :=
  same_cfg m m' /\ shape m' /\ balanced base m' /\
  (rc = 0 /\ (forall t v, (t < MAX_CONN_TYPES)%nat -> owner_ok m v -> map_at m' t v = Some (planned m t v)) \/
   rc = - ENOMEM /\ false ∈ cx_oracle m /\ cx_live m' = base /\
     (forall t v, (t < MAX_CONN_TYPES)%nat -> owner_ok m v -> map_at m' t v = Some zero_map)).

Lemma type_alloc_spec base n t m0 m :
  (t + n = MAX_CONN_TYPES)%nat -> counts_ok m0 -> owned m0 = 0 ->
  alloc_result base m0 (fun t' _ => (t' < t)%nat) 0 m ->
  (forall t' v, (t <= t' < MAX_CONN_TYPES)%nat -> owner_ok m0 v -> map_at m0 t' v = Some zero_map) ->
  exists rc m', type_alloc_loop n t (range_start m0 t QED_CXT_PF_CID) (range_start m0 t 0) m = Some (rc, m') /\
    alloc_done base m0 rc m'.
Proof.
  revert t m. induction n as [|n IH]; intros t m Hn C0 O0 R Hz; simpl.
  { exists 0, m. split; [done|]. destruct R as (R1 & R2 & R3 & R4 & [[_ (_ & _ & M)]|[? _]]); [|done].
    split; [done|]. split; [done|]. split; [done|]. left. split; [done|]. intros t' v Ht Hv. rewrite M by done.
    simpl. case_decide as D; [done|]. exfalso. apply D. lia. }
  pose proof R as (C & S & B & Or & _). pose proof C as (Ecfg & Evf & _).
  rewrite <- (range_start_same _ _ t _ C), <- (range_start_same _ _ t 0 C).
  destruct (cid_alloc_single_spec base t m S B ltac:(lia)) as (rc & m1 & E & R1).
  { intros v Hv. assert (owner_ok m0 v) by (unfold owner_ok in *; by rewrite Evf in Hv).
    rewrite (alloc_result_other _ _ _ _ _ _ R) by (try done; lia). apply Hz; [lia|done]. }
  rewrite E. simpl. pose proof R1 as (C1 & S1 & B1 & _ & F). destruct (Z.eqb_spec rc 0) as [->|Hrc]; simpl.
  2:{ destruct F as [[? _]|[-> F]]; [done|]. destruct (cid_map_free_spec base m1 S1 B1) as (m2 & -> & L & C2 & S2 & M2).
      simpl. exists (- ENOMEM), m2. split; [done|]. pose proof (same_cfg_trans _ _ _ C (same_cfg_trans _ _ _ C1 C2)) as C02.
      split; [done|]. split; [done|]. split.
      - unfold balanced. rewrite L, (owned_zero m2 S2); [lia|]. intros t' v p Hv Ep.
        assert (Hv1 : owner_ok m1 v) by (destruct C2 as (_ & Ev2 & _); unfold owner_ok in *; by rewrite <- Ev2).
        assert (H0 : 0 <= v) by (destruct Hv1 as [-> | ?]; [done|lia]).
        destruct (map_at_owner _ _ _ _ S2 H0 Ep) as [Ht' _]. rewrite M2 in Ep by done. by simplify_eq.
      - right. split; [done|]. split; [by apply Or|]. split; [done|]. intros t' v Ht' Hv. apply M2; [done|].
        eapply owner_ok_same; [exact (same_cfg_trans _ _ _ C C1)|exact Hv]. }
  destruct (cfg_at _ t S1 ltac:(lia)) as [c Ec]. rewrite Ec. simpl.
  assert (Ec0 : conn_cfg m0 !! t = Some c) by (destruct C1 as (Ec1 & _); by rewrite <- Ecfg, <- Ec1).
  rewrite !(range_start_same _ _ t _ C).
  destruct (range_bound _ _ QED_CXT_PF_CID _ C0 Ec0) as (? & ? & ?). destruct (range_bound _ _ 0 _ C0 Ec0) as (? & ? & ?).
  change (cid_count c) with (count_of QED_CXT_PF_CID c). change (cids_per_vf c) with (count_of 0 c).
  rewrite !u32_small by lia. rewrite <- !(range_start_S _ _ _ _ Ec0).
  apply IH; [lia|done|done| |intros; apply Hz; [lia|done]].
  eapply alloc_result_trans; [exact R|exact R1|]. simpl. lia.
Qed.

Lemma cid_map_alloc_spec base m :
  shape m -> counts_ok m -> cx_live m = base ->
  (forall t v, (t < MAX_CONN_TYPES)%nat -> owner_ok m v -> map_at m t v = Some zero_map) ->
  exists rc m', qed_cid_map_alloc m = Some (rc, m') /\ alloc_done base m rc m'.
Proof.
  intros S C L Hz.
  assert (O : owned m = 0).
  { apply owned_zero; [done|]. intros t v p Hv Ep. assert (H0 : 0 <= v) by (destruct Hv as [-> | ?]; [done|lia]).
    destruct (map_at_owner _ _ _ _ S H0 Ep) as [Ht _]. rewrite Hz in Ep by done. by simplify_eq. }
  apply (type_alloc_spec base MAX_CONN_TYPES 0 m m); try done; [|intros; apply Hz; [lia|done]].
  split; [done|]. split; [done|]. split; [unfold balanced; lia|]. split; [done|]. left. split; [done|].
  apply rewritten_none; [done|]. simpl. lia.
Qed.

Lemma alloc_done_inv base m m' : counts_ok m -> alloc_done base m 0 m' -> cid_inv m' /\ represents m' ∅.
Proof.
  intros C0 (C & S & _ & [[_ M]|[? _]]); [|done]. pose proof C as (Ecfg & Evf & _).
  assert (Pl : forall t v p, 0 <= v -> map_at m' t v = Some p -> exists c, conn_cfg m !! t = Some c /\
    p = fresh_map (range_start m t v) (count_of v c)).
  { intros t v p Hv Ep. destruct (map_at_owner _ _ _ _ S Hv Ep) as [Ht Ho]. destruct (cfg_at _ t S Ht) as [c Ec].
    rewrite Ecfg in Ec. exists c. split; [done|]. assert (owner_ok m v) by (unfold owner_ok in *; by rewrite <- Evf).
    rewrite M in Ep by done. unfold planned in Ep. rewrite Ec in Ep. by simplify_eq/=. }
  split.
  - split; [done|by eapply counts_ok_same|]. intros t v c p Ec Hv Ep. rewrite Ecfg in Ec.
    assert (H0 : 0 <= v) by (destruct Hv as [-> | ?]; [done|lia]).
    destruct (Pl _ _ _ H0 Ep) as (c' & Ec' & ->). simplify_eq. rewrite (range_start_same _ _ _ _ C).
    unfold map_ok, fresh_map. destruct (count_of v c =? 0); [done|]. simpl. repeat split. eauto.
  - intros v x. split; [set_solver|]. intros (Hv & t & p & b & Ep & Eb & _ & Hb).
    destruct (Pl _ _ _ Hv Ep) as (c & _ & ->). unfold fresh_map in Eb. destruct (_ =? _); simplify_eq/=.
    by rewrite Z.bits_0 in Hb.
Qed.

(** ** Resetting *)

(** [m'] is [m] with the ids chosen by [D] given back. *)
Definition dropped (m : qed_cxt_mngr) (D : nat -> Z -> Prop) (m' : qed_cxt_mngr) : Prop :=
  cid_inv m' /\ same_cfg m m' /\ cx_live m' = cx_live m /\
  forall t v x, 0 <= v -> held m' t v x <-> held m t v x /\ ~ D t v.

Lemma dropped_none m (D : nat -> Z -> Prop) :
  cid_inv m -> (forall t v x, 0 <= v -> held m t v x -> ~ D t v) -> dropped m D m.
Proof. intros I H. split; [done|]. split; [done|]. split; [done|]. intros t v x Hv. split; [|tauto]. eauto. Qed.

Lemma dropped_trans m1 m2 m3 (D D' D'' : nat -> Z -> Prop) :
  dropped m1 D m2 -> dropped m2 D' m3 -> (forall t v x, 0 <= v -> held m1 t v x -> D'' t v <-> D t v \/ D' t v) ->
  dropped m1 D'' m3.
Proof.
  intros (I1 & C1 & L1 & H1) (I2 & C2 & L2 & H2) E. split; [done|]. split; [by eapply same_cfg_trans|].
  split; [congruence|]. intros t v x Hv. rewrite H2, H1 by done. specialize (E t v x Hv). tauto.
Qed.

Lemma reset_spec m t v c :
  cid_inv m -> owner_ok m v -> conn_cfg m !! t = Some c -> count_of v c <> 0 ->
  exists m', map_reset t v m = Some m' /\ dropped m (fun t' v' => t' = t /\ v' = v) m'.
Proof.
  intros I Ho Ec N0. pose proof (cfg_lt _ _ _ (ci_shape _ I) Ec) as Ht. assert (Hv : 0 <= v) by (destruct Ho as [-> | ?]; [done|lia]).
  destruct (inv_map _ t v I Ht Ho) as (c' & p & ? & Ep & Mp). simplify_eq. unfold map_reset. rewrite Ep. simpl.
  destruct (cid_map p) as [b|] eqn:Eb; [|by pose proof (map_ok_none _ _ _ Mp Eb)].
  destruct (map_ok_some _ _ _ _ Mp Eb) as (_ & E1 & E2 & E3). simpl. rewrite E2, E3, Z.ltb_irrefl.
  destruct (range_bound _ _ v _ (ci_counts _ I) Ec) as (B1 & B2 & B3).
  pose proof (map_bytes_size (count_of v c) ltac:(lia)) as Hs.
  eexists. split; [done|]. split; [by eapply inv_set_bits|]. split; [apply set_map_cfg|].
  split; [unfold set_map_at; by destruct (v =? _)|].
  intros t' v' x Hv'. rewrite (held_set_bits _ _ _ _ b) by done. case_decide as D; [|tauto].
  split; [|tauto]. simpl. intros [Hx Hb]. by rewrite Z.shiftl_spec_low in Hb by lia.
Qed.

Lemma vf_reset_spec n vf t m c :
  cid_inv m -> conn_cfg m !! t = Some c -> cids_per_vf c <> 0 -> 0 <= vf -> vf + Z.of_nat n <= num_of_vfs m ->
  exists m', vf_reset_loop n vf t m = Some m' /\ dropped m (fun t' v => t' = t /\ vf <= v < vf + Z.of_nat n) m'.
Proof.
  revert vf m. induction n as [|n IH]; intros vf m I Ec N0 H0 Hn; simpl.
  { exists m. split; [done|]. apply dropped_none; [done|]. lia. }
  pose proof (sh_vfs _ (ci_shape _ I)) as Hvfs.
  destruct (reset_spec m t vf c I ltac:(right; lia) Ec) as (m1 & -> & R1).
  { unfold count_of. destruct (Z.eqb_spec vf QED_CXT_PF_CID); [lia|done]. }
  simpl. pose proof R1 as (I1 & (Ecfg & Evf & _) & _).
  destruct (IH (vf + 1) m1 I1 ltac:(by rewrite Ecfg) N0 ltac:(lia) ltac:(lia)) as (m2 & -> & R2).
  exists m2. split; [done|]. eapply dropped_trans; [exact R1|exact R2|]. simpl. lia.
Qed.

(** Nothing is held from an empty range. *)
Lemma held_nonzero m t v x c : cid_inv m -> 0 <= v -> conn_cfg m !! t = Some c -> held m t v x -> count_of v c <> 0.
Proof. intros I Hv Ec H. destruct (held_range _ _ _ _ I Hv H) as (c' & ? & _ & ?). simplify_eq. lia. Qed.

Lemma type_reset_spec n t m :
  cid_inv m -> (t + n = MAX_CONN_TYPES)%nat ->
  exists m', type_reset_loop n t m = Some m' /\ dropped m (fun t' _ => (t <= t')%nat) m'.
Proof.
  revert t m. induction n as [|n IH]; intros t m I Hn; simpl.
  { exists m. split; [done|]. apply dropped_none; [done|]. intros t' v x Hv (c & Ec & _)%held_range; try done.
    apply (cfg_lt _ _ _ (ci_shape _ I)) in Ec. lia. }
  destruct (cfg_at _ t (ci_shape _ I) ltac:(lia)) as [c Ec]. rewrite Ec. simpl.
  assert (H1 : exists m1, (if negb (cid_count c =? 0) then map_reset t QED_CXT_PF_CID m else Some m) = Some m1 /\
    dropped m (fun t' v => t' = t /\ v = QED_CXT_PF_CID) m1).
  { destruct (Z.eqb_spec (cid_count c) 0) as [E0|N0]; simpl; [|apply (reset_spec _ _ _ c); try done; by left].
    exists m. split; [done|]. apply dropped_none; [done|]. intros t' v x Hv Hh [-> ->].
    by apply (held_nonzero _ _ _ _ _ I Hv Ec Hh). }
  destruct H1 as (m1 & -> & R1). simpl. pose proof R1 as (I1 & (Ecfg & Evf & _) & _). pose proof (sh_vfs _ (ci_shape _ I1)) as Hvfs.
  assert (H2 : exists m2, (if negb (cids_per_vf c =? 0) then vf_reset_loop (Z.to_nat (num_of_vfs m1)) 0 t m1 else Some m1) = Some m2 /\
    dropped m1 (fun t' v => t' = t /\ v <> QED_CXT_PF_CID) m2).
  { destruct (Z.eqb_spec (cids_per_vf c) 0) as [E0|N0]; simpl.
    - exists m1. split; [done|]. apply dropped_none; [done|]. intros t' v x Hv Hh [-> Hpf].
      apply (held_nonzero _ _ _ _ c I1 Hv ltac:(by rewrite Ecfg) Hh). by rewrite count_of_vf.
    - destruct (vf_reset_spec (Z.to_nat (num_of_vfs m1)) 0 t m1 c I1 ltac:(by rewrite Ecfg) N0 ltac:(lia) ltac:(lia)) as (m2 & E & R).
      exists m2. split; [done|]. destruct R as (R1' & R2 & R3 & R4). split; [done|]. split; [done|]. split; [done|].
      intros t' v x Hv. rewrite R4 by done. split; intros [Hh D]; (split; [done|]);
        destruct (held_range _ _ _ _ I1 Hv Hh) as (_ & _ & [-> | ?] & _); lia. }
  destruct H2 as (m2 & -> & R2). simpl.
  destruct (IH (S t) m2 ltac:(apply R2) ltac:(lia)) as (m3 & -> & R3). exists m3. split; [done|].
  eapply (dropped_trans _ m1 _ _ (fun t' v => t' = t /\ v <> QED_CXT_PF_CID \/ (t < t')%nat)); [exact R1| |simpl; lia].
  eapply dropped_trans; [exact R2|exact R3|]. simpl. lia.
Qed.

(** After a reset no id is in use. *)
Lemma setup_spec m :
  cid_inv m -> exists m', qed_cxt_mngr_setup m = Some m' /\ cid_inv m' /\ represents m' ∅ /\ same_cfg m m' /\ cx_live m' = cx_live m.
Proof.
  intros I. destruct (type_reset_spec MAX_CONN_TYPES 0 m I eq_refl) as (m' & E & I' & C & L & H). exists m'.
  split; [done|]. split; [done|]. split; [|done]. intros v x. split; [set_solver|]. intros (Hv & t & Hh).
  apply H in Hh as [_ D]; [|done]. lia.
Qed.

(** ** The doorbell limits *)

Definition aligned (z : Z) : Prop := z mod DQ_RANGE_ALIGN = 0.
Definition all_aligned (m : qed_cxt_mngr) : Prop := Forall (fun c => aligned (cid_count c) /\ aligned (cids_per_vf c)) (conn_cfg m).

Lemma sum_aligned m t v : all_aligned m -> aligned (range_start m t v).
Proof.
  unfold all_aligned, range_start. intros H. apply (Forall_take _ t) in H. revert H. generalize (take t (conn_cfg m)). intros l.
  induction 1 as [|c l [H1 H2] _ IH]; simpl; [done|]. unfold aligned in *.
  rewrite Z.add_mod by done. unfold count_of. destruct (v =? _); by rewrite ?H1, ?H2, IH.
Qed.

Lemma shift_sum a b : aligned a -> 0 <= a -> Z.shiftr a DQ_RANGE_SHIFT + Z.shiftr b DQ_RANGE_SHIFT = Z.shiftr (a + b) DQ_RANGE_SHIFT.
Proof.
  unfold aligned, DQ_RANGE_ALIGN, DQ_RANGE_SHIFT. intros Ha H0. rewrite !Z.shiftr_div_pow2 by lia. change (2 ^ 4) with 16 in *.
  apply Z.mod_divide in Ha as [q ->]; [|done]. rewrite Z.add_comm, (Z.add_comm (q * 16)), Z.div_add, Z.div_mul by done. lia.
Qed.

(** The registers of the protocols handled so far hold the ends of their ranges
    in units of [DQ_RANGE_ALIGN]. *)
Definition limits_upto (m0 : qed_cxt_mngr) (t : nat) (m : qed_cxt_mngr) : Prop :=
  forall i, (i < t)%nat ->
    rt_data m !! (DORQ_REG_PF_MAX_ICID_0_RT_OFFSET + Z.of_nat i) = Some (Z.shiftr (range_start m0 (S i) QED_CXT_PF_CID) DQ_RANGE_SHIFT) /\
    rt_data m !! (DORQ_REG_VF_MAX_ICID_0_RT_OFFSET + Z.of_nat i) = Some (Z.shiftr (range_start m0 (S i) 0) DQ_RANGE_SHIFT).

Lemma store_rt off val m : off < RUNTIME_ARRAY_SIZE -> qed_init_store_rt_reg off val m = m <| rt_data := <[off := val]> (rt_data m) |>.
Proof. intros H. unfold qed_init_store_rt_reg. destruct (Z.leb_spec RUNTIME_ARRAY_SIZE off); [lia|done]. Qed.

Lemma shift_bound z : 0 <= z < 2 ^ 32 -> 0 <= Z.shiftr z DQ_RANGE_SHIFT < 2 ^ 32.
Proof.
  intros H. unfold DQ_RANGE_SHIFT. rewrite Z.shiftr_div_pow2 by lia. change (2 ^ 4) with 16.
  split; [apply Z.div_pos; lia|]. apply Z.div_lt_upper_bound; lia.
Qed.

Lemma dq_stores_spec m0 n t m :
  shape m0 -> counts_ok m0 -> all_aligned m0 -> (t + n <= MAX_CONN_TYPES)%nat ->
  conn_cfg m = conn_cfg m0 -> limits_upto m0 t m ->
  exists rt, dq_stores n t (Z.shiftr (range_start m0 t QED_CXT_PF_CID) DQ_RANGE_SHIFT) (Z.shiftr (range_start m0 t 0) DQ_RANGE_SHIFT) m =
      Some (Z.shiftr (range_start m0 (t + n) QED_CXT_PF_CID) DQ_RANGE_SHIFT, Z.shiftr (range_start m0 (t + n) 0) DQ_RANGE_SHIFT,
            m <| rt_data := rt |>) /\
    limits_upto m0 (t + n) (m <| rt_data := rt |>).
Proof.
  intros S C A. revert t m. induction n as [|n IH]; intros t m Hn Ecfg L; simpl.
  { exists (rt_data m). rewrite Nat.add_0_r. split; [by destruct m|done]. }
  destruct (cfg_at _ t S ltac:(lia)) as [c Ec]. rewrite Ecfg, Ec. simpl.
  destruct (range_bound _ _ QED_CXT_PF_CID _ C Ec) as (P1 & P2 & P3). destruct (range_bound _ _ 0 _ C Ec) as (V1 & V2 & V3).
  change (cid_count c) with (count_of QED_CXT_PF_CID c). change (cids_per_vf c) with (count_of 0 c).
  rewrite !shift_sum by (try done; by apply sum_aligned). rewrite !u32_small by (apply shift_bound; lia).
  rewrite <- !(range_start_S _ _ _ _ Ec).
  rewrite !store_rt by (unfold RUNTIME_ARRAY_SIZE, DORQ_REG_PF_MAX_ICID_0_RT_OFFSET, DORQ_REG_VF_MAX_ICID_0_RT_OFFSET, MAX_CONN_TYPES in *; lia).
  simpl. match goal with |- context [dq_stores n _ _ _ ?q] => destruct (IH (Datatypes.S t) q) as (rt & E & L') end; [lia|done| |].
  - intros i Hi. unfold DORQ_REG_PF_MAX_ICID_0_RT_OFFSET, DORQ_REG_VF_MAX_ICID_0_RT_OFFSET, MAX_CONN_TYPES in *. simpl.
    destruct (decide (i = t)) as [->|Hne].
    + rewrite lookup_insert_ne by lia. by rewrite !lookup_insert_eq.
    + rewrite !lookup_insert_ne by lia. apply L. lia.
  - exists rt. rewrite E. replace (t + Datatypes.S n)%nat with (Datatypes.S t + n)%nat by lia. done.
Qed.

(** The limit registers after [qed_dq_init_pf]: the ends of the ranges of the
    protocols in use; the two unused ones repeat the last. *)
Lemma dq_init_spec m :
  shape m -> counts_ok m -> all_aligned m ->
  exists rt, qed_dq_init_pf m = Some (m <| rt_data := rt |>) /\ limits_upto m 6 (m <| rt_data := rt |>) /\
    forall i, (6 <= i < 8)%nat ->
      rt !! (DORQ_REG_PF_MAX_ICID_0_RT_OFFSET + Z.of_nat i) = Some (Z.shiftr (range_start m 6 QED_CXT_PF_CID) DQ_RANGE_SHIFT) /\
      rt !! (DORQ_REG_VF_MAX_ICID_0_RT_OFFSET + Z.of_nat i) = Some (Z.shiftr (range_start m 6 0) DQ_RANGE_SHIFT).
Proof.
  intros S C A. unfold qed_dq_init_pf.
  destruct (dq_stores_spec m 6 0 m S C A ltac:(unfold MAX_CONN_TYPES; lia) eq_refl ltac:(intros i Hi; lia)) as (rt & E & L).
  change (Z.shiftr (range_start m 0 QED_CXT_PF_CID) DQ_RANGE_SHIFT) with 0 in E.
  change (Z.shiftr (range_start m 0 0) DQ_RANGE_SHIFT) with 0 in E. rewrite E. simpl.
  rewrite !store_rt by done. simpl. eexists. split; [done|]. unfold limits_upto in *. simpl in *. split.
  - intros i Hi. unfold DORQ_REG_PF_MAX_ICID_0_RT_OFFSET, DORQ_REG_VF_MAX_ICID_0_RT_OFFSET in *.
    rewrite !lookup_insert_ne by lia. by apply L.
  - intros i Hi. unfold DORQ_REG_PF_MAX_ICID_0_RT_OFFSET, DORQ_REG_VF_MAX_ICID_0_RT_OFFSET in *.
    assert (i = 6 \/ i = 7)%nat as [-> | ->] by lia; split; by simplify_map_eq.
Qed.

(** A range lies between its limits. *)
Lemma limit_range m t v c :
  cid_inv m -> all_aligned m -> conn_cfg m !! t = Some c ->
  Z.shiftr (range_start m t v) DQ_RANGE_SHIFT * DQ_RANGE_ALIGN = range_start m t v /\
  Z.shiftr (range_start m (S t) v) DQ_RANGE_SHIFT * DQ_RANGE_ALIGN = range_start m t v + count_of v c.
Proof.
  intros I A Ec. rewrite <- (range_start_S _ _ _ _ Ec).
  assert (K : forall i, Z.shiftr (range_start m i v) DQ_RANGE_SHIFT * DQ_RANGE_ALIGN = range_start m i v).
  { intros i. pose proof (sum_aligned m i v A) as H. unfold aligned in H. unfold DQ_RANGE_SHIFT. rewrite Z.shiftr_div_pow2 by lia.
    change (2 ^ 4) with DQ_RANGE_ALIGN. pose proof (Z.div_mod (range_start m i v) DQ_RANGE_ALIGN ltac:(done)). lia. }
  by rewrite !K.
Qed.

(** ** Configured counts *)

Lemma roundup_mult x y : 0 < y -> (x + (y - 1)) / y * y mod y = 0.
Proof. intros H. by rewrite Z.mod_mul by lia. Qed.

Lemma roundup_least x y : 0 < y -> x <= (x + (y - 1)) / y * y < x + y.
Proof.
  intros H. pose proof (Z.div_mod (x + (y - 1)) y ltac:(lia)). pose proof (Z.mod_pos_bound (x + (y - 1)) y H). lia.
Qed.

Lemma roundup_ul_aligned x : aligned (roundup_ul x DQ_RANGE_ALIGN).
Proof.
  unfold aligned, roundup_ul, u32. change DQ_RANGE_ALIGN with (2 ^ 4). rewrite mod_mod_pow2 by lia. by apply roundup_mult.
Qed.

(** The alignment of RoCE: full ILT pages and full doorbell ranges. *)
Definition roce_align (epp : Z) : Z := u32 (epp * DQ_RANGE_ALIGN) / Z.gcd epp DQ_RANGE_ALIGN.

Lemma roce_align_spec epp : 0 < epp < 2 ^ 28 -> 0 < roce_align epp /\ (DQ_RANGE_ALIGN | roce_align epp) /\ (epp | roce_align epp).
Proof.
  intros H. unfold roce_align. rewrite u32_small by (unfold DQ_RANGE_ALIGN, DQ_RANGE_SHIFT; lia).
  destruct (Z.gcd_divide_l epp DQ_RANGE_ALIGN) as [a Ha]. destruct (Z.gcd_divide_r epp DQ_RANGE_ALIGN) as [b Hb].
  set (g := Z.gcd epp DQ_RANGE_ALIGN) in *. assert (Hg : 0 < g).
  { assert (0 <= g) by apply Z.gcd_nonneg. assert (g <> 0); [|lia]. intros G. rewrite G in Hb. unfold DQ_RANGE_ALIGN, DQ_RANGE_SHIFT in Hb. lia. }
  assert (E : epp * DQ_RANGE_ALIGN / g = a * DQ_RANGE_ALIGN).
  { rewrite Ha at 1. replace (a * g * DQ_RANGE_ALIGN) with (a * DQ_RANGE_ALIGN * g) by ring. by rewrite Z.div_mul by lia. }
  assert (E' : epp * DQ_RANGE_ALIGN / g = b * epp).
  { rewrite Hb at 1. replace (epp * (b * g)) with (b * epp * g) by ring. by rewrite Z.div_mul by lia. }
  split; [rewrite E; unfold DQ_RANGE_ALIGN, DQ_RANGE_SHIFT; nia|]. split; [by exists a|]. by exists b.
Qed.

Lemma roundup_u32_aligned x y r : 0 < y -> roundup_u32 x y = Some r -> (y | r) /\ 0 <= r < 2 ^ 32.
Proof.
  intros Hy. unfold roundup_u32. destruct (Z.eqb_spec y 0); [lia|]. intros [= <-].
  pose proof (u32_bound (x + (y - 1))) as B. pose proof (Z.div_mod (u32 (x + (y - 1))) y ltac:(lia)).
  pose proof (Z.mod_pos_bound (u32 (x + (y - 1))) y Hy).
  assert (0 <= u32 (x + (y - 1)) / y) by (apply Z.div_pos; lia).
  rewrite (u32_small (_ * _)) by nia. split; [by apply Z.divide_factor_r|nia].
Qed.

(** A configuration call: counts as small as the alignment of the protocol
    allows (the requests fit in 32 bits with room for the rounding). *)
Definition proto_align (epp : Z) (t : nat) : Z := if bool_decide (t = PROTOCOLID_ROCE) then roce_align epp else DQ_RANGE_ALIGN.

Lemma set_proto_aligned epp t cnt vcnt m m' :
  0 < epp < 2 ^ 28 -> all_aligned m -> qed_cxt_set_proto_cid_count epp t cnt vcnt m = Some m' -> all_aligned m'.
Proof.
  intros He A. unfold qed_cxt_set_proto_cid_count. destruct (conn_cfg m !! t) as [c|] eqn:Ec; [|done]. simpl.
  destruct (roce_align_spec epp He) as (P1 & P2 & P3). fold (roce_align epp).
  assert (K : forall a b, aligned a -> aligned b ->
    all_aligned (m <| conn_cfg := <[t := c <| cid_count := a |> <| cids_per_vf := b |>]> (conn_cfg m) |>)).
  { intros a b Ha Hb. apply Forall_insert; [exact A|]. done. }
  assert (D : forall x, (roce_align epp | x) -> aligned x).
  { intros x Hx. apply Z.mod_divide; [done|]. by transitivity (roce_align epp). }
  case_bool_decide as Et; simpl.
  - destruct (roundup_u32 (roundup_ul cnt _) _) as [a|] eqn:Ea; [|done]. simpl.
    destruct (roundup_u32 (roundup_ul vcnt _) _) as [b|] eqn:Eb; [|done]. simpl. intros [= <-].
    apply roundup_u32_aligned in Ea as [Ea _]; [|done]. apply roundup_u32_aligned in Eb as [Eb _]; [|done]. by apply K; apply D.
  - intros [= <-]. apply K; apply roundup_ul_aligned.
Qed.
