(* ===== verification/CxtClaims.v ===== *)
(** * Properties of the connection-id manager

    Allocation, the runs of acquire, release and reset, and the agreement of the
    ids handed out with the limits of the doorbell block. *)

From S2P Require Import Prelude Cxt CxtProps CxtAlloc.

(** ** Counts *)

Lemma roundup_again x a l : 0 < a -> 0 < l -> (a | l) ->
  ((x + (a - 1)) / a * a + (l - 1)) / l * l = (x + (l - 1)) / l * l.
Proof.
  intros Ha Hl [k Hk]. set (r := (x + (a - 1)) / a * a). set (q := (x + (l - 1)) / l).
  pose proof (roundup_least x a Ha) as R. fold r in R. pose proof (roundup_least x l Hl) as Q. fold q in Q.
  assert (H : r <= q * l).
  { unfold r in *. set (w := (x + (a - 1)) / a) in *. rewrite Hk in *.
    assert (w < q * k + 1); [|nia]. apply Z.nle_gt. intros N. nia. }
  f_equal. apply (div_unique_pos _ _ q (r + (l - 1) - q * l)); lia.
Qed.

(** What configuring the counts of a protocol stores. *)
Lemma set_proto_exact epp t cnt vcnt m c :
  0 < epp < 2 ^ 28 -> conn_cfg m !! t = Some c -> 0 <= cnt -> 0 <= vcnt ->
  cnt + proto_align epp t + DQ_RANGE_ALIGN < 2 ^ 32 -> vcnt + proto_align epp t + DQ_RANGE_ALIGN < 2 ^ 32 ->
  let up x := (x + (proto_align epp t - 1)) / proto_align epp t * proto_align epp t in
  qed_cxt_set_proto_cid_count epp t cnt vcnt m =
  Some (m <| conn_cfg := <[t := c <| cid_count := up cnt |> <| cids_per_vf := up vcnt |>]> (conn_cfg m) |>).
Proof.
  intros He Ec H0 V0 Hc Hv. destruct (roce_align_spec epp He) as (P1 & P2 & _).
  unfold qed_cxt_set_proto_cid_count, proto_align in *. rewrite Ec. simpl. fold (roce_align epp).
  change DQ_RANGE_ALIGN with 16 in *.
  assert (U16 : forall x, 0 <= x -> x + 16 < 2 ^ 32 -> roundup_ul x 16 = (x + (16 - 1)) / 16 * 16).
  { intros x Hx Hx2. unfold roundup_ul. pose proof (roundup_least x 16 ltac:(lia)). by rewrite u32_small by lia. }
  case_bool_decide as Et; simpl.
  - assert (U : forall x, 0 <= x -> x + roce_align epp + 16 < 2 ^ 32 -> roundup_u32 (roundup_ul x 16) (roce_align epp) =
      Some ((x + (roce_align epp - 1)) / roce_align epp * roce_align epp)).
    { intros x Hx Hx2. rewrite U16 by lia. unfold roundup_u32. destruct (Z.eqb_spec (roce_align epp) 0); [lia|].
      pose proof (roundup_least x 16 ltac:(lia)). pose proof (roundup_least x (roce_align epp) P1).
      rewrite (u32_small (_ + _)), roundup_again by (try done; lia). by rewrite u32_small by lia. }
    by rewrite !U by lia.
  - by rewrite !U16 by lia.
Qed.

(** ** Allocation *)

(** A manager whose maps have not been allocated. *)
Record unallocated (m : qed_cxt_mngr) : Prop := {
  ua_shape : shape m;
  ua_counts : counts_ok m;
  ua_maps : forall t v, (t < MAX_CONN_TYPES)%nat -> owner_ok m v -> map_at m t v = Some zero_map
}.

(** The manager as it is first, for [n] VFs. *)
Definition new_mngr (n : nat) (oracle : list bool) : qed_cxt_mngr :=
  mk_qed_cxt_mngr (replicate MAX_CONN_TYPES (mk_qed_conn_type_cfg 0 0 (replicate 5 zero_seg)))
    (replicate MAX_CONN_TYPES zero_map) (replicate MAX_CONN_TYPES (Some (replicate n zero_map))) (Z.of_nat n) ∅ oracle 0.

Lemma new_mngr_ok n oracle : Z.of_nat n < QED_CXT_PF_CID -> unallocated (new_mngr n oracle).
Proof.
  intros Hn. assert (S : shape (new_mngr n oracle)).
  { split; [done|done|done| |unfold QED_CXT_PF_CID in *; simpl; lia]. intros t row [-> _]%lookup_replicate. eexists. split; [done|].
    simpl. by rewrite length_replicate, Nat2Z.id. }
  split; [done| |].
  - split; [|done..]. apply Forall_replicate. done.
  - intros t v Ht Hv. destruct (map_at_some _ _ _ S Ht Hv) as [p Ep]. rewrite Ep. f_equal. revert Ep. unfold map_at.
    destruct (v =? QED_CXT_PF_CID); [by intros [-> _]%lookup_replicate|].
    unfold new_mngr, acquired_vf. rewrite (lookup_replicate_2 MAX_CONN_TYPES) by done. simpl. by intros [-> _]%lookup_replicate.
Qed.

(** Configuring counts keeps a manager unallocated as long as the totals fit. *)
Lemma unallocated_cfg m cfgs :
  unallocated m -> length cfgs = MAX_CONN_TYPES -> counts_ok (m <| conn_cfg := cfgs |>) -> unallocated (m <| conn_cfg := cfgs |>).
Proof. intros [[S1 S2 S3 S4 S5] C M] L C'. split; [by split|done|]. exact M. Qed.

(** ** Runs *)

Inductive cid_op :=
  | CAcquire (type v : Z)
  | CRelease (cid v : Z)
  | CReset.

(** The owner of an operation is a [u8]. *)
Definition op_ok (o : cid_op) : Prop :=
  match o with CAcquire _ v | CRelease _ v => 0 <= v < 256 | CReset => True end.

Definition exec_op (o : cid_op) (m : qed_cxt_mngr) : option (option (Z * option Z) * qed_cxt_mngr) :=
  match o with
  | CAcquire t v => '(r, m) ← _qed_cxt_acquire_cid t v m; Some (Some r, m)
  | CRelease x v => m ← _qed_cxt_release_cid x v m; Some (None, m)
  | CReset => m ← qed_cxt_mngr_setup m; Some (None, m)
  end.
Fixpoint exec_ops (l : list cid_op) (m : qed_cxt_mngr) : option (list (option (Z * option Z)) * qed_cxt_mngr) :=
  match l with
  | [] => Some ([], m)
  | o :: l => '(r, m) ← exec_op o m; '(rs, m) ← exec_ops l m; Some (r :: rs, m)
  end.

(** The operations on sets.  A release for the VF number one past the last is
    a fault: the test for it is [vfid > max_num_vfs]. *)
Definition spec_op (cfgs : list qed_conn_type_cfg) (nvfs : Z) (o : cid_op) (s : cid_set) : option (option (Z * option Z) * cid_set) :=
  match o with
  | CAcquire t v => let '(r, s) := spec_acquire cfgs nvfs t v s in Some (Some r, s)
  | CRelease x v => if v =? nvfs then None else Some (None, spec_release x v s)
  | CReset => Some (None, ∅)
  end.
Fixpoint spec_ops (cfgs : list qed_conn_type_cfg) (nvfs : Z) (l : list cid_op) (s : cid_set)
    : option (list (option (Z * option Z)) * cid_set) :=
  match l with
  | [] => Some ([], s)
  | o :: l => '(r, s) ← spec_op cfgs nvfs o s; '(rs, s) ← spec_ops cfgs nvfs l s; Some (r :: rs, s)
  end.

(** The outcome of a step or a run of the code is the one of the sets: the
    answers and a manager that represents the set, or a fault. *)
Definition refines {R : Type} (m : qed_cxt_mngr) (code : option (R * qed_cxt_mngr)) (spec : option (R * cid_set)) : Prop :=
  match spec with
  | Some (r, s) => exists m', code = Some (r, m') /\ cid_inv m' /\ represents m' s /\ same_cfg m m' /\ cx_live m' = cx_live m
  | None => code = None
  end.

Lemma release_past_last m x : shape m -> _qed_cxt_release_cid x (num_of_vfs m) m = None.
Proof.
  intros [_ _ S3 S4 S5]. unfold _qed_cxt_release_cid. rewrite Z.ltb_irrefl, andb_false_r.
  assert (E : map_at m 0 (num_of_vfs m) = None).
  { unfold map_at. rewrite (proj2 (Z.eqb_neq _ _)) by lia. destruct (acquired_vf m !! 0%nat) as [row|] eqn:Er; [|done].
    destruct (S4 _ _ Er) as (l & -> & Hl). simpl. apply lookup_ge_None. lia. }
  unfold qed_cxt_test_cid_acquired. change MAX_CONN_TYPES with (S 7). cbn [find_type]. by rewrite E.
Qed.

Lemma exec_op_refines o m s :
  cid_inv m -> represents m s -> op_ok o -> refines m (exec_op o m) (spec_op (conn_cfg m) (num_of_vfs m) o s).
Proof.
  intros I R Ho. destruct o as [t v|x v|]; simpl in *.
  - destruct (acquire_spec m s t v I R ltac:(lia)) as (m' & -> & H).
    destruct (spec_acquire _ _ _ _ _) as [r s']. by exists m'.
  - destruct (Z.eqb_spec v (num_of_vfs m)) as [->|Hn]; simpl; [by rewrite release_past_last by apply I|].
    destruct (release_spec m s x v I R ltac:(lia) Hn) as (m' & -> & H). by exists m'.
  - destruct (setup_spec m I) as (m' & -> & H). by exists m'.
Qed.

Lemma exec_ops_refine l m s :
  cid_inv m -> represents m s -> Forall op_ok l -> refines m (exec_ops l m) (spec_ops (conn_cfg m) (num_of_vfs m) l s).
Proof.
  revert m s. induction l as [|o l IH]; intros m s I R Hl; simpl; [by exists m|]. inversion_clear Hl as [|? ? Ho Hl'].
  pose proof (exec_op_refines o m s I R Ho) as H1.
  destruct (spec_op (conn_cfg m) (num_of_vfs m) o s) as [[r s1]|]; simpl in *; [|by rewrite H1].
  destruct H1 as (m1 & -> & I1 & R1 & C1 & L1). simpl. pose proof C1 as (Ec & Ev & _).
  specialize (IH m1 s1 I1 R1 Hl'). rewrite Ec, Ev in IH.
  destruct (spec_ops (conn_cfg m) (num_of_vfs m) l s1) as [[rs s2]|]; simpl in *; [|by rewrite IH].
  destruct IH as (m2 & -> & I2 & R2 & C2 & L2). exists m2. split; [done|]. split; [done|].
  split; [done|]. split; [by eapply same_cfg_trans|congruence].
Qed.

(** A run of the code that does not fault. *)
Lemma cid_ops_inv l m s rs m' :
  cid_inv m -> represents m s -> Forall op_ok l -> exec_ops l m = Some (rs, m') ->
  exists s', cid_inv m' /\ represents m' s' /\ same_cfg m m'.
Proof.
  intros I R Hl E. pose proof (exec_ops_refine l m s I R Hl) as H. rewrite E in H.
  destruct (spec_ops _ _ l s) as [[rs' s']|]; [|done]. destruct H as (m2 & [= <- <-] & H). exists s'. tauto.
Qed.

(** Allocated and set up, a manager is ready with no id in use. *)
Lemma ready m0 m1 m2 :
  unallocated m0 -> qed_cid_map_alloc m0 = Some (0, m1) -> qed_cxt_mngr_setup m1 = Some m2 ->
  cid_inv m2 /\ represents m2 ∅ /\ same_cfg m0 m2.
Proof.
  intros [S C M] Ea Es. destruct (cid_map_alloc_spec _ m0 S C eq_refl M) as (rc & m' & Ea' & D). simplify_eq.
  destruct (alloc_done_inv _ _ _ C D) as [I R]. destruct (setup_spec _ I) as (m' & Es' & I' & R' & C' & _). simplify_eq.
  split; [done|]. split; [done|]. eapply same_cfg_trans; [apply D|done].
Qed.

(** ** Configuration *)

(** Configuration calls: protocol, cids of the physical function, cids of a
    VF. *)
Fixpoint configure (epp : Z) (l : list (nat * Z * Z)) (m : qed_cxt_mngr) : option qed_cxt_mngr :=
  match l with
  | [] => Some m
  | (t, cnt, vcnt) :: l => m ← qed_cxt_set_proto_cid_count epp t cnt vcnt m; configure epp l m
  end.

Lemma set_proto_frame epp t cnt vcnt m m' :
  qed_cxt_set_proto_cid_count epp t cnt vcnt m = Some m' ->
  exists cfgs, m' = m <| conn_cfg := cfgs |> /\ length cfgs = length (conn_cfg m).
Proof.
  unfold qed_cxt_set_proto_cid_count. destruct (conn_cfg m !! t) as [c|]; [|done]. simpl.
  match goal with |- context [mbind _ ?x] => destruct x as [[a b]|] end; [|done]. simpl. intros [= <-].
  eexists. split; [done|]. by rewrite length_insert.
Qed.

Lemma configure_spec epp l m m' :
  0 < epp < 2 ^ 28 -> configure epp l m = Some m' -> all_aligned m ->
  exists cfgs, m' = m <| conn_cfg := cfgs |> /\ length cfgs = length (conn_cfg m) /\ all_aligned m'.
Proof.
  intros He. revert m. induction l as [|[[t cnt] vcnt] l IH]; intros m; simpl.
  { intros [= <-] A. exists (conn_cfg m). by destruct m. }
  destruct (qed_cxt_set_proto_cid_count epp t cnt vcnt m) as [m1|] eqn:E; [|done]. simpl. intros E' A.
  destruct (set_proto_frame _ _ _ _ _ _ E) as (c1 & -> & L1).
  destruct (IH _ E' (set_proto_aligned _ _ _ _ _ _ He A E)) as (c2 & -> & L2 & A2).
  exists c2. split; [done|]. split; [by rewrite L2|done].
Qed.

(** ** Claims *)

(** C8: After allocation and set-up, every sequence of acquires, releases and
    resets, for any [u8] owner, with any protocol number and any id, behaves as
    operations on a set of pairs of owner and id: an acquire returns the least id
    of the range of its protocol that the owner does not hold, or -EINVAL when
    there is none or the arguments are out of range; a release removes the id if
    it is held and does nothing otherwise; a reset empties the set.  The bitmaps
    represent the set at the end.  The one exception is part of the
    specification: a release for the VF number one past the last reads past the
    array of maps, and a run with such a release faults at it; no other run
    faults. *)
Theorem cid_ops_refine_set m0 m1 m2 l :
  unallocated m0 -> qed_cid_map_alloc m0 = Some (0, m1) -> qed_cxt_mngr_setup m1 = Some m2 -> Forall op_ok l ->
  match spec_ops (conn_cfg m0) (num_of_vfs m0) l ∅ with
  | Some (rs, s) => exists m', exec_ops l m2 = Some (rs, m') /\ represents m' s /\ cx_live m' = cx_live m2
  | None => exec_ops l m2 = None
  end.
Proof.
  intros U Ea Es Hl. destruct (ready _ _ _ U Ea Es) as (I & R & (Ec & Ev & _)).
  pose proof (exec_ops_refine l m2 ∅ I R Hl) as H. rewrite Ec, Ev in H.
  destruct (spec_ops _ _ l ∅) as [[rs s]|]; [|done]. destruct H as (m' & E & _ & R' & _ & L). by exists m'.
Qed.

(** C29: Allocation of the bitmaps of a new manager never faults.  It returns 0
    and every protocol and owner with cids has a zeroed bitmap of at least that
    many bits, the ranges of an owner following each other from 0 in the order
    of the protocols; or an allocation failed, it returns -ENOMEM, every map is
    cleared and nothing is leaked.  Freeing after either outcome gives back
    exactly what was taken. *)
Theorem cid_alloc_exact m0 :
  unallocated m0 ->
  exists rc m1, qed_cid_map_alloc m0 = Some (rc, m1) /\
    (rc = 0 /\ (forall t v c, conn_cfg m0 !! t = Some c -> owner_ok m0 v ->
        map_at m1 t v = Some (fresh_map (range_start m0 t v) (count_of v c)) /\
        count_of v c <= map_bytes (count_of v c) * 8) \/
     rc = - ENOMEM /\ false ∈ cx_oracle m0 /\ cx_live m1 = cx_live m0 /\
       (forall t v, (t < MAX_CONN_TYPES)%nat -> owner_ok m0 v -> map_at m1 t v = Some zero_map)) /\
    exists m2, qed_cid_map_free m1 = Some m2 /\ cx_live m2 = cx_live m0 /\
      (forall t v, (t < MAX_CONN_TYPES)%nat -> owner_ok m0 v -> map_at m2 t v = Some zero_map).
Proof.
  intros [S C M]. destruct (cid_map_alloc_spec _ m0 S C eq_refl M) as (rc & m1 & E & C1 & S1 & B1 & D).
  exists rc, m1. split; [done|]. split.
  - destruct D as [[-> D]|D]; [left|by right]. split; [done|]. intros t v c Ec Hv.
    destruct (range_bound _ _ v _ C Ec) as (? & ? & ?). split; [|apply map_bytes_size; lia].
    rewrite D by (try done; exact (cfg_lt _ _ _ S Ec)). unfold planned. by rewrite Ec.
  - destruct (cid_map_free_spec _ m1 S1 B1) as (m2 & E2 & L2 & C2 & S2 & M2). exists m2. split; [done|]. split; [done|].
    intros t v Ht Hv. apply M2; [done|]. by eapply owner_ok_same.
Qed.

(** In every run, an id that an acquire hands to an owner was not in use by
    that owner, is the least such id of its protocol's range, and is in use by
    the owner for that protocol and no other afterwards. *)
Theorem cid_handed_out_once m0 m1 m2 l rs m3 t v x m4 :
  unallocated m0 -> qed_cid_map_alloc m0 = Some (0, m1) -> qed_cxt_mngr_setup m1 = Some m2 ->
  Forall op_ok l -> exec_ops l m2 = Some (rs, m3) -> 0 <= v < 256 ->
  _qed_cxt_acquire_cid t v m3 = Some (0, Some x, m4) ->
  exists c, conn_cfg m0 !! Z.to_nat t = Some c /\
    range_start m0 (Z.to_nat t) v <= x < range_start m0 (Z.to_nat t) v + count_of v c /\
    (forall t', ~ held m3 t' v x) /\
    (forall y, range_start m0 (Z.to_nat t) v <= y < x -> held m3 (Z.to_nat t) v y) /\
    (forall t', held m4 t' v x <-> t' = Z.to_nat t).
Proof.
  intros U Ea Es Hl Er Hv Eq. destruct (ready _ _ _ U Ea Es) as (I & R & C02). pose proof C02 as (Ec & Ev & _).
  destruct (cid_ops_inv l m2 ∅ rs m3 I R Hl Er) as (s & I3 & R3 & C23). rename m3 into m'.
  pose proof (same_cfg_trans _ _ _ C02 C23) as C03. pose proof C03 as (Ec3 & Ev3 & _).
  destruct (acquire_spec m' s t v I3 R3 ltac:(lia)) as (m & E' & I4 & R4 & C34 & _). rewrite Eq in E'.
  unfold spec_acquire in *. case_bool_decide as D; [|simplify_eq]. destruct (conn_cfg m' !! Z.to_nat t) as [c|] eqn:Et; [|simplify_eq].
  destruct (least_free _ _ _ _) as [x'|] eqn:L; simplify_eq/=. exists c. rewrite <- Ec3. split; [done|].
  apply least_free_some in L as (L1 & L2 & L3). fold (range_start m' (Z.to_nat t) v) in *.
  rewrite (range_start_same _ _ _ _ C03) in *. destruct (range_bound _ _ v _ (ci_counts _ I3) Et) as (_ & B & _).
  rewrite Z2Nat.id in L1 by done. split; [done|].
  assert (In : forall z t', conn_cfg m' !! Z.to_nat t = Some c -> held m' t' v z ->
    range_start m0 (Z.to_nat t) v <= z < range_start m0 (Z.to_nat t) v + count_of v c -> t' = Z.to_nat t).
  { intros z t' _ Hh Hz. destruct (held_range _ _ _ _ I3 (proj1 Hv) Hh) as (c' & Ec' & _ & Hr).
    eapply (range_unique m'); eauto using ci_counts. rewrite (range_start_same _ _ _ _ C03). done. }
  split; [|split].
  - intros t' Hh. apply L2, R3. split; [lia|by exists t'].
  - intros y Hy. specialize (L3 y Hy). apply R3 in L3 as (_ & t' & Hh). rewrite <- (In y t'); [done|done|done|lia].
  - assert (E4 : (v, x') ∈ ({[(v, x')]} ∪ s : cid_set)) by set_solver. apply R4 in E4 as (_ & t4 & H4).
    assert (t4 = Z.to_nat t) as ->.
    { destruct (held_range _ _ _ _ I4 (proj1 Hv) H4) as (c4 & Ec4 & _ & Hr). destruct C34 as (Ec34 & _).
      rewrite Ec34 in Ec4. eapply (range_unique m'); eauto using ci_counts; [|by rewrite (range_start_same _ _ _ _ C03)].
      unfold range_start in *. by rewrite Ec34 in Hr. }
    intros t'. split; [|by intros ->]. intros H'. exact (held_unique _ _ _ _ _ I4 (proj1 Hv) H' H4).
Qed.

(** C30: When the counts were set by any sequence of configuration calls, an id
    in use after any run lies, in units of 16 ids, between the doorbell limit of
    the protocol before its own and the limit of its protocol, for the physical
    function and for VFs; the limits of the two unused connection types are those
    of the last protocol. *)
Theorem dq_limits_match_cids n oracle epp calls m0 m1 m2 l rs m3 :
  Z.of_nat n < QED_CXT_PF_CID -> 0 < epp < 2 ^ 28 ->
  configure epp calls (new_mngr n oracle) = Some m0 -> counts_ok m0 ->
  qed_cid_map_alloc m0 = Some (0, m1) -> qed_cxt_mngr_setup m1 = Some m2 ->
  Forall op_ok l -> exec_ops l m2 = Some (rs, m3) ->
  exists m4, qed_dq_init_pf m3 = Some m4 /\
    (forall t v x, 0 <= v -> (t < 6)%nat -> held m4 t v x ->
      let reg := if v =? QED_CXT_PF_CID then DORQ_REG_PF_MAX_ICID_0_RT_OFFSET else DORQ_REG_VF_MAX_ICID_0_RT_OFFSET in
      exists hi lo, rt_data m4 !! (reg + Z.of_nat t) = Some hi /\
        (if decide (t = 0%nat) then lo = 0 else rt_data m4 !! (reg + Z.of_nat t - 1) = Some lo) /\
        lo * DQ_RANGE_ALIGN <= x < hi * DQ_RANGE_ALIGN) /\
    (forall i, (6 <= i < 8)%nat ->
      rt_data m4 !! (DORQ_REG_PF_MAX_ICID_0_RT_OFFSET + Z.of_nat i) = rt_data m4 !! (DORQ_REG_PF_MAX_ICID_0_RT_OFFSET + 5) /\
      rt_data m4 !! (DORQ_REG_VF_MAX_ICID_0_RT_OFFSET + Z.of_nat i) = rt_data m4 !! (DORQ_REG_VF_MAX_ICID_0_RT_OFFSET + 5)).
Proof.
  intros Hn He Ecf C0 Ea Es Hl Er.
  destruct (configure_spec _ _ _ _ He Ecf) as (cfgs & E0 & L0 & A0); [by apply Forall_replicate|].
  assert (U : unallocated m0) by (rewrite E0; apply unallocated_cfg; [by apply new_mngr_ok|done|by rewrite <- E0]).
  destruct (ready _ _ _ U Ea Es) as (I & R & C02). pose proof C02 as (_ & Ev & _).
  destruct (cid_ops_inv l m2 ∅ rs m3 I R Hl Er) as (s & I3 & _ & C23). rename m3 into m'.
  pose proof (same_cfg_trans _ _ _ C02 C23) as C03. pose proof C03 as (Ec3 & _).
  assert (A3 : all_aligned m') by (unfold all_aligned; rewrite Ec3; exact A0).
  destruct (dq_init_spec m' (ci_shape _ I3) (ci_counts _ I3) A3) as (rt & -> & L & H67). eexists. split; [done|]. split.
  - intros t v x Hv Ht Hh. destruct (held_range m' t v x I3 Hv Hh) as (c & Ec & Ho & Hx).
    pose proof (limit_range m' t v c I3 A3 Ec) as Lim. set (reg := if v =? _ then _ else _).
    assert (Reg : forall i, (i < 6)%nat -> rt !! (reg + Z.of_nat i) = Some (Z.shiftr (range_start m' (S i) v) DQ_RANGE_SHIFT)).
    { intros i Hi. specialize (L i Hi) as [L1 L2]. unfold reg. destruct (Z.eqb_spec v QED_CXT_PF_CID) as [->|Hp]; [done|].
      unfold range_start in *. rewrite (sum_counts_vf v) by done. exact L2. }
    exists (Z.shiftr (range_start m' (S t) v) DQ_RANGE_SHIFT), (Z.shiftr (range_start m' t v) DQ_RANGE_SHIFT).
    split; [by apply Reg|]. split; [|lia]. case_decide as Dt; [by subst|].
    replace (reg + Z.of_nat t - 1) with (reg + Z.of_nat (t - 1)) by lia. simpl. rewrite Reg by lia. by replace (S (t - 1)) with t by lia.
  - intros i Hi. destruct (H67 i Hi) as [P1 P2]. destruct (L 5%nat ltac:(lia)) as [L1 L2]. split; [etransitivity; [exact P1|symmetry; exact L1]|etransitivity; [exact P2|symmetry; exact L2]].
Qed.

(** ** A concrete manager *)

(** Two VFs; RoCE, core and Ethernet connections; 24 contexts to a page. *)
Definition demo_calls : list (nat * Z * Z) :=
  [(PROTOCOLID_CORE, 3, 0); (PROTOCOLID_ETH, 20, 5); (PROTOCOLID_ROCE, 10, 0)].
Definition demo_mngr : qed_cxt_mngr := default (new_mngr 2 []) (configure 24 demo_calls (new_mngr 2 [])).
Definition demo_ready : qed_cxt_mngr :=
  default demo_mngr ('(_, m) ← qed_cid_map_alloc demo_mngr; qed_cxt_mngr_setup m).

Lemma demo_counts : counts_ok demo_mngr.
Proof. split; [repeat constructor; vm_compute; discriminate|done|done]. Qed.

Lemma demo_unallocated : unallocated demo_mngr.
Proof.
  apply (unallocated_cfg (new_mngr 2 []) (conn_cfg demo_mngr)); [by apply new_mngr_ok|done|]. exact demo_counts.
Qed.

Definition demo_alloc : qed_cxt_mngr := default demo_mngr (snd <$> qed_cid_map_alloc demo_mngr).

Lemma demo_configured : configure 24 demo_calls (new_mngr 2 []) = Some demo_mngr.
Proof. vm_compute. reflexivity. Qed.
Lemma demo_allocates : qed_cid_map_alloc demo_mngr = Some (0, demo_alloc).
Proof. vm_compute. reflexivity. Qed.
Lemma demo_sets_up : qed_cxt_mngr_setup demo_alloc = Some demo_ready.
Proof. vm_compute. reflexivity. Qed.

Lemma cid_ops_refine_set_witness :
  (exists m', exec_ops [CAcquire 4 QED_CXT_PF_CID; CAcquire 4 0; CAcquire 4 QED_CXT_PF_CID; CRelease 64 QED_CXT_PF_CID;
      CAcquire 4 QED_CXT_PF_CID; CAcquire 0 QED_CXT_PF_CID; CAcquire 4 2] demo_ready =
    Some ([Some (0, Some 64); Some (0, Some 0); Some (0, Some 65); None; Some (0, Some 64); Some (- EINVAL, None); Some (- EINVAL, None)], m') /\
    represents m' {[(0, 0); (QED_CXT_PF_CID, 64); (QED_CXT_PF_CID, 65)]}) /\
  exec_ops [CAcquire 4 0; CRelease 0 2] demo_ready = None.
Proof.
  split.
  - pose proof (cid_ops_refine_set demo_mngr demo_alloc demo_ready
      [CAcquire 4 QED_CXT_PF_CID; CAcquire 4 0; CAcquire 4 QED_CXT_PF_CID; CRelease 64 QED_CXT_PF_CID;
       CAcquire 4 QED_CXT_PF_CID; CAcquire 0 QED_CXT_PF_CID; CAcquire 4 2] demo_unallocated demo_allocates demo_sets_up
      ltac:(repeat constructor; vm_compute; congruence)) as H.
    destruct (spec_ops _ _ _ ∅) as [[rs s]|] eqn:Es; [|vm_compute in Es; discriminate].
    destruct H as (m' & E & R & _). exists m'. split; [rewrite E; vm_compute in Es; injection Es as <- _; by vm_compute|].
    replace {[(0, 0); (QED_CXT_PF_CID, 64); (QED_CXT_PF_CID, 65)]} with s; [exact R|vm_compute in Es; injection Es as _ <-; by vm_compute].
  - exact (cid_ops_refine_set demo_mngr demo_alloc demo_ready [CAcquire 4 0; CRelease 0 2] demo_unallocated demo_allocates demo_sets_up
      ltac:(repeat constructor; vm_compute; congruence)).
Defined.

Lemma cid_alloc_exact_witness :
  exists rc m1, qed_cid_map_alloc (demo_mngr <| cx_oracle := [true; true; false] |>) = Some (rc, m1) /\ rc = - ENOMEM /\
    cx_live m1 = 0 /\ map_at m1 PROTOCOLID_ROCE QED_CXT_PF_CID = Some zero_map.
Proof.
  assert (U : unallocated (demo_mngr <| cx_oracle := [true; true; false] |>)).
  { destruct demo_unallocated as [[S1 S2 S3 S4 S5] [C1 C2 C3] M]. split; [by split|by split|exact M]. }
  destruct (cid_alloc_exact _ U) as (rc & m1 & E & [(-> & _)|(-> & _ & L & M)] & _); [vm_compute in E; discriminate|].
  exists (- ENOMEM), m1. split; [done|]. split; [done|]. split; [done|]. apply M; [vm_compute; lia|by left].
Defined.

Lemma cid_handed_out_once_witness :
  exists c m3 m4, exec_ops [CAcquire 4 QED_CXT_PF_CID; CAcquire 4 QED_CXT_PF_CID] demo_ready = Some ([Some (0, Some 64); Some (0, Some 65)], m3) /\
    _qed_cxt_acquire_cid 4 QED_CXT_PF_CID m3 = Some (0, Some 66, m4) /\
    conn_cfg demo_mngr !! 4%nat = Some c /\ (forall t', ~ held m3 t' QED_CXT_PF_CID 66) /\
    (forall t', held m4 t' QED_CXT_PF_CID 66 <-> t' = 4%nat).
Proof.
  destruct (exec_ops [CAcquire 4 QED_CXT_PF_CID; CAcquire 4 QED_CXT_PF_CID] demo_ready) as [[rs m3]|] eqn:E; [|by vm_compute in E].
  assert (rs = [Some (0, Some 64); Some (0, Some 65)]) as -> by (vm_compute in E; congruence).
  destruct (_qed_cxt_acquire_cid 4 QED_CXT_PF_CID m3) as [[[rc o] m4]|] eqn:Eq.
  2:{ exfalso. vm_compute in E. injection E as <-. vm_compute in Eq. discriminate. }
  assert (rc = 0 /\ o = Some 66) as [-> ->] by (vm_compute in E; injection E as <-; vm_compute in Eq; split; congruence).
  destruct (cid_handed_out_once demo_mngr demo_alloc demo_ready [CAcquire 4 QED_CXT_PF_CID; CAcquire 4 QED_CXT_PF_CID] _ m3 4 QED_CXT_PF_CID 66 m4 demo_unallocated
    demo_allocates demo_sets_up ltac:(repeat constructor; discriminate) E ltac:(split; [discriminate|reflexivity]) Eq)
    as (c & Ec & _ & H1 & _ & H2).
  exists c, m3, m4. split; [reflexivity|]. split; [exact Eq|]. split; [exact Ec|]. split; [exact H1|exact H2].
Defined.

Lemma dq_limits_match_cids_witness :
  exists m3 m4, exec_ops [CAcquire 4 QED_CXT_PF_CID] demo_ready = Some ([Some (0, Some 64)], m3) /\
    qed_dq_init_pf m3 = Some m4 /\
    held m4 4 QED_CXT_PF_CID 64 /\
    exists hi lo, rt_data m4 !! 4 = Some hi /\ rt_data m4 !! 3 = Some lo /\ lo * DQ_RANGE_ALIGN <= 64 < hi * DQ_RANGE_ALIGN.
Proof.
  destruct (exec_ops [CAcquire 4 QED_CXT_PF_CID] demo_ready) as [[rs m3]|] eqn:E; [|by vm_compute in E].
  assert (rs = [Some (0, Some 64)]) as -> by (vm_compute in E; congruence).
  destruct (dq_limits_match_cids 2 [] 24 demo_calls demo_mngr demo_alloc demo_ready [CAcquire 4 QED_CXT_PF_CID] _ m3
    eq_refl ltac:(split; reflexivity) demo_configured demo_counts demo_allocates demo_sets_up
    ltac:(repeat constructor; discriminate) E) as (m4 & E4 & H & _).
  exists m3, m4. split; [done|]. split; [done|].
  assert (Hh : held m4 4 QED_CXT_PF_CID 64).
  { clear H. vm_compute in E. injection E as <-. vm_compute in E4. injection E4 as <-.
    eexists _, _. split; [by vm_compute|]. split; [by vm_compute|]. split; by vm_compute. }
  split; [done|].
  destruct (H 4%nat QED_CXT_PF_CID 64 ltac:(done) ltac:(lia) Hh) as (hi & lo & R1 & R2 & R3).
  exists hi, lo. split; [exact R1|]. split; [exact R2|exact R3].
Defined.

(** An acquire for the VF number one past the last is refused, but a release
    for it is not: its test is [vfid > max_num_vfs], and the map of that VF is
    read past the end of the array. *)
Theorem release_past_last_vf_faults :
  (snd <$> (fst <$> _qed_cxt_acquire_cid 4 2 demo_ready)) = Some None /\
  num_of_vfs demo_ready = 2 /\ _qed_cxt_release_cid 0 2 demo_ready = None /\
  _qed_cxt_release_cid 0 3 demo_ready = Some demo_ready.
Proof. by vm_compute. Qed.
