(* ===== verification/DmaEngine.v ===== *)
(** * The DMA engine commands (qed_hw.c, "DMAE")

    Large transfers between host memory and the registers of the device go
    through a DMA engine.  The driver fills a command, copies it to the engine's
    command memory, rings its GO register and polls a completion word in host
    memory.  Virtual buffers go through an intermediate buffer; a transfer is cut
    into pieces of at most [DMAE_MAX_RW_SIZE] dwords.

    The engine is an instance of [DmaeChip]; [DmaeChipLaws] states what the
    descriptions of its registers and of the command promise.  A pointer that is
    NULL where the code does not test it is a fault ([None]).  The lock around a
    command and the prints are left out.  The machine is little-endian. *)

From S2P Require Import Prelude Dma.

(** ** Data *)

Definition DMAE_MAX_RW_SIZE : Z := 0x2000.
Definition DMAE_GO_VALUE : Z := 1.
Definition DMAE_COMPLETION_VAL : Z := 0xD1AE.
Definition DMAE_CMD_ENDIANITY : Z := 2.
Definition DMAE_CMD_SIZE : nat := 14.
Definition DMAE_CMD_SIZE_TO_FILL : nat := 9.
Definition DMAE_REG_GO_C0 : Z := 0xc048.
Definition DMAE_REG_CMD_MEM : Z := 0xc800.

(** A field of a command word: mask and shift. *)
Record field := mk_field { f_mask : Z; f_shift : Z }.
Definition DMAE_CMD_SRC := mk_field 0x1 0.
Definition DMAE_CMD_DST := mk_field 0x3 1.
Definition DMAE_CMD_C_DST := mk_field 0x1 3.
Definition DMAE_CMD_SRC_ADDR_RESET := mk_field 0x1 5.
Definition DMAE_CMD_DST_ADDR_RESET := mk_field 0x1 6.
Definition DMAE_CMD_COMP_FUNC := mk_field 0x1 7.
Definition DMAE_CMD_COMP_WORD_EN := mk_field 0x1 8.
Definition DMAE_CMD_ENDIANITY_MODE := mk_field 0x3 14.
Definition DMAE_CMD_PORT_ID := mk_field 0x3 18.
Definition DMAE_CMD_SRC_PF_ID := mk_field 0xF 20.
Definition DMAE_CMD_DST_PF_ID := mk_field 0xF 24.
Definition DMAE_CMD_SRC_VF_ID_VALID := mk_field 0x1 28.
Definition DMAE_CMD_DST_VF_ID_VALID := mk_field 0x1 29.
Definition DMAE_CMD_SRC_VF_ID := mk_field 0xFF 0.
Definition DMAE_CMD_DST_VF_ID := mk_field 0xFF 8.

(** [SET_FIELD] on a variable of [w] bits, and [GET_FIELD]. *)
Definition set_field (w : Z) (f : field) (flag value : Z) : Z :=
  Z.lor (Z.land value (Z.lnot (Z.shiftl (f_mask f) (f_shift f)))) (Z.shiftl (Z.land flag (f_mask f)) (f_shift f)) mod 2 ^ w.
Definition get_field (f : field) (value : Z) : Z := Z.land (Z.shiftr value (f_shift f)) (f_mask f).

Definition dmae_cmd_src_pcie : Z := 0.
Definition dmae_cmd_src_grc : Z := 1.
Definition dmae_cmd_dst_pcie : Z := 1.
Definition dmae_cmd_dst_grc : Z := 2.

(** [struct dmae_cmd], the nine dwords the driver fills. *)
Record dmae_cmd := mk_dmae_cmd {
  opcode : Z; src_addr_lo : Z; src_addr_hi : Z; dst_addr_lo : Z; dst_addr_hi : Z;
  length_dw : Z; opcode_b : Z; comp_addr_lo : Z; comp_addr_hi : Z; comp_val : Z
}.
#[export] Instance eta_dmae_cmd : Settable dmae_cmd := fun r =>
  mk_dmae_cmd (opcode r) (src_addr_lo r) (src_addr_hi r) (dst_addr_lo r) (dst_addr_hi r) (length_dw r) (opcode_b r)
    (comp_addr_lo r) (comp_addr_hi r) (comp_val r).

(** The command as dwords, and back. *)
Definition cmd_dwords (c : dmae_cmd) : list Z :=
  [opcode c; src_addr_lo c; src_addr_hi c; dst_addr_lo c; dst_addr_hi c; length_dw c + opcode_b c * 2 ^ 16;
   comp_addr_lo c; comp_addr_hi c; comp_val c].
Definition cmd_of (row : Z -> Z) : dmae_cmd :=
  mk_dmae_cmd (row 0) (row 1) (row 2) (row 3) (row 4) (row 5 mod 2 ^ 16) (row 5 / 2 ^ 16) (row 6) (row 7) (row 8).

Record dmae_params := mk_dmae_params {
  RW_REPL_SRC : bool; SRC_VF_VALID : bool; DST_VF_VALID : bool; COMPLETION_DST : bool; PORT_VALID : bool;
  SRC_PF_VALID : bool; DST_PF_VALID : bool;
  src_vf_id : Z; dst_vf_id : Z; p_port_id : Z; src_pf_id : Z; dst_pf_id : Z
}.

Inductive qed_dmae_address_type :=
  | QED_DMAE_ADDRESS_HOST_VIRT
  | QED_DMAE_ADDRESS_HOST_PHYS
  | QED_DMAE_ADDRESS_GRC.

#[export] Instance address_type_eq : EqDecision qed_dmae_address_type.
Proof. solve_decision. Defined.

(** [struct qed_dmae_info]: addresses of the three DMA blocks (0 is NULL) and
    the command block's contents. *)
Record qed_dmae_info := mk_qed_dmae_info {
  b_mem_ready : bool;
  channel : Z;
  completion_word_phys_addr : Z; p_completion_word : Z;
  intermediate_buffer_phys_addr : Z; p_intermediate_buffer : Z;
  dmae_cmd_phys_addr : Z; p_dmae_cmd : Z; the_cmd : dmae_cmd
}.
#[export] Instance eta_qed_dmae_info : Settable qed_dmae_info := fun r =>
  mk_qed_dmae_info (b_mem_ready r) (channel r) (completion_word_phys_addr r) (p_completion_word r)
    (intermediate_buffer_phys_addr r) (p_intermediate_buffer r) (dmae_cmd_phys_addr r) (p_dmae_cmd r) (the_cmd r).

(** ** The engine *)

(** A dword the engine reaches: a register of a function, by its dword address,
    or host memory, by its bus address in bytes. *)
Inductive place :=
  | PReg (pf a : Z)
  | PMem (a : Z).

#[export] Instance place_eq : EqDecision place.
Proof. solve_decision. Defined.

Class DmaeChip (D : Type) := {
  dm_wr : Z -> Z -> D -> D;         (* qed_wr: register address in bytes, value *)
  dm_load : Z -> D -> Z * D;        (* a CPU read of coherent memory; the engine may run meanwhile *)
  dm_store : Z -> Z -> D -> D;      (* a CPU write of coherent memory *)
  dm_at : D -> place -> Z;          (* contents *)
  dm_row : D -> Z -> Z;             (* the command memory *)
  dm_job : D -> option dmae_cmd     (* the command being executed *)
}.

Definition hilo (hi lo : Z) : Z := hi * 2 ^ 32 + lo.
Definition src_place (c : dmae_cmd) (k : Z) : place :=
  if get_field DMAE_CMD_SRC (opcode c) =? dmae_cmd_src_grc
  then PReg (get_field DMAE_CMD_SRC_PF_ID (opcode c)) (src_addr_lo c + k)
  else PMem (hilo (src_addr_hi c) (src_addr_lo c) + 4 * k).
Definition dst_place (c : dmae_cmd) (k : Z) : place :=
  if get_field DMAE_CMD_DST (opcode c) =? dmae_cmd_dst_grc
  then PReg (get_field DMAE_CMD_DST_PF_ID (opcode c)) (dst_addr_lo c + k)
  else PMem (hilo (dst_addr_hi c) (dst_addr_lo c) + 4 * k).
Definition comp_place (c : dmae_cmd) : place := PMem (hilo (comp_addr_hi c) (comp_addr_lo c)).

(** A command that moves data on behalf of physical functions and writes its
    completion word to host memory. *)
Definition plain_cmd (c : dmae_cmd) : Prop :=
  (get_field DMAE_CMD_DST (opcode c) = dmae_cmd_dst_grc \/ get_field DMAE_CMD_DST (opcode c) = dmae_cmd_dst_pcie) /\
  get_field DMAE_CMD_C_DST (opcode c) = 0 /\ get_field DMAE_CMD_COMP_WORD_EN (opcode c) = 1 /\
  get_field DMAE_CMD_SRC_VF_ID_VALID (opcode c) = 0 /\ get_field DMAE_CMD_DST_VF_ID_VALID (opcode c) = 0.

(** The places a command writes, and that it reads none of them. *)
Definition in_dst (c : dmae_cmd) (p : place) : Prop := exists k, 0 <= k < length_dw c /\ p = dst_place c k.
Definition no_overlap (c : dmae_cmd) : Prop :=
  forall k, 0 <= k < length_dw c -> ~ in_dst c (src_place c k) /\ src_place c k <> comp_place c /\ dst_place c k <> comp_place c.

Class DmaeChipLaws (D : Type) `{DmaeChip D} : Prop := {
  law_dm_cmd d ch i v : dm_job d = None -> 0 <= ch < 32 -> 0 <= i < 14 -> 0 <= v < 2 ^ 32 ->
    let d' := dm_wr (DMAE_REG_CMD_MEM + 4 * (14 * ch + i)) v d in
    dm_job d' = None /\ dm_at d' = dm_at d /\
    forall r, dm_row d' r = if decide (r = 14 * ch + i) then v else dm_row d r;
  law_dm_go d ch : dm_job d = None -> 0 <= ch < 32 ->
    let d' := dm_wr (DMAE_REG_GO_C0 + 4 * ch) DMAE_GO_VALUE d in
    dm_job d' = Some (cmd_of (fun i => dm_row d (14 * ch + i))) /\ dm_at d' = dm_at d;
  law_dm_store d a v : dm_job d = None ->
    dm_job (dm_store a v d) = None /\ dm_row (dm_store a v d) = dm_row d /\
    forall p, dm_at (dm_store a v d) p = if decide (p = PMem a) then v else dm_at d p;
  law_dm_load_idle d a : dm_job d = None ->
    let '(w, d') := dm_load a d in w = dm_at d (PMem a) /\ dm_job d' = None /\ dm_at d' = dm_at d /\ dm_row d' = dm_row d;
  (* while a command runs, its destination may change in any way; when it ends,
     the destination holds the source and the completion word is written *)
  law_dm_load_busy d a c : dm_job d = Some c -> plain_cmd c -> no_overlap c ->
    let '(w, d') := dm_load a d in
    w = dm_at d' (PMem a) /\ (forall p, ~ in_dst c p -> p <> comp_place c -> dm_at d' p = dm_at d p) /\
    (dm_job d' = Some c /\ dm_at d' (comp_place c) = dm_at d (comp_place c) \/
     dm_job d' = None /\ dm_at d' (comp_place c) = comp_val c /\
       forall k, 0 <= k < length_dw c -> dm_at d' (dst_place c k) = dm_at d (src_place c k))
}.

(** ** Commands *)

(** The hardware function: its identity, the recovery flag, the engine's data,
    the virtual memory of callers, the number of hardware errors notified, and
    the device. *)
Record dm_hwfn (D : Type) := mk_dm_hwfn {
  rel_pf_id : Z; port_id : Z; recov_in_prog : bool;
  dmae_info : qed_dmae_info; virt : Z -> Z; hw_errs : nat; dev : D
}.
Arguments mk_dm_hwfn {D}.
Arguments rel_pf_id {D}.
Arguments port_id {D}.
Arguments recov_in_prog {D}.
Arguments dmae_info {D}.
Arguments virt {D}.
Arguments hw_errs {D}.
Arguments dev {D}.
#[export] Instance eta_dm_hwfn D : Settable (dm_hwfn D) := fun r =>
  mk_dm_hwfn (rel_pf_id r) (port_id r) (recov_in_prog r) (dmae_info r) (virt r) (hw_errs r) (dev r).

(** [QED_DMAE_FLAGS_IS_SET]. *)
Definition flag_set (flag : dmae_params -> bool) (p : option dmae_params) : bool :=
  match p with Some p => flag p | None => false end.
Definition par (get : dmae_params -> Z) (p : option dmae_params) : Z := match p with Some p => get p | None => 0 end.

Section Engine.
Context {D : Type} `{DmaeChip D}.
Implicit Types (h : dm_hwfn D) (p_params : option dmae_params).

Definition set_cmd (c : dmae_cmd) h : dm_hwfn D := h <| dmae_info := dmae_info h <| the_cmd := c |> |>.
Definition set_dev (d : D) h : dm_hwfn D := h <| dev := d |>.

Definition qed_dmae_opcode (is_src_type_grc is_dst_type_grc : bool) p_params h : dm_hwfn D :=
  let opc := 0 in
  let opc := set_field 32 DMAE_CMD_SRC (if is_src_type_grc then dmae_cmd_src_grc else dmae_cmd_src_pcie) opc in
  let src_pf := if flag_set SRC_PF_VALID p_params then par src_pf_id p_params else rel_pf_id h in
  let opc := set_field 32 DMAE_CMD_SRC_PF_ID src_pf opc in
  let opc := set_field 32 DMAE_CMD_DST (if is_dst_type_grc then dmae_cmd_dst_grc else dmae_cmd_dst_pcie) opc in
  let dst_pf := if flag_set DST_PF_VALID p_params then par dst_pf_id p_params else rel_pf_id h in
  let opc := set_field 32 DMAE_CMD_DST_PF_ID dst_pf opc in
  let opc := set_field 32 DMAE_CMD_COMP_WORD_EN 1 opc in
  let opc := set_field 32 DMAE_CMD_SRC_ADDR_RESET 1 opc in
  let opc := if flag_set COMPLETION_DST p_params then set_field 32 DMAE_CMD_COMP_FUNC 1 opc else opc in
  let opc := set_field 32 DMAE_CMD_ENDIANITY_MODE DMAE_CMD_ENDIANITY opc in
  let port := if flag_set PORT_VALID p_params then par p_port_id p_params else port_id h in
  let opc := set_field 32 DMAE_CMD_PORT_ID port opc in
  let opc := set_field 32 DMAE_CMD_SRC_ADDR_RESET 1 opc in
  let opc := set_field 32 DMAE_CMD_DST_ADDR_RESET 1 opc in
  let opb := 0 in
  let '(opc, opb) := if flag_set SRC_VF_VALID p_params
    then (set_field 32 DMAE_CMD_SRC_VF_ID_VALID 1 opc, set_field 16 DMAE_CMD_SRC_VF_ID (par src_vf_id p_params) opb)
    else (opc, set_field 16 DMAE_CMD_SRC_VF_ID 0xFF opb) in
  let '(opc, opb) := if flag_set DST_VF_VALID p_params
    then (set_field 32 DMAE_CMD_DST_VF_ID_VALID 1 opc, set_field 16 DMAE_CMD_DST_VF_ID (par dst_vf_id p_params) opb)
    else (opc, set_field 16 DMAE_CMD_DST_VF_ID 0xFF opb) in
  set_cmd (the_cmd (dmae_info h) <| opcode := opc |> <| opcode_b := opb |>) h.

Definition qed_dmae_idx_to_go_cmd (idx : Z) : Z := DMAE_REG_GO_C0 + Z.shiftl idx 2.

(** The copy to the command memory: dwords [i ..] of the command, then zeroes. *)
Fixpoint write_cmd (n i : nat) (idx_cmd : Z) (c : dmae_cmd) (d : D) : D :=
  match n with
  | O => d
  | S n =>
      let data := if (i <? DMAE_CMD_SIZE_TO_FILL)%nat then default 0 (cmd_dwords c !! i) else 0 in
      write_cmd n (S i) idx_cmd c (dm_wr (DMAE_REG_CMD_MEM + idx_cmd * Z.of_nat DMAE_CMD_SIZE * 4 + Z.of_nat i * 4) data d)
  end.

Definition qed_dmae_post_command h : Z * dm_hwfn D :=
  let c := the_cmd (dmae_info h) in
  let idx_cmd := channel (dmae_info h) in
  if ((dst_addr_lo c =? 0) && (dst_addr_hi c =? 0)) || ((src_addr_lo c =? 0) && (src_addr_hi c =? 0)) then (- EINVAL, h) else
  let d := write_cmd DMAE_CMD_SIZE 0 idx_cmd c (dev h) in
  (0, set_dev (dm_wr (qed_dmae_idx_to_go_cmd idx_cmd) DMAE_GO_VALUE d) h).

(** The polling loop: [n] more polls after the first. *)
Fixpoint wait_loop (n : nat) (a : Z) (d : D) : Z * D :=
  let '(w, d) := dm_load a d in
  if w =? DMAE_COMPLETION_VAL then (0, d) else
  match n with O => (- EBUSY, d) | S n => wait_loop n a d end.

(** [wait_cnt_limit] on an ASIC. *)
Definition wait_cnt_limit : nat := Z.to_nat 10000.
#[global] Arguments wait_cnt_limit : simpl never.

Definition qed_dmae_operation_wait h : Z * dm_hwfn D :=
  let a := completion_word_phys_addr (dmae_info h) in
  let '(rc, d) := wait_loop wait_cnt_limit a (dev h) in
  (rc, set_dev (if rc =? 0 then dm_store a 0 d else d) h).

(** The two [memcpy]s, [n] dwords from dword [k]. *)
Fixpoint to_buffer (n : nat) (k src buf : Z) (vm : Z -> Z) (d : D) : D :=
  match n with O => d | S n => to_buffer n (k + 1) src buf vm (dm_store (buf + 4 * k) (vm (src + 4 * k)) d) end.
Fixpoint from_buffer (n : nat) (k dst buf : Z) (vm : Z -> Z) (d : D) : (Z -> Z) * D :=
  match n with
  | O => (vm, d)
  | S n => let '(w, d) := dm_load (buf + 4 * k) d in
           from_buffer n (k + 1) dst buf (fun a => if a =? dst + 4 * k then w else vm a) d
  end.

Definition DMA_HI (a : Z) : Z := u32 (Z.shiftr a 32).
Definition DMA_LO (a : Z) : Z := u32 a.

Definition qed_dmae_execute_sub_operation (src_addr dst_addr : Z) (src_type dst_type : qed_dmae_address_type)
    (len : Z) h : Z * dm_hwfn D :=
  let phys := intermediate_buffer_phys_addr (dmae_info h) in
  let h := match src_type with
    | QED_DMAE_ADDRESS_GRC | QED_DMAE_ADDRESS_HOST_PHYS =>
        set_cmd (the_cmd (dmae_info h) <| src_addr_hi := DMA_HI src_addr |> <| src_addr_lo := DMA_LO src_addr |>) h
    | QED_DMAE_ADDRESS_HOST_VIRT =>
        let h := set_cmd (the_cmd (dmae_info h) <| src_addr_hi := DMA_HI phys |> <| src_addr_lo := DMA_LO phys |>) h in
        set_dev (to_buffer (Z.to_nat len) 0 src_addr phys (virt h) (dev h)) h
    end in
  let a := match dst_type with
    | QED_DMAE_ADDRESS_GRC | QED_DMAE_ADDRESS_HOST_PHYS => dst_addr
    | QED_DMAE_ADDRESS_HOST_VIRT => phys
    end in
  let h := set_cmd (the_cmd (dmae_info h) <| dst_addr_hi := DMA_HI a |> <| dst_addr_lo := DMA_LO a |>) h in
  let h := set_cmd (the_cmd (dmae_info h) <| length_dw := u16 len |>) h in
  let '(_, h) := qed_dmae_post_command h in
  let '(rc, h) := qed_dmae_operation_wait h in
  if negb (rc =? 0) then (rc, h) else
  match dst_type with
  | QED_DMAE_ADDRESS_HOST_VIRT =>
      let '(vm, d) := from_buffer (Z.to_nat len) 0 dst_addr phys (virt h) (dev h) in
      (0, set_dev d h <| virt := vm |>)
  | _ => (0, h)
  end.

(** [qed_hw_err_notify]: counted; what it sends to the management firmware is
    not part of this file. *)
Definition qed_hw_err_notify h : dm_hwfn D := if recov_in_prog h then h else h <| hw_errs := S (hw_errs h) |>.

(** The splitting loop from piece [i] (a [u16]); [None] when the fuel is used
    up. *)
Fixpoint split_loop (fuel : nat) (i cnt_split length_mod src_addr dst_addr src_addr_split : Z)
    (src_type dst_type : qed_dmae_address_type) (repl : bool) h : option (Z * dm_hwfn D) :=
  match fuel with
  | O => None
  | S fuel =>
      if cnt_split <? i then Some (0, h) else
      let offset := DMAE_MAX_RW_SIZE * i in
      let src_addr_split := if repl then src_addr_split else
        if bool_decide (src_type = QED_DMAE_ADDRESS_GRC) then u64 (src_addr + offset) else u64 (src_addr + u32 (offset * 4)) in
      let dst_addr_split :=
        if bool_decide (dst_type = QED_DMAE_ADDRESS_GRC) then u64 (dst_addr + offset) else u64 (dst_addr + u32 (offset * 4)) in
      let length_cur := if cnt_split =? i then length_mod else DMAE_MAX_RW_SIZE in
      if length_cur =? 0
      then split_loop fuel (u16 (i + 1)) cnt_split length_mod src_addr dst_addr src_addr_split src_type dst_type repl h
      else
        let '(rc, h) := qed_dmae_execute_sub_operation src_addr_split dst_addr_split src_type dst_type length_cur h in
        if negb (rc =? 0) then Some (rc, qed_hw_err_notify h) else
        split_loop fuel (u16 (i + 1)) cnt_split length_mod src_addr dst_addr src_addr_split src_type dst_type repl h
  end.

(** More iterations than a [u16] counter has values. *)
Definition split_fuel : nat := Z.to_nat (2 ^ 16 + 1).
#[global] Arguments split_fuel : simpl never.

Definition qed_dmae_execute_command (src_addr dst_addr : Z) (src_type dst_type : qed_dmae_address_type)
    (size_in_dwords : Z) p_params h : option (Z * dm_hwfn D) :=
  if negb (b_mem_ready (dmae_info h)) then Some (- ENOMEM, h) else
  if recov_in_prog h then Some (0, h) else
  if p_dmae_cmd (dmae_info h) =? 0 then Some (- EINVAL, h) else
  let h := qed_dmae_opcode (bool_decide (src_type = QED_DMAE_ADDRESS_GRC)) (bool_decide (dst_type = QED_DMAE_ADDRESS_GRC)) p_params h in
  let phys := completion_word_phys_addr (dmae_info h) in
  let h := set_cmd (the_cmd (dmae_info h) <| comp_addr_lo := DMA_LO phys |> <| comp_addr_hi := DMA_HI phys |>
                      <| comp_val := DMAE_COMPLETION_VAL |>) h in
  let cnt_split := u16 (size_in_dwords / DMAE_MAX_RW_SIZE) in
  let length_mod := u16 (size_in_dwords mod DMAE_MAX_RW_SIZE) in
  split_loop split_fuel 0 cnt_split length_mod src_addr dst_addr src_addr src_type dst_type
    (flag_set RW_REPL_SRC p_params) h.

Definition qed_dmae_host2grc (source_addr grc_addr size_in_dwords : Z) p_params h : option (Z * dm_hwfn D) :=
  qed_dmae_execute_command source_addr (grc_addr / 4) QED_DMAE_ADDRESS_HOST_VIRT QED_DMAE_ADDRESS_GRC size_in_dwords p_params h.

Definition qed_dmae_grc2host (grc_addr dest_addr size_in_dwords : Z) p_params h : option (Z * dm_hwfn D) :=
  qed_dmae_execute_command (grc_addr / 4) dest_addr QED_DMAE_ADDRESS_GRC QED_DMAE_ADDRESS_HOST_VIRT size_in_dwords p_params h.

Definition qed_dmae_host2host (source_addr dest_addr size_in_dwords : Z) p_params h : option (Z * dm_hwfn D) :=
  qed_dmae_execute_command source_addr dest_addr QED_DMAE_ADDRESS_HOST_PHYS QED_DMAE_ADDRESS_HOST_PHYS size_in_dwords p_params h.

End Engine.

(** ** Allocation of the DMA blocks *)

Definition free_block (size virt phys : Z) (m : dma_mem) : option dma_mem :=
  if virt =? 0 then Some m else dma_free_coherent size virt phys m.

Definition sizeof_dmae_cmd : Z := 56.

Definition qed_dmae_info_free (i : qed_dmae_info) (m : dma_mem) : option (qed_dmae_info * dma_mem) :=
  let i := i <| b_mem_ready := false |> in
  m ← free_block 4 (p_completion_word i) (completion_word_phys_addr i) m;
  let i := i <| p_completion_word := 0 |> in
  m ← free_block sizeof_dmae_cmd (p_dmae_cmd i) (dmae_cmd_phys_addr i) m;
  let i := i <| p_dmae_cmd := 0 |> in
  m ← free_block (4 * DMAE_MAX_RW_SIZE) (p_intermediate_buffer i) (intermediate_buffer_phys_addr i) m;
  Some (i <| p_intermediate_buffer := 0 |>, m).

Definition qed_dmae_info_alloc (rel_pf : Z) (i : qed_dmae_info) (m : dma_mem) : option (Z * qed_dmae_info * dma_mem) :=
  let fail i m := '(i, m) ← qed_dmae_info_free i m; Some (- ENOMEM, i, m) in
  let '(v, p, m) := dma_alloc_coherent 4 m in
  let i := i <| p_completion_word := v |> <| completion_word_phys_addr := p |> in
  if v =? 0 then fail i m else
  let '(v, p, m) := dma_alloc_coherent sizeof_dmae_cmd m in
  let i := i <| p_dmae_cmd := v |> <| dmae_cmd_phys_addr := p |> in
  if v =? 0 then fail i m else
  let '(v, p, m) := dma_alloc_coherent (4 * DMAE_MAX_RW_SIZE) m in
  let i := i <| p_intermediate_buffer := v |> <| intermediate_buffer_phys_addr := p |> in
  if v =? 0 then fail i m else
  Some (0, i <| channel := rel_pf |> <| b_mem_ready := true |>, m).
