(* ===== verification/DmaEngineProps.v ===== *)
(** * Transfers of the DMA engine are exact

    The pieces a transfer is cut into, the commands the engine gets and the
    polling of the completion word together move exactly the dwords asked for,
    between any two kinds of address, or report a time-out. *)

From S2P Require Import Prelude Dma DmaEngine.

#[local] Opaque wait_cnt_limit split_fuel.

(** ** Fields of command words *)

Lemma get_set_same w f n flag v :
  f_mask f = Z.ones n -> 0 <= n -> 0 <= f_shift f -> f_shift f + n <= w ->
  get_field f (set_field w f flag v) = Z.land flag (f_mask f).
Proof.
  intros Hm Hn Hs Hw. unfold get_field, set_field. rewrite Hm. apply Z.bits_inj_iff'. intros i Hi.
  rewrite !Z.land_spec, Z.shiftr_spec by done. destruct (Z.testbit (Z.ones n) i) eqn:E; [|by rewrite !andb_false_r].
  rewrite Z.ones_spec_iff in E by done.
  rewrite Z.mod_pow2_bits_low by lia. rewrite Z.lor_spec, Z.land_spec, Z.lnot_spec, !Z.shiftl_spec, Z.land_spec by lia.
  replace (i + f_shift f - f_shift f) with i by lia. rewrite Z.ones_spec_low by lia. simpl. by rewrite andb_false_r, !andb_true_r.
Qed.

Lemma get_set_other w f g n flag v :
  f_mask g = Z.ones n -> 0 <= n -> 0 <= f_shift g -> 0 <= f_shift f -> f_shift g + n <= w ->
  Z.land (Z.shiftl (f_mask g) (f_shift g)) (Z.shiftl (f_mask f) (f_shift f)) = 0 ->
  get_field g (set_field w f flag v) = get_field g v.
Proof.
  intros Hm Hn Hs Hf Hw Hd. unfold get_field, set_field. rewrite Hm in *. apply Z.bits_inj_iff'. intros i Hi.
  rewrite !Z.land_spec, !Z.shiftr_spec by done. destruct (Z.testbit (Z.ones n) i) eqn:E; [|by rewrite !andb_false_r].
  apply (f_equal (fun z => Z.testbit z (i + f_shift g))) in Hd. rewrite Z.bits_0, Z.land_spec, Z.shiftl_spec in Hd by lia.
  replace (i + f_shift g - f_shift g) with i in Hd by lia. rewrite E in Hd. simpl in Hd.
  rewrite Z.ones_spec_iff in E by done. rewrite Z.mod_pow2_bits_low by lia.
  rewrite Z.lor_spec, Z.land_spec, Z.lnot_spec, Hd by lia. simpl.
  rewrite Z.shiftl_spec, Z.land_spec in * by lia. rewrite Hd. by rewrite andb_false_r, orb_false_r, !andb_true_r.
Qed.

Lemma set_field_bound w f flag v : 0 <= w -> 0 <= set_field w f flag v < 2 ^ w.
Proof. intros. apply Z.mod_pos_bound. lia. Qed.

(** Read a field of a word built with [set_field]. *)
Ltac field_eq :=
  repeat (first
    [ rewrite (get_set_same 32 _ 1) by (reflexivity || lia || done)
    | rewrite (get_set_same 32 _ 2) by (reflexivity || lia || done)
    | rewrite (get_set_same 32 _ 4) by (reflexivity || lia || done)
    | rewrite (get_set_other 32 _ _ 1) by (reflexivity || lia || done)
    | rewrite (get_set_other 32 _ _ 2) by (reflexivity || lia || done)
    | rewrite (get_set_other 32 _ _ 4) by (reflexivity || lia || done) ]).

Definition no_vf (p : option dmae_params) : Prop := flag_set SRC_VF_VALID p = false /\ flag_set DST_VF_VALID p = false.

Section Engine.
Context {D : Type} `{DmaeChip D} `{!DmaeChipLaws D}.
Implicit Types (h : dm_hwfn D) (p : option dmae_params) (c : dmae_cmd).

(** The functions whose registers a transfer reads and writes. *)
Definition src_pf p h : Z := Z.land (if flag_set SRC_PF_VALID p then par src_pf_id p else rel_pf_id h) 0xF.
Definition dst_pf p h : Z := Z.land (if flag_set DST_PF_VALID p then par dst_pf_id p else rel_pf_id h) 0xF.

(** The opcode names the kinds of address, the functions and the completion. *)
Lemma opcode_fields sg dg p h :
  no_vf p ->
  exists opc opb, qed_dmae_opcode sg dg p h = set_cmd (the_cmd (dmae_info h) <| opcode := opc |> <| opcode_b := opb |>) h /\
    0 <= opc < 2 ^ 32 /\ 0 <= opb < 2 ^ 16 /\
    get_field DMAE_CMD_SRC opc = (if sg then dmae_cmd_src_grc else dmae_cmd_src_pcie) /\
    get_field DMAE_CMD_DST opc = (if dg then dmae_cmd_dst_grc else dmae_cmd_dst_pcie) /\
    get_field DMAE_CMD_SRC_PF_ID opc = src_pf p h /\ get_field DMAE_CMD_DST_PF_ID opc = dst_pf p h /\
    get_field DMAE_CMD_C_DST opc = 0 /\ get_field DMAE_CMD_COMP_WORD_EN opc = 1 /\
    get_field DMAE_CMD_SRC_VF_ID_VALID opc = 0 /\ get_field DMAE_CMD_DST_VF_ID_VALID opc = 0.
Proof.
  intros [V1 V2]. unfold qed_dmae_opcode. rewrite V1, V2. eexists _, _. split; [reflexivity|].
  split; [by apply set_field_bound|]. split; [by apply set_field_bound|].
  destruct (flag_set COMPLETION_DST p); repeat split; field_eq; try reflexivity; by destruct sg, dg.
Qed.

(** ** Posting a command *)

(** A command whose dwords fit. *)
Definition cmd_fits c : Prop :=
  0 <= opcode c < 2 ^ 32 /\ 0 <= src_addr_lo c < 2 ^ 32 /\ 0 <= src_addr_hi c < 2 ^ 32 /\
  0 <= dst_addr_lo c < 2 ^ 32 /\ 0 <= dst_addr_hi c < 2 ^ 32 /\
  0 <= comp_addr_lo c < 2 ^ 32 /\ 0 <= comp_addr_hi c < 2 ^ 32 /\ 0 <= comp_val c < 2 ^ 32 /\
  0 <= length_dw c < 2 ^ 16 /\ 0 <= opcode_b c < 2 ^ 16.

Lemma cmd_dword_fits c i : cmd_fits c -> 0 <= default 0 (cmd_dwords c !! i) < 2 ^ 32.
Proof.
  intros F. unfold cmd_fits in F.
  do 9 (destruct i as [|i]; [simpl; lia|]). simpl. lia.
Qed.

(** The row of the command memory that is to hold dword [i]. *)
Definition cmd_data c (i : nat) : Z := if (i <? DMAE_CMD_SIZE_TO_FILL)%nat then default 0 (cmd_dwords c !! i) else 0.

Lemma write_cmd_spec c ch n i (d : D) :
  cmd_fits c -> 0 <= ch < 32 -> (i + n <= DMAE_CMD_SIZE)%nat -> dm_job d = None ->
  let d' := write_cmd n i ch c d in
  dm_job d' = None /\ dm_at d' = dm_at d /\
  forall r : nat, dm_row d' (14 * ch + Z.of_nat r) =
    if decide (i <= r < i + n)%nat then cmd_data c r else dm_row d (14 * ch + Z.of_nat r).
Proof.
  intros Fc Hch. revert i d. induction n as [|n IH]; intros i d Hn Hj; simpl.
  { split; [done|]. split; [done|]. intros r. rewrite decide_False by lia. done. }
  unfold DMAE_CMD_SIZE in Hn. change (Z.of_nat DMAE_CMD_SIZE) with 14.
  replace (DMAE_REG_CMD_MEM + ch * 14 * 4 + Z.of_nat i * 4) with (DMAE_REG_CMD_MEM + 4 * (14 * ch + Z.of_nat i)) by lia.
  fold (cmd_data c i).
  assert (Hv : 0 <= cmd_data c i < 2 ^ 32).
  { unfold cmd_data. destruct (_ <? _)%nat; [by apply cmd_dword_fits|lia]. }
  destruct (law_dm_cmd d ch (Z.of_nat i) (cmd_data c i) Hj Hch ltac:(lia) Hv) as (J & A & R).
  destruct (IH (S i) _ ltac:(unfold DMAE_CMD_SIZE; lia) J) as (J' & A' & R'). split; [done|]. split; [by rewrite A'|].
  intros r. rewrite R', R. destruct (decide (r = i)) as [->|Hne].
  - rewrite decide_False by lia. rewrite !decide_True by lia. done.
  - rewrite (decide_False (P := _ = _)) by lia. repeat case_decide; try done; lia.
Qed.

Lemma cmd_of_dwords c row : cmd_fits c -> (forall i : nat, (i < 9)%nat -> row (Z.of_nat i) = cmd_data c i) -> cmd_of row = c.
Proof.
  intros F R. unfold cmd_fits in F. unfold cmd_of.
  assert (R0 : row 0 = cmd_data c 0) by exact (R 0%nat ltac:(lia)). assert (R1 : row 1 = cmd_data c 1) by exact (R 1%nat ltac:(lia)). assert (R2 : row 2 = cmd_data c 2) by exact (R 2%nat ltac:(lia)).
  assert (R3 : row 3 = cmd_data c 3) by exact (R 3%nat ltac:(lia)). assert (R4 : row 4 = cmd_data c 4) by exact (R 4%nat ltac:(lia)). assert (R5 : row 5 = cmd_data c 5) by exact (R 5%nat ltac:(lia)).
  assert (R6 : row 6 = cmd_data c 6) by exact (R 6%nat ltac:(lia)). assert (R7 : row 7 = cmd_data c 7) by exact (R 7%nat ltac:(lia)). assert (R8 : row 8 = cmd_data c 8) by exact (R 8%nat ltac:(lia)).
  rewrite R0, R1, R2, R3, R4, R5, R6, R7, R8. unfold cmd_data. simpl.
  rewrite (Z.add_comm (length_dw c)).
  replace ((opcode_b c * 2 ^ 16 + length_dw c) mod 2 ^ 16) with (length_dw c) by (symmetry; apply (mod_unique_pos _ _ (opcode_b c)); lia).
  replace ((opcode_b c * 2 ^ 16 + length_dw c) / 2 ^ 16) with (opcode_b c) by (symmetry; apply (div_unique_pos _ _ _ (length_dw c)); lia).
  by destruct c.
Qed.

(** The parts of a hardware function that a command does not change. *)
Definition same_fn h h' : Prop :=
  rel_pf_id h' = rel_pf_id h /\ port_id h' = port_id h /\ recov_in_prog h' = recov_in_prog h /\
  b_mem_ready (dmae_info h') = b_mem_ready (dmae_info h) /\ channel (dmae_info h') = channel (dmae_info h) /\
  completion_word_phys_addr (dmae_info h') = completion_word_phys_addr (dmae_info h) /\
  intermediate_buffer_phys_addr (dmae_info h') = intermediate_buffer_phys_addr (dmae_info h) /\
  p_dmae_cmd (dmae_info h') = p_dmae_cmd (dmae_info h).

Lemma same_fn_refl h : same_fn h h.
Proof. repeat split. Qed.
Lemma same_fn_trans h1 h2 h3 : same_fn h1 h2 -> same_fn h2 h3 -> same_fn h1 h3.
Proof. unfold same_fn. intuition congruence. Qed.

Lemma post_spec h c :
  the_cmd (dmae_info h) = c -> cmd_fits c -> 0 <= channel (dmae_info h) < 32 -> dm_job (dev h) = None ->
  hilo (dst_addr_hi c) (dst_addr_lo c) <> 0 -> hilo (src_addr_hi c) (src_addr_lo c) <> 0 ->
  exists d', qed_dmae_post_command h = (0, set_dev d' h) /\ dm_job d' = Some c /\ dm_at d' = dm_at (dev h).
Proof.
  intros Ec Fc Hch Hj Hd Hs. unfold qed_dmae_post_command. rewrite Ec. unfold hilo in *.
  replace (((dst_addr_lo c =? 0) && (dst_addr_hi c =? 0)) || ((src_addr_lo c =? 0) && (src_addr_hi c =? 0))) with false
    by (symmetry; apply orb_false_iff; split; apply andb_false_iff; lia).
  eexists. split; [done|]. unfold qed_dmae_idx_to_go_cmd. rewrite Z.shiftl_mul_pow2 by lia.
  replace (channel (dmae_info h) * 2 ^ 2) with (4 * channel (dmae_info h)) by lia.
  destruct (write_cmd_spec c _ DMAE_CMD_SIZE 0 (dev h) Fc Hch ltac:(done) Hj) as (J & A & R).
  destruct (law_dm_go _ _ J Hch) as [J' A']. rewrite J', A'. split; [|done]. f_equal. apply cmd_of_dwords; [done|].
  intros i Hi. rewrite R. unfold DMAE_CMD_SIZE. rewrite decide_True by lia. done.
Qed.

(** ** Waiting *)

Lemma wait_spec n c (d : D) a :
  dm_job d = Some c -> plain_cmd c -> no_overlap c -> comp_place c = PMem a -> comp_val c = DMAE_COMPLETION_VAL ->
  dm_at d (PMem a) <> DMAE_COMPLETION_VAL ->
  let '(rc, d') := wait_loop n a d in
  (forall q, ~ in_dst c q -> q <> PMem a -> dm_at d' q = dm_at d q) /\
  (rc = 0 /\ dm_job d' = None /\ (forall k, 0 <= k < length_dw c -> dm_at d' (dst_place c k) = dm_at d (src_place c k)) \/
   rc = - EBUSY /\ dm_job d' = Some c).
Proof.
  intros Hj Pc No Ep Ev. revert d Hj. induction n as [|n IH]; intros d Hj Hw; simpl;
    pose proof (law_dm_load_busy d a c Hj Pc No) as L; destruct (dm_load a d) as [w d1]; destruct L as (Ew & Fr & L); rewrite Ep in *.
  - destruct L as [[J C]|(J & C & M)].
    + rewrite Ew, C. destruct (Z.eqb_spec (dm_at d (PMem a)) DMAE_COMPLETION_VAL); [done|]. split; [done|]. by right.
    + rewrite Ew, C, Ev. simpl. split; [done|]. left. done.
  - destruct L as [[J C]|(J & C & M)].
    + rewrite Ew, C. destruct (Z.eqb_spec (dm_at d (PMem a)) DMAE_COMPLETION_VAL); [done|].
      specialize (IH d1 J ltac:(by rewrite C)). destruct (wait_loop n a d1) as [rc d2]. destruct IH as [F2 R].
      split; [intros q Q1 Q2; rewrite F2, Fr by done; done|]. destruct R as [(-> & J2 & M)|R]; [|by right]. left.
      split; [done|]. split; [done|]. intros k Hk. rewrite M by done. destruct (No k Hk) as (N1 & N2 & _).
      rewrite Ep in N2. by rewrite Fr.
    + rewrite Ew, C, Ev. simpl. split; [done|]. left. done.
Qed.

(** Posting and waiting together, on an idle engine with a clear completion
    word. *)
Lemma run_cmd_spec h c :
  the_cmd (dmae_info h) = c -> cmd_fits c -> plain_cmd c -> no_overlap c -> 0 <= channel (dmae_info h) < 32 ->
  dm_job (dev h) = None -> hilo (dst_addr_hi c) (dst_addr_lo c) <> 0 -> hilo (src_addr_hi c) (src_addr_lo c) <> 0 ->
  comp_place c = PMem (completion_word_phys_addr (dmae_info h)) -> comp_val c = DMAE_COMPLETION_VAL ->
  dm_at (dev h) (comp_place c) = 0 ->
  exists rc d', (let '(_, h1) := qed_dmae_post_command h in qed_dmae_operation_wait h1) = (rc, set_dev d' h) /\
    (forall q, ~ in_dst c q -> q <> comp_place c -> dm_at d' q = dm_at (dev h) q) /\
    (rc = 0 /\ dm_job d' = None /\ dm_at d' (comp_place c) = 0 /\
       (forall k, 0 <= k < length_dw c -> dm_at d' (dst_place c k) = dm_at (dev h) (src_place c k)) \/
     rc = - EBUSY).
Proof.
  intros Ec Fc Pc No Hch Hj Hd Hs Ep Ev H0.
  destruct (post_spec h c Ec Fc Hch Hj Hd Hs) as (d1 & -> & J1 & A1). unfold qed_dmae_operation_wait. simpl.
  set (a := completion_word_phys_addr (dmae_info h)) in *.
  pose proof (wait_spec wait_cnt_limit c d1 a J1 Pc No Ep Ev ltac:(rewrite A1, <- Ep, H0; done)) as W.
  destruct (wait_loop wait_cnt_limit a d1) as [rc d2]. destruct W as [Fr [(-> & J2 & M)|(-> & J2)]]; simpl.
  - destruct (law_dm_store d2 a 0 J2) as (J3 & _ & St). exists 0, (dm_store a 0 d2). split; [reflexivity|]. split; [|left].
    + intros q Q1 Q2. rewrite St. rewrite Ep in Q2. rewrite decide_False by done. rewrite Fr by done. by rewrite A1.
    + split; [done|]. split; [done|]. split; [by rewrite St, Ep, decide_True|]. intros k Hk. rewrite St.
      destruct (No k Hk) as (_ & _ & N). rewrite Ep in N. rewrite decide_False by done. rewrite M by done. by rewrite A1.
  - exists (- EBUSY), d2. split; [reflexivity|]. split; [|by right]. rewrite Ep. intros q Q1 Q2. rewrite Fr by done. by rewrite A1.
Qed.

(** ** The intermediate buffer *)

Lemma to_buffer_spec n k src buf vm (d : D) :
  dm_job d = None ->
  let d' := to_buffer n k src buf vm d in
  dm_job d' = None /\
  (forall j, k <= j < k + Z.of_nat n -> dm_at d' (PMem (buf + 4 * j)) = vm (src + 4 * j)) /\
  (forall q, (forall j, k <= j < k + Z.of_nat n -> q <> PMem (buf + 4 * j)) -> dm_at d' q = dm_at d q).
Proof.
  revert k d. induction n as [|n IH]; intros k d Hj; simpl.
  { split; [done|]. split; [lia|]. done. }
  destruct (law_dm_store d (buf + 4 * k) (vm (src + 4 * k)) Hj) as (J & _ & St).
  destruct (IH (k + 1) _ J) as (J' & M & F). split; [done|]. split.
  - intros j Hr. destruct (decide (j = k)) as [->|Hne].
    + rewrite F by (intros j' Hj' [= ?]; lia). by rewrite St, decide_True.
    + apply M. lia.
  - intros q Hq. rewrite F by (intros; apply Hq; lia). rewrite St, decide_False; [done|]. apply Hq. lia.
Qed.

Lemma from_buffer_spec n k dst buf vm (d : D) :
  dm_job d = None ->
  let '(vm', d') := from_buffer n k dst buf vm d in
  dm_job d' = None /\ dm_at d' = dm_at d /\
  (forall j, k <= j < k + Z.of_nat n -> vm' (dst + 4 * j) = dm_at d (PMem (buf + 4 * j))) /\
  (forall a, (forall j, k <= j < k + Z.of_nat n -> a <> dst + 4 * j) -> vm' a = vm a).
Proof.
  revert k vm d. induction n as [|n IH]; intros k vm d Hj; simpl.
  { split; [done|]. split; [done|]. split; [lia|]. done. }
  pose proof (law_dm_load_idle d (buf + 4 * k) Hj) as L. destruct (dm_load (buf + 4 * k) d) as [w d1].
  destruct L as (-> & J & A & _). set (vm1 := fun a => if a =? dst + 4 * k then _ else vm a).
  specialize (IH (k + 1) vm1 d1 J). destruct (from_buffer n (k + 1) dst buf vm1 d1) as [vm' d'].
  destruct IH as (J' & A' & M & F). split; [done|]. split; [by rewrite A'|]. split.
  - intros j Hr. destruct (decide (j = k)) as [->|Hne].
    + rewrite F by (intros j' Hj' ?; lia). unfold vm1. by rewrite Z.eqb_refl.
    + rewrite M by lia. by rewrite A.
  - intros a Ha. rewrite F by (intros; apply Ha; lia). unfold vm1. destruct (Z.eqb_spec a (dst + 4 * k)); [|done].
    exfalso. apply (Ha k); [lia|done].
Qed.

(** ** Cells *)

(** What a caller names by an address of some kind: a dword of its virtual
    memory, of bus memory or a register. *)
Inductive cell := CVirt (a : Z) | CAt (q : place).
Definition content h (x : cell) : Z := match x with CVirt a => virt h a | CAt q => dm_at (dev h) q end.
Definition cell_of (ty : qed_dmae_address_type) (pf a k : Z) : cell :=
  match ty with
  | QED_DMAE_ADDRESS_HOST_VIRT => CVirt (a + 4 * k)
  | QED_DMAE_ADDRESS_HOST_PHYS => CAt (PMem (a + 4 * k))
  | QED_DMAE_ADDRESS_GRC => CAt (PReg pf (a + k))
  end.

(** The driver's own DMA memory. *)
Definition scratch h (x : cell) : Prop :=
  x = CAt (PMem (completion_word_phys_addr (dmae_info h))) \/
  exists k, 0 <= k < DMAE_MAX_RW_SIZE /\ x = CAt (PMem (intermediate_buffer_phys_addr (dmae_info h) + 4 * k)).

(** The engine is idle and its memory is in place. *)
Record dm_ready h : Prop := {
  dr_mem : b_mem_ready (dmae_info h) = true;
  dr_cmd : p_dmae_cmd (dmae_info h) <> 0;
  dr_chan : 0 <= channel (dmae_info h) < 32;
  dr_idle : dm_job (dev h) = None;
  dr_comp : 0 <= completion_word_phys_addr (dmae_info h) < 2 ^ 64;
  dr_word : dm_at (dev h) (PMem (completion_word_phys_addr (dmae_info h))) = 0;
  dr_buf : 0 < intermediate_buffer_phys_addr (dmae_info h) /\
           intermediate_buffer_phys_addr (dmae_info h) + 4 * DMAE_MAX_RW_SIZE <= 2 ^ 64;
  dr_sep : forall k, 0 <= k < DMAE_MAX_RW_SIZE ->
    completion_word_phys_addr (dmae_info h) <> intermediate_buffer_phys_addr (dmae_info h) + 4 * k
}.

(** [n] dwords from [a] can be addressed. *)
Definition addr_ok (ty : qed_dmae_address_type) (a n : Z) : Prop :=
  match ty with
  | QED_DMAE_ADDRESS_HOST_VIRT => 0 <= a /\ a + 4 * n <= 2 ^ 64
  | QED_DMAE_ADDRESS_HOST_PHYS => 0 < a /\ a + 4 * n <= 2 ^ 64
  | QED_DMAE_ADDRESS_GRC => 0 < a /\ a + n <= 2 ^ 32
  end.

(** The command block holds the opcode and the completion address of a
    transfer between the kinds of address [st] and [dt]. *)
Definition cmd_set (st dt : qed_dmae_address_type) (sp dp : Z) h : Prop :=
  let c := the_cmd (dmae_info h) in
  0 <= opcode c < 2 ^ 32 /\ 0 <= opcode_b c < 2 ^ 16 /\
  get_field DMAE_CMD_SRC (opcode c) = (if bool_decide (st = QED_DMAE_ADDRESS_GRC) then dmae_cmd_src_grc else dmae_cmd_src_pcie) /\
  get_field DMAE_CMD_DST (opcode c) = (if bool_decide (dt = QED_DMAE_ADDRESS_GRC) then dmae_cmd_dst_grc else dmae_cmd_dst_pcie) /\
  get_field DMAE_CMD_SRC_PF_ID (opcode c) = sp /\ get_field DMAE_CMD_DST_PF_ID (opcode c) = dp /\
  get_field DMAE_CMD_C_DST (opcode c) = 0 /\ get_field DMAE_CMD_COMP_WORD_EN (opcode c) = 1 /\
  get_field DMAE_CMD_SRC_VF_ID_VALID (opcode c) = 0 /\ get_field DMAE_CMD_DST_VF_ID_VALID (opcode c) = 0 /\
  comp_addr_hi c = DMA_HI (completion_word_phys_addr (dmae_info h)) /\
  comp_addr_lo c = DMA_LO (completion_word_phys_addr (dmae_info h)) /\ comp_val c = DMAE_COMPLETION_VAL.

(** The source and the destination of [n] dwords do not meet each other or the
    driver's memory; one of them is not virtual. *)
Definition apart h (st dt : qed_dmae_address_type) (sp dp sa da n : Z) : Prop :=
  ~ (st = QED_DMAE_ADDRESS_HOST_VIRT /\ dt = QED_DMAE_ADDRESS_HOST_VIRT) /\
  forall k, 0 <= k < n ->
    (forall j, 0 <= j < n -> cell_of st sp sa k <> cell_of dt dp da j) /\
    ~ scratch h (cell_of st sp sa k) /\ ~ scratch h (cell_of dt dp da k).

Lemma hilo_split a : 0 <= a < 2 ^ 64 -> hilo (DMA_HI a) (DMA_LO a) = a.
Proof.
  intros Ha. pose proof (Z.div_mod a (2 ^ 32)) as Hd. unfold hilo, DMA_HI, DMA_LO. rewrite Z.shiftr_div_pow2 by lia.
  rewrite (u32_small (a / 2 ^ 32)); [unfold u32; lia|].
  split; [apply Z.div_pos; lia|]. apply Z.div_lt_upper_bound; lia.
Qed.

(** The address the engine gets for an end of a transfer: the intermediate
    buffer stands for a virtual address. *)
Definition bus_addr h (ty : qed_dmae_address_type) (a : Z) : Z :=
  match ty with QED_DMAE_ADDRESS_HOST_VIRT => intermediate_buffer_phys_addr (dmae_info h) | _ => a end.
Definition bus_type (ty : qed_dmae_address_type) : qed_dmae_address_type :=
  match ty with QED_DMAE_ADDRESS_HOST_VIRT => QED_DMAE_ADDRESS_HOST_PHYS | _ => ty end.

Lemma bus_addr_ok h ty a n : dm_ready h -> 0 < n <= DMAE_MAX_RW_SIZE -> addr_ok ty a n ->
  0 < bus_addr h ty a < 2 ^ 64 /\ (ty = QED_DMAE_ADDRESS_GRC -> bus_addr h ty a < 2 ^ 32).
Proof. intros R Hn Ha. destruct (dr_buf _ R). unfold DMAE_MAX_RW_SIZE in *. destruct ty; simpl in *; split; try done; lia. Qed.

(** ** One piece *)

(** The state a piece is posted from. *)
Definition prepared (st dt : qed_dmae_address_type) (sa da len : Z) h : dm_hwfn D :=
  let d := match st with
    | QED_DMAE_ADDRESS_HOST_VIRT => to_buffer (Z.to_nat len) 0 sa (intermediate_buffer_phys_addr (dmae_info h)) (virt h) (dev h)
    | _ => dev h
    end in
  set_dev d (set_cmd (the_cmd (dmae_info h) <| src_addr_hi := DMA_HI (bus_addr h st sa) |> <| src_addr_lo := DMA_LO (bus_addr h st sa) |>
    <| dst_addr_hi := DMA_HI (bus_addr h dt da) |> <| dst_addr_lo := DMA_LO (bus_addr h dt da) |> <| length_dw := u16 len |>) h).

Lemma sub_operation_eq st dt sa da len h :
  qed_dmae_execute_sub_operation sa da st dt len h =
  let buf := intermediate_buffer_phys_addr (dmae_info h) in
  let '(rc, h) := let '(_, h1) := qed_dmae_post_command (prepared st dt sa da len h) in qed_dmae_operation_wait h1 in
  if negb (rc =? 0) then (rc, h) else
  match dt with
  | QED_DMAE_ADDRESS_HOST_VIRT =>
      let '(vm, d) := from_buffer (Z.to_nat len) 0 da buf (virt h) (dev h) in
      (0, set_dev d h <| virt := vm |>)
  | _ => (0, h)
  end.
Proof.
  unfold qed_dmae_execute_sub_operation.
  destruct st, dt; cbv zeta;
    match goal with |- context [qed_dmae_post_command ?x] =>
      match goal with |- _ = ?r => match r with context [qed_dmae_post_command ?y] => change x with y end end
    end; destruct (qed_dmae_post_command _) as [rc0 h1]; destruct (qed_dmae_operation_wait h1); reflexivity.
Qed.

Lemma cell_inj ty pf a k j : cell_of ty pf a k = cell_of ty pf a j -> k = j.
Proof. destruct ty; intros [= ?]; lia. Qed.

(** Where the engine finds the source and puts the destination. *)
Lemma prepared_places st dt sp dp sa da len h :
  dm_ready h -> cmd_set st dt sp dp h -> 0 < len <= DMAE_MAX_RW_SIZE -> addr_ok st sa len -> addr_ok dt da len ->
  let c := the_cmd (dmae_info (prepared st dt sa da len h)) in
  cmd_fits c /\ plain_cmd c /\ length_dw c = len /\
  hilo (dst_addr_hi c) (dst_addr_lo c) <> 0 /\ hilo (src_addr_hi c) (src_addr_lo c) <> 0 /\
  comp_place c = PMem (completion_word_phys_addr (dmae_info h)) /\ comp_val c = DMAE_COMPLETION_VAL /\
  (forall k, CAt (src_place c k) = cell_of (bus_type st) sp (bus_addr h st sa) k) /\
  (forall k, CAt (dst_place c k) = cell_of (bus_type dt) dp (bus_addr h dt da) k).
Proof.
  intros R (O1 & O2 & Fs & Fd & Fsp & Fdp & Fc & Fw & Fv1 & Fv2 & Ch & Cl & Cv) Hl Hs Hd.
  destruct (bus_addr_ok h st sa len R Hl Hs) as [[S1 S2] S3]. destruct (bus_addr_ok h dt da len R Hl Hd) as [[D1 D2] D3].
  unfold DMAE_MAX_RW_SIZE in Hl. simpl. split; [|split; [|split; [|split; [|split; [|split; [|split; [done|split]]]]]]].
  - unfold cmd_fits. simpl. rewrite Ch, Cl, Cv. unfold DMA_HI, DMA_LO.
    repeat match goal with |- _ /\ _ => split end; try apply u32_bound; try apply u16_bound; try lia; done.
  - unfold plain_cmd. simpl. rewrite Fd. clear Fd Fs. split; [case_bool_decide; [by left|by right]|done].
  - apply u16_small. lia.
  - rewrite hilo_split by lia. lia.
  - rewrite hilo_split by lia. lia.
  - unfold comp_place. simpl. rewrite Ch, Cl. rewrite hilo_split by apply R. done.
  - intros k. unfold src_place. simpl. rewrite Fs, Fsp. clear Fd Fs. case_bool_decide as E; simpl.
    + pose proof (S3 E). subst st. simpl in *. unfold DMA_LO. by rewrite u32_small by lia.
    + rewrite hilo_split by lia. by destruct st.
  - intros k. unfold dst_place. simpl. rewrite Fd, Fdp. clear Fd Fs. case_bool_decide as E; simpl.
    + pose proof (D3 E). subst dt. simpl in *. unfold DMA_LO. by rewrite u32_small by lia.
    + rewrite hilo_split by lia. by destruct dt.
Qed.

Lemma prepared_dev st dt sp sa da len h :
  dm_ready h -> 0 < len <= DMAE_MAX_RW_SIZE ->
  let d := dev (prepared st dt sa da len h) in
  dm_job d = None /\
  (forall q, ~ scratch h (CAt q) \/ q = PMem (completion_word_phys_addr (dmae_info h)) -> dm_at d q = dm_at (dev h) q) /\
  (forall k q, 0 <= k < len -> CAt q = cell_of (bus_type st) sp (bus_addr h st sa) k -> ~ scratch h (cell_of st sp sa k) ->
     dm_at d q = content h (cell_of st sp sa k)).
Proof.
  intros R Hl. pose proof (dr_idle _ R) as J. destruct st; simpl.
  - destruct (to_buffer_spec (Z.to_nat len) 0 sa (intermediate_buffer_phys_addr (dmae_info h)) (virt h) (dev h) J) as (J' & M & F).
    split; [done|]. split.
    + intros q Hq. apply F. intros j Hj ->. destruct Hq as [Hq|[= Hq]].
      * apply Hq. right. exists j. split; [lia|done].
      * apply (dr_sep _ R j); [lia|done].
    + intros k q Hk [= ->] _. apply M. lia.
  - split; [done|]. split; [done|]. by intros k q Hk [= ->] _.
  - split; [done|]. split; [done|]. by intros k q Hk [= ->] _.
Qed.

Lemma bus_cell h ty pf a k :
  cell_of (bus_type ty) pf (bus_addr h ty a) k =
  match ty with
  | QED_DMAE_ADDRESS_HOST_VIRT => CAt (PMem (intermediate_buffer_phys_addr (dmae_info h) + 4 * k))
  | _ => cell_of ty pf a k
  end.
Proof. by destruct ty. Qed.

Lemma piece_no_overlap st dt sp dp sa da len h :
  dm_ready h -> cmd_set st dt sp dp h -> 0 < len <= DMAE_MAX_RW_SIZE -> addr_ok st sa len -> addr_ok dt da len ->
  apart h st dt sp dp sa da len -> no_overlap (the_cmd (dmae_info (prepared st dt sa da len h))).
Proof.
  intros R C Hl Hs Hd [Hv A].
  destruct (prepared_places st dt sp dp sa da len h R C Hl Hs Hd) as (_ & _ & El & _ & _ & Ep & _ & Sp & Dp).
  set (c := the_cmd _) in *. intros k Hk. rewrite El in Hk.
  destruct (A k Hk) as (A1 & A2 & A3). pose proof (dr_sep _ R k ltac:(lia)) as Hsep.
  assert (Buf : forall j, 0 <= j < len -> scratch h (CAt (PMem (intermediate_buffer_phys_addr (dmae_info h) + 4 * j)))).
  { intros j Hj. right. exists j. split; [lia|done]. }
  assert (Cw : scratch h (CAt (PMem (completion_word_phys_addr (dmae_info h))))) by by left.
  split; [|split].
  - intros (j & Hj & E). rewrite El in Hj. apply (f_equal CAt) in E. rewrite Sp, Dp, !bus_cell in E.
    destruct (A j Hj) as (_ & _ & A3').
    destruct st, dt; try (by apply Hv); try (by apply (A1 j Hj)); try (by rewrite E in *; apply A2, Buf);
      try (apply A3'; rewrite <- E; by apply Buf).
  - intros E. apply (f_equal CAt) in E. rewrite Sp, Ep, bus_cell in E. destruct st; try (by rewrite E in A2).
    injection E as E. by apply Hsep.
  - intros E. apply (f_equal CAt) in E. rewrite Dp, Ep, bus_cell in E. destruct dt; try (by rewrite E in A3).
    injection E as E. by apply Hsep.
Qed.

Lemma sub_operation_spec st dt sp dp sa da len h :
  dm_ready h -> cmd_set st dt sp dp h -> 0 < len <= DMAE_MAX_RW_SIZE -> addr_ok st sa len -> addr_ok dt da len ->
  apart h st dt sp dp sa da len ->
  exists rc h', qed_dmae_execute_sub_operation sa da st dt len h = (rc, h') /\
    same_fn h h' /\ cmd_set st dt sp dp h' /\ hw_errs h' = hw_errs h /\
    (forall x, ~ scratch h x -> (forall k, 0 <= k < len -> x <> cell_of dt dp da k) -> content h' x = content h x) /\
    (rc = 0 /\ dm_ready h' /\ (forall k, 0 <= k < len -> content h' (cell_of dt dp da k) = content h (cell_of st sp sa k)) \/
     rc = - EBUSY).
Proof.
  intros R C Hl Hs Hd A. pose proof (piece_no_overlap _ _ _ _ _ _ _ _ R C Hl Hs Hd A) as No. rewrite sub_operation_eq. cbv zeta.
  destruct (prepared_places st dt sp dp sa da len h R C Hl Hs Hd) as (Fc & Pc & El & Nd & Ns & Ep & Ev & Sp & Dp).
  destruct (prepared_dev st dt sp sa da len h R Hl) as (J & Fr & Src).
  set (h1 := prepared st dt sa da len h) in *. set (c := the_cmd (dmae_info h1)) in *.
  destruct (run_cmd_spec h1 c eq_refl Fc Pc No (dr_chan _ R) J Nd Ns Ep Ev
    ltac:(rewrite Ep, Fr by (by right); exact (dr_word _ R))) as (rc & d' & E & Fr' & Res). rewrite E, El in *.
  assert (Out : forall q, ~ scratch h (CAt q) -> (forall k, 0 <= k < len -> CAt q <> cell_of dt dp da k) -> dm_at d' q = dm_at (dev h) q).
  { intros q Q1 Q2. rewrite Fr'; [apply Fr; by left| |].
    - intros (k & Hk & ->). rewrite El in Hk. destruct dt; try (apply (Q2 k Hk); by rewrite Dp, bus_cell).
      apply Q1. rewrite Dp, bus_cell. right. exists k. split; [lia|done].
    - rewrite Ep. intros ->. apply Q1. by left. }
  destruct Res as [(-> & J' & W & M)| -> ].
  2:{ exists (- EBUSY), (set_dev d' h1). split; [done|]. split; [repeat split|]. split; [exact C|]. split; [done|].
      split; [|by right]. intros [a|q] X1 X2; [done|]. by apply Out. }
  assert (Dst : forall k q, 0 <= k < len -> CAt q = cell_of (bus_type dt) dp (bus_addr h dt da) k ->
    dm_at d' q = content h (cell_of st sp sa k)).
  { intros k q Hk Eq. rewrite <- Dp in Eq. injection Eq as ->. rewrite M by done. apply (Src k); [done|apply Sp|apply A, Hk]. }
  assert (Rd : dm_ready (set_dev d' h1)).
  { destruct R. split; try done. simpl. rewrite Ep in W. exact W. }
  simpl. destruct dt.
  - pose proof (from_buffer_spec (Z.to_nat len) 0 da (intermediate_buffer_phys_addr (dmae_info h)) (virt h) d' J') as FB.
    simpl. destruct (from_buffer _ _ _ _ _ _) as [vm d2]. destruct FB as (J2 & A2 & M2 & F2).
    eexists 0, _. split; [done|]. split; [repeat split|]. split; [exact C|]. split; [done|]. split.
    + intros [a|q] X1 X2; simpl.
      * apply F2. intros j Hj ->. apply (X2 j); [lia|done].
      * rewrite A2. by apply Out.
    + left. split; [done|]. split.
      * destruct Rd. split; try done. simpl. by rewrite A2.
      * intros k Hk. simpl. rewrite M2 by lia. apply Dst; [done|]. by rewrite bus_cell.
  - eexists 0, _. split; [done|]. split; [repeat split|]. split; [exact C|]. split; [done|]. split.
    + intros [a|q] X1 X2; [done|]. by apply Out.
    + left. split; [done|]. split; [done|]. intros k Hk. simpl. by apply Dst.
  - eexists 0, _. split; [done|]. split; [repeat split|]. split; [exact C|]. split; [done|]. split.
    + intros [a|q] X1 X2; [done|]. by apply Out.
    + left. split; [done|]. split; [done|]. intros k Hk. simpl. by apply Dst.
Qed.

(** ** The whole transfer *)

Lemma same_fn_scratch h h' x : same_fn h h' -> scratch h' x <-> scratch h x.
Proof. intros (_ & _ & _ & _ & _ & E1 & E2 & _). unfold scratch. by rewrite E1, E2. Qed.

(** The source dword of destination dword [k]: with [RW_REPL_SRC] the first
    block is repeated. *)
Definition src_idx (repl : bool) (k : Z) : Z := if repl then k mod DMAE_MAX_RW_SIZE else k.
Definition src_len (repl : bool) (n : Z) : Z := if repl then Z.min n DMAE_MAX_RW_SIZE else n.

Record transfer_ok h (st dt : qed_dmae_address_type) (sp dp sa da n : Z) (repl : bool) : Prop := {
  to_size : 0 <= n < 65535 * DMAE_MAX_RW_SIZE;
  to_src : addr_ok st sa (src_len repl n);
  to_dst : addr_ok dt da n;
  to_virt : ~ (st = QED_DMAE_ADDRESS_HOST_VIRT /\ dt = QED_DMAE_ADDRESS_HOST_VIRT);
  to_apart : forall k j, 0 <= k < n -> 0 <= j < n -> cell_of st sp sa (src_idx repl k) <> cell_of dt dp da j;
  to_scratch : forall k, 0 <= k < n -> ~ scratch h (cell_of st sp sa (src_idx repl k)) /\ ~ scratch h (cell_of dt dp da k)
}.

(** Addresses advance by dwords or by bytes. *)
Definition shift_addr (ty : qed_dmae_address_type) (a off : Z) : Z :=
  if bool_decide (ty = QED_DMAE_ADDRESS_GRC) then a + off else a + 4 * off.

Lemma cell_shift ty pf a off k : cell_of ty pf (shift_addr ty a off) k = cell_of ty pf a (off + k).
Proof.
  unfold shift_addr. case_bool_decide as E; destruct ty; try done; unfold cell_of.
  - by rewrite Z.add_assoc.
  - by replace (a + 4 * off + 4 * k) with (a + 4 * (off + k)) by lia.
  - by replace (a + 4 * off + 4 * k) with (a + 4 * (off + k)) by lia.
Qed.

Lemma addr_ok_shift ty a n off len : addr_ok ty a n -> 0 <= off -> 0 <= len -> off + len <= n -> addr_ok ty (shift_addr ty a off) len.
Proof. unfold shift_addr. case_bool_decide as E; destruct ty; simpl; try done; lia. Qed.

(** The address computed by the code is the shifted one. *)
Lemma split_addr ty a n i len :
  addr_ok ty a n -> 0 <= i < 65535 -> 0 < len -> DMAE_MAX_RW_SIZE * i + len <= n ->
  (if bool_decide (ty = QED_DMAE_ADDRESS_GRC) then u64 (a + DMAE_MAX_RW_SIZE * i) else u64 (a + u32 (DMAE_MAX_RW_SIZE * i * 4)))
  = shift_addr ty a (DMAE_MAX_RW_SIZE * i).
Proof.
  unfold shift_addr, DMAE_MAX_RW_SIZE. intros Ha Hi Hl Hn. case_bool_decide as E.
  - subst ty. simpl in Ha. rewrite u64_small by lia. done.
  - rewrite (u32_small (_ * _)) by lia. rewrite u64_small; [lia|]. destruct ty; simpl in Ha; try done; lia.
Qed.

(** After the pieces before [i]. *)
Record moved_upto (st dt : qed_dmae_address_type) (sp dp sa da n : Z) (repl : bool) (m : Z) (h0 h : dm_hwfn D) : Prop := {
  mu_fn : same_fn h0 h;
  mu_cmd : cmd_set st dt sp dp h;
  mu_errs : hw_errs h = hw_errs h0;
  mu_ready : dm_ready h;
  mu_frame : forall x, ~ scratch h0 x -> (forall k, 0 <= k < m -> x <> cell_of dt dp da k) -> content h x = content h0 x;
  mu_done : forall k, 0 <= k < m -> content h (cell_of dt dp da k) = content h0 (cell_of st sp sa (src_idx repl k))
}.

Lemma piece_apart st dt sp dp sa da n repl m h0 h off len :
  transfer_ok h0 st dt sp dp sa da n repl -> moved_upto st dt sp dp sa da n repl m h0 h ->
  0 <= off -> 0 < len <= DMAE_MAX_RW_SIZE -> off + len <= n -> off mod DMAE_MAX_RW_SIZE = 0 ->
  let sa' := if repl then sa else shift_addr st sa off in
  addr_ok st sa' len /\ addr_ok dt (shift_addr dt da off) len /\
  apart h st dt sp dp sa' (shift_addr dt da off) len /\
  forall k, 0 <= k < len -> cell_of st sp sa' k = cell_of st sp sa (src_idx repl (off + k)).
Proof.
  intros T M H0 Hl Hn Hoff. cbv zeta.
  assert (Src : forall k, 0 <= k < len -> cell_of st sp (if repl then sa else shift_addr st sa off) k = cell_of st sp sa (src_idx repl (off + k))).
  { intros k Hk. destruct repl; simpl; [|by rewrite cell_shift]. f_equal. unfold src_idx.
    rewrite Z.add_mod, Hoff, Z.add_0_l, Z.mod_mod, Z.mod_small; try done; lia. }
  split; [|split; [|split; [|done]]].
  - pose proof (to_src _ _ _ _ _ _ _ _ _ T) as A. destruct repl; simpl in A; [destruct st; simpl in *; lia|].
    apply (addr_ok_shift _ _ n); [exact A|lia..].
  - apply (addr_ok_shift _ _ n); [apply T|lia..].
  - split; [apply T|]. intros k Hk. rewrite Src by done. rewrite cell_shift.
    rewrite !(same_fn_scratch h0 h) by apply M. destruct (to_scratch _ _ _ _ _ _ _ _ _ T (off + k) ltac:(lia)) as [S1 S2].
    split; [|done]. intros j Hj. rewrite cell_shift. apply (to_apart _ _ _ _ _ _ _ _ _ T); lia.
Qed.

(** One piece extends the part that has been moved. *)
Lemma piece_step st dt sp dp sa da n repl h0 h off len :
  transfer_ok h0 st dt sp dp sa da n repl -> moved_upto st dt sp dp sa da n repl off h0 h ->
  0 <= off -> 0 < len <= DMAE_MAX_RW_SIZE -> off + len <= n -> off mod DMAE_MAX_RW_SIZE = 0 ->
  exists rc h', qed_dmae_execute_sub_operation (if repl then sa else shift_addr st sa off) (shift_addr dt da off) st dt len h = (rc, h') /\
    (rc = 0 /\ moved_upto st dt sp dp sa da n repl (off + len) h0 h' \/
     rc = - EBUSY /\ same_fn h0 h' /\ hw_errs h' = hw_errs h0 /\
       forall x, ~ scratch h0 x -> (forall k, 0 <= k < n -> x <> cell_of dt dp da k) -> content h' x = content h0 x).
Proof.
  intros T M H0 Hl Hn Hoff. destruct (piece_apart _ _ _ _ _ _ _ _ _ _ _ _ _ T M H0 Hl Hn Hoff) as (A1 & A2 & A3 & Src).
  destruct (sub_operation_spec _ _ _ _ _ _ _ h (mu_ready _ _ _ _ _ _ _ _ _ _ _ M) (mu_cmd _ _ _ _ _ _ _ _ _ _ _ M) Hl A1 A2 A3)
    as (rc & h' & E & SF & C & Er & Fr & Res).
  exists rc, h'. split; [done|]. destruct M as [M1 M2 M3 M4 M5 M6]. pose proof (same_fn_trans _ _ _ M1 SF) as SF0.
  assert (Out : forall x, ~ scratch h0 x -> (forall k, 0 <= k < off + len -> x <> cell_of dt dp da k) -> content h' x = content h0 x).
  { intros x X1 X2. rewrite Fr; [apply M5; [done|intros; apply X2; lia]| |].
    - by rewrite (same_fn_scratch h0 h).
    - intros k Hk. rewrite cell_shift. apply X2. lia. }
  destruct Res as [(-> & R & Mv)| -> ]; [left|right].
  - split; [done|]. split; [done|done|by rewrite Er|done|done|]. intros k Hk. destruct (Z.lt_ge_cases k off) as [Hk'|Hk'].
    + rewrite Fr; [apply M6; lia| |].
      * rewrite (same_fn_scratch h0 h) by done. apply T. lia.
      * intros j Hj. rewrite cell_shift. intros Eq%cell_inj. lia.
    + replace k with (off + (k - off)) at 1 by lia. rewrite <- cell_shift, Mv by lia. rewrite Src by lia.
      replace (off + (k - off)) with k by lia.
      destruct (to_scratch _ _ _ _ _ _ _ _ _ T k ltac:(lia)) as [S1 _]. apply M5; [done|].
      intros j Hj. apply (to_apart _ _ _ _ _ _ _ _ _ T); lia.
  - split; [done|]. split; [done|]. split; [by rewrite Er|]. intros x X1 X2. apply Out; [done|]. intros; apply X2; lia.
Qed.

(** The outcome of a transfer. *)
Definition transferred (st dt : qed_dmae_address_type) (sp dp sa da n : Z) (repl : bool) (rc : Z) (h0 h : dm_hwfn D) : Prop :=
  same_fn h0 h /\
  (forall x, ~ scratch h0 x -> (forall k, 0 <= k < n -> x <> cell_of dt dp da k) -> content h x = content h0 x) /\
  (rc = 0 /\ dm_ready h /\ hw_errs h = hw_errs h0 /\
     (forall k, 0 <= k < n -> content h (cell_of dt dp da k) = content h0 (cell_of st sp sa (src_idx repl k))) \/
   rc = - EBUSY /\ hw_errs h = S (hw_errs h0)).

Lemma split_loop_spec fuel i sas st dt sp dp sa da n repl h0 h :
  transfer_ok h0 st dt sp dp sa da n repl -> recov_in_prog h0 = false -> (repl = true -> sas = sa) ->
  0 <= i <= n / DMAE_MAX_RW_SIZE + 1 -> n / DMAE_MAX_RW_SIZE + 1 - i < Z.of_nat fuel ->
  moved_upto st dt sp dp sa da n repl (Z.min (DMAE_MAX_RW_SIZE * i) n) h0 h ->
  exists rc h', split_loop fuel i (n / DMAE_MAX_RW_SIZE) (n mod DMAE_MAX_RW_SIZE) sa da sas st dt repl h = Some (rc, h') /\
    transferred st dt sp dp sa da n repl rc h0 h'.
Proof.
  intros T Hrec. pose proof (to_size _ _ _ _ _ _ _ _ _ T) as Hsz.
  set (q := n / DMAE_MAX_RW_SIZE) in *. set (r := n mod DMAE_MAX_RW_SIZE).
  assert (Hq : n = DMAE_MAX_RW_SIZE * q + r /\ 0 <= r < DMAE_MAX_RW_SIZE /\ 0 <= q < 65535).
  { unfold q, r, DMAE_MAX_RW_SIZE in *. pose proof (Z.div_mod n 0x2000 ltac:(lia)). pose proof (Z.mod_pos_bound n 0x2000 ltac:(lia)).
    split; [lia|]. split; [lia|]. split; [apply Z.div_pos; lia|]. apply Z.div_lt_upper_bound; lia. }
  clearbody q r. destruct Hq as (Hn & Hr & Hq).
  revert i sas h. induction fuel as [|fuel IH]; intros i sas h Hsas Hi Hf M; [lia|]. simpl.
  destruct (Z.ltb_spec q i) as [Hlast|Hin].
  { exists 0, h. split; [done|]. assert (i = q + 1) as -> by lia. rewrite Z.min_r in M by (unfold DMAE_MAX_RW_SIZE in *; lia).
    destruct M as [M1 M2 M3 M4 M5 M6]. split; [done|]. split; [done|]. by left. }
  rewrite Z.min_l in M by (unfold DMAE_MAX_RW_SIZE in *; lia). rewrite (u16_small (i + 1)) by lia.
  set (len := if q =? i then r else DMAE_MAX_RW_SIZE).
  assert (Hlen : 0 <= len <= DMAE_MAX_RW_SIZE /\ Z.min (DMAE_MAX_RW_SIZE * (i + 1)) n = DMAE_MAX_RW_SIZE * i + len).
  { unfold len, DMAE_MAX_RW_SIZE in *. destruct (Z.eqb_spec q i); lia. }
  destruct Hlen as [Hl1 Hl2].
  destruct (Z.eqb_spec len 0) as [E0|N0].
  { apply IH; [|lia|lia|by rewrite Hl2, E0, Z.add_0_r]. intros ->. by apply Hsas. }
  assert (Hmod : DMAE_MAX_RW_SIZE * i mod DMAE_MAX_RW_SIZE = 0) by (rewrite Z.mul_comm; by apply Z.mod_mul).
  assert (Hfit : DMAE_MAX_RW_SIZE * i + len <= n) by lia.
  assert (Hl0 : 0 < len <= DMAE_MAX_RW_SIZE) by lia.
  assert (Hoff : 0 <= DMAE_MAX_RW_SIZE * i) by (unfold DMAE_MAX_RW_SIZE; lia).
  rewrite (split_addr dt da n i len) by (try done; try lia; apply T).
  destruct (piece_step _ _ _ _ _ _ _ _ _ _ _ _ T M Hoff Hl0 Hfit Hmod) as (rc & h' & E & Res).
  assert (Es : (if repl then sas else
      if bool_decide (st = QED_DMAE_ADDRESS_GRC) then u64 (sa + DMAE_MAX_RW_SIZE * i) else u64 (sa + u32 (DMAE_MAX_RW_SIZE * i * 4)))
    = if repl then sa else shift_addr st sa (DMAE_MAX_RW_SIZE * i)).
  { destruct repl; [by apply Hsas|]. apply (split_addr st sa n i len); try done; try lia. apply (to_src _ _ _ _ _ _ _ _ _ T). }
  rewrite Es, E. destruct Res as [[-> M']|(-> & SF & Er & Fr)]; simpl.
  - apply IH; [|lia|lia|by rewrite Hl2]. by intros ->.
  - exists (- EBUSY), (qed_hw_err_notify h'). split; [done|]. unfold qed_hw_err_notify.
    destruct SF as (F1 & F2 & F3 & F4). rewrite F3, Hrec. split; [by repeat split; try apply F4|]. split; [exact Fr|].
    right. split; [done|]. simpl. by rewrite Er.
Qed.

Lemma execute_spec st dt sa da n p h :
  dm_ready h -> recov_in_prog h = false -> no_vf p ->
  transfer_ok h st dt (src_pf p h) (dst_pf p h) sa da n (flag_set RW_REPL_SRC p) ->
  exists rc h', qed_dmae_execute_command sa da st dt n p h = Some (rc, h') /\
    transferred st dt (src_pf p h) (dst_pf p h) sa da n (flag_set RW_REPL_SRC p) rc h h'.
Proof.
  intros R Hrec V T. unfold qed_dmae_execute_command. rewrite (dr_mem _ R), Hrec. simpl.
  destruct (Z.eqb_spec (p_dmae_cmd (dmae_info h)) 0) as [E0|_]; [by destruct (dr_cmd _ R)|].
  destruct (opcode_fields (bool_decide (st = QED_DMAE_ADDRESS_GRC)) (bool_decide (dt = QED_DMAE_ADDRESS_GRC)) p h V)
    as (opc & opb & -> & B1 & B2 & F1 & F2 & F3 & F4 & F5 & F6 & F7 & F8).
  set (h1 := set_cmd _ _). pose proof (to_size _ _ _ _ _ _ _ _ _ T) as Hsz. unfold DMAE_MAX_RW_SIZE in Hsz.
  assert (Hd : 0 <= n / DMAE_MAX_RW_SIZE < 65535).
  { unfold DMAE_MAX_RW_SIZE. split; [apply Z.div_pos; lia|apply Z.div_lt_upper_bound; lia]. }
  assert (Hm : 0 <= n mod DMAE_MAX_RW_SIZE < 0x2000) by (apply Z.mod_pos_bound; lia).
  rewrite (u16_small (n / _)), (u16_small (n mod _)) by lia.
  apply split_loop_spec; [done|done|done|lia|change (Z.of_nat split_fuel) with (Z.of_nat (Z.to_nat (2 ^ 16 + 1))); lia|].
  split; [repeat split|unfold cmd_set; simpl; split_and!; done || lia|done|by destruct R; split| |].
  - intros [a|q] _ _; done.
  - unfold DMAE_MAX_RW_SIZE in *. lia.
Qed.

End Engine.

(** ** Allocation *)

Definition no_blocks : qed_dmae_info := mk_qed_dmae_info false 0 0 0 0 0 0 0 (mk_dmae_cmd 0 0 0 0 0 0 0 0 0 0).

Lemma free_block_null size phys m : free_block size 0 phys m = Some m.
Proof. done. Qed.

Lemma free_live v size phys m :
  v <> 0 -> live m !! v = Some (size, phys) -> free_block size v phys m = Some (m <| live := delete v (live m) |>).
Proof.
  intros Hv E. unfold free_block, dma_free_coherent. destruct (Z.eqb_spec v 0); [done|]. by rewrite E, !Z.eqb_refl.
Qed.

(** A block just allocated is the only one at its address, and freeing it
    restores the live blocks. *)
Lemma alloc_block size m v p m' :
  dma_alloc_coherent size m = (v, p, m') ->
  v = 0 /\ live m' = live m \/ v <> 0 /\ live m !! v = None /\ live m' = <[v := (size, p)]> (live m).
Proof.
  intros E. destruct (decide (v = 0)) as [->|Hv].
  - left. split; [done|]. by destruct (dma_alloc_null _ _ _ _ _ E eq_refl).
  - right. destruct (dma_alloc_inv _ _ _ _ _ E Hv) as (Hf & Hl & _). apply fresh_block_spec in Hf as (_ & Hn & _). done.
Qed.
