(* ===== verification/DmaEngineClaims.v ===== *)
(** * Properties of the DMA engine commands

    Transfers for every engine that keeps its laws, a simulated engine, and
    what happens when a completion comes after its time-out. *)

From S2P Require Import Prelude Dma DmaEngine DmaEngineProps.

(** ** A simulated engine *)

(** Contents, command memory, the running command, and for each command to come
    the number of polls it takes. *)
Record sim := mk_sim { s_at : place -> Z; s_row : Z -> Z; s_job : option dmae_cmd; s_delay : list nat }.

(** The index of a place in the destination of a command. *)
Definition dst_index (c : dmae_cmd) (q : place) : option Z :=
  match q with
  | PReg pf a =>
      if (get_field DMAE_CMD_DST (opcode c) =? dmae_cmd_dst_grc) && (pf =? get_field DMAE_CMD_DST_PF_ID (opcode c)) &&
         (0 <=? a - dst_addr_lo c) && (a - dst_addr_lo c <? length_dw c)
      then Some (a - dst_addr_lo c) else None
  | PMem a =>
      let o := a - hilo (dst_addr_hi c) (dst_addr_lo c) in
      if negb (get_field DMAE_CMD_DST (opcode c) =? dmae_cmd_dst_grc) && (o mod 4 =? 0) && (0 <=? o / 4) && (o / 4 <? length_dw c)
      then Some (o / 4) else None
  end.

(** The engine ends its command. *)
Definition sim_end (c : dmae_cmd) (d : sim) : sim :=
  mk_sim (fun q => if decide (q = comp_place c) then comp_val c
                   else match dst_index c q with Some k => s_at d (src_place c k) | None => s_at d q end)
    (s_row d) None (tail (s_delay d)).

Definition sim_poll (d : sim) : sim :=
  match s_job d with
  | None => d
  | Some c =>
      match s_delay d with
      | S n :: l => mk_sim (s_at d) (s_row d) (s_job d) (n :: l)
      | _ => sim_end c d
      end
  end.

(** The function whose registers single writes reach. *)
Definition sim_own : Z := 3.

#[export] Instance sim_chip : DmaeChip sim := {|
  dm_wr a v d :=
    if (DMAE_REG_CMD_MEM <=? a) && (a <? DMAE_REG_CMD_MEM + 4 * (14 * 32))
    then mk_sim (s_at d) (fun r => if r =? (a - DMAE_REG_CMD_MEM) / 4 then v else s_row d r) (s_job d) (s_delay d)
    else if (DMAE_REG_GO_C0 <=? a) && (a <? DMAE_REG_GO_C0 + 4 * 32)
    then mk_sim (s_at d) (s_row d) (Some (cmd_of (fun i => s_row d (14 * ((a - DMAE_REG_GO_C0) / 4) + i)))) (s_delay d)
    else mk_sim (fun q => if decide (q = PReg sim_own (a / 4)) then v else s_at d q) (s_row d) (s_job d) (s_delay d);
  dm_load a d := let d' := sim_poll d in (s_at d' (PMem a), d');
  dm_store a v d := mk_sim (fun q => if decide (q = PMem a) then v else s_at d q) (s_row d) (s_job d) (s_delay d);
  dm_at := s_at;
  dm_row := s_row;
  dm_job := s_job
|}.

Lemma dst_index_spec c q k : dst_index c q = Some k <-> 0 <= k < length_dw c /\ q = dst_place c k.
Proof.
  unfold dst_index, dst_place. destruct q as [pf a|a].
  - split.
    + destruct (_ && _) eqn:E; [|done]. intros [= <-]. zbool. rewrite (proj2 (Z.eqb_eq _ _)) by done.
      split; [lia|]. f_equal; lia.
    + intros [Hk E]. destruct (get_field DMAE_CMD_DST (opcode c) =? dmae_cmd_dst_grc); [|done]. injection E as -> ->.
      rewrite Z.eqb_refl. simpl. replace (dst_addr_lo c + k - dst_addr_lo c) with k by lia.
      by replace ((0 <=? k) && (k <? length_dw c)) with true by lia.
  - set (b := hilo _ _). split.
    + destruct (_ && _) eqn:E; [|done]. intros [= <-]. zbool. rewrite (proj2 (Z.eqb_neq _ _)) by done.
      split; [lia|]. f_equal. pose proof (Z.div_mod (a - b) 4 ltac:(lia)). lia.
    + intros [Hk E]. destruct (get_field DMAE_CMD_DST (opcode c) =? dmae_cmd_dst_grc); [done|]. injection E as ->.
      replace (b + 4 * k - b) with (k * 4) by lia. rewrite Z.mod_mul, Z.div_mul by done. simpl.
      by replace ((0 <=? k) && (k <? length_dw c)) with true by lia.
Qed.

#[export] Instance sim_chip_laws : DmaeChipLaws sim.
Proof.
  split; simpl.
  - intros d ch i v Hj Hch Hi Hv. unfold DMAE_REG_CMD_MEM.
    replace ((51200 <=? 51200 + 4 * (14 * ch + i)) && (51200 + 4 * (14 * ch + i) <? 51200 + 4 * (14 * 32))) with true by lia.
    simpl. split; [done|]. split; [done|]. intros r. replace (51200 + 4 * (14 * ch + i) - 51200) with ((14 * ch + i) * 4) by lia.
    rewrite Z.div_mul by done. case_decide; [subst; by rewrite Z.eqb_refl|]. by destruct (Z.eqb_spec r (14 * ch + i)).
  - intros d ch Hj Hch. unfold DMAE_REG_CMD_MEM, DMAE_REG_GO_C0.
    replace ((51200 <=? 49224 + 4 * ch) && (49224 + 4 * ch <? 51200 + 4 * (14 * 32))) with false by lia.
    replace ((49224 <=? 49224 + 4 * ch) && (49224 + 4 * ch <? 49224 + 4 * 32)) with true by lia. simpl. split; [|done].
    replace (49224 + 4 * ch - 49224) with (ch * 4) by lia. by rewrite Z.div_mul by done.
  - intros d a v Hj. split; [done|]. split; [done|]. done.
  - intros d a Hj. unfold sim_poll. rewrite Hj. done.
  - intros d a c Hj Pc No. split; [done|]. unfold sim_poll. rewrite Hj. destruct (s_delay d) as [|[|n] l] eqn:Ed; simpl.
    3:{ split; [done|]. by left. }
    all: (split; [intros q Q1 Q2; rewrite decide_False by done; destruct (dst_index c q) eqn:E; [|done];
                  apply dst_index_spec in E; by destruct Q1; exists z|]);
      right; (split; [done|]); (split; [by rewrite decide_True|]); intros k Hk; destruct (No k Hk) as (_ & _ & N);
      rewrite decide_False by done; by rewrite (proj2 (dst_index_spec c _ k)).
Qed.

(** ** Claims *)

Section Claims.
Context {D : Type} `{DmaeChip D} `{!DmaeChipLaws D}.
Implicit Types (h : dm_hwfn D).

(** C11: A transfer on an idle engine whose buffers are in place and whose
    completion word is clear, of fewer than 65535 pieces of 8192 dwords, with
    the source repeated or not, where not both addresses are virtual, register
    and physical addresses are not 0, source, destination and the driver's
    buffers are apart, and no VF is named: the command returns.  In a recovery it
    returns 0 and nothing at all is moved or changed.  Otherwise either it
    returns 0, every destination dword holds its source dword, no hardware error
    is notified and the engine is idle again with a clear completion word; or
    the engine did not answer in time, it returns -EBUSY and one error is
    notified.  In all cases nothing outside the destination and the driver's own
    buffers has changed, for any function's registers.  The conditions are
    needed: [dmae_stale_completion_accepted], [dmae_null_address_times_out] and
    [dmae_huge_transfer_skipped] show what happens without them. *)
Theorem dmae_transfer_exact st dt sa da n p h :
  dm_ready h -> no_vf p -> transfer_ok h st dt (src_pf p h) (dst_pf p h) sa da n (flag_set RW_REPL_SRC p) ->
  exists rc h', qed_dmae_execute_command sa da st dt n p h = Some (rc, h') /\
    (forall x, ~ scratch h x -> (forall k, 0 <= k < n -> x <> cell_of dt (dst_pf p h) da k) -> content h' x = content h x) /\
    (recov_in_prog h = true /\ rc = 0 /\ h' = h \/
     recov_in_prog h = false /\ rc = 0 /\ dm_ready h' /\ hw_errs h' = hw_errs h /\
       (forall k, 0 <= k < n ->
          content h' (cell_of dt (dst_pf p h) da k) = content h (cell_of st (src_pf p h) sa (src_idx (flag_set RW_REPL_SRC p) k))) \/
     recov_in_prog h = false /\ rc = - EBUSY /\ hw_errs h' = S (hw_errs h)).
Proof.
  intros R V T. destruct (recov_in_prog h) eqn:Hrec.
  { exists 0, h. unfold qed_dmae_execute_command. rewrite (dr_mem _ R), Hrec. split; [done|]. split; [done|]. by left. }
  destruct (execute_spec _ _ _ _ _ _ _ R Hrec V T) as (rc & h' & E & _ & Fr & Res). exists rc, h'. split; [done|]. split; [done|]. right.
  destruct Res as [Res|Res]; [by left|by right].
Qed.

Lemma host2grc_ok h sp dp sa ga n :
  0 <= n < 65535 * DMAE_MAX_RW_SIZE -> 0 <= sa -> sa + 4 * n <= 2 ^ 64 -> 0 < ga -> ga + n <= 2 ^ 32 ->
  transfer_ok h QED_DMAE_ADDRESS_HOST_VIRT QED_DMAE_ADDRESS_GRC sp dp sa ga n false.
Proof.
  intros. split; simpl; try done; try lia; [by intros [_ ?]|]. intros k Hk. split; intros [?|(j & _ & ?)]; done.
Qed.

Lemma grc2host_ok h sp dp ga da n :
  0 <= n < 65535 * DMAE_MAX_RW_SIZE -> 0 <= da -> da + 4 * n <= 2 ^ 64 -> 0 < ga -> ga + n <= 2 ^ 32 ->
  transfer_ok h QED_DMAE_ADDRESS_GRC QED_DMAE_ADDRESS_HOST_VIRT sp dp ga da n false.
Proof.
  intros. split; simpl; try done; try lia; [by intros [? _]|]. intros k Hk. split; intros [?|(j & _ & ?)]; done.
Qed.

(** Dwords written to registers of a function with [qed_dmae_host2grc] are
    read back by [qed_dmae_grc2host] from the same function when both commands
    return 0: the second buffer then holds the contents of the first. *)
Theorem dmae_roundtrip sa da ga n w r h :
  dm_ready h -> recov_in_prog h = false -> no_vf w -> no_vf r ->
  flag_set RW_REPL_SRC w = false -> flag_set RW_REPL_SRC r = false -> dst_pf w h = src_pf r h ->
  0 <= n < 65535 * DMAE_MAX_RW_SIZE -> 0 <= sa -> sa + 4 * n <= 2 ^ 64 -> 0 <= da -> da + 4 * n <= 2 ^ 64 ->
  4 <= ga -> ga / 4 + n <= 2 ^ 32 ->
  exists rc h1, qed_dmae_host2grc sa ga n w h = Some (rc, h1) /\
    (rc = 0 -> exists rc' h2, qed_dmae_grc2host ga da n r h1 = Some (rc', h2) /\
      (rc' = 0 -> forall k, 0 <= k < n -> virt h2 (da + 4 * k) = virt h (sa + 4 * k))).
Proof.
  intros R Hrec Vw Vr Fw Fr Hpf Hn S1 S2 D1 D2 G1 G2. assert (Hg : 0 < ga / 4) by (apply Z.div_str_pos; lia).
  unfold qed_dmae_host2grc, qed_dmae_grc2host.
  destruct (execute_spec QED_DMAE_ADDRESS_HOST_VIRT QED_DMAE_ADDRESS_GRC sa (ga / 4) n w h R Hrec Vw
    ltac:(rewrite Fw; by apply host2grc_ok)) as (rc & h1 & -> & SF & _ & Res). exists rc, h1. split; [done|]. intros ->.
  destruct Res as [(_ & R1 & _ & M1)|[? _]]; [|done]. rewrite Fw in M1.
  assert (E1 : src_pf r h1 = src_pf r h) by (unfold src_pf; destruct SF as (-> & _); done).
  destruct (execute_spec QED_DMAE_ADDRESS_GRC QED_DMAE_ADDRESS_HOST_VIRT (ga / 4) da n r h1 R1
    ltac:(destruct SF as (_ & _ & -> & _); done) Vr ltac:(rewrite Fr; by apply grc2host_ok)) as (rc' & h2 & -> & _ & _ & Res).
  exists rc', h2. split; [done|]. intros -> k Hk. destruct Res as [(_ & _ & _ & M2)|[? _]]; [|done]. rewrite Fr in M2.
  specialize (M2 k Hk). specialize (M1 k Hk). simpl in M1, M2. by rewrite E1, <- Hpf, M1 in M2.
Qed.
End Claims.

(** ** A concrete transfer *)

Definition demo_info : qed_dmae_info :=
  mk_qed_dmae_info true 3 0x1000 0x5000 0x20000 0x60000 0x2000 0x7000 (mk_dmae_cmd 0 0 0 0 0 0 0 0 0 0).
(** Virtual memory holds at each address a value computed from it; the engine
    takes the given numbers of polls. *)
Definition demo_fn (delays : list nat) : dm_hwfn sim :=
  mk_dm_hwfn 3 0 false demo_info (fun a => a + 7) 0 (mk_sim (fun _ => 0) (fun _ => 0) None delays).
(** The destination function is given in the parameters. *)
Definition to_pf (pf : Z) : option dmae_params :=
  Some (mk_dmae_params false false false false false false true 0 0 0 0 pf).
Definition from_pf (pf : Z) : option dmae_params :=
  Some (mk_dmae_params false false false false false true false 0 0 0 pf 0).

Lemma demo_fn_ready delays : dm_ready (demo_fn delays).
Proof.
  split; simpl; try done; unfold DMAE_MAX_RW_SIZE; intros; lia.
Qed.

Lemma dmae_transfer_exact_witness :
  exists rc h', qed_dmae_execute_command 0x9000 0x100 QED_DMAE_ADDRESS_HOST_VIRT QED_DMAE_ADDRESS_GRC 3 (to_pf 5) (demo_fn [2%nat]) = Some (rc, h') /\
    rc = 0 /\ dm_at (dev h') (PReg 5 0x102) = 0x9008 + 7 /\ dm_at (dev h') (PReg 3 0x102) = 0.
Proof.
  destruct (dmae_transfer_exact QED_DMAE_ADDRESS_HOST_VIRT QED_DMAE_ADDRESS_GRC 0x9000 0x100 3 (to_pf 5) (demo_fn [2%nat])
    (demo_fn_ready _) ltac:(split; reflexivity)
    ltac:(apply host2grc_ok; vm_compute; (split; congruence) || congruence || reflexivity)) as (rc & h' & E & Fr & Res).
  assert (Erc : (fst <$> Some (rc, h')) = Some 0) by (rewrite <- E; vm_compute; reflexivity). injection Erc as ->.
  exists 0, h'. split; [exact E|]. split; [reflexivity|].
  destruct Res as [(Hr & _)|[(_ & _ & _ & _ & M)|(_ & ? & _)]]; [discriminate Hr| |discriminate].
  split; [exact (M 2 ltac:(lia))|]. apply (Fr (CAt (PReg 3 0x102))).
  - intros [?|(j & _ & ?)]; discriminate.
  - intros k _ [= ? ?].
Defined.

Lemma dmae_roundtrip_witness :
  exists rc h1, qed_dmae_host2grc 0x9000 0x400 3 (to_pf 5) (demo_fn [2%nat; 0%nat]) = Some (rc, h1) /\
    (rc = 0 -> exists rc' h2, qed_dmae_grc2host 0x400 0xA000 3 (from_pf 5) h1 = Some (rc', h2) /\
      (rc' = 0 -> forall k, 0 <= k < 3 -> virt h2 (0xA000 + 4 * k) = 0x9000 + 4 * k + 7)).
Proof.
  apply (dmae_roundtrip 0x9000 0xA000 0x400 3 (to_pf 5) (from_pf 5) (demo_fn [2%nat; 0%nat])); try reflexivity;
    try (split; reflexivity); try (split; [discriminate|reflexivity]); try discriminate. apply demo_fn_ready.
Defined.

(** ** Limits *)

(** The completion word is not cleared when a wait times out.  The engine ends
    the first command after the time-out; the next command then returns 0 at
    once, while the engine is still working on it and the register it writes
    holds its old value. *)
Theorem dmae_stale_completion_accepted :
  ('(rc1, h1) ← qed_dmae_host2grc 0x9000 0x400 1 (to_pf 5) (demo_fn [Z.to_nat 20000; 5%nat]);
   let late := match s_job (dev h1) with Some c => sim_end c (dev h1) | None => dev h1 end in
   '(rc2, h2) ← qed_dmae_host2grc 0x9100 0x800 1 (to_pf 5) (set_dev late h1);
   Some (rc1, rc2, dm_at (dev h2) (PReg 5 0x200), match dm_job (dev h2) with Some _ => true | None => false end))
  = Some (- EBUSY, 0, 0, true).
Proof. vm_compute. reflexivity. Qed.

(** The refusal of a zero address by [qed_dmae_post_command] is not looked at:
    the caller waits for a command that was never posted and gets -EBUSY. *)
Theorem dmae_null_address_times_out :
  fst (qed_dmae_post_command (demo_fn [0%nat])) = - EINVAL /\
  (fst <$> qed_dmae_host2grc 0x9000 0 1 (to_pf 5) (demo_fn [0%nat])) = Some (- EBUSY).
Proof. split; vm_compute; reflexivity. Qed.

(** The number of pieces is kept in 16 bits: a transfer of [2^29] dwords returns
    0 without posting a command. *)
Theorem dmae_huge_transfer_skipped :
  ('(rc, h) ← qed_dmae_host2host 0x100000 0x200000000 (2 ^ 29) None (demo_fn []);
   Some (rc, match dm_job (dev h) with Some _ => true | None => false end, dm_row (dev h) (14 * 3))) = Some (0, false, 0).
Proof. vm_compute. reflexivity. Qed.

(** ** Allocation of the buffers *)

(** Allocation gives the three blocks, or gives back what it took; freeing
    after it restores the live blocks. *)
Theorem dmae_info_alloc_balanced pf m :
  exists rc i m1, qed_dmae_info_alloc pf no_blocks m = Some (rc, i, m1) /\
    (rc = 0 /\ b_mem_ready i = true /\ channel i = pf /\ p_dmae_cmd i <> 0 /\
       p_completion_word i <> 0 /\ p_intermediate_buffer i <> 0 \/
     rc = - ENOMEM /\ b_mem_ready i = false /\ live m1 = live m) /\
    exists i2 m2, qed_dmae_info_free i m1 = Some (i2, m2) /\ live m2 = live m /\ b_mem_ready i2 = false.
Proof.
  unfold qed_dmae_info_alloc.
  destruct (dma_alloc_coherent 4 m) as [[v1 p1] m1] eqn:E1. destruct (alloc_block _ _ _ _ _ E1) as [[-> L1]|(V1 & N1 & L1)].
  { simpl. eexists _, _, _. split; [reflexivity|]. split; [by right|]. eexists _, _. split; [reflexivity|]. done. }
  rewrite (proj2 (Z.eqb_neq v1 0)) by done.
  destruct (dma_alloc_coherent sizeof_dmae_cmd m1) as [[v2 p2] m2] eqn:E2.
  destruct (alloc_block _ _ _ _ _ E2) as [[-> L2]|(V2 & N2 & L2)].
  { rewrite Z.eqb_refl. unfold qed_dmae_info_free. simpl. rewrite free_live by (try done; rewrite L2, L1; by simplify_map_eq).
    simpl. eexists _, _, _. split; [reflexivity|].
    assert (L : delete v1 (live m2) = live m) by (rewrite L2, L1; by apply delete_insert_id).
    split; [by right|]. eexists _, _. split; [reflexivity|]. done. }
  rewrite (proj2 (Z.eqb_neq v2 0)) by done.
  destruct (dma_alloc_coherent (4 * DMAE_MAX_RW_SIZE) m2) as [[v3 p3] m3] eqn:E3.
  assert (H12 : v1 <> v2) by (intros ->; rewrite L1, lookup_insert_eq in N2; done).
  assert (N2' : live m !! v2 = None) by (rewrite L1 in N2; by simplify_map_eq).
  destruct (alloc_block _ _ _ _ _ E3) as [[-> L3]|(V3 & N3 & L3)].
  { rewrite Z.eqb_refl. unfold qed_dmae_info_free. simpl. rewrite free_live by (try done; rewrite L3, L2, L1; by simplify_map_eq).
    simpl. rewrite free_live by (try done; simpl; rewrite L3, L2, L1; by simplify_map_eq). simpl.
    eexists _, _, _. split; [reflexivity|].
    assert (L : delete v2 (delete v1 (live m3)) = live m).
    { rewrite L3, L2, L1. apply map_eq. intros a. destruct (decide (a = v1)); destruct (decide (a = v2)); by simplify_map_eq. }
    split; [by right|]. eexists _, _. split; [reflexivity|]. done. }
  rewrite (proj2 (Z.eqb_neq v3 0)) by done.
  assert (H13 : v1 <> v3) by (intros ->; rewrite L2, L1 in N3; by simplify_map_eq).
  assert (H23 : v2 <> v3) by (intros ->; rewrite L2 in N3; by simplify_map_eq).
  assert (N3' : live m !! v3 = None) by (rewrite L2, L1 in N3; by simplify_map_eq).
  eexists _, _, _. split; [reflexivity|]. split; [by left|]. unfold qed_dmae_info_free. simpl.
  rewrite free_live by (try done; rewrite L3, L2, L1; by simplify_map_eq). simpl.
  rewrite free_live by (try done; simpl; rewrite L3, L2, L1; by simplify_map_eq). simpl.
  rewrite free_live by (try done; simpl; rewrite L3, L2, L1; by simplify_map_eq). simpl.
  eexists _, _. split; [reflexivity|]. simpl. split; [|done]. rewrite L3, L2, L1. apply map_eq. intros a.
  destruct (decide (a = v1)); destruct (decide (a = v2)); destruct (decide (a = v3)); by simplify_map_eq.
Qed.
