(* ===== verification/Mcp.v ===== *)
(** * The mailbox to the management firmware (qed_mcp.c)

    Threads send commands to the management firmware (MFW) through one mailbox in
    the memory of its processor (MCP), and poll it for the response.  The
    sequence number in the header of a response tells which command it answers.
    [mcp_info] holds the list of commands sent and not collected; the spinlock
    [cmd_lock] protects it and the sending.

    Registers are reached through [RegBus] (Llh.v) and [RegCopy]; McpPtt.v shows
    that the PTT layer has the properties stated by [RegCopyLaws].  A
    list element is [kzalloc] memory found by its address, and the parameters of a
    call lie in the stack frame of the calling thread: a pointer to them is the
    thread's number.  An access to freed memory, to a frame that is gone, or
    outside a buffer is a fault ([None]).  A chip is an ASIC; delays and prints
    are left out. *)

From S2P Require Import Prelude Llh.

(** ** The register interface: block copies and direct reads *)

Class RegCopy (B : Type) := {
  bus_memcpy_to : nat -> Z -> list Z -> B -> B;           (* qed_memcpy_to, dwords *)
  bus_memcpy_from : nat -> Z -> Z -> B -> list Z * B;     (* qed_memcpy_from, bytes asked for *)
  bus_bar_rd : Z -> B -> Z                                (* REG_RD *)
}.

(** The dwords of the registers from [a] on, as the function itself sees them. *)
Definition bus_regs {B} `{RegBus B} (b : B) (a : Z) (n : nat) : list Z :=
  (fun k => bus_reg b (bus_own b) (a + 4 * Z.of_nat k)) <$> seq 0 n.

Class RegCopyLaws (B : Type) `{RegBus B} `{RegCopy B} : Prop := {
  law_memcpy_to b t a ws : bus_ok b -> t ∈ bus_held b -> ws <> [] ->
    (forall k w, ws !! k = Some w -> bus_plain (a + 4 * Z.of_nat k) /\ bus_fits (a + 4 * Z.of_nat k) w) ->
    bus_step b (bus_memcpy_to t a ws b) /\
    bus_regs (bus_memcpy_to t a ws b) a (length ws) = ws /\
    (forall f x, (forall k, (k < length ws)%nat -> x <> a + 4 * Z.of_nat k) ->
       bus_reg (bus_memcpy_to t a ws b) f x = bus_reg b f x);
  law_memcpy_from b t a n : bus_ok b -> t ∈ bus_held b -> 0 < n ->
    (forall k, (k < Z.to_nat ((n + 3) / 4))%nat -> bus_plain (a + 4 * Z.of_nat k)) ->
    let '(ws, b') := bus_memcpy_from t a n b in
    bus_step b b' /\ ws = bus_regs b a (Z.to_nat (n / 4)) /\ forall f x, bus_reg b' f x = bus_reg b f x
}.

(** ** Bytes and dwords, little-endian *)

Definition dword_bytes (w : Z) : list Z := [u8 w; u8 (Z.shiftr w 8); u8 (Z.shiftr w 16); u8 (Z.shiftr w 24)].
Definition bytes_dword (b0 b1 b2 b3 : Z) : Z := b0 + 2 ^ 8 * b1 + 2 ^ 16 * b2 + 2 ^ 24 * b3.
Definition to_bytes (ws : list Z) : list Z := ws ≫= dword_bytes.
Fixpoint to_dwords (bs : list Z) : list Z :=
  match bs with
  | b0 :: b1 :: b2 :: b3 :: bs => bytes_dword b0 b1 b2 b3 :: to_dwords bs
  | _ => []
  end.

(** ** Data *)

Definition GRCBASE_MCP : Z := 0xe00000.
Definition MCP_REG_SCRATCH : Z := 0xe20000.
Definition MCP_REG_CACHE_PAGING_ENABLE : Z := 0xe06304.
Definition MISC_REG_SHARED_MEM_ADDR : Z := 0x8c20.
Definition MISCS_REG_GENERIC_HW_0 : Z := 0x96c4.
Definition MISCS_REG_GENERIC_POR_0 : Z := 0x96d4.
Definition MCP_REG_CPU_MODE : Z := 0xe05000.
Definition MCP_REG_CPU_STATE : Z := 0xe05004.
Definition MCP_REG_CPU_PROGRAM_COUNTER : Z := 0xe0501c.
Definition PXP_PF_ME_OPAQUE_ADDR : Z := 0x1f8.

Definition PUBLIC_DRV_MB : Z := 0.
Definition PUBLIC_MFW_MB : Z := 1.
Definition PUBLIC_PORT : Z := 4.

Definition FW_MSG_SEQ_NUMBER_MASK : Z := 0xffff.
Definition FW_MSG_CODE_MASK : Z := 0xffff0000.
Definition DRV_MSG_SEQ_NUMBER_MASK : Z := 0xffff.
Definition DRV_PULSE_SEQ_MASK : Z := 0x7fff.
Definition sizeof_union_data : Z := 32.

(** Offsets in [struct public_drv_mb]. *)
Definition drv_mb_header : Z := 0.
Definition drv_mb_param : Z := 4.
Definition fw_mb_header : Z := 8.
Definition fw_mb_param : Z := 12.
Definition drv_pulse_mb : Z := 16.
Definition union_data : Z := 24.

Definition QED_DRV_MB_MAX_RETRIES : Z := 500 * 1000.
Definition QED_MCP_SHMEM_RDY_MAX_RETRIES : nat := 20.
Definition QED_MB_FLAG_CAN_SLEEP : Z := 1.
Definition QED_MB_FLAG_AVOID_BLOCK : Z := 2.

(** [struct qed_mcp_mb_params]; a data pointer is a buffer of bytes. *)
Record qed_mcp_mb_params := mk_mb_params {
  cmd : Z; param : Z;
  p_data_src : option (list Z); p_data_dst : option (list Z);
  data_src_size : Z; data_dst_size : Z;
  mcp_resp : Z; mcp_param : Z; flags : Z
}.
#[export] Instance eta_mb_params : Settable qed_mcp_mb_params := fun r =>
  mk_mb_params (cmd r) (param r) (p_data_src r) (p_data_dst r) (data_src_size r) (data_dst_size r)
    (mcp_resp r) (mcp_param r) (flags r).

Definition QED_MB_FLAGS_IS_SET (p : qed_mcp_mb_params) (flag : Z) : bool := negb (Z.land (flags p) flag =? 0).

(** [struct qed_mcp_cmd_elem]; [p_mb_params] is the thread whose frame holds the
    parameters. *)
Record qed_mcp_cmd_elem := mk_cmd_elem { p_mb_params : nat; expected_seq_num : Z; b_is_completed : bool }.
#[export] Instance eta_cmd_elem : Settable qed_mcp_cmd_elem := fun r =>
  mk_cmd_elem (p_mb_params r) (expected_seq_num r) (b_is_completed r).

(** The part of [struct qed_mcp_info] the mailbox uses. *)
Record qed_mcp_info := mk_mcp_info {
  b_mfw_running : bool; b_block_cmd : bool; b_halted : bool; recovery_mode : bool;
  public_base : Z; drv_mb_addr : Z; mfw_mb_addr : Z; port_addr : Z; port_size : Z;
  drv_mb_seq : Z; drv_pulse_seq : Z; mfw_mb_length : Z; mcp_hist : Z;
  cmd_list : list Z; mfw_mb_cur : option (list Z); mfw_mb_shadow : option (list Z)
}.
#[export] Instance eta_mcp_info : Settable qed_mcp_info := fun r =>
  mk_mcp_info (b_mfw_running r) (b_block_cmd r) (b_halted r) (recovery_mode r)
    (public_base r) (drv_mb_addr r) (mfw_mb_addr r) (port_addr r) (port_size r)
    (drv_mb_seq r) (drv_pulse_seq r) (mfw_mb_length r) (mcp_hist r)
    (cmd_list r) (mfw_mb_cur r) (mfw_mb_shadow r).

(** [kzalloc] of the info. *)
Definition zero_mcp_info : qed_mcp_info :=
  mk_mcp_info false false false false 0 0 0 0 0 0 0 0 0 [] None None.

(** The function: its info, the list elements in memory, the frames of the
    threads in a call, the registers, and what of the device is read.
    [mfw_errs] counts the errors notified. *)
Record mcp_hwfn (B : Type) := mk_mcp_hwfn {
  mcp_info : option qed_mcp_info;
  elems : gmap Z qed_mcp_cmd_elem;
  frames : gmap nat qed_mcp_mb_params;
  bus : B;
  rel_pf_id : Z; abs_pf_id : Z; is_bb : bool; num_ports : Z;
  recov_in_prog : bool; mfw_errs : nat
}.
Arguments mk_mcp_hwfn {B}.
Arguments mcp_info {B}.
Arguments elems {B}.
Arguments frames {B}.
Arguments bus {B}.
Arguments rel_pf_id {B}.
Arguments abs_pf_id {B}.
Arguments is_bb {B}.
Arguments num_ports {B}.
Arguments recov_in_prog {B}.
Arguments mfw_errs {B}.
#[export] Instance eta_mcp_hwfn B : Settable (mcp_hwfn B) := fun r =>
  mk_mcp_hwfn (mcp_info r) (elems r) (frames r) (bus r) (rel_pf_id r) (abs_pf_id r) (is_bb r) (num_ports r)
    (recov_in_prog r) (mfw_errs r).

(** ** Operations *)

Section Ops.
Context {B : Type} `{RegBus B} `{RegCopy B}.
Implicit Types (h : mcp_hwfn B).

Definition set_info (i : qed_mcp_info) h : mcp_hwfn B := h <| mcp_info := Some i |>.
Definition set_bus (b : B) h : mcp_hwfn B := h <| bus := b |>.

(** [qed_rd] and [qed_wr] through the entry [t]. *)
Definition rd (t : nat) (a : Z) h : Z * mcp_hwfn B := let '(v, b) := bus_rd t a (bus h) in (v, set_bus b h).
Definition wr (t : nat) (a v : Z) h : mcp_hwfn B := set_bus (bus_wr t a v (bus h)) h.

(** [DRV_MB_RD] and [DRV_MB_WR]; a null [mcp_info] is a fault. *)
Definition DRV_MB_RD (t : nat) (field : Z) h : option (Z * mcp_hwfn B) :=
  i ← mcp_info h; Some (rd t (u32 (drv_mb_addr i + field)) h).
Definition DRV_MB_WR (t : nat) (field v : Z) h : option (mcp_hwfn B) :=
  i ← mcp_info h; Some (wr t (u32 (drv_mb_addr i + field)) v h).

Definition SECTION_OFFSET (offsize : Z) : Z := Z.shiftl (Z.land offsize 0xffff) 2.
Definition QED_SECTION_SIZE (offsize : Z) : Z := Z.shiftl (Z.shiftr (Z.land offsize 0xffff0000) 16) 2.
Definition SECTION_ADDR (offsize idx : Z) : Z :=
  u32 (MCP_REG_SCRATCH + SECTION_OFFSET offsize + QED_SECTION_SIZE offsize * idx).
Definition SECTION_OFFSIZE_ADDR (pub_base section : Z) : Z := u32 (pub_base + 4 + 4 * section).
Definition MCP_PF_ID h : Z :=
  if is_bb h then Z.lor (rel_pf_id h) (Z.shiftl (Z.land (abs_pf_id h) 1) 3) else rel_pf_id h.
(** A remainder by zero is a fault. *)
Definition MFW_PORT h : option Z := if num_ports h =? 0 then None else Some (abs_pf_id h mod num_ports h).

Definition qed_mcp_is_init h : bool :=
  match mcp_info h with Some i => b_mfw_running i | None => false end.

Definition qed_mcp_cmd_port_init (t : nat) h : option (mcp_hwfn B) :=
  i ← mcp_info h;
  let '(offsize, h) := rd t (SECTION_OFFSIZE_ADDR (public_base i) PUBLIC_PORT) h in
  port ← MFW_PORT h;
  Some (set_info (i <| port_addr := SECTION_ADDR offsize port |> <| port_size := QED_SECTION_SIZE offsize |>) h).

Definition MFW_DRV_MSG_MAX_DWORDS (msgs : Z) : Z := Z.shiftr (msgs - 1) 2 + 1.

(** The dwords of the MFW's mailbox, each converted from big-endian. *)
Definition swab32 (w : Z) : Z :=
  match dword_bytes w with [b0; b1; b2; b3] => bytes_dword b3 b2 b1 b0 | _ => 0 end.
Fixpoint read_mb_loop (n : nat) (t : nat) (a : Z) h : list Z * mcp_hwfn B :=
  match n with
  | O => ([], h)
  | S n => let '(v, h) := rd t (u32 (a + 4)) h in
           let '(vs, h) := read_mb_loop n t (a + 4) h in (swab32 v :: vs, h)
  end.
Definition qed_mcp_read_mb (t : nat) h : option (mcp_hwfn B) :=
  i ← mcp_info h;
  let length_ := Z.to_nat (MFW_DRV_MSG_MAX_DWORDS (mfw_mb_length i)) in
  if public_base i =? 0 then Some h else
  let '(vs, h) := read_mb_loop length_ t (mfw_mb_addr i) h in
  if (length_ =? 0)%nat then Some h else
  cur ← mfw_mb_cur i;
  if (length cur <? length_)%nat then None else
  Some (set_info (i <| mfw_mb_cur := Some (vs ++ drop length_ cur) |>) h).

(** *** The list of commands *)

(** [kzalloc] returned [alloc]. *)
Definition qed_mcp_cmd_add_elem (alloc : option Z) (owner : nat) (seq_num : Z) h : option (option Z * mcp_hwfn B) :=
  match alloc with
  | None => Some (None, h)
  | Some a =>
      i ← mcp_info h;
      Some (Some a, set_info (i <| cmd_list := a :: cmd_list i |>)
        (h <| elems := <[a := mk_cmd_elem owner seq_num false]> (elems h) |>))
  end.

(** Deleting an element that is not in the list or not in memory is a fault. *)
Definition qed_mcp_cmd_del_elem (a : Z) h : option (mcp_hwfn B) :=
  i ← mcp_info h;
  _ ← elems h !! a;
  if bool_decide (a ∈ cmd_list i) then
    Some (set_info (i <| cmd_list := filter (fun x => x <> a) (cmd_list i) |>) (h <| elems := delete a (elems h) |>))
  else None.

Fixpoint get_elem (m : gmap Z qed_mcp_cmd_elem) (l : list Z) (seq_num : Z) : option (option Z) :=
  match l with
  | [] => Some None
  | a :: l => e ← m !! a; if expected_seq_num e =? seq_num then Some (Some a) else get_elem m l seq_num
  end.
Definition qed_mcp_cmd_get_elem (seq_num : Z) h : option (option Z) :=
  i ← mcp_info h; get_elem (elems h) (cmd_list i) seq_num.

Definition qed_mcp_has_pending_cmd h : option bool :=
  i ← mcp_info h;
  match cmd_list i with
  | a :: _ => e ← elems h !! a; Some (negb (b_is_completed e))
  | [] => Some false
  end.

(** *** Where the mailbox is *)

(** The wait for the number of messages to be set: the number of tries left, and
    the number of messages. *)
Fixpoint ready_loop (cnt : nat) (t : nat) (len a : Z) h : nat * Z * mcp_hwfn B :=
  if negb (len =? 0) then (cnt, len, h) else
  match cnt with
  | O => (O, len, h)
  | S O => (O, len, h)
  | S cnt => let '(v, h) := rd t a h in ready_loop cnt t (u16 v) a h
  end.

Definition qed_load_mcp_offsets (t : nat) h : option (Z * mcp_hwfn B) :=
  i ← mcp_info h;
  let '(val, h) := rd t MCP_REG_CACHE_PAGING_ENABLE h in
  let '(hw0, h) := rd t MISCS_REG_GENERIC_HW_0 h in
  let recovery := negb (Z.land hw0 0x80000000 =? 0) in
  let running := negb (Z.land val 1 =? 0) || recovery in
  let i := i <| recovery_mode := recovery |> <| b_mfw_running := running |> in
  if negb running then Some (- EINVAL, set_info i h) else
  let '(base, h) := rd t MISC_REG_SHARED_MEM_ADDR h in
  if base =? 0 then Some (- EINVAL, set_info (i <| public_base := base |>) h) else
  let i := i <| public_base := Z.lor base GRCBASE_MCP |> in
  let '(mfw_mb_offsize, h) := rd t (SECTION_OFFSIZE_ADDR (public_base i) PUBLIC_MFW_MB) h in
  let i := i <| mfw_mb_addr := SECTION_ADDR mfw_mb_offsize (MCP_PF_ID h) |> in
  let '(len, h) := rd t (mfw_mb_addr i) h in
  let '(cnt, len, h) :=
    if recovery_mode i then (QED_MCP_SHMEM_RDY_MAX_RETRIES, u16 len, h)
    else ready_loop QED_MCP_SHMEM_RDY_MAX_RETRIES t (u16 len) (mfw_mb_addr i) h in
  let i := i <| mfw_mb_length := len |> in
  if (cnt =? 0)%nat then Some (- EBUSY, set_info i h) else
  let '(drv_mb_offsize, h) := rd t (SECTION_OFFSIZE_ADDR (public_base i) PUBLIC_DRV_MB) h in
  let h := set_info (i <| drv_mb_addr := SECTION_ADDR drv_mb_offsize (MCP_PF_ID h) |>) h in
  '(hdr, h) ← DRV_MB_RD t drv_mb_header h;
  '(pulse, h) ← DRV_MB_RD t drv_pulse_mb h;
  let '(hist, h) := rd t MISCS_REG_GENERIC_POR_0 h in
  i ← mcp_info h;
  Some (0, set_info (i <| drv_mb_seq := u16 (Z.land hdr DRV_MSG_SEQ_NUMBER_MASK) |>
                       <| drv_pulse_seq := u16 (Z.land pulse DRV_PULSE_SEQ_MASK) |> <| mcp_hist := hist |>) h).

(** The code of [qed_load_mcp_offsets] is not looked at. *)
Definition qed_mcp_reread_offsets (t : nat) h : option (mcp_hwfn B) :=
  let '(generic_por_0, h) := rd t MISCS_REG_GENERIC_POR_0 h in
  i ← mcp_info h;
  if mcp_hist i =? generic_por_0 then Some h else
  '(_, h) ← qed_load_mcp_offsets t h;
  qed_mcp_cmd_port_init t h.

(** *** Set-up and teardown *)

(** [kfree] of every element of the list. *)
Fixpoint free_elems (l : list Z) h : option (mcp_hwfn B) :=
  match l with
  | [] => Some h
  | a :: l => h ← qed_mcp_cmd_del_elem a h; free_elems l h
  end.
Definition qed_mcp_free h : option (Z * mcp_hwfn B) :=
  h ← match mcp_info h with
      | Some i => free_elems (cmd_list i) (set_info (i <| mfw_mb_cur := None |> <| mfw_mb_shadow := None |>) h)
      | None => Some h
      end;
  Some (0, h <| mcp_info := None |>).

(** The outcomes of the three [kzalloc]s. *)
Definition qed_mcp_cmd_init (info_ok cur_ok shadow_ok : bool) (t : nat) h : option (Z * mcp_hwfn B) :=
  if negb info_ok then Some (- ENOMEM, h <| mcp_info := None |>) else
  '(rc, h) ← qed_load_mcp_offsets t (set_info zero_mcp_info h);
  if negb (rc =? 0) then Some (0, h) else
  i ← mcp_info h;
  let zeros := replicate (Z.to_nat (MFW_DRV_MSG_MAX_DWORDS (mfw_mb_length i))) 0 in
  let h := set_info (i <| mfw_mb_cur := (if cur_ok then Some zeros else None) |>
                       <| mfw_mb_shadow := (if shadow_ok then Some zeros else None) |>) h in
  if negb cur_ok || negb shadow_ok then '(_, h) ← qed_mcp_free h; Some (- ENOMEM, h) else Some (0, h).

(** *** Sending and collecting *)

(** Overwrite the beginning of a buffer. *)
Definition buf_write (bs buf : list Z) : option (list Z) :=
  if (length buf <? length bs)%nat then None else Some (bs ++ drop (length bs) buf).

(** The union data goes to the buffer of the parameters, if there is one. *)
Definition get_union_data (t : nat) (i : qed_mcp_info) (p : qed_mcp_mb_params) h : option (option (list Z) * mcp_hwfn B) :=
  match p_data_dst p with
  | Some buf =>
      if data_dst_size p =? 0 then Some (Some buf, h) else
      let '(ws, b) := bus_memcpy_from t (u32 (drv_mb_addr i + union_data)) (data_dst_size p) (bus h) in
      buf ← buf_write (to_bytes ws) buf; Some (Some buf, set_bus b h)
  | None => Some (None, h)
  end.

Definition qed_mcp_update_pending_cmd (t : nat) h : option (Z * mcp_hwfn B) :=
  '(resp, h) ← DRV_MB_RD t fw_mb_header h;
  let seq_num := u16 (Z.land resp FW_MSG_SEQ_NUMBER_MASK) in
  i ← mcp_info h;
  if negb (seq_num =? drv_mb_seq i) then Some (- EAGAIN, h) else
  found ← qed_mcp_cmd_get_elem seq_num h;
  match found with
  | None => Some (- EINVAL, h)
  | Some a =>
      e ← elems h !! a;
      p ← frames h !! p_mb_params e;
      '(prm, h) ← DRV_MB_RD t fw_mb_param h;
      '(dst, h) ← get_union_data t i p h;
      let p := p <| mcp_resp := resp |> <| mcp_param := prm |> <| p_data_dst := dst |> in
      Some (0, h <| frames := <[p_mb_params e := p]> (frames h) |>
                 <| elems := <[a := e <| b_is_completed := true |>]> (elems h) |>)
  end.

(** The union: zero, with the data of the command at its beginning. *)
Definition union_of (p : qed_mcp_mb_params) : option (list Z) :=
  match p_data_src p with
  | Some buf =>
      if data_src_size p =? 0 then Some (replicate (Z.to_nat sizeof_union_data) 0) else
      if (Z.of_nat (length buf) <? data_src_size p) || (sizeof_union_data <? data_src_size p) then None else
      Some (take (Z.to_nat (data_src_size p)) buf ++ replicate (Z.to_nat (sizeof_union_data - data_src_size p)) 0)
  | None => Some (replicate (Z.to_nat sizeof_union_data) 0)
  end.

Definition __qed_mcp_cmd_and_union (t tid : nat) (seq_num : Z) h : option (mcp_hwfn B) :=
  i ← mcp_info h;
  p ← frames h !! tid;
  u ← union_of p;
  let h := set_bus (bus_memcpy_to t (u32 (drv_mb_addr i + union_data)) (to_dwords u) (bus h)) h in
  h ← DRV_MB_WR t drv_mb_param (param p) h;
  DRV_MB_WR t drv_mb_header (Z.lor (cmd p) seq_num) h.

Definition qed_mcp_cmd_set_blocking (block_cmd : bool) h : option (mcp_hwfn B) :=
  i ← mcp_info h; Some (set_info (i <| b_block_cmd := block_cmd |>) h).
Definition qed_mcp_cmd_set_halt (halt : bool) h : option (mcp_hwfn B) :=
  i ← mcp_info h; Some (set_info (i <| b_halted := halt |>) h).

Definition qed_mcp_print_cpu_info (t : nat) h : mcp_hwfn B :=
  let '(_, h) := rd t MCP_REG_CPU_MODE h in
  let '(_, h) := rd t MCP_REG_CPU_STATE h in
  let '(_, h) := rd t MCP_REG_CPU_PROGRAM_COUNTER h in
  let '(_, h) := rd t MCP_REG_CPU_PROGRAM_COUNTER h in
  let '(_, h) := rd t MCP_REG_CPU_PROGRAM_COUNTER h in h.

Definition mfw_err_notify h : mcp_hwfn B := if recov_in_prog h then h else h <| mfw_errs := S (mfw_errs h) |>.

(** *** A call, in the parts between which other threads run *)

(** Where a call is: waiting for the mailbox, for the response to the command of
    an element, about to give up on it, having given up, returned. *)
Inductive mcp_pc :=
  | Occupied
  | Responding (elem : Z)
  | Expired (elem : Z)
  | Unresponsive
  | Returned (rc : Z).

(** One iteration of the first loop; with the mailbox free the lock is kept and
    the command is sent.  Leaving the loop with [cnt] at its limit would return
    with the lock held, which is a fault. *)
Definition send (t tid : nat) (alloc : option Z) h : option (mcp_pc * mcp_hwfn B) :=
  h ← qed_mcp_reread_offsets t h;
  i ← mcp_info h;
  let seq_num := u16 (drv_mb_seq i + 1) in
  '(elem, h) ← qed_mcp_cmd_add_elem alloc tid seq_num (set_info (i <| drv_mb_seq := seq_num |>) h);
  match elem with
  | None => Some (Returned (- ENOMEM), h)
  | Some a => h ← __qed_mcp_cmd_and_union t tid seq_num h; Some (Responding a, h)
  end.

Definition occupied_iter (t tid : nat) (max_retries cnt : Z) (alloc : option Z) h : option (mcp_pc * Z * mcp_hwfn B) :=
  pending ← qed_mcp_has_pending_cmd h;
  '(rc, h) ← (if pending : bool then qed_mcp_update_pending_cmd t h else Some (0, h));
  if rc =? 0 then
    if max_retries <=? cnt then None else '(pc, h) ← send t tid alloc h; Some (pc, cnt, h)
  else if negb (rc =? - EAGAIN) then Some (Returned rc, cnt, h)
  else let cnt := u32 (cnt + 1) in Some (if cnt <? max_retries then Occupied else Returned (- EAGAIN), cnt, h).

(** One iteration of the second loop, and the collection of the response. *)
Definition responding_iter (t tid : nat) (a max_retries cnt : Z) h : option (mcp_pc * Z * mcp_hwfn B) :=
  e ← elems h !! a;
  '(rc, h) ← (if b_is_completed e then Some (0, h) else qed_mcp_update_pending_cmd t h);
  if rc =? 0 then
    if max_retries <=? cnt then None else
    h ← qed_mcp_cmd_del_elem a h;
    p ← frames h !! tid;
    Some (Returned 0, cnt, h <| frames := <[tid := p <| mcp_resp := Z.land (mcp_resp p) FW_MSG_CODE_MASK |>]> (frames h) |>)
  else if negb (rc =? - EAGAIN) then Some (Returned rc, cnt, h)
  else let cnt := u32 (cnt + 1) in Some (if cnt <? max_retries then Responding a else Expired a, cnt, h).

(** The time-out: the element is deleted under the lock, then the mailbox is
    blocked and the error notified. *)
Definition expired_part (t : nat) (a : Z) h : option (mcp_hwfn B) :=
  qed_mcp_cmd_del_elem a (qed_mcp_print_cpu_info t h).
Definition unresponsive_part (tid : nat) h : option (mcp_hwfn B) :=
  p ← frames h !! tid;
  h ← (if QED_MB_FLAGS_IS_SET p QED_MB_FLAG_AVOID_BLOCK then Some h else qed_mcp_cmd_set_blocking true h);
  Some (mfw_err_notify h).

(** A thread in [_qed_mcp_cmd_and_union]: its PTT entry, the number of tries, the
    count of those made, where it is. *)
Record mcp_thread := mk_thread { t_ptt : nat; t_max : Z; t_cnt : Z; t_pc : mcp_pc }.

Definition thread_step (tid : nat) (alloc : option Z) (th : mcp_thread) h : option (mcp_thread * mcp_hwfn B) :=
  let '(mk_thread t mx cnt pc) := th in
  match pc with
  | Occupied => '(pc, cnt, h) ← occupied_iter t tid mx cnt alloc h; Some (mk_thread t mx cnt pc, h)
  | Responding a => '(pc, cnt, h) ← responding_iter t tid a mx cnt h; Some (mk_thread t mx cnt pc, h)
  | Expired a => h ← expired_part t a h; Some (mk_thread t mx cnt Unresponsive, h)
  | Unresponsive => h ← unresponsive_part tid h; Some (mk_thread t mx cnt (Returned (- EAGAIN)), h)
  | Returned rc => Some (th, h)
  end.

(** [qed_mcp_cmd_and_union] up to the first loop of [_qed_mcp_cmd_and_union], for
    parameters in the frame of the thread. *)
Definition DIV_ROUND_UP (n d : Z) : Z := (n + d - 1) / d.
Definition call_enter (t : nat) (p : qed_mcp_mb_params) h : mcp_thread :=
  let fail rc := mk_thread t 0 0 (Returned rc) in
  match mcp_info h with
  | None => fail (- EBUSY)
  | Some i =>
      if negb (qed_mcp_is_init h) then fail (- EBUSY) else
      if b_halted i then fail (- EAGAIN) else
      if b_block_cmd i then fail (- EBUSY) else
      if (sizeof_union_data <? data_src_size p) || (sizeof_union_data <? data_dst_size p) then fail (- EINVAL) else
      let sleep := QED_MB_FLAGS_IS_SET p QED_MB_FLAG_CAN_SLEEP in
      let max_retries := if sleep then DIV_ROUND_UP QED_DRV_MB_MAX_RETRIES 1000 else QED_DRV_MB_MAX_RETRIES in
      if bus_bar_rd PXP_PF_ME_OPAQUE_ADDR (bus h) =? 0xffffffff then fail (- EAGAIN) else
      mk_thread t (if sleep then max_retries + (100 - 1) else max_retries) 0 Occupied
  end.
End Ops.
