(* ===== verification/McpRun.v ===== *)
(** * The mailbox: threads, and that no run of them goes wrong

    The steps that threads in a mailbox call interleave, and their invariant.
    What the firmware does to the registers is arbitrary here. *)

From S2P Require Import Prelude Llh Mcp.

(** What a copy from the device returns, whatever the registers hold. *)
Class RegCopySize (B : Type) `{RegCopy B} : Prop :=
  memcpy_from_size t a n b : length (fst (bus_memcpy_from t a n b)) = Z.to_nat (n / 4).

(** ** The system *)

Record mcp_sys (B : Type) := mk_mcp_sys { y_h : mcp_hwfn B; y_threads : gmap nat mcp_thread }.
Arguments mk_mcp_sys {B}.
Arguments y_h {B}.
Arguments y_threads {B}.

(** A thread calls [qed_mcp_cmd_and_union] with parameters in its frame, runs one
    part of the call, or is back in the caller and drops the frame; the device
    changes; another thread halts or resumes the MFW. *)
Inductive mcp_op (B : Type) :=
  | OCall (tid t : nat) (p : qed_mcp_mb_params)
  | OStep (tid : nat) (alloc : option Z)
  | OLeave (tid : nat)
  | ODevice (b : B)
  | OHalt (halt : bool).
Arguments OCall {B}.
Arguments OStep {B}.
Arguments OLeave {B}.
Arguments ODevice {B}.
Arguments OHalt {B}.

(** The buffers are as long as the sizes say. *)
Definition params_ok (p : qed_mcp_mb_params) : Prop :=
  0 <= data_src_size p /\ 0 <= data_dst_size p /\
  (forall buf, p_data_src p = Some buf -> data_src_size p <= Z.of_nat (length buf)) /\
  (forall buf, p_data_dst p = Some buf -> data_dst_size p <= Z.of_nat (length buf)).

Definition returned (th : mcp_thread) : bool := match t_pc th with Returned _ => true | _ => false end.

Section Run.
Context {B : Type} `{RegBus B} `{RegCopy B} `{!RegCopySize B}.
Implicit Types (h : mcp_hwfn B) (s : mcp_sys B) (i : qed_mcp_info).

Definition mcp_allowed (o : mcp_op B) s : Prop :=
  match o with
  | OCall tid t p => y_threads s !! tid = None /\ params_ok p
  | OStep tid alloc =>
      (exists th, y_threads s !! tid = Some th /\ returned th = false) /\
      (forall a, alloc = Some a -> elems (y_h s) !! a = None)
  | OLeave tid => exists th, y_threads s !! tid = Some th /\ returned th = true
  | ODevice _ | OHalt _ => True
  end.

Definition mcp_exec (o : mcp_op B) s : option (mcp_sys B) :=
  let '(mk_mcp_sys h T) := s in
  match o with
  | OCall tid t p => Some (mk_mcp_sys (h <| frames := <[tid := p]> (frames h) |>) (<[tid := call_enter t p h]> T))
  | OStep tid alloc =>
      th ← T !! tid; '(th, h) ← thread_step tid alloc th h; Some (mk_mcp_sys h (<[tid := th]> T))
  | OLeave tid => Some (mk_mcp_sys (h <| frames := delete tid (frames h) |>) (delete tid T))
  | ODevice b => Some (mk_mcp_sys (set_bus b h) T)
  | OHalt halt => h ← qed_mcp_cmd_set_halt halt h; Some (mk_mcp_sys h T)
  end.

Fixpoint mcp_exec_all (os : list (mcp_op B)) s : option (mcp_sys B) :=
  match os with [] => Some s | o :: os => s ← mcp_exec o s; mcp_exec_all os s end.

Fixpoint mcp_allowed_all (os : list (mcp_op B)) s : Prop :=
  match os with
  | [] => True
  | o :: os => mcp_allowed o s /\ match mcp_exec o s with Some s' => mcp_allowed_all os s' | None => True end
  end.

(** ** The invariant *)

Definition owns (th : mcp_thread) (a : Z) : Prop := t_pc th = Responding a \/ t_pc th = Expired a.

(** Tries are left while the call loops. *)
Definition count_ok (th : mcp_thread) : Prop :=
  match t_pc th with Occupied | Responding _ => 0 <= t_cnt th < t_max th /\ t_max th < 2 ^ 32 | _ => True end.

(** Only the first element of the list can be pending, and it is if the command
    with the current sequence number was not answered. *)
Definition pending_ok (m : gmap Z qed_mcp_cmd_elem) i : Prop := forall k a e,
  cmd_list i !! k = Some a -> m !! a = Some e -> b_is_completed e = false ->
  k = 0%nat /\ expected_seq_num e = drv_mb_seq i.

(** The codes a call returns: a size is refused only if it is too large. *)
Definition code_ok (p : qed_mcp_mb_params) (rc : Z) : Prop :=
  rc = 0 \/ rc = - EAGAIN \/ rc = - EBUSY \/ rc = - ENOMEM \/
  rc = - EINVAL /\ (sizeof_union_data < data_src_size p \/ sizeof_union_data < data_dst_size p).

Record mcp_inv_at (i : qed_mcp_info) (m : gmap Z qed_mcp_cmd_elem) (F : gmap nat qed_mcp_mb_params) (T : gmap nat mcp_thread) : Prop := {
  mi_nodup : NoDup (cmd_list i);
  mi_list : forall a, a ∈ cmd_list i <-> is_Some (m !! a);
  mi_pending : pending_ok m i;
  mi_elem : forall a e, m !! a = Some e -> exists th, T !! p_mb_params e = Some th /\ owns th a;
  mi_owner : forall tid th a, T !! tid = Some th -> owns th a -> exists e, m !! a = Some e /\ p_mb_params e = tid;
  mi_frames : forall tid, is_Some (F !! tid) <-> is_Some (T !! tid);
  mi_params : forall tid p, F !! tid = Some p -> params_ok p;
  mi_sizes : forall tid th p, T !! tid = Some th -> F !! tid = Some p -> returned th = false ->
    data_src_size p <= sizeof_union_data /\ data_dst_size p <= sizeof_union_data;
  mi_count : forall tid th, T !! tid = Some th -> count_ok th;
  mi_code : forall tid th p rc, T !! tid = Some th -> F !! tid = Some p -> t_pc th = Returned rc -> code_ok p rc
}.

Definition mcp_inv s : Prop :=
  num_ports (y_h s) <> 0 /\
  exists i, mcp_info (y_h s) = Some i /\ mcp_inv_at i (elems (y_h s)) (frames (y_h s)) (y_threads s).

(** ** What the accesses leave alone *)

Lemma rd_inv t a h v h' : rd t a h = (v, h') -> exists b, h' = set_bus b h.
Proof. unfold rd. destruct (bus_rd t a (bus h)) as [v0 b]. intros [= _ <-]. by exists b. Qed.

(** [h'] is [h] but for the registers and the info; the info keeps the list. *)
Definition only_info h h' : Prop :=
  exists i i' b, mcp_info h = Some i /\ h' = set_info i' (set_bus b h) /\ cmd_list i' = cmd_list i /\ b_halted i' = b_halted i.

End Run.

(** Compute through the state, not through the data in it. *)
Ltac mcp_cbn := cbn [set_bus set_info setter mcp_info elems frames bus num_ports mbind option_bind].

(** Step over the register reads of a definition. *)
Ltac step_rd :=
  repeat match goal with
  | |- context [rd ?t ?a ?h] =>
      let v := fresh "v" in let h' := fresh "h" in let b := fresh "b" in let E := fresh "E" in
      destruct (rd t a h) as [v h'] eqn:E; apply rd_inv in E as [b ->]; mcp_cbn
  end.

Section Accesses.
Context {B : Type} `{RegBus B} `{RegCopy B} `{!RegCopySize B}.
Implicit Types (h : mcp_hwfn B) (s : mcp_sys B) (i : qed_mcp_info).

Lemma ready_loop_bus cnt t len a h c l h' : ready_loop cnt t len a h = (c, l, h') -> exists b, h' = set_bus b h.
Proof.
  revert len h. induction cnt as [|cnt IH]; intros len h; simpl.
  - destruct (negb (len =? 0)); intros [= _ _ <-]; by exists (bus h); destruct h.
  - destruct (negb (len =? 0)); [intros [= _ _ <-]; by exists (bus h); destruct h|].
    destruct cnt; [intros [= _ _ <-]; by exists (bus h); destruct h|].
    destruct (rd t a h) as [v h1] eqn:E. apply rd_inv in E as [b ->]. intros E. apply IH in E as [b' ->]. by exists b'.
Qed.

Lemma load_offsets_total t h i : mcp_info h = Some i ->
  exists rc h', qed_load_mcp_offsets t h = Some (rc, h') /\ only_info h h'.
Proof.
  intros Hi. unfold qed_load_mcp_offsets. rewrite Hi. mcp_cbn. step_rd.
  assert (fin : forall (rc : Z) i' b, cmd_list i' = cmd_list i -> b_halted i' = b_halted i ->
    exists rc' h', Some (rc, set_info i' (set_bus b h)) = Some (rc', h') /\ only_info h h').
  { intros rc i' b' E1 E2. eexists _, _. split; [reflexivity|]. by exists i, i', b'. }
  destruct (negb _); [by apply fin|]. step_rd. destruct (v1 =? 0); [by apply fin|]. step_rd.
  match goal with |- context [if ?c then ?x else ready_loop ?n ?t ?l ?a ?h0] =>
    destruct (if c then x else ready_loop n t l a h0) as [[cnt len] h2] eqn:E end.
  assert (Eb : exists b, h2 = set_bus b h).
  { destruct (recovery_mode _); [injection E as _ _ <-; by eexists|].
    apply ready_loop_bus in E as [b' ->]. by exists b'. }
  destruct Eb as [b' ->]. destruct (cnt =? 0)%nat; [by apply fin|]. step_rd.
  unfold DRV_MB_RD. mcp_cbn. step_rd.
  by apply (fin _ _ b7).
Qed.

Lemma port_init_total t h i : mcp_info h = Some i -> num_ports h <> 0 ->
  exists h', qed_mcp_cmd_port_init t h = Some h' /\ only_info h h'.
Proof.
  intros Hi Hn. unfold qed_mcp_cmd_port_init. rewrite Hi. mcp_cbn. step_rd.
  unfold MFW_PORT. cbn [set_bus setter num_ports]. rewrite (proj2 (Z.eqb_neq _ _) Hn). mcp_cbn.
  eexists. split; [reflexivity|]. eexists i, _, _. split; [done|]. split; [reflexivity|]. done.
Qed.

Lemma only_info_trans h h1 h2 : only_info h h1 -> only_info h1 h2 -> only_info h h2.
Proof.
  intros (i & i1 & b1 & Hi & -> & E1 & F1) (i' & i2 & b2 & Hi' & -> & E2 & F2). injection Hi' as <-.
  exists i, i2, b2. split; [done|]. split; [done|]. split; congruence.
Qed.

Lemma reread_total t h i : mcp_info h = Some i -> num_ports h <> 0 ->
  exists h', qed_mcp_reread_offsets t h = Some h' /\ only_info h h'.
Proof.
  intros Hi Hn. unfold qed_mcp_reread_offsets. step_rd. rewrite Hi. mcp_cbn.
  destruct (mcp_hist i =? v).
  { eexists. split; [reflexivity|]. exists i, i, b. split; [done|]. split; [|done]. destruct h; simpl in Hi; by subst. }
  destruct (load_offsets_total t (set_bus b h) i Hi) as (rc & h1 & -> & O1). mcp_cbn.
  destruct O1 as (i0 & i1 & b1 & Hi0 & -> & E1 & F1). simpl in Hi0. rewrite Hi in Hi0. injection Hi0 as <-.
  destruct (port_init_total t (set_info i1 (set_bus b1 (set_bus b h))) i1 eq_refl Hn) as (h2 & -> & O2).
  eexists. split; [done|]. eapply only_info_trans; [|exact O2]. by exists i, i1, b1.
Qed.

(** ** The list *)

Lemma get_elem_head (m : gmap Z qed_mcp_cmd_elem) a l e : m !! a = Some e ->
  get_elem m (a :: l) (expected_seq_num e) = Some (Some a).
Proof. intros Ha. simpl. rewrite Ha. cbn. by rewrite Z.eqb_refl. Qed.

Lemma buf_write_length bs buf : (length bs <= length buf)%nat ->
  exists buf', buf_write bs buf = Some buf' /\ length buf' = length buf.
Proof.
  intros Hl. unfold buf_write. rewrite (proj2 (Nat.ltb_ge _ _) Hl). eexists. split; [done|].
  rewrite length_app, length_drop. lia.
Qed.

Lemma to_bytes_length ws : length (to_bytes ws) = (4 * length ws)%nat.
Proof. induction ws as [|w ws IH]; [done|]. unfold to_bytes in *. rewrite bind_cons, length_app, IH. simpl. lia. Qed.

(** The parameters after a response is copied into them. *)
Record answered (p p' : qed_mcp_mb_params) : Prop := {
  an_cmd : cmd p' = cmd p; an_param : param p' = param p; an_src : p_data_src p' = p_data_src p;
  an_ssize : data_src_size p' = data_src_size p; an_dsize : data_dst_size p' = data_dst_size p;
  an_flags : flags p' = flags p;
  an_dst : length <$> p_data_dst p' = length <$> p_data_dst p
}.

Lemma answered_ok p p' : params_ok p -> answered p p' -> params_ok p'.
Proof.
  intros (S & D & Hs & Hd) [E1 E2 E3 E4 E5 E6 E7]. unfold params_ok. rewrite E3, E4, E5. split_and!; [done..|].
  intros buf Eb. rewrite Eb in E7. destruct (p_data_dst p) as [buf0|] eqn:E0; [|done]. injection E7 as E7.
  rewrite E7. by apply Hd.
Qed.

Lemma dst_fits p buf : params_ok p -> p_data_dst p = Some buf -> (4 * Z.to_nat (data_dst_size p / 4) <= length buf)%nat.
Proof.
  intros (_ & D0 & _ & Hdst) Ed. specialize (Hdst _ Ed).
  pose proof (Z.mul_div_le (data_dst_size p) 4 ltac:(lia)). pose proof (Z.div_pos (data_dst_size p) 4 D0 ltac:(lia)). lia.
Qed.

Lemma get_union_total t i p h : params_ok p ->
  exists dst b, get_union_data t i p h = Some (dst, set_bus b h) /\ length <$> dst = length <$> p_data_dst p.
Proof.
  intros Pok. unfold get_union_data. destruct (p_data_dst p) as [buf|] eqn:Ed; [|exists None, (bus h); by destruct h].
  destruct (data_dst_size p =? 0); [exists (Some buf), (bus h); by destruct h|].
  destruct (bus_memcpy_from _ _ _ _) as [ws b] eqn:Em.
  pose proof (f_equal (fun x => length (fst x)) Em) as Hws. cbn beta in Hws. rewrite memcpy_from_size in Hws. simpl in Hws.
  destruct (buf_write_length (to_bytes ws) buf) as (buf' & -> & Hb); [rewrite to_bytes_length, <- Hws; by eapply dst_fits|].
  exists (Some buf'), b. split; [done|]. simpl. by rewrite Hb.
Qed.

(** Looking at the mailbox for the answer to a pending first element: not there,
    or taken and written to its owner's parameters. *)
Lemma update_pending_total t h i a l e p :
  mcp_info h = Some i -> cmd_list i = a :: l -> elems h !! a = Some e -> expected_seq_num e = drv_mb_seq i ->
  frames h !! p_mb_params e = Some p -> params_ok p ->
  exists rc h' b, qed_mcp_update_pending_cmd t h = Some (rc, h') /\
    (rc = - EAGAIN /\ h' = set_bus b h \/
     rc = 0 /\ exists p', answered p p' /\
       h' = set_bus b (h <| frames := <[p_mb_params e := p']> (frames h) |>
                         <| elems := <[a := e <| b_is_completed := true |>]> (elems h) |>)).
Proof.
  intros Hi Hl He Hs Hp Pok. unfold qed_mcp_update_pending_cmd, DRV_MB_RD. rewrite Hi. mcp_cbn. step_rd.
  rewrite Hi. mcp_cbn. destruct (negb _) eqn:Eq; [eexists _, _, _; split; [reflexivity|]; by left|].
  zbool. unfold qed_mcp_cmd_get_elem. mcp_cbn. rewrite Hi. mcp_cbn.
  rewrite Hl, Eq, <- Hs, (get_elem_head _ _ _ _ He). mcp_cbn. rewrite He. mcp_cbn. rewrite Hp.
  mcp_cbn. step_rd.
  match goal with |- context [get_union_data t i p ?x] => destruct (get_union_total t i p x Pok) as (dst & b1 & -> & Hd) end. mcp_cbn.
  eexists _, _, b1. split; [reflexivity|]. right. split; [done|]. eexists. split; [|reflexivity]. by constructor.
Qed.
End Accesses.

Section Inv.
Context {B : Type} `{RegBus B} `{RegCopy B}.
Implicit Types (i : qed_mcp_info) (m : gmap Z qed_mcp_cmd_elem) (F : gmap nat qed_mcp_mb_params) (T : gmap nat mcp_thread).

Definition none_pending m i : Prop := forall a e, a ∈ cmd_list i -> m !! a = Some e -> b_is_completed e = true.

Lemma owns_not_returned th a : owns th a -> returned th = false.
Proof. unfold returned. by intros [-> | ->]. Qed.
Lemma owns_same th a a' : owns th a -> owns th a' -> a = a'.
Proof. intros [E | E] [E' | E']; congruence. Qed.

(** The frame of the owner of an element. *)
Lemma elem_frame i m F T a e : mcp_inv_at i m F T -> m !! a = Some e ->
  exists th p, T !! p_mb_params e = Some th /\ owns th a /\ F !! p_mb_params e = Some p /\ params_ok p.
Proof.
  intros I Ha. destruct (mi_elem _ _ _ _ I _ _ Ha) as (th & HT & Ho).
  destruct (proj2 (mi_frames _ _ _ _ I (p_mb_params e)) ltac:(eauto)) as [p Hp].
  exists th, p. split_and!; try done. by eapply mi_params.
Qed.

(** The first element is answered. *)
Lemma inv_answer i m F T a l e p p' :
  mcp_inv_at i m F T -> cmd_list i = a :: l -> m !! a = Some e -> F !! p_mb_params e = Some p -> answered p p' ->
  mcp_inv_at i (<[a := e <| b_is_completed := true |>]> m) (<[p_mb_params e := p']> F) T /\
  none_pending (<[a := e <| b_is_completed := true |>]> m) i.
Proof.
  intros I Hl Ha Hp An. destruct (elem_frame _ _ _ _ _ _ I Ha) as (th0 & p0 & HT & Ho & Hp0 & Pok).
  rewrite Hp in Hp0. injection Hp0 as <-.
  assert (Np : none_pending (<[a := e <| b_is_completed := true |>]> m) i).
  { intros a' e' Hin He'. apply lookup_insert_Some in He' as [[<- <-]|[Hne He']]; [done|].
    destruct (b_is_completed e') eqn:Ec; [done|]. apply list_elem_of_lookup in Hin as [k Hk].
    destruct (mi_pending _ _ _ _ I k a' e' Hk He' Ec) as [-> _]. rewrite Hl in Hk. by injection Hk as ->. }
  split; [|done]. destruct I as [ND L P E O Fr Pa Sz Co Rc]. constructor; try done.
  - intros a'. rewrite L. destruct (decide (a' = a)) as [->|Hne]; [by rewrite Ha, lookup_insert_eq|by rewrite lookup_insert_ne].
  - intros k a' e' Hk He' Ec. apply list_elem_of_lookup_2 in Hk. by rewrite (Np _ _ Hk He') in Ec.
  - intros a' e' He'. apply lookup_insert_Some in He' as [[<- <-]|[Hne He']]; [by apply (E a e)|by apply E].
  - intros tid th a' Ht Hw. destruct (O _ _ _ Ht Hw) as (e' & He' & <-). destruct (decide (a' = a)) as [->|Hne].
    + rewrite Ha in He'. injection He' as <-. eexists. by rewrite lookup_insert_eq.
    + exists e'. by rewrite lookup_insert_ne.
  - intros tid. rewrite <- Fr. destruct (decide (tid = p_mb_params e)) as [->|Hne]; [by rewrite Hp, lookup_insert_eq|by rewrite lookup_insert_ne].
  - intros tid q Hq. apply lookup_insert_Some in Hq as [[<- <-]|[_ Hq]]; [by eapply answered_ok|by eapply Pa].
  - intros tid th q Ht Hq Hr. apply lookup_insert_Some in Hq as [[<- <-]|[_ Hq]]; [|by eapply Sz].
    destruct An as [_ _ _ -> -> _ _]. by eapply Sz.
  - intros tid th q rc Ht Hq Hr. apply lookup_insert_Some in Hq as [[<- <-]|[_ Hq]]; [|by eapply Rc].
    rewrite HT in Ht. injection Ht as <-. destruct Ho as [Ho|Ho]; congruence.
Qed.

(** Other fields of the info change, or the sequence number while no element is
    pending. *)
Lemma inv_info i i' m F T :
  mcp_inv_at i m F T -> cmd_list i' = cmd_list i -> none_pending m i \/ drv_mb_seq i' = drv_mb_seq i -> mcp_inv_at i' m F T.
Proof.
  intros [ND L P E O Fr Pa Sz Co Rc] El Hs. constructor; try done; rewrite ?El; try done.
  intros k a e Hk He Hc. rewrite El in Hk. destruct Hs as [Np | ->]; [|by eapply P].
  apply list_elem_of_lookup_2 in Hk. by rewrite (Np _ _ Hk He) in Hc.
Qed.

(** A thread moves on without taking or giving up an element. *)
Lemma inv_thread i m F T tid th th' p :
  mcp_inv_at i m F T -> T !! tid = Some th -> F !! tid = Some p -> returned th = false ->
  (forall a, owns th' a <-> owns th a) -> count_ok th' -> (forall rc, t_pc th' = Returned rc -> code_ok p rc) ->
  mcp_inv_at i m F (<[tid := th']> T).
Proof.
  intros [ND L P E O Fr Pa Sz Co Rc] Ht Hp Hr Ho Hc Hcd. constructor; try done.
  - intros a e He. destruct (E _ _ He) as (th0 & Hth0 & Ho0). destruct (decide (p_mb_params e = tid)) as [Heq|Hne].
    + exists th'. rewrite Heq, lookup_insert_eq. split; [done|]. apply Ho. rewrite Heq, Ht in Hth0. by injection Hth0 as <-.
    + exists th0. by rewrite lookup_insert_ne.
  - intros tid' th0 a Ht0 Ho0. apply lookup_insert_Some in Ht0 as [[<- <-]|[_ Ht0]]; [|by eapply O]. eapply O; [done|]. by apply Ho.
  - intros tid'. rewrite Fr. destruct (decide (tid' = tid)) as [->|]; [by rewrite Ht, lookup_insert_eq|by rewrite lookup_insert_ne].
  - intros tid' th0 q Ht0 Hq Hr0. apply lookup_insert_Some in Ht0 as [[<- <-]|[_ Ht0]]; eapply Sz; eauto.
  - intros tid' th0 Ht0. apply lookup_insert_Some in Ht0 as [[<- <-]|[_ Ht0]]; [done|by eapply Co].
  - intros tid' th0 q rc Ht0 Hq Hr0. apply lookup_insert_Some in Ht0 as [[<- <-]|[_ Ht0]]; [|by eapply Rc].
    rewrite Hp in Hq. injection Hq as <-. by apply Hcd.
Qed.

(** A command is added while none is pending. *)
Lemma inv_add i m F T tid th th' p a :
  mcp_inv_at i m F T -> none_pending m i -> m !! a = None -> T !! tid = Some th -> F !! tid = Some p -> returned th = false ->
  (forall a', ~ owns th a') -> t_pc th' = Responding a -> count_ok th' ->
  mcp_inv_at (i <| cmd_list := a :: cmd_list i |>) (<[a := mk_cmd_elem tid (drv_mb_seq i) false]> m) F (<[tid := th']> T).
Proof.
  intros [ND L P E O Fr Pa Sz Co Rc] Np Ha Ht Hp Hr Hno Hpc Hc. constructor; simpl.
  - constructor; [|done]. rewrite L, Ha. by intros [? ?].
  - intros a'. rewrite elem_of_cons, L. destruct (decide (a' = a)) as [->|Hne]; [rewrite lookup_insert_eq|rewrite lookup_insert_ne by done]; naive_solver.
  - intros k a' e' Hk He' Hc'. apply lookup_insert_Some in He' as [[<- <-]|[Hne He']].
    + destruct k; [done|]. simpl in Hk. apply list_elem_of_lookup_2 in Hk. apply L in Hk. rewrite Ha in Hk. by destruct Hk.
    + destruct k; simpl in Hk; [by injection Hk|]. apply list_elem_of_lookup_2 in Hk. by rewrite (Np _ _ Hk He') in Hc'.
  - intros a' e' He'. apply lookup_insert_Some in He' as [[<- <-]|[Hne He']].
    + exists th'. simpl. rewrite lookup_insert_eq. split; [done|]. by left.
    + destruct (E _ _ He') as (th0 & Hth0 & Ho0). exists th0. rewrite lookup_insert_ne; [done|]. intros Heq.
      rewrite <- Heq, Ht in Hth0. injection Hth0 as <-. by eapply Hno.
  - intros tid' th0 a' Ht0 Ho0. apply lookup_insert_Some in Ht0 as [[<- <-]|[Hne Ht0]].
    + assert (a' = a) as -> by (destruct Ho0; congruence). eexists. by rewrite lookup_insert_eq.
    + destruct (O _ _ _ Ht0 Ho0) as (e' & He' & <-). exists e'. rewrite lookup_insert_ne; [done|]. by intros <-; rewrite Ha in He'.
  - intros tid'. rewrite Fr. destruct (decide (tid' = tid)) as [->|]; [by rewrite Ht, lookup_insert_eq|by rewrite lookup_insert_ne].
  - done.
  - intros tid' th0 q Ht0 Hq Hr0. apply lookup_insert_Some in Ht0 as [[<- <-]|[_ Ht0]]; eapply Sz; eauto.
  - intros tid' th0 Ht0. apply lookup_insert_Some in Ht0 as [[<- <-]|[_ Ht0]]; [done|by eapply Co].
  - intros tid' th0 q rc Ht0 Hq Hr0. apply lookup_insert_Some in Ht0 as [[<- <-]|[_ Ht0]]; [congruence|by eapply Rc].
Qed.

(** The owner of an element deletes it. *)
Lemma inv_del i m F T tid th th' p a :
  mcp_inv_at i m F T -> T !! tid = Some th -> F !! tid = Some p -> owns th a ->
  (forall a', ~ owns th' a') -> count_ok th' -> (forall rc, t_pc th' = Returned rc -> code_ok p rc) ->
  mcp_inv_at (i <| cmd_list := filter (fun x => x <> a) (cmd_list i) |>) (delete a m) F (<[tid := th']> T).
Proof.
  intros [ND L P E O Fr Pa Sz Co Rc] Ht Hp Ho Hno Hc Hcd. destruct (O _ _ _ Ht Ho) as (e & He & Hown). constructor; simpl.
  - by apply list.NoDup_filter.
  - intros a'. rewrite list_elem_of_filter, L. destruct (decide (a' = a)) as [->|Hne].
    + rewrite lookup_delete_eq. split; [naive_solver|by intros [? ?]].
    + rewrite lookup_delete_ne by done. naive_solver.
  - intros k a' e' Hk He' Hc'. apply lookup_delete_Some in He' as [Hne He'].
    assert (Hin : a' ∈ cmd_list i) by (apply list_elem_of_lookup_2, list_elem_of_filter in Hk; apply Hk).
    apply list_elem_of_lookup in Hin as [k' Hk']. destruct (P _ _ _ Hk' He' Hc') as [-> Hs]. split; [|done].
    destruct (cmd_list i) as [|a0 l]; [done|]. injection Hk' as ->. rewrite filter_cons_True in Hk by done.
    destruct k; [done|]. simpl in Hk. apply list_elem_of_lookup_2, list_elem_of_filter in Hk as [_ Hk].
    by inversion_clear ND.
  - intros a' e' He'. apply lookup_delete_Some in He' as [Hne He']. destruct (E _ _ He') as (th0 & Hth0 & Ho0).
    exists th0. rewrite lookup_insert_ne; [done|]. intros Heq. rewrite <- Heq, Ht in Hth0. injection Hth0 as <-.
    apply Hne. by eapply owns_same.
  - intros tid' th0 a' Ht0 Ho0. apply lookup_insert_Some in Ht0 as [[<- <-]|[Hnt Ht0]]; [by destruct (Hno a')|].
    destruct (O _ _ _ Ht0 Ho0) as (e' & He' & <-). exists e'. rewrite lookup_delete_ne; [done|]. intros <-.
    rewrite He in He'. injection He' as <-. done.
  - intros tid'. rewrite Fr. destruct (decide (tid' = tid)) as [->|]; [by rewrite Ht, lookup_insert_eq|by rewrite lookup_insert_ne].
  - done.
  - intros tid' th0 q Ht0 Hq Hr0. apply lookup_insert_Some in Ht0 as [[<- <-]|[_ Ht0]]; [|by eapply Sz].
    eapply Sz; eauto. by eapply owns_not_returned.
  - intros tid' th0 Ht0. apply lookup_insert_Some in Ht0 as [[<- <-]|[_ Ht0]]; [done|by eapply Co].
  - intros tid' th0 q rc Ht0 Hq Hr0. apply lookup_insert_Some in Ht0 as [[<- <-]|[_ Ht0]]; [|by eapply Rc].
    rewrite Hp in Hq. injection Hq as <-. by apply Hcd.
Qed.
End Inv.
