(* ===== verification/McpSteps.v ===== *)
(** * The mailbox: every step of every thread is safe

    Each part of a call, run in a state with the invariant of McpRun.v, does not
    fault and keeps the invariant; and brings the call nearer to its end. *)

From S2P Require Import Prelude Llh Mcp McpRun.

Section Steps.
Context {B : Type} `{RegBus B} `{RegCopy B} `{!RegCopySize B}.
Implicit Types (h : mcp_hwfn B) (s : mcp_sys B) (i : qed_mcp_info) (T : gmap nat mcp_thread).

(** The state of a function with the invariant. *)
Definition fn_ok i T h : Prop :=
  num_ports h <> 0 /\ mcp_info h = Some i /\ mcp_inv_at i (elems h) (frames h) T.

Lemma fn_ok_inv i T h : fn_ok i T h -> mcp_inv (mk_mcp_sys h T).
Proof. intros (Hn & Hi & I). split; [done|]. by exists i. Qed.

Lemma fn_ok_bus i T h b : fn_ok i T h -> fn_ok i T (set_bus b h).
Proof. done. Qed.

(** The look at the mailbox of the two loops. *)
Lemma poll_pending t i T h a l e :
  fn_ok i T h -> cmd_list i = a :: l -> elems h !! a = Some e -> b_is_completed e = false ->
  exists rc h', qed_mcp_update_pending_cmd t h = Some (rc, h') /\
    (rc = - EAGAIN /\ (exists b, h' = set_bus b h) \/
     rc = 0 /\ fn_ok i T h' /\ none_pending (elems h') i /\ forall x, elems h' !! x = None <-> elems h !! x = None).
Proof.
  intros (Hn & Hi & I) Hl He Hc. destruct (mi_pending _ _ _ _ I 0%nat a e) as [_ Hs]; [by rewrite Hl|done..|].
  destruct (elem_frame _ _ _ _ _ _ I He) as (th & p & HT & Ho & Hp & Pok).
  destruct (update_pending_total t h i a l e p) as (rc & h' & b & E & R); [done..|].
  exists rc, h'. split; [done|]. destruct R as [[-> ->]|(-> & p' & An & ->)]; [left; split; [done|]; by exists b|]. right. split; [done|].
  destruct (inv_answer _ _ _ _ _ _ _ _ _ I Hl He Hp An) as [I' Np]. split; [done|]. split; [done|].
  intros x. cbn [set_bus setter elems]. destruct (decide (x = a)) as [->|Hne]; [by rewrite lookup_insert_eq, He|by rewrite lookup_insert_ne].
Qed.

Lemma occupied_poll t i T h : fn_ok i T h ->
  exists (pending : bool) rc h', qed_mcp_has_pending_cmd h = Some pending /\
    (if pending then qed_mcp_update_pending_cmd t h else Some (0, h)) = Some (rc, h') /\
    (rc = - EAGAIN /\ (exists b, h' = set_bus b h) \/
     rc = 0 /\ fn_ok i T h' /\ none_pending (elems h') i /\ forall x, elems h' !! x = None <-> elems h !! x = None).
Proof.
  intros O. assert (O' := O). destruct O' as (Hn & Hi & I). unfold qed_mcp_has_pending_cmd. rewrite Hi. cbn [mbind option_bind].
  destruct (cmd_list i) as [|a l] eqn:Hl.
  { exists false, 0, h. split; [done|]. split; [done|]. right. split; [done|]. split; [done|]. split; [|done]. intros a e Ha. rewrite Hl in Ha. by apply elem_of_nil in Ha. }
  destruct (proj1 (mi_list _ _ _ _ I a)) as [e He]; [rewrite Hl; by left|]. rewrite He. cbn [mbind option_bind].
  destruct (b_is_completed e) eqn:Hc; cbn [negb].
  - exists false, 0, h. split; [done|]. split; [done|]. right. split; [done|]. split; [done|]. split; [|done].
    intros x ex Hx Hex. destruct (b_is_completed ex) eqn:Hcx; [done|]. apply list_elem_of_lookup in Hx as [k Hk].
    destruct (mi_pending _ _ _ _ I k x ex Hk Hex Hcx) as [-> _]. rewrite Hl in Hk. injection Hk as ->. congruence.
  - destruct (poll_pending t i T h a l e O Hl He Hc) as (rc & h' & -> & R). by exists true, rc, h'.
Qed.

Lemma union_of_total p : params_ok p -> data_src_size p <= sizeof_union_data -> exists u, union_of p = Some u.
Proof.
  intros (S0 & _ & Hs & _) Hle. unfold union_of. destruct (p_data_src p) as [buf|]; [|by eexists].
  specialize (Hs _ eq_refl). destruct (data_src_size p =? 0); [by eexists|].
  rewrite (proj2 (Z.ltb_ge _ _) Hs), (proj2 (Z.ltb_ge _ _) Hle). by eexists.
Qed.

(** Sending, with the mailbox free. *)
Lemma send_safe t tid alloc i T h th p mx cnt :
  fn_ok i T h -> none_pending (elems h) i -> T !! tid = Some th -> frames h !! tid = Some p ->
  t_pc th = Occupied -> (forall a, alloc = Some a -> elems h !! a = None) -> 0 <= cnt < mx -> mx < 2 ^ 32 ->
  exists pc h' i', send t tid alloc h = Some (pc, h') /\ fn_ok i' (<[tid := mk_thread t mx cnt pc]> T) h'.
Proof.
  intros (Hn & Hi & I) Np HT Hp Hpc Ha Hcnt Hmx. unfold send.
  destruct (reread_total t h i Hi Hn) as (h1 & -> & (i0 & i1 & b1 & Hi0 & -> & El & Eh)). rewrite Hi in Hi0. injection Hi0 as <-. mcp_cbn.
  set (seq_num := u16 (drv_mb_seq i1 + 1)).
  assert (I1 : mcp_inv_at (i1 <| drv_mb_seq := seq_num |>) (elems h) (frames h) T) by (eapply inv_info; [done|done|by left]).
  assert (Hr : returned th = false) by (unfold returned; by rewrite Hpc).
  assert (Hno : forall a, ~ owns th a) by (intros a [E|E]; congruence).
  destruct alloc as [a|]; cbn [qed_mcp_cmd_add_elem]; mcp_cbn.
  - unfold __qed_mcp_cmd_and_union. mcp_cbn. rewrite Hp. mcp_cbn.
    destruct (mi_sizes _ _ _ _ I _ _ _ HT Hp Hr) as [Hs _].
    destruct (union_of_total p (mi_params _ _ _ _ I _ _ Hp) Hs) as [u ->]. unfold DRV_MB_WR. mcp_cbn.
    eexists _, _, (i1 <| drv_mb_seq := seq_num |> <| cmd_list := a :: cmd_list i1 |>). split; [reflexivity|].
    split; [done|]. split; [done|].
    refine (inv_add (i1 <| drv_mb_seq := seq_num |>) (elems h) (frames h) T tid th (mk_thread t mx cnt (Responding a)) p a
      I1 _ (Ha _ eq_refl) HT Hp Hr Hno eq_refl (conj Hcnt Hmx)). intros x e Hx. apply Np. by rewrite <- El.
  - eexists _, _, _. split; [reflexivity|]. split; [done|]. split; [reflexivity|].
    eapply inv_thread; [done..| |done|]; [intros a; split; [by intros [?|?]|intros [?|?]; congruence]|].
    intros rc [= <-]. unfold code_ok. tauto.
Qed.

Lemma loop_code p : code_ok p (- EAGAIN).
Proof. unfold code_ok. tauto. Qed.

Lemma occupied_safe tid alloc i T h t mx cnt :
  fn_ok i T h -> T !! tid = Some (mk_thread t mx cnt Occupied) -> (forall a, alloc = Some a -> elems h !! a = None) ->
  exists pc cnt' h' i', occupied_iter t tid mx cnt alloc h = Some (pc, cnt', h') /\ fn_ok i' (<[tid := mk_thread t mx cnt' pc]> T) h'.
Proof.
  intros O HT Ha. assert (I := proj2 (proj2 O)). destruct (mi_count _ _ _ _ I _ _ HT) as [Hcnt Hmx]. simpl in Hcnt, Hmx.
  unfold occupied_iter. destruct (occupied_poll t i T h O) as (pending & rc & h1 & -> & E & R). cbn [mbind option_bind]. rewrite E. cbn [mbind option_bind].
  destruct R as [(-> & b & ->)|(-> & O1 & Np & Fresh)]; simpl (_ =? _).
  - cbn [negb]. assert (Hu : u32 (cnt + 1) = cnt + 1) by (unfold u32; rewrite Z.mod_small; lia).
    eexists _, _, _, i. split; [reflexivity|]. split; [apply O|]. split; [apply O|]. rewrite Hu.
    destruct (proj2 (mi_frames _ _ _ _ I tid)) as [p Hp]; [by rewrite HT|].
    eapply inv_thread; [done|done|done|done| | |].
    + intros a. destruct (cnt + 1 <? mx); split; by intros [?|?].
    + unfold count_ok; simpl. destruct (cnt + 1 <? mx) eqn:El; zbool; [lia|done].
    + intros rc. simpl. destruct (cnt + 1 <? mx); [done|]. intros [= <-]. apply loop_code.
  - rewrite (proj2 (Z.leb_gt _ _)) by lia. destruct (proj2 (mi_frames _ _ _ _ (proj2 (proj2 O1)) tid)) as [p Hp]; [by rewrite HT|].
    destruct (send_safe t tid alloc i T h1 _ p mx cnt O1 Np HT Hp eq_refl) as (pc & h' & i' & -> & O'); [|done..|].
    { intros a Hal. apply Fresh. by apply Ha. }
    cbn [mbind option_bind]. by eexists _, _, _, _.
Qed.

Lemma del_elem_safe tid i T h th a : fn_ok i T h -> T !! tid = Some th -> owns th a ->
  qed_mcp_cmd_del_elem a h =
    Some (set_info (i <| cmd_list := filter (fun x => x <> a) (cmd_list i) |>) (h <| elems := delete a (elems h) |>)).
Proof.
  intros (Hn & Hi & I) HT Ho. unfold qed_mcp_cmd_del_elem. rewrite Hi. cbn [mbind option_bind].
  destruct (mi_owner _ _ _ _ I _ _ _ HT Ho) as (e & He & _). rewrite He. cbn [mbind option_bind].
  rewrite bool_decide_eq_true_2; [done|]. apply (mi_list _ _ _ _ I). by rewrite He.
Qed.

(** The parameters of a thread with the sequence number cleared. *)
Lemma inv_frame i m F T tid th p p' :
  mcp_inv_at i m F T -> F !! tid = Some p -> answered p p' -> T !! tid = Some th -> returned th = false ->
  mcp_inv_at i m (<[tid := p']> F) T.
Proof.
  intros [ND L P E O Fr Pa Sz Co Rc] Hp An Ht Hr. constructor; try done.
  - intros x. rewrite <- Fr. destruct (decide (x = tid)) as [->|Hne]; [by rewrite Hp, lookup_insert_eq|by rewrite lookup_insert_ne].
  - intros x q Hq. apply lookup_insert_Some in Hq as [[<- <-]|[_ Hq]]; [eapply answered_ok; [|done]|]; by eapply Pa.
  - intros x y q Hy Hq Hr'. apply lookup_insert_Some in Hq as [[<- <-]|[_ Hq]]; [|by eapply Sz].
    destruct An as [_ _ _ -> -> _ _]. by eapply Sz.
  - intros x y q rc Hy Hq Hr'. apply lookup_insert_Some in Hq as [[<- <-]|[_ Hq]]; [|by eapply Rc].
    rewrite Ht in Hy. injection Hy as <-. unfold returned in Hr. by rewrite Hr' in Hr.
Qed.

Lemma responding_safe tid i T h t mx cnt a :
  fn_ok i T h -> T !! tid = Some (mk_thread t mx cnt (Responding a)) ->
  exists pc cnt' h' i', responding_iter t tid a mx cnt h = Some (pc, cnt', h') /\ fn_ok i' (<[tid := mk_thread t mx cnt' pc]> T) h'.
Proof.
  intros O HT. assert (I := proj2 (proj2 O)). destruct (mi_count _ _ _ _ I _ _ HT) as [Hcnt Hmx]. simpl in Hcnt, Hmx.
  assert (Ho : owns (mk_thread t mx cnt (Responding a)) a) by (by left).
  destruct (mi_owner _ _ _ _ I _ _ _ HT Ho) as (e & He & Hown). unfold responding_iter. rewrite He. cbn [mbind option_bind].
  assert (R : exists rc h1, (if b_is_completed e then Some (0, h) else qed_mcp_update_pending_cmd t h) = Some (rc, h1) /\
    (rc = - EAGAIN /\ (exists b, h1 = set_bus b h) \/ rc = 0 /\ fn_ok i T h1)).
  { destruct (b_is_completed e) eqn:Hc; [exists 0, h; split; [done|]; by right|].
    assert (Hin : a ∈ cmd_list i) by (apply (mi_list _ _ _ _ I); by rewrite He). apply list_elem_of_lookup in Hin as [k Hk].
    destruct (mi_pending _ _ _ _ I k a e Hk He Hc) as [-> _]. destruct (cmd_list i) as [|a0 l] eqn:Hl; [done|]. injection Hk as ->.
    destruct (poll_pending t i T h a l e O Hl He Hc) as (rc & h' & -> & R). exists rc, h'. split; [done|]. destruct R as [R|(R & R' & _)]; [by left|by right]. }
  destruct R as (rc & h1 & -> & R). cbn [mbind option_bind]. destruct R as [(-> & b & ->)|(-> & O1)]; simpl (_ =? _).
  - cbn [negb]. assert (Hu : u32 (cnt + 1) = cnt + 1) by (unfold u32; rewrite Z.mod_small; lia).
    eexists _, _, _, i. split; [reflexivity|]. split; [apply O|]. split; [apply O|]. rewrite Hu.
    destruct (proj2 (mi_frames _ _ _ _ I tid)) as [p Hp]; [by rewrite HT|].
    eapply inv_thread; [done|done|done|done| | |].
    + intros x. destruct (cnt + 1 <? mx); unfold owns; simpl; naive_solver.
    + unfold count_ok; simpl. destruct (cnt + 1 <? mx) eqn:El; zbool; [lia|done].
    + intros rc. simpl. by destruct (cnt + 1 <? mx).
  - rewrite (proj2 (Z.leb_gt _ _)) by lia. rewrite (del_elem_safe tid i T h1 _ a O1 HT Ho). mcp_cbn.
    destruct O1 as (Hn1 & Hi1 & I1). destruct (proj2 (mi_frames _ _ _ _ I1 tid)) as [p Hp]; [by rewrite HT|]. rewrite Hp. mcp_cbn.
    eexists _, _, _, _. split; [reflexivity|]. split; [done|]. split; [reflexivity|]. mcp_cbn.
    eapply (inv_del _ _ _ _ _ (mk_thread t mx cnt (Responding a))); [eapply (inv_frame _ _ _ _ _ _ p); [done..| |done|done]|done|by rewrite lookup_insert_eq|done| |done|].
    + by constructor.
    + by intros x [?|?].
    + intros rc [= <-]. by left.
Qed.

Lemma expired_safe tid i T h t mx cnt a :
  fn_ok i T h -> T !! tid = Some (mk_thread t mx cnt (Expired a)) ->
  exists h' i', expired_part t a h = Some h' /\ fn_ok i' (<[tid := mk_thread t mx cnt Unresponsive]> T) h'.
Proof.
  intros O HT. unfold expired_part. assert (E : exists b, qed_mcp_print_cpu_info t h = set_bus b h).
  { unfold qed_mcp_print_cpu_info. step_rd. by eexists. }
  destruct E as [b ->]. apply (fn_ok_bus _ _ _ b) in O. assert (Ho : owns (mk_thread t mx cnt (Expired a)) a) by (by right).
  rewrite (del_elem_safe tid i T _ _ a O HT Ho). destruct O as (Hn & Hi & I).
  destruct (proj2 (mi_frames _ _ _ _ I tid)) as [p Hp]; [by rewrite HT|].
  eexists _, _. split; [reflexivity|]. split; [done|]. split; [reflexivity|]. mcp_cbn.
  eapply inv_del; [done|done|done|done|by intros x [?|?]|done|done].
Qed.

Lemma unresponsive_safe tid i T h t mx cnt :
  fn_ok i T h -> T !! tid = Some (mk_thread t mx cnt Unresponsive) ->
  exists h' i', unresponsive_part tid h = Some h' /\ fn_ok i' (<[tid := mk_thread t mx cnt (Returned (- EAGAIN))]> T) h'.
Proof.
  intros (Hn & Hi & I) HT. unfold unresponsive_part. destruct (proj2 (mi_frames _ _ _ _ I tid)) as [p Hp]; [by rewrite HT|].
  rewrite Hp. cbn [mbind option_bind]. unfold qed_mcp_cmd_set_blocking. rewrite Hi. cbn [mbind option_bind].
  assert (I' : forall i', cmd_list i' = cmd_list i -> drv_mb_seq i' = drv_mb_seq i ->
    mcp_inv_at i' (elems h) (frames h) (<[tid := mk_thread t mx cnt (Returned (- EAGAIN))]> T)).
  { intros i' E1 E2. eapply inv_thread; [by eapply inv_info; [done|done|right]|done|done|done| |done|].
    - intros a. split; by intros [?|?].
    - intros rc [= <-]. apply loop_code. }
  unfold mfw_err_notify. destruct (QED_MB_FLAGS_IS_SET _ _); cbn [mbind option_bind].
  - eexists _, i. split; [reflexivity|]. destruct (recov_in_prog h); split; try done; (split; [done|]); by apply I'.
  - eexists _, (i <| b_block_cmd := true |>). split; [reflexivity|].
    destruct (recov_in_prog _); split; try done; (split; [done|]); by apply I'.
Qed.

Lemma thread_safe tid alloc i T h th :
  fn_ok i T h -> T !! tid = Some th -> (forall a, alloc = Some a -> elems h !! a = None) ->
  exists th' h' i', thread_step tid alloc th h = Some (th', h') /\ fn_ok i' (<[tid := th']> T) h'.
Proof.
  intros O HT Ha. destruct th as [t mx cnt pc]. destruct pc as [|a|a| |rc]; simpl.
  - destruct (occupied_safe _ _ _ _ _ _ _ _ O HT Ha) as (pc & cnt' & h' & i' & -> & O'). cbn. by eexists _, _, _.
  - destruct (responding_safe _ _ _ _ _ _ _ _ O HT) as (pc & cnt' & h' & i' & -> & O'). cbn. by eexists _, _, _.
  - destruct (expired_safe _ _ _ _ _ _ _ _ O HT) as (h' & i' & -> & O'). cbn. by eexists _, _, _.
  - destruct (unresponsive_safe _ _ _ _ _ _ _ O HT) as (h' & i' & -> & O'). cbn. by eexists _, _, _.
  - eexists _, _, _. split; [reflexivity|]. rewrite insert_id by done. exact O.
Qed.

(** A call begins: refused, or waiting for the mailbox. *)
Definition enter_ok (p : qed_mcp_mb_params) (th : mcp_thread) : Prop :=
  (forall a, ~ owns th a) /\ count_ok th /\ (forall rc, t_pc th = Returned rc -> code_ok p rc) /\
  (returned th = false -> data_src_size p <= sizeof_union_data /\ data_dst_size p <= sizeof_union_data).

Lemma refused_ok t p rc : code_ok p rc -> enter_ok p (mk_thread t 0 0 (Returned rc)).
Proof. intros C. split_and!; [by intros a [?|?]|done|by intros ? [= <-]|done]. Qed.

Lemma enter_spec t p h : enter_ok p (call_enter t p h).
Proof.
  unfold call_enter. destruct (mcp_info h) as [i|]; [|apply refused_ok; unfold code_ok; tauto].
  destruct (negb _); [apply refused_ok; unfold code_ok; tauto|].
  destruct (b_halted i); [apply refused_ok, loop_code|].
  destruct (b_block_cmd i); [apply refused_ok; unfold code_ok; tauto|].
  destruct (_ || _) eqn:Es.
  { apply refused_ok. unfold code_ok. apply orb_prop in Es as [Es|Es]; zbool; tauto. }
  apply orb_false_elim in Es as [E1 E2]. zbool. destruct (_ =? _); [apply refused_ok, loop_code|].
  split_and!; [by intros a [?|?]| |done|done]. unfold count_ok; simpl. by destruct (QED_MB_FLAGS_IS_SET _ _).
Qed.

Ltac refused := left; eexists; split; [|reflexivity]; done.

Lemma enter_shape t p h :
  (exists rc, rc <> 0 /\ call_enter t p h = mk_thread t 0 0 (Returned rc)) \/
  call_enter t p h = mk_thread t (if QED_MB_FLAGS_IS_SET p QED_MB_FLAG_CAN_SLEEP then 599 else 500000) 0 Occupied.
Proof.
  unfold call_enter. destruct (mcp_info h) as [i|]; [|refused]. destruct (negb _); [refused|].
  destruct (b_halted i); [refused|]. destruct (b_block_cmd i); [refused|]. destruct (_ || _); [refused|].
  destruct (_ =? _); [refused|]. right. by destruct (QED_MB_FLAGS_IS_SET _ _).
Qed.

Lemma mcp_inv_new i m F T tid th p :
  mcp_inv_at i m F T -> T !! tid = None -> params_ok p -> (forall a, ~ owns th a) -> count_ok th ->
  (forall rc, t_pc th = Returned rc -> code_ok p rc) ->
  (returned th = false -> data_src_size p <= sizeof_union_data /\ data_dst_size p <= sizeof_union_data) ->
  mcp_inv_at i m (<[tid := p]> F) (<[tid := th]> T).
Proof.
  intros [ND L P E O Fr Pa Sz Co Rc] Hn Hp Hno Hc Hcd Hsz. constructor; try done.
  - intros a e He. destruct (E _ _ He) as (th0 & Ht0 & Ho0). exists th0. rewrite lookup_insert_ne; [done|]. intros Heq. by rewrite <- Heq, Hn in Ht0.
  - intros x y a Hy Ho. apply lookup_insert_Some in Hy as [[<- <-]|[_ Hy]]; [by destruct (Hno a)|by eapply O].
  - intros x. destruct (decide (x = tid)) as [->|Hne]; [by rewrite !lookup_insert_eq|by rewrite !lookup_insert_ne].
  - intros x q Hq. apply lookup_insert_Some in Hq as [[<- <-]|[_ Hq]]; [done|by eapply Pa].
  - intros x y q Hy Hq Hr. apply lookup_insert_Some in Hy as [[<- <-]|[Hne Hy]].
    + rewrite lookup_insert_eq in Hq. injection Hq as <-. by apply Hsz.
    + rewrite lookup_insert_ne in Hq by done. by eapply Sz.
  - intros x y Hy. apply lookup_insert_Some in Hy as [[<- <-]|[_ Hy]]; [done|by eapply Co].
  - intros x y q rc Hy Hq Hr. apply lookup_insert_Some in Hy as [[<- <-]|[Hne Hy]].
    + rewrite lookup_insert_eq in Hq. injection Hq as <-. by apply Hcd.
    + rewrite lookup_insert_ne in Hq by done. by eapply Rc.
Qed.

Lemma inv_leave i m F T tid th :
  mcp_inv_at i m F T -> T !! tid = Some th -> returned th = true -> mcp_inv_at i m (delete tid F) (delete tid T).
Proof.
  intros [ND L P E O Fr Pa Sz Co Rc] Ht Hr. constructor; try done.
  - intros a e He. destruct (E _ _ He) as (th0 & Ht0 & Ho0). exists th0. rewrite lookup_delete_ne; [done|].
    intros Heq. rewrite <- Heq, Ht in Ht0. injection Ht0 as <-. apply owns_not_returned in Ho0. by rewrite Hr in Ho0.
  - intros x y a Hy. apply lookup_delete_Some in Hy as [_ Hy]. by apply O.
  - intros x. destruct (decide (x = tid)) as [->|Hne]; [by rewrite !lookup_delete_eq|by rewrite !lookup_delete_ne].
  - intros x q Hq. apply lookup_delete_Some in Hq as [_ Hq]. by eapply Pa.
  - intros x y q Hy Hq. apply lookup_delete_Some in Hq as [_ Hq]. apply lookup_delete_Some in Hy as [_ Hy]. by eapply Sz.
  - intros x y Hy. apply lookup_delete_Some in Hy as [_ Hy]. by eapply Co.
  - intros x y q rc Hy Hq. apply lookup_delete_Some in Hq as [_ Hq]. apply lookup_delete_Some in Hy as [_ Hy]. by eapply Rc.
Qed.

(** ** Runs *)

Lemma exec_safe o s : mcp_inv s -> mcp_allowed o s -> exists s', mcp_exec o s = Some s' /\ mcp_inv s'.
Proof.
  destruct s as [h T]. intros (Hn & i & Hi & I) A. simpl in *. destruct o as [tid t p|tid alloc|tid|b|halt]; simpl in *.
  - destruct A as [Ht Hp]. eexists. split; [reflexivity|]. split; [done|]. exists i. split; [done|].
    destruct (enter_spec t p h) as (N & C & Cd & S). by apply mcp_inv_new.
  - destruct A as [(th & Ht & Hr) Ha]. rewrite Ht. cbn [mbind option_bind].
    destruct (thread_safe tid alloc i T h th) as (th' & h' & i' & -> & O'); [done..|]. cbn. eexists. split; [reflexivity|]. by eapply fn_ok_inv.
  - destruct A as (th & Ht & Hr). eexists. split; [reflexivity|]. split; [done|]. exists i. split; [done|]. by eapply inv_leave.
  - eexists. split; [reflexivity|]. split; [done|]. by exists i.
  - unfold qed_mcp_cmd_set_halt. rewrite Hi. cbn. eexists. split; [reflexivity|]. split; [done|]. eexists. split; [reflexivity|].
    by eapply inv_info; [done|done|right].
Qed.

Lemma run_safe os s : mcp_inv s -> mcp_allowed_all os s -> exists s', mcp_exec_all os s = Some s' /\ mcp_inv s'.
Proof.
  revert s. induction os as [|o os IH]; intros s I A; [by exists s|]. destruct A as [A Rest].
  destruct (exec_safe o s I A) as (s1 & E & I1). simpl. rewrite E in Rest |- *. cbn. by apply IH.
Qed.

(** ** Calls end *)

(** A bound on the parts a call still has to run. *)
Definition steps_left (th : mcp_thread) : Z :=
  match t_pc th with
  | Occupied => t_max th - t_cnt th + 4
  | Responding _ => t_max th - t_cnt th + 3
  | Expired _ => 2
  | Unresponsive => 1
  | Returned _ => 0
  end.

Lemma steps_left_nonneg th : count_ok th -> 0 <= steps_left th.
Proof. unfold count_ok, steps_left. destruct (t_pc th); lia. Qed.

Lemma send_pc t tid alloc h pc h' : send t tid alloc h = Some (pc, h') -> (exists a, pc = Responding a) \/ exists rc, pc = Returned rc.
Proof.
  unfold send. destruct (qed_mcp_reread_offsets t h); cbn; [|done]. destruct (mcp_info _); cbn; [|done].
  destruct (qed_mcp_cmd_add_elem _ _ _ _) as [[[a|] h1]|]; cbn; [| |done].
  - destruct (__qed_mcp_cmd_and_union _ _ _ _); cbn; [|done]. intros [= <- _]. left. by exists a.
  - intros [= <- _]. right. by eexists.
Qed.

Lemma step_progress tid alloc th h th' h' : count_ok th -> returned th = false ->
  thread_step tid alloc th h = Some (th', h') -> steps_left th' < steps_left th.
Proof.
  destruct th as [t mx cnt pc]. unfold count_ok, returned, steps_left. destruct pc as [|a|a| |rc]; simpl; intros C R; [| | | |done].
  - unfold occupied_iter. destruct (qed_mcp_has_pending_cmd h) as [pend|]; cbn; [|done].
    destruct (if pend then _ else _) as [[rc h1]|]; cbn; [|done]. destruct (rc =? 0).
    + destruct (mx <=? cnt); [done|]. destruct (send t tid alloc h1) as [[pc' h2]|] eqn:E; cbn; [|done]. intros [= <- <-].
      apply send_pc in E as [[a ->]|[rc' ->]]; simpl; lia.
    + destruct (negb _); cbn; intros [= <- <-]; simpl; [lia|]. replace (u32 (cnt + 1)) with (cnt + 1) by (unfold u32; rewrite Z.mod_small; lia).
      destruct (cnt + 1 <? mx); lia.
  - unfold responding_iter. destruct (elems h !! a) as [e|]; cbn; [|done].
    destruct (if b_is_completed e then _ else _) as [[rc h1]|]; cbn; [|done]. destruct (rc =? 0).
    + destruct (mx <=? cnt); [done|]. destruct (qed_mcp_cmd_del_elem a h1); cbn; [|done]. destruct (_ !! tid); cbn; [|done]. intros [= <- <-]. simpl; lia.
    + destruct (negb _); cbn; intros [= <- <-]; simpl; [lia|]. replace (u32 (cnt + 1)) with (cnt + 1) by (unfold u32; rewrite Z.mod_small; lia).
      destruct (cnt + 1 <? mx); lia.
  - destruct (expired_part t a h); cbn; [|done]. by intros [= <- <-].
  - destruct (unresponsive_part tid h); cbn; [|done]. by intros [= <- <-].
Qed.

Definition is_step (tid : nat) (o : mcp_op B) : bool := match o with OStep x _ => bool_decide (x = tid) | _ => false end.
Definition is_leave (tid : nat) (o : mcp_op B) : bool := match o with OLeave x => bool_decide (x = tid) | _ => false end.

(** The steps of a thread, as many as it has left at most. *)
Lemma own_steps_bounded tid os s th s' :
  mcp_inv s -> mcp_allowed_all os s -> y_threads s !! tid = Some th -> (forall o, o ∈ os -> is_leave tid o = false) ->
  mcp_exec_all os s = Some s' ->
  exists th', y_threads s' !! tid = Some th' /\ Z.of_nat (length (filter (fun o => is_step tid o = true) os)) + steps_left th' <= steps_left th.
Proof.
  revert s th. induction os as [|o os IH]; intros s th I A Ht Hl E; [injection E as <-; exists th; split; [done|]; simpl; lia|].
  destruct A as [A Rest]. destruct (exec_safe o s I A) as (s1 & E1 & I1). simpl in E. rewrite E1 in E, Rest. cbn in E.
  assert (Hth : exists th1, y_threads s1 !! tid = Some th1 /\ (if is_step tid o then 1 else 0) + steps_left th1 <= steps_left th).
  { clear IH E. destruct s as [h T], o as [x t p|x alloc|x|b|halt]; simpl in *.
    - injection E1 as <-. simpl. exists th. rewrite lookup_insert_ne; [split; [done|lia]|]. intros ->. destruct A as [A _]. by rewrite Ht in A.
    - destruct A as [(thx & Hx & Hr) _]. rewrite Hx in E1. cbn in E1. destruct (thread_step x alloc thx h) as [[th' h']|] eqn:Es; [|done].
      cbn in E1. injection E1 as <-. simpl. destruct (bool_decide (x = tid)) eqn:Ed.
      + apply bool_decide_eq_true in Ed as ->. rewrite Ht in Hx. injection Hx as <-. exists th'. rewrite lookup_insert_eq. split; [done|].
        assert (C : count_ok th) by (destruct I as (_ & i & _ & I); eapply (mi_count _ _ _ _ I); exact Ht).
        pose proof (step_progress _ _ _ _ _ _ C Hr Es). lia.
      + apply bool_decide_eq_false in Ed. exists th. rewrite lookup_insert_ne by done. split; [done|lia].
    - injection E1 as <-. simpl. exists th. specialize (Hl (OLeave x) ltac:(by left)). simpl in Hl. apply bool_decide_eq_false in Hl.
      rewrite lookup_delete_ne by done. split; [done|lia].
    - injection E1 as <-. exists th. split; [done|lia].
    - destruct (qed_mcp_cmd_set_halt halt h); [|done]. cbn in E1. injection E1 as <-. exists th. split; [done|lia]. }
  destruct Hth as (th1 & Ht1 & Hd). destruct (IH s1 th1 I1 Rest Ht1) as (th' & Ht' & Hc); [intros; apply Hl; by right|done|].
  exists th'. split; [done|]. rewrite filter_cons. destruct (decide (is_step tid o = true)) as [Eq|Eq].
  - rewrite Eq in Hd. simpl. lia.
  - apply not_true_is_false in Eq. rewrite Eq in Hd. lia.
Qed.
End Steps.
