(* ===== verification/McpHonest.v ===== *)
(** * The mailbox with a firmware that answers

    The system of McpRun.v on registers with the laws of [RegAccessLaws] and
    [RegCopyLaws], beside a firmware that answers the command in the mailbox,
    once, with its sequence number.  The firmware notes what it was asked and what
    it answered, and the invariant relates that log to the parameters of the
    calls. *)

From S2P Require Import Prelude Llh Mcp McpRun McpSteps.

(** ** What goes through the mailbox *)

(** Header, parameter and union data, of a command or of a response. *)
Record message := mk_message { ms_header : Z; ms_param : Z; ms_data : list Z }.

(** The registers of the mailbox at [A], and the others a call reads. *)
Record mailbox_at {B} `{RegBus B} (A : Z) : Prop := {
  mb_range : 0 <= A /\ A + 56 <= 2 ^ 32;
  mb_plain : forall k, 0 <= k < 14 -> bus_plain (A + 4 * k);
  mb_fits : forall k w, 0 <= k < 14 -> 0 <= w < 2 ^ 32 -> bus_fits (A + 4 * k) w;
  mb_por : bus_plain MISCS_REG_GENERIC_POR_0 /\ forall k, 0 <= k < 14 -> MISCS_REG_GENERIC_POR_0 <> A + 4 * k;
  mb_cpu : bus_plain MCP_REG_CPU_MODE /\ bus_plain MCP_REG_CPU_STATE /\ bus_plain MCP_REG_CPU_PROGRAM_COUNTER
}.

(** The firmware's side: the sequence numbers, not wrapped, of the last number
    taken, the last command written and the last one answered; the number of
    each call's command; and the log. *)
Record mfw_log := mk_log {
  g_seq : Z; g_sent : Z; g_last : Z; g_serial : gmap nat Z; g_log : gmap Z (message * message)
}.
#[export] Instance eta_mfw_log : Settable mfw_log := fun r =>
  mk_log (g_seq r) (g_sent r) (g_last r) (g_serial r) (g_log r).

(** Commands and data as the callers give them: a code in the upper half of the
    header, dwords and bytes. *)
Definition words_ok (p : qed_mcp_mb_params) : Prop :=
  0 <= cmd p < 2 ^ 32 /\ Z.land (cmd p) 0xffff = 0 /\ 0 <= param p < 2 ^ 32 /\
  forall buf b, p_data_src p = Some buf -> b ∈ buf -> 0 <= b < 2 ^ 8.

(** The command of a call with its number, and what a response leaves in the
    parameters, before and after its sequence number is cleared. *)
Definition request_of (p : qed_mcp_mb_params) (n : Z) : option message :=
  u ← union_of p; Some (mk_message (Z.lor (cmd p) (u16 n)) (param p) (to_dwords u)).
Definition data_got (rp : message) (p : qed_mcp_mb_params) : Prop :=
  let n := Z.to_nat (data_dst_size p / 4) in
  forall buf, p_data_dst p = Some buf -> take (4 * n) buf = to_bytes (take n (ms_data rp)).
Definition got_raw (rp : message) (p : qed_mcp_mb_params) : Prop :=
  mcp_resp p = ms_header rp /\ mcp_param p = ms_param rp /\ data_got rp p.
Definition got (rp : message) (p : qed_mcp_mb_params) : Prop :=
  mcp_resp p = Z.land (ms_header rp) FW_MSG_CODE_MASK /\ mcp_param p = ms_param rp /\ data_got rp p.

Section Honest.
Context {B : Type} `{RegBus B} `{!RegAccessLaws B} `{RegCopy B} `{!RegCopyLaws B} `{!RegCopySize B}.
Context (A : Z) (MB : mailbox_at A).
Implicit Types (h : mcp_hwfn B) (s : mcp_sys B) (i : qed_mcp_info) (g : mfw_log) (T : gmap nat mcp_thread).

Definition own_reg (b : B) (a : Z) : Z := bus_reg b (bus_own b) a.
Definition request_at (b : B) : message :=
  mk_message (own_reg b (A + drv_mb_header)) (own_reg b (A + drv_mb_param)) (bus_regs b (A + union_data) 8).
Definition reply_at (b : B) : message :=
  mk_message (own_reg b (A + fw_mb_header)) (own_reg b (A + fw_mb_param)) (bus_regs b (A + union_data) 8).

(** ** The system with its firmware *)

Record mfw_sys := mk_mfw_sys { x_s : mcp_sys B; x_g : mfw_log }.

(** A step of a thread; a change of other registers; an answer. *)
Inductive mfw_op :=
  | XThread (o : mcp_op B)
  | XQuiet (b : B)
  | XAnswer (b : B).

(** The firmware answers a command it has not answered; it leaves the registers
    that tell of its resets alone.  Threads hold the PTT entries they use, and
    fewer than [2^16] sequence numbers in a row go unanswered. *)
Definition mfw_allowed (x : mfw_op) (z : mfw_sys) : Prop :=
  let '(mk_mfw_sys s g) := z in
  let b := bus (y_h s) in
  match x with
  | XThread o =>
      mcp_allowed o s /\
      match o with
      | OCall _ t p => t ∈ bus_held b /\ words_ok p
      | OStep _ _ => g_seq g + 1 - g_last g < 2 ^ 16
      | ODevice _ => False
      | _ => True
      end
  | XQuiet b' =>
      bus_step b b' /\ own_reg b' MISCS_REG_GENERIC_POR_0 = own_reg b MISCS_REG_GENERIC_POR_0 /\
      forall k, 0 <= k < 14 -> own_reg b' (A + 4 * k) = own_reg b (A + 4 * k)
  | XAnswer b' =>
      bus_step b b' /\ own_reg b' MISCS_REG_GENERIC_POR_0 = own_reg b MISCS_REG_GENERIC_POR_0 /\
      g_last g < g_sent g /\ Z.land (own_reg b' (A + fw_mb_header)) 0xffff = Z.land (own_reg b (A + drv_mb_header)) 0xffff
  end.

(** What a step of thread [tid] means for the numbers. *)
Definition note_step (tid : nat) (pc pc' : mcp_pc) g : mfw_log :=
  match pc, pc' with
  | Occupied, Responding _ =>
      let n := g_seq g + 1 in g <| g_seq := n |> <| g_sent := n |> <| g_serial := <[tid := n]> (g_serial g) |>
  | Occupied, Returned rc => if rc =? - ENOMEM then g <| g_seq := g_seq g + 1 |> else g
  | _, _ => g
  end.

Definition mfw_exec (x : mfw_op) (z : mfw_sys) : option mfw_sys :=
  let '(mk_mfw_sys s g) := z in
  match x with
  | XThread o =>
      s' ← mcp_exec o s;
      Some (mk_mfw_sys s'
        match o with
        | OStep tid _ =>
            match y_threads s !! tid, y_threads s' !! tid with
            | Some th, Some th' => note_step tid (t_pc th) (t_pc th') g
            | _, _ => g
            end
        | _ => g
        end)
  | XQuiet b' => s' ← mcp_exec (ODevice b') s; Some (mk_mfw_sys s' g)
  | XAnswer b' =>
      s' ← mcp_exec (ODevice b') s;
      Some (mk_mfw_sys s' (g <| g_last := g_sent g |> <| g_log := <[g_sent g := (request_at (bus (y_h s)), reply_at b')]> (g_log g) |>))
  end.

Fixpoint mfw_exec_all (xs : list mfw_op) (z : mfw_sys) : option mfw_sys :=
  match xs with [] => Some z | x :: xs => z ← mfw_exec x z; mfw_exec_all xs z end.
Fixpoint mfw_allowed_all (xs : list mfw_op) (z : mfw_sys) : Prop :=
  match xs with
  | [] => True
  | x :: xs => mfw_allowed x z /\ match mfw_exec x z with Some z' => mfw_allowed_all xs z' | None => True end
  end.

(** ** The invariant *)

(** The element of a call, sent or answered, and a call that has its response. *)
Definition sent_ok g (b : B) (tid : nat) (p : qed_mcp_mb_params) : Prop :=
  g_serial g !! tid = Some (g_sent g) /\ g_sent g = g_seq g /\
  exists rq, request_of p (g_sent g) = Some rq /\
    (g_last g < g_sent g -> request_at b = rq) /\
    (g_last g = g_sent g -> g_log g !! g_sent g = Some (rq, reply_at b)).
Definition answered_with (have : message -> qed_mcp_mb_params -> Prop) g (tid : nat) (p : qed_mcp_mb_params) : Prop :=
  exists n rq rp, g_serial g !! tid = Some n /\ request_of p n = Some rq /\ g_log g !! n = Some (rq, rp) /\ have rp p.

Record hon_at i g T h : Prop := {
  ho_info : mcp_info h = Some i;
  ho_addr : drv_mb_addr i = A;
  ho_hist : mcp_hist i = own_reg (bus h) MISCS_REG_GENERIC_POR_0;
  ho_seq : drv_mb_seq i = u16 (g_seq g);
  ho_order : g_last g <= g_sent g <= g_seq g /\ g_seq g - g_last g < 2 ^ 16;
  ho_fw : Z.land (own_reg (bus h) (A + fw_mb_header)) 0xffff = u16 (g_last g);
  ho_hdr : g_last g < g_sent g -> Z.land (own_reg (bus h) (A + drv_mb_header)) 0xffff = u16 (g_sent g);
  ho_log : forall n x, g_log g !! n = Some x -> n <= g_last g;
  ho_bus : bus_ok (bus h);
  ho_ptt : forall tid th, T !! tid = Some th -> t_ptt th ∈ bus_held (bus h);
  ho_words : forall tid p, frames h !! tid = Some p -> words_ok p;
  ho_elems : forall a e p, elems h !! a = Some e -> frames h !! p_mb_params e = Some p ->
    if b_is_completed e then answered_with got_raw g (p_mb_params e) p else sent_ok g (bus h) (p_mb_params e) p;
  ho_done : forall tid th p, T !! tid = Some th -> frames h !! tid = Some p -> t_pc th = Returned 0 -> answered_with got g tid p
}.

(** ** Registers *)

Definition agree (b b' : B) : Prop :=
  bus_step b b' /\ own_reg b' MISCS_REG_GENERIC_POR_0 = own_reg b MISCS_REG_GENERIC_POR_0 /\
  forall k, 0 <= k < 14 -> own_reg b' (A + 4 * k) = own_reg b (A + 4 * k).

Definition same_regs (b b' : B) : Prop := bus_step b b' /\ forall f x, bus_reg b' f x = bus_reg b f x.

Lemma bus_step_trans (b b1 b2 : B) : bus_step b b1 -> bus_step b1 b2 -> bus_step b b2.
Proof. intros [O1 E1 L1] [O2 E2 L2]. constructor; [done|congruence..]. Qed.
Lemma same_regs_trans b b1 b2 : same_regs b b1 -> same_regs b1 b2 -> same_regs b b2.
Proof. intros [S1 R1] [S2 R2]. split; [by eapply bus_step_trans|]. intros. by rewrite R2. Qed.
Lemma same_regs_own b b' x : same_regs b b' -> own_reg b' x = own_reg b x.
Proof. intros [[_ E _] R]. unfold own_reg. by rewrite E, R. Qed.
Lemma same_regs_agree b b' : same_regs b b' -> agree b b'.
Proof. intros S. split; [apply S|]. split; intros; by apply same_regs_own. Qed.

Lemma agree_field b b' f : agree b b' -> 0 <= f < 56 -> f mod 4 = 0 -> own_reg b' (A + f) = own_reg b (A + f).
Proof.
  intros (_ & _ & M) Hf Hm. replace f with (4 * (f / 4)) by (pose proof (Z.div_mod f 4 ltac:(lia)); lia).
  apply M. split; [apply Z.div_pos; lia|apply Z.div_lt_upper_bound; lia].
Qed.
Lemma agree_data b b' : agree b b' -> bus_regs b' (A + union_data) 8 = bus_regs b (A + union_data) 8.
Proof.
  intros Ag. unfold bus_regs. apply list_fmap_ext. intros n k Hk. apply lookup_seq in Hk as [-> Hn].
  rewrite <- Z.add_assoc. apply (agree_field b b'); [done|unfold union_data; lia|]. unfold union_data.
  replace (24 + 4 * Z.of_nat (0 + n)) with ((6 + Z.of_nat n) * 4) by lia. apply Z.mod_mul. lia.
Qed.
Lemma agree_request b b' : agree b b' -> request_at b' = request_at b.
Proof. intros Ag. unfold request_at. f_equal; [by apply agree_field..|by apply agree_data]. Qed.
Lemma agree_reply b b' : agree b b' -> reply_at b' = reply_at b.
Proof. intros Ag. unfold reply_at. f_equal; [by apply agree_field..|by apply agree_data]. Qed.

Lemma field_plain f : 0 <= f < 56 -> f mod 4 = 0 -> u32 (A + f) = A + f /\ bus_plain (A + f).
Proof.
  intros Hf Hm. destruct (mb_range _ MB) as [H0' H1']. split; [unfold u32; apply Z.mod_small; lia|].
  replace f with (4 * (f / 4)) by (pose proof (Z.div_mod f 4 ltac:(lia)); lia).
  apply (mb_plain _ MB). split; [apply Z.div_pos; lia|apply Z.div_lt_upper_bound; lia].
Qed.

Lemma rd_hon t a h : bus_ok (bus h) -> t ∈ bus_held (bus h) -> bus_plain a ->
  exists b, rd t a h = (own_reg (bus h) a, set_bus b h) /\ same_regs (bus h) b.
Proof.
  intros Ok Ht Hp. unfold rd. pose proof (law_rd (bus h) t a Ok Ht Hp) as L.
  destruct (bus_rd t a (bus h)) as [v b]. destruct L as (S & -> & R). exists b. done.
Qed.

Lemma rd_field t f h : bus_ok (bus h) -> t ∈ bus_held (bus h) -> 0 <= f < 56 -> f mod 4 = 0 ->
  exists b, rd t (u32 (A + f)) h = (own_reg (bus h) (A + f), set_bus b h) /\ same_regs (bus h) b.
Proof. intros Ok Ht Hf Hm. destruct (field_plain f Hf Hm) as [-> Hp]. by apply rd_hon. Qed.

(** Other registers change. *)
Lemma hon_agree i g T h b : hon_at i g T h -> agree (bus h) b -> hon_at i g T (set_bus b h).
Proof.
  intros [Hi Ha Hh Hs Ho Hf Hdr Hl Hb Hp Hw He Hd] Ag. assert (Ag' := Ag). destruct Ag' as ([Ok Eo El] & Po & M).
  constructor; try done; mcp_cbn.
  - by rewrite Po.
  - by rewrite (agree_field _ _ fw_mb_header Ag).
  - by rewrite (agree_field _ _ drv_mb_header Ag).
  - intros tid th HT. rewrite El. by eapply Hp.
  - intros a e p Hae Hfp. specialize (He a e p Hae Hfp). destruct (b_is_completed e); [done|].
    unfold sent_ok in *. by rewrite (agree_request _ _ Ag), (agree_reply _ _ Ag).
Qed.

(** ** A response is taken *)

Lemma u16_close x y : u16 x = u16 y -> x <= y -> y - x < 2 ^ 16 -> x = y.
Proof.
  unfold u16. intros E Hle Hlt. pose proof (Z.div_mod x (2 ^ 16) ltac:(lia)). pose proof (Z.div_mod y (2 ^ 16) ltac:(lia)).
  assert (x / 2 ^ 16 = y / 2 ^ 16) by lia. lia.
Qed.
Lemma u16_idem x : u16 (u16 x) = u16 x.
Proof. apply Z.mod_small, u16_bound. Qed.

Lemma request_answered p p' n : answered p p' -> request_of p' n = request_of p n.
Proof. intros [E1 E2 E3 E4 _ _ _]. unfold request_of, union_of. by rewrite E1, E2, E3, E4. Qed.
Lemma words_answered p p' : answered p p' -> words_ok p -> words_ok p'.
Proof. intros [E1 E2 E3 _ _ _ _]. unfold words_ok. by rewrite E1, E2, E3. Qed.

Lemma bus_regs_take b a n m : (n <= m)%nat -> bus_regs b a n = take n (bus_regs b a m).
Proof. intros Hle. unfold bus_regs. rewrite <- fmap_take, take_seq. by rewrite Nat.min_l. Qed.

(** The frame of an element's owner is overwritten and the element answered. *)
Lemma hon_answer i g T h a e p p' :
  hon_at i g T h -> mcp_inv_at i (elems h) (frames h) T -> elems h !! a = Some e -> frames h !! p_mb_params e = Some p ->
  answered p p' -> answered_with got_raw g (p_mb_params e) p' ->
  hon_at i g T (h <| frames := <[p_mb_params e := p']> (frames h) |> <| elems := <[a := e <| b_is_completed := true |>]> (elems h) |>).
Proof.
  intros [Hi Ha Hh Hs Ho Hf Hdr Hl Hb Hp Hw He Hd] I Hae Hfp An Aw.
  destruct (mi_elem _ _ _ _ I _ _ Hae) as (th & HT & Hown). constructor; try done; mcp_cbn.
  - intros tid q Hq. apply lookup_insert_Some in Hq as [[<- <-]|[_ Hq]]; [|by eapply Hw]. eapply words_answered; [done|]. by eapply Hw.
  - intros x ex q Hx Hq. apply lookup_insert_Some in Hx as [[<- <-]|[Hne Hx]].
    + simpl in Hq |- *. rewrite lookup_insert_eq in Hq. by injection Hq as <-.
    + rewrite lookup_insert_ne in Hq; [by apply (He x ex q)|]. intros Eo. apply Hne.
      destruct (mi_elem _ _ _ _ I _ _ Hx) as (th' & HT' & Hown'). rewrite <- Eo, HT in HT'. injection HT' as <-. by eapply owns_same.
  - intros tid th' q HT' Hq Hr. apply lookup_insert_Some in Hq as [[<- <-]|[_ Hq]]; [|by eapply Hd].
    rewrite HT in HT'. injection HT' as <-. destruct Hown; congruence.
Qed.

(** The buffer gets the beginning of the response's data. *)
Lemma get_union_hon t i p h : bus_ok (bus h) -> t ∈ bus_held (bus h) -> drv_mb_addr i = A -> params_ok p -> data_dst_size p <= sizeof_union_data ->
  exists dst b, get_union_data t i p h = Some (dst, set_bus b h) /\ same_regs (bus h) b /\ length <$> dst = length <$> p_data_dst p /\
    data_got (reply_at (bus h)) (p <| p_data_dst := dst |>).
Proof.
  intros Ok Ht Ea Pok Hsz. assert (Id : same_regs (bus h) (bus h)) by done.
  unfold get_union_data. destruct (p_data_dst p) as [buf|] eqn:Ed; [|exists None, (bus h); by destruct h].
  destruct (data_dst_size p =? 0) eqn:Ez.
  { zbool. exists (Some buf), (bus h). split; [by destruct h|]. split; [done|]. split; [done|]. unfold data_got. simpl. rewrite Ez. by intros ? [= <-]. }
  assert (Hpos : 0 < data_dst_size p) by (destruct Pok as (_ & D0 & _); zbool; lia).
  rewrite Ea. destruct (field_plain union_data ltac:(done) eq_refl) as [-> _].
  set (n := Z.to_nat (data_dst_size p / 4)).
  assert (Hn : (n <= 8)%nat) by (unfold n; pose proof (Z.div_le_upper_bound (data_dst_size p) 4 8 ltac:(lia) ltac:(unfold sizeof_union_data in Hsz; lia)); lia).
  assert (Hpl : forall k, (k < Z.to_nat ((data_dst_size p + 3) / 4))%nat -> bus_plain (A + union_data + 4 * Z.of_nat k)).
  { intros k Hk. pose proof (Z.div_lt_upper_bound (data_dst_size p + 3) 4 9 ltac:(lia) ltac:(unfold sizeof_union_data in Hsz; lia)). unfold union_data. replace (A + 24 + 4 * Z.of_nat k) with (A + 4 * (6 + Z.of_nat k)) by lia. apply (mb_plain _ MB). lia. }
  pose proof (law_memcpy_from (bus h) t (A + union_data) (data_dst_size p) Ok Ht Hpos Hpl) as Lm.
  destruct (bus_memcpy_from t (A + union_data) (data_dst_size p) (bus h)) as [ws b]. destruct Lm as (S & Ews & R). fold n in Ews.
  assert (Lw : length (to_bytes ws) = (4 * n)%nat) by (rewrite to_bytes_length, Ews; unfold bus_regs; by rewrite length_fmap, length_seq).
  destruct (buf_write_length (to_bytes ws) buf) as (buf' & Eb & Lb); [rewrite Lw; by apply dst_fits|].
  rewrite Eb. exists (Some buf'), b. split; [done|]. split; [done|]. split; [simpl; by rewrite Lb|].
  intros buf0 [= <-]. cbn [data_dst_size setter]. fold n. rewrite <- Lw. simpl. rewrite <- (bus_regs_take _ _ n 8 Hn), <- Ews.
  unfold buf_write in Eb. destruct (_ <? _)%nat; [done|]. injection Eb as <-. by rewrite take_app_length.
Qed.

Lemma update_hon t i g T h a l e p :
  hon_at i g T h -> mcp_inv_at i (elems h) (frames h) T -> t ∈ bus_held (bus h) -> cmd_list i = a :: l -> elems h !! a = Some e ->
  b_is_completed e = false -> frames h !! p_mb_params e = Some p -> data_dst_size p <= sizeof_union_data ->
  exists b, same_regs (bus h) b /\
    (qed_mcp_update_pending_cmd t h = Some (- EAGAIN, set_bus b h) \/
     exists p', qed_mcp_update_pending_cmd t h =
       Some (0, set_bus b (h <| frames := <[p_mb_params e := p']> (frames h) |> <| elems := <[a := e <| b_is_completed := true |>]> (elems h) |>)) /\
       answered p p' /\ answered_with got_raw g (p_mb_params e) p').
Proof.
  intros Ho I Ht Hl He Hc Hp Hsz. assert (Hi := ho_info _ _ _ _ Ho). assert (Ok := ho_bus _ _ _ _ Ho).
  destruct (mi_pending _ _ _ _ I 0%nat a e) as [_ Hs]; [by rewrite Hl|done..|].
  unfold qed_mcp_update_pending_cmd, DRV_MB_RD. rewrite Hi. mcp_cbn. rewrite (ho_addr _ _ _ _ Ho).
  destruct (rd_field t fw_mb_header h Ok Ht ltac:(done) eq_refl) as (b1 & -> & S1). mcp_cbn. rewrite Hi. mcp_cbn.
  change FW_MSG_SEQ_NUMBER_MASK with 0xffff. rewrite (ho_fw _ _ _ _ Ho), u16_idem, (ho_seq _ _ _ _ Ho).
  destruct (negb _) eqn:Eq; [exists b1; split; [done|by left]|]. zbool.
  destruct (ho_order _ _ _ _ Ho) as [Or Lt]. apply u16_close in Eq; [|lia..].
  pose proof (ho_elems _ _ _ _ Ho a e p He Hp) as Sent. rewrite Hc in Sent. destruct Sent as (Sn & Sq & rq & Rq & _ & Lg).
  specialize (Lg ltac:(lia)). unfold qed_mcp_cmd_get_elem. mcp_cbn. rewrite Hi. mcp_cbn. rewrite Hl.
  replace (u16 (g_last g)) with (expected_seq_num e) by (by rewrite Hs, (ho_seq _ _ _ _ Ho), Eq).
  rewrite (get_elem_head _ _ _ _ He). mcp_cbn. rewrite He. mcp_cbn. rewrite Hp. mcp_cbn. rewrite (ho_addr _ _ _ _ Ho).
  assert (Ht1 : t ∈ bus_held b1) by (destruct S1 as [[_ _ ->] _]; done).
  destruct (rd_field t fw_mb_param (set_bus b1 h) ltac:(apply S1) Ht1 ltac:(done) eq_refl) as (b2 & -> & S2). mcp_cbn.
  assert (S12 : same_regs (bus h) b2) by (by eapply same_regs_trans).
  destruct (get_union_hon t i p (set_bus b2 h)) as (dst & b3 & E3 & S3 & Ld & Dg);
    [apply S12|destruct S12 as [[_ _ E] _]; simpl; by rewrite E|apply Ho|by eapply mi_params|done|].
  change (set_bus b2 (set_bus b1 h)) with (set_bus b2 h). rewrite E3. mcp_cbn.
  exists b3. split; [by eapply same_regs_trans|]. right. eexists. split; [reflexivity|].
  assert (Er : reply_at b2 = reply_at (bus h)) by (by apply agree_reply, same_regs_agree). simpl in Dg. rewrite Er in Dg.
  match goal with |- answered p ?p' /\ _ => assert (An : answered p p') by (by constructor) end.
  split; [done|]. exists (g_sent g), rq, (reply_at (bus h)). split_and!; [done|by rewrite (request_answered _ _ _ An)|done|].
  split; [done|]. split; [|done]. simpl. by apply (same_regs_own (bus h) b1).
Qed.

(** ** A command is written *)

Lemma to_dwords_spec n (u : list Z) : length u = (4 * n)%nat -> (forall b, b ∈ u -> 0 <= b < 2 ^ 8) ->
  length (to_dwords u) = n /\ forall w, w ∈ to_dwords u -> 0 <= w < 2 ^ 32.
Proof.
  revert u. induction n as [|n IH]; intros u Hl Hb; [destruct u; [|done]; split; [done|]; intros w Hw; by apply elem_of_nil in Hw|].
  destruct u as [|b0 [|b1 [|b2 [|b3 u]]]]; try (simpl in Hl; lia). destruct (IH u) as [L W]; [simpl in Hl; lia|intros; apply Hb; set_solver|].
  simpl. split; [by rewrite L|]. intros w Hw. apply elem_of_cons in Hw as [->|Hw]; [|by apply W].
  pose proof (Hb b0 ltac:(set_solver)). pose proof (Hb b1 ltac:(set_solver)). pose proof (Hb b2 ltac:(set_solver)). pose proof (Hb b3 ltac:(set_solver)).
  unfold bytes_dword. lia.
Qed.

Lemma union_of_spec p u : words_ok p -> params_ok p -> union_of p = Some u ->
  length u = 32%nat /\ forall b, b ∈ u -> 0 <= b < 2 ^ 8.
Proof.
  intros (_ & _ & _ & Hw) (S0 & _) E.
  assert (Z0 : forall n (b : Z), b ∈ replicate n 0 -> 0 <= b < 2 ^ 8) by (intros n b Hb; apply elem_of_replicate in Hb as [-> _]; lia).
  unfold union_of in E. destruct (p_data_src p) as [buf|]; [|injection E as <-; split; [done|apply (Z0 32%nat)]].
  destruct (data_src_size p =? 0); [injection E as <-; split; [done|apply (Z0 32%nat)]|].
  destruct (_ || _) eqn:Es; [done|]. apply orb_false_elim in Es as [E1 E2]. zbool. injection E as <-. split.
  - rewrite length_app, length_take, length_replicate. unfold sizeof_union_data in *. lia.
  - intros b Hb. apply elem_of_app in Hb as [Hb|Hb]; [|by eapply Z0]. eapply Hw; [done|]. eapply elem_of_take in Hb as (k & Hk & _). by eapply list_elem_of_lookup_2.
Qed.

Lemma wr_hon t f v h : bus_ok (bus h) -> t ∈ bus_held (bus h) -> 0 <= f < 56 -> f mod 4 = 0 -> 0 <= v < 2 ^ 32 ->
  exists b, wr t (u32 (A + f)) v h = set_bus b h /\ bus_step (bus h) b /\ own_reg b (A + f) = v /\
    forall x, x <> A + f -> own_reg b x = own_reg (bus h) x.
Proof.
  intros Ok Ht Hf Hm Hv. destruct (field_plain f Hf Hm) as [-> Hp]. unfold wr.
  assert (Hfit : bus_fits (A + f) v).
  { replace f with (4 * (f / 4)) by (pose proof (Z.div_mod f 4 ltac:(lia)); lia).
    apply (mb_fits _ MB); [|done]. split; [apply Z.div_pos; lia|apply Z.div_lt_upper_bound; lia]. }
  destruct (law_wr (bus h) t (A + f) v Ok Ht Hp Hfit) as (S & W & F). eexists. split; [done|]. split; [done|].
  assert (Eo := bs_own _ _ S). unfold own_reg. rewrite Eo. split; [done|]. intros x Hx. by apply F.
Qed.

Lemma header_range c n : 0 <= c < 2 ^ 32 -> 0 <= n < 2 ^ 16 -> 0 <= Z.lor c n < 2 ^ 32.
Proof.
  intros Hc Hn. assert (Hlor : 0 <= Z.lor c n) by (apply Z.lor_nonneg; lia). split; [done|].
  destruct (decide (Z.lor c n = 0)) as [->|Hne]; [lia|]. apply Z.log2_lt_pow2; [lia|].
  rewrite Z.log2_lor by lia. apply Z.max_lub_lt; (destruct (decide (0 < c)), (decide (0 < n)); (apply Z.log2_lt_pow2; lia) || (rewrite Z.log2_nonpos by lia; lia)).
Qed.

Lemma post_hon t tid n h i p u :
  mcp_info h = Some i -> drv_mb_addr i = A -> bus_ok (bus h) -> t ∈ bus_held (bus h) -> frames h !! tid = Some p ->
  words_ok p -> params_ok p -> union_of p = Some u -> 0 <= n < 2 ^ 16 ->
  exists b, __qed_mcp_cmd_and_union t tid n h = Some (set_bus b h) /\ bus_step (bus h) b /\
    own_reg b MISCS_REG_GENERIC_POR_0 = own_reg (bus h) MISCS_REG_GENERIC_POR_0 /\
    own_reg b (A + fw_mb_header) = own_reg (bus h) (A + fw_mb_header) /\
    request_at b = mk_message (Z.lor (cmd p) n) (param p) (to_dwords u).
Proof.
  intros Hi Ha Ok Ht Hp Hw Pok Eu Hn. unfold __qed_mcp_cmd_and_union. rewrite Hi. mcp_cbn. rewrite Hp. mcp_cbn. rewrite Eu. mcp_cbn.
  destruct (union_of_spec p u Hw Pok Eu) as [Lu Bu]. destruct (to_dwords_spec 8 u ltac:(by rewrite Lu) Bu) as [Ld Wd].
  rewrite Ha. destruct (field_plain union_data ltac:(done) eq_refl) as [-> _].
  assert (Efield : forall k : nat, A + union_data + 4 * Z.of_nat k = A + 4 * (6 + Z.of_nat k)) by (unfold union_data; lia).
  destruct (law_memcpy_to (bus h) t (A + union_data) (to_dwords u) Ok Ht) as (S1 & D1 & F1); [by destruct (to_dwords u)| |].
  { intros k w Hk. rewrite Efield. assert (Hlt := lookup_lt_Some _ _ _ Hk). apply list_elem_of_lookup_2 in Hk.
    split; [apply (mb_plain _ MB); lia|apply (mb_fits _ MB); [lia|by apply Wd]]. }
  set (b1 := bus_memcpy_to t (A + union_data) (to_dwords u) (bus h)) in *. rewrite Ld in D1, F1.
  assert (F1' : forall x, (forall k, 6 <= k < 14 -> x <> A + 4 * k) -> own_reg b1 x = own_reg (bus h) x).
  { intros x Hx. unfold own_reg. rewrite (bs_own _ _ S1). apply F1. intros k Hk. rewrite Efield. apply Hx. lia. }
  unfold DRV_MB_WR. mcp_cbn. rewrite Hi. mcp_cbn. rewrite Ha. destruct Hw as (Hc & _ & Hpar & _).
  destruct (wr_hon t drv_mb_param (param p) (set_bus b1 h)) as (b2 & -> & S2 & W2 & F2); [apply S1|simpl; by rewrite (bs_held _ _ S1)|done|done|done|].
  simpl in S2, F2. mcp_cbn. rewrite Hi. mcp_cbn. rewrite Ha. assert (S12 := bus_step_trans _ _ _ S1 S2).
  destruct (wr_hon t drv_mb_header (Z.lor (cmd p) n) (set_bus b2 (set_bus b1 h))) as (b3 & -> & S3 & W3 & F3);
    [apply S12|simpl; by rewrite (bs_held _ _ S12)|done|done|by apply header_range|].
  simpl in S3, F3. exists b3. split; [done|]. split; [by eapply bus_step_trans|].
  assert (F : forall x, (forall k, 0 <= k < 14 -> k <> 2 -> x <> A + 4 * k) -> own_reg b3 x = own_reg (bus h) x).
  { intros x Hx. rewrite F3, F2, F1'; [done|intros k Hk; apply Hx; lia|apply (Hx 1); lia|].
    unfold drv_mb_header. replace (A + 0) with (A + 4 * 0) by lia. apply Hx; lia. }
  split; [apply F; intros k Hk _; by apply (mb_por _ MB)|]. split; [apply F; intros k Hk Hne; unfold fw_mb_header; lia|].
  unfold request_at. f_equal; [done|rewrite F3; [done|unfold drv_mb_param, drv_mb_header; lia]|].
  rewrite <- D1. unfold bus_regs. apply list_fmap_ext. intros k x Hk. apply lookup_seq in Hk as [-> Hk].
  change (own_reg b3 (A + union_data + 4 * Z.of_nat (0 + k)) = own_reg b1 (A + union_data + 4 * Z.of_nat (0 + k))).
  rewrite Efield, F3, F2; [done|unfold drv_mb_param; lia|unfold drv_mb_header; lia].
Qed.

(** ** The steps *)

(** A thread moves without taking, answering or giving up a command. *)
Lemma hon_thread i g T h tid th th' : hon_at i g T h -> T !! tid = Some th -> t_ptt th' = t_ptt th ->
  t_pc th' <> Returned 0 -> hon_at i g (<[tid := th']> T) h.
Proof.
  intros [Hi Ha Hh Hs Ho Hf Hdr Hl Hb Hp Hw He Hd] HT Et Hr. constructor; try done.
  - intros x y Hy. apply lookup_insert_Some in Hy as [[<- <-]|[_ Hy]]; [rewrite Et|]; by eapply Hp.
  - intros x y p Hy Hq Hx. apply lookup_insert_Some in Hy as [[<- <-]|[_ Hy]]; [done|by eapply Hd].
Qed.

(** The info changes in fields that do not matter here. *)
Lemma hon_info i i' g T h : hon_at i g T h -> drv_mb_addr i' = drv_mb_addr i -> mcp_hist i' = mcp_hist i -> drv_mb_seq i' = drv_mb_seq i ->
  hon_at i' g T (set_info i' h).
Proof. intros [Hi Ha Hh Hs Ho Hf Hdr Hl Hb Hp Hw He Hd] E1 E2 E3. by constructor; try done; mcp_cbn; congruence. Qed.

(** An element is deleted. *)
Lemma hon_delete i g T h a : hon_at i g T h -> hon_at i g T (h <| elems := delete a (elems h) |>).
Proof.
  intros [Hi Ha Hh Hs Ho Hf Hdr Hl Hb Hp Hw He Hd]. constructor; try done; mcp_cbn.
  intros x e p Hx. apply lookup_delete_Some in Hx as [_ Hx]. by apply (He x).
Qed.

Lemma u16_succ x : u16 (u16 x + 1) = u16 (x + 1).
Proof. unfold u16. by rewrite Zplus_mod_idemp_l. Qed.

Definition no_elems_pending h : Prop := forall a e, elems h !! a = Some e -> b_is_completed e = true.

(** A sequence number is taken while no command is pending. *)
Lemma hon_seq i g T h : hon_at i g T h -> no_elems_pending h -> g_seq g + 1 - g_last g < 2 ^ 16 ->
  hon_at (i <| drv_mb_seq := u16 (drv_mb_seq i + 1) |>) (g <| g_seq := g_seq g + 1 |>) T (set_info (i <| drv_mb_seq := u16 (drv_mb_seq i + 1) |>) h).
Proof.
  intros [Hi Ha Hh Hs Ho Hf Hdr Hl Hb Hp Hw He Hd] Np Hlt. constructor; try done; mcp_cbn.
  - simpl. by rewrite Hs, u16_succ.
  - simpl. lia.
  - intros a e p Hx Hq. specialize (He a e p Hx Hq). rewrite (Np _ _ Hx) in *. exact He.
Qed.

Lemma lor_low c n : Z.land c 0xffff = 0 -> Z.land (Z.lor c (u16 n)) 0xffff = u16 n.
Proof.
  intros Hc. change 0xffff with (Z.ones 16) in *. rewrite Z.land_lor_distr_l, Hc, Z.lor_0_l, Z.land_ones by lia.
  apply Z.mod_small, u16_bound.
Qed.

(** A command is written and listed. *)
Lemma hon_sent i g T h b tid th a p rq i' :
  hon_at i g T h -> mcp_inv_at i (elems h) (frames h) T -> no_elems_pending h -> g_seq g + 1 - g_last g < 2 ^ 16 ->
  T !! tid = Some th -> t_pc th = Occupied -> frames h !! tid = Some p ->
  bus_step (bus h) b -> own_reg b MISCS_REG_GENERIC_POR_0 = own_reg (bus h) MISCS_REG_GENERIC_POR_0 ->
  own_reg b (A + fw_mb_header) = own_reg (bus h) (A + fw_mb_header) ->
  request_of p (g_seq g + 1) = Some rq -> request_at b = rq ->
  drv_mb_addr i' = drv_mb_addr i -> mcp_hist i' = mcp_hist i -> drv_mb_seq i' = u16 (drv_mb_seq i + 1) ->
  hon_at i' (note_step tid Occupied (Responding a) g) (<[tid := mk_thread (t_ptt th) (t_max th) (t_cnt th) (Responding a)]> T)
    (set_bus b (set_info i' (h <| elems := <[a := mk_cmd_elem tid (drv_mb_seq i') false]> (elems h) |>))).
Proof.
  intros Ho I Np Hlt HT Hpc Hp S Po Fw Erq Rq E1 E2 E3. assert (Hdone := ho_done _ _ _ _ Ho). assert (He := ho_elems _ _ _ _ Ho).
  destruct Ho as [Hi Ha Hh Hs Ho Hf Hdr Hl Hb Hpt Hw _ _]. constructor; try done; mcp_cbn.
  - congruence.
  - congruence.
  - simpl. by rewrite E3, Hs, u16_succ.
  - simpl. lia.
  - simpl. congruence.
  - simpl. intros _. rewrite <- Rq in Erq. unfold request_of in Erq. destruct (union_of p); [|done]. injection Erq as E _ _. unfold own_reg in E |- *. rewrite <- E.
    apply lor_low. by eapply Hw.
  - apply S.
  - intros x y Hy. rewrite (bs_held _ _ S). apply lookup_insert_Some in Hy as [[<- <-]|[_ Hy]]; [exact (Hpt _ _ HT)|by eapply Hpt].
  - intros x e q Hx Hq. apply lookup_insert_Some in Hx as [[<- <-]|[Hne Hx]]; simpl in *.
    + rewrite Hp in Hq. injection Hq as <-. unfold sent_ok. simpl. split; [by rewrite lookup_insert_eq|]. split; [done|]. exists rq. split; [done|].
      split; [done|]. simpl. lia.
    + specialize (He x e q Hx Hq). rewrite (Np _ _ Hx) in *. destruct He as (n & rq' & rp & Sn & R). exists n, rq', rp. split; [|exact R].
      simpl. rewrite lookup_insert_ne; [done|]. intros Eo. destruct (mi_elem _ _ _ _ I _ _ Hx) as (th' & HT' & Hown).
      rewrite <- Eo, HT in HT'. injection HT' as <-. destruct Hown; congruence.
  - intros x y q Hy Hq Hr. apply lookup_insert_Some in Hy as [[<- <-]|[Hne Hy]]; [done|].
    destruct (Hdone x y q Hy Hq Hr) as (n & rq' & rp & Sn & R). exists n, rq', rp. split; [|exact R]. simpl. by rewrite lookup_insert_ne.
Qed.

Lemma none_pending_all i T h : mcp_inv_at i (elems h) (frames h) T -> none_pending (elems h) i -> no_elems_pending h.
Proof. intros I Np a e Ha. apply (Np a e); [|done]. apply (mi_list _ _ _ _ I). by rewrite Ha. Qed.

Lemma send_hon t tid alloc i g T h mx cnt p :
  hon_at i g T h -> fn_ok i T h -> none_pending (elems h) i -> T !! tid = Some (mk_thread t mx cnt Occupied) -> frames h !! tid = Some p ->
  g_seq g + 1 - g_last g < 2 ^ 16 ->
  exists pc h' i', send t tid alloc h = Some (pc, h') /\ hon_at i' (note_step tid Occupied pc g) (<[tid := mk_thread t mx cnt pc]> T) h'.
Proof.
  intros Ho (Hn & Hi & I) Np HT Hp Hlt. assert (Ok := ho_bus _ _ _ _ Ho). assert (Ht := ho_ptt _ _ _ _ Ho _ _ HT). simpl in Ht.
  unfold send, qed_mcp_reread_offsets. destruct (rd_hon t MISCS_REG_GENERIC_POR_0 h Ok Ht (proj1 (mb_por _ MB))) as (b1 & -> & S1).
  mcp_cbn. rewrite Hi. mcp_cbn. rewrite (ho_hist _ _ _ _ Ho), Z.eqb_refl. mcp_cbn. rewrite Hi. mcp_cbn.
  apply (hon_agree _ _ _ _ b1) in Ho; [|by apply same_regs_agree].
  assert (Npe : no_elems_pending (set_bus b1 h)) by (by eapply none_pending_all).
  destruct alloc as [a|]; cbn [qed_mcp_cmd_add_elem]; mcp_cbn.
  - destruct (union_of_total p (mi_params _ _ _ _ I _ _ Hp)) as [u Eu]; [by eapply (mi_sizes _ _ _ _ I)|].
    set (i' := i <| drv_mb_seq := u16 (drv_mb_seq i + 1) |> <| cmd_list := a :: cmd_list (i <| drv_mb_seq := u16 (drv_mb_seq i + 1) |>) |>).
    match goal with |- context [__qed_mcp_cmd_and_union t tid ?n ?x] =>
      destruct (post_hon t tid n x i' p u) as (b2 & E & S2 & Po & Fw & Rq);
        [done|apply Ho|apply S1|simpl; by rewrite (bs_held _ _ (proj1 S1))|done|by eapply (ho_words _ _ _ _ Ho)|by eapply (mi_params _ _ _ _ I)|done|apply u16_bound|rewrite E] end.
    mcp_cbn. eexists _, _, i'. split; [reflexivity|]. refine (hon_sent i g T (set_bus b1 h) b2 tid (mk_thread t mx cnt Occupied) a p _ i' Ho I Npe Hlt HT eq_refl Hp S2 Po Fw _ Rq eq_refl eq_refl eq_refl).
    unfold request_of. rewrite Eu. simpl. by rewrite (ho_seq _ _ _ _ Ho), u16_succ.
  - eexists _, _, _. split; [reflexivity|]. simpl. eapply hon_thread; [|done|done|done]. by apply hon_seq.
Qed.

(** The look at the mailbox. *)
Lemma poll_hon t i g T h a l e :
  hon_at i g T h -> fn_ok i T h -> t ∈ bus_held (bus h) -> cmd_list i = a :: l -> elems h !! a = Some e -> b_is_completed e = false ->
  exists rc h', qed_mcp_update_pending_cmd t h = Some (rc, h') /\ hon_at i g T h' /\
    (rc = - EAGAIN \/ rc = 0 /\ fn_ok i T h' /\ none_pending (elems h') i).
Proof.
  intros Ho O Ht Hl He Hc. assert (I := proj2 (proj2 O)). destruct (elem_frame _ _ _ _ _ _ I He) as (th & p & HT & Hown & Hp & Pok).
  destruct (mi_sizes _ _ _ _ I _ _ _ HT Hp (owns_not_returned _ _ Hown)) as [_ Hsz].
  destruct (poll_pending t i T h a l e O Hl He Hc) as (rc & h' & E & R).
  destruct (update_hon t i g T h a l e p Ho I Ht Hl He Hc Hp Hsz) as (b & S & [E'|(p' & E' & An & Aw)]); rewrite E in E'; injection E' as -> ->.
  - eexists _, _. split; [exact E|]. split; [by apply hon_agree; [|apply same_regs_agree]|by left].
  - eexists _, _. split; [exact E|]. split; [|right; destruct R as [[? _]|(_ & O' & Np & _)]; [done|by split]].
    refine (hon_agree _ _ _ (h <| frames := <[p_mb_params e := p']> (frames h) |> <| elems := <[a := e <| b_is_completed := true |>]> (elems h) |>) b _ _); [by eapply hon_answer|by apply same_regs_agree].
Qed.

Lemma occupied_hon tid alloc i g T h t mx cnt :
  hon_at i g T h -> fn_ok i T h -> T !! tid = Some (mk_thread t mx cnt Occupied) -> g_seq g + 1 - g_last g < 2 ^ 16 ->
  exists pc cnt' h' i', occupied_iter t tid mx cnt alloc h = Some (pc, cnt', h') /\
    hon_at i' (note_step tid Occupied pc g) (<[tid := mk_thread t mx cnt' pc]> T) h'.
Proof.
  intros Ho O HT Hlt. assert (Ht := ho_ptt _ _ _ _ Ho _ _ HT). simpl in Ht. assert (I := proj2 (proj2 O)).
  destruct (mi_count _ _ _ _ I _ _ HT) as [Hcnt Hmx]. simpl in Hcnt, Hmx.
  assert (go : forall h1, hon_at i g T h1 -> fn_ok i T h1 -> none_pending (elems h1) i ->
    exists pc h' i', ('(pc, h) ← send t tid alloc h1; Some (pc, cnt, h)) = Some (pc, cnt, h') /\
      hon_at i' (note_step tid Occupied pc g) (<[tid := mk_thread t mx cnt pc]> T) h').
  { intros h1 Ho1 O1 Np. destruct (proj2 (mi_frames _ _ _ _ (proj2 (proj2 O1)) tid)) as [p Hp]; [by rewrite HT|].
    destruct (send_hon t tid alloc i g T h1 mx cnt p Ho1 O1 Np HT Hp Hlt) as (pc & h' & i' & -> & Ho'). by eexists _, _, _. }
  unfold occupied_iter, qed_mcp_has_pending_cmd. rewrite (ho_info _ _ _ _ Ho). mcp_cbn.
  assert (Leb : (mx <=? cnt) = false) by (apply Z.leb_gt; lia).
  destruct (cmd_list i) as [|a l] eqn:Hl; mcp_cbn; [simpl (_ =? _); cbn match|].
  { rewrite Leb. destruct (go h Ho O) as (pc & h' & i' & E & Ho'); [intros a e Ha; rewrite Hl in Ha; by apply elem_of_nil in Ha|]. by eexists _, _, _, _. }
  destruct (proj1 (mi_list _ _ _ _ I a)) as [e He]; [rewrite Hl; by left|]. rewrite He. mcp_cbn. destruct (b_is_completed e) eqn:Hc; cbn [negb]; mcp_cbn.
  { simpl (_ =? _). cbn match. rewrite Leb. destruct (go h Ho O) as (pc & h' & i' & E & Ho'); [|by eexists _, _, _, _].
    intros x ex Hx Hex. destruct (b_is_completed ex) eqn:Hcx; [done|]. apply list_elem_of_lookup in Hx as [k Hk].
    destruct (mi_pending _ _ _ _ I k x ex Hk Hex Hcx) as [-> _]. rewrite Hl in Hk. injection Hk as ->. congruence. }
  destruct (poll_hon t i g T h a l e Ho O Ht Hl He Hc) as (rc & h1 & -> & Ho1 & R). mcp_cbn. destruct R as [->|(-> & O1 & Np)]; simpl (_ =? _); cbn match.
  - cbn [negb]. eexists _, _, _, i. split; [reflexivity|]. destruct (_ <? _); simpl; by eapply hon_thread.
  - rewrite Leb. destruct (go h1 Ho1 O1 Np) as (pc & h' & i' & E & Ho'). by eexists _, _, _, _.
Qed.

(** The response is collected. *)
Lemma hon_collect i g T h tid th a e p :
  hon_at i g T h -> mcp_inv_at i (elems h) (frames h) T -> T !! tid = Some th -> elems h !! a = Some e -> p_mb_params e = tid ->
  b_is_completed e = true -> frames h !! tid = Some p ->
  hon_at i g (<[tid := mk_thread (t_ptt th) (t_max th) (t_cnt th) (Returned 0)]> T)
    (h <| elems := delete a (elems h) |> <| frames := <[tid := p <| mcp_resp := Z.land (mcp_resp p) FW_MSG_CODE_MASK |>]> (frames h) |>).
Proof.
  intros Ho I HT He Hown Hc Hp. pose proof (ho_elems _ _ _ _ Ho a e p He) as Aw. rewrite Hown, Hc in Aw. specialize (Aw Hp).
  destruct Ho as [Hi Ha Hh Hs Ho Hf Hdr Hl Hb Hpt Hw Hel Hd]. constructor; try done; mcp_cbn.
  - intros x y Hy. apply lookup_insert_Some in Hy as [[<- <-]|[_ Hy]]; [exact (Hpt _ _ HT)|by eapply Hpt].
  - intros x q Hq. apply lookup_insert_Some in Hq as [[<- <-]|[_ Hq]]; [|by eapply Hw]. exact (Hw _ _ Hp).
  - intros x ex q Hx Hq. apply lookup_delete_Some in Hx as [Hne Hx]. rewrite lookup_insert_ne in Hq; [by apply (Hel x)|].
    intros Eo. apply Hne. destruct (mi_elem _ _ _ _ I _ _ He) as (t1 & HT1 & Ho1). destruct (mi_elem _ _ _ _ I _ _ Hx) as (t2 & HT2 & Ho2).
    rewrite Hown in HT1. rewrite <- Eo, HT1 in HT2. injection HT2 as <-. by eapply owns_same.
  - intros x y q Hy Hq Hr. apply lookup_insert_Some in Hy as [[<- <-]|[Hne Hy]].
    + rewrite lookup_insert_eq in Hq. injection Hq as <-. destruct Aw as (n & rq & rp & Sn & Rq & Lg & (G1 & G2 & G3)). exists n, rq, rp.
      split_and!; [done|done|done|]. split; [simpl; by rewrite G1|done].
    + rewrite lookup_insert_ne in Hq by done. by eapply Hd.
Qed.

Lemma responding_hon tid i g T h t mx cnt a :
  hon_at i g T h -> fn_ok i T h -> T !! tid = Some (mk_thread t mx cnt (Responding a)) ->
  exists pc cnt' h' i', responding_iter t tid a mx cnt h = Some (pc, cnt', h') /\ hon_at i' g (<[tid := mk_thread t mx cnt' pc]> T) h'.
Proof.
  intros Ho O HT. assert (Ht := ho_ptt _ _ _ _ Ho _ _ HT). simpl in Ht. assert (I := proj2 (proj2 O)).
  destruct (mi_count _ _ _ _ I _ _ HT) as [Hcnt Hmx]. simpl in Hcnt, Hmx.
  assert (Hown : owns (mk_thread t mx cnt (Responding a)) a) by (by left).
  destruct (mi_owner _ _ _ _ I _ _ _ HT Hown) as (e & He & Hpe). unfold responding_iter. rewrite He. mcp_cbn.
  assert (R : exists rc h1, (if b_is_completed e then Some (0, h) else qed_mcp_update_pending_cmd t h) = Some (rc, h1) /\ hon_at i g T h1 /\
    (rc = - EAGAIN \/ rc = 0 /\ fn_ok i T h1 /\ exists e1, elems h1 !! a = Some e1 /\ p_mb_params e1 = tid /\ b_is_completed e1 = true)).
  { destruct (b_is_completed e) eqn:Hc; [exists 0, h; split; [done|]; split; [done|]; right; split; [done|]; split; [done|]; by exists e|].
    assert (Hin : a ∈ cmd_list i) by (apply (mi_list _ _ _ _ I); by rewrite He). apply list_elem_of_lookup in Hin as [k Hk].
    destruct (mi_pending _ _ _ _ I k a e Hk He Hc) as [-> _]. destruct (cmd_list i) as [|a0 l] eqn:Hl; [done|]. injection Hk as ->.
    destruct (poll_hon t i g T h a l e Ho O Ht Hl He Hc) as (rc & h1 & -> & Ho1 & R). exists rc, h1. split; [done|]. split; [done|].
    destruct R as [R|(-> & O1 & Np)]; [by left|]. right. split; [done|]. split; [done|].
    destruct (mi_owner _ _ _ _ (proj2 (proj2 O1)) _ _ _ HT Hown) as (e1 & He1 & Hp1). exists e1. split; [done|]. split; [done|].
    apply (Np a); [rewrite Hl; by left|done]. }
  destruct R as (rc & h1 & -> & Ho1 & R). mcp_cbn. destruct R as [->|(-> & O1 & e1 & He1 & Hp1 & Hc1)]; simpl (_ =? _); cbn match.
  - cbn [negb]. eexists _, _, _, i. split; [reflexivity|]. eapply hon_thread; [done|done|done|]. simpl. by destruct (_ <? _).
  - rewrite (proj2 (Z.leb_gt _ _)) by lia. rewrite (del_elem_safe tid i T h1 _ a O1 HT Hown). mcp_cbn.
    destruct (proj2 (mi_frames _ _ _ _ (proj2 (proj2 O1)) tid)) as [p Hp]; [by rewrite HT|]. rewrite Hp. mcp_cbn.
    eexists _, _, _, (i <| cmd_list := filter (fun x => x <> a) (cmd_list i) |>). split; [reflexivity|].
    pose proof (hon_collect i g T h1 tid (mk_thread t mx cnt (Responding a)) a e1 p Ho1 (proj2 (proj2 O1)) HT He1 Hp1 Hc1 Hp) as Ho2.
    by apply (hon_info _ (i <| cmd_list := filter (fun x => x <> a) (cmd_list i) |>)) in Ho2.
Qed.

Lemma expired_hon tid i g T h t mx cnt a :
  hon_at i g T h -> fn_ok i T h -> T !! tid = Some (mk_thread t mx cnt (Expired a)) ->
  exists h' i', expired_part t a h = Some h' /\ hon_at i' g (<[tid := mk_thread t mx cnt Unresponsive]> T) h'.
Proof.
  intros Ho O HT. assert (Ht := ho_ptt _ _ _ _ Ho _ _ HT). simpl in Ht. assert (Ok := ho_bus _ _ _ _ Ho).
  destruct (mb_cpu _ MB) as (Pm & Ps & Pc). assert (E : exists b, qed_mcp_print_cpu_info t h = set_bus b h /\ same_regs (bus h) b).
  { unfold qed_mcp_print_cpu_info.
    destruct (rd_hon t MCP_REG_CPU_MODE h Ok Ht Pm) as (b1 & -> & S1).
    destruct (rd_hon t MCP_REG_CPU_STATE (set_bus b1 h) (bs_ok _ _ (proj1 S1)) ltac:(simpl; by rewrite (bs_held _ _ (proj1 S1))) Ps) as (b2 & -> & S2).
    assert (S12 := same_regs_trans _ _ _ S1 S2).
    destruct (rd_hon t MCP_REG_CPU_PROGRAM_COUNTER (set_bus b2 (set_bus b1 h)) (bs_ok _ _ (proj1 S12)) ltac:(simpl; by rewrite (bs_held _ _ (proj1 S12))) Pc) as (b3 & -> & S3).
    assert (S13 := same_regs_trans _ _ _ S12 S3).
    destruct (rd_hon t MCP_REG_CPU_PROGRAM_COUNTER (set_bus b3 h) (bs_ok _ _ (proj1 S13)) ltac:(simpl; by rewrite (bs_held _ _ (proj1 S13))) Pc) as (b4 & E4 & S4).
    change (set_bus b3 (set_bus b2 (set_bus b1 h))) with (set_bus b3 h). rewrite E4. assert (S14 := same_regs_trans _ _ _ S13 S4).
    destruct (rd_hon t MCP_REG_CPU_PROGRAM_COUNTER (set_bus b4 (set_bus b3 h)) (bs_ok _ _ (proj1 S14)) ltac:(simpl; by rewrite (bs_held _ _ (proj1 S14))) Pc) as (b5 & -> & S5).
    exists b5. split; [done|]. exact (same_regs_trans _ _ _ S14 S5). }
  unfold expired_part. destruct E as (b & -> & S). apply (fn_ok_bus _ _ _ b) in O.
  rewrite (del_elem_safe tid i T _ _ a O HT ltac:(by right)). eexists _, (i <| cmd_list := filter (fun x => x <> a) (cmd_list i) |>). split; [reflexivity|].
  assert (Ho1 : hon_at i g T (set_bus b h)) by (by apply hon_agree; [|apply same_regs_agree]).
  apply (hon_delete i g T (set_bus b h) a) in Ho1.
  apply (hon_info _ (i <| cmd_list := filter (fun x => x <> a) (cmd_list i) |>)) in Ho1; [|done..].
  by eapply hon_thread; [exact Ho1|..].
Qed.

Lemma unresponsive_hon tid i g T h t mx cnt :
  hon_at i g T h -> fn_ok i T h -> T !! tid = Some (mk_thread t mx cnt Unresponsive) ->
  exists h' i', unresponsive_part tid h = Some h' /\ hon_at i' g (<[tid := mk_thread t mx cnt (Returned (- EAGAIN))]> T) h'.
Proof.
  intros Ho (Hn & Hi & I) HT. unfold unresponsive_part. destruct (proj2 (mi_frames _ _ _ _ I tid)) as [p Hp]; [by rewrite HT|].
  rewrite Hp. mcp_cbn. unfold qed_mcp_cmd_set_blocking. rewrite Hi. mcp_cbn.
  eapply (hon_thread i g T h tid _ (mk_thread t mx cnt (Returned (- EAGAIN)))) in Ho; [|done|done|done].
  assert (K : forall i' h', hon_at i' g (<[tid := mk_thread t mx cnt (Returned (- EAGAIN))]> T) h' ->
    hon_at i' g (<[tid := mk_thread t mx cnt (Returned (- EAGAIN))]> T) (mfw_err_notify h')).
  { intros i' h' []. unfold mfw_err_notify. destruct (recov_in_prog h'); by constructor. }
  destruct (QED_MB_FLAGS_IS_SET _ _); mcp_cbn.
  - eexists _, i. split; [reflexivity|]. by apply K.
  - eexists _, (i <| b_block_cmd := true |>). split; [reflexivity|]. apply K. by apply (hon_info i).
Qed.

Lemma step_hon tid alloc i g T h th :
  hon_at i g T h -> fn_ok i T h -> T !! tid = Some th -> returned th = false -> g_seq g + 1 - g_last g < 2 ^ 16 ->
  exists th' h' i', thread_step tid alloc th h = Some (th', h') /\ hon_at i' (note_step tid (t_pc th) (t_pc th') g) (<[tid := th']> T) h'.
Proof.
  intros Ho O HT Hr Hlt. destruct th as [t mx cnt pc]. destruct pc as [|a|a| |rc]; [| | | |done]; cbn [thread_step].
  - destruct (occupied_hon tid alloc i g T h t mx cnt Ho O HT Hlt) as (pc & cnt' & h' & i' & -> & Ho'). by eexists _, _, _.
  - destruct (responding_hon tid i g T h t mx cnt a Ho O HT) as (pc & cnt' & h' & i' & -> & Ho'). by eexists _, _, _.
  - destruct (expired_hon tid i g T h t mx cnt a Ho O HT) as (h' & i' & -> & Ho'). by eexists _, _, _.
  - destruct (unresponsive_hon tid i g T h t mx cnt Ho O HT) as (h' & i' & -> & Ho'). by eexists _, _, _.
Qed.

(** ** The firmware and the callers *)

Lemma hon_enter i g T h tid t p :
  hon_at i g T h -> T !! tid = None -> mcp_inv_at i (elems h) (frames h) T -> t ∈ bus_held (bus h) -> words_ok p ->
  hon_at i g (<[tid := call_enter t p h]> T) (h <| frames := <[tid := p]> (frames h) |>).
Proof.
  intros [Hi Ha Hh Hs Ho Hf Hdr Hl Hb Hp Hw He Hd] Hn I Ht Hwp. constructor; try done; mcp_cbn.
  - intros x y Hy. apply lookup_insert_Some in Hy as [[<- <-]|[_ Hy]]; [|by eapply Hp].
    by destruct (enter_shape t p h) as [(rc & _ & ->) | ->].
  - intros x q Hq. apply lookup_insert_Some in Hq as [[<- <-]|[_ Hq]]; [done|by eapply Hw].
  - intros a e q Hx Hq. rewrite lookup_insert_ne in Hq; [by apply (He a)|]. intros ->.
    destruct (mi_elem _ _ _ _ I _ _ Hx) as (th & HT & _). congruence.
  - intros x y q Hy Hq Hr. apply lookup_insert_Some in Hy as [[<- <-]|[Hne Hy]].
    + by destruct (enter_shape t p h) as [(rc & Hrc & E) | E]; rewrite E in Hr; [injection Hr|].
    + rewrite lookup_insert_ne in Hq by done. by eapply Hd.
Qed.

Lemma hon_leave i g T h tid th :
  hon_at i g T h -> mcp_inv_at i (elems h) (frames h) T -> T !! tid = Some th -> returned th = true ->
  hon_at i g (delete tid T) (h <| frames := delete tid (frames h) |>).
Proof.
  intros [Hi Ha Hh Hs Ho Hf Hdr Hl Hb Hp Hw He Hd] I HT Hr. constructor; try done; mcp_cbn.
  - intros x y Hy. apply lookup_delete_Some in Hy as [_ Hy]. by eapply Hp.
  - intros x q Hq. apply lookup_delete_Some in Hq as [_ Hq]. by eapply Hw.
  - intros a e q Hx Hq. apply lookup_delete_Some in Hq as [_ Hq]. by apply (He a).
  - intros x y q Hy Hq. apply lookup_delete_Some in Hq as [_ Hq]. apply lookup_delete_Some in Hy as [_ Hy]. by eapply Hd.
Qed.

(** The firmware answers; if no element is pending, the answer goes to nobody. *)
Lemma hon_reply i g T h b :
  hon_at i g T h -> bus_step (bus h) b -> own_reg b MISCS_REG_GENERIC_POR_0 = own_reg (bus h) MISCS_REG_GENERIC_POR_0 ->
  g_last g < g_sent g -> Z.land (own_reg b (A + fw_mb_header)) 0xffff = Z.land (own_reg (bus h) (A + drv_mb_header)) 0xffff ->
  hon_at i (g <| g_last := g_sent g |> <| g_log := <[g_sent g := (request_at (bus h), reply_at b)]> (g_log g) |>) T (set_bus b h).
Proof.
  intros [Hi Ha Hh Hs Ho Hf Hdr Hl Hb Hp Hw He Hd] S Po Hlt Hfw.
  assert (old : forall n x, g_log g !! n = Some x -> <[g_sent g := (request_at (bus h), reply_at b)]> (g_log g) !! n = Some x).
  { intros n x Hn. rewrite lookup_insert_ne; [done|]. intros <-. apply Hl in Hn. lia. }
  constructor; try done; mcp_cbn.
  - by rewrite Po.
  - simpl. lia.
  - simpl. by rewrite Hfw, Hdr.
  - simpl. lia.
  - simpl. intros n x Hn. apply lookup_insert_Some in Hn as [[<- _]|[_ Hn]]; [lia|]. apply Hl in Hn. lia.
  - apply S.
  - intros tid th HT. rewrite (bs_held _ _ S). by eapply Hp.
  - intros a e p Hx Hq. specialize (He a e p Hx Hq). destruct (b_is_completed e).
    + destruct He as (n & rq & rp & Sn & Rq & Lg & G). exists n, rq, rp. split_and!; [done|done|by apply old|done].
    + destruct He as (Sn & Sq & rq & Rq & Lt & _). split; [done|]. split; [done|]. exists rq. split; [done|]. simpl. split; [lia|].
      intros _. by rewrite lookup_insert_eq, (Lt Hlt).
  - intros tid th p HT Hq Hr. destruct (Hd tid th p HT Hq Hr) as (n & rq & rp & Sn & Rq & Lg & G). exists n, rq, rp. split_and!; [done|done|by apply old|done].
Qed.

(** ** Runs *)

Definition mfw_inv (z : mfw_sys) : Prop :=
  exists i, fn_ok i (y_threads (x_s z)) (y_h (x_s z)) /\ hon_at i (x_g z) (y_threads (x_s z)) (y_h (x_s z)).

Lemma exec_hon x z : mfw_inv z -> mfw_allowed x z -> exists z', mfw_exec x z = Some z' /\ mfw_inv z'.
Proof.
  destruct z as [[h T] g]. intros (i & O & Ho) Al. assert (I := proj2 (proj2 O)). destruct x as [o|b|b]; cbn [mfw_allowed mfw_exec x_s x_g y_h y_threads] in *.
  - destruct Al as [Al Ex]. destruct (exec_safe o _ (fn_ok_inv _ _ _ O) Al) as ([h' T'] & E & (Hn' & i' & Hi' & I')). cbn [y_h y_threads] in *.
    rewrite E. cbn [mbind option_bind]. eexists. split; [reflexivity|]. exists i'. cbn [x_s x_g y_h y_threads]. split; [done|].
    destruct o as [tid t p|tid alloc|tid|b|halt]; cbn [mcp_exec mcp_allowed y_threads y_h] in *.
    + destruct Ex as [Ht Hw]. destruct Al as [Hn Hp]. injection E as <- <-. cbn in Hi'. rewrite (ho_info _ _ _ _ Ho) in Hi'. injection Hi' as <-. by apply hon_enter.
    + destruct Al as [(th & HT & Hr) Ha]. rewrite HT in E |- *. cbn [mbind option_bind] in E.
      destruct (step_hon tid alloc i g T h th Ho O HT Hr Ex) as (th1 & h1 & i1 & Es & Ho1). rewrite Es in E. cbn in E. injection E as <- <-.
      rewrite lookup_insert_eq. assert (i1 = i') as -> by (pose proof (ho_info _ _ _ _ Ho1); congruence). done.
    + destruct Al as (th & HT & Hr). injection E as <- <-. cbn in Hi'. rewrite (ho_info _ _ _ _ Ho) in Hi'. injection Hi' as <-. by eapply hon_leave.
    + done.
    + unfold qed_mcp_cmd_set_halt in E. rewrite (ho_info _ _ _ _ Ho) in E. cbn in E. injection E as <- <-. cbn in Hi'. injection Hi' as <-. by apply (hon_info i).
  - eexists. split; [reflexivity|]. exists i. split; [done|]. by apply hon_agree.
  - eexists. split; [reflexivity|]. exists i. split; [done|]. destruct Al as (S & Po & Hlt & Hfw). by apply hon_reply.
Qed.

Lemma run_hon xs z : mfw_inv z -> mfw_allowed_all xs z -> exists z', mfw_exec_all xs z = Some z' /\ mfw_inv z'.
Proof.
  revert z. induction xs as [|x xs IH]; intros z I Al; [by exists z|]. destruct Al as [Al Rest].
  destruct (exec_hon x z I Al) as (z1 & E & I1). simpl. rewrite E in Rest |- *. cbn. by apply IH.
Qed.
End Honest.
