(* ===== verification/McpPtt.v ===== *)
(** * The PTT layer implements the block copies of the mailbox

    [qed_memcpy_to] and [qed_memcpy_from] of Ptt.v over an entry of the pool, as an
    instance of [RegCopy]; the theorems of PttProps.v discharge [RegCopyLaws]. *)

From S2P Require Import Prelude Ptt PttProps Llh RegBusPtt Mcp McpRun.

Section Copy.
Context {D : Type} `{PxpDevice D} `{!PxpDeviceLaws D} `{Dmae D}.
Context (chk : bool) (world : nat -> list nat -> list nat).
#[local] Existing Instance ptt_bus.
#[local] Instance the_bus : RegBus (pbus D) := ptt_bus chk world.

(** A copy that would fault leaves everything as it is. *)
Definition copy_to (a : Z) (ws : list Z) (p : qed_ptt) (d : D) : unit * qed_ptt * D :=
  match qed_memcpy_to true a (Some ws) (4 * Z.of_nat (length ws)) p d with Some (p, d) => (tt, p, d) | None => (tt, p, d) end.
Definition copy_from (a n : Z) (p : qed_ptt) (d : D) : list Z * qed_ptt * D :=
  let zeros := replicate (Z.to_nat (n / 4)) 0 in
  match qed_memcpy_from true (Some zeros) a n p d with Some (Some ws, p, d) => (ws, p, d) | _ => (zeros, p, d) end.

#[local] Instance ptt_copy : RegCopy (pbus D) := {|
  bus_memcpy_to t a ws b := snd (on_ptt t tt (copy_to a ws) b);
  bus_memcpy_from t a n b := on_ptt t (replicate (Z.to_nat (n / 4)) 0) (copy_from a n) b;
  bus_bar_rd a b := reg_rd a (pb_dev b)
|}.

Lemma length_rd_seq bar n (d : D) : length (reg_rd_seq bar n d) = n.
Proof. revert bar. induction n as [|n IH]; intros bar; [done|]. simpl. by rewrite IH. Qed.

Lemma memcpy_loop_length fuel is_pf action hw_addr n dn host t (d : D) host' t' d' :
  memcpy_loop fuel is_pf action hw_addr n dn host t d = Some (host', t', d') -> length host' = length host.
Proof.
  revert dn host t d. induction fuel as [|fuel IH]; intros dn host t d; simpl; (destruct (n <=? dn); [by intros [= <- _ _]|]); [done|].
  set (step := if is_pf then _ else _). destruct step as [[off t1] d1]. destruct action.
  - destruct (_ <? _)%nat; [done|]. apply IH.
  - destruct (_ <? _)%nat eqn:El; [done|]. intros E. apply IH in E. rewrite E. apply Nat.ltb_ge in El.
    apply length_host_store. by rewrite length_rd_seq.
  - apply IH.
Qed.

#[local] Instance ptt_copy_size : RegCopySize (pbus D).
Proof.
  intros t a n b. cbn [bus_memcpy_from ptt_copy]. unfold on_ptt. destruct (ptts (pb_pool b) !! t) as [p|]; [|apply length_replicate].
  unfold copy_from, qed_memcpy_from, qed_memcpy_hw.
  destruct (memcpy_loop _ _ _ _ _ _ _ _ _) as [[[ws p'] d']|] eqn:E; simpl; [|apply length_replicate].
  apply memcpy_loop_length in E. by rewrite E, length_replicate.
Qed.

(** Plain registers are a block the copies can reach. *)
Lemma plain_block a n : 0 < n ->
  (forall k, (k < Z.to_nat ((n + 3) / 4))%nat -> bus_plain (B := pbus D) (a + 4 * Z.of_nat k)) -> block_ok (D := D) a n.
Proof.
  intros Hn Hp. set (m := Z.to_nat ((n + 3) / 4)) in *.
  assert (Hm : n <= 4 * Z.of_nat m /\ 0 < Z.of_nat m) by (unfold m; Z.to_euclidean_division_equations; lia).
  destruct (Hp 0%nat ltac:(lia)) as [[G0 G1] _]. destruct (Hp (m - 1)%nat ltac:(lia)) as [[G2 G3] _]. rewrite Z.add_0_r in G0, G1.
  split; [lia|]. split; [done|]. split; [lia|]. split.
  - unfold PXP_PTT_ENTRY_OFFSET_MASK in *. clear Hp. Z.to_euclidean_division_equations. lia.
  - intros k Hk. destruct (Hp (Z.to_nat k)) as [_ Pl]; [pose proof (Z.div_le_mono n (n + 3) 4); unfold m; lia|]. by rewrite Z2Nat.id in Pl by lia.
Qed.

Lemma read_regs_map a n v (r : Z -> Z -> Z) :
  read_regs a n v r = (fun k => r (dev_copy (a + 4 * Z.of_nat k) v) (a + 4 * Z.of_nat k)) <$> seq 0 n.
Proof.
  revert a. induction n as [|n IH]; intros a; [done|]. simpl. rewrite Z.add_0_r. f_equal. rewrite IH, <- fmap_S_seq, <- list_fmap_compose.
  apply list_fmap_ext. intros k x _. unfold compose. by replace (a + 4 * Z.of_nat (S x)) with (a + 4 + 4 * Z.of_nat x) by lia.
Qed.

Lemma dw_at_lookup a ws k w : ws !! k = Some w -> dw_at a ws (a + 4 * Z.of_nat k) = Some w.
Proof.
  revert a k. induction ws as [|x ws IH]; intros a k Hk; [done|]. destruct k as [|k]; simpl.
  - injection Hk as ->. by rewrite decide_True by lia.
  - rewrite decide_False by lia. rewrite <- (IH (a + 4) k Hk). f_equal. lia.
Qed.
Lemma dw_at_none a ws x : (forall k, (k < length ws)%nat -> x <> a + 4 * Z.of_nat k) -> dw_at a ws x = None.
Proof.
  revert a. induction ws as [|w ws IH]; intros a Hx; [done|]. simpl. rewrite decide_False by (specialize (Hx 0%nat); simpl in Hx; lia).
  apply IH. intros k Hk. specialize (Hx (S k)). simpl in Hx. lia.
Qed.

Lemma ptt_copy_laws : RegCopyLaws (pbus D).
Proof.
  constructor.
  - intros b t a ws Hok Ht Hne Hws. destruct (held_entry chk world b t Hok Ht) as (p & Ep & Ei & Co & Hw & Vw).
    set (n := 4 * Z.of_nat (length ws)). assert (Hpos : (0 < length ws)%nat) by (destruct ws; [done|simpl; lia]).
    assert (Hd : dwords n = length ws) by (unfold dwords, n; rewrite (Z.mul_comm 4), Z.div_mul by lia; lia).
    assert (Hb : block_ok (D := D) a n).
    { apply plain_block; [unfold n; lia|]. intros k Hk. destruct (lookup_lt_is_Some_2 ws k) as [w Hkw]; [|by destruct (Hws k w Hkw)].
      unfold n in Hk. Z.to_euclidean_division_equations. lia. }
    destruct (memcpy_store_spec (memcpy_fuel n) TO_DEVICE a n 0 ws ws p (pb_dev b)) as (p' & d' & E & [I C V R W]);
      [left; by rewrite Hd|done|intros k w Hk; by apply (Hws k w)|done|done|by left|apply memcpy_fuel_enough; unfold n; lia|].
    change (dwords 0) with 0%nat in R. rewrite Nat.sub_0_r, drop_0, Z.add_0_r, Hd, take_ge in R by lia.
    destruct (on_ptt_ok chk world b t p tt tt (copy_to a ws) p' d') as (_ & S & Ed); [done..| |done|done|by rewrite V|intros j Hj; rewrite V; auto|].
    { unfold copy_to, qed_memcpy_to, qed_memcpy_hw. fold n. by rewrite E. }
    split; [exact S|]. assert (Own := bs_own _ _ S). split.
    + apply list_eq. intros k. unfold bus_regs. rewrite list_lookup_fmap. destruct (decide (k < length ws)%nat) as [Hk|Hk].
      * rewrite lookup_seq_lt by done. simpl. destruct (lookup_lt_is_Some_2 ws k Hk) as [w Hkw]. rewrite Hkw. f_equal.
        change (bus_own (bus_memcpy_to t a ws b)) with (pb_own (snd (on_ptt t tt (copy_to a ws) b))). simpl in Own. rewrite Own, Ed, R.
        unfold stored. by rewrite (dw_at_lookup _ _ _ _ Hkw), Vw, decide_True.
      * rewrite lookup_seq_ge by lia. symmetry. apply lookup_ge_None. lia.
    + intros f x Hx. cbn [bus_reg the_bus ptt_bus bus_memcpy_to ptt_copy]. rewrite Ed, R. unfold stored. by rewrite dw_at_none.
  - intros b t a n Hok Ht Hn Hpl. destruct (held_entry chk world b t Hok Ht) as (p & Ep & Ei & Co & Hw & Vw).
    assert (Hb := plain_block a n Hn Hpl). set (zeros := replicate (Z.to_nat (n / 4)) 0).
    assert (Lz : length zeros = dwords n) by apply length_replicate.
    destruct (memcpy_load_spec (memcpy_fuel n) a n 0 zeros p (pb_dev b)) as (p' & d' & E & [I C V R W]);
      [done|by rewrite Lz|done|lia|by left|apply memcpy_fuel_enough; lia|].
    change (dwords 0) with 0%nat in E. rewrite Nat.sub_0_r, Z.add_0_r, Vw in E.
    set (ws := read_regs a (dwords n) (mk_view (pb_own b) None) (dev_reg (pb_dev b))) in *.
    assert (Ews : host_store 0 ws zeros = ws).
    { unfold host_store. rewrite take_0. simpl. unfold ws at 2. rewrite length_read_regs, drop_ge by lia. by rewrite app_nil_r. }
    destruct (on_ptt_ok chk world b t p zeros ws (copy_from a n) p' d') as (Ef & S & Ed); [done..| |done|done|by rewrite V|intros j Hj; rewrite V; auto|].
    { unfold copy_from, qed_memcpy_from, qed_memcpy_hw. fold zeros. rewrite E. simpl. by rewrite Ews. }
    cbn [bus_memcpy_from ptt_copy]. fold zeros. destruct (on_ptt t zeros (copy_from a n) b) as [v b']. simpl in *. subst v.
    split; [exact S|]. split; [unfold ws; by rewrite read_regs_map|]. intros f x. by rewrite Ed, R.
Qed.
End Copy.
