(* ===== verification/McpClaims.v ===== *)
(** * The mailbox: properties

    What holds of every run of the mailbox, for any firmware and for one that
    answers, with runs on a simulated device. *)

From S2P Require Import Prelude Ptt PttProps Llh RegBusPtt Mcp McpRun McpSteps McpHonest McpPtt.

Section Claims.
Context {B : Type} `{RegBus B} `{RegCopy B} `{!RegCopySize B}.
Implicit Types (h : mcp_hwfn B) (s : mcp_sys B).

(** No call has begun. *)
Definition mcp_fresh s : Prop :=
  y_threads s = ∅ /\ elems (y_h s) = ∅ /\ frames (y_h s) = ∅ /\ num_ports (y_h s) <> 0 /\
  exists i, mcp_info (y_h s) = Some i /\ cmd_list i = [].

Lemma fresh_inv s : mcp_fresh s -> mcp_inv s.
Proof.
  intros (ET & EE & EF & Hn & i & Hi & El). split; [done|]. exists i. split; [done|]. rewrite ET, EE, EF.
  constructor; rewrite ?El; try done; try (by intros; exfalso; eapply lookup_empty_Some; eauto).
  - constructor.
  - intros a. rewrite lookup_empty. split; [by intros ?%elem_of_nil|by intros [? ?]].
  - intros tid. by rewrite !lookup_empty.
Qed.

(** C12: Any number of threads call the mailbox, their calls interleaved in any way
    between the regions under the lock, with any outcome of the allocations,
    whatever the registers hold and however the device changes them, also when
    the firmware restarts.  No access is to freed memory, to a frame that is
    gone or out of a buffer, and no call returns with the lock held.  At most
    one command is pending: it is the first of the list and has the current
    sequence number.  The list holds exactly the commands that calls in progress
    wait for, each once, so nothing is left when they have returned.  A call
    returns 0, -EAGAIN, -EBUSY or -ENOMEM, or -EINVAL if its data is too long:
    the error path that would leave its element in the list is never taken. *)
Theorem mcp_runs_safe os s : mcp_fresh s -> mcp_allowed_all os s ->
  exists s' i, mcp_exec_all os s = Some s' /\ mcp_info (y_h s') = Some i /\ NoDup (cmd_list i) /\
    pending_ok (elems (y_h s')) i /\
    (forall a, a ∈ cmd_list i <-> exists tid th, y_threads s' !! tid = Some th /\ owns th a) /\
    (forall tid th p rc, y_threads s' !! tid = Some th -> frames (y_h s') !! tid = Some p -> t_pc th = Returned rc -> code_ok p rc).
Proof.
  intros F Al. destruct (run_safe os s (fresh_inv s F) Al) as (s' & E & _ & i & Hi & I). exists s', i.
  split_and!; [done|done|apply I|apply I| |apply I]. intros a. rewrite (mi_list _ _ _ _ I). split.
  - intros [e He]. destruct (mi_elem _ _ _ _ I _ _ He) as (th & HT & Ho). by exists (p_mb_params e), th.
  - intros (tid & th & HT & Ho). destruct (mi_owner _ _ _ _ I _ _ _ HT Ho) as (e & -> & _). by eexists.
Qed.

(** C31: A call ends: in any run, whatever the firmware and the other threads do, a
    thread that has entered [qed_mcp_cmd_and_union] runs at most 500004 parts of
    it (603 if it may sleep) before it has returned. *)
Theorem mcp_call_returns tid t p os os0 s s' :
  mcp_fresh s -> mcp_allowed_all (os0 ++ OCall tid t p :: os) s -> (forall o, o ∈ os -> is_leave tid o = false) ->
  mcp_exec_all (os0 ++ OCall tid t p :: os) s = Some s' ->
  exists th, y_threads s' !! tid = Some th /\
    let n := Z.of_nat (length (filter (fun o => is_step tid o = true) os)) in
    n <= (if QED_MB_FLAGS_IS_SET p QED_MB_FLAG_CAN_SLEEP then 603 else 500004) /\
    (n = (if QED_MB_FLAGS_IS_SET p QED_MB_FLAG_CAN_SLEEP then 603 else 500004) -> returned th = true).
Proof.
  intros F Al Hl E. assert (I := fresh_inv s F). clear F. revert s I Al E.
  induction os0 as [|o os0 IH]; intros s I [A Rest] E; simpl in *.
  - destruct s as [h T]. destruct (exec_safe (OCall tid t p) _ I A) as (s1 & E1 & I1). cbn [mcp_exec] in E1. injection E1 as <-. cbn [mcp_exec mbind option_bind] in E, Rest.
    destruct (own_steps_bounded tid os _ (call_enter t p h) s' I1 Rest ltac:(apply lookup_insert_eq) Hl E) as (th & HT & Hc).
    exists th. split; [done|]. assert (Hs : steps_left (call_enter t p h) <= (if QED_MB_FLAGS_IS_SET p QED_MB_FLAG_CAN_SLEEP then 603 else 500004)).
    { destruct (enter_shape t p h) as [(rc & _ & ->) | ->]; unfold steps_left; simpl; destruct (QED_MB_FLAGS_IS_SET _ _); lia. }
    destruct (run_safe os _ I1 Rest) as (s2 & E2 & _ & i & _ & I2). rewrite E in E2. injection E2 as <-.
    assert (C := mi_count _ _ _ _ I2 _ _ HT). pose proof (steps_left_nonneg th C). split; [lia|]. intros En.
    assert (Z0 : steps_left th = 0) by lia. revert Z0 C. unfold steps_left, count_ok, returned. destruct (t_pc th); lia || done.
  - destruct (exec_safe o s I A) as (s2 & E1 & I1). rewrite E1 in Rest, E. by apply (IH s2).
Qed.
End Claims.

(** ** A firmware that answers *)

Section Answers.
Context {B : Type} `{RegBus B} `{!RegAccessLaws B} `{RegCopy B} `{!RegCopyLaws B} `{!RegCopySize B}.

(** No call has begun, and the last response in the mailbox has the sequence
    number the driver read. *)
Definition mcp_idle (A : Z) (z : mfw_sys (B := B)) : Prop :=
  let h := y_h (x_s z) in
  mcp_fresh (x_s z) /\ bus_ok (bus h) /\
  exists i q, mcp_info h = Some i /\ drv_mb_addr i = A /\ mcp_hist i = own_reg (bus h) MISCS_REG_GENERIC_POR_0 /\
    drv_mb_seq i = u16 q /\ Z.land (own_reg (bus h) (A + fw_mb_header)) 0xffff = u16 q /\ x_g z = mk_log q q q ∅ ∅.

Lemma idle_inv A z : mcp_idle A z -> mfw_inv A z.
Proof.
  destruct z as [[h T] g]. intros (F & Ok & i & q & Hi & Ha & Hh & Hs & Hf & Eg). simpl in *. subst g.
  destruct (fresh_inv _ F) as (Hn & i' & Hi' & I). simpl in *. rewrite Hi in Hi'. injection Hi' as <-. exists i. split; [done|].
  destruct F as (ET & EE & EF & _). simpl in *. constructor; simpl; try done.
  - lia.
  - lia.
  - intros tid th. by rewrite ET.
  - intros tid p. by rewrite EF.
  - intros a e p. by rewrite EE.
  - intros tid th p. by rewrite ET.
Qed.

(** C9: The firmware answers each command at most once, at any time after it was
    written, with its sequence number; fewer than [2^16] numbers in a row go
    unanswered.  Then a call that returns 0 has the answer to its own command:
    the firmware was asked exactly the command, parameter and data of this call
    under the call's number, and the response code, the parameter and the data
    of the answer it gave to that are what the caller finds.  This holds however
    calls interleave, time out and leave their answers behind. *)
Theorem mcp_answer_own A xs z : mailbox_at (B := B) A -> mcp_idle A z -> mfw_allowed_all A xs z ->
  exists z', mfw_exec_all A xs z = Some z' /\
    forall tid th p, y_threads (x_s z') !! tid = Some th -> t_pc th = Returned 0 -> frames (y_h (x_s z')) !! tid = Some p ->
      exists n rq rp, g_serial (x_g z') !! tid = Some n /\ request_of p n = Some rq /\ g_log (x_g z') !! n = Some (rq, rp) /\ got rp p.
Proof.
  intros MB Id Al. destruct (run_hon A MB xs z (idle_inv A z Id) Al) as (z' & E & i & _ & Ho). exists z'. split; [done|].
  intros tid th p HT Hr Hp. by eapply ho_done.
Qed.
End Answers.

(** ** Two calls on a simulated device *)

Definition demo_world : nat -> list nat -> list nat := fun _ fl => fl.
#[local] Instance demo_bus : RegBus (pbus sim) := ptt_bus false demo_world.
#[local] Instance demo_bus_laws : RegAccessLaws (pbus sim).
Proof. apply ptt_bus_laws. intros mine n fl others Hi. by exists others. Qed.
#[local] Instance demo_copy : RegCopy (pbus sim) := ptt_copy.
#[local] Instance demo_copy_laws : RegCopyLaws (pbus sim) := ptt_copy_laws false demo_world.
#[local] Instance demo_copy_size : RegCopySize (pbus sim) := ptt_copy_size.

(** Function 2, whose mailbox is at [0xe20180] and last answered command 5; entries
    10 and 11 are held. *)
Definition demo_A : Z := 0xe20180.
Definition poke (l : list (Z * Z)) (b : pbus sim) : pbus sim :=
  mk_pbus (pb_pool b) (pb_dev b <| sim_reg := fun c x => default (sim_reg (pb_dev b) c x) ((list_to_map l : gmap Z Z) !! x) |>) (pb_held b) (pb_own b).
Definition demo_pool : qed_ptt_pool :=
  mk_qed_ptt_pool [9; 8; 7; 6; 5; 4]%nat (ptts (default (mk_qed_ptt_pool [] []) (snd (qed_ptt_pool_alloc true 0 0)))).
Definition demo_b0 : pbus sim :=
  poke [(MISCS_REG_GENERIC_POR_0, 0x77); (demo_A, 5); (demo_A + 8, 5)] (mk_pbus demo_pool sim0 [10; 11]%nat 2).
Definition demo_info : qed_mcp_info := mk_mcp_info true false false false 0xe20000 demo_A 0xe20280 0 0 5 0 20 0x77 [] None None.
Definition demo_h : mcp_hwfn (pbus sim) := mk_mcp_hwfn (Some demo_info) ∅ ∅ demo_b0 2 2 false 2 false 0.
Definition demo_s : mcp_sys (pbus sim) := mk_mcp_sys demo_h ∅.
Definition demo_z : mfw_sys (B := pbus sim) := mk_mfw_sys demo_s (mk_log 5 5 5 ∅ ∅).

Definition demo_p1 : qed_mcp_mb_params := mk_mb_params 0x22000000 0x11 (Some [1; 2; 3; 4; 5]) (Some (replicate 8 0)) 5 8 0 0 QED_MB_FLAG_CAN_SLEEP.
Definition demo_p2 : qed_mcp_mb_params := mk_mb_params 0x30000000 0x99 None None 0 0 0 0 0.

(** The answer to a command: header, parameter and the first dwords of data. *)
Definition demo_answer (hdr prm d0 d1 : Z) (b : pbus sim) : pbus sim :=
  poke [(demo_A + 8, hdr); (demo_A + 12, prm); (demo_A + 24, d0); (demo_A + 28, d1)] b.

(** The first call is answered after the second has begun, and its answer is taken
    by the second, which then sends. *)
Definition demo_next (x : mfw_op (B := pbus sim)) (z : mfw_sys (B := pbus sim)) := default z (mfw_exec demo_A x z).
Definition demo_x1 := XThread (B := pbus sim) (OCall 1%nat 10%nat demo_p1).
Definition demo_x2 := XThread (B := pbus sim) (OCall 2%nat 11%nat demo_p2).
Definition demo_x3 := XThread (B := pbus sim) (OStep 1%nat (Some 0x1000)).
Definition demo_z3 := demo_next demo_x3 (demo_next demo_x2 (demo_next demo_x1 demo_z)).
Definition demo_x4 := XAnswer (demo_answer 0x00160006 0xaa 0x04030201 0x08070605 (bus (y_h (x_s demo_z3)))).
Definition demo_x5 := XThread (B := pbus sim) (OStep 2%nat (Some 0x2000)).
Definition demo_z5 := demo_next demo_x5 (demo_next demo_x4 demo_z3).
Definition demo_x6 := XAnswer (demo_answer 0x00900007 0xbb 0 0 (bus (y_h (x_s demo_z5)))).
Definition demo_x7 := XThread (B := pbus sim) (OStep 2%nat None).
Definition demo_x8 := XThread (B := pbus sim) (OStep 1%nat None).
Definition demo_run := [demo_x1; demo_x2; demo_x3; demo_x4; demo_x5; demo_x6; demo_x7; demo_x8].

Lemma demo_bus_ok : bus_ok demo_b0.
Proof.
  assert (L : forall i p, ptts demo_pool !! i = Some p -> ptt_idx p = Z.of_nat i /\ is_window (ptt_idx p) /\ pxp_offset p = QED_BAR_INVALID_OFFSET).
  { intros i p Hp. do 12 (destruct i as [|i]; [simpl in Hp; simplify_eq; by repeat split|]). done. }
  split; [|split; [done|split; [|split; [|split; [done|done]]]]].
  - intros i p Hp. simpl in Hp. apply L in Hp. tauto.
  - exists []. unfold pool_inv. apply (bool_decide_unpack _). by vm_compute.
  - intros i p Hp. apply L in Hp as (_ & Hw & Ho). split; [done|by left].
Qed.

Lemma demo_mailbox : mailbox_at (B := pbus sim) demo_A.
Proof.
  assert (P : forall x, 0 <= x < 0x1000000 -> x mod 4 = 0 -> bus_plain (B := pbus sim) x).
  { intros x Hx Hm. split; [|done]. split; [unfold PXP_PTT_ENTRY_OFFSET_MASK; lia|done]. }
  unfold demo_A. constructor; try done.
  - intros k Hk. apply P; [lia|]. replace (0xe20180 + 4 * k) with ((0x388060 + k) * 4) by lia. apply Z.mod_mul. lia.
  - split; [by apply P|]. unfold MISCS_REG_GENERIC_POR_0. lia.
Qed.

Lemma demo_fresh : mcp_fresh demo_s.
Proof. split_and!; try done. by exists demo_info. Qed.

Lemma demo_idle : mcp_idle demo_A demo_z.
Proof. split; [apply demo_fresh|]. split; [apply demo_bus_ok|]. exists demo_info, 5. split_and!; try done. Qed.

Lemma allowed_cons x xs z : mfw_inv demo_A z -> mfw_allowed demo_A x z ->
  (mfw_inv demo_A (demo_next x z) -> mfw_allowed_all demo_A xs (demo_next x z)) -> mfw_allowed_all demo_A (x :: xs) z.
Proof.
  intros I A K. split; [done|]. destruct (exec_hon demo_A demo_mailbox x z I A) as (z' & E & I'). unfold demo_next in K. rewrite E in K |- *. by apply K.
Qed.

Lemma answer_allowed z hdr prm d0 d1 : mfw_inv demo_A z -> g_last (x_g z) <? g_sent (x_g z) = true ->
  Z.land hdr 0xffff =? Z.land (own_reg (bus (y_h (x_s z))) (demo_A + drv_mb_header)) 0xffff = true ->
  mfw_allowed demo_A (XAnswer (demo_answer hdr prm d0 d1 (bus (y_h (x_s z))))) z.
Proof.
  destruct z as [[h T] g]. intros (i & _ & Ho) H1 H2. simpl in *. zbool. split; [|split; [done|split; [done|]]].
  - unfold demo_answer, poke. apply dev_step; [apply Ho|done|done].
  - rewrite <- H2. done.
Qed.

Lemma step_allowed z tid alloc :
  match y_threads (x_s z) !! tid with Some th => negb (returned th) | None => false end = true ->
  match alloc with Some a => bool_decide (elems (y_h (x_s z)) !! a = None) | None => true end = true ->
  g_seq (x_g z) + 1 - g_last (x_g z) <? 2 ^ 16 = true -> mfw_allowed demo_A (XThread (OStep tid alloc)) z.
Proof.
  destruct z as [[h T] g]. simpl. intros HT Ha Hlt. zbool. split; [|done]. split.
  - destruct (T !! tid) as [th|]; [|done]. exists th. split; [done|]. by apply negb_true_iff.
  - intros a ->. by apply bool_decide_eq_true in Ha.
Qed.

Ltac demo_thread := apply step_allowed; vm_compute; reflexivity.
Lemma demo_allowed : mfw_allowed_all demo_A demo_run demo_z.
Proof.
  apply allowed_cons; [apply idle_inv, demo_idle| |intros I1].
  { split; [split; [done|]|split; [by left|]].
    - split_and!; try done; intros buf [= <-]; simpl; lia.
    - split_and!; try done. intros buf b [= <-] Hb. repeat (apply elem_of_cons in Hb as [->|Hb]; [lia|]). by apply elem_of_nil in Hb. }
  apply allowed_cons; [exact I1| |intros I2].
  { split; [split; [done|]|split; [by right; left|]]; split_and!; done. }
  apply allowed_cons; [exact I2|demo_thread|intros I3].
  apply allowed_cons; [exact I3| |intros I4].
  { refine (answer_allowed demo_z3 _ _ _ _ I3 _ _); vm_compute; reflexivity. }
  apply allowed_cons; [exact I4|demo_thread|intros I5].
  apply allowed_cons; [exact I5| |intros I6].
  { refine (answer_allowed demo_z5 _ _ _ _ I5 _ _); vm_compute; reflexivity. }
  apply allowed_cons; [exact I6|demo_thread|intros I7].
  apply allowed_cons; [exact I7|demo_thread|intros I8].
  exact I.
Qed.

Definition demo_p1' : qed_mcp_mb_params :=
  demo_p1 <| mcp_resp := 0x160000 |> <| mcp_param := 0xaa |> <| p_data_dst := Some [1; 2; 3; 4; 5; 6; 7; 8] |>.

Lemma mcp_answer_own_witness :
  exists z' n rq rp, mfw_exec_all demo_A demo_run demo_z = Some z' /\ frames (y_h (x_s z')) !! 1%nat = Some demo_p1' /\
    request_of demo_p1 n = Some rq /\ g_log (x_g z') !! n = Some (rq, rp) /\ got rp demo_p1'.
Proof.
  destruct (mcp_answer_own demo_A demo_run demo_z demo_mailbox demo_idle demo_allowed) as (z' & E & K).
  assert (F : (fun z => (y_threads (x_s z) !! 1%nat ≫= fun th => Some (t_pc th), frames (y_h (x_s z)) !! 1%nat)) <$> Some z' =
    Some (Some (Returned 0), Some demo_p1'))
    by (rewrite <- E; vm_compute; reflexivity).
  simpl in F. destruct (y_threads (x_s z') !! 1%nat) as [th|] eqn:HT; [|discriminate]. injection F as Hpc Hf.
  destruct (K 1%nat th _ HT Hpc Hf) as (n & rq & rp & Sn & Rq & Lg & G). exists z', n, rq, rp.
  split; [exact E|]. split; [exact Hf|]. split; [exact Rq|]. split; [exact Lg|exact G].
Defined.

(** ** Executable checks of what a run is allowed *)

Definition params_okb (p : qed_mcp_mb_params) : bool :=
  (0 <=? data_src_size p) && (0 <=? data_dst_size p) &&
  match p_data_src p with Some buf => data_src_size p <=? Z.of_nat (length buf) | None => true end &&
  match p_data_dst p with Some buf => data_dst_size p <=? Z.of_nat (length buf) | None => true end.

Definition mcp_allowedb (o : mcp_op (pbus sim)) (s : mcp_sys (pbus sim)) : bool :=
  match o with
  | OCall tid t p => bool_decide (t_pc <$> y_threads s !! tid = None) && params_okb p
  | OStep tid alloc =>
      match y_threads s !! tid with Some th => negb (returned th) | None => false end &&
      match alloc with Some a => bool_decide (elems (y_h s) !! a = None) | None => true end
  | OLeave tid => match y_threads s !! tid with Some th => returned th | None => false end
  | ODevice _ | OHalt _ => true
  end.

Fixpoint mcp_allowed_allb (os : list (mcp_op (pbus sim))) (s : mcp_sys (pbus sim)) : bool :=
  match os with
  | [] => true
  | o :: os => mcp_allowedb o s && match mcp_exec o s with Some s' => mcp_allowed_allb os s' | None => true end
  end.

Lemma params_okb_sound p : params_okb p = true -> params_ok p.
Proof.
  unfold params_okb. intros E. zbool. split_and!; try done; intros buf Eb; rewrite Eb in *; by zbool.
Qed.

Lemma mcp_allowed_allb_sound os s : mcp_allowed_allb os s = true -> mcp_allowed_all os s.
Proof.
  revert s. induction os as [|o os IH]; intros s; [done|]. simpl. intros E. apply andb_prop in E as [E1 E2]. split.
  - destruct o as [tid t p|tid alloc|tid|b|halt]; simpl in *; try done.
    + apply andb_prop in E1 as [E P]. apply bool_decide_eq_true in E. split; [by destruct (y_threads s !! tid)|by apply params_okb_sound].
    + apply andb_prop in E1 as [E A]. split.
      * destruct (y_threads s !! tid) as [th|]; [|done]. exists th. split; [done|by apply negb_true_iff].
      * intros a ->. by apply bool_decide_eq_true in A.
    + destruct (y_threads s !! tid) as [th|]; [|done]. by exists th.
  - destruct (mcp_exec o s); [by apply IH|done].
Qed.

(** The first call of [demo_run], on its own, with a device that answers. *)
Definition demo_dev : pbus sim :=
  demo_answer 0x00160006 0xaa 0x04030201 0x08070605
    (bus (y_h (default demo_s (mcp_exec_all [OCall 1%nat 10%nat demo_p1; OStep 1%nat (Some 0x1000)] demo_s)))).
Definition demo_ops : list (mcp_op (pbus sim)) := [OStep 1%nat (Some 0x1000); OStep 1%nat None; ODevice demo_dev; OStep 1%nat None].

Lemma mcp_runs_safe_witness :
  exists s' i, mcp_exec_all (OCall 1%nat 10%nat demo_p1 :: demo_ops) demo_s = Some s' /\ mcp_info (y_h s') = Some i /\ cmd_list i = [] /\
    pending_ok (elems (y_h s')) i.
Proof.
  destruct (mcp_runs_safe (OCall 1%nat 10%nat demo_p1 :: demo_ops) demo_s demo_fresh
    ltac:(apply mcp_allowed_allb_sound; vm_compute; reflexivity)) as (s' & i & E & Hi & _ & P & _).
  exists s', i. split; [exact E|]. split; [exact Hi|]. split; [|exact P].
  assert (F : (s ← Some s'; i ← mcp_info (y_h s); Some (cmd_list i)) = Some []) by (rewrite <- E; vm_compute; reflexivity).
  simpl in F. rewrite Hi in F. by injection F.
Defined.

Lemma demo_no_leave o : o ∈ demo_ops -> is_leave 1%nat o = false.
Proof. unfold demo_ops. rewrite !elem_of_cons, elem_of_nil. by intros [->|[->|[->|[->|[]]]]]. Qed.
Lemma demo_ops_allowed : mcp_allowed_all ([] ++ OCall 1%nat 10%nat demo_p1 :: demo_ops) demo_s.
Proof. apply mcp_allowed_allb_sound. vm_compute. reflexivity. Qed.

Lemma mcp_call_returns_witness :
  exists s' th, mcp_exec_all ([] ++ OCall 1%nat 10%nat demo_p1 :: demo_ops) demo_s = Some s' /\ y_threads s' !! 1%nat = Some th /\
    Z.of_nat (length (filter (fun o => is_step 1%nat o = true) demo_ops)) <= 603.
Proof.
  destruct (run_safe _ demo_s (fresh_inv demo_s demo_fresh) demo_ops_allowed) as (s' & E & _).
  destruct (mcp_call_returns 1%nat 10%nat demo_p1 demo_ops [] demo_s s' demo_fresh demo_ops_allowed demo_no_leave E) as (th & HT & Hn & _).
  exists s', th. split; [exact E|]. split; [exact HT|]. exact Hn.
Defined.
