(* ===== verification/McpNvm.v ===== *)
(** * Commands and NVRAM transfers over the mailbox (qed_mcp.c)

    The wrappers that fill the parameters of a mailbox command, and the loops
    that read and write the NVRAM in transactions of at most 32 bytes.

    A call of [qed_mcp_cmd_and_union] is the operation [mfw_rpc] of the class
    [MfwRpc], which fills the parameters with the firmware's answer (McpClaims.v
    shows that a call that returns 0 has the answer to its own command).  A copy
    beyond a buffer is a fault ([None]).  Delays and prints are left out. *)

From S2P Require Import Prelude Llh Mcp.

Class MfwRpc (M : Type) := {
  mfw_rpc : qed_mcp_mb_params -> M -> option (Z * qed_mcp_mb_params * M)
}.

Definition MCP_DRV_NVM_BUF_LEN : Z := 32.
Definition DRV_MSG_CODE_NVM_PUT_FILE_BEGIN : Z := 0x00010000.
Definition DRV_MSG_CODE_NVM_PUT_FILE_DATA : Z := 0x00020000.
Definition DRV_MSG_CODE_NVM_READ_NVRAM : Z := 0x00050000.
Definition DRV_MSG_CODE_NVM_WRITE_NVRAM : Z := 0x00060000.
Definition DRV_MSG_CODE_NVM_DEL_FILE : Z := 0x00080000.
Definition DRV_MSG_CODE_PHY_RAW_READ : Z := 0x000b0000.
Definition DRV_MSG_CODE_PHY_RAW_WRITE : Z := 0x000c0000.
Definition DRV_MSG_CODE_PHY_CORE_READ : Z := 0x000d0000.
Definition DRV_MSG_CODE_PHY_CORE_WRITE : Z := 0x000e0000.
Definition DRV_MSG_CODE_TRANSCEIVER_READ : Z := 0x00160000.
Definition DRV_MSG_CODE_TRANSCEIVER_WRITE : Z := 0x00170000.
Definition DRV_MSG_CODE_EXT_PHY_FW_UPGRADE : Z := 0x002a0000.
Definition DRV_MSG_CODE_ENCRYPT_PASSWORD : Z := 0x00360000.
Definition QED_PUT_FILE_BEGIN : Z := DRV_MSG_CODE_NVM_PUT_FILE_BEGIN.
Definition QED_PUT_FILE_DATA : Z := DRV_MSG_CODE_NVM_PUT_FILE_DATA.
Definition QED_NVM_WRITE_NVRAM : Z := DRV_MSG_CODE_NVM_WRITE_NVRAM.
Definition QED_EXT_PHY_FW_UPGRADE : Z := DRV_MSG_CODE_EXT_PHY_FW_UPGRADE.
Definition QED_ENCRYPT_PASSWORD : Z := DRV_MSG_CODE_ENCRYPT_PASSWORD.
Definition FW_MSG_CODE_TRANSCEIVER_DIAG_OK : Z := 0x00160000.
Definition FW_MSG_CODE_TRANSCEIVER_NOT_PRESENT : Z := 0x00020000.
Definition FW_MSG_CODE_NVM_OK : Z := 0x00010000.
Definition FW_MSG_CODE_OK : Z := 0x00160000.
Definition FW_MSG_CODE_ERROR : Z := 0x00170000.
Definition FW_MSG_CODE_NVM_PUT_FILE_FINISH_OK : Z := 0x00400000.

(** [SET_MFW_FIELD] on a [u32], and [GET_MFW_FIELD]. *)
Definition SET_MFW_FIELD (mask offset value name : Z) : Z :=
  Z.lor (Z.land name (Z.lnot mask)) (Z.land (u32 (Z.shiftl value offset)) mask).
Definition GET_MFW_FIELD (mask offset name : Z) : Z := Z.shiftr (Z.land name mask) offset.
Definition NVM_OFFSET_MASK : Z := 0x00ffffff.
Definition NVM_LEN_MASK : Z := 0xff000000.
Definition TRANSCEIVER_PORT_MASK : Z := 0x00000003.
Definition TRANSCEIVER_SIZE_MASK : Z := 0x000000fc.
Definition TRANSCEIVER_I2C_ADDRESS_MASK : Z := 0x0000ff00.
Definition TRANSCEIVER_OFFSET_MASK : Z := 0xffff0000.
Definition MAX_I2C_TRANSACTION_SIZE : Z := 16.
Definition ENODEV : Z := 19.

Section Wrappers.
Context {M : Type} `{MfwRpc M}.
Implicit Types (m : M).

Definition zero_params : qed_mcp_mb_params := mk_mb_params 0 0 None None 0 0 0 0 0.

(** The outputs are written only when the command succeeds. *)
Definition _qed_mcp_cmd (cmd_ param_ : Z) (can_sleep : bool) m : option (Z * option (Z * Z) * M) :=
  let p := zero_params <| cmd := cmd_ |> <| param := param_ |> <| flags := (if can_sleep then QED_MB_FLAG_CAN_SLEEP else 0) |> in
  '(rc, p, m) ← mfw_rpc p m;
  Some (if negb (rc =? 0) then (rc, None, m) else (0, Some (mcp_resp p, mcp_param p), m)).
Definition qed_mcp_cmd (cmd_ param_ : Z) m := _qed_mcp_cmd cmd_ param_ true m.
Definition qed_mcp_cmd_nosleep (cmd_ param_ : Z) m := _qed_mcp_cmd cmd_ param_ false m.

(** [i_buf] is the memory from the pointer on. *)
Definition qed_mcp_nvm_wr_cmd (cmd_ param_ i_txn_size : Z) (i_buf : list Z) (b_can_sleep : bool) m
    : option (Z * option (Z * Z) * M) :=
  let p := zero_params <| cmd := cmd_ |> <| param := param_ |> <| p_data_src := Some i_buf |> <| data_src_size := u8 i_txn_size |>
             <| flags := (if b_can_sleep then QED_MB_FLAG_CAN_SLEEP else 0) |> in
  '(rc, p, m) ← mfw_rpc p m;
  Some (if negb (rc =? 0) then (rc, None, m) else (0, Some (mcp_resp p, mcp_param p), m)).

(** The buffer on the stack is overwritten by a response; the number of bytes
    copied out of it is the firmware's. *)
Definition qed_mcp_nvm_rd_cmd (cmd_ param_ : Z) (o_buf : list Z) (b_can_sleep : bool) m
    : option (Z * option (Z * Z * Z) * list Z * M) :=
  let raw_data := replicate (Z.to_nat MCP_DRV_NVM_BUF_LEN) 0 in
  let p := zero_params <| cmd := cmd_ |> <| param := param_ |> <| p_data_dst := Some raw_data |> <| data_dst_size := MCP_DRV_NVM_BUF_LEN |>
             <| flags := (if b_can_sleep then QED_MB_FLAG_CAN_SLEEP else 0) |> in
  '(rc, p, m) ← mfw_rpc p m;
  if negb (rc =? 0) then Some (rc, None, o_buf, m) else
  raw ← p_data_dst p;
  let o_txn_size := mcp_param p in
  if Z.of_nat (length raw) <? o_txn_size then None else
  o_buf ← buf_write (take (Z.to_nat o_txn_size) raw) o_buf;
  Some (0, Some (mcp_resp p, mcp_param p, o_txn_size), o_buf, m).

(** ** NVRAM *)

(** The device: the mailbox, the last response code, whether the directory
    information read from the NVRAM is valid. *)
Record nvm_state := mk_nvm { mail : M; mcp_nvm_resp : Z; nvm_info_valid : bool }.

(** The loop of [qed_mcp_nvm_read]: code, response, buffer.  [None] also when the
    fuel is used up. *)
Fixpoint nvm_read_loop (fuel : nat) (addr offset bytes_left nvm_offset resp : Z) (p_buf : list Z) m
    : option (Z * Z * list Z * M) :=
  if bytes_left =? 0 then Some (0, resp, p_buf, m) else
  match fuel with
  | O => None
  | S fuel =>
      let bytes_to_copy := Z.min bytes_left MCP_DRV_NVM_BUF_LEN in
      let nvm_offset := SET_MFW_FIELD NVM_OFFSET_MASK 0 (u32 (addr + offset)) nvm_offset in
      let nvm_offset := SET_MFW_FIELD NVM_LEN_MASK 24 bytes_to_copy nvm_offset in
      let k := Z.to_nat offset in
      '(rc, out, dst, m) ← qed_mcp_nvm_rd_cmd DRV_MSG_CODE_NVM_READ_NVRAM nvm_offset (drop k p_buf) true m;
      let p_buf := take k p_buf ++ dst in
      match out with
      | None => Some (rc, FW_MSG_CODE_ERROR, p_buf, m)
      | Some (resp, _, buf_size) =>
          if negb (resp =? FW_MSG_CODE_NVM_OK) then Some (- EINVAL, resp, p_buf, m) else
          nvm_read_loop fuel addr (u32 (offset + buf_size)) (u32 (bytes_left - buf_size)) nvm_offset resp p_buf m
      end
  end.

(** [ptt_ok]: a PTT entry was acquired. *)
Definition qed_mcp_nvm_read (fuel : nat) (ptt_ok : bool) (addr : Z) (p_buf : list Z) (len : Z) (d : nvm_state)
    : option (Z * list Z * nvm_state) :=
  if negb ptt_ok then Some (- EBUSY, p_buf, d) else
  '(rc, resp, p_buf, m) ← nvm_read_loop fuel addr 0 len 0 0 p_buf (mail d);
  Some (rc, p_buf, mk_nvm m resp (nvm_info_valid d)).

(** The commands the code knows; their values are the mailbox's. *)
Definition nvm_cmd_of (c : Z) : option Z :=
  if c =? QED_PUT_FILE_BEGIN then Some DRV_MSG_CODE_NVM_PUT_FILE_BEGIN else
  if c =? QED_PUT_FILE_DATA then Some DRV_MSG_CODE_NVM_PUT_FILE_DATA else
  if c =? QED_NVM_WRITE_NVRAM then Some DRV_MSG_CODE_NVM_WRITE_NVRAM else
  if c =? QED_EXT_PHY_FW_UPGRADE then Some DRV_MSG_CODE_EXT_PHY_FW_UPGRADE else
  if c =? QED_ENCRYPT_PASSWORD then Some DRV_MSG_CODE_ENCRYPT_PASSWORD else None.

Fixpoint nvm_write_loop (fuel : nat) (c nvm_cmd addr : Z) (p_buf : list Z) (len buf_idx buf_size rc resp : Z) (valid : bool) m
    : option (Z * Z * bool * M) :=
  if len <=? buf_idx then Some (rc, resp, valid, m) else
  match fuel with
  | O => None
  | S fuel =>
      let nvm_offset := if c =? QED_PUT_FILE_BEGIN then addr
                        else u32 (Z.lor (u32 (Z.shiftl buf_size 24)) addr + buf_idx) in
      '(rc, out, m) ← qed_mcp_nvm_wr_cmd nvm_cmd nvm_offset buf_size (drop (Z.to_nat buf_idx) p_buf) true m;
      match out with
      | None => Some (rc, FW_MSG_CODE_ERROR, valid, m)
      | Some (resp, prm) =>
          if negb (resp =? FW_MSG_CODE_OK) && negb (resp =? FW_MSG_CODE_NVM_OK) && negb (resp =? FW_MSG_CODE_NVM_PUT_FILE_FINISH_OK)
          then Some (- EINVAL, resp, false, m) else
          if negb (prm =? 0) && (c =? QED_PUT_FILE_DATA)
          then nvm_write_loop fuel c nvm_cmd addr p_buf len (GET_MFW_FIELD 0x00ffffff 0 prm) (GET_MFW_FIELD 0xff000000 24 prm) rc resp false m
          else nvm_write_loop fuel c nvm_cmd addr p_buf len (u32 (buf_idx + buf_size))
                 (Z.min (u32 (len - u32 (buf_idx + buf_size))) MCP_DRV_NVM_BUF_LEN) rc resp false m
      end
  end.

Definition qed_mcp_nvm_write (fuel : nat) (ptt_ok : bool) (c addr : Z) (p_buf : list Z) (len : Z) (d : nvm_state)
    : option (Z * nvm_state) :=
  if negb ptt_ok then Some (- EBUSY, d) else
  match nvm_cmd_of c with
  | None => Some (- EINVAL, d)
  | Some nvm_cmd =>
      '(rc, resp, valid, m) ←
        nvm_write_loop fuel c nvm_cmd addr p_buf len 0 (Z.min len MCP_DRV_NVM_BUF_LEN) (- EINVAL) 0 (nvm_info_valid d) (mail d);
      Some (rc, mk_nvm m resp valid)
  end.

Definition qed_mcp_nvm_del_file (ptt_ok : bool) (addr : Z) (d : nvm_state) : option (Z * nvm_state) :=
  if negb ptt_ok then Some (- EBUSY, d) else
  '(rc, out, m) ← qed_mcp_cmd DRV_MSG_CODE_NVM_DEL_FILE addr (mail d);
  Some (rc, mk_nvm m (match out with Some (resp, _) => resp | None => 0 end) false).

(** ** Registers of the PHY and of the transceiver module *)

(** The number of bytes read, if any. *)
Definition qed_mcp_phy_read (recov ptt_ok : bool) (c addr : Z) (p_buf : list Z) (d : nvm_state)
    : option (Z * option Z * list Z * nvm_state) :=
  if recov then Some (- EAGAIN, None, p_buf, d) else
  if negb ptt_ok then Some (- EBUSY, None, p_buf, d) else
  '(rc, out, p_buf, m) ← qed_mcp_nvm_rd_cmd (if c =? DRV_MSG_CODE_PHY_CORE_READ then DRV_MSG_CODE_PHY_CORE_READ else DRV_MSG_CODE_PHY_RAW_READ)
    addr p_buf true (mail d);
  Some (match out with
        | Some (resp, _, n) => (rc, Some n, p_buf, mk_nvm m resp (nvm_info_valid d))
        | None => (rc, None, p_buf, mk_nvm m 0 (nvm_info_valid d))
        end).

Definition qed_mcp_phy_write (recov ptt_ok : bool) (c addr : Z) (p_buf : list Z) (len : Z) (d : nvm_state) : option (Z * nvm_state) :=
  if recov then Some (- EAGAIN, d) else
  if negb ptt_ok then Some (- EBUSY, d) else
  '(rc, out, m) ← qed_mcp_nvm_wr_cmd (if c =? DRV_MSG_CODE_PHY_CORE_WRITE then DRV_MSG_CODE_PHY_CORE_WRITE else DRV_MSG_CODE_PHY_RAW_WRITE)
    addr len p_buf true (mail d);
  Some (match out with
        | Some (resp, _) => (rc, mk_nvm m resp false)
        | None => (rc, mk_nvm m 0 (nvm_info_valid d))
        end).

Definition sfp_base (port addr : Z) : Z :=
  SET_MFW_FIELD TRANSCEIVER_I2C_ADDRESS_MASK 8 addr (SET_MFW_FIELD TRANSCEIVER_PORT_MASK 0 port 0).
Definition sfp_param (offset size nvm_offset : Z) : Z :=
  let nvm_offset := Z.land nvm_offset (Z.lor TRANSCEIVER_I2C_ADDRESS_MASK TRANSCEIVER_PORT_MASK) in
  SET_MFW_FIELD TRANSCEIVER_SIZE_MASK 2 size (SET_MFW_FIELD TRANSCEIVER_OFFSET_MASK 16 offset nvm_offset).

Fixpoint sfp_read_loop (fuel : nat) (addr offset bytes_left nvm_offset : Z) (p_buf : list Z) m : option (Z * list Z * M) :=
  if bytes_left =? 0 then Some (0, p_buf, m) else
  match fuel with
  | O => None
  | S fuel =>
      let bytes_to_copy := Z.min bytes_left MAX_I2C_TRANSACTION_SIZE in
      let nvm_offset := sfp_param (u32 (addr + offset)) bytes_to_copy nvm_offset in
      let k := Z.to_nat offset in
      '(rc, out, dst, m) ← qed_mcp_nvm_rd_cmd DRV_MSG_CODE_TRANSCEIVER_READ nvm_offset (drop k p_buf) true m;
      let p_buf := take k p_buf ++ dst in
      match out with
      | None => Some (rc, p_buf, m)
      | Some (resp, _, buf_size) =>
          if resp =? FW_MSG_CODE_TRANSCEIVER_NOT_PRESENT then Some (- ENODEV, p_buf, m) else
          if negb (resp =? FW_MSG_CODE_TRANSCEIVER_DIAG_OK) then Some (- EINVAL, p_buf, m) else
          sfp_read_loop fuel addr (u32 (offset + buf_size)) (u32 (bytes_left - buf_size)) nvm_offset p_buf m
      end
  end.
Definition qed_mcp_phy_sfp_read (fuel : nat) (recov : bool) (port addr offset len : Z) (p_buf : list Z) m : option (Z * list Z * M) :=
  if recov then Some (- EAGAIN, p_buf, m) else sfp_read_loop fuel offset 0 len (sfp_base port addr) p_buf m.

Fixpoint sfp_write_loop (fuel : nat) (offset len buf_idx nvm_offset : Z) (p_buf : list Z) m : option (Z * M) :=
  if len <=? buf_idx then Some (0, m) else
  match fuel with
  | O => None
  | S fuel =>
      let buf_size := Z.min (u32 (len - buf_idx)) MAX_I2C_TRANSACTION_SIZE in
      let nvm_offset := sfp_param (u32 (offset + buf_idx)) buf_size nvm_offset in
      '(rc, out, m) ← qed_mcp_nvm_wr_cmd DRV_MSG_CODE_TRANSCEIVER_WRITE nvm_offset buf_size (drop (Z.to_nat buf_idx) p_buf) true m;
      match out with
      | None => Some (rc, m)
      | Some (resp, _) =>
          if resp =? FW_MSG_CODE_TRANSCEIVER_NOT_PRESENT then Some (- ENODEV, m) else
          if negb (resp =? FW_MSG_CODE_TRANSCEIVER_DIAG_OK) then Some (- EINVAL, m) else
          sfp_write_loop fuel offset len (u32 (buf_idx + buf_size)) nvm_offset p_buf m
      end
  end.
Definition qed_mcp_phy_sfp_write (fuel : nat) (recov : bool) (port addr offset len : Z) (p_buf : list Z) m : option (Z * M) :=
  if recov then Some (- EAGAIN, m) else sfp_write_loop fuel offset len 0 (sfp_base port addr) p_buf m.
End Wrappers.
Arguments mk_nvm {M}.
Arguments mail {M}.
Arguments mcp_nvm_resp {M}.
Arguments nvm_info_valid {M}.
