(* ===== verification/McpNvmProps.v ===== *)
(** * NVRAM transfers: properties

    Reading and writing the NVRAM through mailbox transactions of at most 32
    bytes moves exactly the bytes asked for, if the firmware serves each
    transaction as its description says ([NvmLaws]). *)

From S2P Require Import Prelude Llh Mcp McpNvm.

(** ** The parameter of a transaction *)

Definition nvm_param (off n : Z) : Z := off + n * 2 ^ 24.

Lemma high_mask k : Z.testbit NVM_LEN_MASK k = ((24 <=? k) && (k <? 32))%bool.
Proof.
  change NVM_LEN_MASK with (Z.shiftl (Z.ones 8) 24). destruct (Z.ltb_spec k 0) as [Hk|Hk].
  - rewrite Z.testbit_neg_r by lia. destruct (Z.leb_spec 24 k); [lia|done].
  - rewrite Z.shiftl_spec, Z.testbit_ones by lia. destruct (Z.leb_spec 24 k), (Z.leb_spec 0 (k - 24)), (Z.ltb_spec k 32), (Z.ltb_spec (k - 24) 8); simpl; lia || done.
Qed.
Lemma low_mask k : Z.testbit NVM_OFFSET_MASK k = ((0 <=? k) && (k <? 24))%bool.
Proof. change NVM_OFFSET_MASK with (Z.ones 24). rewrite Z.testbit_ones by lia. done. Qed.

Lemma testbit_above a w k : 0 <= a < 2 ^ w -> 0 <= w <= k -> Z.testbit a k = false.
Proof.
  intros Ha Hk. destruct (decide (a = 0)) as [->|Hne]; [apply Z.bits_0|]. apply Z.bits_above_log2; [lia|].
  apply Z.lt_le_trans with w; [apply Z.log2_lt_pow2; lia|lia].
Qed.

Lemma nvm_param_bits off n k : 0 <= off < 2 ^ 24 -> 0 <= n < 2 ^ 8 -> 0 <= k ->
  Z.testbit (nvm_param off n) k = if k <? 24 then Z.testbit off k else Z.testbit n (k - 24).
Proof.
  intros Ho Hn Hk. unfold nvm_param. rewrite <- Z.shiftl_mul_pow2 by lia.
  assert (D : Z.land off (Z.shiftl n 24) = 0).
  { apply Z.bits_inj'. intros j Hj. rewrite Z.land_spec, Z.shiftl_spec, Z.bits_0 by lia. destruct (Z.ltb_spec j 24).
    - by rewrite (Z.testbit_neg_r n), andb_false_r by lia.
    - by rewrite (testbit_above off 24) by lia. }
  rewrite (Z.add_nocarry_lxor _ _ D), (Z.lxor_lor _ _ D).
  rewrite Z.lor_spec, Z.shiftl_spec by lia. destruct (Z.ltb_spec k 24).
  - rewrite (Z.testbit_neg_r n) by lia. apply orb_false_r.
  - by rewrite (testbit_above off 24) by lia.
Qed.

(** The two fields of the parameter set one after the other, over whatever the
    last transaction left. *)
Lemma set_nvm_fields prev off n : 0 <= prev < 2 ^ 32 -> 0 <= off < 2 ^ 24 -> 0 <= n < 2 ^ 8 ->
  SET_MFW_FIELD NVM_LEN_MASK 24 n (SET_MFW_FIELD NVM_OFFSET_MASK 0 (u32 off) prev) = nvm_param off n.
Proof.
  intros Hp Ho Hn. unfold SET_MFW_FIELD. rewrite Z.shiftl_0_r.
  assert (Eo : u32 off = off) by (apply Z.mod_small; lia).
  assert (En : u32 (Z.shiftl n 24) = Z.shiftl n 24) by (apply Z.mod_small; rewrite Z.shiftl_mul_pow2 by lia; lia).
  rewrite !Eo, En. apply Z.bits_inj'. intros k Hk. rewrite nvm_param_bits by done.
  rewrite !Z.lor_spec, !Z.land_spec, !Z.lor_spec, !Z.land_spec, !Z.lnot_spec, high_mask, low_mask, Z.shiftl_spec by lia.
  rewrite (proj2 (Z.leb_le 0 k) Hk). destruct (Z.ltb_spec k 24), (Z.leb_spec 24 k), (Z.ltb_spec k 32); try lia; simpl;
    rewrite ?andb_true_r, ?andb_false_r, ?orb_false_r, ?orb_false_l; try done.
  rewrite (testbit_above prev 32), (testbit_above n 8) by lia. done.
Qed.

Lemma nvm_param_range off n : 0 <= off < 2 ^ 24 -> 0 <= n < 2 ^ 8 -> 0 <= nvm_param off n < 2 ^ 32.
Proof. unfold nvm_param. lia. Qed.

Lemma write_param addr idx n : 0 <= addr -> 0 <= idx -> addr + idx < 2 ^ 24 -> 0 <= n < 2 ^ 8 ->
  u32 (Z.lor (u32 (Z.shiftl n 24)) addr + idx) = nvm_param (addr + idx) n.
Proof.
  intros Ha Hi Hs Hn. assert (En : u32 (Z.shiftl n 24) = Z.shiftl n 24) by (apply Z.mod_small; rewrite Z.shiftl_mul_pow2 by lia; lia).
  rewrite En. replace (Z.lor (Z.shiftl n 24) addr) with (nvm_param addr n).
  - unfold nvm_param, u32. rewrite Z.mod_small; lia.
  - apply Z.bits_inj'. intros k Hk. rewrite nvm_param_bits, Z.lor_spec, Z.shiftl_spec by lia. destruct (Z.ltb_spec k 24).
    + by rewrite (Z.testbit_neg_r n) by lia.
    + by rewrite (testbit_above addr 24), orb_false_r by lia.
Qed.

(** ** What the firmware promises *)

(** [DRV_MSG_CODE_NVM_READ_NVRAM] and [DRV_MSG_CODE_NVM_WRITE_NVRAM] serve up to 32
    bytes at an offset of 24 bits.  A response to a read tells how many bytes
    it has, never more than were asked for, and all of them if it is good. *)
Definition write_ok (resp : Z) : Prop := resp = FW_MSG_CODE_OK \/ resp = FW_MSG_CODE_NVM_OK \/ resp = FW_MSG_CODE_NVM_PUT_FILE_FINISH_OK.

Class NvmLaws (M : Type) `{MfwRpc M} := {
  nvm_at : M -> Z -> Z;
  law_nvm_read m off n p raw : 0 <= off -> 0 < n <= 32 -> off + n <= 2 ^ 24 ->
    cmd p = DRV_MSG_CODE_NVM_READ_NVRAM -> param p = nvm_param off n -> p_data_dst p = Some raw -> length raw = 32%nat -> data_dst_size p = 32 ->
    exists rc p' m', mfw_rpc p m = Some (rc, p', m') /\ nvm_at m' = nvm_at m /\
      (rc = 0 -> 0 <= mcp_param p' <= n /\ exists raw', p_data_dst p' = Some raw' /\ length raw' = 32%nat /\
         (mcp_resp p' = FW_MSG_CODE_NVM_OK ->
            mcp_param p' = n /\ forall k, (k < Z.to_nat n)%nat -> raw' !! k = Some (nvm_at m (off + Z.of_nat k))));
  law_nvm_write m off n p buf : 0 <= off -> 0 < n <= 32 -> off + n <= 2 ^ 24 ->
    cmd p = DRV_MSG_CODE_NVM_WRITE_NVRAM -> param p = nvm_param off n -> p_data_src p = Some buf -> n <= Z.of_nat (length buf) -> data_src_size p = n ->
    exists rc p' m', mfw_rpc p m = Some (rc, p', m') /\
      (forall a, a < off \/ off + n <= a -> nvm_at m' a = nvm_at m a) /\
      (rc = 0 -> write_ok (mcp_resp p') -> forall k b, (k < Z.to_nat n)%nat -> buf !! k = Some b -> nvm_at m' (off + Z.of_nat k) = b)
}.

Section Nvm.
Context {M : Type} `{NvmLaws M}.
Implicit Types (m : M).

(** ** One transaction *)

Lemma buf_write_spec bs buf : (length bs <= length buf)%nat -> buf_write bs buf = Some (bs ++ drop (length bs) buf).
Proof. intros Hl. unfold buf_write. by rewrite (proj2 (Nat.ltb_ge _ _) Hl). Qed.

Lemma rd_cmd_spec m off n o_buf : 0 <= off -> 0 < n <= 32 -> off + n <= 2 ^ 24 -> n <= Z.of_nat (length o_buf) ->
  exists rc out o_buf' m', qed_mcp_nvm_rd_cmd DRV_MSG_CODE_NVM_READ_NVRAM (nvm_param off n) o_buf true m = Some (rc, out, o_buf', m') /\
    nvm_at m' = nvm_at m /\ length o_buf' = length o_buf /\ drop (Z.to_nat n) o_buf' = drop (Z.to_nat n) o_buf /\
    match out with
    | None => rc <> 0
    | Some (resp, _, sz) => rc = 0 /\
        (resp = FW_MSG_CODE_NVM_OK -> sz = n /\ forall k, (k < Z.to_nat n)%nat -> o_buf' !! k = Some (nvm_at m (off + Z.of_nat k)))
    end.
Proof.
  intros Ho Hn Hs Hl. unfold qed_mcp_nvm_rd_cmd.
  match goal with |- context [mfw_rpc ?p m] => destruct (law_nvm_read m off n p (replicate 32 0)) as (rc & p' & m' & -> & En & K); [done..|] end.
  cbn [mbind option_bind]. destruct (negb (rc =? 0)) eqn:Erc; zbool.
  - exists rc, None, o_buf, m'. by split_and!.
  - subst rc. destruct (K eq_refl) as (Hsz & raw & -> & Lr & Ok). cbn [mbind option_bind]. rewrite (proj2 (Z.ltb_ge _ _)) by lia.
    assert (Lt : length (take (Z.to_nat (mcp_param p')) raw) = Z.to_nat (mcp_param p')) by (rewrite length_take; lia).
    rewrite buf_write_spec by lia. cbn [mbind option_bind]. rewrite Lt. eexists _, _, _, m'. split; [reflexivity|]. split; [done|].
    split; [rewrite length_app, length_drop, Lt; lia|]. split.
    + rewrite drop_app_ge by lia. rewrite drop_drop, Lt. f_equal. lia.
    + split; [done|]. intros Er. destruct (Ok Er) as [Es Kd]. split; [done|]. intros k Hk.
      rewrite lookup_app_l by lia. rewrite lookup_take_lt by lia. by apply Kd.
Qed.

Lemma wr_cmd_spec m off n buf : 0 <= off -> 0 < n <= 32 -> off + n <= 2 ^ 24 -> n <= Z.of_nat (length buf) ->
  exists rc out m', qed_mcp_nvm_wr_cmd DRV_MSG_CODE_NVM_WRITE_NVRAM (nvm_param off n) n buf true m = Some (rc, out, m') /\
    (forall a, a < off \/ off + n <= a -> nvm_at m' a = nvm_at m a) /\
    match out with
    | None => rc <> 0
    | Some (resp, _) => rc = 0 /\
        (write_ok resp -> forall k b, (k < Z.to_nat n)%nat -> buf !! k = Some b -> nvm_at m' (off + Z.of_nat k) = b)
    end.
Proof.
  intros Ho Hn Hs Hl. unfold qed_mcp_nvm_wr_cmd. assert (En : u8 n = n) by (apply Z.mod_small; lia). rewrite En.
  match goal with |- context [mfw_rpc ?p m] => destruct (law_nvm_write m off n p buf) as (rc & p' & m' & -> & Fr & K); [done..|] end.
  cbn [mbind option_bind]. destruct (negb (rc =? 0)) eqn:Erc; zbool.
  - exists rc, None, m'. by split_and!.
  - subst rc. eexists _, _, m'. split; [reflexivity|]. split; [done|]. split; [done|]. by apply K.
Qed.

(** ** The loops *)

Lemma read_loop_spec fuel addr len offset prev resp p_buf m :
  0 <= addr -> 0 <= offset <= len -> addr + len <= 2 ^ 24 -> len <= Z.of_nat (length p_buf) -> 0 <= prev < 2 ^ 32 ->
  len - offset <= Z.of_nat fuel ->
  exists rc resp' p_buf' m', nvm_read_loop fuel addr offset (len - offset) prev resp p_buf m = Some (rc, resp', p_buf', m') /\
    nvm_at m' = nvm_at m /\ length p_buf' = length p_buf /\ take (Z.to_nat offset) p_buf' = take (Z.to_nat offset) p_buf /\
    drop (Z.to_nat len) p_buf' = drop (Z.to_nat len) p_buf /\
    (rc = 0 -> forall k, (Z.to_nat offset <= k < Z.to_nat len)%nat -> p_buf' !! k = Some (nvm_at m (addr + Z.of_nat k))).
Proof.
  revert offset prev resp p_buf m. induction fuel as [|fuel IH]; intros offset prev resp p_buf m Ha Ho Hs Hl Hp Hf; simpl;
    (destruct (len - offset =? 0) eqn:E0; zbool; [exists 0, resp, p_buf, m; split_and!; try done; lia|]); [lia|].
  set (n := Z.min (len - offset) MCP_DRV_NVM_BUF_LEN). assert (Hn : 0 < n <= 32 /\ n <= len - offset) by (unfold n, MCP_DRV_NVM_BUF_LEN; lia).
  rewrite set_nvm_fields by lia. set (k0 := Z.to_nat offset).
  destruct (rd_cmd_spec m (addr + offset) n (drop k0 p_buf)) as (rc & out & dst & m1 & -> & En & Ld & Dd & R); [lia..|rewrite length_drop; lia|].
  cbn [mbind option_bind]. rewrite length_drop in Ld.
  assert (Lt : length (take k0 p_buf) = k0) by (rewrite length_take; lia).
  assert (L1 : length (take k0 p_buf ++ dst) = length p_buf) by (rewrite length_app, Lt; lia).
  assert (T1 : take k0 (take k0 p_buf ++ dst) = take k0 p_buf) by (by rewrite take_app_length').
  assert (D1 : forall j, (k0 + Z.to_nat n <= j)%nat -> drop j (take k0 p_buf ++ dst) = drop j p_buf).
  { intros j Hj. rewrite drop_app_ge by lia. rewrite Lt. replace (j - k0)%nat with (Z.to_nat n + (j - k0 - Z.to_nat n))%nat by lia.
    rewrite <- drop_drop, Dd, !drop_drop. f_equal. lia. }
  destruct out as [[[resp1 prm] sz]|].
  2:{ exists rc, FW_MSG_CODE_ERROR, (take k0 p_buf ++ dst), m1. split_and!; try done. apply D1. lia. }
  destruct R as [-> R]. destruct (negb (resp1 =? FW_MSG_CODE_NVM_OK)) eqn:Er; zbool.
  { eexists _, _, _, _. split; [reflexivity|]. split_and!; try done. apply D1. lia. }
  destruct (R Er) as [-> Kd].
  replace (u32 (offset + n)) with (offset + n) by (symmetry; apply Z.mod_small; lia).
  replace (u32 (len - offset - n)) with (len - (offset + n)) by (symmetry; unfold u32; rewrite Z.mod_small; lia).
  destruct (IH (offset + n) (nvm_param (addr + offset) n) resp1 (take k0 p_buf ++ dst) m1) as (rc' & resp' & buf' & m' & -> & En' & L' & T' & D' & K');
    [lia|lia|lia|rewrite L1; lia|apply nvm_param_range; lia|lia|].
  exists rc', resp', buf', m'. split; [done|]. split; [congruence|]. split; [congruence|]. split; [|split].
  - apply (f_equal (take k0)) in T'. rewrite !take_take, Nat.min_l in T' by lia. by rewrite T', T1.
  - rewrite D'. apply D1. lia.
  - intros -> k Hk. destruct (decide (Z.to_nat (offset + n) <= k)%nat) as [Hge|Hlt]; [rewrite K' by lia; by rewrite En|].
    assert (Lk : buf' !! k = (take k0 p_buf ++ dst) !! k).
    { rewrite <- (lookup_take_lt buf' (Z.to_nat (offset + n)) k) by lia. rewrite T'. by rewrite lookup_take_lt by lia. }
    rewrite Lk, lookup_app_r, Lt by lia. rewrite Kd by lia. do 2 f_equal. lia.
Qed.

Lemma write_loop_spec fuel addr len idx rc0 resp p_buf valid m :
  0 <= addr -> 0 <= idx <= len -> addr + len <= 2 ^ 24 -> len <= Z.of_nat (length p_buf) -> len - idx <= Z.of_nat fuel ->
  exists rc resp' valid' m',
    nvm_write_loop fuel QED_NVM_WRITE_NVRAM DRV_MSG_CODE_NVM_WRITE_NVRAM addr p_buf len idx (Z.min (len - idx) MCP_DRV_NVM_BUF_LEN) rc0 resp valid m =
      Some (rc, resp', valid', m') /\
    (forall a, a < addr + idx \/ addr + len <= a -> nvm_at m' a = nvm_at m a) /\
    (rc = 0 -> forall k b, (Z.to_nat idx <= k < Z.to_nat len)%nat -> p_buf !! k = Some b -> nvm_at m' (addr + Z.of_nat k) = b) /\
    (idx = len -> rc = rc0).
Proof.
  revert idx rc0 resp valid m. induction fuel as [|fuel IH]; intros idx rc0 resp valid m Ha Hi Hs Hl Hf; simpl;
    (destruct (len <=? idx) eqn:E0; zbool; [exists rc0, resp, valid, m; split_and!; try done; lia|]); [lia|].
  set (n := Z.min (len - idx) MCP_DRV_NVM_BUF_LEN). assert (Hn : 0 < n <= 32 /\ n <= len - idx) by (unfold n, MCP_DRV_NVM_BUF_LEN; lia).
  rewrite write_param by lia.
  destruct (wr_cmd_spec m (addr + idx) n (drop (Z.to_nat idx) p_buf)) as (rc & out & m1 & -> & Fr & R); [lia..|rewrite length_drop; lia|].
  cbn [mbind option_bind]. destruct out as [[resp1 prm]|].
  2:{ exists rc, FW_MSG_CODE_ERROR, valid, m1. split_and!; try done; [|lia]. intros a Hx. apply Fr. lia. }
  destruct R as [-> R]. destruct (_ && _) eqn:Er.
  { eexists _, _, _, _. split; [reflexivity|]. split_and!; try done; [|lia]. intros a Hx. apply Fr. lia. }
  assert (Wk : write_ok resp1).
  { unfold write_ok. destruct (Z.eqb_spec resp1 FW_MSG_CODE_OK); [by left|]. destruct (Z.eqb_spec resp1 FW_MSG_CODE_NVM_OK); [by right; left|].
    destruct (Z.eqb_spec resp1 FW_MSG_CODE_NVM_PUT_FILE_FINISH_OK); [by right; right|done]. }
  rewrite (andb_false_r (negb (prm =? 0))).
  replace (u32 (idx + n)) with (idx + n) by (symmetry; apply Z.mod_small; lia).
  replace (u32 (len - (idx + n))) with (len - (idx + n)) by (symmetry; apply Z.mod_small; lia).
  destruct (IH (idx + n) 0 resp1 false m1) as (rc' & resp' & v' & m' & -> & Fr' & K' & _); [lia..|].
  exists rc', resp', v', m'. split; [done|]. split; [|split; [|lia]].
  - intros a Hx. rewrite Fr' by lia. apply Fr. lia.
  - intros -> k b Hk Hb. destruct (decide (Z.to_nat (idx + n) <= k)%nat) as [Hge|Hlt]; [apply K'; [done|lia|done]|].
    rewrite Fr' by lia. replace (addr + Z.of_nat k) with (addr + idx + Z.of_nat (k - Z.to_nat idx)) by lia.
    apply (R Wk); [lia|]. rewrite lookup_drop, <- Hb. f_equal. lia.
Qed.

(** C32: The NVRAM is read back as written: [qed_mcp_nvm_write] of any number of bytes
    at an address, in transactions of up to 32 bytes, terminates; if it returns
    0, [qed_mcp_nvm_read] of the same range terminates, and if that returns 0
    the buffer holds the bytes written and is unchanged beyond them.  The write
    changes no byte outside the range, the read changes none at all. *)
Theorem nvm_roundtrip addr len src dst (d : nvm_state (M := M)) :
  0 <= addr -> 0 < len -> addr + len <= 2 ^ 24 -> len <= Z.of_nat (length src) -> len <= Z.of_nat (length dst) ->
  exists rc d1, qed_mcp_nvm_write (Z.to_nat len) true QED_NVM_WRITE_NVRAM addr src len d = Some (rc, d1) /\
    (forall a, a < addr \/ addr + len <= a -> nvm_at (mail d1) a = nvm_at (mail d) a) /\
    (rc = 0 -> exists rc' dst' d2, qed_mcp_nvm_read (Z.to_nat len) true addr dst len d1 = Some (rc', dst', d2) /\
       nvm_at (mail d2) = nvm_at (mail d1) /\
       (rc' = 0 -> dst' = take (Z.to_nat len) src ++ drop (Z.to_nat len) dst)).
Proof.
  intros Ha Hn Hs Hl1 Hl2. unfold qed_mcp_nvm_write, nvm_cmd_of. cbn [negb]. simpl (_ =? _). cbn match.
  replace (Z.min len MCP_DRV_NVM_BUF_LEN) with (Z.min (len - 0) MCP_DRV_NVM_BUF_LEN) by (f_equal; lia).
  destruct (write_loop_spec (Z.to_nat len) addr len 0 (- EINVAL) 0 src (nvm_info_valid d) (mail d)) as (rc & resp & v & m & -> & Fr & K & _); [lia..|].
  cbn [mbind option_bind]. exists rc, (mk_nvm m resp v). split; [done|]. split; [intros a Hx; apply Fr; lia|]. intros Erc.
  unfold qed_mcp_nvm_read. cbn [negb]. simpl mail.
  destruct (read_loop_spec (Z.to_nat len) addr len 0 0 0 dst m) as (rc' & resp' & dst' & m' & E &  En & Ld & _ & Dd & Kd); [lia..|].
  rewrite Z.sub_0_r in E. rewrite E. cbn [mbind option_bind]. exists rc', dst', (mk_nvm m' resp' v). split; [done|]. split; [done|]. intros Erc'.
  rewrite <- (take_drop (Z.to_nat len) dst') , Dd. f_equal. apply list_eq. intros k.
  destruct (decide (k < Z.to_nat len)%nat) as [Hk|Hk]; [|rewrite !lookup_ge_None_2 by (rewrite length_take; lia); done].
  rewrite !lookup_take_lt by lia. rewrite Kd by (done || lia). destruct (lookup_lt_is_Some_2 src k) as [b Hb]; [lia|].
  rewrite Hb. f_equal. apply K; [done|lia|done].
Qed.
End Nvm.

(** ** A simulated firmware *)

(** An NVRAM of one byte per address; the list gives the codes of the next
    commands, 0 when it is empty. *)
Record nvm_sim := mk_nvm_sim { img : Z -> Z; codes : list Z }.
Definition sim_read (off n : Z) (m : nvm_sim) (raw : list Z) : list Z :=
  ((fun k => img m (off + Z.of_nat k)) <$> seq 0 (Z.to_nat n)) ++ drop (Z.to_nat n) raw.
Definition sim_write (off n : Z) (buf : list Z) (f : Z -> Z) (a : Z) : Z :=
  if (off <=? a) && (a <? off + n) then default 0 (buf !! Z.to_nat (a - off)) else f a.

#[export] Instance sim_rpc : MfwRpc nvm_sim := {|
  mfw_rpc p m :=
    let off := param p mod 2 ^ 24 in let n := param p / 2 ^ 24 in
    let rc := default 0 (codes m !! 0%nat) in
    let m := mk_nvm_sim (img m) (tail (codes m)) in
    if negb (rc =? 0) then Some (rc, p, m) else
    if cmd p =? DRV_MSG_CODE_NVM_READ_NVRAM then
      Some (0, p <| mcp_resp := FW_MSG_CODE_NVM_OK |> <| mcp_param := n |> <| p_data_dst := (raw ← p_data_dst p; Some (sim_read off n m raw)) |>, m)
    else if cmd p =? DRV_MSG_CODE_NVM_WRITE_NVRAM then
      Some (0, p <| mcp_resp := FW_MSG_CODE_NVM_OK |>,
            mk_nvm_sim (match p_data_src p with Some buf => sim_write off n buf (img m) | None => img m end) (codes m))
    else Some (0, p <| mcp_resp := 0 |>, m)
|}.

Lemma nvm_param_fields off n : 0 <= off < 2 ^ 24 -> nvm_param off n mod 2 ^ 24 = off /\ nvm_param off n / 2 ^ 24 = n.
Proof.
  intros Ho. unfold nvm_param. rewrite Z.mod_add, Z.div_add by lia. rewrite Z.mod_small, Z.div_small by lia. lia.
Qed.

#[export] Instance sim_nvm_laws : NvmLaws nvm_sim.
Proof.
  refine {| nvm_at := img |}.
  - intros m off n p raw Ho Hn Hs Ec Ep Ed Lr Es. unfold mfw_rpc, sim_rpc. rewrite Ep. destruct (nvm_param_fields off n) as [-> ->]; [lia|].
    destruct (negb _) eqn:Er.
    { eexists _, _, _. split; [reflexivity|]. split; [done|]. intros E. rewrite E in Er. done. }
    rewrite Ec, Ed. simpl. eexists _, _, _. split; [reflexivity|]. split; [done|]. intros _. simpl. split; [lia|].
    eexists. split; [reflexivity|]. unfold sim_read. rewrite length_app, length_fmap, length_seq, length_drop. split; [lia|]. intros _. split; [done|].
    intros k Hk. rewrite lookup_app_l by (by rewrite length_fmap, length_seq). rewrite list_lookup_fmap, lookup_seq_lt by done. done.
  - intros m off n p buf Ho Hn Hs Ec Ep Ed Hl Es. unfold mfw_rpc, sim_rpc. rewrite Ep. destruct (nvm_param_fields off n) as [-> ->]; [lia|].
    destruct (negb _) eqn:Er.
    { eexists _, _, _. split; [reflexivity|]. split; [done|]. intros E. rewrite E in Er. done. }
    rewrite Ec, Ed. simpl. eexists _, _, _. split; [reflexivity|]. simpl. split.
    + intros a Ha. unfold sim_write. destruct (Z.leb_spec off a), (Z.ltb_spec a (off + n)); simpl; lia || done.
    + intros _ _ k b Hk Hb. unfold sim_write. rewrite (proj2 (Z.leb_le _ _)), (proj2 (Z.ltb_lt _ _)) by lia. simpl.
      replace (Z.to_nat (off + Z.of_nat k - off)) with k by lia. by rewrite Hb.
Defined.

Definition nvm_sim0 : nvm_state (M := nvm_sim) := mk_nvm (mk_nvm_sim (fun _ => 255) []) 0 true.
Definition nvm_bytes : list Z := Z.of_nat <$> seq 0 70.

Lemma nvm_roundtrip_witness :
  exists d1 d2, qed_mcp_nvm_write 70 true QED_NVM_WRITE_NVRAM 0x1000 nvm_bytes 70 nvm_sim0 = Some (0, d1) /\
    qed_mcp_nvm_read 70 true 0x1000 (replicate 72 9) 70 d1 = Some (0, nvm_bytes ++ [9; 9], d2).
Proof.
  destruct (nvm_roundtrip 0x1000 70 nvm_bytes (replicate 72 9) nvm_sim0) as (rc & d1 & E & _ & K);
    [lia|lia|lia|vm_compute; discriminate|vm_compute; discriminate|].
  change (Z.to_nat 70) with 70%nat in E, K. assert (Erc : (fst <$> Some (rc, d1)) = Some 0) by (rewrite <- E; vm_compute; reflexivity). injection Erc as ->.
  destruct (K eq_refl) as (rc' & dst' & d2 & E' & _ & Kd).
  assert (Erc' : match qed_mcp_nvm_write 70 true QED_NVM_WRITE_NVRAM 0x1000 nvm_bytes 70 nvm_sim0 with
    | Some (_, d) => match qed_mcp_nvm_read 70 true 0x1000 (replicate 72 9) 70 d with Some (rc, _, _) => rc | None => 1 end
    | None => 1 end = 0) by (vm_compute; reflexivity).
  rewrite E, E' in Erc'. subst rc'.
  exists d1, d2. split; [exact E|]. rewrite E', (Kd eq_refl). reflexivity.
Defined.

(** ** What the driver takes on trust *)

(** A firmware that answers a read with a size of its own. *)
Definition size_rpc (n : Z) : MfwRpc unit := {| mfw_rpc p m := Some (0, p <| mcp_resp := FW_MSG_CODE_NVM_OK |> <| mcp_param := n |>, m) |}.

(** [qed_mcp_nvm_rd_cmd] copies as many bytes as the response says: with a size
    over 32 it reads beyond the response, and with one larger than what is left
    to read it writes beyond the caller's buffer; with a size of zero
    [qed_mcp_nvm_read] never ends, whatever the fuel. *)
Theorem nvm_read_trusts_size :
  (forall o_buf, qed_mcp_nvm_rd_cmd (H := size_rpc 33) DRV_MSG_CODE_NVM_READ_NVRAM 0 o_buf true tt = None) /\
  qed_mcp_nvm_read (H := size_rpc 8) 100 true 0 [0; 0; 0; 0] 4 (mk_nvm tt 0 true) = None /\
  (forall fuel, qed_mcp_nvm_read (H := size_rpc 0) fuel true 0 [0; 0; 0; 0] 4 (mk_nvm tt 0 true) = None).
Proof.
  split; [done|]. split; [done|]. intros fuel. unfold qed_mcp_nvm_read. cbn [negb mail].
  assert (K : forall prev resp, nvm_read_loop (H := size_rpc 0) fuel 0 0 4 prev resp [0; 0; 0; 0] tt = None); [|by rewrite K].
  induction fuel as [|fuel IH]; intros prev resp; [done|]. simpl. by rewrite IH.
Qed.
