(* ===== verification/InitOps.v ===== *)
(** * The init tool (qed_init_ops.c)

    The chip is initialised by a program: an array of commands that comes with
    the firmware file.  A command writes registers (a value, zeroes, an array of
    the file or values the driver stored in the runtime array), polls a register,
    or skips commands unless a phase or an expression over the modes matches.
    This file holds the runtime array, the firmware file and the interpreter.

    Registers and the DMA engine are reached through the class [InitBus];
    [inflate] stands for the kernel's zlib.  The result [None] is a fault: an
    access outside the file or an array, an undefined shift, or fuel used up.
    The driver is built with CONFIG_QED_BINARY_FW and CONFIG_QED_ZIPPED_FW.
    Delays and prints are left out.  The machine is little-endian. *)

From S2P Require Import Prelude DmaEngine.

(** ** Registers and DMA engine *)

Class InitBus (B : Type) := {
  ib_wr : Z -> Z -> B -> B;                                    (* qed_wr *)
  ib_rd : Z -> B -> Z * B;                                     (* qed_rd *)
  (* qed_dmae_host2grc: the source buffer, the address, the number of dwords and
     DMAE_PARAMS_RW_REPL_SRC *)
  ib_host2grc : list Z -> Z -> Z -> bool -> B -> option (Z * B);
  ib_sanity : B -> option (Z * B);                             (* qed_dmae_sanity *)
  ib_reg : B -> Z -> Z;                                        (* a register, as the function sees it *)
  ib_ok : B -> Prop;                                           (* the layer's own invariant *)
  ib_plain : Z -> Prop                                         (* a register that stores what is written *)
}.

Class InitBusLaws (B : Type) `{InitBus B} : Prop := {
  law_ib_plain a : ib_plain a -> 4 <= a < 2 ^ 25;
  law_ib_wr b a v : ib_ok b -> ib_plain a -> 0 <= v < 2 ^ 32 ->
    ib_ok (ib_wr a v b) /\ forall x, ib_plain x -> ib_reg (ib_wr a v b) x = if decide (x = a) then v else ib_reg b x;
  (* a transfer that fails may have written part of its destination *)
  law_ib_dmae b (src : list Z) a n (repl : bool) : ib_ok b -> 4 <= a < 2 ^ 25 -> a mod 4 = 0 -> 0 <= n ->
    (forall k, 0 <= k < n -> ib_plain (a + 4 * k)) ->
    (forall k v, src !! k = Some v -> 0 <= v < 2 ^ 32) ->
    (if repl then DMAE_MAX_RW_SIZE <= Z.of_nat (length src) else n <= Z.of_nat (length src)) ->
    exists rc b', ib_host2grc src a n repl b = Some (rc, b') /\
      (forall x, (forall k, 0 <= k < n -> x <> a + 4 * k) -> ib_plain x -> ib_reg b' x = ib_reg b x) /\
      (rc = 0 -> ib_ok b' /\
        forall k, 0 <= k < n ->
          ib_reg b' (a + 4 * k) = default 0 (src !! Z.to_nat (if repl then k mod DMAE_MAX_RW_SIZE else k)))
}.

(** ** Data *)

Definition QED_INIT_MAX_POLL_COUNT : nat := 100.
Definition RUNTIME_ARRAY_SIZE : Z := 34984.
Definition ANY_PHASE_ID : Z := 0xffff.
Definition MAX_ZIPPED_SIZE : Z := 8192.
Definition DMAE_READY_CB : Z := 0.
Definition PHASE_ENGINE : Z := 0.

Definition INIT_OP_READ : Z := 0.
Definition INIT_OP_WRITE : Z := 1.
Definition INIT_OP_IF_MODE : Z := 2.
Definition INIT_OP_IF_PHASE : Z := 3.
Definition INIT_OP_DELAY : Z := 4.
Definition INIT_OP_CALLBACK : Z := 5.

Definition INIT_POLL_NONE : Z := 0.
Definition INIT_POLL_EQ : Z := 1.
Definition INIT_POLL_OR : Z := 2.
Definition INIT_POLL_AND : Z := 3.

Definition INIT_SRC_INLINE : Z := 0.
Definition INIT_SRC_ZEROS : Z := 1.
Definition INIT_SRC_ARRAY : Z := 2.
Definition INIT_SRC_RUNTIME : Z := 3.

Definition INIT_ARR_STANDARD : Z := 0.
Definition INIT_ARR_ZIPPED : Z := 1.
Definition INIT_ARR_PATTERN : Z := 2.

Definition INIT_MODE_OP_NOT : Z := 0.
Definition INIT_MODE_OP_OR : Z := 1.
Definition INIT_MODE_OP_AND : Z := 2.
Definition MAX_INIT_MODE_OPS : Z := 3.

(** Fields of the commands and of the array headers. *)
Definition INIT_CALLBACK_OP_OP := mk_field 0xF 0.
Definition INIT_WRITE_OP_SOURCE := mk_field 0x7 4.
Definition INIT_WRITE_OP_WIDE_BUS := mk_field 0x1 8.
Definition INIT_WRITE_OP_ADDRESS := mk_field 0x7FFFFF 9.
Definition INIT_READ_OP_POLL_TYPE := mk_field 0xF 4.
Definition INIT_READ_OP_ADDRESS := mk_field 0x7FFFFF 9.
Definition INIT_IF_MODE_OP_CMD_OFFSET := mk_field 0xFFFF 16.
Definition INIT_IF_PHASE_OP_CMD_OFFSET := mk_field 0xFFFF 16.
Definition INIT_IF_PHASE_OP_PHASE := mk_field 0xFF 0.
Definition INIT_IF_PHASE_OP_PHASE_ID := mk_field 0xFFFF 16.
Definition INIT_ARRAY_RAW_HDR_TYPE := mk_field 0xF 0.
Definition INIT_ARRAY_STANDARD_HDR_SIZE := mk_field 0xFFFFFFF 4.
Definition INIT_ARRAY_ZIPPED_HDR_ZIPPED_SIZE := mk_field 0xFFFFFFF 4.
Definition INIT_ARRAY_PATTERN_HDR_PATTERN_SIZE := mk_field 0xF 4.
Definition INIT_ARRAY_PATTERN_HDR_REPETITIONS := mk_field 0xFFFFFF 8.

(** [union init_op]: two dwords.  The second is read as the member the command
    asks for. *)
Record init_op := mk_init_op { op_data : Z; param2 : Z }.
Definition callback_id (c : init_op) : Z := u16 (param2 c).
Definition modes_buf_offset (c : init_op) : Z := u16 (Z.shiftr (param2 c) 16).
Definition runtime_size (c : init_op) : Z := u16 (param2 c).
Definition runtime_offset (c : init_op) : Z := u16 (Z.shiftr (param2 c) 16).

(** [struct qed_rt_data]: the two arrays, NULL before [qed_init_alloc]. *)
Record qed_rt_data := mk_qed_rt_data { init_val : option (list Z); b_valid : option (list bool) }.
#[export] Instance eta_qed_rt_data : Settable qed_rt_data := fun r => mk_qed_rt_data (init_val r) (b_valid r).

(** [struct qed_fw_data]: the bytes of the firmware file, and pointers into them
    as offsets. *)
Record qed_fw_data := mk_qed_fw_data {
  fw_bytes : list Z;
  fw_ver_info : Z; modes_tree_buf : Z; init_ops : Z; arr_data : Z; fw_overlays : Z;
  fw_overlays_len : Z; init_ops_size : Z
}.
#[export] Instance eta_qed_fw_data : Settable qed_fw_data := fun r =>
  mk_qed_fw_data (fw_bytes r) (fw_ver_info r) (modes_tree_buf r) (init_ops r) (arr_data r) (fw_overlays r)
    (fw_overlays_len r) (init_ops_size r).

(** ** Memory *)

Definition byte_at (l : list Z) (a : Z) : option Z := if a <? 0 then None else l !! Z.to_nat a.
Definition le32_at (l : list Z) (a : Z) : option Z :=
  b0 ← byte_at l a; b1 ← byte_at l (a + 1); b2 ← byte_at l (a + 2); b3 ← byte_at l (a + 3);
  Some (b0 + 2 ^ 8 * b1 + 2 ^ 16 * b2 + 2 ^ 24 * b3).

(** [n] consecutive items of a buffer. *)
Definition span {A} (buf : Z -> option A) (off n : Z) : option (list A) :=
  mapM (fun k : nat => buf (off + Z.of_nat k)) (seq 0 (Z.to_nat n)).

Definition fw_op (fw : qed_fw_data) (i : Z) : option init_op :=
  d ← le32_at (fw_bytes fw) (init_ops fw + 8 * i);
  p ← le32_at (fw_bytes fw) (init_ops fw + 8 * i + 4);
  Some (mk_init_op d p).
Definition fw_word (fw : qed_fw_data) (i : Z) : option Z := le32_at (fw_bytes fw) (arr_data fw + 4 * i).
Definition fw_mode (fw : qed_fw_data) (i : Z) : option Z := byte_at (fw_bytes fw) (modes_tree_buf fw + i).

(** ** The firmware file *)

Definition BIN_BUF_INIT_FW_VER_INFO : Z := 0.
Definition BIN_BUF_INIT_CMD : Z := 1.
Definition BIN_BUF_INIT_VAL : Z := 2.
Definition BIN_BUF_INIT_MODE_TREE : Z := 3.
Definition BIN_BUF_INIT_OVERLAYS : Z := 5.

(** [struct bin_buffer_hdr]: offset and length. *)
Definition hdr_offset (l : list Z) (i : Z) : option Z := le32_at l (8 * i).
Definition hdr_length (l : list Z) (i : Z) : option Z := le32_at l (8 * i + 4).

Definition qed_init_fw_data (fw_data : option (list Z)) (fw : qed_fw_data) : option (Z * qed_fw_data) :=
  match fw_data with
  | None => Some (- EINVAL, fw)
  | Some l =>
      ver ← hdr_offset l BIN_BUF_INIT_FW_VER_INFO;
      cmd ← hdr_offset l BIN_BUF_INIT_CMD;
      val ← hdr_offset l BIN_BUF_INIT_VAL;
      tree ← hdr_offset l BIN_BUF_INIT_MODE_TREE;
      len ← hdr_length l BIN_BUF_INIT_CMD;
      ovl ← hdr_offset l BIN_BUF_INIT_OVERLAYS;
      ovl_len ← hdr_length l BIN_BUF_INIT_OVERLAYS;
      Some (0, mk_qed_fw_data l ver tree cmd val ovl ovl_len (len / 8))
  end.

(** ** The runtime array *)

(** [ok1] and [ok2]: the outcomes of the two allocations. *)
Definition qed_init_alloc (is_vf ok1 ok2 : bool) (rt : qed_rt_data) : Z * qed_rt_data :=
  if is_vf then (0, rt) else
  let rt := rt <| b_valid := if ok1 then Some (replicate (Z.to_nat RUNTIME_ARRAY_SIZE) false) else None |> in
  if negb ok1 then (- ENOMEM, rt) else
  let rt := rt <| init_val := if ok2 then Some (replicate (Z.to_nat RUNTIME_ARRAY_SIZE) 0) else None |> in
  if negb ok2 then (- ENOMEM, rt <| b_valid := None |>) else (0, rt).

Definition qed_init_free (rt : qed_rt_data) : qed_rt_data := mk_qed_rt_data None None.

(** Item [i] of an array, and an assignment to it. *)
Definition arr_get {A} (arr : option (list A)) (i : Z) : option A :=
  l ← arr; if i <? 0 then None else l !! Z.to_nat i.
Definition arr_set {A} (arr : option (list A)) (i : Z) (v : A) : option (option (list A)) :=
  l ← arr; if (0 <=? i) && (i <? Z.of_nat (length l)) then Some (Some (<[Z.to_nat i := v]> l)) else None.

Definition rt_put (i v : Z) (rt : qed_rt_data) : option qed_rt_data :=
  vals ← arr_set (init_val rt) i v;
  valid ← arr_set (b_valid rt) i true;
  Some (mk_qed_rt_data vals valid).

Definition qed_init_store_rt_reg (rt_offset val : Z) (rt : qed_rt_data) : option qed_rt_data :=
  if RUNTIME_ARRAY_SIZE <=? rt_offset then Some rt else rt_put rt_offset val rt.

Fixpoint put_words (off : Z) (vals : list Z) (rt : qed_rt_data) : option qed_rt_data :=
  match vals with
  | [] => Some rt
  | v :: vals => rt ← rt_put off v rt; put_words (off + 1) vals rt
  end.

(** [p_val]: the dwords the pointer reaches; [size] is in bytes. *)
Definition qed_init_store_rt_agg (rt_offset : Z) (p_val : list Z) (size : Z) (rt : qed_rt_data) : option qed_rt_data :=
  if RUNTIME_ARRAY_SIZE <=? u64 (rt_offset + size - 1) then Some rt else
  vals ← span (fun k => p_val !! Z.to_nat k) 0 (size / 4);
  put_words rt_offset vals rt.

(** ** Write commands *)

Section Run.
Context {B : Type} `{InitBus B}.

(** The kernel's inflate: the bytes of the input and the room for the output give
    the output when the result is Z_OK or Z_STREAM_END. *)
Variable inflate : list Z -> Z -> option (list Z).
(** [CHIP_REV_IS_SLOW]. *)
Variable is_slow : bool.

(** The hardware function: the runtime array and the device. *)
Record init_hwfn := mk_init_hwfn { rt_data : qed_rt_data; ibus : B }.

(** The length of the segment of valid entries that starts at [i]: the inner
    loop from [segment] on. *)
Fixpoint segment_loop (fuel : nat) (segment i rt_offset size : Z) (valid : option (list bool)) : option Z :=
  match fuel with
  | O => None
  | S fuel =>
      if negb (i + segment <? size) then Some segment else
      v ← arr_get valid (rt_offset + (i + segment));
      if negb v then Some segment else segment_loop fuel (u16 (segment + 1)) i rt_offset size valid
  end.

(** Mark [n] entries from [j] on as not valid. *)
Fixpoint invalidate (n : nat) (j : Z) (valid : option (list bool)) : option (option (list bool)) :=
  match n with
  | O => Some valid
  | S n => valid ← arr_set valid j false; invalidate n (j + 1) valid
  end.

(** More than a [u16] has values. *)
Definition rt_fuel : nat := Z.to_nat (2 ^ 17).

Fixpoint rt_loop (fuel : nat) (i addr rt_offset size : Z) (b_must_dmae : bool) (h : init_hwfn) : option (Z * init_hwfn) :=
  match fuel with
  | O => None
  | S fuel =>
      if negb (i <? size) then Some (0, h) else
      let rt := rt_data h in
      v ← arr_get (b_valid rt) (rt_offset + i);
      if negb v then rt_loop fuel (u16 (i + 1)) addr rt_offset size b_must_dmae h else
      if negb b_must_dmae then
        x ← arr_get (init_val rt) (rt_offset + i);
        let b := ib_wr (u32 (addr + Z.shiftl i 2)) x (ibus h) in
        valid ← arr_set (b_valid rt) (rt_offset + i) false;
        rt_loop fuel (u16 (i + 1)) addr rt_offset size b_must_dmae (mk_init_hwfn (rt <| b_valid := valid |>) b)
      else
        segment ← segment_loop rt_fuel 1 i rt_offset size (b_valid rt);
        words ← span (arr_get (init_val rt)) (rt_offset + i) segment;
        '(rc, b) ← ib_host2grc words (u32 (addr + Z.shiftl i 2)) segment false (ibus h);
        if negb (rc =? 0) then Some (rc, mk_init_hwfn rt b) else
        valid ← invalidate (Z.to_nat segment) (rt_offset + i) (b_valid rt);
        rt_loop fuel (u16 (u16 (i + segment) + 1)) addr rt_offset size b_must_dmae (mk_init_hwfn (rt <| b_valid := valid |>) b)
  end.

Definition qed_init_rt (addr rt_offset size : Z) (b_must_dmae : bool) (h : init_hwfn) : option (Z * init_hwfn) :=
  rt_loop rt_fuel 0 addr rt_offset size b_must_dmae h.

(** [n] dwords to consecutive registers. *)
Fixpoint write_words (addr i : Z) (words : list Z) (b : B) : B :=
  match words with
  | [] => b
  | v :: words => write_words addr (i + 1) words (ib_wr (u32 (addr + Z.shiftl i 2)) v b)
  end.

Definition qed_init_array_dmae (addr dmae_data_offset size : Z) (p_buf : Z -> option Z) (b_must_dmae b_can_dmae : bool)
    (b : B) : option (Z * B) :=
  words ← span p_buf dmae_data_offset size;
  if (is_slow && (size <? 16)) || negb b_can_dmae || (negb b_must_dmae && (size <? 16))
  then Some (0, write_words addr 0 words b)
  else ib_host2grc words addr size false b.

Definition zero_buffer : list Z := replicate (Z.to_nat DMAE_MAX_RW_SIZE) 0.
#[global] Arguments zero_buffer : simpl never.

Definition qed_init_fill_dmae (addr fill_count : Z) (b : B) : option (Z * B) :=
  ib_host2grc zero_buffer addr fill_count true b.

Fixpoint qed_init_fill (fill_count : nat) (addr fill : Z) (b : B) : B :=
  match fill_count with
  | O => b
  | S n => qed_init_fill n (u32 (addr + 4)) fill (ib_wr addr fill b)
  end.

(** The dwords of [unzip_buf] after [qed_unzip_data], and its result. *)
Definition qed_unzip_data (input : list Z) (max_size : Z) : Z * list Z :=
  match inflate input max_size with
  | None => (0, replicate (Z.to_nat max_size) 0)
  | Some out => (Z.of_nat (length out) / 4, out ++ replicate (Z.to_nat max_size - length out) 0)
  end.

(** [repeats] more copies of the pattern. *)
Fixpoint pattern_loop (repeats : nat) (addr offset size : Z) (p_buf : Z -> option Z) (b_must_dmae b_can_dmae : bool)
    (b : B) : option (Z * B) :=
  match repeats with
  | O => Some (0, b)
  | S n =>
      '(rc, b) ← qed_init_array_dmae addr offset size p_buf b_must_dmae b_can_dmae b;
      if negb (rc =? 0) then Some (rc, b) else
      pattern_loop n (u32 (addr + u32 (Z.shiftl size 2))) offset size p_buf b_must_dmae b_can_dmae b
  end.

Definition qed_init_cmd_array (fw : qed_fw_data) (cmd : init_op) (b_must_dmae b_can_dmae : bool) (b : B) : option (Z * B) :=
  let dmae_array_offset := param2 cmd in
  let addr := Z.shiftl (get_field INIT_WRITE_OP_ADDRESS (op_data cmd)) 2 in
  data ← fw_word fw dmae_array_offset;
  let type := get_field INIT_ARRAY_RAW_HDR_TYPE data in
  let offset := u32 (dmae_array_offset + 1) in
  if type =? INIT_ARR_ZIPPED then
    let input_len := get_field INIT_ARRAY_ZIPPED_HDR_ZIPPED_SIZE data in
    input ← span (byte_at (fw_bytes fw)) (arr_data fw + 4 * offset) input_len;
    let '(output_len, unzip_buf) := qed_unzip_data input (MAX_ZIPPED_SIZE * 4) in
    if negb (output_len =? 0)
    then qed_init_array_dmae addr 0 output_len (fun k => le32_at unzip_buf (4 * k)) b_must_dmae b_can_dmae b
    else Some (- EINVAL, b)
  else if type =? INIT_ARR_PATTERN then
    let repeats := get_field INIT_ARRAY_PATTERN_HDR_REPETITIONS data in
    let size := get_field INIT_ARRAY_PATTERN_HDR_PATTERN_SIZE data in
    pattern_loop (Z.to_nat repeats) addr offset size (fw_word fw) b_must_dmae b_can_dmae b
  else if type =? INIT_ARR_STANDARD then
    let size := get_field INIT_ARRAY_STANDARD_HDR_SIZE data in
    qed_init_array_dmae addr offset size (fw_word fw) b_must_dmae b_can_dmae b
  else Some (0, b).

(** A step on the device, lifted to the function. *)
Definition on_bus (h : init_hwfn) (r : option (Z * B)) : option (Z * init_hwfn) :=
  '(rc, b) ← r; Some (rc, mk_init_hwfn (rt_data h) b).

Definition qed_init_cmd_wr (fw : qed_fw_data) (cmd : init_op) (b_can_dmae : bool) (h : init_hwfn) : option (Z * init_hwfn) :=
  let data := op_data cmd in
  let b_must_dmae := negb (get_field INIT_WRITE_OP_WIDE_BUS data =? 0) in
  let addr := Z.shiftl (get_field INIT_WRITE_OP_ADDRESS data) 2 in
  if b_must_dmae && negb b_can_dmae then Some (- EINVAL, h) else
  let source := get_field INIT_WRITE_OP_SOURCE data in
  if source =? INIT_SRC_INLINE then on_bus h (Some (0, ib_wr addr (param2 cmd) (ibus h)))
  else if source =? INIT_SRC_ZEROS then
    if b_must_dmae || (b_can_dmae && (64 <=? param2 cmd))
    then on_bus h (qed_init_fill_dmae addr (param2 cmd) (ibus h))
    else on_bus h (Some (0, qed_init_fill (Z.to_nat (param2 cmd)) addr 0 (ibus h)))
  else if source =? INIT_SRC_ARRAY then on_bus h (qed_init_cmd_array fw cmd b_must_dmae b_can_dmae (ibus h))
  else if source =? INIT_SRC_RUNTIME then qed_init_rt addr (runtime_offset cmd) (runtime_size cmd) b_must_dmae h
  else Some (0, h).

(** ** Read and poll commands *)

Definition comp_eq (val expected_val : Z) : bool := val =? expected_val.
Definition comp_and (val expected_val : Z) : bool := Z.land val expected_val =? expected_val.
Definition comp_or (val expected_val : Z) : bool := 0 <? Z.lor val expected_val.

(** The polling loop with [n] tries left and the last value read. *)
Fixpoint poll_loop (n : nat) (comp_check : Z -> Z -> bool) (addr val data : Z) (b : B) : Z * B :=
  match n with
  | O => (val, b)
  | S n => if comp_check val data then (val, b) else let '(val, b) := ib_rd addr b in poll_loop n comp_check addr val data b
  end.

Definition qed_init_cmd_rd (cmd : init_op) (b : B) : B :=
  let data := op_data cmd in
  let addr := Z.shiftl (get_field INIT_READ_OP_ADDRESS data) 2 in
  let poll := get_field INIT_READ_OP_POLL_TYPE data in
  let '(val, b) := ib_rd addr b in
  if poll =? INIT_POLL_NONE then b else
  if poll =? INIT_POLL_EQ then snd (poll_loop QED_INIT_MAX_POLL_COUNT comp_eq addr val (param2 cmd) b) else
  if poll =? INIT_POLL_OR then snd (poll_loop QED_INIT_MAX_POLL_COUNT comp_or addr val (param2 cmd) b) else
  if poll =? INIT_POLL_AND then snd (poll_loop QED_INIT_MAX_POLL_COUNT comp_and addr val (param2 cmd) b) else b.

(** ** Control *)

Definition qed_init_cmd_cb (cmd : init_op) (b : B) : option (Z * B) :=
  if callback_id cmd =? DMAE_READY_CB then ib_sanity b else Some (- EINVAL, b).

(** The value (a [u8]) and the offset after the expression. *)
Fixpoint mode_match (fuel : nat) (fw : qed_fw_data) (offset modes : Z) : option (Z * Z) :=
  match fuel with
  | O => None
  | S fuel =>
      tree_val ← fw_mode fw offset;
      let offset := u16 (offset + 1) in
      if tree_val =? INIT_MODE_OP_NOT then
        '(a, offset) ← mode_match fuel fw offset modes; Some (Z.lxor a 1, offset)
      else if tree_val =? INIT_MODE_OP_OR then
        '(arg1, offset) ← mode_match fuel fw offset modes;
        '(arg2, offset) ← mode_match fuel fw offset modes; Some (Z.lor arg1 arg2, offset)
      else if tree_val =? INIT_MODE_OP_AND then
        '(arg1, offset) ← mode_match fuel fw offset modes;
        '(arg2, offset) ← mode_match fuel fw offset modes; Some (Z.land arg1 arg2, offset)
      else
        let bit := u8 (tree_val - MAX_INIT_MODE_OPS) in
        if 64 <=? bit then None else Some (if Z.testbit modes bit then 1 else 0, offset)
  end.

(** An expression is shorter than the space of its offsets. *)
Definition mode_fuel : nat := Z.to_nat (2 ^ 16).
#[global] Arguments mode_fuel : simpl never.
Definition qed_init_cmd_mode_match (fw : qed_fw_data) (offset modes : Z) : option (Z * Z) := mode_match mode_fuel fw offset modes.

Definition qed_init_cmd_mode (fw : qed_fw_data) (cmd : init_op) (modes : Z) : option Z :=
  '(r, _) ← qed_init_cmd_mode_match fw (modes_buf_offset cmd) modes;
  Some (if negb (r =? 0) then 0 else get_field INIT_IF_MODE_OP_CMD_OFFSET (op_data cmd)).

Definition qed_init_cmd_phase (cmd : init_op) (phase phase_id : Z) : Z :=
  let data := param2 cmd in
  if negb ((get_field INIT_IF_PHASE_OP_PHASE data =? phase) &&
           ((get_field INIT_IF_PHASE_OP_PHASE_ID data =? ANY_PHASE_ID) || (get_field INIT_IF_PHASE_OP_PHASE_ID data =? phase_id)))
  then get_field INIT_IF_PHASE_OP_CMD_OFFSET (op_data cmd) else 0.

(** ** The interpreter *)

(** One command: the code, the number of commands to skip, whether the DMA
    engine may be used from now on. *)
Definition run_cmd (fw : qed_fw_data) (phase phase_id modes : Z) (cmd : init_op) (b_dmae : bool) (h : init_hwfn)
  : option (Z * Z * bool * init_hwfn) :=
  let op := get_field INIT_CALLBACK_OP_OP (op_data cmd) in
  if op =? INIT_OP_WRITE then '(rc, h) ← qed_init_cmd_wr fw cmd b_dmae h; Some (rc, 0, b_dmae, h)
  else if op =? INIT_OP_READ then Some (0, 0, b_dmae, mk_init_hwfn (rt_data h) (qed_init_cmd_rd cmd (ibus h)))
  else if op =? INIT_OP_IF_MODE then skip ← qed_init_cmd_mode fw cmd modes; Some (0, skip, b_dmae, h)
  else if op =? INIT_OP_IF_PHASE then Some (0, qed_init_cmd_phase cmd phase phase_id, b_dmae, h)
  else if op =? INIT_OP_DELAY then Some (0, 0, b_dmae, h)
  else if op =? INIT_OP_CALLBACK then
    '(rc, b) ← qed_init_cmd_cb cmd (ibus h);
    let b_dmae := if (phase =? PHASE_ENGINE) && (callback_id cmd =? DMAE_READY_CB) then true else b_dmae in
    Some (rc, 0, b_dmae, mk_init_hwfn (rt_data h) b)
  else Some (0, 0, b_dmae, h).

Fixpoint run_loop (fuel : nat) (fw : qed_fw_data) (phase phase_id modes cmd_num : Z) (b_dmae : bool) (h : init_hwfn)
  : option (Z * init_hwfn) :=
  if negb (cmd_num <? init_ops_size fw) then Some (0, h) else
  match fuel with
  | O => None
  | S fuel =>
      cmd ← fw_op fw cmd_num;
      '(rc, skip, b_dmae, h) ← run_cmd fw phase phase_id modes cmd b_dmae h;
      if negb (rc =? 0) then Some (rc, h) else
      run_loop fuel fw phase phase_id modes (u32 (u32 (cmd_num + skip) + 1)) b_dmae h
  end.

(** [buf_ok]: the outcome of the allocation of [unzip_buf]. *)
Definition qed_init_run (buf_ok : bool) (fw : qed_fw_data) (phase phase_id modes : Z) (h : init_hwfn) : option (Z * init_hwfn) :=
  let b_dmae := negb (phase =? PHASE_ENGINE) in
  if negb buf_ok then Some (- ENOMEM, h) else
  run_loop (Z.to_nat (init_ops_size fw)) fw phase phase_id modes 0 b_dmae h.

End Run.
Arguments mk_init_hwfn {B}.
Arguments rt_data {B}.
Arguments ibus {B}.
#[global] Arguments rt_fuel : simpl never.
