(* ===== verification/InitProps.v ===== *)
(** * Properties of the init tool: registers written

    [overlay] says what the registers hold after a list of optional dwords has
    been written from an address on; each way of writing of InitOps.v is shown to
    be one. *)

From S2P Require Import Prelude DmaEngine InitOps.

(** ** Overlays *)

(** Registers [f] after the dwords [ws] (where there is one) are written from
    [addr] on. *)
Definition overlay (addr : Z) (ws : list (option Z)) (f : Z -> Z) (x : Z) : Z :=
  if (addr <=? x) && ((x - addr) mod 4 =? 0)
  then match ws !! Z.to_nat ((x - addr) / 4) with Some (Some w) => w | _ => f x end else f x.

(** The registers that [ws] changes. *)
Definition dest (addr : Z) (ws : list (option Z)) (x : Z) : Prop :=
  exists (k : nat) w, ws !! k = Some (Some w) /\ x = addr + 4 * Z.of_nat k.

Lemma overlay_at addr ws f (k : nat) : overlay addr ws f (addr + 4 * Z.of_nat k) = default (f (addr + 4 * Z.of_nat k)) (mjoin (ws !! k)).
Proof.
  unfold overlay. rewrite (proj2 (Z.leb_le addr _)) by lia.
  replace (addr + 4 * Z.of_nat k - addr) with (Z.of_nat k * 4) by lia. rewrite Z.mod_mul, Z.div_mul, Nat2Z.id by done. simpl.
  by destruct (ws !! k) as [[w|]|].
Qed.

Lemma overlay_off addr ws f x : (forall k : nat, (k < length ws)%nat -> x <> addr + 4 * Z.of_nat k) -> overlay addr ws f x = f x.
Proof.
  intros N. unfold overlay. destruct (Z.leb_spec addr x); [|done]. destruct (Z.eqb_spec ((x - addr) mod 4) 0) as [E|]; [|done].
  simpl. destruct (ws !! Z.to_nat ((x - addr) / 4)) as [[w|]|] eqn:L; [|done..]. apply lookup_lt_Some in L.
  destruct (N _ L). pose proof (Z.div_mod (x - addr) 4 ltac:(lia)). pose proof (Z.div_pos (x - addr) 4). lia.
Qed.

(** Every register is one of the destination or none of it. *)
Lemma overlay_cases addr (n : nat) x :
  (exists k : nat, (k < n)%nat /\ x = addr + 4 * Z.of_nat k) \/ (forall k : nat, (k < n)%nat -> x <> addr + 4 * Z.of_nat k).
Proof.
  destruct (decide (addr <= x < addr + 4 * Z.of_nat n /\ (x - addr) mod 4 = 0)) as [[H1 H2]|N].
  - left. exists (Z.to_nat ((x - addr) / 4)). pose proof (Z.div_mod (x - addr) 4 ltac:(lia)). pose proof (Z.div_pos (x - addr) 4). lia.
  - right. intros k Hk ->. apply N. split; [lia|]. replace (addr + 4 * Z.of_nat k - addr) with (Z.of_nat k * 4) by lia.
    by rewrite Z.mod_mul.
Qed.

Lemma overlay_not_dest addr ws f x : ~ dest addr ws x -> overlay addr ws f x = f x.
Proof.
  intros N. destruct (overlay_cases addr (length ws) x) as [(k & Hk & ->)|N']; [|by apply overlay_off].
  rewrite overlay_at. destruct (ws !! k) as [[w|]|] eqn:L; [|done..]. destruct N. by exists k, w.
Qed.

Lemma overlay_nil addr f x : overlay addr [] f x = f x.
Proof. apply overlay_off. simpl. lia. Qed.

Lemma overlay_app addr ws1 ws2 f x :
  overlay addr (ws1 ++ ws2) f x = overlay (addr + 4 * Z.of_nat (length ws1)) ws2 (overlay addr ws1 f) x.
Proof.
  destruct (overlay_cases addr (length ws1) x) as [(k & Hk & ->)|N1].
  - rewrite overlay_at, lookup_app_l by done. rewrite (overlay_off (addr + _)); [by rewrite overlay_at|]. intros; lia.
  - destruct (overlay_cases (addr + 4 * Z.of_nat (length ws1)) (length ws2) x) as [(k & Hk & ->)|N2].
    + rewrite overlay_at, (overlay_off _ ws1) by done.
      replace (addr + 4 * Z.of_nat (length ws1) + 4 * Z.of_nat k) with (addr + 4 * Z.of_nat (length ws1 + k)%nat) by lia.
      rewrite overlay_at, lookup_app_r by lia. by replace (length ws1 + k - length ws1)%nat with k by lia.
    + rewrite !overlay_off; [done|done|done|]. intros k Hk. rewrite length_app in Hk.
      destruct (decide (k < length ws1)%nat); [by apply N1|]. specialize (N2 (k - length ws1)%nat ltac:(lia)). lia.
Qed.

Lemma overlay_ext addr ws f g x : f x = g x -> overlay addr ws f x = overlay addr ws g x.
Proof. intros E. unfold overlay. rewrite E. done. Qed.

Lemma dest_app addr ws1 ws2 x :
  dest addr (ws1 ++ ws2) x <-> dest addr ws1 x \/ dest (addr + 4 * Z.of_nat (length ws1)) ws2 x.
Proof.
  split.
  - intros (k & w & L & ->). apply lookup_app_Some in L as [L|[Hk L]]; [left; by exists k, w|].
    right. exists (k - length ws1)%nat, w. split; [done|]. lia.
  - intros [(k & w & L & ->)|(k & w & L & ->)]; [exists k, w; split; [by apply lookup_app_l_Some|done]|].
    exists (length ws1 + k)%nat, w. rewrite lookup_app_r by lia. replace (length ws1 + k - length ws1)%nat with k by lia.
    split; [done|]. lia.
Qed.

(** ** Buffers *)

Lemma span_spec {A} (buf : Z -> option A) off n l :
  span buf off n = Some l <-> length l = Z.to_nat n /\ forall k v, l !! k = Some v -> buf (off + Z.of_nat k) = Some v.
Proof.
  unfold span. rewrite mapM_Some. split.
  - intros F. split; [apply Forall2_length in F; by rewrite length_seq in F|].
    intros k v L. destruct (Forall2_lookup_r _ _ _ _ _ F L) as (i & Li & E).
    apply lookup_seq in Li as [-> _]. done.
  - intros [Hl Hv]. apply Forall2_same_length_lookup. split; [by rewrite length_seq|].
    intros k i v Li L. apply lookup_seq in Li as [-> _]. simpl. by apply Hv.
Qed.

Lemma span_length {A} (buf : Z -> option A) off n l : span buf off n = Some l -> length l = Z.to_nat n.
Proof. intros E. by apply span_spec in E as [E _]. Qed.

(** All bytes of a buffer. *)
Definition bytes (l : list Z) : Prop := Forall (fun b => 0 <= b < 256) l.

Lemma byte_at_bound l a b : bytes l -> byte_at l a = Some b -> 0 <= b < 256.
Proof. unfold byte_at. intros F E. destruct (a <? 0); [done|]. by eapply (Forall_lookup_1 _ _ _ _ F). Qed.

Lemma le32_bound l a v : bytes l -> le32_at l a = Some v -> 0 <= v < 2 ^ 32.
Proof.
  intros F. unfold le32_at. destruct (byte_at l a) eqn:E0; [|done]. destruct (byte_at l (a + 1)) eqn:E1; [|done].
  destruct (byte_at l (a + 2)) eqn:E2; [|done]. destruct (byte_at l (a + 3)) eqn:E3; [|done]. simpl. intros [= <-].
  apply byte_at_bound in E0, E1, E2, E3; try done. lia.
Qed.

Definition words32 (l : list Z) : Prop := Forall (fun w => 0 <= w < 2 ^ 32) l.

Lemma span_words (buf : Z -> option Z) off n l :
  (forall a v, buf a = Some v -> 0 <= v < 2 ^ 32) -> span buf off n = Some l -> words32 l.
Proof. intros Hb E. apply span_spec in E as [_ E]. apply Forall_lookup. intros k v L. by eapply Hb, E. Qed.

(** ** Writing registers *)

Section Bus.
Context {B : Type} `{InitBus B} `{!InitBusLaws B}.
Implicit Types (b : B).

(** The destination is made of registers that store what is written. *)
Definition plain_from (addr : Z) (n : Z) : Prop := forall k, 0 <= k < n -> ib_plain (addr + 4 * k).

(** What writing [ws] from [addr] on does: nothing else changes, and when it
    succeeds the registers hold the dwords. *)
Definition wrote (addr : Z) (ws : list (option Z)) b (rc : Z) b' : Prop :=
  (forall x, ib_plain x -> ~ dest addr ws x -> ib_reg b' x = ib_reg b x) /\
  (rc = 0 -> ib_ok b' /\ forall x, ib_plain x -> ib_reg b' x = overlay addr ws (ib_reg b) x).

Lemma wrote_ok addr ws b b' :
  ib_ok b' -> (forall x, ib_plain x -> ib_reg b' x = overlay addr ws (ib_reg b) x) -> wrote addr ws b 0 b'.
Proof. intros Ok E. split; [|done]. intros x P N. rewrite E by done. by apply overlay_not_dest. Qed.

Lemma wrote_nil addr b : ib_ok b -> wrote addr [] b 0 b.
Proof. intros. apply wrote_ok; [done|]. intros. by rewrite overlay_nil. Qed.

Lemma wrote_app addr ws1 ws2 b b1 rc b2 :
  wrote addr ws1 b 0 b1 -> wrote (addr + 4 * Z.of_nat (length ws1)) ws2 b1 rc b2 -> wrote addr (ws1 ++ ws2) b rc b2.
Proof.
  intros [F1 W1] [F2 W2]. destruct (W1 eq_refl) as [Ok1 E1]. split.
  - intros x P N. rewrite dest_app in N. rewrite F2, F1; tauto.
  - intros ->. destruct (W2 eq_refl) as [Ok2 E2]. split; [done|]. intros x P. rewrite E2, overlay_app by done.
    apply overlay_ext. by apply E1.
Qed.

Lemma wrote_cons addr w ws b b1 rc b2 :
  wrote addr [w] b 0 b1 -> wrote (addr + 4) ws b1 rc b2 -> wrote addr (w :: ws) b rc b2.
Proof. intros W1 W2. apply (wrote_app addr [w] ws b b1 rc b2); [done|]. exact W2. Qed.

(** A failure on the way. *)
Lemma wrote_fail addr ws1 ws2 b rc b1 : rc <> 0 -> wrote addr ws1 b rc b1 -> wrote addr (ws1 ++ ws2) b rc b1.
Proof. intros Hrc [F1 _]. split; [|done]. intros x P N. apply F1; [done|]. rewrite dest_app in N. tauto. Qed.

Lemma wr_wrote a v b : ib_ok b -> ib_plain a -> 0 <= v < 2 ^ 32 -> wrote a [Some v] b 0 (ib_wr a v b).
Proof.
  intros Ok P Hv. destruct (law_ib_wr b a v Ok P Hv) as [Ok' E]. apply wrote_ok; [done|]. intros x Px. rewrite E by done.
  case_decide as D; [subst; replace a with (a + 4 * Z.of_nat 0) at 2 by lia; by rewrite overlay_at|].
  rewrite overlay_off; [done|]. simpl. intros. lia.
Qed.

Lemma plain_from_addr addr n k : plain_from addr n -> 0 <= k < n -> u32 (addr + Z.shiftl k 2) = addr + 4 * k.
Proof.
  intros P Hk. rewrite Z.shiftl_mul_pow2 by lia. change (2 ^ 2) with 4. rewrite (Z.mul_comm k).
  apply u32_small. pose proof (law_ib_plain _ (P k Hk)). lia.
Qed.

Lemma write_words_wrote addr ws i b : ib_ok b -> 0 <= i -> plain_from addr (i + Z.of_nat (length ws)) -> words32 ws ->
  wrote (addr + 4 * i) (Some <$> ws) b 0 (write_words addr i ws b).
Proof.
  revert i b. induction ws as [|v ws IH]; intros i b Ok Hi P W; [by apply wrote_nil|].
  apply Forall_cons_1 in W as [Hv W]. simpl in *. rewrite (plain_from_addr addr _ i P) by lia.
  pose proof (wr_wrote (addr + 4 * i) v b Ok (P i ltac:(lia)) Hv) as W1.
  eapply wrote_cons; [exact W1|]. replace (addr + 4 * i + 4) with (addr + 4 * (i + 1)) by lia.
  apply IH; [by apply W1|lia| |done]. intros k Hk. apply P. lia.
Qed.

Lemma fill_wrote n addr b v : ib_ok b -> plain_from addr (Z.of_nat n) -> 0 <= v < 2 ^ 32 ->
  wrote addr (replicate n (Some v)) b 0 (qed_init_fill n addr v b).
Proof.
  revert addr b. induction n as [|n IH]; intros addr b Ok P Hv; [by apply wrote_nil|]. simpl.
  pose proof (wr_wrote addr v b Ok ltac:(replace addr with (addr + 4 * 0) by lia; apply P; lia) Hv) as W1.
  eapply wrote_cons; [exact W1|]. destruct n as [|n]; [by apply wrote_nil, W1|].
  rewrite u32_small by (pose proof (law_ib_plain _ (P 1 ltac:(lia))); pose proof (law_ib_plain _ (P 0 ltac:(lia))); lia).
  apply IH; [by apply W1| |done]. intros k Hk. replace (addr + 4 + 4 * k) with (addr + 4 * (k + 1)) by lia. apply P. lia.
Qed.

Lemma dmae_wrote src a b : ib_ok b -> 4 <= a < 2 ^ 25 -> a mod 4 = 0 -> plain_from a (Z.of_nat (length src)) -> words32 src ->
  exists rc b', ib_host2grc src a (Z.of_nat (length src)) false b = Some (rc, b') /\ wrote a (Some <$> src) b rc b'.
Proof.
  intros Ok Ha Hm P W. destruct (law_ib_dmae b src a (Z.of_nat (length src)) false Ok Ha Hm ltac:(lia) P) as (rc & b' & E & F & R);
    [intros k v L; by apply (Forall_lookup_1 _ _ _ _ W L)|lia|].
  exists rc, b'. split; [done|]. split.
  - intros x Px N. apply F; [|done]. intros k Hk ->. apply N. destruct (lookup_lt_is_Some_2 src (Z.to_nat k)) as [w L]; [lia|].
    exists (Z.to_nat k), w. rewrite list_lookup_fmap, L. split; [done|]. lia.
  - intros ->. destruct (R eq_refl) as [Ok' R']. split; [done|]. intros x Px.
    destruct (overlay_cases a (length src) x) as [(k & Hk & ->)|N].
    + rewrite R' by lia. rewrite overlay_at, list_lookup_fmap, Nat2Z.id. destruct (lookup_lt_is_Some_2 src k Hk) as [w ->]. done.
    + rewrite overlay_off by (rewrite length_fmap; exact N). apply F; [|done].
      intros k Hk. specialize (N (Z.to_nat k) ltac:(lia)). lia.
Qed.

Lemma fill_dmae_wrote n a b : ib_ok b -> 4 <= a < 2 ^ 25 -> a mod 4 = 0 -> plain_from a (Z.of_nat n) ->
  exists rc b', qed_init_fill_dmae a (Z.of_nat n) b = Some (rc, b') /\ wrote a (replicate n (Some 0)) b rc b'.
Proof.
  intros Ok Ha Hm P. unfold qed_init_fill_dmae.
  destruct (law_ib_dmae b zero_buffer a (Z.of_nat n) true Ok Ha Hm ltac:(lia) P) as (rc & b' & E & F & R).
  { intros k v L. apply lookup_replicate_1 in L as [-> _]. lia. }
  { unfold zero_buffer. rewrite length_replicate. unfold DMAE_MAX_RW_SIZE. lia. }
  exists rc, b'. split; [done|]. split.
  - intros x Px N. apply F; [|done]. intros k Hk ->. apply N. exists (Z.to_nat k), 0.
    rewrite lookup_replicate_2 by lia. split; [done|]. lia.
  - intros ->. destruct (R eq_refl) as [Ok' R']. split; [done|]. intros x Px.
    destruct (overlay_cases a n x) as [(k & Hk & ->)|N].
    + rewrite R', overlay_at, lookup_replicate_2 by lia. simpl. unfold zero_buffer.
      pose proof (Z.mod_pos_bound (Z.of_nat k) DMAE_MAX_RW_SIZE ltac:(done)). by rewrite lookup_replicate_2 by lia.
    + rewrite overlay_off by (rewrite length_replicate; exact N). apply F; [|done].
      intros k Hk. specialize (N (Z.to_nat k) ltac:(lia)). lia.
Qed.

(** ** Arrays of the firmware file *)

Section Cmd.
Variable inflate : list Z -> Z -> option (list Z).
Variable is_slow : bool.

Lemma array_wrote addr off size buf must can b words :
  ib_ok b -> 4 <= addr < 2 ^ 25 -> addr mod 4 = 0 -> 0 <= size -> plain_from addr size ->
  span buf off size = Some words -> words32 words ->
  exists rc b', qed_init_array_dmae is_slow addr off size buf must can b = Some (rc, b') /\
    wrote addr (Some <$> words) b rc b' /\ (can = false -> rc = 0).
Proof.
  intros Ok Ha Hm Hs P E W. unfold qed_init_array_dmae. rewrite E. simpl. pose proof (span_length _ _ _ _ E) as Hl.
  destruct (_ || _) eqn:C.
  - exists 0, (write_words addr 0 words b). split; [done|]. split; [|done].
    replace addr with (addr + 4 * 0) at 1 by lia. apply write_words_wrote; try done. by replace (0 + Z.of_nat (length words)) with size by lia.
  - apply orb_false_iff in C as [C _]. apply orb_false_iff in C as [_ C]. apply negb_false_iff in C. subst can.
    destruct (dmae_wrote words addr b Ok Ha Hm) as (rc & b' & E' & W'); [by replace (Z.of_nat (length words)) with size by lia|done|].
    replace (Z.of_nat (length words)) with size in E' by lia. exists rc, b'. done.
Qed.

(** A pattern without dwords. *)
Lemma pattern_empty n addr off buf must can b :
  ib_ok b -> 4 <= addr < 2 ^ 25 -> addr mod 4 = 0 ->
  exists rc b', pattern_loop is_slow n addr off 0 buf must can b = Some (rc, b') /\
    wrote addr [] b rc b' /\ (can = false -> rc = 0).
Proof.
  revert b. induction n as [|n IH]; intros b Ok Ha Hm.
  { exists 0, b. split; [done|]. split; [by apply wrote_nil|done]. }
  simpl pattern_loop. destruct (array_wrote addr off 0 buf must can b []) as (rc & b1 & E1 & W1 & C1);
    [done|done|done|lia|intros k Hk; lia|done|by apply Forall_nil|].
  rewrite E1. simpl. destruct (Z.eqb_spec rc 0) as [->|Hrc]; simpl; [|by exists rc, b1].
  change (u32 0) with 0. rewrite Z.add_0_r, u32_small by lia.
  destruct (IH b1) as (rc & b2 & E2 & W2 & C2); [by apply W1|done|done|]. exists rc, b2. split; [done|]. split; [|done].
  apply (wrote_app addr [] [] b b1 rc b2); [done|]. simpl. by rewrite Z.add_0_r.
Qed.

Lemma pattern_wrote n addr off size buf must can b words :
  ib_ok b -> 4 <= addr < 2 ^ 25 -> addr mod 4 = 0 -> 0 < size -> plain_from addr (Z.of_nat n * size) ->
  span buf off size = Some words -> words32 words ->
  exists rc b', pattern_loop is_slow n addr off size buf must can b = Some (rc, b') /\
    wrote addr (mjoin (replicate n (Some <$> words))) b rc b' /\ (can = false -> rc = 0).
Proof.
  revert addr b. induction n as [|n IH]; intros addr b Ok Ha Hm Hs P E W.
  { exists 0, b. split; [done|]. split; [by apply wrote_nil|done]. }
  simpl pattern_loop. destruct (array_wrote addr off size buf must can b words Ok Ha Hm ltac:(lia)) as (rc & b1 & E1 & W1 & C1);
    [intros k Hk; apply P; rewrite Nat2Z.inj_succ; nia|done|done|].
  rewrite E1. simpl. destruct (Z.eqb_spec rc 0) as [->|Hrc]; simpl.
  2:{ exists rc, b1. split; [done|]. split; [by apply wrote_fail|done]. }
  pose proof (span_length _ _ _ _ E) as Hl. pose proof (proj1 (proj2 W1 eq_refl)) as Ok1.
  assert (Hn : addr + 4 * Z.of_nat (length (Some <$> words)) = addr + 4 * size) by (rewrite length_fmap; lia).
  destruct n as [|n].
  { exists 0, b1. split; [done|]. split; [|done]. eapply wrote_app; [exact W1|]. by apply wrote_nil. }
  pose proof (law_ib_plain _ (P size ltac:(rewrite !Nat2Z.inj_succ; nia))) as Hp. rewrite Z.shiftl_mul_pow2 by lia. change (2 ^ 2) with 4.
  rewrite (u32_small (size * 4)), (Z.mul_comm size 4), u32_small by lia.
  destruct (IH (addr + 4 * size) b1 Ok1) as (rc & b2 & E2 & W2 & C2); try done; try lia.
  { rewrite <- Hm, (Z.mul_comm 4), Z.mod_add by done. done. }
  { intros k Hk. replace (addr + 4 * size + 4 * k) with (addr + 4 * (size + k)) by lia. apply P. rewrite (Nat2Z.inj_succ (S n)). nia. }
  exists rc, b2. split; [done|]. split; [|done]. eapply wrote_app; [exact W1|]. by rewrite Hn.
Qed.
End Cmd.
End Bus.
