(* ===== verification/InitRt.v ===== *)
(** * Properties of the init tool: the runtime array

    Writing a range of the runtime array writes its valid entries and no other,
    one by one or by segments. *)

From S2P Require Import Prelude DmaEngine InitOps InitProps.

#[local] Arguments arr_get : simpl never.
#[local] Arguments arr_set : simpl never.

Lemma rt_fuel_big : Z.of_nat rt_fuel = 2 ^ 17.
Proof. unfold rt_fuel. by rewrite Z2Nat.id. Qed.
#[local] Opaque rt_fuel.

(** ** The arrays *)

Lemma arr_get_nat {A} (l : list A) (i : nat) : arr_get (Some l) (Z.of_nat i) = l !! i.
Proof. unfold arr_get. cbn. destruct (Z.ltb_spec (Z.of_nat i) 0); [lia|]. by rewrite Nat2Z.id. Qed.

Lemma arr_set_nat {A} (l : list A) (i : nat) v : (i < length l)%nat -> arr_set (Some l) (Z.of_nat i) v = Some (Some (<[i := v]> l)).
Proof.
  intros Hi. unfold arr_set. cbn [mbind option_bind]. rewrite (proj2 (Z.leb_le 0 _)), (proj2 (Z.ltb_lt _ _)) by lia. simpl. by rewrite Nat2Z.id.
Qed.

(** The dwords of the entries [off .. off + n - 1]: those that are valid. *)
Definition rt_words (vals : list Z) (valid : list bool) (off n : nat) : list (option Z) :=
  (fun k => if default false (valid !! k) then vals !! k else None) <$> seq off n.

(** [l'] is [l] with the entries [lo .. hi - 1] marked as not valid. *)
Definition cleared (lo hi : nat) (l l' : list bool) : Prop :=
  length l' = length l /\ forall j, (lo <= j < hi)%nat -> (j < length l)%nat -> l' !! j = Some false.
Definition kept (lo hi : nat) (l l' : list bool) : Prop :=
  length l' = length l /\ forall j, ~ (lo <= j < hi)%nat -> l' !! j = l !! j.

Lemma rt_words_app vals valid off n m : rt_words vals valid off (n + m) = rt_words vals valid off n ++ rt_words vals valid (off + n) m.
Proof. unfold rt_words. by rewrite seq_app, fmap_app. Qed.

Lemma rt_words_S vals valid off n :
  rt_words vals valid off (S n) = (if default false (valid !! off) then vals !! off else None) :: rt_words vals valid (S off) n.
Proof. done. Qed.

Lemma rt_words_ext vals l l' off n : (forall j, (off <= j < off + n)%nat -> l' !! j = l !! j) -> rt_words vals l' off n = rt_words vals l off n.
Proof. intros E. apply list_fmap_ext. intros i k L. apply lookup_seq in L as [-> ?]. by rewrite E by lia. Qed.

Lemma rt_words_length vals l off n : length (rt_words vals l off n) = n.
Proof. unfold rt_words. by rewrite length_fmap, length_seq. Qed.

(** A segment of valid entries. *)
Lemma rt_words_valid vals l off n words : (off + n <= length vals)%nat ->
  (forall k, (k < n)%nat -> l !! (off + k)%nat = Some true) -> length words = n ->
  (forall k v, words !! k = Some v -> vals !! (off + k)%nat = Some v) -> rt_words vals l off n = Some <$> words.
Proof.
  intros Hv Hl <- Hw. apply list_eq. intros k. unfold rt_words. rewrite !list_lookup_fmap.
  destruct (decide (k < length words)%nat) as [Hk|Hk].
  - destruct (lookup_lt_is_Some_2 words k Hk) as [v L]. rewrite L, lookup_seq_lt by done. simpl. rewrite Hl by done. simpl.
    by rewrite (Hw _ _ L).
  - rewrite !lookup_ge_None_2 by (rewrite ?length_seq; lia). done.
Qed.

Lemma cleared_trans lo mid hi l l1 l2 : (lo <= mid <= hi)%nat ->
  cleared lo mid l l1 -> kept mid hi l1 l2 -> cleared mid hi l1 l2 -> cleared lo hi l l2.
Proof.
  intros Hm [L1 C1] [L2 K2] [_ C2]. split; [congruence|]. intros j Hj Hl. destruct (decide (mid <= j)%nat); [apply C2; [lia|congruence]|].
  rewrite K2 by lia. apply C1; [lia|done].
Qed.

Lemma kept_trans lo mid hi l l1 l2 : (lo <= mid <= hi)%nat -> kept lo mid l l1 -> kept mid hi l1 l2 -> kept lo hi l l2.
Proof. intros Hm [L1 K1] [L2 K2]. split; [congruence|]. intros j Hj. rewrite K2, K1 by lia. done. Qed.

Lemma kept_refl lo hi l : kept lo hi l l.
Proof. done. Qed.

Lemma invalidate_spec n j l : (j + n <= length l)%nat ->
  exists l', invalidate n (Z.of_nat j) (Some l) = Some (Some l') /\ cleared j (j + n) l l' /\ kept j (j + n) l l'.
Proof.
  revert j l. induction n as [|n IH]; intros j l Hl.
  { exists l. split; [done|]. split; [|done]. split; [done|]. intros. lia. }
  simpl. rewrite arr_set_nat by lia. simpl. replace (Z.of_nat j + 1) with (Z.of_nat (S j)) by lia.
  destruct (IH (S j) (<[j := false]> l)) as (l' & -> & C & K); [rewrite length_insert; lia|].
  assert (K1 : kept j (S j) l (<[j := false]> l)).
  { split; [by rewrite length_insert|]. intros i Hi. rewrite list_lookup_insert_ne by lia. done. }
  assert (C1 : cleared j (S j) l (<[j := false]> l)).
  { split; [by rewrite length_insert|]. intros i Hi Hi'. replace i with j by lia. by rewrite list_lookup_insert_eq by lia. }
  exists l'. split; [done|]. replace (j + S n)%nat with (S j + n)%nat by lia.
  split; [by eapply (cleared_trans _ (S j)); [lia|..]|by eapply (kept_trans _ (S j)); [lia|..]].
Qed.

Lemma segment_spec fuel (s i off size : nat) l :
  (1 <= s)%nat -> (i + s <= size)%nat -> (off + size <= length l)%nat -> Z.of_nat size < 2 ^ 16 -> (size - i - s < fuel)%nat ->
  exists s', segment_loop fuel (Z.of_nat s) (Z.of_nat i) (Z.of_nat off) (Z.of_nat size) (Some l) = Some (Z.of_nat s') /\
    (s <= s')%nat /\ (i + s' <= size)%nat /\ (forall k, (s <= k < s')%nat -> l !! (off + i + k)%nat = Some true) /\
    ((i + s' < size)%nat -> l !! (off + i + s')%nat = Some false).
Proof.
  revert s. induction fuel as [|fuel IH]; intros s H1 Hs Hl Hsz Hf; [lia|]. simpl.
  destruct (Z.ltb_spec (Z.of_nat i + Z.of_nat s) (Z.of_nat size)) as [Hlt|Hge]; simpl.
  2:{ exists s. split; [done|]. split; [lia|]. split; [lia|]. split; intros; lia. }
  replace (Z.of_nat off + (Z.of_nat i + Z.of_nat s)) with (Z.of_nat (off + i + s)%nat) by lia. rewrite arr_get_nat.
  destruct (lookup_lt_is_Some_2 l (off + i + s)%nat) as [[] E]; [lia| |]; rewrite E; simpl.
  - rewrite u16_small by lia. replace (Z.of_nat s + 1) with (Z.of_nat (S s)) by lia.
    destruct (IH (S s)) as (s' & E' & H2 & H3 & H4 & H5); [lia..|]. exists s'. split; [done|]. split; [lia|]. split; [lia|].
    split; [|done]. intros k Hk. destruct (decide (k = s)) as [->|]; [done|]. apply H4. lia.
  - exists s. split; [done|]. split; [lia|]. split; [lia|]. split; [intros; lia|done].
Qed.

(** ** Writing a range *)

Section Rt.
Context {B : Type} `{InitBus B} `{!InitBusLaws B}.

(** What the loop does from entry [i] on. *)
Definition rt_done (vals : list Z) (l : list bool) (addr : Z) (lo hi : nat) (must : bool) (b : B) (rc : Z) (h' : init_hwfn (B:=B)) : Prop :=
  wrote addr (rt_words vals l lo (hi - lo)) b rc (ibus h') /\
  exists l', rt_data h' = mk_qed_rt_data (Some vals) (Some l') /\ kept lo hi l l' /\ (rc = 0 -> cleared lo hi l l') /\
    (must = false -> rc = 0).

(** Entries [lo .. mid - 1] done, then the rest. *)
Lemma rt_done_step vals l l1 addr lo mid hi must b b1 rc h' :
  (lo <= mid <= hi)%nat -> wrote addr (rt_words vals l lo (mid - lo)) b 0 b1 -> cleared lo mid l l1 -> kept lo mid l l1 ->
  rt_done vals l1 (addr + 4 * Z.of_nat (mid - lo)) mid hi must b1 rc h' -> rt_done vals l addr lo hi must b rc h'.
Proof.
  intros Hm W C K (W' & l' & E & K' & C' & M). split.
  - replace (hi - lo)%nat with ((mid - lo) + (hi - mid))%nat by lia. rewrite rt_words_app. eapply wrote_app; [exact W|].
    rewrite rt_words_length. replace (lo + (mid - lo))%nat with mid by lia.
    rewrite <- (rt_words_ext vals l l1 mid); [exact W'|]. intros j Hj. apply K. lia.
  - exists l'. split; [done|]. split; [by eapply kept_trans|]. split; [|done]. intros Hrc. by eapply cleared_trans; [|done..|by apply C'].
Qed.

Lemma rt_done_end vals l addr hi must h : ib_ok (ibus h) -> rt_data h = mk_qed_rt_data (Some vals) (Some l) ->
  rt_done vals l addr hi hi must (ibus h) 0 h.
Proof.
  intros Ok E. split; [replace (hi - hi)%nat with O by lia; by apply wrote_nil|]. exists l. split; [done|].
  split; [done|]. split; [|done]. intros _. split; [done|]. intros. lia.
Qed.

(** An entry that is not valid is passed over. *)
Lemma rt_done_skip vals l addr lo hi must b rc h' :
  (lo < hi)%nat -> ib_ok b -> l !! lo = Some false -> rt_done vals l (addr + 4) (S lo) hi must b rc h' -> rt_done vals l addr lo hi must b rc h'.
Proof.
  intros Hlt Ok Hl D. apply (rt_done_step vals l l addr lo (S lo) hi must b b); [lia| | |done|].
  - replace (S lo - lo)%nat with 1%nat by lia. unfold rt_words. simpl. rewrite Hl. simpl. apply wrote_ok; [done|].
    intros x _. symmetry. apply overlay_not_dest. intros (k & w & L & _). destruct k; done.
  - split; [done|]. intros j Hj Hlen. by replace j with lo by lia.
  - replace (S lo - lo)%nat with 1%nat by lia. done.
Qed.

(** The segment that starts at a valid entry, moved by the DMA engine. *)
Lemma segment_dmae vals l (i off size : nat) addr (b : B) :
  ib_ok b -> length vals = length l -> words32 vals ->
  4 <= addr < 2 ^ 25 -> addr mod 4 = 0 -> plain_from (B:=B) addr (Z.of_nat size) ->
  (off + size <= length l)%nat -> Z.of_nat size < 2 ^ 16 - 1 -> Z.of_nat i < Z.of_nat size -> l !! (off + i)%nat = Some true ->
  exists s words rc b1, segment_loop rt_fuel 1 (Z.of_nat i) (Z.of_nat off) (Z.of_nat size) (Some l) = Some (Z.of_nat s) /\
    span (arr_get (Some vals)) (Z.of_nat (off + i)) (Z.of_nat s) = Some words /\
    ib_host2grc words (addr + 4 * Z.of_nat i) (Z.of_nat s) false b = Some (rc, b1) /\
    wrote (addr + 4 * Z.of_nat i) (rt_words vals l (off + i) s) b rc b1 /\
    (1 <= s)%nat /\ (i + s <= size)%nat /\ ((i + s < size)%nat -> l !! (off + i + s)%nat = Some false).
Proof.
  intros Ok Hlen W Ha Hm P Hr Hsz Hi Ev.
  destruct (segment_spec rt_fuel 1 i off size l) as (s & Es & S1 & S2 & S3 & S4); [lia..|pose proof rt_fuel_big; lia|].
  assert (Hseg : forall k, (k < s)%nat -> l !! (off + i + k)%nat = Some true).
  { intros k Hk. destruct k; [by rewrite Nat.add_0_r|]. apply S3. lia. }
  set (words := take s (drop (off + i) vals)).
  assert (Hwl : length words = s) by (unfold words; rewrite length_take, length_drop; lia).
  assert (Hwv : forall k v, words !! k = Some v -> vals !! (off + i + k)%nat = Some v).
  { intros k v L. unfold words in L. apply lookup_take_Some in L as [L _]. by rewrite lookup_drop in L. }
  pose proof (rt_words_valid vals l (off + i) s words ltac:(lia) Hseg Hwl Hwv) as Ew.
  pose proof (law_ib_plain _ (P (Z.of_nat i) ltac:(lia))) as Hb.
  destruct (dmae_wrote words (addr + 4 * Z.of_nat i) b Ok) as (rc & b1 & E1 & W1).
  { lia. } { rewrite <- Hm, (Z.mul_comm 4), Z.mod_add by done. done. }
  { intros k Hk. replace (addr + 4 * Z.of_nat i + 4 * k) with (addr + 4 * (Z.of_nat i + k)) by lia. apply P. lia. }
  { by apply Forall_take, Forall_drop. }
  exists s, words, rc, b1. rewrite Hwl in E1. rewrite Ew. split; [exact Es|]. split; [|done].
  apply span_spec. split; [lia|]. intros k v L. replace (Z.of_nat (off + i) + Z.of_nat k) with (Z.of_nat (off + i + k)%nat) by lia.
  rewrite arr_get_nat. by apply Hwv.
Qed.

Lemma rt_loop_spec fuel vals l (i off size : nat) addr must h :
  ib_ok (ibus h) -> rt_data h = mk_qed_rt_data (Some vals) (Some l) -> length vals = length l -> words32 vals ->
  4 <= addr < 2 ^ 25 -> addr mod 4 = 0 -> plain_from (B:=B) addr (Z.of_nat size) ->
  (off + size <= length l)%nat -> Z.of_nat size < 2 ^ 16 - 1 -> (i <= size)%nat -> (size - i < fuel)%nat ->
  exists rc h', rt_loop fuel (Z.of_nat i) addr (Z.of_nat off) (Z.of_nat size) must h = Some (rc, h') /\
    rt_done vals l (addr + 4 * Z.of_nat i) (off + i) (off + size) must (ibus h) rc h'.
Proof.
  intros Ok Ert Hlen W Ha Hm P Hr Hsz. revert i l h Ok Ert Hlen Hr. induction fuel as [|fuel IH]; intros i l h Ok Ert Hlen Hr Hi Hf; [lia|].
  simpl. destruct (Z.ltb_spec (Z.of_nat i) (Z.of_nat size)) as [Hlt|Hge]; simpl.
  2:{ exists 0, h. split; [done|]. replace i with size by lia. by apply rt_done_end. }
  rewrite Ert. simpl. replace (Z.of_nat off + Z.of_nat i) with (Z.of_nat (off + i)%nat) by lia. rewrite (arr_get_nat l).
  destruct (lookup_lt_is_Some_2 l (off + i)%nat) as [v Ev]; [lia|]. rewrite Ev. simpl.
  rewrite (plain_from_addr addr _ _ P) by lia. replace (u16 (Z.of_nat i + 1)) with (Z.of_nat (S i)) by (rewrite u16_small; lia).
  assert (Eaddr : forall n : nat, addr + 4 * Z.of_nat (i + n)%nat = addr + 4 * Z.of_nat i + 4 * Z.of_nat n) by lia.
  assert (Hpl : ib_plain (addr + 4 * Z.of_nat i)) by (apply P; lia). destruct v; simpl.
  2:{ destruct (IH (S i) l h) as (rc & h' & E & D); [done..|lia|lia|]. exists rc, h'. split; [exact E|].
      apply rt_done_skip; [lia|done|done|]. replace (S (off + i))%nat with (off + S i)%nat by lia.
      by replace (addr + 4 * Z.of_nat i + 4) with (addr + 4 * Z.of_nat (S i)) by lia. }
  destruct must; simpl.
  - (* by segments *)
    destruct (segment_dmae vals l i off size addr (ibus h)) as (s & words & rc & b1 & Es & Esp & E1 & W1 & S1 & S2 & S4); [done..|].
    rewrite Es. simpl. rewrite Esp. simpl. rewrite E1. simpl. destruct (Z.eqb_spec rc 0) as [->|Hrc]; simpl.
    2:{ exists rc, (mk_init_hwfn (mk_qed_rt_data (Some vals) (Some l)) b1). split; [done|]. split.
        - replace (off + size - (off + i))%nat with (s + (size - i - s))%nat by lia. rewrite rt_words_app. by apply wrote_fail.
        - exists l. split; [done|]. split; [done|]. split; [by intros ->|done]. }
    rewrite Nat2Z.id. destruct (invalidate_spec s (off + i) l) as (l1 & -> & C1 & K1); [lia|]. simpl.
    rewrite (u16_small (Z.of_nat i + Z.of_nat s)), u16_small by lia.
    destruct (decide (i + s = size)%nat) as [Hend|Hmore].
    + (* the segment ends the range *)
      destruct fuel as [|fuel]; [lia|]. simpl. rewrite (proj2 (Z.ltb_ge _ _)) by lia. simpl. eexists 0, _. split; [done|].
      eapply (rt_done_step vals l l1 _ (off + i) (off + i + s)); [lia|by replace (off + i + s - (off + i))%nat with s by lia|done|done|].
      replace (off + i + s)%nat with (off + size)%nat by lia. by apply rt_done_end; [apply W1|].
    + replace (Z.of_nat i + Z.of_nat s + 1) with (Z.of_nat (i + s + 1)%nat) by lia.
      destruct (IH (i + s + 1)%nat l1 (mk_init_hwfn (mk_qed_rt_data (Some vals) (Some l1)) b1)) as (rc & h' & E & D);
        [by apply W1|done|by rewrite Hlen; symmetry; apply C1|rewrite (proj1 C1); lia|lia|lia|]. exists rc, h'. split; [exact E|].
      eapply (rt_done_step vals l l1 _ (off + i) (off + i + s)); [lia|by replace (off + i + s - (off + i))%nat with s by lia|done|done|].
      apply rt_done_skip; [lia|by apply W1|rewrite (proj2 K1) by lia; apply S4; lia|].
      replace (S (off + i + s)) with (off + (i + s + 1))%nat by lia. simpl in D.
      replace (addr + 4 * Z.of_nat i + 4 * Z.of_nat (off + i + s - (off + i)) + 4) with (addr + 4 * Z.of_nat (i + s + 1)%nat) by lia. done.
  - (* one by one *)
    rewrite arr_get_nat. destruct (lookup_lt_is_Some_2 vals (off + i)%nat) as [x Ex]; [lia|]. rewrite Ex. simpl.
    rewrite arr_set_nat by lia. simpl. pose proof (wr_wrote _ x (ibus h) Ok Hpl (Forall_lookup_1 _ _ _ _ W Ex)) as W1.
    destruct (invalidate_spec 1 (off + i) l) as (l1 & E1 & C1 & K1); [lia|]. simpl in E1. rewrite arr_set_nat in E1 by lia.
    injection E1 as E1. rewrite E1. destruct (IH (S i) l1 (mk_init_hwfn (mk_qed_rt_data (Some vals) (Some l1)) (ib_wr (addr + 4 * Z.of_nat i) x (ibus h))))
      as (rc & h' & E & D); [by apply W1|done|by rewrite Hlen; symmetry; apply C1|rewrite (proj1 C1); lia|lia|lia|].
    exists rc, h'. split; [exact E|]. apply (rt_done_step vals l l1 _ (off + i) (off + i + 1) _ _ _ (ib_wr (addr + 4 * Z.of_nat i) x (ibus h))); [lia| |done|done|].
    + replace (off + i + 1 - (off + i))%nat with 1%nat by lia. unfold rt_words. simpl. rewrite Ev. simpl. by rewrite Ex.
    + replace (off + i + 1)%nat with (off + S i)%nat by lia. simpl in D.
      by replace (addr + 4 * Z.of_nat i + 4 * Z.of_nat (off + S i - (off + i))) with (addr + 4 * Z.of_nat (S i)) by lia.
Qed.
End Rt.
