(* ===== verification/InitRun.v ===== *)
(** * Properties of the init tool: commands and programs

    The dwords a write command asks for, whatever its source, and the meaning of
    programs made of nested conditional blocks. *)

From S2P Require Import Prelude DmaEngine InitOps InitProps InitRt.

#[local] Opaque rt_fuel.

(** ** Fields *)

Lemma get_field_nonneg f v : 0 <= f_mask f -> 0 <= get_field f v.
Proof. intros. unfold get_field. apply Z.land_nonneg. by right. Qed.

Lemma get_field_bound f v n : 0 <= n -> f_mask f = 2 ^ n - 1 -> 0 <= get_field f v < 2 ^ n.
Proof. intros Hn E. unfold get_field. rewrite E, land_pow2_mask by lia. apply Z.mod_pos_bound. lia. Qed.

(** ** The dwords of a write command *)

(** A dword for each register. *)
Notation present := (fmap (M:=list) (@Some Z)).

Section Words.
Variable inflate : list Z -> Z -> option (list Z).

(** The array of a command: its dwords, repeated for a pattern; a zipped array
    that does not inflate to a dword is refused. *)
Definition array_words (fw : qed_fw_data) (cmd : init_op) : option (list (option Z)) :=
  data ← fw_word fw (param2 cmd);
  let type := get_field INIT_ARRAY_RAW_HDR_TYPE data in
  let offset := u32 (param2 cmd + 1) in
  if type =? INIT_ARR_ZIPPED then
    input ← span (byte_at (fw_bytes fw)) (arr_data fw + 4 * offset) (get_field INIT_ARRAY_ZIPPED_HDR_ZIPPED_SIZE data);
    out ← inflate input (MAX_ZIPPED_SIZE * 4);
    if Z.of_nat (length out) / 4 =? 0 then None else
    words ← span (fun k => le32_at out (4 * k)) 0 (Z.of_nat (length out) / 4);
    Some (present words)
  else if type =? INIT_ARR_PATTERN then
    words ← span (fw_word fw) offset (get_field INIT_ARRAY_PATTERN_HDR_PATTERN_SIZE data);
    Some (mjoin (M:=list) (replicate (Z.to_nat (get_field INIT_ARRAY_PATTERN_HDR_REPETITIONS data)) (present words)))
  else if type =? INIT_ARR_STANDARD then
    words ← span (fw_word fw) offset (get_field INIT_ARRAY_STANDARD_HDR_SIZE data);
    Some (present words)
  else Some (present []).

Definition cmd_words (fw : qed_fw_data) (rt : qed_rt_data) (cmd : init_op) : option (list (option Z)) :=
  let source := get_field INIT_WRITE_OP_SOURCE (op_data cmd) in
  if source =? INIT_SRC_INLINE then Some [Some (param2 cmd)]
  else if source =? INIT_SRC_ZEROS then Some (replicate (Z.to_nat (param2 cmd)) (Some 0))
  else if source =? INIT_SRC_ARRAY then array_words fw cmd
  else if source =? INIT_SRC_RUNTIME then
    vals ← init_val rt; valid ← b_valid rt;
    if runtime_offset cmd + runtime_size cmd <=? RUNTIME_ARRAY_SIZE
    then Some (rt_words vals valid (Z.to_nat (runtime_offset cmd)) (Z.to_nat (runtime_size cmd))) else None
  else Some [].

Definition cmd_addr (cmd : init_op) : Z := Z.shiftl (get_field INIT_WRITE_OP_ADDRESS (op_data cmd)) 2.
Definition wide_bus (cmd : init_op) : bool := negb (get_field INIT_WRITE_OP_WIDE_BUS (op_data cmd) =? 0).

(** The range of the runtime array the command uses up. *)
Definition rt_range (cmd : init_op) : nat * nat :=
  if get_field INIT_WRITE_OP_SOURCE (op_data cmd) =? INIT_SRC_RUNTIME
  then (Z.to_nat (runtime_offset cmd), Z.to_nat (runtime_offset cmd) + Z.to_nat (runtime_size cmd))%nat else (0, 0)%nat.

(** The runtime array after [qed_init_alloc]. *)
Definition rt_ok (rt : qed_rt_data) : Prop :=
  exists vals valid, rt = mk_qed_rt_data (Some vals) (Some valid) /\
    Z.of_nat (length vals) = RUNTIME_ARRAY_SIZE /\ length valid = length vals /\ words32 vals.

(** Its entries after a command. *)
Definition rt_after (cmd : init_op) (rc : Z) (rt rt' : qed_rt_data) : Prop :=
  exists valid valid', b_valid rt = Some valid /\ rt' = mk_qed_rt_data (init_val rt) (Some valid') /\
    kept (rt_range cmd).1 (rt_range cmd).2 valid valid' /\ (rc = 0 -> cleared (rt_range cmd).1 (rt_range cmd).2 valid valid').

Lemma rt_after_refl cmd rc rt : rt_ok rt -> get_field INIT_WRITE_OP_SOURCE (op_data cmd) <> INIT_SRC_RUNTIME -> rt_after cmd rc rt rt.
Proof.
  intros (vals & valid & -> & _) N. exists valid, valid. split; [done|]. split; [done|]. split; [done|]. intros _.
  unfold rt_range. rewrite (proj2 (Z.eqb_neq _ _)) by done. split; [done|]. simpl. lia.
Qed.

Lemma cmd_addr_ok cmd : 4 <= cmd_addr cmd -> 4 <= cmd_addr cmd < 2 ^ 25 /\ cmd_addr cmd mod 4 = 0.
Proof.
  unfold cmd_addr. pose proof (get_field_bound INIT_WRITE_OP_ADDRESS (op_data cmd) 23 ltac:(lia) eq_refl).
  rewrite Z.shiftl_mul_pow2 by lia. change (2 ^ 2) with 4. intros. split; [lia|]. by apply Z.mod_mul.
Qed.

(** Padding does not change the dwords before it. *)
Lemma byte_at_app l1 l2 a b : byte_at l1 a = Some b -> byte_at (l1 ++ l2) a = Some b.
Proof. unfold byte_at. destruct (a <? 0); [done|]. apply lookup_app_l_Some. Qed.

Lemma le32_at_app l1 l2 a w : le32_at l1 a = Some w -> le32_at (l1 ++ l2) a = Some w.
Proof.
  unfold le32_at. destruct (byte_at l1 a) eqn:E0; [|done]. destruct (byte_at l1 (a + 1)) eqn:E1; [|done].
  destruct (byte_at l1 (a + 2)) eqn:E2; [|done]. destruct (byte_at l1 (a + 3)) eqn:E3; [|done].
  by rewrite (byte_at_app _ _ _ _ E0), (byte_at_app _ _ _ _ E1), (byte_at_app _ _ _ _ E2), (byte_at_app _ _ _ _ E3).
Qed.

Lemma span_mono {A} (buf buf' : Z -> option A) off n l :
  (forall a v, buf a = Some v -> buf' a = Some v) -> span buf off n = Some l -> span buf' off n = Some l.
Proof. intros M. rewrite !span_spec. intros [Hl Hv]. split; [done|]. intros k v L. by apply M, Hv. Qed.

Lemma mjoin_length {A} n (l : list A) : length (mjoin (replicate n l)) = (n * length l)%nat.
Proof. induction n as [|n IH]; [done|]. simpl. change (mjoin (l :: replicate n l)) with (l ++ mjoin (replicate n l)). rewrite length_app, IH. lia. Qed.

Lemma mjoin_nils {A} n : mjoin (replicate n (@nil A)) = [].
Proof. by induction n. Qed.

(** ** Write commands *)

Section Write.
Context {B : Type} `{InitBus B} `{!InitBusLaws B}.
Variable is_slow : bool.

Lemma cmd_array_wrote fw cmd must can (b : B) ws :
  ib_ok b -> bytes (fw_bytes fw) -> (forall i n o, inflate i n = Some o -> bytes o) ->
  4 <= cmd_addr cmd -> array_words fw cmd = Some ws -> plain_from (B:=B) (cmd_addr cmd) (Z.of_nat (length ws)) ->
  exists rc b', qed_init_cmd_array inflate is_slow fw cmd must can b = Some (rc, b') /\
    wrote (cmd_addr cmd) ws b rc b' /\ (can = false -> rc = 0).
Proof.
  intros Ok Fb Fi Ha Ew P. destruct (cmd_addr_ok cmd Ha) as [Ha' Hm]. unfold qed_init_cmd_array, array_words in *.
  fold (cmd_addr cmd). destruct (fw_word fw (param2 cmd)) as [data|] eqn:Ed; [|done]. simpl in *.
  assert (Fw : forall a v, fw_word fw a = Some v -> 0 <= v < 2 ^ 32) by (intros a v; by apply le32_bound).
  destruct (_ =? INIT_ARR_ZIPPED).
  - destruct (span (byte_at _) _ _) as [input|]; [|done]. simpl in *. unfold qed_unzip_data.
    destruct (inflate input _) as [out|] eqn:Ei; [|done]. simpl in *.
    destruct (_ =? 0); simpl; [done|]. destruct (span _ 0 _) as [words|] eqn:Es; [|done]. injection Ew as <-.
    rewrite length_fmap, (span_length _ _ _ _ Es), Z2Nat.id in P by (apply Z.div_pos; lia).
    apply (array_wrote is_slow _ _ _ _ must can b words); try done; [apply Z.div_pos; lia| |].
    + eapply span_mono; [|exact Es]. intros a v. apply le32_at_app.
    + eapply span_words; [|exact Es]. intros a v. apply le32_bound. by eapply Fi.
  - destruct (_ =? INIT_ARR_PATTERN).
    + destruct (span _ _ _) as [words|] eqn:Es; [|done]. injection Ew as <-.
      pose proof (get_field_nonneg INIT_ARRAY_PATTERN_HDR_PATTERN_SIZE data ltac:(done)) as Hsz.
      rewrite mjoin_length, length_fmap in P. pose proof (span_length _ _ _ _ Es) as Hl.
      destruct (decide (get_field INIT_ARRAY_PATTERN_HDR_PATTERN_SIZE data = 0)) as [E0|N0].
      * rewrite E0 in *. assert (words = []) as -> by (by apply nil_length_inv). rewrite fmap_nil, mjoin_nils. by apply pattern_empty.
      * apply (pattern_wrote is_slow _ _ _ _ _ must can b words); try done; [lia| |by eapply span_words].
        replace (Z.of_nat _ * _) with (Z.of_nat (Z.to_nat (get_field INIT_ARRAY_PATTERN_HDR_REPETITIONS data) * length words)) by lia. done.
    + destruct (_ =? INIT_ARR_STANDARD).
      * destruct (span _ _ _) as [words|] eqn:Es; [|done]. injection Ew as <-.
        pose proof (get_field_nonneg INIT_ARRAY_STANDARD_HDR_SIZE data ltac:(done)).
        rewrite length_fmap, (span_length _ _ _ _ Es), Z2Nat.id in P by done.
        apply (array_wrote is_slow _ _ _ _ must can b words); try done. by eapply span_words.
      * injection Ew as <-. exists 0, b. split; [done|]. split; [by apply wrote_nil|done].
Qed.

(** A source other than the runtime array. *)
Lemma on_bus_wrote cmd rc b' (h : init_hwfn (B:=B)) ws (can : bool) r :
  rt_ok (rt_data h) -> get_field INIT_WRITE_OP_SOURCE (op_data cmd) <> INIT_SRC_RUNTIME ->
  r = Some (rc, b') -> wrote (cmd_addr cmd) ws (ibus h) rc b' -> (can = false -> rc = 0) ->
  exists rc h', on_bus h r = Some (rc, h') /\ wrote (cmd_addr cmd) ws (ibus h) rc (ibus h') /\
    rt_after cmd rc (rt_data h) (rt_data h') /\ (can = false -> rc = 0).
Proof.
  intros R N -> W C. exists rc, (mk_init_hwfn (rt_data h) b'). split; [done|]. split; [done|]. split; [by apply rt_after_refl|done].
Qed.

Lemma cmd_wr_spec fw cmd can (h : init_hwfn (B:=B)) ws :
  ib_ok (ibus h) -> rt_ok (rt_data h) -> bytes (fw_bytes fw) -> (forall i n o, inflate i n = Some o -> bytes o) ->
  0 <= param2 cmd < 2 ^ 32 -> 4 <= cmd_addr cmd -> (wide_bus cmd = true -> can = true) ->
  cmd_words fw (rt_data h) cmd = Some ws -> plain_from (B:=B) (cmd_addr cmd) (Z.of_nat (length ws)) ->
  exists rc h', qed_init_cmd_wr inflate is_slow fw cmd can h = Some (rc, h') /\
    wrote (cmd_addr cmd) ws (ibus h) rc (ibus h') /\ rt_after cmd rc (rt_data h) (rt_data h') /\ (can = false -> rc = 0).
Proof.
  intros Ok R Fb Fi Hp Ha Hw Ew P. destruct (cmd_addr_ok cmd Ha) as [Ha' Hm]. unfold qed_init_cmd_wr. fold (wide_bus cmd) (cmd_addr cmd).
  replace (wide_bus cmd && negb can)%bool with false by (destruct (wide_bus cmd); [by rewrite Hw|done]).
  unfold cmd_words in Ew. set (source := get_field INIT_WRITE_OP_SOURCE (op_data cmd)) in *.
  destruct (Z.eqb_spec source INIT_SRC_INLINE) as [E|_].
  { injection Ew as <-. eapply on_bus_wrote; [done|by fold source; rewrite E|done| |done]. apply wr_wrote; [done| |done].
    replace (cmd_addr cmd) with (cmd_addr cmd + 4 * 0) by lia. apply P. simpl. lia. }
  destruct (Z.eqb_spec source INIT_SRC_ZEROS) as [E|_].
  { injection Ew as <-. rewrite length_replicate in P. assert (N : source <> INIT_SRC_RUNTIME) by (by rewrite E). destruct (_ || _) eqn:C.
    - destruct (fill_dmae_wrote (Z.to_nat (param2 cmd)) (cmd_addr cmd) (ibus h)) as (rc & b' & E' & W'); [done..|].
      rewrite Z2Nat.id in E' by lia. eapply on_bus_wrote; [done|done|exact E'|done|]. intros ->.
      destruct (wide_bus cmd); [by specialize (Hw eq_refl)|done].
    - eapply on_bus_wrote; [done|done|done| |done]. apply fill_wrote; [done|done|lia]. }
  destruct (Z.eqb_spec source INIT_SRC_ARRAY) as [E|_].
  { destruct (cmd_array_wrote fw cmd (wide_bus cmd) can (ibus h) ws Ok Fb Fi Ha Ew P) as (rc & b' & E' & W' & C').
    eapply on_bus_wrote; [done|by fold source; rewrite E|exact E'|done|done]. }
  destruct (Z.eqb_spec source INIT_SRC_RUNTIME) as [E|N].
  2:{ injection Ew as <-. exists 0, h. split; [done|]. split; [by apply wrote_nil|]. split; [by apply rt_after_refl|done]. }
  destruct R as (vals & valid & Er & Hl & Hl' & W). rewrite Er in Ew. simpl in Ew.
  destruct (Z.leb_spec (runtime_offset cmd + runtime_size cmd) RUNTIME_ARRAY_SIZE) as [Hr|]; [|done]. injection Ew as <-.
  rewrite rt_words_length in P. unfold runtime_size, runtime_offset, RUNTIME_ARRAY_SIZE in *.
  pose proof (u16_bound (Z.shiftr (param2 cmd) 16)) as B1. pose proof (u16_bound (param2 cmd)) as B2. unfold qed_init_rt.
  destruct (rt_loop_spec rt_fuel vals valid 0 (Z.to_nat (u16 (Z.shiftr (param2 cmd) 16))) (Z.to_nat (u16 (param2 cmd))) (cmd_addr cmd) (wide_bus cmd) h)
    as (rc & h' & E' & W' & valid' & Er' & K & C & M); try done; try lia; [pose proof rt_fuel_big; lia|].
  rewrite !Z2Nat.id in E' by lia. exists rc, h'. split; [exact E'|]. rewrite Nat.add_0_r, Z.add_0_r in *. split; [|split].
  - replace (_ + _ - _)%nat with (Z.to_nat (u16 (param2 cmd))) in W' by lia. done.
  - exists valid, valid'. unfold rt_range. fold source. rewrite E. rewrite Er, Er'. simpl. done.
  - intros ->. apply M. destruct (wide_bus cmd); [by specialize (Hw eq_refl)|done].
Qed.
End Write.
End Words.
