(* ===== verification/InitClaims.v ===== *)
(** * Properties of the init tool

    Programs of nested conditional blocks, mode expressions, the claims and a
    firmware file on which they are applied. *)

From S2P Require Import Prelude DmaEngine InitOps InitProps InitRt InitRun.

(** ** Mode expressions *)

Inductive mexpr :=
  | MBit (n : Z)
  | MNot (e : mexpr)
  | MOr (e1 e2 : mexpr)
  | MAnd (e1 e2 : mexpr).

Fixpoint meval (modes : Z) (e : mexpr) : bool :=
  match e with
  | MBit n => Z.testbit modes n
  | MNot e => negb (meval modes e)
  | MOr e1 e2 => meval modes e1 || meval modes e2
  | MAnd e1 e2 => meval modes e1 && meval modes e2
  end.

(** Their bytes in the file, in prefix order. *)
Fixpoint mbytes (e : mexpr) : list Z :=
  match e with
  | MBit n => [n + MAX_INIT_MODE_OPS]
  | MNot e => INIT_MODE_OP_NOT :: mbytes e
  | MOr e1 e2 => INIT_MODE_OP_OR :: mbytes e1 ++ mbytes e2
  | MAnd e1 e2 => INIT_MODE_OP_AND :: mbytes e1 ++ mbytes e2
  end.

Fixpoint mbits (e : mexpr) : Prop :=
  match e with
  | MBit n => 0 <= n < 64
  | MNot e => mbits e
  | MOr e1 e2 | MAnd e1 e2 => mbits e1 /\ mbits e2
  end.

(** The bytes of the file from [off] on. *)
Definition modes_at (fw : qed_fw_data) (off : Z) (l : list Z) : Prop :=
  forall k v, l !! k = Some v -> fw_mode fw (off + Z.of_nat k) = Some v.

Lemma modes_at_cons fw off v l : modes_at fw off (v :: l) <-> fw_mode fw off = Some v /\ modes_at fw (off + 1) l.
Proof.
  split.
  - intros M. split; [specialize (M O v eq_refl); by rewrite Z.add_0_r in M|]. intros k w L.
    replace (off + 1 + Z.of_nat k) with (off + Z.of_nat (S k)) by lia. by apply M.
  - intros [M0 M] [|k] w L; [injection L as <-; by rewrite Z.add_0_r|].
    replace (off + Z.of_nat (S k)) with (off + 1 + Z.of_nat k) by lia. by apply M.
Qed.

Lemma modes_at_app fw off l1 l2 : modes_at fw off (l1 ++ l2) <-> modes_at fw off l1 /\ modes_at fw (off + Z.of_nat (length l1)) l2.
Proof.
  revert off. induction l1 as [|v l1 IH]; intros off; simpl.
  - rewrite Z.add_0_r. split; [|tauto]. intros M. split; [|done]. intros k w L. done.
  - rewrite !modes_at_cons, IH. replace (off + Z.of_nat (S (length l1))) with (off + 1 + Z.of_nat (length l1)) by lia. tauto.
Qed.

Lemma mode_match_eval fuel fw off modes e :
  mbits e -> modes_at fw off (mbytes e) -> 0 <= off -> off + Z.of_nat (length (mbytes e)) < 2 ^ 16 -> (length (mbytes e) <= fuel)%nat ->
  mode_match fuel fw off modes = Some (if meval modes e then 1 else 0, off + Z.of_nat (length (mbytes e))).
Proof.
  revert fuel off. induction e as [n|e IH|e1 IH1 e2 IH2|e1 IH1 e2 IH2]; intros [|fuel] off Hb M Ho Hl Hf; simpl in Hf; try lia;
    apply modes_at_cons in M as [M0 M]; simpl; rewrite M0; simpl; simpl in Hl; rewrite (u16_small (off + 1)) by lia.
  - simpl in Hb. unfold INIT_MODE_OP_NOT, INIT_MODE_OP_OR, INIT_MODE_OP_AND, MAX_INIT_MODE_OPS.
    rewrite !(proj2 (Z.eqb_neq (n + 3) _)) by lia. replace (n + 3 - 3) with n by lia. rewrite u8_small by lia.
    by rewrite (proj2 (Z.leb_gt 64 n)) by lia.
  - rewrite (IH fuel (off + 1)) by (done || lia). simpl. f_equal. f_equal; [by destruct (meval modes e)|lia].
  - rewrite length_app in *. apply modes_at_app in M as [M1 M2]. destruct Hb as [B1 B2]. rewrite (IH1 fuel (off + 1)) by (done || lia). simpl.
    rewrite IH2 by (done || lia). simpl. f_equal. f_equal; [by destruct (meval modes e1), (meval modes e2)|lia].
  - rewrite length_app in *. apply modes_at_app in M as [M1 M2]. destruct Hb as [B1 B2]. rewrite (IH1 fuel (off + 1)) by (done || lia). simpl.
    rewrite IH2 by (done || lia). simpl. f_equal. f_equal; [by destruct (meval modes e1), (meval modes e2)|lia].
Qed.

(** ** Programs *)

(** Commands, and blocks that are run when the modes or the phase match.  A mode
    block carries its expression and where the file holds it. *)
Inductive prog :=
  | PEnd
  | PDo (c : init_op) (next : prog)
  | PMode (off : Z) (e : mexpr) (body next : prog)
  | PPhase (data : Z) (body next : prog).

Fixpoint flat (p : prog) : list init_op :=
  match p with
  | PEnd => []
  | PDo c next => c :: flat next
  | PMode off e body next =>
      mk_init_op (INIT_OP_IF_MODE + 2 ^ 16 * Z.of_nat (length (flat body))) (2 ^ 16 * off) :: flat body ++ flat next
  | PPhase data body next =>
      mk_init_op (INIT_OP_IF_PHASE + 2 ^ 16 * Z.of_nat (length (flat body))) data :: flat body ++ flat next
  end.

Definition op_kind (c : init_op) : Z := get_field INIT_CALLBACK_OP_OP (op_data c).

Fixpoint prog_ok (fw : qed_fw_data) (p : prog) : Prop :=
  match p with
  | PEnd => True
  | PDo c next => op_kind c <> INIT_OP_IF_MODE /\ op_kind c <> INIT_OP_IF_PHASE /\ prog_ok fw next
  | PMode off e body next =>
      mbits e /\ modes_at fw off (mbytes e) /\ 0 <= off /\ off + Z.of_nat (length (mbytes e)) < 2 ^ 16 /\
      Z.of_nat (length (flat body)) < 2 ^ 16 /\ prog_ok fw body /\ prog_ok fw next
  | PPhase data body next => 0 <= data < 2 ^ 32 /\ Z.of_nat (length (flat body)) < 2 ^ 16 /\ prog_ok fw body /\ prog_ok fw next
  end.

(** The phase a block is for, and its id or any. *)
Definition phase_matches (data phase phase_id : Z) : bool :=
  (data mod 2 ^ 8 =? phase) && ((data / 2 ^ 16 =? ANY_PHASE_ID) || (data / 2 ^ 16 =? phase_id)).

(** The commands of a program as the file holds them. *)
Definition ops_at (fw : qed_fw_data) (i : Z) (l : list init_op) : Prop :=
  forall k c, l !! k = Some c -> fw_op fw (i + Z.of_nat k) = Some c.

Lemma ops_at_cons fw i c l : ops_at fw i (c :: l) -> fw_op fw i = Some c /\ ops_at fw (i + 1) l.
Proof.
  intros M. split; [specialize (M O c eq_refl); by rewrite Z.add_0_r in M|]. intros k w L.
  replace (i + 1 + Z.of_nat k) with (i + Z.of_nat (S k)) by lia. by apply M.
Qed.

Lemma ops_at_app fw i l1 l2 : ops_at fw i (l1 ++ l2) -> ops_at fw i l1 /\ ops_at fw (i + Z.of_nat (length l1)) l2.
Proof.
  intros M. split; intros k c L; [apply M; by apply lookup_app_l_Some|].
  replace (i + Z.of_nat (length l1) + Z.of_nat k) with (i + Z.of_nat (length l1 + k)%nat) by lia. apply M.
  rewrite lookup_app_r by lia. by replace (length l1 + k - length l1)%nat with k by lia.
Qed.

Section Programs.
Context {B : Type} `{InitBus B}.
Variable inflate : list Z -> Z -> option (list Z).
Variable is_slow : bool.
Variables (fw : qed_fw_data) (phase phase_id modes : Z).
Implicit Types (h : init_hwfn (B:=B)).

(** The meaning of a program: the code, whether the DMA engine may be used from
    here on, and the function. *)
Fixpoint exec (p : prog) (d : bool) h : option (Z * bool * init_hwfn (B:=B)) :=
  match p with
  | PEnd => Some (0, d, h)
  | PDo c next =>
      '(rc, _, d, h) ← run_cmd inflate is_slow fw phase phase_id modes c d h;
      if negb (rc =? 0) then Some (rc, d, h) else exec next d h
  | PMode _ e body next =>
      '(rc, d, h) ← (if meval modes e then exec body d h else Some (0, d, h));
      if negb (rc =? 0) then Some (rc, d, h) else exec next d h
  | PPhase data body next =>
      '(rc, d, h) ← (if phase_matches data phase phase_id then exec body d h else Some (0, d, h));
      if negb (rc =? 0) then Some (rc, d, h) else exec next d h
  end.

Let loop := run_loop inflate is_slow.

Lemma mode_skip c s : qed_init_cmd_mode fw c modes = Some s -> 0 <= s < 2 ^ 16.
Proof.
  unfold qed_init_cmd_mode. destruct (qed_init_cmd_mode_match _ _ _) as [[r o]|]; [|done]. simpl. intros [= <-].
  destruct (negb _); [lia|]. by apply get_field_bound.
Qed.

Lemma phase_skip c : 0 <= qed_init_cmd_phase c phase phase_id < 2 ^ 16.
Proof. unfold qed_init_cmd_phase. destruct (negb _); [by apply get_field_bound|lia]. Qed.

Lemma run_cmd_skip c d h rc skip d' h' :
  run_cmd inflate is_slow fw phase phase_id modes c d h = Some (rc, skip, d', h') -> 0 <= skip < 2 ^ 16.
Proof.
  unfold run_cmd. intros E.
  repeat match type of E with
  | (if ?b then _ else _) = _ => destruct b
  | (qed_init_cmd_mode _ _ _ ≫= _) = _ => destruct (qed_init_cmd_mode fw c modes) eqn:Em; [apply mode_skip in Em|done]; simpl in E
  | (?m ≫= _) = _ => destruct m as [[? ?]|]; simpl in E
  end; simplify_eq; try lia. apply phase_skip.
Qed.

(** Enough fuel is as good as any. *)
Lemma run_loop_fuel fuel1 fuel2 i d h : 0 <= i -> init_ops_size fw < 2 ^ 31 ->
  init_ops_size fw - i <= Z.of_nat fuel1 -> init_ops_size fw - i <= Z.of_nat fuel2 ->
  loop fuel1 fw phase phase_id modes i d h = loop fuel2 fw phase phase_id modes i d h.
Proof.
  intros Hi Hs. revert fuel2 i d h Hi. induction fuel1 as [|fuel1 IH]; intros [|fuel2] i d h Hi H1 H2; simpl;
    (destruct (Z.ltb_spec i (init_ops_size fw)); [|done]); simpl; try lia.
  destruct (fw_op fw i) as [c|]; [|done]. simpl.
  destruct (run_cmd _ _ _ _ _ _ c d h) as [[[[rc skip] d'] h']|] eqn:E; [|done]. simpl.
  destruct (negb (rc =? 0)); [done|]. apply run_cmd_skip in E. rewrite (u32_small (i + skip)), u32_small by lia. apply IH; lia.
Qed.

(** The rest of the program from command [i] on. *)
Definition run_from (i : Z) (d : bool) h : option (Z * init_hwfn (B:=B)) :=
  loop (Z.to_nat (init_ops_size fw - i)) fw phase phase_id modes i d h.

Lemma run_from_cmd i d h c : 0 <= i < init_ops_size fw -> init_ops_size fw < 2 ^ 31 -> fw_op fw i = Some c ->
  run_from i d h =
  '(rc, skip, d, h) ← run_cmd inflate is_slow fw phase phase_id modes c d h;
  if negb (rc =? 0) then Some (rc, h) else run_from (i + skip + 1) d h.
Proof.
  intros Hi Hs Ec. unfold run_from, loop. destruct (Z.to_nat (init_ops_size fw - i)) as [|n] eqn:En; [lia|]. simpl.
  rewrite (proj2 (Z.ltb_lt _ _)), Ec by lia. simpl.
  destruct (run_cmd _ _ _ _ _ _ c d h) as [[[[rc skip] d'] h']|] eqn:E; [|done]. simpl.
  destruct (negb (rc =? 0)); [done|]. apply run_cmd_skip in E. rewrite (u32_small (i + skip)), u32_small by lia.
  apply run_loop_fuel; lia.
Qed.

(** A conditional command: its body is run or skipped. *)
Lemma field_packed k n f : 0 <= k < 16 -> 0 <= n < 2 ^ 16 -> f = mk_field 0xFFFF 16 -> get_field f (k + 2 ^ 16 * n) = n.
Proof.
  intros Hk Hn ->. unfold get_field. simpl. change 65535 with (2 ^ 16 - 1). rewrite land_pow2_mask, Z.shiftr_div_pow2 by lia.
  replace (k + 2 ^ 16 * n) with (n * 2 ^ 16 + k) by lia. rewrite Z.div_add_l, (Z.div_small k), Z.add_0_r by lia. by apply Z.mod_small.
Qed.

Lemma kind_packed k n : 0 <= k < 16 -> 0 <= n -> get_field INIT_CALLBACK_OP_OP (k + 2 ^ 16 * n) = k.
Proof.
  intros Hk Hn. unfold get_field, INIT_CALLBACK_OP_OP. cbn [f_mask f_shift]. change 15 with (2 ^ 4 - 1). rewrite land_pow2_mask, Z.shiftr_0_r by lia.
  replace (k + 2 ^ 16 * n) with (k + (2 ^ 12 * n) * 2 ^ 4) by lia. rewrite Z.mod_add by done. by apply Z.mod_small.
Qed.

Lemma run_mode off e n d h : mbits e -> modes_at fw off (mbytes e) -> 0 <= off -> off + Z.of_nat (length (mbytes e)) < 2 ^ 16 -> 0 <= n < 2 ^ 16 ->
  run_cmd inflate is_slow fw phase phase_id modes (mk_init_op (INIT_OP_IF_MODE + 2 ^ 16 * n) (2 ^ 16 * off)) d h
  = Some (0, if meval modes e then 0 else n, d, h).
Proof.
  intros Hb M Ho Hl Hn. unfold run_cmd. cbn [op_data]. rewrite kind_packed by (unfold INIT_OP_IF_MODE; lia). simpl.
  unfold qed_init_cmd_mode, modes_buf_offset, qed_init_cmd_mode_match. cbn [op_data param2].
  rewrite Z.shiftr_div_pow2, (Z.mul_comm (2 ^ 16) off), Z.div_mul, u16_small by lia.
  rewrite (mode_match_eval mode_fuel fw off modes e) by (done || unfold mode_fuel; lia). simpl.
  rewrite field_packed by (done || unfold INIT_OP_IF_MODE; lia). by destruct (meval modes e).
Qed.

Lemma run_phase data n d h : 0 <= data < 2 ^ 32 -> 0 <= n < 2 ^ 16 ->
  run_cmd inflate is_slow fw phase phase_id modes (mk_init_op (INIT_OP_IF_PHASE + 2 ^ 16 * n) data) d h
  = Some (0, if phase_matches data phase phase_id then 0 else n, d, h).
Proof.
  intros Hd Hn. unfold run_cmd. cbn [op_data]. rewrite kind_packed by (unfold INIT_OP_IF_PHASE; lia). simpl.
  unfold qed_init_cmd_phase, phase_matches. cbn [op_data param2].
  assert (F1 : get_field INIT_IF_PHASE_OP_PHASE data = data mod 2 ^ 8).
  { unfold get_field. simpl. change 255 with (2 ^ 8 - 1). by rewrite land_pow2_mask, Z.shiftr_0_r by lia. }
  assert (F2 : get_field INIT_IF_PHASE_OP_PHASE_ID data = data / 2 ^ 16).
  { unfold get_field. simpl. change 65535 with (2 ^ 16 - 1). rewrite land_pow2_mask, Z.shiftr_div_pow2 by lia.
    apply Z.mod_small. split; [apply Z.div_pos; lia|apply Z.div_lt_upper_bound; lia]. }
  rewrite F1, F2, field_packed by (done || unfold INIT_OP_IF_PHASE; lia). by destruct (_ && _).
Qed.

Lemma run_cmd_plain c d h : op_kind c <> INIT_OP_IF_MODE -> op_kind c <> INIT_OP_IF_PHASE ->
  forall rc skip d' h', run_cmd inflate is_slow fw phase phase_id modes c d h = Some (rc, skip, d', h') -> skip = 0.
Proof.
  unfold op_kind. intros N1 N2 rc skip d' h' E. unfold run_cmd in E.
  rewrite (proj2 (Z.eqb_neq _ _) N1), (proj2 (Z.eqb_neq _ _) N2) in E.
  repeat match type of E with
  | (if ?b then _ else _) = _ => destruct b
  | (?m ≫= _) = _ => destruct m as [[? ?]|]; simpl in E
  end; by simplify_eq.
Qed.

Lemma run_prog p i d h : prog_ok fw p -> ops_at fw i (flat p) -> 0 <= i -> i + Z.of_nat (length (flat p)) <= init_ops_size fw ->
  init_ops_size fw < 2 ^ 31 ->
  run_from i d h =
  '(rc, d, h) ← exec p d h;
  if negb (rc =? 0) then Some (rc, h) else run_from (i + Z.of_nat (length (flat p))) d h.
Proof.
  revert i d h. induction p as [|c p IH|off e body IHb next IHn|data body IHb next IHn]; intros i d h W O Hi Hl Hs; simpl in *.
  - by rewrite Z.add_0_r.
  - destruct W as (N1 & N2 & W). apply ops_at_cons in O as [Ec O]. rewrite (run_from_cmd i d h c) by (done || lia).
    destruct (run_cmd _ _ _ _ _ _ c d h) as [[[[rc skip] d'] h']|] eqn:E; [|done]. simpl.
    apply run_cmd_plain in E as ->; [|done..]. destruct (negb (rc =? 0)) eqn:Erc; [simpl; by rewrite Erc|]. rewrite Z.add_0_r, IH by (done || lia).
    by replace (i + 1 + Z.of_nat (length (flat p))) with (i + Z.of_nat (S (length (flat p)))) by lia.
  - destruct W as (Hb & M & Ho & Hm & Hlb & Wb & Wn). apply ops_at_cons in O as [Ec O]. apply ops_at_app in O as [Ob On].
    rewrite length_app in *. rewrite (run_from_cmd i d h _ ltac:(lia) Hs Ec), (run_mode off e _ d h) by (done || lia). simpl.
    replace (i + Z.of_nat (S (length (flat body) + length (flat next))))
      with (i + 1 + Z.of_nat (length (flat body)) + Z.of_nat (length (flat next))) by lia. destruct (meval modes e).
    + rewrite Z.add_0_r, IHb by (done || lia). destruct (exec body d h) as [[[rc d'] h']|]; [|done]. simpl.
      destruct (negb (rc =? 0)) eqn:Erc; [simpl; by rewrite Erc|]. apply IHn; done || lia.
    + simpl. replace (i + Z.of_nat (length (flat body)) + 1) with (i + 1 + Z.of_nat (length (flat body))) by lia. apply IHn; done || lia.
  - destruct W as (Hd & Hlb & Wb & Wn). apply ops_at_cons in O as [Ec O]. apply ops_at_app in O as [Ob On].
    rewrite length_app in *. rewrite (run_from_cmd i d h _ ltac:(lia) Hs Ec), run_phase by (done || lia). simpl.
    replace (i + Z.of_nat (S (length (flat body) + length (flat next))))
      with (i + 1 + Z.of_nat (length (flat body)) + Z.of_nat (length (flat next))) by lia. destruct (phase_matches data phase phase_id).
    + rewrite Z.add_0_r, IHb by (done || lia). destruct (exec body d h) as [[[rc d'] h']|]; [|done]. simpl.
      destruct (negb (rc =? 0)) eqn:Erc; [simpl; by rewrite Erc|]. apply IHn; done || lia.
    + simpl. replace (i + Z.of_nat (length (flat body)) + 1) with (i + 1 + Z.of_nat (length (flat body))) by lia. apply IHn; done || lia.
Qed.

(** C15: An init program of nested blocks, laid out with the number of commands
    each block skips and the mode expressions in prefix order, is run by
    [qed_init_run] as it reads: commands in order, a block exactly when its mode
    expression is true or its phase matches, up to the first command that fails,
    whose code is returned. *)
Theorem init_run_structured p h :
  prog_ok fw p -> ops_at fw 0 (flat p) -> init_ops_size fw = Z.of_nat (length (flat p)) -> init_ops_size fw < 2 ^ 31 ->
  qed_init_run inflate is_slow true fw phase phase_id modes h
  = '(rc, _, h') ← exec p (negb (phase =? PHASE_ENGINE)) h; Some (rc, h').
Proof.
  intros W O Hl Hs. unfold qed_init_run. simpl. transitivity (run_from 0 (negb (phase =? PHASE_ENGINE)) h).
  { unfold run_from. by rewrite Z.sub_0_r. }
  rewrite (run_prog p 0) by (done || lia). destruct (exec p _ h) as [[[rc d'] h']|]; [|done]. simpl.
  destruct (Z.eqb_spec rc 0) as [->|]; [|done]. simpl. unfold run_from, loop. rewrite Hl.
  destruct (Z.to_nat _); simpl; by rewrite (proj2 (Z.ltb_ge _ _)) by lia.
Qed.
End Programs.

(** ** Write commands *)

Section Write.
Context {B : Type} `{InitBus B} `{!InitBusLaws B}.
Variable inflate : list Z -> Z -> option (list Z).
Variable is_slow : bool.

(** C14: A write command puts the dwords of its source (the value, zeroes, the
    array of the file once, repeated or inflated, or the valid entries of the
    runtime array) into the registers from its address on, whether it uses the
    DMA engine or single writes: when it returns 0 each of these registers holds
    its dword; no other register changes even when it fails; without the DMA
    engine it does not fail.  Of the runtime array exactly the entries it used
    are marked as not valid any more. *)
Theorem init_write_exact fw cmd can (h : init_hwfn (B:=B)) ws :
  ib_ok (ibus h) -> rt_ok (rt_data h) -> bytes (fw_bytes fw) -> (forall i n o, inflate i n = Some o -> bytes o) ->
  0 <= param2 cmd < 2 ^ 32 -> 4 <= cmd_addr cmd -> (wide_bus cmd = true -> can = true) ->
  cmd_words inflate fw (rt_data h) cmd = Some ws -> plain_from (B:=B) (cmd_addr cmd) (Z.of_nat (length ws)) ->
  exists rc h', qed_init_cmd_wr inflate is_slow fw cmd can h = Some (rc, h') /\
    (forall x, ib_plain x -> ~ dest (cmd_addr cmd) ws x -> ib_reg (ibus h') x = ib_reg (ibus h) x) /\
    (rc = 0 -> ib_ok (ibus h') /\
       forall k w, ws !! k = Some (Some w) -> ib_reg (ibus h') (cmd_addr cmd + 4 * Z.of_nat k) = w) /\
    (can = false -> rc = 0) /\ rt_after cmd rc (rt_data h) (rt_data h').
Proof.
  intros Ok R Fb Fi Hp Ha Hw Ew P.
  destruct (cmd_wr_spec inflate is_slow fw cmd can h ws) as (rc & h' & E & [F W] & A & C); [done..|].
  exists rc, h'. split; [done|]. split; [done|]. split; [|done]. intros ->. destruct (W eq_refl) as [Ok' O]. split; [done|].
  intros k w L. rewrite O, overlay_at, L; [done|]. apply P. apply lookup_lt_Some in L. lia.
Qed.
End Write.

(** ** A simulated chip *)

(** Registers, and for each DMA transfer to come whether it fails. *)
Record chip := mk_chip { regs : Z -> Z; fails : list bool }.

#[export] Instance chip_bus : InitBus chip := {|
  ib_wr a v b := mk_chip (fun x => if x =? a then v else regs b x) (fails b);
  ib_rd a b := (regs b a, b);
  ib_host2grc src a n repl b :=
    match fails b with
    | true :: l => Some (- EBUSY, mk_chip (regs b) l)
    | l => Some (0, mk_chip (fun x => if (a <=? x) && (x <? a + 4 * n) && ((x - a) mod 4 =? 0)
                   then default 0 (src !! Z.to_nat (let k := (x - a) / 4 in if repl then k mod DMAE_MAX_RW_SIZE else k))
                   else regs b x) (tail l))
    end;
  ib_sanity b := Some (0, b);
  ib_reg := regs;
  ib_ok _ := True;
  ib_plain a := 4 <= a < 2 ^ 25
|}.

#[export] Instance chip_bus_laws : InitBusLaws chip.
Proof.
  split; simpl.
  - done.
  - intros b a v _ _ _. split; [done|]. intros x _. case_decide; [subst; by rewrite Z.eqb_refl|by rewrite (proj2 (Z.eqb_neq _ _))].
  - intros b src a n repl _ Ha Hm Hn P Hv Hsrc.
    destruct (fails b) as [|[] l].
    2:{ exists (- EBUSY), (mk_chip (regs b) l). split; [done|]. split; [done|]. done. }
    all: eexists 0, _; (split; [done|]); simpl; split.
    1,3: intros x Nx Px; destruct (_ && _) eqn:E; [|done]; zbool; destruct (Nx ((x - a) / 4));
      [split; [apply Z.div_pos; lia|apply Z.div_lt_upper_bound; lia]|pose proof (Z.div_mod (x - a) 4 ltac:(lia)); lia].
    all: intros _; (split; [done|]); intros k Hk; rewrite (proj2 (Z.leb_le a _)), (proj2 (Z.ltb_lt _ _)) by lia;
      replace (a + 4 * k - a) with (k * 4) by lia; by rewrite Z.mod_mul, Z.div_mul by done.
Qed.

(** ** A firmware file *)

Definition le32_bytes (w : Z) : list Z := [w mod 256; w / 2 ^ 8 mod 256; w / 2 ^ 16 mod 256; w / 2 ^ 24 mod 256].
Definition words_bytes (l : list Z) : list Z := mjoin (le32_bytes <$> l).
Definition ops_bytes (l : list init_op) : list Z := mjoin ((fun c => le32_bytes (op_data c) ++ le32_bytes (param2 c)) <$> l).

(** A file with these commands, dwords and mode expressions: the headers, the
    commands at 48, then the dwords, then the expressions. *)
Definition fw_file (ops : list init_op) (vals modes : list Z) : list Z :=
  let o1 := 48 in let o2 := o1 + 8 * Z.of_nat (length ops) in let o3 := o2 + 4 * Z.of_nat (length vals) in
  words_bytes [0; 0; o1; 8 * Z.of_nat (length ops); o2; 4 * Z.of_nat (length vals); o3; Z.of_nat (length modes); 0; 0; 0; 0]
  ++ ops_bytes ops ++ words_bytes vals ++ modes.

(** A write of source [src] to the register at byte address [a]. *)
Definition wr_op (src : Z) (wide : bool) (a param : Z) : init_op :=
  mk_init_op (INIT_OP_WRITE + 2 ^ 4 * src + 2 ^ 8 * (if wide then 1 else 0) + 2 ^ 9 * (a / 4)) param.

Definition demo_expr : mexpr := MAnd (MBit 3) (MNot (MBit 4)).
(** For phase 2: one register; in the modes of [demo_expr] a range of the runtime
    array on the wide bus; then for every phase that follows two dwords of the
    file, three times. *)
Definition demo_prog : prog :=
  PPhase (2 + 2 ^ 16 * ANY_PHASE_ID)
    (PDo (wr_op INIT_SRC_INLINE false 0x100 7)
      (PMode 0 demo_expr (PDo (wr_op INIT_SRC_RUNTIME true 0x200 (4 + 2 ^ 16 * 10)) PEnd) PEnd))
    (PDo (wr_op INIT_SRC_ARRAY false 0x400 0) PEnd).
Definition demo_file : list Z := fw_file (flat demo_prog) [INIT_ARR_PATTERN + 2 ^ 4 * 2 + 2 ^ 8 * 3; 0xAA; 0xBB] (mbytes demo_expr).
Definition demo_fw : qed_fw_data := mk_qed_fw_data demo_file 0 100 48 88 0 0 5.

(** The pointers of [demo_fw] are those the driver computes from the file. *)
Example demo_fw_data : qed_init_fw_data (Some demo_file) (mk_qed_fw_data [] 0 0 0 0 0 0 0) = Some (0, demo_fw).
Proof. vm_compute. reflexivity. Qed.

(** Entries 10, 11 and 13 of the runtime array have been stored. *)
Definition demo_vals : list Z := <[13%nat := 33]> (<[11%nat := 31]> (<[10%nat := 30]> (replicate (Z.to_nat RUNTIME_ARRAY_SIZE) 0))).
Definition demo_valid : list bool := <[13%nat := true]> (<[11%nat := true]> (<[10%nat := true]> (replicate (Z.to_nat RUNTIME_ARRAY_SIZE) false))).
Definition demo_hwfn (fails : list bool) : init_hwfn (B:=chip) :=
  mk_init_hwfn (mk_qed_rt_data (Some demo_vals) (Some demo_valid)) (mk_chip (fun x => x) fails).
Definition no_inflate (_ : list Z) (_ : Z) : option (list Z) := None.

Lemma demo_rt_ok fails : rt_ok (rt_data (demo_hwfn fails)).
Proof.
  exists demo_vals, demo_valid. split; [done|]. unfold demo_vals, demo_valid. rewrite !length_insert, !length_replicate.
  split; [unfold RUNTIME_ARRAY_SIZE; lia|]. split; [done|]. unfold words32. repeat apply Forall_insert; try lia. apply Forall_replicate. lia.
Qed.

Lemma init_write_exact_witness :
  let cmd := wr_op INIT_SRC_RUNTIME true 0x200 (4 + 2 ^ 16 * 10) in
  exists rc h', qed_init_cmd_wr no_inflate false demo_fw cmd true (demo_hwfn []) = Some (rc, h') /\
    (rc = 0 -> regs (ibus h') 0x20C = 33) /\ regs (ibus h') 0x208 = 0x208.
Proof.
  intros cmd.
  destruct (init_write_exact no_inflate false demo_fw cmd true (demo_hwfn []) [Some 30; Some 31; None; Some 33])
    as (rc & h' & E & F & R & _); [done|apply demo_rt_ok| |done|done|done|done|vm_compute; reflexivity| |].
  - unfold bytes. apply Forall_forall. intros b Hb. revert b Hb. apply Forall_forall.
    apply (bool_decide_unpack (Forall (fun b => 0 <= b < 256) (fw_bytes demo_fw))). vm_compute. reflexivity.
  - intros k Hk. simpl in Hk |- *. change (cmd_addr cmd) with 0x200. lia.
  - exists rc, h'. split; [exact E|]. split.
    + intros Hrc. destruct (R Hrc) as [_ W]. exact (W 3%nat 33 eq_refl).
    + apply (F 0x208); [split; [discriminate|reflexivity]|]. intros (k & w & L & E2). change (cmd_addr cmd) with 0x200 in E2.
      assert (k = 2%nat) as -> by lia. discriminate.
Defined.

Lemma ops_at_dec fw l : Forall2 (fun k c => fw_op fw k = Some c) (seqZ 0 (Z.of_nat (length l))) l -> ops_at fw 0 l.
Proof.
  intros F k c L. destruct (Forall2_lookup_r _ _ _ _ _ F L) as (z & Lz & E). apply lookup_seqZ in Lz as [-> _]. done.
Qed.

Lemma init_run_structured_witness :
  qed_init_run no_inflate false true demo_fw 2 0 (2 ^ 3) (demo_hwfn [])
  = '(rc, _, h') ← exec no_inflate false demo_fw 2 0 (2 ^ 3) demo_prog true (demo_hwfn []); Some (rc, h').
Proof.
  apply (init_run_structured no_inflate false demo_fw 2 0 (2 ^ 3) demo_prog (demo_hwfn [])).
  - simpl. repeat split; try discriminate; try lia. intros k v L.
    do 4 (destruct k as [|k]; [injection L as <-; vm_compute; reflexivity|]). discriminate.
  - apply ops_at_dec. repeat constructor.
  - reflexivity.
  - reflexivity.
Defined.

(** The program run: both blocks of phase 2, with the entry that is not valid
    left alone, and the pattern three times. *)
Example demo_run :
  ('(rc, h) ← qed_init_run no_inflate false true demo_fw 2 0 (2 ^ 3) (demo_hwfn []);
   Some (rc, regs (ibus h) <$> [0x100; 0x200; 0x204; 0x208; 0x20C; 0x400; 0x404; 0x410; 0x414; 0x418]))
  = Some (0, [7; 30; 31; 0x208; 33; 0xAA; 0xBB; 0xAA; 0xBB; 0x418]).
Proof. vm_compute. reflexivity. Qed.

(** In another mode the inner block is skipped, in another phase both are. *)
Example demo_run_skips :
  (('(rc, h) ← qed_init_run no_inflate false true demo_fw 2 0 (2 ^ 4) (demo_hwfn []);
    Some (rc, regs (ibus h) <$> [0x100; 0x200; 0x400])),
   ('(rc, h) ← qed_init_run no_inflate false true demo_fw 1 0 (2 ^ 3) (demo_hwfn []);
    Some (rc, regs (ibus h) <$> [0x100; 0x200; 0x400])))
  = (Some (0, [7; 0x200; 0xAA]), Some (0, [0x100; 0x200; 0xAA])).
Proof. vm_compute. reflexivity. Qed.

(** ** Limits *)

(** A poll that waits for any bit of [expected_val] never waits: its test is true
    of every value when [expected_val] is not 0. *)
Theorem poll_or_never_waits n addr val data (b : chip) : 0 < data -> 0 <= val -> poll_loop n comp_or addr val data b = (val, b).
Proof.
  intros Hd Hv. destruct n; [done|]. simpl. unfold comp_or.
  assert (Z.lor val data <> 0) by (rewrite Z.lor_eq_0_iff; lia). assert (0 <= Z.lor val data) by (apply Z.lor_nonneg; lia).
  by rewrite (proj2 (Z.ltb_lt 0 _)) by lia.
Qed.

(** [qed_init_store_rt_agg] compares an index of dwords with a size in bytes: an
    array of two dwords that fits the end of the runtime array is not stored. *)
Theorem store_agg_drops_last_entries rt :
  qed_init_store_rt_agg (RUNTIME_ARRAY_SIZE - 2) [1; 2] 8 rt = Some rt.
Proof. reflexivity. Qed.
