(* ===== verification/InitDmae.v ===== *)
(** * The DMA engine under the init tool

    The self test of the engine (qed_dmae_sanity of qed_hw.c), and the engine of
    DmaEngine.v as an instance of the register interface of the init tool: the
    transfers of DmaEngineProps.v discharge [InitBusLaws]. *)

From S2P Require Import Prelude Dma DmaEngine DmaEngineProps DmaEngineClaims InitOps InitProps InitRt InitRun InitClaims.

(** ** Registers reached by single accesses *)

Class DmaeRegs (D : Type) := {
  er_rd : Z -> D -> Z * D;       (* qed_rd *)
  er_plain : Z -> Prop           (* a register that stores what is written *)
}.

(** Single writes of the function [own] do not disturb an idle engine. *)
Class DmaeRegsLaws (D : Type) `{DmaeChip D} `{DmaeRegs D} (own : Z) : Prop := {
  law_er_plain a : er_plain a -> 4 <= a < 2 ^ 25 /\ a mod 4 = 0;
  law_er_wr (d : D) a v : dm_job d = None -> er_plain a -> 0 <= v < 2 ^ 32 ->
    dm_job (dm_wr a v d) = None /\
    forall q, dm_at (dm_wr a v d) q = if decide (q = PReg own (a / 4)) then v else dm_at d q
}.

Section Engine.
Context {D : Type} `{DmaeChip D} `{!DmaeChipLaws D}.

(** ** Self test *)

Definition PAGE_SIZE : Z := 4096.

(** The loop that compares [n] dwords of the upper half from dword [k] on. *)
Fixpoint check_half (n : nat) (k p_virt p_phys size : Z) (d : D) : bool * D :=
  match n with
  | O => (true, d)
  | S n =>
      let '(w, d) := dm_load (p_phys + size + 4 * k) d in
      if negb (w =? u32 (u32 (p_virt + size + 4 * k) - size)) then (false, d) else check_half n (k + 1) p_virt p_phys size d
  end.

(** The two loops that fill the halves store the address of each dword, then
    zeroes. *)
Definition qed_dmae_sanity (h : dm_hwfn D) (m : dma_mem) : option (Z * dm_hwfn D * dma_mem) :=
  let size := PAGE_SIZE / 2 in
  let '(p_virt, p_phys, m) := dma_alloc_coherent (2 * size) m in
  if p_virt =? 0 then Some (- ENOMEM, h, m) else
  let d := to_buffer (Z.to_nat (size / 4)) 0 p_virt p_phys u32 (dev h) in
  let d := to_buffer (Z.to_nat (size / 4)) 0 0 (p_phys + size) (fun _ => 0) d in
  '(rc, h) ← qed_dmae_host2host p_phys (p_phys + size) (size / 4) None (set_dev d h);
  let '(rc, h) := if negb (rc =? 0) then (rc, h) else
    let '(same, d) := check_half (Z.to_nat (size / 4)) 0 p_virt p_phys size (dev h) in
    (if same then 0 else - EINVAL, set_dev d h) in
  m ← dma_free_coherent (2 * size) p_virt p_phys m;
  Some (rc, h, m).

(** The test block lies in bus memory apart from the driver's own. *)
Definition block_apart (h : dm_hwfn D) (p : Z) : Prop :=
  0 < p /\ p + PAGE_SIZE <= 2 ^ 64 /\ forall k, 0 <= k < PAGE_SIZE / 4 -> ~ scratch h (CAt (PMem (p + 4 * k))).

Lemma check_half_spec n k v p size d :
  dm_job d = None -> (forall j, k <= j < k + Z.of_nat n -> dm_at d (PMem (p + size + 4 * j)) = u32 (u32 (v + size + 4 * j) - size)) ->
  exists d', check_half n k v p size d = (true, d') /\ dm_job d' = None /\ dm_at d' = dm_at d.
Proof.
  revert k d. induction n as [|n IH]; intros k d J M; [by exists d|]. simpl.
  pose proof (law_dm_load_idle d (p + size + 4 * k) J) as L. destruct (dm_load _ d) as [w d1]. destruct L as (-> & J1 & A1 & _).
  rewrite M, Z.eqb_refl by lia. simpl. destruct (IH (k + 1) d1 J1) as (d' & E & J' & A'); [|exists d'; by rewrite A', A1].
  intros j Hj. rewrite A1. apply M. lia.
Qed.

(** Storing outside the driver's memory keeps the engine ready. *)
Lemma ready_set_dev h d : dm_ready h -> dm_job d = None ->
  dm_at d (PMem (completion_word_phys_addr (dmae_info h))) = dm_at (dev h) (PMem (completion_word_phys_addr (dmae_info h))) ->
  dm_ready (set_dev d h).
Proof. intros R J E. destruct R. split; try done. simpl. by rewrite E. Qed.

Lemma u32_back v size k : u32 (u32 (v + size + 4 * k) - size) = u32 (v + 4 * k).
Proof. unfold u32. rewrite Zminus_mod_idemp_l. f_equal. lia. Qed.

(** The self test gives a working engine a good report: on an idle engine, and
    with the block it is given apart from the driver's own memory, it returns 0,
    or -ENOMEM when there was no block, or -EBUSY when the engine did not answer
    in time, and never -EINVAL for a pattern that did not arrive; it gives the
    block back and, when it returns 0, leaves the engine idle and every register
    as it was. *)
Theorem dmae_sanity_verdict h m :
  dm_ready h -> recov_in_prog h = false -> (forall v p m', dma_alloc_coherent PAGE_SIZE m = (v, p, m') -> v <> 0 -> block_apart h p) ->
  exists rc h' m', qed_dmae_sanity h m = Some (rc, h', m') /\ live m' = live m /\
    (rc = 0 /\ dm_ready h' \/ rc = - ENOMEM /\ h' = h \/ rc = - EBUSY) /\
    forall pf a, dm_at (dev h') (PReg pf a) = dm_at (dev h) (PReg pf a).
Proof.
  intros R Hrec Hb. unfold qed_dmae_sanity. change (2 * (PAGE_SIZE / 2)) with PAGE_SIZE. change (PAGE_SIZE / 2) with 2048.
  change (2048 / 4) with 512. remember (Z.to_nat 512) as n eqn:Hn. destruct (dma_alloc_coherent PAGE_SIZE m) as [[v p] m1] eqn:Ea. specialize (Hb v p m1 eq_refl).
  destruct (alloc_block _ _ _ _ _ Ea) as [[-> L1]|(Hv & N1 & L1)].
  { exists (- ENOMEM), h, m1. split; [done|]. split; [done|]. split; [by right; left|done]. }
  rewrite (proj2 (Z.eqb_neq v 0)) by done. destruct (Hb Hv) as (P1 & P2 & P3). unfold PAGE_SIZE in P2. change (PAGE_SIZE / 4) with 1024 in P3.
  destruct (to_buffer_spec n 0 v p u32 (dev h) (dr_idle _ R)) as (J1 & M1 & F1). set (d1 := to_buffer _ 0 v p u32 (dev h)) in *.
  destruct (to_buffer_spec n 0 0 (p + 2048) (fun _ => 0) d1 J1) as (J2 & M2 & F2). set (d2 := to_buffer _ 0 0 _ _ d1) in *.
  assert (Fr : forall q, (forall k, 0 <= k < 1024 -> q <> PMem (p + 4 * k)) -> dm_at d2 q = dm_at (dev h) q).
  { intros q Q. rewrite F2, F1; [done| |]; intros j Hj E; [apply (Q j); [lia|done]|apply (Q (j + 512)); [lia|]].
    rewrite E. f_equal. lia. }
  assert (R2 : dm_ready (set_dev d2 h)).
  { apply ready_set_dev; [done|done|]. apply Fr. intros k Hk E. apply (P3 k Hk). left. by rewrite <- E. }
  unfold qed_dmae_host2host.
  destruct (execute_spec QED_DMAE_ADDRESS_HOST_PHYS QED_DMAE_ADDRESS_HOST_PHYS p (p + 2048) 512 None (set_dev d2 h) R2 Hrec)
    as (rc & h3 & E3 & SF & X & Res); [done| |].
  { split; simpl; try done; try (unfold DMAE_MAX_RW_SIZE; lia); [by intros [? _]|intros k j Hk Hj [= ?]; lia|].
    intros k Hk. split; [apply (P3 k); lia|]. replace (p + 2048 + 4 * k) with (p + 4 * (k + 512)) by lia. apply P3. lia. }
  rewrite E3. simpl.
  assert (Regs : forall pf a, dm_at (dev h3) (PReg pf a) = dm_at (dev h) (PReg pf a)).
  { intros pf a. rewrite <- (Fr (PReg pf a)) by done. apply (X (CAt (PReg pf a))); [|done]. by intros [?|(? & _ & ?)]. }
  assert (Ef : dma_free_coherent PAGE_SIZE v p m1 = Some (m1 <| live := delete v (live m1) |>)).
  { unfold dma_free_coherent. by rewrite L1, lookup_insert_eq, !Z.eqb_refl. }
  assert (El : delete v (live m1) = live m) by (rewrite L1; by apply delete_insert_id).
  destruct Res as [(-> & R3 & _ & Mv)|[-> _]]; simpl.
  - destruct (check_half_spec n 0 v p 2048 (dev h3) (dr_idle _ R3)) as (d4 & E4 & J4 & A4).
    { intros j Hj. specialize (Mv j ltac:(lia)). simpl in Mv. rewrite Mv, u32_back. unfold src_idx.
      rewrite F2 by (intros i Hi [= ?]; lia). apply M1. lia. }
    rewrite E4. simpl. rewrite Ef. simpl. eexists 0, _, _. split; [done|]. split; [done|]. split.
    + left. split; [done|]. apply ready_set_dev; [done|done|by rewrite A4].
    + intros pf a. simpl. by rewrite A4.
  - rewrite Ef. simpl. eexists _, _, _. split; [done|]. split; [done|]. split; [by right; right|done].
Qed.

(** ** The engine as the bus of the init tool *)

Context `{DmaeRegs D} (own : Z) `{!DmaeRegsLaws D own}.
(** Where the buffers that are copied from lie in virtual memory. *)
Variable buf : Z.
Hypothesis buf_ok : 0 <= buf /\ buf + 2 ^ 25 <= 2 ^ 64.

Record engine_bus := mk_engine_bus { eb_fn : dm_hwfn D; eb_mem : dma_mem }.

Definition placed (src : list Z) (vm : Z -> Z) (a : Z) : Z :=
  if (buf <=? a) && (a <? buf + 4 * Z.of_nat (length src)) then default 0 (src !! Z.to_nat ((a - buf) / 4)) else vm a.

Definition repl_params : dmae_params := mk_dmae_params true false false false false false false 0 0 0 0 0.

#[local] Instance engine_init_bus : InitBus engine_bus := {|
  ib_wr a v b := mk_engine_bus (set_dev (dm_wr a v (dev (eb_fn b))) (eb_fn b)) (eb_mem b);
  ib_rd a b := let '(v, d) := er_rd a (dev (eb_fn b)) in (v, mk_engine_bus (set_dev d (eb_fn b)) (eb_mem b));
  ib_host2grc src a n repl b :=
    '(rc, h) ← qed_dmae_host2grc buf a n (if repl then Some repl_params else None) (eb_fn b <| virt := placed src (virt (eb_fn b)) |>);
    Some (rc, mk_engine_bus h (eb_mem b));
  ib_sanity b := '(rc, h, m) ← qed_dmae_sanity (eb_fn b) (eb_mem b); Some (rc, mk_engine_bus h m);
  ib_reg b a := dm_at (dev (eb_fn b)) (PReg own (a / 4));
  ib_ok b := dm_ready (eb_fn b) /\ recov_in_prog (eb_fn b) = false /\ dst_pf None (eb_fn b) = own;
  ib_plain := er_plain
|}.

Lemma placed_at src vm k : 0 <= k < Z.of_nat (length src) -> placed src vm (buf + 4 * k) = default 0 (src !! Z.to_nat k).
Proof.
  intros Hk. unfold placed. rewrite (proj2 (Z.leb_le buf _)), (proj2 (Z.ltb_lt _ _)) by lia. simpl.
  replace (buf + 4 * k - buf) with (k * 4) by lia. by rewrite Z.div_mul.
Qed.

(** A transfer from the buffer to registers of the function. *)
Lemma engine_transfer b (src : list Z) a n (repl : bool) : ib_ok b -> 4 <= a < 2 ^ 25 -> a mod 4 = 0 -> 0 <= n ->
  (forall k, 0 <= k < n -> er_plain (a + 4 * k)) ->
  let p := if repl then Some repl_params else None in let h := eb_fn b <| virt := placed src (virt (eb_fn b)) |> in
  exists rc h', qed_dmae_host2grc buf a n p h = Some (rc, h') /\
    transferred QED_DMAE_ADDRESS_HOST_VIRT QED_DMAE_ADDRESS_GRC own own buf (a / 4) n repl rc h h'.
Proof.
  intros (R & Hrec & Ho) Ha Hm Hn P p h. assert (Hn' : n <= 2 ^ 23).
  { destruct (decide (n = 0)); [lia|]. destruct (law_er_plain _ (P (n - 1) ltac:(lia))). lia. }
  assert (R' : dm_ready h) by (by destruct R; split). assert (V : no_vf p) by (by destruct repl).
  pose proof (Z.div_mod a 4 ltac:(lia)) as Hd.
  destruct (execute_spec QED_DMAE_ADDRESS_HOST_VIRT QED_DMAE_ADDRESS_GRC buf (a / 4) n p h R' Hrec V) as (rc & h' & E & T).
  { split; simpl; try done; try (unfold DMAE_MAX_RW_SIZE; lia); [|by intros [_ ?]|].
    - destruct repl; simpl; unfold src_len, DMAE_MAX_RW_SIZE; lia.
    - intros k Hk. split; intros [?|(j & _ & ?)]; done. }
  exists rc, h'. split; [exact E|].
  assert (Es : src_pf p h = own) by (rewrite <- Ho; by destruct repl). assert (Ed : dst_pf p h = own) by (rewrite <- Ho; by destruct repl).
  rewrite Es, Ed in T. by destruct repl.
Qed.

Lemma div4_eq x y : x mod 4 = 0 -> y mod 4 = 0 -> x / 4 = y / 4 -> x = y.
Proof. intros. pose proof (Z.div_mod x 4 ltac:(lia)). pose proof (Z.div_mod y 4 ltac:(lia)). lia. Qed.

#[local] Instance engine_init_laws : InitBusLaws engine_bus.
Proof.
  split.
  - intros a P. by destruct (law_er_plain a P).
  - intros b a v (R & Hrec & Ho) P Hv. destruct (law_er_wr (dev (eb_fn b)) a v (dr_idle _ R) P Hv) as [J W].
    split; [split; [apply ready_set_dev; [done|done|by rewrite W, decide_False]|done]|].
    intros x Px. simpl. rewrite W. case_decide as D1; case_decide as D2; [done| |by subst|done].
    injection D1 as D1. exfalso. apply D2. apply div4_eq; [by apply law_er_plain|by apply law_er_plain|done].
  - intros b src a n repl Ok Ha Hm Hn P Hv Hl. pose proof Ok as (R & Hrec & Ho).
    destruct (engine_transfer b src a n repl Ok Ha Hm Hn P) as (rc & h' & E & SF & X & Res).
    exists rc, (mk_engine_bus h' (eb_mem b)). split; [by unfold ib_host2grc, engine_init_bus; rewrite E|]. split.
    + intros x Nx Px. apply (X (CAt (PReg own (x / 4)))); [by intros [?|(? & _ & ?)]|]. intros k Hk [= Ek].
      apply (Nx k Hk). apply div4_eq; [by apply law_er_plain|by rewrite (Z.mul_comm 4), Z.mod_add|].
      by rewrite (Z.mul_comm 4), Z.div_add, <- Ek.
    + intros ->. destruct Res as [(_ & R' & _ & Mv)|[? _]]; [|done]. split.
      { split; [done|]. destruct SF as (F1 & _ & F3 & _). split; [by simpl; rewrite F3|]. rewrite <- Ho. unfold dst_pf. simpl. by rewrite F1. }
      intros k Hk. specialize (Mv k Hk). simpl in Mv |- *. rewrite (Z.mul_comm 4), Z.div_add, Mv by done. unfold src_idx.
      pose proof (Z.mod_pos_bound k DMAE_MAX_RW_SIZE ltac:(done)). destruct repl; apply placed_at; lia.
Qed.
End Engine.

(** ** On the simulated engine *)

#[export] Instance sim_regs : DmaeRegs sim := {|
  er_rd a d := (s_at d (PReg sim_own (a / 4)), d);
  er_plain a := 0x10000 <= a < 2 ^ 25 /\ a mod 4 = 0
|}.

#[export] Instance sim_regs_laws : DmaeRegsLaws sim sim_own.
Proof.
  split; simpl; [lia|]. intros d a v J P Hv. unfold DMAE_REG_CMD_MEM, DMAE_REG_GO_C0.
  rewrite (proj2 (Z.ltb_ge a (51200 + _))), (proj2 (Z.ltb_ge a (49224 + _))) by lia. rewrite !andb_false_r. done.
Qed.

Definition demo_mem : dma_mem := mk_dma_mem [(0x100000, 0x400000)] ∅ ∅ ∅ [] 0.

Lemma dmae_sanity_verdict_witness :
  exists rc h' m', qed_dmae_sanity (demo_fn [3%nat]) demo_mem = Some (rc, h', m') /\ live m' = ∅ /\
    (rc = 0 /\ dm_ready h' \/ rc = - ENOMEM /\ h' = demo_fn [3%nat] \/ rc = - EBUSY) /\
    forall pf a, dm_at (dev h') (PReg pf a) = 0.
Proof.
  apply (dmae_sanity_verdict (demo_fn [3%nat]) demo_mem (demo_fn_ready _) eq_refl).
  intros v p m' E _. vm_compute in E. injection E as <- <- _. split; [reflexivity|]. split; [discriminate|].
  unfold PAGE_SIZE, scratch, DMAE_MAX_RW_SIZE. simpl. change (4096 / 4) with 1024.
  intros k Hk [[= E]|(j & Hj & [= E])]; lia.
Defined.

(** An engine that answers passes. *)
Example demo_sanity : ('(rc, _, m) ← qed_dmae_sanity (demo_fn [3%nat]) demo_mem; Some (rc, bool_decide (live m = ∅))) = Some (0, true).
Proof. vm_compute. reflexivity. Qed.

(** A write command on the engine: the runtime entries of the wide bus go through
    the DMA engine and reach the function's registers. *)
Example demo_engine_write :
  let _ := engine_init_bus sim_own 0x9000 in
  ('(rc, h) ← qed_init_cmd_wr no_inflate false demo_fw (wr_op INIT_SRC_RUNTIME true 0x20000 (4 + 2 ^ 16 * 10)) true
     (mk_init_hwfn (mk_qed_rt_data (Some demo_vals) (Some demo_valid)) (mk_engine_bus (demo_fn [2%nat; 0%nat]) demo_mem));
   Some (rc, ib_reg (ibus h) <$> [0x20000; 0x20004; 0x20008; 0x2000C]))
  = Some (0, [30; 31; 0; 33]).
Proof. vm_compute. reflexivity. Qed.
