(* ===== verification/Rdma.v ===== *)
(** * RDMA resources and RoCE queue pairs (qed_rdma.c, qed_roce.c)

    The ids of RDMA objects (protection domains, completion queues, queue pairs,
    memory regions and so on) come from bitmaps under one spinlock.  A RoCE queue
    pair has an index [i] and two connection ids, [2 i] for the responder and
    [2 i + 1] for the requester above the first of the protocol; the firmware is
    told of them with ramrods, and tells with an event when it is done with one
    after a queue pair was destroyed.

    Threads run these functions concurrently.  A function is a [proc]: a tree of
    the actions that other threads can come between.  A region under the spinlock
    is one action; a ramrod, the allocation of an ILT page ([qed_cxt_dynamic_ilt_alloc]),
    the configuration of the parser ([qed_rdma_configure_prs]) and a DMA
    allocation are actions whose results come from outside.  The attributes of a
    queue pair that only fill ramrods are left out, as are virtual functions,
    iWARP and PVRDMA. *)

From S2P Require Import Prelude Cxt.

(** ** Bitmaps *)

(** [struct qed_bmap]: the name is only printed. *)
Record qed_bmap := mk_qed_bmap { bmap_max : Z; bmap_bits : option bitmap }.

(** [ok]: the outcome of the allocation. *)
Definition qed_rdma_bmap_alloc (count : Z) (ok : bool) (b : qed_bmap) : Z * qed_bmap :=
  if count =? 0 then (0, mk_qed_bmap count None) else
  if ok then (0, mk_qed_bmap count (Some (mk_bitmap (64 * ((count + 63) / 64)) 0)))
  else (- ENOMEM, mk_qed_bmap count None).

(** The code and the id. *)
Definition qed_rdma_bmap_alloc_id (b : qed_bmap) : option (Z * Z * qed_bmap) :=
  match bmap_bits b with
  | None => if bmap_max b =? 0 then Some (- EINVAL, 0, b) else None
  | Some m =>
      let id_num := find_first_zero_bit m (bmap_max b) in
      if bmap_max b <=? id_num then Some (- EINVAL, id_num, b) else
      m ← set_bit id_num m; Some (0, id_num, mk_qed_bmap (bmap_max b) (Some m))
  end.

Definition qed_bmap_set_id (id_num : Z) (b : qed_bmap) : option qed_bmap :=
  if bmap_max b <=? id_num then Some b else
  m ← bmap_bits b; m ← set_bit id_num m; Some (mk_qed_bmap (bmap_max b) (Some m)).

Definition qed_bmap_release_id (id_num : Z) (b : qed_bmap) : option qed_bmap :=
  match bmap_bits b with
  | None => Some b
  | Some m => if bmap_max b <=? id_num then Some b else
      m ← clear_bit id_num m; Some (mk_qed_bmap (bmap_max b) (Some m))
  end.

(** -1, or the bit as a number. *)
Definition qed_bmap_test_id (id_num : Z) (b : qed_bmap) : option Z :=
  match bmap_bits b with
  | None => Some (- 1)
  | Some m => if bmap_max b <=? id_num then Some (- 1) else
      t ← test_bit id_num m; Some (Z.b2z t)
  end.

(** ** The RDMA info *)

(** The maps of [struct qed_rdma_info] that are used here. *)
Inductive map_name := PD_MAP | XRCD_MAP | DPI_MAP | CQ_MAP | TOGGLE_BITS | TID_MAP | QP_MAP | CID_MAP | SUS_CID_MAP | XRC_SRQ_MAP | SRQ_MAP.

#[export] Instance map_name_eq : EqDecision map_name.
Proof. solve_decision. Defined.

(** The maps, whether [dev] and [port] are allocated, the reserved key kept in
    [dev], and the numbers computed from the configuration. *)
Record qed_rdma_info := mk_qed_rdma_info {
  maps : map_name -> qed_bmap;
  has_dev : bool; has_port : bool; reserved_lkey : Z;
  num_qps : Z; num_mrs : Z; num_srqs : Z; srq_id_offset : Z; xrc_id_offset : Z;
  xrc_supported : bool
}.
#[export] Instance eta_qed_rdma_info : Settable qed_rdma_info := fun r =>
  mk_qed_rdma_info (maps r) (has_dev r) (has_port r) (reserved_lkey r) (num_qps r) (num_mrs r) (num_srqs r) (srq_id_offset r)
    (xrc_id_offset r) (xrc_supported r).

Definition set_map (n : map_name) (b : qed_bmap) (i : qed_rdma_info) : qed_rdma_info :=
  i <| maps := fun n' => if decide (n' = n) then b else maps i n' |>.

(** ** Allocation *)

(** The kernel's allocator: the outcomes to come and the number of live blocks. *)
Record kmem := mk_kmem { km_oracle : list bool; km_live : Z }.
Definition kzalloc (m : kmem) : bool * kmem :=
  match km_oracle m with
  | true :: l => (true, mk_kmem l (km_live m + 1))
  | _ => (false, mk_kmem (tail (km_oracle m)) (km_live m))
  end.
Definition kfree (p : bool) (m : kmem) : kmem := if p then mk_kmem (km_oracle m) (km_live m - 1) else m.

(** A map of [count] ids; no memory is asked for an empty one. *)
Definition alloc_map (n : map_name) (count : Z) (i : qed_rdma_info) (m : kmem) : Z * qed_rdma_info * kmem :=
  if count =? 0 then let '(rc, b) := qed_rdma_bmap_alloc count true (maps i n) in (rc, set_map n b i, m) else
  let '(ok, m) := kzalloc m in
  let '(rc, b) := qed_rdma_bmap_alloc count ok (maps i n) in (rc, set_map n b i, m).

(** The maps one after the other, up to the first that fails. *)
Fixpoint alloc_maps (l : list (map_name * Z)) (i : qed_rdma_info) (m : kmem) : Z * qed_rdma_info * kmem :=
  match l with
  | [] => (0, i, m)
  | (n, count) :: l =>
      let '(rc, i, m) := alloc_map n count i m in
      if negb (rc =? 0) then (rc, i, m) else alloc_maps l i m
  end.

Definition RDMA_MAX_PDS : Z := 64 * 1024.

(** The configuration: connections and tasks of the protocol, doorbell pages,
    [QED_RDMA_MAX_XRCDS], shared receive queues. *)
Record rdma_cfg := mk_rdma_cfg { num_cons : Z; num_tasks : Z; dpi_count : Z; max_xrcds : Z; xrc_srq_count : Z; srq_count : Z }.

(** [qed_rdma_alloc] of a physical function with RoCE. *)
Definition qed_rdma_alloc (cfg : rdma_cfg) (i : qed_rdma_info) (m : kmem) : Z * qed_rdma_info * kmem :=
  let i := i <| num_qps := num_cons cfg / 2 |> <| num_mrs := num_tasks cfg |> in
  let '(ok, m) := kzalloc m in
  let i := i <| has_dev := ok |> <| reserved_lkey := 0 |> in
  if negb ok then (- ENOMEM, i, m) else
  let '(ok, m) := kzalloc m in
  let i := i <| has_port := ok |> in
  if negb ok then (- ENOMEM, i, m) else
  let '(rc, i, m) := alloc_maps
    [(PD_MAP, RDMA_MAX_PDS); (XRCD_MAP, max_xrcds cfg); (DPI_MAP, dpi_count cfg); (CQ_MAP, num_cons cfg);
     (TOGGLE_BITS, num_cons cfg); (TID_MAP, num_mrs i); (QP_MAP, num_qps i); (CID_MAP, num_cons cfg); (SUS_CID_MAP, num_cons cfg)] i m in
  if negb (rc =? 0) then (rc, i, m) else
  let i := i <| srq_id_offset := u16 (xrc_srq_count cfg) |> in
  let '(rc, i, m) := alloc_maps [(XRC_SRQ_MAP, srq_id_offset i)] i m in
  if negb (rc =? 0) then (rc, i, m) else
  let i := i <| num_srqs := srq_count cfg |> in
  alloc_maps [(SRQ_MAP, num_srqs i)] i m.

(** [check] only makes it print what is still in use. *)
Definition qed_rdma_bmap_free (n : map_name) (i : qed_rdma_info) (m : kmem) : qed_rdma_info * kmem :=
  match bmap_bits (maps i n) with
  | None => (i, m)
  | Some _ => (set_map n (mk_qed_bmap (bmap_max (maps i n)) None) i, kfree true m)
  end.

Fixpoint free_maps (l : list map_name) (i : qed_rdma_info) (m : kmem) : qed_rdma_info * kmem :=
  match l with [] => (i, m) | n :: l => let '(i, m) := qed_rdma_bmap_free n i m in free_maps l i m end.

Definition qed_rdma_resc_free (i : qed_rdma_info) (m : kmem) : qed_rdma_info * kmem :=
  let '(i, m) := free_maps [SUS_CID_MAP; CID_MAP; QP_MAP; PD_MAP; XRCD_MAP; DPI_MAP; CQ_MAP; TOGGLE_BITS; TID_MAP; SRQ_MAP; XRC_SRQ_MAP] i m in
  let m := kfree (has_port i) m in
  let i := i <| has_port := false |> in
  let m := kfree (has_dev i) m in
  (i <| has_dev := false |>, m).

(** [qed_rdma_free] of a physical function ([qed_roce_free_reserved_qp_idx] and
    the VF loop do nothing for it); the ILT pages are not part of this file. *)
Definition qed_rdma_free (i : qed_rdma_info) (m : kmem) : option (qed_rdma_info * kmem) :=
  if negb (has_dev i) then Some (i, m) else
  b ← qed_bmap_release_id (reserved_lkey i) (maps i TID_MAP);
  Some (qed_rdma_resc_free (set_map TID_MAP b i) m).

(** ** Actions and processes *)

(** Regions under the spinlock. *)
Inductive lock_op :=
  | LAlloc (n : map_name)                 (* qed_rdma_bmap_alloc_id *)
  | LRelease (n : map_name) (id : Z)      (* qed_bmap_release_id *)
  | LSet (n : map_name) (id : Z)          (* qed_bmap_set_id *)
  | LTest2 (n : map_name) (id1 id2 : Z)   (* both bits tested and clear *)
  | LEmpty (n : map_name)                 (* no bit is set *)
  | LToggle (id : Z).                     (* test_and_change_bit of toggle_bits *)

(** The result and the info after a region: the id or a negative code; 0; 0; 1
    when both bits are clear, else 0; 1 when the map is empty, else 0; the bit
    after the change. *)
Definition run_lock (op : lock_op) (i : qed_rdma_info) : option (Z * qed_rdma_info) :=
  match op with
  | LAlloc n => '(rc, id, b) ← qed_rdma_bmap_alloc_id (maps i n); Some (if rc =? 0 then id else rc, set_map n b i)
  | LRelease n id => b ← qed_bmap_release_id id (maps i n); Some (0, set_map n b i)
  | LSet n id => b ← qed_bmap_set_id id (maps i n); Some (0, set_map n b i)
  | LTest2 n id1 id2 =>
      resp ← qed_bmap_test_id id1 (maps i n); req ← qed_bmap_test_id id2 (maps i n);
      Some (if (resp =? 0) && (req =? 0) then 1 else 0, i)
  | LEmpty n => m ← bmap_bits (maps i n); Some (if bm_bits m mod 2 ^ bmap_max (maps i n) =? 0 then 1 else 0, i)
  | LToggle id =>
      m ← bmap_bits (maps i TOGGLE_BITS); t ← test_bit id m; m ← (if (t : bool) then clear_bit id m else set_bit id m);
      Some (Z.b2z (negb t), set_map TOGGLE_BITS (mk_qed_bmap (bmap_max (maps i TOGGLE_BITS)) (Some m)) i)
  end.

(** Ramrods: the cid (or srq id) they are for. *)
Inductive ramrod :=
  | CreateQp (cid : Z) | ModifyQp (cid : Z) | DestroyQp (cid : Z)
  | CreateUdQp (cid : Z) | DestroyUdQp (cid : Z)
  | CreateCq (cid toggle_bit : Z) | ResizeCq (cid toggle_bit : Z) | DestroyCq (cid : Z)
  | CreateSrq (id : Z) | DestroySrq (id : Z) | DeregisterMr (itid : Z).

Inductive proc (A : Type) :=
  | Ret (a : A)
  | Lock (op : lock_op) (k : Z -> proc A)
  | SpInit (k : Z -> proc A)                       (* qed_sp_init_request *)
  | SpDestroy (k : proc A)                         (* qed_sp_destroy_request *)
  | Ramrod (r : ramrod) (k : Z -> Z -> proc A)     (* qed_spq_post: the code and the word the firmware put out *)
  | Drain (k : Z -> proc A)                        (* qed_mcp_drain between acquire and release of a PTT entry *)
  | Ilt (id : Z) (k : Z -> proc A)                 (* qed_cxt_dynamic_ilt_alloc *)
  | Prs (icid : Z) (k : Z -> proc A)               (* qed_rdma_configure_prs *)
  | Dma (k : Z -> proc A)                          (* dma_alloc_coherent: an address, 0 for NULL *)
  | DmaFree (a : Z) (k : proc A)                   (* dma_free_coherent *)
  | Sleep (k : proc A).                            (* msleep *)
Arguments Ret {A}.
Arguments Lock {A}.
Arguments SpInit {A}.
Arguments SpDestroy {A}.
Arguments Ramrod {A}.
Arguments Drain {A}.
Arguments Ilt {A}.
Arguments Prs {A}.
Arguments Dma {A}.
Arguments DmaFree {A}.
Arguments Sleep {A}.

Fixpoint pbind {A C} (p : proc A) (f : A -> proc C) : proc C :=
  match p with
  | Ret a => f a
  | Lock op k => Lock op (fun z => pbind (k z) f)
  | SpInit k => SpInit (fun rc => pbind (k rc) f)
  | SpDestroy k => SpDestroy (pbind k f)
  | Ramrod r k => Ramrod r (fun rc w => pbind (k rc w) f)
  | Drain k => Drain (fun rc => pbind (k rc) f)
  | Ilt id k => Ilt id (fun rc => pbind (k rc) f)
  | Prs icid k => Prs icid (fun rc => pbind (k rc) f)
  | Dma k => Dma (fun a => pbind (k a) f)
  | DmaFree a k => DmaFree a (pbind k f)
  | Sleep k => Sleep (pbind k f)
  end.

Declare Scope proc_scope.
Delimit Scope proc_scope with proc.
Notation "'let*' x := p 'in' q" := (pbind p (fun x => q)) (at level 200, x binder, p at level 100, q at level 200) : proc_scope.
#[local] Open Scope proc_scope.

Definition lock (op : lock_op) : proc Z := Lock op Ret.
(** A request: entry and posting. *)
Definition post (r : ramrod) : proc (Z * Z) := Ramrod r (fun rc w => Ret (rc, w)).
Definition request (r : ramrod) : proc (Z * Z) := SpInit (fun rc => if negb (rc =? 0) then Ret (rc, 0) else post r).

(** ** Ids without a life of their own *)

(** The code and the id (which is of no use when the code is not 0). *)
Definition alloc_id (n : map_name) : proc (Z * Z) := let* id := lock (LAlloc n) in Ret (if id <? 0 then id else 0, u16 id).
Definition qed_rdma_alloc_pd : proc (Z * Z) := alloc_id PD_MAP.
Definition qed_rdma_free_pd (pd : Z) : proc Z := lock (LRelease PD_MAP pd).
Definition qed_rdma_alloc_xrcd : proc (Z * Z) := alloc_id XRCD_MAP.
Definition qed_rdma_free_xrcd (xrcd_id : Z) : proc Z := lock (LRelease XRCD_MAP xrcd_id).
Definition qed_rdma_add_user : proc (Z * Z) := alloc_id DPI_MAP.
Definition qed_rdma_remove_user (dpi : Z) : proc Z := lock (LRelease DPI_MAP dpi).

Definition qed_rdma_alloc_tid_inner : proc (Z * Z) :=
  let* itid := lock (LAlloc TID_MAP) in
  if itid <? 0 then Ret (itid, 0) else Ilt itid (fun rc => Ret (rc, itid)).
Definition qed_rdma_free_tid_inner (itid : Z) : proc Z := lock (LRelease TID_MAP itid).

Definition RDMA_RETURN_OK : Z := 0.
Definition RDMA_RETURN_NIG_DRAIN_REQ : Z := 4.
Definition RDMA_RETURN_DEREGISTER_MR_BAD_STATE_ERR : Z := 2.

Definition qed_rdma_send_deregister_tid_ramrod (itid : Z) : proc (Z * Z) := request (DeregisterMr itid).

Definition qed_rdma_deregister_tid_inner (itid : Z) : proc Z :=
  let finish fw_ret_code := Ret (if fw_ret_code =? RDMA_RETURN_OK then 0 else - EINVAL) in
  let* r := qed_rdma_send_deregister_tid_ramrod itid in
  let '(rc, fw_ret_code) := r in
  if negb (rc =? 0) then Ret rc else
  if negb (fw_ret_code =? RDMA_RETURN_NIG_DRAIN_REQ) then finish fw_ret_code else
  Sleep (
    let* r := qed_rdma_send_deregister_tid_ramrod itid in
    let '(rc, fw_ret_code) := r in
    if negb (rc =? 0) then Ret rc else
    if negb (fw_ret_code =? RDMA_RETURN_NIG_DRAIN_REQ) then finish fw_ret_code else
    Drain (fun rc =>
      if negb (rc =? 0) then Ret rc else
      let* r := qed_rdma_send_deregister_tid_ramrod itid in
      let '(rc, fw_ret_code) := r in
      if negb (rc =? 0) then Ret rc else finish fw_ret_code)).

(** ** Completion queues *)

Section Roce.
(** [qed_cxt_get_proto_cid_start]: the first cid of the protocol. *)
Variable start : Z.

Definition qed_rdma_toggle_bit_create_resize_cq (icid : Z) : proc Z := lock (LToggle (u32 (icid - start))).

(** The code and the icid. *)
Definition qed_rdma_create_cq_inner : proc (Z * Z) :=
  let* returned_id := lock (LAlloc CQ_MAP) in
  if returned_id <? 0 then Ret (returned_id, 0) else
  let icid := u16 (returned_id + start) in
  let err rc := let* _ := lock (LRelease CQ_MAP returned_id) in Ret (rc, icid) in
  Ilt icid (fun rc =>
    if negb (rc =? 0) then err rc else
    Prs icid (fun rc =>
      if negb (rc =? 0) then err rc else
      SpInit (fun rc =>
        if negb (rc =? 0) then err rc else
        let* toggle_bit := qed_rdma_toggle_bit_create_resize_cq icid in
        let* r := post (CreateCq icid toggle_bit) in
        if negb (fst r =? 0) then let* _ := qed_rdma_toggle_bit_create_resize_cq icid in err (fst r) else
        Ret (0, icid)))).

(** The two indices put out on success come from the memory of the device. *)
Definition qed_rdma_resize_cq_inner (icid : Z) : proc Z :=
  Dma (fun a =>
    if a =? 0 then Ret (- ENOMEM) else
    SpInit (fun rc =>
      if negb (rc =? 0) then DmaFree a (Ret rc) else
      let* toggle_bit := qed_rdma_toggle_bit_create_resize_cq icid in
      let* r := post (ResizeCq icid toggle_bit) in
      let '(rc, fw_return_code) := r in
      if negb (rc =? 0) then DmaFree a (Ret rc) else
      if negb (fw_return_code =? RDMA_RETURN_OK) then DmaFree a (Ret (- EINVAL)) else
      DmaFree a (Ret 0))).

(** The code and the number of notifications put out. *)
Definition qed_rdma_destroy_cq_inner (icid : Z) : proc (Z * Z) :=
  Dma (fun a =>
    if a =? 0 then Ret (- ENOMEM, 0) else
    let* r := request (DestroyCq icid) in
    if negb (fst r =? 0) then DmaFree a (Ret r) else
    DmaFree a (let* _ := lock (LRelease CQ_MAP (u32 (icid - start))) in Ret r)).

(** ** Shared receive queues *)

Definition qed_rdma_get_srq_bmap (is_xrc : bool) : map_name := if is_xrc then XRC_SRQ_MAP else SRQ_MAP.

(** [offset]: [qed_rdma_get_srq_offset]. *)
Definition qed_rdma_create_srq_inner (is_xrc supported : bool) (offset : Z) : proc (Z * Z) :=
  if is_xrc && negb supported then Ret (- EOPNOTSUPP, 0) else
  let* returned_id := lock (LAlloc (qed_rdma_get_srq_bmap is_xrc)) in
  if returned_id <? 0 then Ret (returned_id, 0) else
  let srq_id := u16 (returned_id + offset) in
  let err rc := let* _ := lock (LRelease (qed_rdma_get_srq_bmap is_xrc) returned_id) in Ret (rc, 0) in
  Ilt srq_id (fun rc =>
    if negb (rc =? 0) then err rc else
    let* r := request (CreateSrq srq_id) in
    if negb (fst r =? 0) then err (fst r) else Ret (0, srq_id)).

Definition qed_rdma_destroy_srq_inner (is_xrc supported : bool) (offset srq_id : Z) : proc Z :=
  if is_xrc && negb supported then Ret (- EOPNOTSUPP) else
  let* r := request (DestroySrq srq_id) in
  if negb (fst r =? 0) then Ret (fst r) else
  let* _ := lock (LRelease (qed_rdma_get_srq_bmap is_xrc) (u32 (srq_id - offset))) in Ret 0.

(** ** Queue pairs *)

Inductive qed_roce_qp_state := RESET | INIT | RTR | RTS | SQD | ERR | SQE.
Inductive qed_rdma_qp_type := TYPE_RC | TYPE_XRC_INI | TYPE_XRC_TGT.

#[export] Instance qp_state_eq : EqDecision qed_roce_qp_state.
Proof. solve_decision. Defined.
#[export] Instance qp_type_eq : EqDecision qed_rdma_qp_type.
Proof. solve_decision. Defined.

Record qed_rdma_qp := mk_qed_rdma_qp {
  qp_idx : Z; icid : Z; cur_state : qed_roce_qp_state; qp_type : qed_rdma_qp_type;
  req_offloaded : bool; has_req : bool; resp_offloaded : bool; has_resp : bool;
  cq_prod_req : Z; cq_prod_resp : Z; irq : Z; orq : Z
}.
#[export] Instance eta_qed_rdma_qp : Settable qed_rdma_qp := fun r =>
  mk_qed_rdma_qp (qp_idx r) (icid r) (cur_state r) (qp_type r) (req_offloaded r) (has_req r) (resp_offloaded r) (has_resp r)
    (cq_prod_req r) (cq_prod_resp r) (irq r) (orq r).
Implicit Types (qp : qed_rdma_qp).

Definition qed_roce_qp_idx_to_icid (idx : Z) : Z := u16 (start + idx * 2).
Definition qed_roce_icid_to_qp_idx (cid : Z) : Z := u16 (u32 (cid - start) / 2).

Definition QED_ROCE_CREATE_QP_ATTEMPTS : nat := 200.

Fixpoint wait_cids (iter : nat) (cid : Z) : proc Z :=
  match iter with
  | O => Ret (- EAGAIN)
  | S iter => Lock (LTest2 CID_MAP cid (cid + 1)) (fun z => if z =? 1 then Ret 0 else Sleep (wait_cids iter cid))
  end.
Definition qed_roce_wait_free_cids (idx : Z) : proc Z := wait_cids QED_ROCE_CREATE_QP_ATTEMPTS (qed_roce_qp_idx_to_icid idx).
#[global] Arguments QED_ROCE_CREATE_QP_ATTEMPTS : simpl never.

Definition qed_roce_free_qp (idx : Z) : proc Z := lock (LRelease QP_MAP idx).

(** The code and the index. *)
Definition qed_roce_alloc_qp_idx : proc (Z * Z) :=
  let* idx := lock (LAlloc QP_MAP) in
  if idx <? 0 then Ret (idx, 0) else
  let err rc := let* _ := qed_roce_free_qp (u16 idx) in Ret (rc, 0) in
  let* rc := qed_roce_wait_free_cids idx in
  if negb (rc =? 0) then err (- EINVAL) else
  let cid := qed_roce_qp_idx_to_icid (u16 idx) in
  Ilt cid (fun rc => if negb (rc =? 0) then err rc else
    Ilt (cid + 1) (fun rc => if negb (rc =? 0) then err rc else
      Prs (cid + 1) (fun rc => if negb (rc =? 0) then err rc else Ret (0, u16 idx)))).

Definition qed_roce_set_cid (cid : Z) : proc Z := lock (LSet CID_MAP cid).

Definition qed_roce_sp_create_responder qp : proc (Z * qed_rdma_qp) :=
  if negb (has_resp qp) then Ret (0, qp) else
  let* r := request (CreateQp (icid qp)) in
  if negb (fst r =? 0) then Ret (fst r, qp) else
  let qp := qp <| resp_offloaded := true |> <| cq_prod_resp := 0 |> in
  let* _ := qed_roce_set_cid (u32 (icid qp - start)) in Ret (0, qp).

Definition qed_roce_sp_create_requester qp : proc (Z * qed_rdma_qp) :=
  if negb (has_req qp) then Ret (0, qp) else
  let* r := request (CreateQp (icid qp + 1)) in
  if negb (fst r =? 0) then Ret (fst r, qp) else
  let qp := qp <| req_offloaded := true |> <| cq_prod_req := 0 |> in
  let* _ := qed_roce_set_cid (u32 (icid qp + 1 - start)) in Ret (0, qp).

Definition qed_roce_sp_modify_responder (move_to_err : bool) qp : proc Z :=
  if negb (has_resp qp) then Ret 0 else
  if move_to_err && negb (resp_offloaded qp) then Ret 0 else
  let* r := request (ModifyQp (icid qp)) in Ret (fst r).

Definition qed_roce_sp_modify_requester (move_to_err : bool) qp : proc Z :=
  if negb (has_req qp) then Ret 0 else
  if move_to_err && negb (req_offloaded qp) then Ret 0 else
  let* r := request (ModifyQp (icid qp + 1)) in Ret (fst r).

(** The code, the producer put out ([None]: not written) and the queue pair. *)
Definition qed_roce_sp_destroy_qp_responder qp : proc (Z * option Z * qed_rdma_qp) :=
  if negb (has_resp qp) then Ret (0, Some 0, qp) else
  if negb (resp_offloaded qp) then Ret (0, Some (cq_prod_resp qp), qp) else
  SpInit (fun rc =>
    if negb (rc =? 0) then Ret (rc, None, qp) else
    Dma (fun a =>
      if a =? 0 then SpDestroy (Ret (- ENOMEM, None, qp)) else
      let* r := post (DestroyQp (icid qp)) in
      if negb (fst r =? 0) then DmaFree a (Ret (fst r, None, qp)) else
      DmaFree a (Ret (0, Some (snd r), qp <| cq_prod_resp := snd r |> <| resp_offloaded := false |>)))).

Definition qed_roce_sp_destroy_qp_requester qp : proc (Z * option Z * qed_rdma_qp) :=
  if negb (has_req qp) then Ret (0, Some 0, qp) else
  if negb (req_offloaded qp) then Ret (0, Some (cq_prod_req qp), qp) else
  Dma (fun a =>
    if a =? 0 then Ret (- ENOMEM, None, qp) else
    let* r := request (DestroyQp (icid qp + 1)) in
    if negb (fst r =? 0) then DmaFree a (Ret (fst r, None, qp)) else
    DmaFree a (Ret (0, Some (snd r), qp <| cq_prod_req := snd r |> <| req_offloaded := false |>))).

(** The code, the two producers and the queue pair. *)
Definition qed_roce_destroy_qp qp : proc (Z * (Z * Z) * qed_rdma_qp) :=
  let finish resp req qp := let* _ := qed_roce_free_qp (qp_idx qp) in Ret (0, (resp, req), qp) in
  if negb (bool_decide (cur_state qp = RESET) || bool_decide (cur_state qp = ERR) || bool_decide (cur_state qp = INIT))
  then Ret (- EINVAL, (0, 0), qp) else
  if bool_decide (cur_state qp = RESET) then finish (cq_prod_resp qp) (cq_prod_req qp) qp else
  let prod_resp := cq_prod_resp qp in let prod_req := cq_prod_req qp in
  let* r := qed_roce_sp_destroy_qp_responder qp in
  let '(rc, resp, qp) := r in
  if negb (rc =? 0) then Ret (rc, (0, 0), qp) else
  let* r := qed_roce_sp_destroy_qp_requester qp in
  let '(rc, req, qp) := r in
  if negb (rc =? 0) then Ret (rc, (0, 0), qp) else
  finish (default prod_resp resp) (default prod_req req) qp.

Definition qed_roce_alloc_irq qp : proc (Z * qed_rdma_qp) :=
  if negb (irq qp =? 0) then Ret (0, qp) else
  Dma (fun a => Ret (if a =? 0 then - ENOMEM else 0, qp <| irq := a |>)).
Definition qed_roce_free_irq qp : proc qed_rdma_qp :=
  if irq qp =? 0 then Ret qp else DmaFree (irq qp) (Ret (qp <| irq := 0 |>)).
Definition qed_roce_alloc_orq qp : proc (Z * qed_rdma_qp) :=
  if negb (orq qp =? 0) then Ret (0, qp) else
  Dma (fun a => Ret (if a =? 0 then - ENOMEM else 0, qp <| orq := a |>)).
Definition qed_roce_free_orq qp : proc qed_rdma_qp :=
  if orq qp =? 0 then Ret qp else DmaFree (orq qp) (Ret (qp <| orq := 0 |>)).

(** Modify responder, then requester. *)
Definition modify_both (resp_err req_err : bool) qp : proc (Z * qed_rdma_qp) :=
  let* rc := qed_roce_sp_modify_responder resp_err qp in
  if negb (rc =? 0) then Ret (rc, qp) else
  let* rc := qed_roce_sp_modify_requester req_err qp in Ret (rc, qp).

Definition qed_roce_modify_qp (prev_state : qed_roce_qp_state) qp : proc (Z * qed_rdma_qp) :=
  match prev_state, cur_state qp with
  | INIT, RTR | RESET, RTR =>
      let* rc := qed_roce_wait_free_cids (qp_idx qp) in
      if negb (rc =? 0) then Ret (rc, qp) else qed_roce_sp_create_responder qp
  | RTR, RTS =>
      let* r := qed_roce_sp_create_requester qp in
      let '(rc, qp) := r in
      if negb (rc =? 0) then Ret (rc, qp) else
      let* rc := qed_roce_sp_modify_responder false qp in Ret (rc, qp)
  | RTS, RTS | SQD, SQD | SQD, RTS => modify_both false false qp
  | RTS, SQD => let* rc := qed_roce_sp_modify_requester false qp in Ret (rc, qp)
  | _, ERR => modify_both true true qp
  | _, RESET =>
      let* r := qed_roce_sp_destroy_qp_responder qp in
      let '(rc, resp, qp) := r in
      let qp := qp <| cq_prod_resp := default (cq_prod_resp qp) resp |> in
      if negb (rc =? 0) then Ret (rc, qp) else
      let* r := qed_roce_sp_destroy_qp_requester qp in
      let '(rc, req, qp) := r in
      Ret (rc, qp <| cq_prod_req := default (cq_prod_req qp) req |>)
  | _, _ => Ret (0, qp)
  end.

(** [new_state]: [None] when QED_RDMA_MODIFY_QP_VALID_NEW_STATE is not set. *)
Definition qed_rdma_modify_qp_inner (new_state : option qed_roce_qp_state) qp : proc (Z * qed_rdma_qp) :=
  let prev_state := cur_state qp in
  let qp := qp <| cur_state := default prev_state new_state |> in
  let qp := match qp_type qp with
    | TYPE_XRC_INI => qp <| has_req := true |>
    | TYPE_XRC_TGT => qp <| has_resp := true |>
    | TYPE_RC => qp <| has_req := true |> <| has_resp := true |>
    end in
  qed_roce_modify_qp prev_state qp.

Definition qed_rdma_modify_qp (new_state : option qed_roce_qp_state) qp : proc (Z * qed_rdma_qp) :=
  let* r := qed_roce_alloc_irq qp in
  let '(rc, qp) := r in
  if negb (rc =? 0) then Ret (rc, qp) else
  let* r := qed_roce_alloc_orq qp in
  let '(rc, qp) := r in
  if negb (rc =? 0) then let* qp := qed_roce_free_irq qp in Ret (rc, qp) else
  let* r := qed_rdma_modify_qp_inner new_state qp in
  let '(rc, qp) := r in
  if negb (rc =? 0) then let* qp := qed_roce_free_orq qp in let* qp := qed_roce_free_irq qp in Ret (rc, qp) else
  Ret (0, qp).

(** [valid]: the checks of the parameters; [kz_ok]: the outcome of the
    allocation.  The code of the index allocation and the queue pair. *)
Definition qed_rdma_create_qp_inner (valid kz_ok : bool) (type : qed_rdma_qp_type) : proc (option qed_rdma_qp) :=
  if negb valid then Ret None else
  if negb kz_ok then Ret None else
  let* r := qed_roce_alloc_qp_idx in
  let '(rc, idx) := r in
  if negb (rc =? 0) then Ret None else
  Ret (Some (mk_qed_rdma_qp idx (qed_roce_qp_idx_to_icid idx) RESET type false false false false 0 0 0 0)).

(** The queue pair is freed whatever the code. *)
Definition qed_rdma_destroy_qp qp : proc Z :=
  let* r := qed_roce_destroy_qp qp in
  let '(rc, _, qp) := r in
  let* qp := qed_roce_free_irq qp in
  let* _ := qed_roce_free_orq qp in
  Ret rc.

(** The code and the cid of a queue pair for datagrams. *)
Definition qed_roce_create_ud_qp : proc (Z * Z) :=
  let* r := qed_roce_alloc_qp_idx in
  let '(rc, idx) := r in
  if negb (rc =? 0) then Ret (rc, 0) else
  let cid := qed_roce_qp_idx_to_icid idx in
  let* r := request (CreateUdQp cid) in
  if negb (fst r =? 0) then let* _ := qed_roce_free_qp idx in Ret (fst r, 0) else Ret (0, cid).

Definition qed_roce_destroy_ud_qp (cid : Z) : proc Z :=
  let* r := request (DestroyUdQp cid) in
  if negb (fst r =? 0) then Ret (fst r) else
  let* _ := qed_roce_free_qp (qed_roce_icid_to_qp_idx cid) in Ret 0.

(** The event ROCE_ASYNC_EVENT_DESTROY_QP_DONE. *)
Definition qed_roce_free_icid (cid : Z) : lock_op := LRelease CID_MAP (u32 (cid - start)).

Definition QED_ROCE_TEST_CID_BITMAP_ATTEMPTS : nat := 200.
(** The wait for the events of queue pairs destroyed, with [wait_count] more
    tries; [recov]: [recov_in_prog]. *)
Fixpoint stop_loop (wait_count : nat) (recov : bool) : proc Z :=
  Lock (LEmpty CID_MAP) (fun z =>
    if z =? 1 then Ret 0 else
    if recov then Ret 0 else
    Sleep (match wait_count with O => Ret 0 | S n => stop_loop n recov end)).
Definition qed_roce_stop (recov : bool) : proc Z := stop_loop QED_ROCE_TEST_CID_BITMAP_ATTEMPTS recov.

End Roce.
