(* ===== verification/RoceRun.v ===== *)
(** * Queue pairs in use: threads and firmware (qed_roce.c, qed_rdma.c)

    A machine of any number of threads that run the functions of [Rdma], each
    with at most one queue pair at a time, and of the firmware's view of the
    connection ids, which begin at 0 (the physical function of a RoCE
    personality).  Every action of a thread is a step.  What [qed_spq_post] reports
    of a ramrod and what happens to it are two things: a ramrod may be executed
    before the code is returned, never (a recovery skips it and reports 0), or
    some time later (the wait for it timed out).  Runs in which the code tells the
    truth and threads move to the error state after a failed modify are the
    [careful] ones.  After a destroy ramrod the firmware still uses the connection;
    it is done some time later, puts an event on the queue, and the driver handles
    the event later still.  The file has the machine, what a thread knows of the
    two connections of its queue pair ([own]), and the rules by which that
    knowledge changes in careful runs ([wp]). *)

From S2P Require Import Prelude Cxt Rdma.

(** ** The machine *)

(** The firmware's view of a connection id: not in use, in use, destroyed but
    still in use, done with the event still in the queue. *)
Inductive fw_cid := fw_idle | fw_used | fw_dying | fw_done.

#[export] Instance fw_cid_eq : EqDecision fw_cid.
Proof. solve_decision. Defined.

Definition fw_set (c : Z) (v : fw_cid) (fw : Z -> fw_cid) : Z -> fw_cid := fun c' => if c' =? c then v else fw c'.

(** What the firmware takes as a legal ramrod, and what it does. *)
Definition fw_accepts (r : ramrod) (fw : Z -> fw_cid) : bool :=
  match r with
  | CreateQp c | CreateUdQp c => bool_decide (fw c = fw_idle)
  | ModifyQp c | DestroyQp c | DestroyUdQp c => bool_decide (fw c = fw_used)
  | _ => true
  end.
Definition fw_exec (r : ramrod) (fw : Z -> fw_cid) : Z -> fw_cid :=
  match r with
  | CreateQp c | CreateUdQp c => fw_set c fw_used fw
  | DestroyQp c => fw_set c fw_dying fw
  | DestroyUdQp c => fw_set c fw_idle fw
  | _ => fw
  end.

(** A thread between two calls.  [failed]: the last modify failed and the queue
    pair is not in the error state. *)
Inductive resting := NoQp | HasQp (qp : qed_rdma_qp) (failed : bool) | HasUd (cid : Z).

(** [rm_late]: ramrods in flight of which the threads have been told a code. *)
Record machine := mk_machine { rm_info : qed_rdma_info; rm_fw : Z -> fw_cid; rm_late : list ramrod; rm_clients : list (proc resting) }.

(** The transitions that the verbs allow for a connected queue pair (any state
    may go to the error and to the reset state). *)
Definition legal (prev new : qed_roce_qp_state) : bool :=
  match prev, new with
  | _, RESET | _, ERR => true
  | RESET, INIT | INIT, INIT | INIT, RTR | RTR, RTR | RTR, RTS | RTS, RTS | RTS, SQD | SQD, SQD | SQD, RTS => true
  | _, _ => false
  end.

#[local] Open Scope proc_scope.

Definition create_call (valid kz_ok : bool) (type : qed_rdma_qp_type) : proc resting :=
  let* r := qed_rdma_create_qp_inner 0 valid kz_ok type in
  Ret (match r with Some qp => HasQp qp false | None => NoQp end).
Definition create_ud_call : proc resting :=
  let* r := qed_roce_create_ud_qp 0 in
  Ret (if fst r =? 0 then HasUd (snd r) else NoQp).
Definition modify_call (new_state : option qed_roce_qp_state) (qp : qed_rdma_qp) : proc resting :=
  let* r := qed_rdma_modify_qp 0 new_state qp in
  Ret (HasQp (snd r) (negb (fst r =? 0) && negb (bool_decide (cur_state (snd r) = ERR)))).
Definition destroy_call (qp : qed_rdma_qp) : proc resting := let* _ := qed_rdma_destroy_qp qp in Ret NoQp.
Definition destroy_ud_call (cid : Z) : proc resting :=
  let* rc := qed_roce_destroy_ud_qp 0 cid in Ret (if rc =? 0 then NoQp else HasUd cid).

(** What happens to a ramrod: executed before its code is returned, never, or
    after it. *)
Inductive fate := Now | Never | Late.

(** What a step is: a call, after a failed modify or not and to the error state or
    not; a ramrod with its code and fate; anything else. *)
Inductive label := Call (failed to_err : bool) | Posted (rc : Z) (f : fate) | Plain.

(** The code of a ramrod is 0 when and only when it was executed (not so after a
    time-out of [qed_spq_post] and in a recovery), and after a failed modify a
    thread only moves its queue pair to the error state. *)
Definition careful (l : label) : Prop :=
  match l with
  | Call failed to_err => failed = true -> to_err = true
  | Posted rc f => rc = 0 /\ f = Now \/ rc ≠ 0 /\ f = Never
  | Plain => True
  end.

(** The calls a thread may make. *)
Inductive call : label -> resting -> proc resting -> Prop :=
  | call_create valid kz_ok type : call (Call false false) NoQp (create_call valid kz_ok type)
  | call_create_ud : call (Call false false) NoQp create_ud_call
  | call_modify qp failed new_state : legal (cur_state qp) (default (cur_state qp) new_state) = true ->
      call (Call failed (bool_decide (new_state = Some ERR))) (HasQp qp failed) (modify_call new_state qp)
  | call_destroy qp failed : call (Call failed false) (HasQp qp failed) (destroy_call qp)
  | call_destroy_ud cid : call (Call false false) (HasUd cid) (destroy_ud_call cid).

(** A ramrod meets its fate. *)
Definition fate_fw (f : fate) (r : ramrod) (fw : Z -> fw_cid) : Z -> fw_cid := match f with Now => fw_exec r fw | _ => fw end.
Definition fate_late (f : fate) (r : ramrod) (late : list ramrod) : list ramrod := match f with Late => late ++ [r] | _ => late end.

(** One action of a thread, with every result it can have. *)
Inductive act : label -> qed_rdma_info -> (Z -> fw_cid) -> list ramrod -> proc resting ->
    qed_rdma_info -> (Z -> fw_cid) -> list ramrod -> proc resting -> Prop :=
  | act_call l i fw late r p : call l r p -> act l i fw late (Ret r) i fw late p
  | act_lock i fw late op k z i' : run_lock op i = Some (z, i') -> act Plain i fw late (Lock op k) i' fw late (k z)
  | act_init i fw late k rc : act Plain i fw late (SpInit k) i fw late (k rc)
  | act_uninit i fw late k : act Plain i fw late (SpDestroy k) i fw late k
  | act_ramrod i fw late r k rc w f : act (Posted rc f) i fw late (Ramrod r k) i (fate_fw f r fw) (fate_late f r late) (k rc w)
  | act_drain i fw late k rc : act Plain i fw late (Drain k) i fw late (k rc)
  | act_ilt i fw late id k rc : act Plain i fw late (Ilt id k) i fw late (k rc)
  | act_prs i fw late id k rc : act Plain i fw late (Prs id k) i fw late (k rc)
  | act_dma i fw late k a : act Plain i fw late (Dma k) i fw late (k a)
  | act_dma_free i fw late a k : act Plain i fw late (DmaFree a k) i fw late k
  | act_sleep i fw late k : act Plain i fw late (Sleep k) i fw late k.

Inductive step : label -> machine -> machine -> Prop :=
  | step_act l n i fw late cs p i' fw' late' p' : cs !! n = Some p -> act l i fw late p i' fw' late' p' ->
      step l (mk_machine i fw late cs) (mk_machine i' fw' late' (<[n := p']> cs))
  | step_late i fw l1 r l2 cs : step Plain (mk_machine i fw (l1 ++ r :: l2) cs) (mk_machine i (fw_exec r fw) (l1 ++ l2) cs)
  | step_done i fw late cs c : fw c = fw_dying -> step Plain (mk_machine i fw late cs) (mk_machine i (fw_set c fw_done fw) late cs)
  | step_event i fw late cs c i' z : fw c = fw_done -> run_lock (qed_roce_free_icid 0 c) i = Some (z, i') ->
      step Plain (mk_machine i fw late cs) (mk_machine i' (fw_set c fw_idle fw) late cs).

Definition any_step (s s' : machine) : Prop := exists l, step l s s'.
Definition careful_step (s s' : machine) : Prop := exists l, step l s s' /\ careful l.

(** The next action of a thread is legal: the firmware takes its ramrod, its
    bits lie in the maps. *)
Definition act_safe (i : qed_rdma_info) (fw : Z -> fw_cid) (p : proc resting) : Prop :=
  match p with
  | Lock op _ => is_Some (run_lock op i)
  | Ramrod r _ => fw_accepts r fw = true
  | _ => True
  end.

(** ** What a thread knows *)

(** Of a connection id: nothing but that it can be waited for; that it is free;
    that the firmware uses it and the bit is not yet set; that the firmware uses
    it and the bit is set. *)
Inductive cst := Unk | Free | New | Live.

Definition stat (s : cst) (fw : fw_cid) (bit : bool) : Prop :=
  match s with
  | Unk => match fw with fw_idle => bit = false | fw_used => False | fw_dying | fw_done => bit = true end
  | Free => fw = fw_idle /\ bit = false
  | New => fw = fw_used /\ bit = false
  | Live => fw = fw_used /\ bit = true
  end.

(** The responder's connection and the requester's. *)
Inductive side := Resp | Req.
#[export] Instance side_eq : EqDecision side.
Proof. solve_decision. Defined.

Record own := mk_own { o_idx : Z; o_resp : cst; o_req : cst }.
Definition side_cid (sd : side) (idx : Z) : Z := match sd with Resp => 2 * idx | Req => 2 * idx + 1 end.
Definition side_get (sd : side) (o : own) : cst := match sd with Resp => o_resp o | Req => o_req o end.
Definition side_upd (sd : side) (s : cst) (o : own) : own :=
  match sd with Resp => mk_own (o_idx o) s (o_req o) | Req => mk_own (o_idx o) (o_resp o) s end.

(** A ramrod on a connection: what must be known before and what is after. *)
Definition cid_change (r : ramrod) : option (Z * cst * cst) :=
  match r with
  | CreateQp c | CreateUdQp c => Some (c, Free, New)
  | ModifyQp c => Some (c, Live, Live)
  | DestroyQp c => Some (c, Live, Unk)
  | DestroyUdQp c => Some (c, New, Free)
  | _ => None
  end.

(** Both bits were clear. *)
Definition passed (s : cst) : cst := match s with Unk => Free | s => s end.
Definition bit_may_be_clear (s : cst) : bool := match s with Live => false | _ => true end.
Definition quiet (s : cst) : bool := match s with Unk | Free => true | _ => false end.

(** The actions of [p] are legal from the knowledge [K], and [Q] holds of the
    result and of what is known then; [N] queue pairs. *)
Section Wp.
Variable N : Z.

Fixpoint wp {A} (Q : A -> option own -> Prop) (p : proc A) (K : option own) {struct p} : Prop :=
  match p with
  | Ret a => Q a K
  | Lock op k =>
      match op, K with
      | LAlloc QP_MAP, None =>
          (forall z, z < 0 -> wp Q (k z) None) /\ (forall idx, 0 <= idx < N -> wp Q (k idx) (Some (mk_own idx Unk Unk)))
      | LRelease QP_MAP id, Some o => id = o_idx o /\ quiet (o_resp o) = true /\ quiet (o_req o) = true /\ wp Q (k 0) None
      | LSet CID_MAP c, Some o => exists sd, c = side_cid sd (o_idx o) /\ side_get sd o = New /\ wp Q (k 0) (Some (side_upd sd Live o))
      | LTest2 CID_MAP c1 c2, Some o =>
          c1 = side_cid Resp (o_idx o) /\ c2 = side_cid Req (o_idx o) /\ wp Q (k 0) K /\
          (bit_may_be_clear (o_resp o) = true -> bit_may_be_clear (o_req o) = true ->
           wp Q (k 1) (Some (mk_own (o_idx o) (passed (o_resp o)) (passed (o_req o)))))
      | _, _ => False
      end
  | Ramrod r k =>
      (forall rc w, rc ≠ 0 -> wp Q (k rc w) K) /\
      match cid_change r, K with
      | Some (c, s, s'), Some o =>
          exists sd, c = side_cid sd (o_idx o) /\ side_get sd o = s /\ forall w, wp Q (k 0 w) (Some (side_upd sd s' o))
      | _, _ => False
      end
  | SpInit k | Drain k | Dma k => forall z, wp Q (k z) K
  | Ilt _ k | Prs _ k => forall z, wp Q (k z) K
  | SpDestroy k | DmaFree _ k | Sleep k => wp Q k K
  end.

(** Consequence and sequence. *)
Lemma wp_mono {A} (Q Q' : A -> option own -> Prop) p : forall K, wp Q p K -> (forall a K, Q a K -> Q' a K) -> wp Q' p K.
Proof.
  induction p as [a|op k IH|k IH|k IH|r k IH|k IH|id k IH|id k IH|k IH|a k IH|k IH]; intros K H HQ; simpl in *; try solve [eauto].
  - destruct op as [[]|[]|[]|[]| |], K as [o|]; try done.
    + destruct H as [H1 H2]. split; eauto.
    + destruct H as (? & ? & ? & ?). eauto 6.
    + destruct H as (sd & ? & ? & ?). eauto 6.
    + destruct H as (? & ? & ? & ?). eauto 10.
  - destruct H as [H1 H2]. split; [eauto|]. destruct (cid_change r) as [[[c s] s']|], K as [o|]; try done.
    destruct H2 as (sd & ? & ? & ?). eauto 6.
Qed.

Lemma wp_bind {A C} (Q : C -> option own -> Prop) (p : proc A) (f : A -> proc C) :
  forall K, wp (fun a K => wp Q (f a) K) p K -> wp Q (pbind p f) K.
Proof.
  induction p as [a|op k IH|k IH|k IH|r k IH|k IH|id k IH|id k IH|k IH|a k IH|k IH]; intros K H; simpl in *; try solve [eauto].
  - destruct op as [[]|[]|[]|[]| |], K as [o|]; try done.
    + destruct H as [H1 H2]. split; eauto.
    + destruct H as (? & ? & ? & ?). eauto 6.
    + destruct H as (sd & ? & ? & ?). eauto 6.
    + destruct H as (? & ? & ? & ?). eauto 10.
  - destruct H as [H1 H2]. split; [eauto|]. destruct (cid_change r) as [[[c s] s']|], K as [o|]; try done.
    destruct H2 as (sd & ? & ? & ?). eauto 6.
Qed.

End Wp.
