(* ===== verification/RoceSpecs.v ===== *)
(** * What the queue pair functions need and leave behind (qed_roce.c, qed_rdma.c)

    A specification in terms of [wp] for every function on queue pairs, from the
    waiting loop to the calls of the threads. *)

From S2P Require Import Prelude Cxt Rdma RoceRun.

(** Steps through [p] with a specification of it. *)
Tactic Notation "wp_call" open_constr(H) := apply wp_bind; eapply wp_mono; [eapply H|].

Section Specs.
Variable N : Z.
Hypothesis N_small : N <= 32768.
Implicit Types (qp : qed_rdma_qp) (o : own) (K : option own).

Lemma idx_to_icid idx : 0 <= idx < N -> qed_roce_qp_idx_to_icid 0 idx = side_cid Resp idx.
Proof. intros H. unfold qed_roce_qp_idx_to_icid, u16. simpl. rewrite Z.mod_small by lia. lia. Qed.

Lemma icid_to_idx idx : 0 <= idx < N -> qed_roce_icid_to_qp_idx 0 (side_cid Resp idx) = idx.
Proof.
  intros H. unfold qed_roce_icid_to_qp_idx, u16, u32. rewrite Z.sub_0_r, (Z.mod_small (side_cid _ _)) by (simpl; lia).
  simpl side_cid. rewrite (Z.mul_comm 2), Z.div_mul, Z.mod_small by lia. done.
Qed.

Lemma u16_idx idx : 0 <= idx < N -> u16 idx = idx.
Proof. intros H. unfold u16. apply Z.mod_small. lia. Qed.

Lemma u32_cid sd idx : 0 <= idx < N -> u32 (side_cid sd idx - 0) = side_cid sd idx.
Proof. intros H. unfold u32. rewrite Z.sub_0_r. apply Z.mod_small. destruct sd; simpl; lia. Qed.

(** ** Waiting for the connections of an index *)

Definition waited (o : own) : own := mk_own (o_idx o) (passed (o_resp o)) (passed (o_req o)).

Lemma wait_cids_spec iter o :
  wp N (fun rc K => rc ≠ 0 /\ K = Some o \/ rc = 0 /\ K = Some (waited o)) (wait_cids iter (side_cid Resp (o_idx o))) (Some o).
Proof.
  induction iter as [|iter IH]; simpl; [left; done|].
  split; [done|]. split; [done|]. split; [exact IH|]. intros _ _. right. done.
Qed.

Lemma wait_free_cids_spec idx o : 0 <= idx < N -> idx = o_idx o ->
  wp N (fun rc K => rc ≠ 0 /\ K = Some o \/ rc = 0 /\ K = Some (waited o)) (qed_roce_wait_free_cids 0 idx) (Some o).
Proof. intros H ->. unfold qed_roce_wait_free_cids. rewrite idx_to_icid by done. apply wait_cids_spec. Qed.

Lemma free_qp_spec idx o : idx = o_idx o -> quiet (o_resp o) = true -> quiet (o_req o) = true ->
  wp N (fun _ K => K = None) (qed_roce_free_qp idx) (Some o).
Proof. intros. simpl. done. Qed.

(** An index is handed out with both of its connections free, or not at all. *)
Lemma alloc_qp_idx_spec :
  wp N (fun r K => fst r ≠ 0 /\ K = None \/ fst r = 0 /\ 0 <= snd r < N /\ K = Some (mk_own (snd r) Free Free))
    (qed_roce_alloc_qp_idx 0) None.
Proof.
  unfold qed_roce_alloc_qp_idx. apply wp_bind. cbn [lock wp]. split.
  { intros z Hz. replace (z <? 0) with true by lia. simpl. left. split; [lia|done]. }
  intros idx Hi. replace (idx <? 0) with false by lia. rewrite u16_idx by done.
  assert (Err : forall rc : Z, rc ≠ 0 -> idx = idx /\ true = true /\ true = true /\
    (rc ≠ 0 /\ @None own = None \/ rc = 0 /\ 0 <= 0 < N /\ None = Some (mk_own 0 Free Free))) by auto 10.
  wp_call wait_free_cids_spec; [done..|]. intros rc K [[Hrc ->]|[-> ->]]; simpl.
  - replace (rc =? 0) with false by lia. simpl. by apply Err.
  - intros rc. destruct (Z.eqb_spec rc 0) as [->|Hrc]; simpl; [|by apply Err].
    intros rc. destruct (Z.eqb_spec rc 0) as [->|Hrc]; simpl; [|by apply Err].
    intros rc. destruct (Z.eqb_spec rc 0) as [->|Hrc]; simpl; [|by apply Err].
    right. done.
Qed.

(** ** The queue pair and its connections *)

Definition wants_resp (t : qed_rdma_qp_type) : bool := match t with TYPE_XRC_INI => false | _ => true end.
Definition wants_req (t : qed_rdma_qp_type) : bool := match t with TYPE_XRC_TGT => false | _ => true end.

(** A connection is offloaded when and only when the firmware has it. *)
Record qp_owns qp o : Prop := {
  qo_idx : o_idx o = qp_idx qp;
  qo_range : 0 <= qp_idx qp < N;
  qo_icid : icid qp = side_cid Resp (qp_idx qp);
  qo_resp : if resp_offloaded qp then o_resp o = Live else quiet (o_resp o) = true;
  qo_req : if req_offloaded qp then o_req o = Live else quiet (o_req o) = true;
  qo_has_resp : resp_offloaded qp = true -> has_resp qp = true;
  qo_has_req : req_offloaded qp = true -> has_req qp = true
}.

(** What a state says of the connections of a queue pair. *)
Definition settled (st : qed_roce_qp_state) qp o : Prop :=
  match st with
  | RESET | INIT => resp_offloaded qp = false /\ req_offloaded qp = false
  | RTR => (wants_resp (qp_type qp) = true -> resp_offloaded qp = true) /\ req_offloaded qp = false /\ o_req o = Free
  | RTS | SQD => (wants_resp (qp_type qp) = true -> resp_offloaded qp = true) /\ (wants_req (qp_type qp) = true -> req_offloaded qp = true)
  | ERR => True
  | SQE => False
  end.

(** Which of the two there are is decided by the type at the first modify. *)
Definition qp_typed qp : Prop :=
  (has_resp qp = true -> wants_resp (qp_type qp) = true) /\ (has_req qp = true -> wants_req (qp_type qp) = true).

Definition qp_good qp (failed : bool) o : Prop := qp_owns qp o /\ qp_typed qp /\ (failed = false -> settled (cur_state qp) qp o).

Definition rest_ok (r : resting) K : Prop :=
  match r with
  | NoQp => True
  | HasQp qp failed => exists o, K = Some o /\ qp_good qp failed o
  | HasUd cid => exists idx, 0 <= idx < N /\ cid = side_cid Resp idx /\ K = Some (mk_own idx New Free)
  end.

Lemma create_call_spec valid kz_ok type : wp N rest_ok (create_call valid kz_ok type) None.
Proof.
  unfold create_call, qed_rdma_create_qp_inner. destruct valid, kz_ok; cbn [negb]; try done.
  apply wp_bind. wp_call alloc_qp_idx_spec. intros [rc idx] K. cbn [fst snd].
  intros [[Hrc ->]|(-> & Hi & ->)]; [replace (rc =? 0) with false by lia; done|]. simpl.
  eexists. split; [done|]. split; [|split; [split; intros [=]|intros _; by split]].
  split; simpl; try done. by apply idx_to_icid.
Qed.

Lemma create_ud_call_spec : wp N rest_ok create_ud_call None.
Proof.
  unfold create_ud_call, qed_roce_create_ud_qp. apply wp_bind. wp_call alloc_qp_idx_spec. intros [rc idx] K. cbn [fst snd].
  intros [[Hrc ->]|(-> & Hi & ->)]; [replace (rc =? 0) with false by lia; simpl; by replace (rc =? 0) with false by lia|].
  simpl. rewrite idx_to_icid by done. intros rc. destruct (Z.eqb_spec rc 0) as [->|Hrc]; simpl; [split|].
  - intros rc w Hrc. replace (rc =? 0) with false by lia. simpl. replace (rc =? 0) with false by lia. done.
  - exists Resp. split; [done|]. split; [done|]. intros _. simpl. by exists idx.
  - replace (rc =? 0) with false by lia. simpl. replace (rc =? 0) with false by lia. done.
Qed.

Lemma destroy_ud_call_spec cid idx : 0 <= idx < N -> cid = side_cid Resp idx ->
  wp N rest_ok (destroy_ud_call cid) (Some (mk_own idx New Free)).
Proof.
  intros Hi ->. unfold destroy_ud_call, qed_roce_destroy_ud_qp. simpl.
  assert (E : rest_ok (HasUd (2 * idx)) (Some (mk_own idx New Free))) by (by exists idx).
  intros rc. destruct (Z.eqb_spec rc 0) as [->|Hrc]; simpl; [split|].
  - intros rc w Hrc. replace (rc =? 0) with false by lia. simpl. replace (rc =? 0) with false by lia. exact E.
  - exists Resp. split; [done|]. split; [done|]. intros _. simpl.
    pose proof (icid_to_idx idx Hi) as E'. simpl in E'. rewrite E'. done.
  - replace (rc =? 0) with false by lia. simpl. replace (rc =? 0) with false by lia. exact E.
Qed.

(** ** Ramrods on one of the two connections *)

Lemma request_spec r c s s' sd o : cid_change r = Some (c, s, s') -> c = side_cid sd (o_idx o) -> side_get sd o = s ->
  wp N (fun x K => fst x ≠ 0 /\ K = Some o \/ fst x = 0 /\ K = Some (side_upd sd s' o)) (request r) (Some o).
Proof.
  intros Hr -> Hs. unfold request. simpl. intros rc. destruct (Z.eqb_spec rc 0) as [->|Hrc]; simpl; [|by left].
  rewrite Hr. split; [intros rc w Hrc; by left|]. exists sd. split; [done|]. split; [done|]. intros w. by right.
Qed.

Lemma side_upd_same sd o : side_upd sd (side_get sd o) o = o.
Proof. by destruct sd, o. Qed.

Lemma set_cid_spec sd o : 0 <= o_idx o < N -> side_get sd o = New ->
  wp N (fun _ K => K = Some (side_upd sd Live o)) (qed_roce_set_cid (u32 (side_cid sd (o_idx o) - 0))) (Some o).
Proof. intros Hi Hs. rewrite u32_cid by done. simpl. eauto. Qed.

Definition resp_created qp := qp <| resp_offloaded := true |> <| cq_prod_resp := 0 |>.
Definition req_created qp := qp <| req_offloaded := true |> <| cq_prod_req := 0 |>.

Lemma create_responder_spec qp o : qp_owns qp o -> (has_resp qp = true -> o_resp o = Free) ->
  wp N (fun r K => fst r ≠ 0 /\ snd r = qp /\ K = Some o \/
                   fst r = 0 /\ if has_resp qp then snd r = resp_created qp /\ K = Some (side_upd Resp Live o) else snd r = qp /\ K = Some o)
    (qed_roce_sp_create_responder 0 qp) (Some o).
Proof.
  intros [Hi Hr Hc _ _ _ _] Hf. unfold qed_roce_sp_create_responder. destruct (has_resp qp) eqn:Eh; cbn [negb]; [|by right].
  wp_call (request_spec _ _ _ _ Resp); [done|by rewrite Hc, Hi|by apply Hf|]. intros x K [[Hx ->]|[Hx ->]].
  - replace (fst x =? 0) with false by lia. by left.
  - rewrite Hx. cbn [Z.eqb negb]. replace (icid _) with (side_cid Resp (o_idx o)) by (simpl; rewrite Hc, Hi; done).
    wp_call (set_cid_spec Resp (side_upd Resp New o)); [simpl; lia|done|]. intros _ K ->. right. by destruct o.
Qed.

Lemma create_requester_spec qp o : qp_owns qp o -> (has_req qp = true -> o_req o = Free) ->
  wp N (fun r K => fst r ≠ 0 /\ snd r = qp /\ K = Some o \/
                   fst r = 0 /\ if has_req qp then snd r = req_created qp /\ K = Some (side_upd Req Live o) else snd r = qp /\ K = Some o)
    (qed_roce_sp_create_requester 0 qp) (Some o).
Proof.
  intros [Hi Hr Hc _ _ _ _] Hf. unfold qed_roce_sp_create_requester. destruct (has_req qp) eqn:Eh; cbn [negb]; [|by right].
  wp_call (request_spec _ _ _ _ Req); [done|simpl; rewrite Hc, Hi; done|by apply Hf|]. intros x K [[Hx ->]|[Hx ->]].
  - replace (fst x =? 0) with false by lia. by left.
  - rewrite Hx. cbn [Z.eqb negb]. replace (icid _ + 1) with (side_cid Req (o_idx o)) by (simpl; rewrite Hc, Hi; done).
    wp_call (set_cid_spec Req (side_upd Req New o)); [simpl; lia|done|]. intros _ K ->. right. by destruct o.
Qed.

(** A modify ramrod goes out only on a live connection. *)
Lemma modify_responder_spec e qp o : qp_owns qp o -> (has_resp qp = true -> e = false -> resp_offloaded qp = true) ->
  wp N (fun _ K => K = Some o) (qed_roce_sp_modify_responder e qp) (Some o).
Proof.
  intros [Hi Hr Hc H1 _ _ _] Hl. unfold qed_roce_sp_modify_responder. destruct (has_resp qp) eqn:Eh; cbn [negb]; [|done].
  destruct (e && negb (resp_offloaded qp)) eqn:Ee; [done|].
  assert (El : resp_offloaded qp = true) by (destruct e, (resp_offloaded qp); naive_solver). rewrite El in H1.
  wp_call (request_spec _ _ _ _ Resp); [done|by rewrite Hc, Hi|done|]. intros x K [[_ ->]|[_ ->]]; [done|].
  simpl. destruct o. by simpl in *; subst.
Qed.

Lemma modify_requester_spec e qp o : qp_owns qp o -> (has_req qp = true -> e = false -> req_offloaded qp = true) ->
  wp N (fun _ K => K = Some o) (qed_roce_sp_modify_requester e qp) (Some o).
Proof.
  intros [Hi Hr Hc _ H2 _ _] Hl. unfold qed_roce_sp_modify_requester. destruct (has_req qp) eqn:Eh; cbn [negb]; [|done].
  destruct (e && negb (req_offloaded qp)) eqn:Ee; [done|].
  assert (El : req_offloaded qp = true) by (destruct e, (req_offloaded qp); naive_solver). rewrite El in H2.
  wp_call (request_spec _ _ _ _ Req); [done|simpl; rewrite Hc, Hi; done|done|]. intros x K [[_ ->]|[_ ->]]; [done|].
  simpl. destruct o. by simpl in *; subst.
Qed.

Lemma modify_both_spec e qp o : qp_owns qp o ->
  (has_resp qp = true -> e = false -> resp_offloaded qp = true) -> (has_req qp = true -> e = false -> req_offloaded qp = true) ->
  wp N (fun r K => snd r = qp /\ K = Some o) (modify_both e e qp) (Some o).
Proof.
  intros Ho H1 H2. unfold modify_both. wp_call modify_responder_spec; [done..|]. intros rc K ->.
  destruct (rc =? 0); cbn [negb]; [|done]. wp_call modify_requester_spec; [done..|]. by intros ? K ->.
Qed.

(** A destroy ramrod goes out on a live connection, and the flag says whether it
    was. *)
Definition destroyed_resp v qp := qp <| cq_prod_resp := v |> <| resp_offloaded := false |>.
Definition destroyed_req v qp := qp <| cq_prod_req := v |> <| req_offloaded := false |>.

Lemma post_destroy_spec c sd o : c = side_cid sd (o_idx o) -> side_get sd o = Live ->
  wp N (fun x K => fst x ≠ 0 /\ K = Some o \/ fst x = 0 /\ K = Some (side_upd sd Unk o)) (post (DestroyQp c)) (Some o).
Proof. intros -> Hs. simpl. split; [by left|]. exists sd. split; [done|]. split; [done|]. by right. Qed.

Lemma destroy_responder_spec qp o : qp_owns qp o ->
  wp N (fun r K => let '(rc, _, qp') := r in
          rc ≠ 0 /\ qp' = qp /\ K = Some o \/
          rc = 0 /\ resp_offloaded qp' = false /\
            (qp' = qp /\ K = Some o \/ (exists v, qp' = destroyed_resp v qp) /\ K = Some (side_upd Resp Unk o)))
    (qed_roce_sp_destroy_qp_responder qp) (Some o).
Proof.
  intros [Hi Hr Hc H1 _ Hh _]. unfold qed_roce_sp_destroy_qp_responder. destruct (has_resp qp) eqn:Eh; cbn [negb].
  2: { right. destruct (resp_offloaded qp); [by discriminate Hh|]. by auto. }
  destruct (resp_offloaded qp) eqn:El; cbn [negb]; [|right; by auto].
  intros rc. destruct (Z.eqb_spec rc 0) as [->|Hrc]; cbn [negb]; [|by left].
  intros a. destruct (Z.eqb_spec a 0) as [->|Ha]; cbn [negb]; [by left|].
  wp_call (post_destroy_spec _ Resp); [by rewrite Hc, Hi|done|]. intros x K [[Hx ->]|[Hx ->]].
  - replace (fst x =? 0) with false by lia. by left.
  - rewrite Hx. right. split; [done|]. split; [done|]. right. by eauto.
Qed.

Lemma destroy_requester_spec qp o : qp_owns qp o ->
  wp N (fun r K => let '(rc, _, qp') := r in
          rc ≠ 0 /\ qp' = qp /\ K = Some o \/
          rc = 0 /\ req_offloaded qp' = false /\
            (qp' = qp /\ K = Some o \/ (exists v, qp' = destroyed_req v qp) /\ K = Some (side_upd Req Unk o)))
    (qed_roce_sp_destroy_qp_requester qp) (Some o).
Proof.
  intros [Hi Hr Hc _ H2 _ Hh]. unfold qed_roce_sp_destroy_qp_requester. destruct (has_req qp) eqn:Eh; cbn [negb].
  2: { right. destruct (req_offloaded qp); [by discriminate Hh|]. by auto. }
  destruct (req_offloaded qp) eqn:El; cbn [negb]; [|right; by auto].
  intros a. destruct (Z.eqb_spec a 0) as [->|Ha]; cbn [negb]; [by left|].
  wp_call (request_spec _ _ _ _ Req); [done|simpl; rewrite Hc, Hi; done|done|]. intros x K [[Hx ->]|[Hx ->]].
  - replace (fst x =? 0) with false by lia. by left.
  - rewrite Hx. right. split; [done|]. split; [done|]. right. by eauto.
Qed.

(** ** Changes of state *)

Lemma owns_resp_created qp o : qp_owns qp o -> has_resp qp = true -> qp_owns (resp_created qp) (side_upd Resp Live o).
Proof. intros [] H. by split. Qed.
Lemma owns_req_created qp o : qp_owns qp o -> has_req qp = true -> qp_owns (req_created qp) (side_upd Req Live o).
Proof. intros [] H. by split. Qed.
Lemma owns_destroyed_resp v qp o : qp_owns qp o -> qp_owns (destroyed_resp v qp) (side_upd Resp Unk o).
Proof. intros []. by split. Qed.
Lemma owns_destroyed_req v qp o : qp_owns qp o -> qp_owns (destroyed_req v qp) (side_upd Req Unk o).
Proof. intros []. by split. Qed.
Lemma owns_waited qp o : qp_owns qp o -> qp_owns qp (waited o).
Proof. intros [? ? ? Hr Hq ? ?]. split; try done; simpl; [destruct (resp_offloaded qp)|destruct (req_offloaded qp)]; [by rewrite Hr| |by rewrite Hq|];
  [by destruct (o_resp o)|by destruct (o_req o)]. Qed.

(** The same connections and type; only the bookkeeping differs. *)
Definition same_qp qp qp' : Prop :=
  qp_idx qp' = qp_idx qp /\ icid qp' = icid qp /\ qp_type qp' = qp_type qp /\ cur_state qp' = cur_state qp /\
  resp_offloaded qp' = resp_offloaded qp /\ req_offloaded qp' = req_offloaded qp /\ has_resp qp' = has_resp qp /\ has_req qp' = has_req qp.

Lemma owns_same_qp qp qp' o : same_qp qp qp' -> qp_owns qp o -> qp_owns qp' o.
Proof. intros (E1 & E2 & _ & _ & E3 & E4 & E5 & E6) []. by split; rewrite ?E1, ?E2, ?E3, ?E4, ?E5, ?E6. Qed.
Lemma typed_same qp qp' : same_qp qp qp' -> qp_typed qp -> qp_typed qp'.
Proof. intros (_ & _ & E & _ & _ & _ & E5 & E6). unfold qp_typed. by rewrite E, E5, E6. Qed.
Lemma settled_same qp qp' o : same_qp qp qp' -> settled (cur_state qp) qp o -> settled (cur_state qp') qp' o.
Proof. intros (_ & _ & E1 & E2 & E3 & E4 & _ & _). unfold settled. by rewrite E1, E2, E3, E4. Qed.
Lemma good_same qp qp' f o : same_qp qp qp' -> qp_good qp f o -> qp_good qp' f o.
Proof.
  intros E (H1 & H2 & H3). split; [by eapply owns_same_qp|]. split; [by eapply typed_same|]. intros F. eapply settled_same; eauto.
Qed.

(** The outcome of a modify: the queue pair and its connections agree, and so
    does its state when the code is 0 or the queue pair went to the error state. *)
Definition modified (st : qed_roce_qp_state) (r : Z * qed_rdma_qp) K : Prop :=
  exists o, K = Some o /\ qp_owns (snd r) o /\ qp_typed (snd r) /\ cur_state (snd r) = st /\
            (fst r = 0 \/ st = ERR -> settled st (snd r) o).

Lemma modified_intro rc qp o : qp_owns qp o -> qp_typed qp -> (rc = 0 \/ cur_state qp = ERR -> settled (cur_state qp) qp o) ->
  modified (cur_state qp) (rc, qp) (Some o).
Proof. intros. exists o. by auto. Qed.

Lemma to_reset_spec qp o : qp_owns qp o -> qp_typed qp -> cur_state qp = RESET ->
  wp N (modified RESET)
    (let* r := qed_roce_sp_destroy_qp_responder qp in
     let '(rc, resp, qp) := r in
     let qp := qp <| cq_prod_resp := default (cq_prod_resp qp) resp |> in
     if negb (rc =? 0) then Ret (rc, qp) else
     let* r := qed_roce_sp_destroy_qp_requester qp in
     let '(rc, req, qp) := r in
     Ret (rc, qp <| cq_prod_req := default (cq_prod_req qp) req |>))%proc (Some o).
Proof.
  intros Ho Ht Hst. wp_call destroy_responder_spec; [done|]. intros [[rc resp] qp1] K H1.
  assert (H : exists o1, K = Some o1 /\ qp_owns qp1 o1 /\ qp_typed qp1 /\ cur_state qp1 = RESET /\ (rc = 0 -> resp_offloaded qp1 = false)).
  { destruct H1 as [(Hrc & -> & ->)|(-> & Hf & [[-> ->]|[[v ->] ->]])]; (eexists; split; [done|]; split; [eauto using owns_destroyed_resp|]; split; [by apply Ht|]; by split). }
  clear H1 Ho Ht Hst. destruct H as (o1 & -> & Ho & Ht & Hst & Hf). set (q := qp1 <| cq_prod_resp := _ |>).
  assert (Hq : same_qp qp1 q) by done. apply (owns_same_qp _ _ _ Hq) in Ho. apply (typed_same _ _ Hq) in Ht.
  assert (Hf' : rc = 0 -> resp_offloaded q = false) by done. assert (Hst' : cur_state q = RESET) by done. clearbody q. clear Hq Hf Hst.
  destruct (Z.eqb_spec rc 0) as [->|Hrc]; cbn [negb]; [|exists o1; naive_solver].
  wp_call destroy_requester_spec; [done|]. intros [[rc req] qp2] K H2.
  destruct H2 as [(Hrc & -> & ->)|(-> & Hf & [[-> ->]|[[v ->] ->]])].
  - exists o1. split; [done|]. split; [by apply (owns_same_qp q)|]. split; [exact Ht|]. split; [done|]. naive_solver.
  - exists o1. split; [done|]. split; [by apply (owns_same_qp q)|]. split; [exact Ht|]. split; [done|]. intros _. simpl. auto.
  - exists (side_upd Req Unk o1). split; [done|]. split; [eapply owns_same_qp; [|apply (owns_destroyed_req v), Ho]; done|].
    split; [exact Ht|]. split; [done|]. intros _. simpl. auto.
Qed.

(** The two flags after the first lines of a modify. *)
Definition qp_has qp : Prop := has_resp qp = wants_resp (qp_type qp) /\ has_req qp = wants_req (qp_type qp).

Lemma has_typed qp : qp_has qp -> qp_typed qp.
Proof. intros [E1 E2]. unfold qp_typed. by rewrite E1, E2. Qed.

Lemma to_rtr_spec qp o : qp_owns qp o -> qp_has qp -> cur_state qp = RTR -> settled INIT qp o ->
  wp N (modified RTR)
    (let* rc := qed_roce_wait_free_cids 0 (qp_idx qp) in
     if negb (rc =? 0) then Ret (rc, qp) else qed_roce_sp_create_responder 0 qp)%proc (Some o).
Proof.
  intros Ho Hh Hst [Hf1 Hf2]. pose proof Ho as [Hi Hr _ Q1 Q2 _ _]. rewrite Hf1 in Q1. rewrite Hf2 in Q2. pose proof (has_typed _ Hh) as Ht.
  wp_call wait_free_cids_spec; [done..|]. intros rc K [[Hrc ->]|[-> ->]].
  { replace (rc =? 0) with false by lia. exists o. naive_solver. }
  cbn [Z.eqb negb]. assert (P1 : passed (o_resp o) = Free) by (by destruct (o_resp o)). assert (P2 : passed (o_req o) = Free) by (by destruct (o_req o)).
  eapply wp_mono; [apply create_responder_spec; [by apply owns_waited|intros _; exact P1]|]. intros [rc q] K.
  intros [(Hrc & Eq & ->)|(Hrc & Hq)]; cbn [fst snd] in *; subst.
  - exists (waited o). split; [done|]. split; [by apply owns_waited|]. naive_solver.
  - destruct (has_resp qp) eqn:Er; destruct Hq as [-> ->].
    + exists (side_upd Resp Live (waited o)). split; [done|]. split; [by apply owns_resp_created, Er; apply owns_waited|].
      split; [exact Ht|]. split; [done|]. intros _. simpl. done.
    + exists (waited o). split; [done|]. split; [by apply owns_waited|]. split; [done|]. split; [done|]. intros _. simpl.
      destruct Hh as [E _]. rewrite <- E, Er. done.
Qed.

Lemma to_rts_spec qp o : qp_owns qp o -> qp_has qp -> cur_state qp = RTS -> settled RTR qp o ->
  wp N (modified RTS)
    (let* r := qed_roce_sp_create_requester 0 qp in
     let '(rc, qp) := r in
     if negb (rc =? 0) then Ret (rc, qp) else
     let* rc := qed_roce_sp_modify_responder false qp in Ret (rc, qp))%proc (Some o).
Proof.
  intros Ho Hh Hst (S1 & S2 & S3). pose proof (has_typed _ Hh) as Ht.
  wp_call create_requester_spec; [done..|]. intros [rc q] K [(Hrc & Eq & ->)|(Hrc & Hq)]; cbn [fst snd] in *; subst.
  { replace (rc =? 0) with false by lia. exists o. naive_solver. }
  cbn [Z.eqb negb].
  assert (H : exists o1, K = Some o1 /\ qp_owns q o1 /\ qp_has q /\ cur_state q = RTS /\ settled RTS q o1).
  { destruct Hh as [E1 E2]. destruct (has_req qp) eqn:Er; destruct Hq as [-> ->].
    - exists (side_upd Req Live o). split; [done|]. split; [by apply owns_req_created|]. split; [split; [exact E1|simpl; congruence]|]. split; [done|]. split; [exact S1|done].
    - exists o. split; [done|]. split; [done|]. split; [split; [exact E1|simpl; congruence]|]. split; [done|]. split; [done|]. by rewrite <- E2. }
  destruct H as (o1 & -> & Ho1 & Hh1 & Hst1 & T1). destruct T1 as [T1 T2]. destruct Hh1 as [F1 F2].
  wp_call modify_responder_spec; [done|by rewrite F1; intros; apply T1|]. intros rc K ->.
  exists o1. split; [done|]. split; [done|]. split; [by apply has_typed|]. split; [done|]. intros _. by split.
Qed.

(** Every transition of the verbs, whatever the codes on the way. *)
Lemma roce_modify_qp_spec prev qp o : qp_owns qp o -> qp_has qp ->
  cur_state qp = ERR \/ legal prev (cur_state qp) = true /\ settled prev qp o ->
  wp N (modified (cur_state qp)) (qed_roce_modify_qp 0 prev qp) (Some o).
Proof.
  intros Ho Hh Hc. pose proof (has_typed _ Hh) as Ht. unfold qed_roce_modify_qp.
  assert (Nop : settled (cur_state qp) qp o -> modified (cur_state qp) (0, qp) (Some o)) by (intros; by apply modified_intro).
  assert (Both : settled RTS qp o -> settled (cur_state qp) qp o -> wp N (modified (cur_state qp)) (modify_both false false qp) (Some o)).
  { intros [T1 T2] ?. eapply wp_mono; [apply modify_both_spec; [done|rewrite (proj1 Hh); by auto|rewrite (proj2 Hh); by auto]|].
    intros [rc q] K [Eq ->]. simpl in Eq. subst. by apply modified_intro. }
  destruct (cur_state qp) eqn:Est; cycle 5.
  { replace (match prev with RTS | _ => modify_both true true qp end) with (modify_both true true qp) by (by destruct prev).
    eapply wp_mono; [apply modify_both_spec; done|]. intros [rc q] K [Eq ->]. simpl in Eq. subst. rewrite <- Est. apply modified_intro; rewrite ?Est; done. }
  all: destruct Hc as [Hc|[Hl Hs]]; [done|].
  { by destruct prev. }
  - destruct prev; by apply to_reset_spec.
  - destruct prev; try done; simpl; by apply Nop.
  - destruct prev; try done; [by apply to_rtr_spec|by apply Nop].
  - destruct prev; try done; [by apply to_rts_spec|by apply Both..].
  - destruct prev; try done; [|by apply Both]. destruct Hs as [T1 T2].
    wp_call modify_requester_spec; [done|rewrite (proj2 Hh); by auto|]. intros rc K ->. rewrite <- Est. apply modified_intro; rewrite ?Est; done.
Qed.

(** ** The calls *)

Lemma alloc_irq_spec qp K : wp N (fun r K' => same_qp qp (snd r) /\ K' = K) (qed_roce_alloc_irq qp) K.
Proof. unfold qed_roce_alloc_irq. by destruct (irq qp =? 0). Qed.
Lemma alloc_orq_spec qp K : wp N (fun r K' => same_qp qp (snd r) /\ K' = K) (qed_roce_alloc_orq qp) K.
Proof. unfold qed_roce_alloc_orq. by destruct (orq qp =? 0). Qed.
Lemma free_irq_spec qp K : wp N (fun q K' => same_qp qp q /\ K' = K) (qed_roce_free_irq qp) K.
Proof. unfold qed_roce_free_irq. by destruct (irq qp =? 0). Qed.
Lemma free_orq_spec qp K : wp N (fun q K' => same_qp qp q /\ K' = K) (qed_roce_free_orq qp) K.
Proof. unfold qed_roce_free_orq. by destruct (orq qp =? 0). Qed.

(** After an error the queue pair counts as failed unless it is in the error
    state. *)
Definition modify_good (r : Z * qed_rdma_qp) K : Prop :=
  exists o, K = Some o /\ qp_good (snd r) (negb (fst r =? 0) && negb (bool_decide (cur_state (snd r) = ERR))) o.

Lemma modify_good_failed rc qp failed o : rc ≠ 0 -> qp_good qp failed o -> modify_good (rc, qp) (Some o).
Proof.
  intros Hrc (H1 & H2 & _). exists o. split; [done|]. split; [done|]. split; [done|]. cbn [fst snd]. replace (rc =? 0) with false by lia.
  case_bool_decide as E; [|done]. intros _. by rewrite E.
Qed.

Lemma modify_good_same rc qp qp' K : same_qp qp qp' -> modify_good (rc, qp) K -> modify_good (rc, qp') K.
Proof.
  intros E (o & -> & G). exists o. split; [done|]. cbn [fst snd] in *.
  replace (cur_state qp') with (cur_state qp) by (symmetry; apply E). by eapply good_same.
Qed.

Lemma modify_inner_spec new_state qp failed o : qp_good qp failed o ->
  new_state = Some ERR \/ failed = false /\ legal (cur_state qp) (default (cur_state qp) new_state) = true ->
  wp N modify_good (qed_rdma_modify_qp_inner 0 new_state qp) (Some o).
Proof.
  intros (Ho & Ht & Hs) Hc. unfold qed_rdma_modify_qp_inner. set (st := default (cur_state qp) new_state).
  set (q := match qp_type _ with TYPE_RC => _ | _ => _ end).
  assert (Hq : qp_owns q o /\ qp_has q /\ cur_state q = st /\ (settled (cur_state qp) qp o -> settled (cur_state qp) q o)).
  { destruct Ht as [T1 T2]. destruct Ho as [E1 E2 E3 E4 E5 E6 E7]. subst q. unfold qp_has, settled. simpl in *. destruct (qp_type qp) eqn:Et; simpl.
    - split; [by split|]. rewrite Et. split; [by split|]. by split.
    - split; [by split|]. rewrite Et. split; [split; [|done]; destruct (has_resp qp); [by specialize (T1 eq_refl)|done]|]. by split.
    - split; [by split|]. rewrite Et. split; [split; [done|]; destruct (has_req qp); [by specialize (T2 eq_refl)|done]|]. by split. }
  clearbody q. destruct Hq as (Q1 & Q2 & Q3 & Q4). eapply wp_mono.
  - apply (roce_modify_qp_spec (cur_state qp)); [done..|]. rewrite Q3. destruct Hc as [->|[-> Hl]]; [by left|right]. split; [done|]. by apply Q4, Hs.
  - intros [rc q'] K (o' & -> & R1 & R2 & R3 & R4). exists o'. split; [done|]. split; [done|]. split; [done|]. cbn [fst snd] in *.
    rewrite R3. intros F. apply R4. destruct (Z.eqb_spec rc 0) as [|]; [by left|]. simpl in F. case_bool_decide; [by right|done].
Qed.

Lemma modify_qp_spec (new_state : option qed_roce_qp_state) qp failed o : qp_good qp failed o ->
  new_state = Some ERR \/ failed = false /\ legal (cur_state qp) (default (cur_state qp) new_state) = true ->
  wp N modify_good (qed_rdma_modify_qp 0 new_state qp) (Some o).
Proof.
  intros G Hc. unfold qed_rdma_modify_qp. wp_call alloc_irq_spec. intros [rc q] K [E ->]. cbn [snd] in E.
  apply (good_same _ _ _ _ E) in G. replace (cur_state qp) with (cur_state q) in Hc by apply E. clear E qp.
  destruct (Z.eqb_spec rc 0) as [->|Hrc]; cbn [negb]; [|by eapply modify_good_failed].
  wp_call alloc_orq_spec. intros [rc qp] K [E ->]. cbn [snd] in E.
  apply (good_same _ _ _ _ E) in G. replace (cur_state q) with (cur_state qp) in Hc by apply E. clear E q.
  destruct (Z.eqb_spec rc 0) as [->|Hrc]; cbn [negb].
  - wp_call modify_inner_spec; [done..|]. intros [rc q] K H. destruct (Z.eqb_spec rc 0) as [->|Hrc]; cbn [negb]; [done|].
    wp_call free_orq_spec. intros q1 K1 [E1 ->]. wp_call free_irq_spec. intros q2 K2 [E2 ->].
    eapply modify_good_same; [exact E2|]. by eapply modify_good_same.
  - wp_call free_irq_spec. intros q K [E ->]. eapply modify_good_same; [exact E|]. by eapply modify_good_failed.
Qed.

Lemma modify_call_spec (new_state : option qed_roce_qp_state) qp failed o : qp_good qp failed o ->
  new_state = Some ERR \/ failed = false /\ legal (cur_state qp) (default (cur_state qp) new_state) = true ->
  wp N rest_ok (modify_call new_state qp) (Some o).
Proof.
  intros G Hc. unfold modify_call. wp_call modify_qp_spec; [done..|]. intros [rc q] K (o' & -> & G'). exists o'. by split.
Qed.

(** The index is given back only when the firmware has neither connection. *)
Lemma destroy_qp_spec qp o : qp_good qp false o -> wp N (fun _ _ => True) (qed_roce_destroy_qp qp) (Some o).
Proof.
  intros (Ho & _ & Hs). specialize (Hs eq_refl). unfold qed_roce_destroy_qp.
  assert (Fin : forall q o' (x y : Z), qp_owns q o' -> resp_offloaded q = false -> req_offloaded q = false ->
    wp N (fun _ _ => True) (pbind (qed_roce_free_qp (qp_idx q)) (fun _ => Ret (0, (x, y), q))) (Some o')).
  { intros q o' x y [Hi _ _ H1 H2 _ _] F1 F2. rewrite F1 in H1. rewrite F2 in H2. wp_call free_qp_spec; done. }
  destruct (negb _); [done|]. case_bool_decide as E.
  { rewrite E in Hs. destruct Hs. by apply Fin. }
  wp_call destroy_responder_spec; [done|]. intros [[rc resp] q] K H1.
  assert (H : rc ≠ 0 \/ rc = 0 /\ exists o1, K = Some o1 /\ qp_owns q o1 /\ resp_offloaded q = false).
  { destruct H1 as [(? & _)|(-> & Hf & [[-> ->]|[[v ->] ->]])]; [by left| |]; right; (split; [done|]); eexists; (split; [done|]); eauto using owns_destroyed_resp. }
  destruct H as [Hrc|(-> & o1 & -> & Ho1 & Hf1)]; [by replace (rc =? 0) with false by lia|]. cbn [Z.eqb negb].
  wp_call destroy_requester_spec; [done|]. intros [[rc req] q2] K2 H2.
  assert (H : rc ≠ 0 \/ rc = 0 /\ exists o2, K2 = Some o2 /\ qp_owns q2 o2 /\ resp_offloaded q2 = false /\ req_offloaded q2 = false).
  { destruct H2 as [(? & _)|(-> & Hf & [[-> ->]|[[v ->] ->]])]; [by left| |]; right; (split; [done|]); eexists; (split; [done|]); eauto using owns_destroyed_req. }
  destruct H as [Hrc|(-> & o2 & -> & Ho2 & Hf2 & Hf3)]; [by replace (rc =? 0) with false by lia|]. by apply Fin.
Qed.

Lemma destroy_call_spec qp o : qp_good qp false o -> wp N rest_ok (destroy_call qp) (Some o).
Proof.
  intros G. unfold destroy_call, qed_rdma_destroy_qp. apply wp_bind. wp_call destroy_qp_spec; [done|]. intros [[rc w] q] K _.
  wp_call free_irq_spec. intros q1 K1 _. wp_call free_orq_spec. by intros q2 K2 _.
Qed.

(** A careful call is legal from what a thread knows between calls. *)
Lemma call_spec l r p K : call l r p -> careful l -> rest_ok r K -> exists K', (K' = K \/ K' = None) /\ wp N rest_ok p K'.
Proof.
  intros C. destruct C as [? ? ?| |qp f st Hl|qp f|cid]; intros Cf R.
  - exists None. split; [by right|apply create_call_spec].
  - exists None. split; [by right|apply create_ud_call_spec].
  - destruct R as (o & -> & G). exists (Some o). split; [by left|]. eapply modify_call_spec; [done|]. simpl in Cf.
    destruct f; [left; specialize (Cf eq_refl); by apply bool_decide_eq_true_1 in Cf|by right].
  - destruct R as (o & -> & G). exists (Some o). split; [by left|]. destruct f; [by specialize (Cf eq_refl)|by apply destroy_call_spec].
  - destruct R as (idx & Hi & -> & ->). eexists. split; [by left|by apply destroy_ud_call_spec].
Qed.

End Specs.
