(* ===== verification/RoceInv.v ===== *)
(** * The invariant of threads and firmware (qed_roce.c, qed_rdma.c)

    Every thread with an index has it alone, the index's bit is set, and what the
    thread knows of its two connections is true; the connections of an index whose
    bit is clear are free, or destroyed and announced by a bit of [cid_map].
    Every careful step of [RoceRun] keeps it. *)

From S2P Require Import Prelude Cxt Rdma RoceRun RoceSpecs.

(** ** Bits of a map *)

Definition bit_of (n : map_name) (i : qed_rdma_info) (id : Z) : bool :=
  match bmap_bits (maps i n) with Some m => Z.testbit (bm_bits m) id | None => false end.

(** The map holds [cnt] ids, all in its memory. *)
Definition map_ok (n : map_name) (cnt : Z) (i : qed_rdma_info) : Prop :=
  bmap_max (maps i n) = cnt /\ match bmap_bits (maps i n) with Some m => cnt <= bm_size m | None => False end.

(** [i'] differs from [i] in bit [id] of map [n], which is [v]. *)
Record one_bit (n : map_name) (id : Z) (v : bool) (i i' : qed_rdma_info) : Prop := {
  ob_bit : forall id', 0 <= id' -> bit_of n i' id' = if id' =? id then v else bit_of n i id';
  ob_ok : forall cnt, map_ok n cnt i -> map_ok n cnt i';
  ob_other : forall n', n' ≠ n -> maps i' n' = maps i n'
}.

Lemma bit_of_other n n' id v i i' : one_bit n id v i i' -> n' ≠ n -> forall id', bit_of n' i' id' = bit_of n' i id'.
Proof. intros [_ _ H] Hn id'. unfold bit_of. by rewrite H. Qed.
Lemma map_ok_other n n' id v i i' cnt : one_bit n id v i i' -> n' ≠ n -> map_ok n' cnt i -> map_ok n' cnt i'.
Proof. intros [_ _ H] Hn. unfold map_ok. by rewrite H. Qed.

Lemma set_map_same n b i : maps (set_map n b i) n = b.
Proof. unfold set_map. simpl. by rewrite decide_True. Qed.
Lemma set_map_other n n' b i : n' ≠ n -> maps (set_map n b i) n' = maps i n'.
Proof. intros H. unfold set_map. simpl. by rewrite decide_False. Qed.

Lemma one_bit_set n id i m v m' : bmap_bits (maps i n) = Some m -> bm_size m' = bm_size m ->
  (forall id', 0 <= id' -> Z.testbit (bm_bits m') id' = if id' =? id then v else Z.testbit (bm_bits m) id') ->
  one_bit n id v i (set_map n (mk_qed_bmap (bmap_max (maps i n)) (Some m')) i).
Proof.
  intros E Es Hb. split.
  - intros id' Hi. unfold bit_of. rewrite set_map_same, E. simpl. auto.
  - intros cnt [H1 H2]. unfold map_ok. rewrite set_map_same. simpl. rewrite E in H2. by rewrite Es.
  - intros n' Hn. by apply set_map_other.
Qed.

Lemma setbit_if b id id' : 0 <= id -> 0 <= id' -> Z.testbit (Z.setbit b id) id' = if id' =? id then true else Z.testbit b id'.
Proof. intros H H'. rewrite Z.setbit_eqb by done. rewrite (Z.eqb_sym id). by destruct (id' =? id). Qed.
Lemma clearbit_if b id id' : Z.testbit (Z.clearbit b id) id' = if id' =? id then false else Z.testbit b id'.
Proof. rewrite Z.clearbit_eqb, (Z.eqb_sym id). destruct (id' =? id); [apply andb_false_r|apply andb_true_r]. Qed.

Lemma lock_set n id cnt i : map_ok n cnt i -> 0 <= id < cnt ->
  exists i', run_lock (LSet n id) i = Some (0, i') /\ one_bit n id true i i'.
Proof.
  intros [E1 E2] Hi. simpl. unfold qed_bmap_set_id. rewrite E1. replace (cnt <=? id) with false by lia.
  destruct (bmap_bits (maps i n)) as [m|] eqn:Em; [|done]. simpl. unfold set_bit, bit_inside.
  replace ((0 <=? id) && (id <? bm_size m)) with true by lia. simpl. eexists. split; [done|]. rewrite <- E1.
  apply (one_bit_set _ _ _ m); [done..|]. intros id' H'. apply setbit_if; lia.
Qed.

Lemma lock_release n id cnt i : map_ok n cnt i -> 0 <= id < cnt ->
  exists i', run_lock (LRelease n id) i = Some (0, i') /\ one_bit n id false i i'.
Proof.
  intros [E1 E2] Hi. simpl. unfold qed_bmap_release_id. destruct (bmap_bits (maps i n)) as [m|] eqn:Em; [|done].
  rewrite E1. replace (cnt <=? id) with false by lia. unfold clear_bit, bit_inside.
  replace ((0 <=? id) && (id <? bm_size m)) with true by lia. simpl. eexists. split; [done|]. rewrite <- E1.
  apply (one_bit_set _ _ _ m); [done..|]. intros id' H'. apply clearbit_if.
Qed.

Lemma lock_test2 n id1 id2 cnt i : map_ok n cnt i -> 0 <= id1 < cnt -> 0 <= id2 < cnt ->
  run_lock (LTest2 n id1 id2) i = Some (if negb (bit_of n i id1) && negb (bit_of n i id2) then 1 else 0, i).
Proof.
  intros [E1 E2] H1 H2. simpl. unfold qed_bmap_test_id, bit_of. destruct (bmap_bits (maps i n)) as [m|] eqn:Em; [|done].
  rewrite E1. replace (cnt <=? id1) with false by lia. replace (cnt <=? id2) with false by lia. unfold test_bit, bit_inside.
  replace ((0 <=? id1) && (id1 <? bm_size m)) with true by lia. replace ((0 <=? id2) && (id2 <? bm_size m)) with true by lia.
  simpl. by destruct (Z.testbit (bm_bits m) id1), (Z.testbit (bm_bits m) id2).
Qed.

(** The search ends at a clear bit or at the end. *)
Lemma first_zero_bit n : forall j b, 0 <= j -> let r := first_zero n j b in j <= r <= j + Z.of_nat n /\ (r < j + Z.of_nat n -> Z.testbit b r = false).
Proof.
  induction n as [|n IH]; intros j b Hj; simpl; [lia|]. destruct (Z.testbit b j) eqn:E; [|split; [lia|done]].
  destruct (IH (j + 1) b ltac:(lia)) as [H1 H2]. split; [lia|]. intros H. apply H2. lia.
Qed.

Lemma lock_alloc n cnt i : map_ok n cnt i -> 0 <= cnt ->
  run_lock (LAlloc n) i = Some (- EINVAL, set_map n (maps i n) i) \/
  exists id i', 0 <= id < cnt /\ run_lock (LAlloc n) i = Some (id, i') /\ bit_of n i id = false /\ one_bit n id true i i'.
Proof.
  intros [E1 E2] Hc. simpl. unfold qed_rdma_bmap_alloc_id, bit_of. destruct (bmap_bits (maps i n)) as [m|] eqn:Em; [|done].
  rewrite E1. unfold find_first_zero_bit. pose proof (first_zero_bit (Z.to_nat cnt) 0 (bm_bits m) ltac:(lia)) as [H1 H2].
  rewrite Z2Nat.id in * by lia. set (r := first_zero _ _ _) in *. destruct (Z.leb_spec cnt r).
  { left. simpl. done. }
  right. exists r. unfold set_bit, bit_inside. replace ((0 <=? r) && (r <? bm_size m)) with true by lia. simpl.
  eexists. split; [lia|]. split; [done|]. split; [apply H2; lia|]. rewrite <- E1. apply (one_bit_set _ _ _ m); [done..|].
  intros id' H'. apply setbit_if; lia.
Qed.

(** ** The invariant *)

Section Inv.
Variable N : Z.
Hypothesis N_pos : 0 <= N.
Hypothesis N_small : N <= 32768.
(** Ids of [cid_map]: at least two for each index. *)
Variable M : Z.
Hypothesis M_enough : 2 * N <= M.

Implicit Types (i : qed_rdma_info) (fw : Z -> fw_cid) (ks : list (option own)).

(** The knowledge [s] is true of a side of an index. *)
Definition side_true i fw (sd : side) (idx : Z) (s : cst) : Prop := stat s (fw (side_cid sd idx)) (bit_of CID_MAP i (side_cid sd idx)).

Record own_true i fw (o : own) : Prop := {
  ot_range : 0 <= o_idx o < N;
  ot_bit : bit_of QP_MAP i (o_idx o) = true;
  ot_side : forall sd, side_true i fw sd (o_idx o) (side_get sd o)
}.

Record world i fw ks : Prop := {
  w_qps : map_ok QP_MAP N i;
  w_cids : map_ok CID_MAP M i;
  w_fw : forall c, fw c ≠ fw_idle -> 0 <= c < 2 * N;
  w_own : forall n o, ks !! n = Some (Some o) -> own_true i fw o;
  w_alone : forall n n' o o', ks !! n = Some (Some o) -> ks !! n' = Some (Some o') -> o_idx o = o_idx o' -> n = n';
  w_free : forall idx sd, 0 <= idx < N -> bit_of QP_MAP i idx = false -> side_true i fw sd idx Unk
}.

Definition inv (s : machine) : Prop :=
  rm_late s = [] /\ exists ks, world (rm_info s) (rm_fw s) ks /\ Forall2 (fun p K => wp N (rest_ok N) p K) (rm_clients s) ks.

Lemma side_cid_range sd idx : 0 <= idx < N -> 0 <= side_cid sd idx < M.
Proof. destruct sd; simpl; lia. Qed.
Lemma side_cid_inj sd sd' idx idx' : side_cid sd idx = side_cid sd' idx' -> sd = sd' /\ idx = idx'.
Proof. destruct sd, sd'; simpl; intros; split; try done; lia. Qed.
Lemma cid_is_side c : 0 <= c < 2 * N -> exists sd idx, 0 <= idx < N /\ c = side_cid sd idx.
Proof.
  intros H. pose proof (Z.div_mod c 2 ltac:(lia)) as E. pose proof (Z.mod_pos_bound c 2 ltac:(lia)) as B.
  destruct (decide (c mod 2 = 0)); [exists Resp, (c / 2)|exists Req, (c / 2)]; simpl; lia.
Qed.

(** The knowledge of one thread replaced. *)
Lemma ks_insert ks (n n' : nat) (K : option own) o :
  <[n := K]> ks !! n' = Some (Some o) -> n' = n /\ K = Some o \/ n' ≠ n /\ ks !! n' = Some (Some o).
Proof.
  intros H. destruct (decide (n' = n)) as [->|Hn]; [|right; split; [done|]; by rewrite list_lookup_insert_ne in H].
  left. split; [done|]. apply list_lookup_insert_Some in H. naive_solver.
Qed.

Lemma alone_insert ks n (K : option own) :
  (forall n n' o o', ks !! n = Some (Some o) -> ks !! n' = Some (Some o') -> o_idx o = o_idx o' -> n = n') ->
  (forall o n' o', K = Some o -> n' ≠ n -> ks !! n' = Some (Some o') -> o_idx o ≠ o_idx o') ->
  forall n1 n2 o o', <[n := K]> ks !! n1 = Some (Some o) -> <[n := K]> ks !! n2 = Some (Some o') -> o_idx o = o_idx o' -> n1 = n2.
Proof.
  intros A H n1 n2 o o' [[-> E1]|[N1 E1]]%ks_insert [[-> E2]|[N2 E2]]%ks_insert E; [done| | |by eapply A].
  - by destruct (H _ _ _ E1 N2 E2).
  - destruct (H _ _ _ E2 N1 E1). by symmetry.
Qed.

(** Given up: the index may stay taken for ever, but is no one else's. *)
Lemma world_drop i fw ks n : world i fw ks -> world i fw (<[n := None]> ks).
Proof.
  intros [W1 W2 W3 W4 W5 W6]. split; try done.
  - intros n' o [[_ ?]|[_ H]]%ks_insert; [done|by eapply W4].
  - by apply alone_insert.
Qed.

(** More is known of the same index. *)
Lemma world_learn i fw ks n o o' : world i fw ks -> ks !! n = Some (Some o) -> o_idx o' = o_idx o ->
  (forall sd, side_true i fw sd (o_idx o) (side_get sd o')) -> world i fw (<[n := Some o']> ks).
Proof.
  intros [W1 W2 W3 W4 W5 W6] Hn Ei Hs. split; try done.
  - intros n' o1 [[-> [= <-]]|[_ H]]%ks_insert; [|by eapply W4]. destruct (W4 _ _ Hn). split; rewrite Ei; done.
  - apply alone_insert; [done|]. intros o1 n' o2 [= <-] Hne H2 E. apply Hne. eapply W5; [exact H2|exact Hn|congruence].
Qed.

(** One connection changes, and every true knowledge of it stays true. *)
Lemma world_cid i fw i' fw' ks c : world i fw ks ->
  (forall cnt, map_ok QP_MAP cnt i -> map_ok QP_MAP cnt i') -> (forall cnt, map_ok CID_MAP cnt i -> map_ok CID_MAP cnt i') ->
  (forall idx, bit_of QP_MAP i' idx = bit_of QP_MAP i idx) -> 0 <= c < 2 * N ->
  (forall c', 0 <= c' -> c' ≠ c -> bit_of CID_MAP i' c' = bit_of CID_MAP i c') -> (forall c', c' ≠ c -> fw' c' = fw c') ->
  (forall s, stat s (fw c) (bit_of CID_MAP i c) -> stat s (fw' c) (bit_of CID_MAP i' c)) -> world i' fw' ks.
Proof.
  intros [W1 W2 W3 W4 W5 W6] M1 M2 B1 Hc B2 F Hs.
  assert (Side : forall sd idx s, 0 <= idx < N -> side_true i fw sd idx s -> side_true i' fw' sd idx s).
  { intros sd idx s Hi H. unfold side_true in *. destruct (decide (side_cid sd idx = c)) as [E|E]; [rewrite E in *; auto|].
    pose proof (side_cid_range sd idx Hi). rewrite F, B2 by (done || lia). done. }
  split; [by auto|by auto| | |done|].
  - intros c' H. destruct (decide (c' = c)) as [->|E]; [done|]. rewrite F in H by done. by apply W3.
  - intros n o Hn. destruct (W4 n o Hn) as [R1 R2 R3]. split; [done|by rewrite B1|]. auto.
  - intros idx sd Hi Hb. rewrite B1 in Hb. auto.
Qed.

(** One connection of a thread's index changes, and the thread knows. *)
Lemma world_side i fw i' fw' ks n o sd s' : world i fw ks -> ks !! n = Some (Some o) ->
  (forall cnt, map_ok QP_MAP cnt i -> map_ok QP_MAP cnt i') -> (forall cnt, map_ok CID_MAP cnt i -> map_ok CID_MAP cnt i') ->
  (forall idx, bit_of QP_MAP i' idx = bit_of QP_MAP i idx) ->
  (forall c, 0 <= c -> c ≠ side_cid sd (o_idx o) -> bit_of CID_MAP i' c = bit_of CID_MAP i c) ->
  (forall c, c ≠ side_cid sd (o_idx o) -> fw' c = fw c) ->
  side_true i' fw' sd (o_idx o) s' -> world i' fw' (<[n := Some (side_upd sd s' o)]> ks).
Proof.
  intros [W1 W2 W3 W4 W5 W6] Hn M1 M2 B1 B2 F Hs. destruct (W4 _ _ Hn) as [R1 R2 R3].
  assert (Side : forall sd' idx s, 0 <= idx < N -> sd' ≠ sd \/ idx ≠ o_idx o -> side_true i fw sd' idx s -> side_true i' fw' sd' idx s).
  { intros sd' idx s Hi Hne. pose proof (side_cid_range sd' idx Hi). unfold side_true.
    rewrite F, B2; try done; try lia; intros [-> ->]%side_cid_inj; naive_solver. }
  assert (Eo : o_idx (side_upd sd s' o) = o_idx o) by (by destruct sd). split; [by auto|by auto| | | |].
  - intros c H. destruct (decide (c = side_cid sd (o_idx o))) as [->|E]; [destruct sd; simpl; lia|]. rewrite F in H by done. by apply W3.
  - intros n' o1 [[-> [= <-]]|[Hne H]]%ks_insert.
    + split; rewrite ?Eo; [done|by rewrite B1|]. intros sd'. destruct (decide (sd' = sd)) as [->|E]; [by destruct sd|].
      apply Side; [done|by left|]. specialize (R3 sd'). by destruct sd', sd.
    + destruct (W4 _ _ H) as [Q1 Q2 Q3]. split; [done|by rewrite B1|]. intros sd'. apply Side; [done| |done]. right. intros E.
      apply Hne. by eapply W5.
  - apply alone_insert; [done|]. intros o1 n' o2 [= <-] Hne H2 E. apply Hne. eapply W5; [exact H2|exact Hn|congruence].
  - intros idx sd' Hi Hb. rewrite B1 in Hb. apply Side; [done| |by apply W6]. right. intros ->. congruence.
Qed.

(** An index is taken, or given back. *)
Lemma world_alloc i fw i' ks n idx : world i fw ks -> 0 <= idx < N -> bit_of QP_MAP i idx = false -> one_bit QP_MAP idx true i i' ->
  world i' fw (<[n := Some (mk_own idx Unk Unk)]> ks).
Proof.
  intros [W1 W2 W3 W4 W5 W6] Hi Hb O. pose proof (bit_of_other _ CID_MAP _ _ _ _ O ltac:(done)) as B.
  assert (Side : forall sd idx' s, side_true i fw sd idx' s -> side_true i' fw sd idx' s) by (intros *; unfold side_true; by rewrite B).
  assert (Ne : forall n' o', ks !! n' = Some (Some o') -> idx ≠ o_idx o').
  { intros n' o' H ->. destruct (W4 _ _ H). congruence. }
  split; [by eapply ob_ok|by eapply map_ok_other|done| | |].
  - intros n' o [[-> [= <-]]|[Hne H]]%ks_insert.
    + split; simpl; [done|by rewrite (ob_bit _ _ _ _ _ O), Z.eqb_refl by lia|]. intros sd. apply Side. by destruct sd; apply W6.
    + destruct (W4 _ _ H) as [Q1 Q2 Q3]. split; [done| |by auto]. rewrite (ob_bit _ _ _ _ _ O) by lia. by destruct (_ =? _).
  - apply alone_insert; [done|]. intros o n' o' [= <-] _ H. by eapply Ne.
  - intros idx' sd Hi' Hb'. rewrite (ob_bit _ _ _ _ _ O) in Hb' by lia. destruct (idx' =? idx); [done|]. auto.
Qed.

Lemma quiet_unk s (f : fw_cid) b : quiet s = true -> stat s f b -> stat Unk f b.
Proof. destruct s; simpl; try done. by intros _ [-> ->]. Qed.

Lemma world_release i fw i' ks n o : world i fw ks -> ks !! n = Some (Some o) -> quiet (o_resp o) = true -> quiet (o_req o) = true ->
  one_bit QP_MAP (o_idx o) false i i' -> world i' fw (<[n := None]> ks).
Proof.
  intros [W1 W2 W3 W4 W5 W6] Hn Q1 Q2 O. pose proof (bit_of_other _ CID_MAP _ _ _ _ O ltac:(done)) as B. destruct (W4 _ _ Hn) as [R1 R2 R3].
  assert (Side : forall sd idx' s, side_true i fw sd idx' s -> side_true i' fw sd idx' s) by (intros *; unfold side_true; by rewrite B).
  split; [by eapply ob_ok|by eapply map_ok_other|done| | |].
  - intros n' o' [[_ ?]|[Hne H]]%ks_insert; [done|]. destruct (W4 _ _ H) as [T1 T2 T3]. split; [done| |by auto].
    rewrite (ob_bit _ _ _ _ _ O) by lia. destruct (Z.eqb_spec (o_idx o') (o_idx o)) as [E|]; [|done]. destruct Hne. by eapply W5.
  - by apply alone_insert.
  - intros idx' sd Hi' Hb'. rewrite (ob_bit _ _ _ _ _ O) in Hb' by lia. apply Side. destruct (Z.eqb_spec idx' (o_idx o)) as [->|]; [|by auto].
    specialize (R3 sd). eapply quiet_unk; [|exact R3]. by destruct sd.
Qed.

(** ** Actions *)

(** The knowledge before and after an action. *)
Definition act_keeps i fw ks n p K i' fw' p' : Prop :=
  world i fw ks -> ks !! n = Some K -> wp N (rest_ok N) p K ->
  exists K', wp N (rest_ok N) p' K' /\ world i' fw' (<[n := K']> ks).

Lemma keep_world i fw ks n K : world i fw ks -> ks !! n = Some K -> world i fw (<[n := K]> ks).
Proof. intros W H. by rewrite list_insert_id. Qed.

Lemma world_ext i i' fw ks : (forall m, maps i' m = maps i m) -> world i fw ks -> world i' fw ks.
Proof.
  intros E [W1 W2 W3 W4 W5 W6].
  assert (B : forall m id, bit_of m i' id = bit_of m i id) by (intros; unfold bit_of; by rewrite E).
  assert (S : forall sd idx s, side_true i' fw sd idx s <-> side_true i fw sd idx s) by (intros; unfold side_true; by rewrite B).
  split; try done.
  - unfold map_ok. by rewrite E.
  - unfold map_ok. by rewrite E.
  - intros n o H. destruct (W4 _ _ H). split; [done|by rewrite B|]. intros. by apply S.
  - intros idx sd Hi Hb. rewrite B in Hb. apply S. auto.
Qed.

Lemma alloc_keeps i fw ks n k z i' : run_lock (LAlloc QP_MAP) i = Some (z, i') -> act_keeps i fw ks n (Lock (LAlloc QP_MAP) k) None i' fw (k z).
Proof.
  intros Hr W Hn [H1 H2]. destruct (lock_alloc QP_MAP N i (w_qps _ _ _ W) N_pos) as [E|(idx & i1 & Hi & E & Hb & O)]; rewrite E in Hr; simplify_eq.
  - exists None. split; [by apply H1|]. apply (world_ext i); [|by apply keep_world]. intros m. unfold set_map. simpl.
    by case_decide; subst.
  - eexists. split; [by apply H2|]. by apply (world_alloc i).
Qed.

Lemma set_keeps i fw ks n k c o z i' : run_lock (LSet CID_MAP c) i = Some (z, i') ->
  act_keeps i fw ks n (Lock (LSet CID_MAP c) k) (Some o) i' fw (k z).
Proof.
  intros Hr W Hn (sd & -> & Hs & H). destruct (w_own _ _ _ W _ _ Hn) as [R1 R2 R3]. pose proof (side_cid_range sd _ R1) as Rc.
  destruct (lock_set CID_MAP _ M i (w_cids _ _ _ W) Rc) as (i1 & E & O). rewrite E in Hr. simplify_eq.
  eexists. split; [exact H|]. eapply (world_side i fw); [done|done| | | | |done|].
  - intros cnt. by eapply map_ok_other.
  - by eapply ob_ok.
  - by eapply bit_of_other.
  - intros c Hc Hne. rewrite (ob_bit _ _ _ _ _ O) by done. by replace (c =? _) with false by lia.
  - specialize (R3 sd). rewrite Hs in R3. unfold side_true in *. rewrite (ob_bit _ _ _ _ _ O), Z.eqb_refl by lia. simpl in *. naive_solver.
Qed.

Lemma passed_true s f : bit_may_be_clear s = true -> stat s f false -> stat (passed s) f false.
Proof. destruct s; simpl; try done. by destruct f. Qed.

Lemma test2_keeps i fw ks n k c1 c2 o z i' : run_lock (LTest2 CID_MAP c1 c2) i = Some (z, i') ->
  act_keeps i fw ks n (Lock (LTest2 CID_MAP c1 c2) k) (Some o) i' fw (k z).
Proof.
  intros Hr W Hn (-> & -> & H0 & H1). pose proof (w_own _ _ _ W _ _ Hn) as [R1 R2 R3].
  rewrite (lock_test2 CID_MAP _ _ M) in Hr by (apply W || by apply side_cid_range). simplify_eq.
  destruct (bit_of CID_MAP i' (side_cid Resp (o_idx o))) eqn:E1; cbn [negb andb]; [eexists; split; [exact H0|by apply keep_world]|].
  destruct (bit_of CID_MAP i' (side_cid Req (o_idx o))) eqn:E2; cbn [negb andb]; [eexists; split; [exact H0|by apply keep_world]|].
  pose proof (R3 Resp) as S1. pose proof (R3 Req) as S2. unfold side_true in S1, S2. rewrite E1 in S1. rewrite E2 in S2. cbn [side_get] in *.
  assert (C1 : bit_may_be_clear (o_resp o) = true) by (destruct (o_resp o); naive_solver).
  assert (C2 : bit_may_be_clear (o_req o) = true) by (destruct (o_req o); naive_solver).
  eexists. split; [by apply H1|]. eapply world_learn; [done..|]. intros sd. unfold side_true. destruct sd; rewrite ?E1, ?E2; by apply passed_true.
Qed.

Lemma release_keeps i fw ks n k id o z i' : run_lock (LRelease QP_MAP id) i = Some (z, i') ->
  act_keeps i fw ks n (Lock (LRelease QP_MAP id) k) (Some o) i' fw (k z).
Proof.
  intros Hr W Hn (-> & Q1 & Q2 & H). pose proof (w_own _ _ _ W _ _ Hn) as [R1 R2 R3].
  destruct (lock_release QP_MAP _ N i (w_qps _ _ _ W) R1) as (i1 & E & O). rewrite E in Hr. simplify_eq.
  exists None. split; [done|]. by eapply world_release.
Qed.

(** A ramrod executed on a connection of the thread's own. *)
Lemma fw_set_eq c v fw : fw_set c v fw c = v.
Proof. unfold fw_set. by rewrite Z.eqb_refl. Qed.
Lemma fw_set_ne c v fw c' : c' ≠ c -> fw_set c v fw c' = fw c'.
Proof. intros H. unfold fw_set. by replace (c' =? c) with false by lia. Qed.

Lemma exec_change r c s s' fw : cid_change r = Some (c, s, s') -> (forall c', c' ≠ c -> fw_exec r fw c' = fw c') /\
  (forall b, stat s (fw c) b -> stat s' (fw_exec r fw c) b /\ fw_accepts r fw = true).
Proof.
  destruct r; simpl; intros [= <- <- <-]; (split; [intros c' Hc; try apply fw_set_ne; done|]); intros b [E ->];
    rewrite ?fw_set_eq; (split; [done|]); by case_bool_decide.
Qed.

Lemma ramrod_keeps i fw ks n r k K w : act_keeps i fw ks n (Ramrod r k) K i (fw_exec r fw) (k 0 w).
Proof.
  intros W Hn [_ H]. destruct (cid_change r) as [[[c s] s']|] eqn:Ec, K as [o|]; try done. destruct H as (sd & -> & Hs & H).
  destruct (w_own _ _ _ W _ _ Hn) as [R1 R2 R3]. destruct (exec_change _ _ _ _ fw Ec) as [F1 F2].
  eexists. split; [apply H|]. eapply (world_side i fw); try done. apply F2. specialize (R3 sd). by rewrite Hs in R3.
Qed.

Lemma act_step l i fw ks n p K i' fw' late' p' :
  act l i fw [] p i' fw' late' p' -> careful l -> late' = [] /\ act_keeps i fw ks n p K i' fw' p'.
Proof.
  intros A Cf. remember [] as late eqn:El.
  destruct A as [l i fw late r p C|i fw late op k z i' Hr| | |i fw late r k rc w f| | | | | |]; subst late;
    try (split; [done|]; intros W Hn H; exists K; split; [try apply H; done|by apply keep_world]).
  - split; [done|]. intros W Hn H. destruct (call_spec N N_small _ _ _ _ C Cf H) as (K' & HK & H'). exists K'. split; [done|].
    destruct HK as [->| ->]; [by apply keep_world|by apply world_drop].
  - split; [done|]. intros W Hn H. pose proof H as H'. simpl in H'. destruct op as [[]|[]|[]|[]| |], K as [o|]; try done.
    + by eapply alloc_keeps.
    + by eapply release_keeps.
    + by eapply set_keeps.
    + by eapply test2_keeps.
  - destruct Cf as [[-> ->]|[Hrc ->]]; (split; [done|]); [by apply ramrod_keeps|].
    intros W Hn [H _]. exists K. split; [by apply H|by apply keep_world].
Qed.

(** A legal thread: its next action is taken. *)
Lemma world_safe i fw ks n p K : world i fw ks -> ks !! n = Some K -> wp N (rest_ok N) p K -> act_safe i fw p.
Proof.
  intros W Hn H. destruct p as [|op k| | |r k| | | | | |]; try done; cbn [wp act_safe] in H |- *.
  - destruct op as [[]|[]|[]|[]| |], K as [o|]; try done.
    + destruct (lock_alloc QP_MAP N i (w_qps _ _ _ W) N_pos) as [E|(? & ? & ? & E & _)]; rewrite E; eauto.
    + destruct H as (-> & _). destruct (w_own _ _ _ W _ _ Hn) as [R1 _ _].
      destruct (lock_release QP_MAP _ N i (w_qps _ _ _ W) R1) as (? & E & _). rewrite E. eauto.
    + destruct H as (sd & -> & _). destruct (w_own _ _ _ W _ _ Hn) as [R1 _ _].
      destruct (lock_set CID_MAP _ M i (w_cids _ _ _ W) (side_cid_range sd _ R1)) as (? & E & _). rewrite E. eauto.
    + destruct H as (-> & -> & _). destruct (w_own _ _ _ W _ _ Hn) as [R1 _ _].
      rewrite (lock_test2 CID_MAP _ _ M) by (apply W || by apply side_cid_range). eauto.
  - destruct H as [_ H]. destruct (cid_change r) as [[[c s] s']|] eqn:Ec, K as [o|]; try done. destruct H as (sd & -> & Hs & _).
    destruct (w_own _ _ _ W _ _ Hn) as [R1 _ R3]. destruct (exec_change _ _ _ _ fw Ec) as [_ F2]. specialize (R3 sd). rewrite Hs in R3. by eapply F2.
Qed.

(** ** Steps *)

Lemma event_keeps i fw ks c : world i fw ks -> fw c = fw_done ->
  exists z i', run_lock (qed_roce_free_icid 0 c) i = Some (z, i') /\ world i' (fw_set c fw_idle fw) ks.
Proof.
  intros W Hc. assert (Rc : 0 <= c < 2 * N) by (apply (w_fw _ _ _ W); by rewrite Hc). unfold qed_roce_free_icid.
  assert (E : u32 (c - 0) = c) by (unfold u32; rewrite Z.sub_0_r; apply Z.mod_small; lia). rewrite E.
  destruct (lock_release CID_MAP c M i (w_cids _ _ _ W) ltac:(lia)) as (i1 & E1 & O). exists 0, i1. split; [done|].
  apply (world_cid i fw i1 (fw_set c fw_idle fw) ks c W); [intros cnt; by eapply map_ok_other|by eapply ob_ok|by eapply bit_of_other|done| |by apply fw_set_ne|].
  - intros c' H Hne. rewrite (ob_bit _ _ _ _ _ O) by done. by replace (c' =? c) with false by lia.
  - intros s. rewrite fw_set_eq, Hc, (ob_bit _ _ _ _ _ O), Z.eqb_refl by lia. destruct s; simpl; naive_solver.
Qed.

Lemma inv_step s s' : inv s -> careful_step s s' -> inv s'.
Proof.
  intros (El & ks & W & F) (l & St & Cf).
  destruct St as [l n i fw late cs p i' fw' late' p' Hp A|i fw l1 r l2 cs|i fw late cs c Hc|i fw late cs c i' z Hc Hr];
    cbn [rm_info rm_fw rm_clients rm_late] in *.
  - subst late. destruct (Forall2_lookup_l _ _ _ _ _ F Hp) as (K & HK & H).
    destruct (act_step _ _ _ ks n _ K _ _ _ _ A Cf) as [-> Ak]. destruct (Ak W HK H) as (K' & H' & W').
    split; [done|]. exists (<[n := K']> ks). split; [done|]. by apply Forall2_insert.
  - by destruct l1.
  - split; [done|]. exists ks. split; [|done]. apply (world_cid i fw i (fw_set c fw_done fw) ks c W); try done.
    + apply (w_fw _ _ _ W). by rewrite Hc.
    + by apply fw_set_ne.
    + intros s. rewrite fw_set_eq, Hc. destruct s; simpl; naive_solver.
  - destruct (event_keeps _ _ _ _ W Hc) as (z' & i1 & E & W'). rewrite E in Hr. simplify_eq. split; [done|]. by exists ks.
Qed.

End Inv.
