(* ===== verification/RdmaProps.v ===== *)
(** * Allocation of the RDMA info, and single calls (qed_rdma.c)

    What [qed_rdma_alloc] sets up and that [qed_rdma_free] gives back all of it,
    also after a failure half-way; and calls of one thread with any answers from
    outside: a completion queue or a shared receive queue that could not be
    created leaves the maps as they were. *)

From S2P Require Import Prelude Cxt Rdma RoceRun RoceSpecs RoceInv.

(** ** Memory *)

Definition map_names : list map_name :=
  [PD_MAP; XRCD_MAP; DPI_MAP; CQ_MAP; TOGGLE_BITS; TID_MAP; QP_MAP; CID_MAP; SUS_CID_MAP; XRC_SRQ_MAP; SRQ_MAP].

Definition allocated (b : qed_bmap) : bool := bool_decide (is_Some (bmap_bits b)).
Definition map_blocks (i : qed_rdma_info) : Z := foldr (fun n acc => Z.b2z (allocated (maps i n)) + acc) 0 map_names.
(** The blocks of memory that the info has. *)
Definition blocks (i : qed_rdma_info) : Z := map_blocks i + Z.b2z (has_dev i) + Z.b2z (has_port i).

Lemma map_blocks_set n b i : map_blocks (set_map n b i) = map_blocks i - Z.b2z (allocated (maps i n)) + Z.b2z (allocated b).
Proof. unfold map_blocks, set_map. destruct n; simpl; lia. Qed.

Lemma blocks_set n b i : blocks (set_map n b i) = blocks i - Z.b2z (allocated (maps i n)) + Z.b2z (allocated b).
Proof. unfold blocks. rewrite map_blocks_set. simpl. lia. Qed.

Lemma map_names_all n : n ∈ map_names.
Proof. destruct n; unfold map_names; set_solver. Qed.

Lemma kzalloc_live m ok m' : kzalloc m = (ok, m') -> km_live m' = km_live m + Z.b2z ok.
Proof. unfold kzalloc. destruct (km_oracle m) as [|[] l]; intros [= <- <-]; simpl; lia. Qed.

Definition fresh_bmap (count : Z) : qed_bmap :=
  mk_qed_bmap count (if count =? 0 then None else Some (mk_bitmap (64 * ((count + 63) / 64)) 0)).

(** A map that was not there: the block is counted, and the rest is unchanged. *)
Lemma alloc_map_spec n count i m rc i' m' : alloc_map n count i m = (rc, i', m') -> bmap_bits (maps i n) = None ->
  km_live m' - blocks i' = km_live m - blocks i /\ (forall n', n' ≠ n -> maps i' n' = maps i n') /\
  has_dev i' = has_dev i /\ reserved_lkey i' = reserved_lkey i /\ (rc = 0 -> maps i' n = fresh_bmap count) /\
  (maps i' n = fresh_bmap count \/ maps i' n = mk_qed_bmap count None).
Proof.
  intros H Hn. assert (E : allocated (maps i n) = false) by (unfold allocated; by rewrite Hn).
  unfold alloc_map, qed_rdma_bmap_alloc in H. unfold fresh_bmap. destruct (Z.eqb_spec count 0) as [->|Hc].
  - simplify_eq. rewrite blocks_set, E, set_map_same. simpl. split; [lia|]. split; [intros; by rewrite decide_False|]. by auto 10.
  - destruct (kzalloc m) as [[] m1] eqn:K; apply kzalloc_live in K; simplify_eq; rewrite blocks_set, E, set_map_same; simpl;
      (split; [simpl in *; lia|]); (split; [intros; by rewrite decide_False|]); (split; [done|]); (split; [done|]); (split; [done|]); by auto.
Qed.

Lemma alloc_maps_spec l : forall i m rc i' m', alloc_maps l i m = (rc, i', m') -> NoDup (l.*1) ->
  (forall n, n ∈ l.*1 -> bmap_bits (maps i n) = None) ->
  km_live m' - blocks i' = km_live m - blocks i /\ (forall n, n ∉ l.*1 -> maps i' n = maps i n) /\
  has_dev i' = has_dev i /\ reserved_lkey i' = reserved_lkey i /\
  (rc = 0 -> forall n c, (n, c) ∈ l -> maps i' n = fresh_bmap c) /\
  (forall n c, (n, c) ∈ l -> maps i' n = fresh_bmap c \/ bmap_bits (maps i' n) = None).
Proof.
  induction l as [|[n c] l IH]; intros i m rc i' m' H Hd Hn; simpl in H.
  { simplify_eq. repeat split; try done; intros; set_solver. }
  destruct (alloc_map n c i m) as [[rc1 i1] m1] eqn:E1. rewrite fmap_cons in Hd. apply list.NoDup_cons in Hd as [Hd1 Hd2]. simpl in Hd1.
  destruct (alloc_map_spec _ _ _ _ _ _ _ E1) as (L & O & D & R & Z0 & Z1); [apply Hn; set_solver|].
  assert (Hn1 : forall n', n' ∈ l.*1 -> bmap_bits (maps i1 n') = None).
  { intros n' H'. rewrite O by (intros ->; done). apply Hn. rewrite fmap_cons. by right. }
  destruct (Z.eqb_spec rc1 0) as [->|Hrc]; simpl in H.
  - destruct (IH _ _ _ _ _ H Hd2 Hn1) as (L' & O' & D' & R' & Z0' & Z1'). split; [lia|]. split.
    { intros n' H'. rewrite fmap_cons in H'. rewrite O' by set_solver. apply O. set_solver. }
    split; [congruence|]. split; [congruence|]. split.
    + intros Hr n' c' [[= -> ->]|H']%elem_of_cons; [rewrite O' by done; by apply Z0|by apply Z0'].
    + intros n' c' [[= -> ->]|H']%elem_of_cons; [rewrite O' by done; left; by apply Z0|by eapply Z1'].
  - simplify_eq. split; [lia|]. split; [intros n' H'; apply O; rewrite fmap_cons in H'; set_solver|]. split; [done|]. split; [done|]. split; [done|].
    intros n' c' [[= -> ->]|H']%elem_of_cons; [destruct Z1 as [-> | ->]; by auto|]. right. apply Hn1. apply list_elem_of_fmap. by exists (n', c').
Qed.

(** As [qed_rdma_info_alloc] leaves it. *)
Record rdma_empty (i : qed_rdma_info) : Prop := {
  re_maps : forall n, bmap_bits (maps i n) = None;
  re_dev : has_dev i = false;
  re_port : has_port i = false
}.

Lemma empty_blocks i : rdma_empty i -> blocks i = 0.
Proof. intros [H1 H2 H3]. unfold blocks, map_blocks, allocated. simpl. rewrite !H1, H2, H3. done. Qed.

(** A partial allocation: memory accounted for, every map absent or fresh. *)
Record partial (live : Z) (i : qed_rdma_info) (m : kmem) : Prop := {
  pa_live : km_live m = live + blocks i;
  pa_dev : has_dev i = false -> blocks i = 0;
  pa_lkey : reserved_lkey i = 0;
  pa_maps : forall n, bmap_bits (maps i n) = None \/ exists c, maps i n = fresh_bmap c
}.

(** The maps of [done] are there, the others are not. *)
Record stage (live : Z) (done : list (map_name * Z)) (i : qed_rdma_info) (m : kmem) : Prop := {
  st_partial : partial live i m;
  st_dev : has_dev i = true;
  st_done : forall n c, (n, c) ∈ done -> maps i n = fresh_bmap c;
  st_rest : forall n, n ∉ done.*1 -> bmap_bits (maps i n) = None
}.

Lemma stage_maps live l' l i m rc i' m' : stage live l' i m -> alloc_maps l i m = (rc, i', m') -> NoDup (l.*1) ->
  (forall n, n ∈ l.*1 -> n ∉ l'.*1) -> partial live i' m' /\ (rc = 0 -> stage live (l' ++ l) i' m').
Proof.
  intros [[P1 P2 P3 P4] S1 S2 S3] H Hd Hn. destruct (alloc_maps_spec _ _ _ _ _ _ H Hd) as (L & O & D & R & Z0 & Z1); [auto|].
  assert (P : partial live i' m').
  { split; [lia|congruence|congruence|]. intros n. destruct (decide (n ∈ l.*1)) as [Hi|Hi]; [|by rewrite O].
    apply list_elem_of_fmap in Hi as ([n' c] & -> & Hi). simpl. destruct (Z1 _ _ Hi) as [E|E]; eauto. }
  split; [done|]. intros Hrc. split; [done|congruence| |].
  - intros n c [Hi|Hi]%elem_of_app; [|by apply Z0]. rewrite O; [by apply S2|]. intros Hn'. apply (Hn _ Hn'). apply list_elem_of_fmap. by exists (n, c).
  - intros n. rewrite fmap_app, not_elem_of_app. intros [H1 H2]. rewrite O by done. by apply S3.
Qed.

(** The fields that are not memory. *)
Lemma stage_fields live l i m f g : stage live l i m -> stage live l (i <| srq_id_offset := f |>) m /\ stage live l (i <| num_srqs := g |>) m.
Proof. intros [[] ? ? ?]. by split; split. Qed.

(** The map lists of [qed_rdma_alloc]. *)
Definition cfg_maps (cfg : rdma_cfg) : list (map_name * Z) :=
  [(PD_MAP, RDMA_MAX_PDS); (XRCD_MAP, max_xrcds cfg); (DPI_MAP, dpi_count cfg); (CQ_MAP, num_cons cfg);
   (TOGGLE_BITS, num_cons cfg); (TID_MAP, num_tasks cfg); (QP_MAP, num_cons cfg / 2); (CID_MAP, num_cons cfg); (SUS_CID_MAP, num_cons cfg)].

(** Whatever the outcome, the info accounts for the memory; with code 0 every
    map is there. *)
Lemma rdma_alloc_spec cfg i m rc i' m' : rdma_empty i -> qed_rdma_alloc cfg i m = (rc, i', m') ->
  partial (km_live m) i' m' /\
  (rc = 0 -> stage (km_live m) (cfg_maps cfg ++ [(XRC_SRQ_MAP, u16 (xrc_srq_count cfg))] ++ [(SRQ_MAP, srq_count cfg)]) i' m').
Proof.
  intros E. pose proof E as [Em Ed Ep]. pose proof (empty_blocks _ E) as Eb. unfold qed_rdma_alloc.
  destruct (kzalloc m) as [ok1 m1] eqn:K1. apply kzalloc_live in K1. unfold blocks in Eb. rewrite Ed, Ep in Eb. destruct ok1; cbn [negb].
  2: { intros [= <- <- <-]. split; [|done]. split; simpl; auto; unfold blocks; simpl; rewrite Ep; unfold map_blocks in *; simpl in *; lia. }
  destruct (kzalloc m1) as [ok2 m2] eqn:K2. apply kzalloc_live in K2. destruct ok2; cbn [negb].
  2: { intros [= <- <- <-]. split; [|done]. split; simpl; auto; unfold blocks; simpl; unfold map_blocks in *; simpl in *; try done; lia. }
  match goal with |- context [alloc_maps ?l ?j m2] => change (alloc_maps l j m2) with (alloc_maps (cfg_maps cfg) j m2); set (i2 := j);
    destruct (alloc_maps (cfg_maps cfg) i2 m2) as [[rc1 i3] m3] eqn:A1 end.
  assert (S2 : stage (km_live m) [] i2 m2).
  { split; [|done|set_solver|intros; apply Em]. split; [|done|done|intros; left; apply Em].
    unfold blocks. change (map_blocks i2) with (map_blocks i). simpl in *. lia. }
  destruct (stage_maps _ _ _ _ _ _ _ _ S2 A1 ltac:(by apply (bool_decide_unpack _)) ltac:(set_solver)) as [P3 S3].
  destruct (Z.eqb_spec rc1 0) as [->|Hrc]; cbn [negb]; [|intros H; simplify_eq; by split].
  specialize (S3 eq_refl). rewrite app_nil_l in S3. apply (stage_fields _ _ _ _ (u16 (xrc_srq_count cfg)) 0), proj1 in S3.
  destruct (alloc_maps [(XRC_SRQ_MAP, _)] _ m3) as [[rc2 i4] m4] eqn:A2.
  destruct (stage_maps _ _ _ _ _ _ _ _ S3 A2 ltac:(by apply (bool_decide_unpack _)) ltac:(simpl; set_solver)) as [P4 S4].
  destruct (Z.eqb_spec rc2 0) as [->|Hrc]; cbn [negb]; [|intros H; simplify_eq; by split].
  specialize (S4 eq_refl). apply (stage_fields _ _ _ _ 0 (srq_count cfg)), proj2 in S4. intros A3. rewrite app_assoc.
  eapply stage_maps; [exact S4|exact A3|by apply (bool_decide_unpack _)|simpl; set_solver].
Qed.

(** ** Freeing *)

Lemma free_maps_spec l : forall i m i' m', free_maps l i m = (i', m') ->
  km_live m' - blocks i' = km_live m - blocks i /\ has_dev i' = has_dev i /\ has_port i' = has_port i /\
  (forall n, n ∈ l \/ bmap_bits (maps i n) = None -> bmap_bits (maps i' n) = None).
Proof.
  induction l as [|n l IH]; intros i m i' m' H; simpl in H; [simplify_eq; repeat split; set_solver|].
  unfold qed_rdma_bmap_free in H. destruct (bmap_bits (maps i n)) as [b|] eqn:E.
  - destruct (IH _ _ _ _ H) as (L & D & P & F). rewrite blocks_set in L. unfold allocated in L. rewrite E in L. simpl in *. split; [lia|].
    split; [done|]. split; [done|]. intros n' Hn. apply F. destruct (decide (n' = n)) as [->|Hne]; [by right|]. set_solver.
  - destruct (IH _ _ _ _ H) as (L & D & P & F). split; [lia|]. split; [done|]. split; [done|]. intros n' Hn. apply F.
    destruct (decide (n' = n)) as [->|Hne]; [by right|]. set_solver.
Qed.

Lemma resc_free_spec i m i' m' : qed_rdma_resc_free i m = (i', m') -> km_live m' = km_live m - blocks i /\ rdma_empty i'.
Proof.
  unfold qed_rdma_resc_free. destruct (free_maps _ i m) as [i1 m1] eqn:E. destruct (free_maps_spec _ _ _ _ _ E) as (L & D & P & F).
  intros H. simplify_eq. assert (Hn : forall n, bmap_bits (maps i1 n) = None) by (intros []; apply F; left; set_solver).
  assert (B : map_blocks i1 = 0) by (unfold map_blocks, allocated; simpl; rewrite !Hn; done).
  unfold blocks in *. rewrite B in L. split; [|by split; simpl]. simpl. destruct (has_port i1), (has_dev i1); simpl in *; lia.
Qed.

Lemma rdma_free_spec live i m : partial live i m ->
  exists i' m', qed_rdma_free i m = Some (i', m') /\ km_live m' = live /\ blocks i' = 0.
Proof.
  intros [P1 P2 P3 P4]. unfold qed_rdma_free. destruct (has_dev i); simpl; [|exists i, m; split; [done|]; specialize (P2 eq_refl); split; [lia|done]].
  assert (H : exists b, qed_bmap_release_id (reserved_lkey i) (maps i TID_MAP) = Some b /\ allocated b = allocated (maps i TID_MAP)).
  { rewrite P3. unfold qed_bmap_release_id. destruct (P4 TID_MAP) as [E|(c & E)]; rewrite E; [by eauto|]. unfold fresh_bmap. simpl.
    destruct (Z.eqb_spec c 0); [by eauto|]. destruct (Z.leb_spec c 0); [by eauto|]. unfold clear_bit, bit_inside. simpl.
    pose proof (Z.div_le_lower_bound (c + 63) 64 1 ltac:(lia) ltac:(lia)). replace (0 <? _) with true by lia. simpl. by eauto. }
  destruct H as (b & -> & Hb). simpl. destruct (qed_rdma_resc_free (set_map TID_MAP b i) m) as [i' m'] eqn:E.
  destruct (resc_free_spec _ _ _ _ E) as [L R]. exists i', m'. split; [done|]. rewrite blocks_set, Hb in L. split; [lia|by apply empty_blocks].
Qed.

(** ** One thread, any answers *)

(** What was asked of the firmware: the ramrod, the code, the word put out. *)
Definition ramrods := list (ramrod * Z * Z).

(** The next answer from outside; 0 when there is none. *)
Definition answer (o : list Z) : Z * list Z := match o with [] => (0, []) | z :: o => (z, o) end.

Fixpoint run_seq {A} (o : list Z) (p : proc A) (i : qed_rdma_info) : option (A * qed_rdma_info * ramrods) :=
  match p with
  | Ret a => Some (a, i, [])
  | Lock op k => '(z, i) ← run_lock op i; run_seq o (k z) i
  | Ramrod r k =>
      let '(rc, o) := answer o in let '(w, o) := answer o in
      '(a, i, t) ← run_seq o (k rc w) i; Some (a, i, (r, rc, w) :: t)
  | SpInit k | Drain k | Dma k | Ilt _ k | Prs _ k => let '(z, o) := answer o in run_seq o (k z) i
  | SpDestroy k | DmaFree _ k | Sleep k => run_seq o k i
  end.

(** The maps are as before. *)
Definition maps_same (i i' : qed_rdma_info) : Prop := forall n, maps i' n = maps i n.

Lemma maps_same_trans i i' i'' : maps_same i i' -> maps_same i' i'' -> maps_same i i''.
Proof. intros H1 H2 n. by rewrite H2, H1. Qed.

Lemma clear_set_bits b id : 0 <= id -> Z.testbit b id = false -> Z.clearbit (Z.setbit b id) id = b.
Proof.
  intros H Hb. apply Z.bits_inj'. intros k Hk. rewrite clearbit_if, setbit_if by done. by destruct (Z.eqb_spec k id) as [->|].
Qed.

(** An id taken and given back. *)
Lemma release_after_alloc n cnt i : map_ok n cnt i -> 0 <= cnt ->
  (exists i', run_lock (LAlloc n) i = Some (- EINVAL, i') /\ maps_same i i') \/
  exists id i', 0 <= id < cnt /\ run_lock (LAlloc n) i = Some (id, i') /\ bit_of n i id = false /\ one_bit n id true i i' /\
    forall j, maps_same i' j -> exists i'', run_lock (LRelease n id) j = Some (0, i'') /\ maps_same i i''.
Proof.
  intros Hm Hc. destruct (lock_alloc n cnt i Hm Hc) as [E|(id & i1 & Hi & E & Hb & O)].
  { left. eexists. split; [exact E|]. intros n'. unfold set_map. simpl. by case_decide; subst. }
  right. exists id, i1. do 4 (split; [done|]). intros j Hj. simpl in *. unfold qed_rdma_bmap_alloc_id in E. destruct Hm as [M1 M2].
  unfold bit_of in Hb. destruct (bmap_bits (maps i n)) as [m|] eqn:Em; [|done]. rewrite M1 in E. destruct (cnt <=? _); simpl in E; [simplify_eq; unfold EINVAL in *; lia|]. rewrite <- M1 in Hi.
  unfold set_bit in E. destruct (bit_inside _ m) eqn:Ein; [|done]. simpl in E. simplify_eq. rewrite (Hj n), set_map_same.
  unfold qed_bmap_release_id. simpl. replace (_ <=? find_first_zero_bit _ _) with false by lia. unfold clear_bit, bit_inside in *. simpl. rewrite Ein. simpl.
  eexists. split; [done|]. intros n'. unfold set_map at 1. simpl. case_decide as D; [subst|].
  - rewrite clear_set_bits by (done || lia). destruct (maps i n) as [mx bt] eqn:E0. simpl in *. subst. by destruct m.
  - rewrite (Hj n'). by apply set_map_other.
Qed.

(** ** Toggle bits *)

Lemma toggle_twice id cnt i : map_ok TOGGLE_BITS cnt i -> 0 <= id < cnt ->
  exists i', run_lock (LToggle id) i = Some (Z.b2z (negb (bit_of TOGGLE_BITS i id)), i') /\ one_bit TOGGLE_BITS id (negb (bit_of TOGGLE_BITS i id)) i i' /\
    forall j, maps_same i' j -> exists i'' z, run_lock (LToggle id) j = Some (z, i'') /\ maps_same i i''.
Proof.
  intros [M1 M2] Hi. simpl. unfold bit_of. destruct (bmap_bits (maps i TOGGLE_BITS)) as [m|] eqn:Em; [|done].
  assert (Ein : (0 <=? id) && (id <? bm_size m) = true) by lia.
  unfold test_bit, set_bit, clear_bit, bit_inside. simpl. rewrite Ein. simpl. set (m' := mk_bitmap (bm_size m) (if Z.testbit (bm_bits m) id then Z.clearbit (bm_bits m) id else Z.setbit (bm_bits m) id)).
  exists (set_map TOGGLE_BITS (mk_qed_bmap (bmap_max (maps i TOGGLE_BITS)) (Some m')) i). split; [by destruct (Z.testbit (bm_bits m) id)|]. split.
  - apply (one_bit_set _ _ _ m); [done..|]. intros id' H'. simpl. destruct (Z.testbit (bm_bits m) id); [apply clearbit_if|apply setbit_if; lia].
  - intros j Hj. rewrite (Hj TOGGLE_BITS), set_map_same. simpl. rewrite Ein. simpl.
    destruct (Z.testbit (bm_bits m) id) eqn:Eb.
    + rewrite clearbit_if, Z.eqb_refl. simpl. eexists _, _. split; [done|]. intros n'. unfold set_map at 1. simpl. case_decide as D; [subst|rewrite (Hj n'); by apply set_map_other].
      replace (Z.setbit (Z.clearbit (bm_bits m) id) id) with (bm_bits m) by (apply Z.bits_inj'; intros k Hk; rewrite setbit_if, clearbit_if by lia; by destruct (Z.eqb_spec k id) as [->|]).
      destruct (maps i TOGGLE_BITS) as [mx bt] eqn:E0. simpl in *. subst. by destruct m.
    + rewrite setbit_if, Z.eqb_refl by lia. simpl. eexists _, _. split; [done|]. intros n'. unfold set_map at 1. simpl. case_decide as D; [subst|rewrite (Hj n'); by apply set_map_other].
      rewrite clear_set_bits by (done || lia). destruct (maps i TOGGLE_BITS) as [mx bt] eqn:E0. simpl in *. subst. by destruct m.
Qed.
