(* ===== verification/RdmaClaims.v ===== *)
(** * RDMA: the claims (qed_rdma.c, qed_roce.c)

    Queue pairs and their connection ids in every careful run of threads and firmware;
    memory of the info; completion queues and memory regions; and runs that show
    where the code does not do what it means to. *)

From S2P Require Import Prelude Cxt Rdma RoceRun RoceSpecs RoceInv RdmaProps.

(** ** Queue pairs *)

(** No connection in use, [n] threads without a queue pair. *)
Definition start_machine (i : qed_rdma_info) (n : nat) : machine := mk_machine i (fun _ => fw_idle) [] (replicate n (Ret NoQp)).

Lemma fresh_ok n cnt i : 0 < cnt -> maps i n = fresh_bmap cnt -> map_ok n cnt i /\ forall id, bit_of n i id = false.
Proof.
  intros H E. unfold map_ok, bit_of. rewrite E. unfold fresh_bmap. replace (cnt =? 0) with false by lia. simpl. split.
  - split; [done|]. pose proof (Z.div_mod (cnt + 63) 64 ltac:(lia)). pose proof (Z.mod_pos_bound (cnt + 63) 64 ltac:(lia)). lia.
  - intros id. apply Z.testbit_0_l.
Qed.

Lemma start_inv cfg i0 m i m' n : rdma_empty i0 -> 2 <= num_cons cfg <= 65536 -> qed_rdma_alloc cfg i0 m = (0, i, m') ->
  inv (num_cons cfg / 2) (num_cons cfg) (start_machine i n).
Proof.
  intros E Hc H. destruct (rdma_alloc_spec _ _ _ _ _ _ E H) as [_ S]. destruct (S eq_refl) as [_ _ D _].
  pose proof (Z.div_le_lower_bound (num_cons cfg) 2 1 ltac:(lia) ltac:(lia)).
  destruct (fresh_ok QP_MAP (num_cons cfg / 2) i) as [Q1 Q2]; [lia|apply D; unfold cfg_maps; set_solver|].
  destruct (fresh_ok CID_MAP (num_cons cfg) i) as [C1 C2]; [lia|apply D; unfold cfg_maps; set_solver|].
  split; [done|]. exists (replicate n None). split.
  - split; try done.
    + intros k o Hk. by apply lookup_replicate in Hk as [? _].
    + intros k k' o o' Hk. by apply lookup_replicate in Hk as [? _].
    + intros idx sd _ _. unfold side_true. by rewrite C2.
  - simpl. apply Forall2_replicate. done.
Qed.

Lemma reachable_inv cfg i0 m i m' n s : rdma_empty i0 -> 2 <= num_cons cfg <= 65536 -> qed_rdma_alloc cfg i0 m = (0, i, m') ->
  rtc careful_step (start_machine i n) s -> inv (num_cons cfg / 2) (num_cons cfg) s.
Proof.
  intros E Hc H R. pose proof (start_inv _ _ _ _ _ n E Hc H) as I. pose proof (Z.div_pos (num_cons cfg) 2 ltac:(lia) ltac:(lia)).
  pose proof (Z.div_lt_upper_bound (num_cons cfg) 2 32769 ltac:(lia) ltac:(lia)). pose proof (Z.mul_div_le (num_cons cfg) 2 ltac:(lia)).
  revert I. induction R as [|s1 s2 s3 St R IH]; intros I; [done|]. apply IH. eapply inv_step; [..|exact I|exact St]; lia.
Qed.

(** ** A scheduler *)

Inductive choice := ChCreate (type : qed_rdma_qp_type) | ChModify (st : qed_roce_qp_state) | ChDestroy | ChCreateUd | ChDestroyUd.
(** A thread acts with the given answers and its ramrod meets the fate that goes
    with the code, or another one; a thread makes a call; a ramrod in flight is
    executed; the firmware is done with a connection; the driver handles the
    event. *)
Inductive cmd := CAct (n : nat) (z w : Z) | CFate (n : nat) (z w : Z) (f : fate) | CCall (n : nat) (c : choice) | CLate | CDone (c : Z) | CEvent (c : Z).

Definition choose (r : resting) (c : choice) : option (proc resting) :=
  match r, c with
  | NoQp, ChCreate t => Some (create_call true true t)
  | NoQp, ChCreateUd => Some create_ud_call
  | HasQp qp failed, ChModify st =>
      if bool_decide (st = ERR) || negb failed && legal (cur_state qp) st then Some (modify_call (Some st) qp) else None
  | HasQp qp false, ChDestroy => Some (destroy_call qp)
  | HasUd cid, ChDestroyUd => Some (destroy_ud_call cid)
  | _, _ => None
  end.

Definition do_act (z w : Z) (f : fate) (p : proc resting) (s : machine) : option (qed_rdma_info * (Z -> fw_cid) * list ramrod * proc resting) :=
  match p with
  | Ret _ => None
  | Lock op k => '(z, i) ← run_lock op (rm_info s); Some (i, rm_fw s, rm_late s, k z)
  | Ramrod r k => Some (rm_info s, fate_fw f r (rm_fw s), fate_late f r (rm_late s), k z w)
  | SpInit k | Drain k | Dma k | Ilt _ k | Prs _ k => Some (rm_info s, rm_fw s, rm_late s, k z)
  | SpDestroy k | DmaFree _ k | Sleep k => Some (rm_info s, rm_fw s, rm_late s, k)
  end.
Definition true_fate (z : Z) : fate := if z =? 0 then Now else Never.

Definition exec_act (n : nat) (z w : Z) (f : fate) (s : machine) : option machine :=
  p ← rm_clients s !! n; '(i, fw, late, p) ← do_act z w f p s; Some (mk_machine i fw late (<[n := p]> (rm_clients s))).
Definition exec (c : cmd) (s : machine) : option machine :=
  match c with
  | CAct n z w => exec_act n z w (true_fate z) s
  | CFate n z w f => exec_act n z w f s
  | CCall n ch => p ← rm_clients s !! n;
      match p with Ret r => p ← choose r ch; Some (mk_machine (rm_info s) (rm_fw s) (rm_late s) (<[n := p]> (rm_clients s))) | _ => None end
  | CLate => match rm_late s with r :: l => Some (mk_machine (rm_info s) (fw_exec r (rm_fw s)) l (rm_clients s)) | [] => None end
  | CDone c => if bool_decide (rm_fw s c = fw_dying) then Some (mk_machine (rm_info s) (fw_set c fw_done (rm_fw s)) (rm_late s) (rm_clients s)) else None
  | CEvent c => if bool_decide (rm_fw s c = fw_done) then
      '(_, i) ← run_lock (qed_roce_free_icid 0 c) (rm_info s); Some (mk_machine i (fw_set c fw_idle (rm_fw s)) (rm_late s) (rm_clients s)) else None
  end.
Fixpoint execs (l : list cmd) (s : machine) : option machine :=
  match l with [] => Some s | c :: l => s ← exec c s; execs l s end.

(** The commands that are careful steps. *)
Definition careful_cmd (c : cmd) : bool := match c with CFate _ _ _ _ => false | _ => true end.

Lemma choose_call r c p : choose r c = Some p -> exists l, call l r p /\ careful l.
Proof.
  intros H. destruct r as [|qp f|cid], c as [t|st| | |]; unfold choose in H; try done; try (destruct f; done);
    try (injection H as <-; eexists; split; [by constructor|done]).
  - assert (E : p = modify_call (Some st) qp /\ legal (cur_state qp) st = true /\ (f = true -> st = ERR)).
    { destruct (decide (st = ERR)) as [->|Hn]; [|rewrite bool_decide_eq_false_2 in H by done].
      - destruct f; injection H as <-; by destruct (cur_state qp).
      - destruct f; [done|]. simpl in H. destruct (legal (cur_state qp) st) eqn:El; [|done]. by injection H as <-. }
    destruct E as (-> & El & Ef). eexists. split; [by constructor|]. intros F. apply bool_decide_eq_true_2. f_equal. auto.
  - destruct f; [done|]. injection H as <-. eexists. split; [by constructor|done].
Qed.

Lemma do_act_act z w f p s i fw late p' : do_act z w f p s = Some (i, fw, late, p') ->
  exists l, act l (rm_info s) (rm_fw s) (rm_late s) p i fw late p' /\ (f = true_fate z -> careful l).
Proof.
  destruct p as [|op k| | |r k| | | | | |]; unfold do_act; try (intros [= <- <- <- <-]; exists Plain; by split; [constructor|]); try done.
  - destruct (run_lock op (rm_info s)) as [[z' i']|] eqn:E; simpl; [|done]. intros [= <- <- <- <-]. exists Plain. by split; [constructor|].
  - intros [= <- <- <- <-]. exists (Posted z f). split; [constructor|]. intros ->. unfold true_fate. simpl.
    destruct (Z.eqb_spec z 0); [by left|by right].
Qed.

Lemma exec_act_step n z w f s s' : exec_act n z w f s = Some s' -> exists l, step l s s' /\ (f = true_fate z -> careful l).
Proof.
  destruct s as [i fw late cs]. unfold exec_act. cbn [rm_clients].
  destruct (cs !! n) as [p|] eqn:En; simpl; [|done]. destruct (do_act z w f p _) as [[[[i' fw'] late'] p']|] eqn:E; simpl; [|done].
  intros [= <-]. destruct (do_act_act _ _ _ _ _ _ _ _ _ E) as (l & A & Cf). exists l. split; [by eapply step_act|done].
Qed.

Lemma exec_step c s s' : exec c s = Some s' -> exists l, step l s s' /\ (careful_cmd c = true -> careful l).
Proof.
  destruct s as [i fw late cs], c as [n z w|n z w f|n ch| |c|c]; unfold exec; cbn [rm_info rm_fw rm_clients rm_late].
  - intros H. destruct (exec_act_step _ _ _ _ _ _ H) as (l & St & Cf). exists l. split; [done|]. intros _. by apply Cf.
  - intros H. destruct (exec_act_step _ _ _ _ _ _ H) as (l & St & Cf). by exists l.
  - destruct (cs !! n) as [[r| | | | | | | | | |]|] eqn:En; simpl; try done. destruct (choose r ch) as [p|] eqn:E; simpl; [|done].
    intros [= <-]. destruct (choose_call _ _ _ E) as (l & C & Cf). exists l. split; [|done]. eapply step_act; [exact En|]. by constructor.
  - destruct late as [|r l]; [done|]. intros [= <-]. exists Plain. split; [|done]. by apply (step_late i fw [] r l cs).
  - case_bool_decide; [|done]. intros [= <-]. exists Plain. split; [by constructor|done].
  - case_bool_decide; [|done]. destruct (run_lock _ i) as [[z i']|] eqn:E; simpl; [|done]. intros [= <-]. exists Plain. split; [by eapply step_event|done].
Qed.

Lemma execs_any l : forall s s', execs l s = Some s' -> rtc any_step s s'.
Proof.
  induction l as [|c l IH]; intros s s'; simpl; [intros [= <-]; done|]. destruct (exec c s) as [s1|] eqn:E; simpl; [|done].
  intros H. destruct (exec_step _ _ _ E) as (lb & St & _). eapply rtc_l; [by exists lb|by apply IH].
Qed.

Lemma execs_steps l : forallb careful_cmd l = true -> forall s s', execs l s = Some s' -> rtc careful_step s s'.
Proof.
  induction l as [|c l IH]; intros Hc s s'; simpl; [intros [= <-]; done|]. simpl in Hc. apply andb_prop in Hc as [H1 H2].
  destruct (exec c s) as [s1|] eqn:E; simpl; [|done]. intros H. destruct (exec_step _ _ _ E) as (lb & St & Cf).
  eapply rtc_l; [exists lb; split; [done|by apply Cf]|by apply IH].
Qed.

Lemma execs_default l s : forallb careful_cmd l = true -> rtc careful_step s (default s (execs l s)).
Proof. intros Hc. destruct (execs l s) as [s'|] eqn:E; simpl; [by apply (execs_steps l)|apply rtc_refl]. Qed.

(** ** A device with eight connections *)

Definition demo_cfg := mk_rdma_cfg 8 4 2 2 1 2.
Definition demo_info0 := mk_qed_rdma_info (fun _ => mk_qed_bmap 0 None) false false 0 0 0 0 0 0 true.
Definition demo_info : qed_rdma_info := snd (fst (qed_rdma_alloc demo_cfg demo_info0 (mk_kmem (repeat true 20) 0))).
Definition acts (n k : nat) : list cmd := repeat (CAct n 0 0) k.

(** Thread 0 creates a queue pair and takes it to the ready-to-send state (its
    memory is at 4096 and 8192); thread 1 has created another one. *)
Definition demo_cmds : list cmd :=
  [CCall 0 (ChCreate TYPE_RC)] ++ acts 0 5 ++ [CCall 0 (ChModify INIT); CAct 0 4096 0; CAct 0 8192 0; CCall 0 (ChModify RTR)] ++ acts 0 4
  ++ [CCall 1 (ChCreate TYPE_RC)] ++ acts 1 5 ++ [CCall 0 (ChModify RTS)] ++ acts 0 5.
Definition demo_machine : machine := default (start_machine demo_info 2) (execs demo_cmds (start_machine demo_info 2)).

Definition demo_rc : machine -> list (option (Z * qed_roce_qp_state * bool * bool)) := fun s =>
  map (fun p => match p with Ret (HasQp qp _) => Some (icid qp, cur_state qp, resp_offloaded qp, req_offloaded qp) | _ => None end) (rm_clients s).
Lemma demo_run_works : demo_rc demo_machine = [Some (0, RTS, true, true); Some (2, RESET, false, false)].
Proof. vm_compute. reflexivity. Qed.

Lemma demo_alloc : qed_rdma_alloc demo_cfg demo_info0 (mk_kmem (repeat true 20) 0) = (0, demo_info, mk_kmem (repeat true 7) 13).
Proof.
  assert (H : (fst (fst (qed_rdma_alloc demo_cfg demo_info0 (mk_kmem (repeat true 20) 0))), snd (qed_rdma_alloc demo_cfg demo_info0 (mk_kmem (repeat true 20) 0)))
    = (0, mk_kmem (repeat true 7) 13)) by (vm_compute; reflexivity).
  unfold demo_info. destruct (qed_rdma_alloc demo_cfg demo_info0 (mk_kmem (repeat true 20) 0)) as [[rc i] m]. cbn [fst snd] in *. by injection H as -> ->.
Qed.
Lemma demo_empty : rdma_empty demo_info0.
Proof. by split. Qed.
Lemma demo_reached : rtc careful_step (start_machine demo_info 2) demo_machine.
Proof. by apply execs_default. Qed.




(** C33: in every careful run of the physical function (as in the property above:
    the code of a ramrod is 0 when and only when the firmware has executed it, and a
    failed modify is followed by a move to the error state) a thread's queue pair
    tells the truth between its calls: the responder (the requester) is marked as
    offloaded when and only when the firmware uses its connection, and the bit in
    the map says so; and no two threads have queue pairs with the same connection
    ids.  After a time-out with the ramrod in flight the mark is wrong
    ([timed_out_create_breaks]). *)
Theorem roce_offload_flags_exact cfg i0 m i m' n s k qp failed : rdma_empty i0 -> 2 <= num_cons cfg <= 65536 ->
  qed_rdma_alloc cfg i0 m = (0, i, m') -> rtc careful_step (start_machine i n) s -> rm_clients s !! k = Some (Ret (HasQp qp failed)) ->
  (resp_offloaded qp = true <-> rm_fw s (icid qp) = fw_used) /\ (req_offloaded qp = true <-> rm_fw s (icid qp + 1) = fw_used) /\
  (resp_offloaded qp = true -> bit_of CID_MAP (rm_info s) (icid qp) = true) /\
  (req_offloaded qp = true -> bit_of CID_MAP (rm_info s) (icid qp + 1) = true) /\
  (forall k' qp' failed', k' ≠ k -> rm_clients s !! k' = Some (Ret (HasQp qp' failed')) -> icid qp' ≠ icid qp).
Proof.
  intros E Hc H R Hp. destruct (reachable_inv _ _ _ _ _ _ _ E Hc H R) as (_ & ks & W & F).
  destruct (Forall2_lookup_l _ _ _ _ _ F Hp) as (K & HK & (o & -> & (Ho & _ & _))). destruct Ho as [Hi Hr Hic H1 H2 _ _].
  destruct (w_own _ _ _ _ _ W _ _ HK) as [_ _ T]. pose proof (T Resp) as T1. pose proof (T Req) as T2.
  unfold side_true in T1, T2. cbn [side_cid side_get] in *. rewrite Hi in *. rewrite Hic.
  assert (Q : forall s' f b, quiet s' = true -> stat s' f b -> f ≠ fw_used) by (intros [] [] b; naive_solver).
  split; [|split; [|split; [|split]]].
  - destruct (resp_offloaded qp); [rewrite H1 in T1; naive_solver|]. split; [done|]. intros C. by destruct (Q _ _ _ H1 T1).
  - destruct (req_offloaded qp); [rewrite H2 in T2; naive_solver|]. split; [done|]. intros C. by destruct (Q _ _ _ H2 T2).
  - intros C. rewrite C in H1. rewrite H1 in T1. naive_solver.
  - intros C. rewrite C in H2. rewrite H2 in T2. naive_solver.
  - intros k' qp' f' Hk Hp'. destruct (Forall2_lookup_l _ _ _ _ _ F Hp') as (K' & HK' & (o' & -> & ([Hi' _ Hic' _ _ _ _] & _))).
    intros C. apply Hk. eapply (w_alone _ _ _ _ _ W); [exact HK'|exact HK|]. rewrite Hic' in C. simpl in C. lia.
Qed.

(** The queue pairs of the two threads. *)
Lemma roce_offload_flags_exact_witness : exists qp : qed_rdma_qp, rm_clients demo_machine !! 0%nat = Some (Ret (HasQp qp false)) /\ icid qp = 0 /\
  (resp_offloaded qp = true <-> rm_fw demo_machine 0 = fw_used) /\
  (forall k' qp' failed', k' ≠ 0%nat -> rm_clients demo_machine !! k' = Some (Ret (HasQp qp' failed')) -> icid qp' ≠ 0).
Proof.
  exists (mk_qed_rdma_qp 0 0 RTS TYPE_RC true true true true 0 0 4096 8192). split; [vm_compute; reflexivity|]. split; [reflexivity|].
  destruct (roce_offload_flags_exact demo_cfg demo_info0 (mk_kmem (repeat true 20) 0) demo_info _ 2 demo_machine 0
    (mk_qed_rdma_qp 0 0 RTS TYPE_RC true true true true 0 0 4096 8192) false demo_empty ltac:(simpl; lia) demo_alloc demo_reached ltac:(vm_compute; reflexivity))
    as (H1 & _ & _ & _ & H5). split; [exact H1|exact H5].
Defined.

(** ** Memory *)

(** C34: whatever allocations fail, [qed_rdma_free] after [qed_rdma_alloc] (which the
    start-up does when the allocation or anything after it fails) touches no bit
    outside the maps and gives back exactly the memory that was taken. *)
Theorem rdma_alloc_free_balanced cfg i0 m rc i m1 : rdma_empty i0 -> qed_rdma_alloc cfg i0 m = (rc, i, m1) ->
  exists i' m2, qed_rdma_free i m1 = Some (i', m2) /\ km_live m2 = km_live m /\ blocks i' = 0.
Proof. intros E H. apply rdma_free_spec. exact (proj1 (rdma_alloc_spec _ _ _ _ _ _ E H)). Qed.

(** The sixth block (the fourth map) cannot be had. *)
Lemma rdma_alloc_free_balanced_witness : let '(rc, i, m1) := qed_rdma_alloc demo_cfg demo_info0 (mk_kmem (repeat true 5) 100) in
  rc = - ENOMEM /\ km_live m1 = 105 /\ exists i' m2, qed_rdma_free i m1 = Some (i', m2) /\ km_live m2 = 100 /\ blocks i' = 0.
Proof.
  pose proof (rdma_alloc_free_balanced demo_cfg demo_info0 (mk_kmem (repeat true 5) 100)) as H.
  assert (X : (fst (fst (qed_rdma_alloc demo_cfg demo_info0 (mk_kmem (repeat true 5) 100))),
    km_live (snd (qed_rdma_alloc demo_cfg demo_info0 (mk_kmem (repeat true 5) 100)))) = (- ENOMEM, 105)) by (vm_compute; reflexivity).
  destruct (qed_rdma_alloc demo_cfg demo_info0 (mk_kmem (repeat true 5) 100)) as [[rc i] m1]. simpl in X. injection X as -> ->.
  split; [reflexivity|]. split; [reflexivity|]. exact (H _ _ _ demo_empty eq_refl).
Defined.

(** ** Completion queues *)

Lemma u16_id start cnt id : 0 <= start -> start + cnt <= 65536 -> 0 <= id < cnt -> u16 (id + start) = start + id.
Proof. intros. unfold u16. rewrite Z.mod_small; lia. Qed.
Lemma u32_rel start cnt id : 0 <= start -> start + cnt <= 65536 -> 0 <= id < cnt -> u32 (start + id - start) = id.
Proof. intros. unfold u32. rewrite Z.mod_small; lia. Qed.

(** The creation of a completion queue does all or nothing: when any of its
    steps fails (no free id, no ILT page, the parser, the entry, the ramrod) all
    maps, the toggle bits included, are as before; otherwise one id that was free is
    taken, its toggle bit is flipped, and the firmware was told the new bit. *)
Theorem create_cq_all_or_nothing start cnt i o : map_ok CQ_MAP cnt i -> map_ok TOGGLE_BITS cnt i -> 0 <= cnt -> 0 <= start -> start + cnt <= 65536 ->
  exists rc icid i' t, run_seq o (qed_rdma_create_cq_inner start) i = Some ((rc, icid), i', t) /\
    (rc ≠ 0 /\ maps_same i i' \/
     rc = 0 /\ exists id w, 0 <= id < cnt /\ icid = start + id /\ bit_of CQ_MAP i id = false /\
       (forall id', 0 <= id' -> bit_of CQ_MAP i' id' = if id' =? id then true else bit_of CQ_MAP i id') /\
       (forall id', 0 <= id' -> bit_of TOGGLE_BITS i' id' = xorb (bit_of TOGGLE_BITS i id') (id' =? id)) /\
       t = [(CreateCq icid (Z.b2z (bit_of TOGGLE_BITS i' id)), 0, w)]).
Proof.
  intros Hc Ht Hn Hs Hm. unfold qed_rdma_create_cq_inner.
  destruct (release_after_alloc CQ_MAP cnt i Hc Hn) as [(i1 & E & S)|(id & i1 & Hi & E & Hb & O & Rel)].
  { cbn [lock pbind run_seq]. rewrite E. eexists _, _, _, _. split; [reflexivity|]. by left. }
  cbn [lock pbind run_seq]. rewrite E. cbn [mbind option_bind]. replace (id <? 0) with false by lia.
  assert (Err : forall o (rc : Z) j, maps_same i1 j -> exists i',
    run_seq o (pbind (lock (LRelease CQ_MAP id)) (fun _ => Ret (rc, u16 (id + start)))) j = Some ((rc, u16 (id + start)), i', []) /\ maps_same i i').
  { intros o' rc j Hj. destruct (Rel j Hj) as (i2 & E2 & S2). cbn [lock pbind run_seq]. rewrite E2. eexists. by split. }
  assert (Fail : forall o (rc : Z) j, rc ≠ 0 -> maps_same i1 j -> exists rc' icid i' t,
    run_seq o (pbind (lock (LRelease CQ_MAP id)) (fun _ => Ret (rc, u16 (id + start)))) j = Some ((rc', icid), i', t) /\ rc' ≠ 0 /\ maps_same i i').
  { intros o' rc j Hrc Hj. destruct (Err o' rc j Hj) as (i' & E' & S'). eexists _, _, _, _. by split. }
  cbn [run_seq]. destruct (answer o) as [rc o1]. destruct (Z.eqb_spec rc 0) as [->|Hrc]; cbn [negb].
  2: { destruct (Fail o1 rc i1 Hrc) as (rc' & ic & i' & t & E' & F); [done|]. exists rc', ic, i', t. split; [exact E'|by left]. }
  cbn [run_seq]. destruct (answer o1) as [rc o2]. destruct (Z.eqb_spec rc 0) as [->|Hrc]; cbn [negb].
  2: { destruct (Fail o2 rc i1 Hrc) as (rc' & ic & i' & t & E' & F); [done|]. exists rc', ic, i', t. split; [exact E'|by left]. }
  cbn [run_seq]. destruct (answer o2) as [rc o3]. destruct (Z.eqb_spec rc 0) as [->|Hrc]; cbn [negb].
  2: { destruct (Fail o3 rc i1 Hrc) as (rc' & ic & i' & t & E' & F); [done|]. exists rc', ic, i', t. split; [exact E'|by left]. }
  rewrite (u16_id start cnt id) in * by lia. unfold qed_rdma_toggle_bit_create_resize_cq. rewrite (u32_rel start cnt id) by lia.
  destruct (toggle_twice id cnt i1) as (i2 & E2 & O2 & T2); [by eapply map_ok_other|lia|].
  cbn [lock post pbind run_seq]. rewrite E2. cbn [mbind option_bind run_seq fst snd]. destruct (answer o3) as [rc o4]. destruct (answer o4) as [w o5].
  destruct (Z.eqb_spec rc 0) as [->|Hrc]; cbn [negb].
  - cbn [run_seq mbind option_bind]. eexists _, _, _, _. split; [reflexivity|]. right. split; [done|]. exists id, w.
    pose proof (bit_of_other _ TOGGLE_BITS _ _ _ _ O ltac:(done)) as B1. pose proof (bit_of_other _ CQ_MAP _ _ _ _ O2 ltac:(done)) as B2.
    split; [done|]. split; [done|]. split; [done|]. split; [intros id' H'; rewrite B2; by apply O|].
    assert (B3 : forall id', 0 <= id' -> bit_of TOGGLE_BITS i2 id' = xorb (bit_of TOGGLE_BITS i id') (id' =? id)).
    { intros id' H'. rewrite (ob_bit _ _ _ _ _ O2), !B1 by done. destruct (Z.eqb_spec id' id) as [->|]; [by rewrite xorb_true_r|by rewrite xorb_false_r]. }
    split; [exact B3|]. by rewrite B3, B1, Z.eqb_refl, xorb_true_r by lia.
  - destruct (T2 i2 ltac:(done)) as (i3 & z & E3 & S3). destruct (Err o5 rc i3 S3) as (i' & E' & S').
    cbn [lock pbind run_seq] in E' |- *. rewrite E3. cbn [mbind option_bind lock pbind run_seq] in E' |- *. rewrite E'. eexists _, _, _, _. split; [reflexivity|]. by left.
Qed.

Lemma demo_maps_ok : map_ok CQ_MAP 8 demo_info /\ map_ok TOGGLE_BITS 8 demo_info.
Proof. split; vm_compute; (split; [reflexivity|intros [=]]). Qed.

(** The ramrod fails, then it does not. *)
Lemma create_cq_all_or_nothing_witness : exists rc icid i' t,
  run_seq [0; 0; 0; - EBUSY; 0] (qed_rdma_create_cq_inner 16) demo_info = Some ((rc, icid), i', t) /\ rc = - EBUSY /\ icid = 16 /\ maps_same demo_info i'.
Proof.
  destruct (create_cq_all_or_nothing 16 8 demo_info [0; 0; 0; - EBUSY; 0] (proj1 demo_maps_ok) (proj2 demo_maps_ok)
    ltac:(lia) ltac:(lia) ltac:(lia)) as (rc & icid & i' & t & E & D).
  assert (X : (fun r => fst (fst r)) <$> run_seq [0; 0; 0; - EBUSY; 0] (qed_rdma_create_cq_inner 16) demo_info = Some (- EBUSY, 16)) by (vm_compute; reflexivity).
  rewrite E in X. simpl in X. injection X as X1 X2. exists rc, icid, i', t. split; [exact E|]. split; [exact X1|]. split; [exact X2|].
  destruct D as [[_ D]|[D _]]; [exact D|]. rewrite X1 in D. discriminate D.
Defined.

(** ** Shared receive queues *)

(** The same of shared receive queues of both kinds. *)
Theorem create_srq_all_or_nothing is_xrc supported offset cnt i o : map_ok (qed_rdma_get_srq_bmap is_xrc) cnt i -> 0 <= cnt ->
  exists rc id i' t, run_seq o (qed_rdma_create_srq_inner is_xrc supported offset) i = Some ((rc, id), i', t) /\
    (rc ≠ 0 /\ maps_same i i' \/
     rc = 0 /\ exists id0 w, 0 <= id0 < cnt /\ id = u16 (id0 + offset) /\ bit_of (qed_rdma_get_srq_bmap is_xrc) i id0 = false /\
       one_bit (qed_rdma_get_srq_bmap is_xrc) id0 true i i' /\ t = [(CreateSrq id, 0, w)]).
Proof.
  intros Hm Hc. unfold qed_rdma_create_srq_inner. destruct (is_xrc && negb supported).
  { eexists _, _, _, _. split; [reflexivity|]. by left. }
  destruct (release_after_alloc _ cnt i Hm Hc) as [(i1 & E & S)|(id & i1 & Hi & E & Hb & O & Rel)].
  { cbn [lock pbind run_seq]. rewrite E. eexists _, _, _, _. split; [reflexivity|]. by left. }
  destruct (Rel i1 ltac:(done)) as (i2 & E2 & S2).
  cbn [lock pbind run_seq request post]. rewrite E. cbn [mbind option_bind run_seq]. replace (id <? 0) with false by lia. cbn [run_seq].
  destruct (answer o) as [rc o1]. destruct (Z.eqb_spec rc 0) as [->|Hrc]; cbn [negb lock pbind run_seq request post].
  2: { rewrite E2. eexists _, _, _, _. split; [reflexivity|]. by left. }
  destruct (answer o1) as [rc o2]. destruct (Z.eqb_spec rc 0) as [->|Hrc]; cbn [negb lock pbind run_seq request post fst snd].
  2: { replace (rc =? 0) with false by lia. cbn [negb run_seq]. rewrite E2. eexists _, _, _, _. split; [reflexivity|]. by left. }
  destruct (answer o2) as [rc o3], (answer o3) as [w o4]. destruct (Z.eqb_spec rc 0) as [->|Hrc]; cbn [negb run_seq].
  - eexists _, _, _, _. split; [reflexivity|]. right. split; [done|]. by exists id, w.
  - rewrite E2. eexists _, _, _, _. split; [reflexivity|]. by left.
Qed.

(** ** Memory regions *)

(** One request: no entry, a ramrod that failed, or one that went through. *)
Lemma send_deregister_seq {A} itid i o (f : Z * Z -> proc A) : exists rc w o' l,
  run_seq o (pbind (qed_rdma_send_deregister_tid_ramrod itid) f) i = ('(a, i, t) ← run_seq o' (f (rc, w)) i; Some (a, i, l ++ t)) /\
  (rc ≠ 0 /\ l = [] \/ l = [(DeregisterMr itid, rc, w)]).
Proof.
  unfold qed_rdma_send_deregister_tid_ramrod, request, post. cbn [pbind run_seq]. destruct (answer o) as [rc o1].
  destruct (Z.eqb_spec rc 0) as [->|Hrc]; cbn [negb pbind run_seq].
  - destruct (answer o1) as [rc o2] eqn:E1, (answer o2) as [w o3] eqn:E2. exists rc, w, o3, [(DeregisterMr itid, rc, w)].
    split; [|by right]. done.
  - exists rc, 0, o1, []. split; [|by left]. by destruct (run_seq o1 (f (rc, 0)) i) as [[[a i'] t]|].
Qed.

(** At most [n] ramrods, the code is 0 when and only when the last one succeeded. *)
Definition verdict (n : nat) (itid : Z) (i : qed_rdma_info) (o : list Z) (p : proc Z) : Prop :=
  exists rc i' t, run_seq o p i = Some (rc, i', t) /\ i' = i /\ (length t <= n)%nat /\
    Forall (fun x => fst (fst x) = DeregisterMr itid) t /\ (rc = 0 <-> t !! pred (length t) = Some (DeregisterMr itid, 0, RDMA_RETURN_OK)).

Lemma verdict_send n itid i o (f : Z * Z -> proc Z) :
  (forall rc w, rc ≠ 0 -> f (rc, w) = Ret rc) ->
  (forall w, f (0, w) = Ret (if w =? RDMA_RETURN_OK then 0 else - EINVAL) \/ w ≠ RDMA_RETURN_OK /\ forall o, verdict n itid i o (f (0, w))) ->
  verdict (S n) itid i o (pbind (qed_rdma_send_deregister_tid_ramrod itid) f).
Proof.
  intros Hf Hw. destruct (send_deregister_seq itid i o f) as (rc & w & o1 & l & E & Hl). unfold verdict. rewrite E.
  destruct (decide (rc = 0)) as [->|Hrc].
  - destruct Hl as [[? _]| ->]; [done|]. destruct (Hw w) as [Ew|[Hn V]].
    + rewrite Ew. eexists _, _, _. split; [reflexivity|]. split; [done|]. split; [simpl; lia|]. split; [by repeat constructor|]. simpl.
      unfold RDMA_RETURN_OK. destruct (Z.eqb_spec w 0) as [->|]; [done|]. split; [done|]. intros [=]. lia.
    + destruct (V o1) as (rc & i' & t & E' & -> & Hl & Hd & Hv). rewrite E'. eexists _, _, _. split; [reflexivity|]. split; [done|].
      split; [simpl; lia|]. split; [by constructor|]. rewrite Hv. destruct t as [|x t]; [|done]. simpl. split; [done|]. by intros [= ->].
  - rewrite Hf by done. eexists _, _, _. split; [reflexivity|]. split; [done|].
    destruct Hl as [[_ ->]| ->]; (split; [simpl; lia|]); (split; [by repeat constructor|]); simpl; split; try done. intros [=]. lia.
Qed.

(** A memory region is deregistered with at most three ramrods, and the code is 0
    when and only when the last of them went through and the firmware said that the
    region is gone. *)
Theorem deregister_tid_verdict itid i o : exists rc i' t, run_seq o (qed_rdma_deregister_tid_inner itid) i = Some (rc, i', t) /\
  i' = i /\ (length t <= 3)%nat /\ Forall (fun x => fst (fst x) = DeregisterMr itid) t /\
  (rc = 0 <-> t !! pred (length t) = Some (DeregisterMr itid, 0, RDMA_RETURN_OK)).
Proof.
  assert (Ret0 : forall n rc j o', rc ≠ 0 -> verdict n itid j o' (Ret rc)).
  { intros n rc j o' H. exists rc, j, []. split; [done|]. split; [done|]. split; [simpl; lia|]. split; [done|]. by split. }
  apply (verdict_send 2). { intros rc w Hrc. by replace (rc =? 0) with false by lia. }
  intros w. simpl. destruct (Z.eqb_spec w RDMA_RETURN_NIG_DRAIN_REQ) as [->|]; [right; split; [done|]|by left]. intros o2.
  apply (verdict_send 1). { intros rc w Hrc. by replace (rc =? 0) with false by lia. }
  intros w. simpl. destruct (Z.eqb_spec w RDMA_RETURN_NIG_DRAIN_REQ) as [->|]; [right; split; [done|]|by left]. intros o3.
  unfold verdict. cbn [run_seq negb]. destruct (answer o3) as [rc o4]. destruct (Z.eqb_spec rc 0) as [->|Hrc]; cbn [negb]; [|by apply Ret0].
  apply (verdict_send 0). { intros rc w Hrc. by replace (rc =? 0) with false by lia. }
  intros w. by left.
Qed.

(** ** Where the code does not do what it means to *)

Definition rdma_qp_of (st : qed_roce_qp_state) (offloaded : bool) : qed_rdma_qp := mk_qed_rdma_qp 0 0 st TYPE_RC offloaded true offloaded true 0 0 4096 8192.

(** Connection ids that begin at 8: the first queue pair's responder is still in use
    (bit 0, which [qed_roce_sp_create_responder] sets and [qed_roce_free_icid]
    clears), but the wait tests bits 8 and 9 and finds the queue pair free. *)
Definition busy_cid0 : qed_rdma_info := set_map CID_MAP (mk_qed_bmap 32 (Some (mk_bitmap 64 1))) demo_info.
Theorem wait_free_cids_wrong_bits :
  qed_roce_free_icid 8 (qed_roce_qp_idx_to_icid 8 0) = LRelease CID_MAP 0 /\ bit_of CID_MAP busy_cid0 0 = true /\
  option_map (fun r => fst (fst r)) (run_seq [] (qed_roce_wait_free_cids 8 0) busy_cid0) = Some 0.
Proof. vm_compute. done. Qed.

(** The wait for the create ramrod of a move to RTR times out while the ramrod is
    in flight.  The thread moves its queue pair to the error state and destroys it,
    with no ramrod, and the firmware executes the create: it uses connection 0,
    whose queue pair is gone and whose index is free.  The next queue pair gets the
    index, and its create ramrod is for a connection that the firmware has. *)
Definition timed_out_cmds : list cmd :=
  [CCall 0 (ChCreate TYPE_RC)] ++ acts 0 5 ++ [CCall 0 (ChModify INIT); CAct 0 4096 0; CAct 0 8192 0; CCall 0 (ChModify RTR)] ++ acts 0 2
  ++ [CFate 0 (- EBUSY) 0 Late] ++ acts 0 2 ++ [CCall 0 (ChModify ERR); CAct 0 4096 0; CAct 0 8192 0; CCall 0 ChDestroy] ++ acts 0 3 ++ [CLate]
  ++ [CCall 1 (ChCreate TYPE_RC)] ++ acts 1 5 ++ [CCall 1 (ChModify INIT); CAct 1 4096 0; CAct 1 8192 0; CCall 1 (ChModify RTR)] ++ acts 1 2.
Theorem timed_out_create_breaks : exists s, rtc any_step (start_machine demo_info 2) s /\
  match rm_clients s !! 1%nat with Some (Ramrod (CreateQp 0) _) => True | _ => False end /\ rm_fw s 0 = fw_used /\
  match rm_clients s !! 0%nat with Some (Ret NoQp) => True | _ => False end.
Proof.
  destruct (execs timed_out_cmds (start_machine demo_info 2)) as [s|] eqn:E; [|vm_compute in E; discriminate E].
  exists s. split; [by apply (execs_any timed_out_cmds)|]. vm_compute in E. injection E as <-. done.
Qed.

(** The create ramrod of a move to RTR fails; tried again, the move succeeds with no
    ramrod at all, and the queue pair is in RTR without a responder. *)
Theorem retried_rtr_creates_nothing : exists qp1 i1 t1 qp2 i2,
  run_seq [0; - EBUSY; 0; 0] (qed_rdma_modify_qp 0 (Some RTR) (rdma_qp_of INIT false)) demo_info = Some ((- EBUSY, qp1), i1, t1) /\
  run_seq [4096; 8192] (qed_rdma_modify_qp 0 (Some RTR) qp1) i1 = Some ((0, qp2), i2, []) /\
  cur_state qp2 = RTR /\ resp_offloaded qp2 = false.
Proof.
  eexists _, _, _, _, _. split; [lazy; reflexivity|]. split; [lazy; reflexivity|]. done.
Qed.

(** The destroy ramrod of a move to RESET fails; the queue pair is then destroyed
    with no ramrod: its index is free again while the firmware has both of its
    connections. *)
Theorem failed_reset_forgets_connections : exists qp1 i1 t1 qp2 i2,
  run_seq [0; 4096; - EBUSY; 0] (qed_rdma_modify_qp 0 (Some RESET) (rdma_qp_of ERR true)) demo_info = Some ((- EBUSY, qp1), i1, t1) /\
  run_seq [] (qed_roce_destroy_qp qp1) i1 = Some ((0, (0, 0), qp2), i2, []) /\ resp_offloaded qp2 = true /\ req_offloaded qp2 = true.
Proof.
  eexists _, _, _, _, _. split; [lazy; reflexivity|]. split; [lazy; reflexivity|]. done.
Qed.

(** A modify of a queue pair in use fails: its queues of outstanding requests are
    freed although the firmware still has them. *)
Theorem failed_modify_frees_queues_in_use : exists qp1 i1 t1,
  run_seq [0; - EBUSY; 0] (qed_rdma_modify_qp 0 (Some SQD) (rdma_qp_of RTS true)) demo_info = Some ((- EBUSY, qp1), i1, t1) /\
  resp_offloaded qp1 = true /\ req_offloaded qp1 = true /\ irq qp1 = 0 /\ orq qp1 = 0.
Proof.
  eexists _, _, _. split; [lazy; reflexivity|]. done.
Qed.

(** No ILT page for a memory region: the id stays taken. *)
Theorem alloc_tid_leaks_id : exists r i', run_seq [- ENOMEM] qed_rdma_alloc_tid_inner demo_info = Some ((- ENOMEM, r), i', []) /\
  bit_of TID_MAP demo_info r = false /\ bit_of TID_MAP i' r = true.
Proof. eexists _, _. split; [lazy; reflexivity|]. done. Qed.

(** A resize that fails leaves the toggle bit flipped. *)
Theorem failed_resize_keeps_toggle : exists i' t,
  run_seq [4096; 0; - EBUSY; 0] (qed_rdma_resize_cq_inner 0 3) demo_info = Some (- EBUSY, i', t) /\
  bit_of TOGGLE_BITS demo_info 3 = false /\ bit_of TOGGLE_BITS i' 3 = true.
Proof. eexists _, _. split; [lazy; reflexivity|]. done. Qed.
