(* ===== verification/Vfpf.v ===== *)
(** * The channel between virtual and physical function (qed_vf.c, qed_sriov.c)

    A virtual function (VF) puts a list of TLVs in its memory and rings the
    channel; the physical function (PF) copies the request, handles it, and copies
    a list of TLVs back, the eight bytes with the status last.  Besides, the PF
    posts a bulletin in the memory of the VF, with a checksum and a version.  Memory
    is a list of bytes; an access out of range is a fault ([None]). *)

From S2P Require Import Prelude.

(** ** TLVs *)

Definition buffer := list Z.

Definition get8 (off : Z) (b : buffer) : option Z := if off <? 0 then None else b !! Z.to_nat off.
Definition set8 (off v : Z) (b : buffer) : option buffer :=
  if (0 <=? off) && (off <? Z.of_nat (length b)) then Some (<[Z.to_nat off := u8 v]> b) else None.
Definition get16 (off : Z) (b : buffer) : option Z := lo ← get8 off b; hi ← get8 (off + 1) b; Some (lo + 256 * hi).
Definition set16 (off v : Z) (b : buffer) : option buffer := b ← set8 off v b; set8 (off + 1) (v / 256) b.

(** The types of TLVs. *)
Definition CHANNEL_TLV_NONE : Z := 0.
Definition CHANNEL_TLV_ACQUIRE : Z := 1.
Definition CHANNEL_TLV_VPORT_START : Z := 2.
Definition CHANNEL_TLV_VPORT_UPDATE : Z := 3.
Definition CHANNEL_TLV_VPORT_TEARDOWN : Z := 4.
Definition CHANNEL_TLV_START_RXQ : Z := 5.
Definition CHANNEL_TLV_START_TXQ : Z := 6.
Definition CHANNEL_TLV_STOP_RXQS : Z := 7.
Definition CHANNEL_TLV_STOP_TXQS : Z := 8.
Definition CHANNEL_TLV_UPDATE_RXQ : Z := 9.
Definition CHANNEL_TLV_INT_CLEANUP : Z := 10.
Definition CHANNEL_TLV_CLOSE : Z := 11.
Definition CHANNEL_TLV_RELEASE : Z := 12.
Definition CHANNEL_TLV_LIST_END : Z := 13.
Definition CHANNEL_TLV_UCAST_FILTER : Z := 14.
Definition CHANNEL_TLV_VPORT_UPDATE_ACTIVATE : Z := 15.
Definition CHANNEL_TLV_VPORT_UPDATE_TX_SWITCH : Z := 16.
Definition CHANNEL_TLV_VPORT_UPDATE_VLAN_STRIP : Z := 17.
Definition CHANNEL_TLV_VPORT_UPDATE_MCAST : Z := 18.
Definition CHANNEL_TLV_VPORT_UPDATE_ACCEPT_PARAM : Z := 19.
Definition CHANNEL_TLV_VPORT_UPDATE_RSS : Z := 20.
Definition CHANNEL_TLV_VPORT_UPDATE_ACCEPT_ANY_VLAN : Z := 21.
Definition CHANNEL_TLV_VPORT_UPDATE_SGE_TPA : Z := 22.
Definition CHANNEL_TLV_UPDATE_TUNN_PARAM : Z := 23.
Definition CHANNEL_TLV_COALESCE_UPDATE : Z := 24.
Definition CHANNEL_TLV_QID : Z := 25.
Definition CHANNEL_TLV_COALESCE_READ : Z := 26.
Definition CHANNEL_TLV_BULLETIN_UPDATE_MAC : Z := 27.
Definition CHANNEL_TLV_UPDATE_MTU : Z := 28.
Definition CHANNEL_TLV_RDMA_ACQUIRE : Z := 29.
Definition CHANNEL_TLV_RDMA_START : Z := 30.
Definition CHANNEL_TLV_RDMA_STOP : Z := 31.
Definition CHANNEL_TLV_RDMA_ADD_USER : Z := 32.
Definition CHANNEL_TLV_RDMA_REMOVE_USER : Z := 33.
Definition CHANNEL_TLV_RDMA_QUERY_COUNTERS : Z := 34.
Definition CHANNEL_TLV_RDMA_ALLOC_TID : Z := 35.
Definition CHANNEL_TLV_RDMA_REGISTER_TID : Z := 36.
Definition CHANNEL_TLV_RDMA_DEREGISTER_TID : Z := 37.
Definition CHANNEL_TLV_RDMA_FREE_TID : Z := 38.
Definition CHANNEL_TLV_RDMA_CREATE_CQ : Z := 39.
Definition CHANNEL_TLV_RDMA_RESIZE_CQ : Z := 40.
Definition CHANNEL_TLV_RDMA_DESTROY_CQ : Z := 41.
Definition CHANNEL_TLV_RDMA_CREATE_QP : Z := 42.
Definition CHANNEL_TLV_RDMA_MODIFY_QP : Z := 43.
Definition CHANNEL_TLV_RDMA_QUERY_QP : Z := 44.
Definition CHANNEL_TLV_RDMA_DESTROY_QP : Z := 45.
Definition CHANNEL_TLV_RDMA_QUERY_PORT : Z := 46.
Definition CHANNEL_TLV_RDMA_QUERY_DEVICE : Z := 47.
Definition CHANNEL_TLV_RDMA_IWARP_CONNECT : Z := 48.
Definition CHANNEL_TLV_RDMA_IWARP_ACCEPT : Z := 49.
Definition CHANNEL_TLV_RDMA_IWARP_CREATE_LISTEN : Z := 50.
Definition CHANNEL_TLV_RDMA_IWARP_DESTROY_LISTEN : Z := 51.
Definition CHANNEL_TLV_RDMA_IWARP_PAUSE_LISTEN : Z := 52.
Definition CHANNEL_TLV_RDMA_IWARP_REJECT : Z := 53.
Definition CHANNEL_TLV_RDMA_IWARP_SEND_RTR : Z := 54.
Definition CHANNEL_TLV_ESTABLISH_LL2_CONN : Z := 55.
Definition CHANNEL_TLV_TERMINATE_LL2_CONN : Z := 56.
Definition CHANNEL_TLV_ASYNC_EVENT : Z := 57.
Definition CHANNEL_TLV_RDMA_CREATE_SRQ : Z := 58.
Definition CHANNEL_TLV_RDMA_MODIFY_SRQ : Z := 59.
Definition CHANNEL_TLV_RDMA_DESTROY_SRQ : Z := 60.
Definition CHANNEL_TLV_SOFT_FLR : Z := 61.
Definition CHANNEL_TLV_FILTER_CFG : Z := 62.
Definition CHANNEL_TLV_MAX : Z := 63.

(** [enum {PFVF_STATUS_...}]. *)
Definition PFVF_STATUS_WAITING : Z := 0.
Definition PFVF_STATUS_SUCCESS : Z := 1.
Definition PFVF_STATUS_FAILURE : Z := 2.
Definition PFVF_STATUS_NOT_SUPPORTED : Z := 3.
Definition PFVF_STATUS_FORCED : Z := 5.
Definition PFVF_STATUS_MALICIOUS : Z := 6.

Definition TLV_BUFFER_SIZE : Z := 1024.
(** [sizeof(struct channel_list_end_tlv)], [sizeof(struct pfvf_def_resp_tlv)]. *)
Definition sizeof_list_end : Z := 8.
Definition sizeof_def_resp : Z := 8.
(** The offsets of [type], [length] and of the status of a response. *)
Definition tlv_type (off : Z) (b : buffer) : option Z := get16 off b.
Definition tlv_length (off : Z) (b : buffer) : option Z := get16 (off + 2) b.
Definition status_offset : Z := 4.

Definition qed_iov_tlv_supported (tlvtype : Z) : bool := (CHANNEL_TLV_NONE <? tlvtype) && (tlvtype <? CHANNEL_TLV_MAX).

(** The start of the TLV, the buffer and the offset after it. *)
Definition qed_add_tlv (off type length : Z) (b : buffer) : option (Z * buffer * Z) :=
  b ← set16 off (u16 type) b; b ← set16 (off + 2) (u16 length) b;
  Some (off + u16 length - u16 length, b, off + u16 length).

(** The offset of the TLV, [None] for NULL. *)
Fixpoint search_loop (fuel : nat) (p_tlv len req_type : Z) (b : buffer) : option (option Z) :=
  match fuel with
  | O => None
  | S fuel =>
      length ← tlv_length p_tlv b;
      if length =? 0 then Some None else
      type ← tlv_type p_tlv b;
      if type =? req_type then Some (Some p_tlv) else
      let len := len + length in
      let p_tlv := p_tlv + length in
      length ← tlv_length p_tlv b;
      if TLV_BUFFER_SIZE <? len + length then Some None else
      type ← tlv_type p_tlv b;
      if type =? CHANNEL_TLV_LIST_END then Some None else search_loop fuel p_tlv len req_type b
  end.

(** Every TLV that is passed takes a byte of the buffer at least. *)
Definition search_fuel : nat := Z.to_nat (TLV_BUFFER_SIZE + 2).
#[global] Arguments search_fuel : simpl never.
Definition qed_iov_search_list_tlvs (req_type : Z) (b : buffer) : option (option Z) := search_loop search_fuel 0 0 req_type b.

(** The walk that prints a list; [None] when it does not end within the fuel. *)
Fixpoint dp_tlv_loop (fuel : nat) (total_length : Z) (b : buffer) : option unit :=
  match fuel with
  | O => None
  | S fuel =>
      type ← tlv_type total_length b;
      if type =? CHANNEL_TLV_LIST_END then Some tt else
      length ← tlv_length total_length b;
      if length =? 0 then Some tt else
      let total_length := u16 (total_length + length) in
      if TLV_BUFFER_SIZE <=? total_length then Some tt else dp_tlv_loop fuel total_length b
  end.

(** ** Requests and responses *)

(** The VF's side of the mailbox: [offset], the two buffers, and the address of the
    reply buffer. *)
Record qed_vf_iov := mk_qed_vf_iov { vf_offset : Z; vf2pf_request : buffer; pf2vf_reply : buffer; pf2vf_reply_phys : Z }.

Fixpoint set_bytes (off : Z) (n : nat) (v : Z) (b : buffer) : option buffer :=
  match n with O => Some b | S n => b ← set8 off v b; set_bytes (off + 1) n (v / 256) b end.

(** Both buffers cleared, the first TLV and the address of the reply put in. *)
Definition qed_vf_pf_prep (type length : Z) (v : qed_vf_iov) : option qed_vf_iov :=
  let request := replicate (List.length (vf2pf_request v)) 0 in
  let reply := replicate (List.length (pf2vf_reply v)) 0 in
  '(start, request, off) ← qed_add_tlv 0 type length request;
  request ← set_bytes (start + 8) 8 (pf2vf_reply_phys v) request;
  Some (mk_qed_vf_iov off request reply (pf2vf_reply_phys v)).

Definition QED_VF_CHANNEL_ITERATIONS : nat := 200.

(** The two loops that poll [done]: [done i] is what the [i]-th read of it gives.
    The code and the number of reads. *)
Fixpoint poll_done (n : nat) (i : nat) (done : nat -> Z) : bool * nat :=
  match n with
  | O => (negb (done i =? 0), S i)
  | S n => if negb (done i =? 0) then (true, S i) else poll_done n (S i) done
  end.
(** [alive]: the channel is not dead.  (The writes that ring the channel are the step
    [OSend] of [VfChan].) *)
Definition qed_send_msg2pf (alive : bool) (done : nat -> Z) : Z * nat :=
  if negb alive then (- EINVAL, O) else
  let '(_, i) := poll_done QED_VF_CHANNEL_ITERATIONS 0 done in
  let '(_, i) := poll_done QED_VF_CHANNEL_ITERATIONS i done in
  (if negb (done i =? 0) then 0 else - EBUSY, S i).
#[global] Arguments QED_VF_CHANNEL_ITERATIONS : simpl never.

(** The PF's side: the copy of the request, the response, the offset in it, whether
    a message waits. *)
Record qed_iov_vf_mbx := mk_qed_iov_vf_mbx { req_virt : buffer; reply_virt : buffer; mbx_offset : Z; b_pending_msg : bool }.
#[export] Instance eta_qed_iov_vf_mbx : Settable qed_iov_vf_mbx := fun r =>
  mk_qed_iov_vf_mbx (req_virt r) (reply_virt r) (mbx_offset r) (b_pending_msg r).
Implicit Types (mbx : qed_iov_vf_mbx).

(** What is done to the device: a part of the response is copied to the VF by the
    DMA engine, from byte [first] up to [last]; the channel is ready again; the
    management firmware is asked to reset the VF. *)
Inductive pf_action := CopyReply (first last : Z) | ChannelReady | VfFlr.

Definition sizeof_pfvf_tlvs mbx : Z := Z.of_nat (length (reply_virt mbx)).

Definition qed_iov_send_response (status : Z) mbx : option (qed_iov_vf_mbx * list pf_action) :=
  r ← set8 status_offset status (reply_virt mbx);
  let mbx := mbx <| reply_virt := r |> in
  Some (mbx, [CopyReply 8 (sizeof_pfvf_tlvs mbx); ChannelReady; CopyReply 0 8]).

Definition mbx_add_tlv (type length : Z) mbx : option (Z * qed_iov_vf_mbx) :=
  '(start, r, off) ← qed_add_tlv (mbx_offset mbx) type length (reply_virt mbx);
  Some (start, mbx <| reply_virt := r |> <| mbx_offset := off |>).

Definition qed_iov_prepare_resp (type length status : Z) mbx : option (qed_iov_vf_mbx * list pf_action) :=
  let mbx := mbx <| mbx_offset := 0 |> in
  '(_, mbx) ← mbx_add_tlv type length mbx;
  '(_, mbx) ← mbx_add_tlv CHANNEL_TLV_LIST_END sizeof_list_end mbx;
  qed_iov_send_response status mbx.

(** [enum qed_iov_vport_update_flag]. *)
Definition QED_IOV_VP_UPDATE_MAX : nat := 8.
Definition qed_iov_vport_to_tlv (flag : Z) : Z :=
  if flag =? 0 then CHANNEL_TLV_VPORT_UPDATE_ACTIVATE else
  if flag =? 1 then CHANNEL_TLV_VPORT_UPDATE_VLAN_STRIP else
  if flag =? 2 then CHANNEL_TLV_VPORT_UPDATE_TX_SWITCH else
  if flag =? 3 then CHANNEL_TLV_VPORT_UPDATE_MCAST else
  if flag =? 4 then CHANNEL_TLV_VPORT_UPDATE_ACCEPT_PARAM else
  if flag =? 5 then CHANNEL_TLV_VPORT_UPDATE_RSS else
  if flag =? 6 then CHANNEL_TLV_VPORT_UPDATE_ACCEPT_ANY_VLAN else
  if flag =? 7 then CHANNEL_TLV_VPORT_UPDATE_SGE_TPA else 0.

Fixpoint vp_resp_loop (n : nat) (i status tlvs_mask tlvs_accepted total_len : Z) mbx : option (Z * qed_iov_vf_mbx) :=
  match n with
  | O => Some (total_len, mbx)
  | S n =>
      if negb (Z.testbit tlvs_mask i) then vp_resp_loop n (i + 1) status tlvs_mask tlvs_accepted total_len mbx else
      '(resp, mbx) ← mbx_add_tlv (qed_iov_vport_to_tlv i) sizeof_def_resp mbx;
      r ← set8 (resp + status_offset) (if Z.testbit tlvs_accepted i then status else PFVF_STATUS_NOT_SUPPORTED) (reply_virt mbx);
      vp_resp_loop n (i + 1) status tlvs_mask tlvs_accepted (u16 (total_len + sizeof_def_resp)) (mbx <| reply_virt := r |>)
  end.

(** The total length and the mailbox. *)
Definition qed_iov_prep_vp_update_resp_tlvs (status tlvs_mask tlvs_accepted : Z) mbx : option (Z * qed_iov_vf_mbx) :=
  let mbx := mbx <| reply_virt := replicate (length (reply_virt mbx)) 0 |> <| mbx_offset := 0 |> in
  '(_, mbx) ← mbx_add_tlv CHANNEL_TLV_VPORT_UPDATE sizeof_def_resp mbx;
  '(total_len, mbx) ← vp_resp_loop QED_IOV_VP_UPDATE_MAX 0 status tlvs_mask tlvs_accepted sizeof_def_resp mbx;
  '(_, mbx) ← mbx_add_tlv CHANNEL_TLV_LIST_END sizeof_list_end mbx;
  Some (total_len, mbx).

(** The first TLV of a request: its type and the address of the reply. *)
Fixpoint get_bytes (off : Z) (n : nat) (b : buffer) : option Z :=
  match n with O => Some 0 | S n => v ← get8 off b; r ← get_bytes (off + 1) n b; Some (v + 256 * r) end.
Definition reply_address (b : buffer) : option Z := get_bytes 8 8 b.

(** The functions the switch over the type of a request calls. *)
Inductive vf_handler :=
  | H_vf_mbx_acquire | H_vf_mbx_start_vport | H_vf_mbx_stop_vport | H_vf_mbx_start_rxq | H_vf_mbx_start_txq | H_vf_mbx_stop_rxqs
  | H_vf_mbx_stop_txqs | H_vf_mbx_update_rxqs | H_vf_mbx_vport_update | H_vf_mbx_ucast_filter | H_vf_mbx_close | H_vf_mbx_int_cleanup
  | H_vf_mbx_release | H_vf_mbx_update_tunn_param | H_vf_pf_set_coalesce | H_vf_pf_get_coalesce | H_vf_pf_bulletin_update_mac
  | H_vf_pf_update_mtu | H_vf_pf_establish_ll2_connection | H_vf_pf_terminate_ll2_conn | H_vf_pf_async_event_resp | H_vf_pf_rdma_acquire
  | H_vf_pf_rdma_start | H_vf_pf_rdma_stop | H_vf_pf_rdma_add_user | H_vf_pf_rdma_remove_user | H_vf_pf_rdma_query_counters
  | H_vf_pf_rdma_alloc_tid | H_vf_pf_rdma_register_tid | H_vf_pf_rdma_deregister_tid | H_vf_pf_rdma_free_tid | H_vf_pf_rdma_create_cq
  | H_vf_pf_rdma_resize_cq | H_vf_pf_rdma_destroy_cq | H_vf_pf_rdma_create_qp | H_vf_pf_rdma_modify_qp | H_vf_pf_rdma_query_qp
  | H_vf_pf_rdma_destroy_qp | H_vf_pf_rdma_create_srq | H_vf_pf_rdma_modify_srq | H_vf_pf_rdma_destroy_srq | H_vf_pf_rdma_query_port
  | H_vf_pf_rdma_query_device | H_vf_pf_iwarp_connect | H_vf_pf_iwarp_accept | H_vf_pf_iwarp_create_listen | H_vf_pf_iwarp_destroy_listen
  | H_vf_pf_iwarp_pause_listen | H_vf_pf_iwarp_reject | H_vf_pf_iwarp_send_rtr | H_mcp_vf_flr | H_vf_mbx_filter_cfg.

Definition dispatch_table : list (Z * vf_handler) := [
  (CHANNEL_TLV_ACQUIRE, H_vf_mbx_acquire);
  (CHANNEL_TLV_VPORT_START, H_vf_mbx_start_vport);
  (CHANNEL_TLV_VPORT_TEARDOWN, H_vf_mbx_stop_vport);
  (CHANNEL_TLV_START_RXQ, H_vf_mbx_start_rxq);
  (CHANNEL_TLV_START_TXQ, H_vf_mbx_start_txq);
  (CHANNEL_TLV_STOP_RXQS, H_vf_mbx_stop_rxqs);
  (CHANNEL_TLV_STOP_TXQS, H_vf_mbx_stop_txqs);
  (CHANNEL_TLV_UPDATE_RXQ, H_vf_mbx_update_rxqs);
  (CHANNEL_TLV_VPORT_UPDATE, H_vf_mbx_vport_update);
  (CHANNEL_TLV_UCAST_FILTER, H_vf_mbx_ucast_filter);
  (CHANNEL_TLV_CLOSE, H_vf_mbx_close);
  (CHANNEL_TLV_INT_CLEANUP, H_vf_mbx_int_cleanup);
  (CHANNEL_TLV_RELEASE, H_vf_mbx_release);
  (CHANNEL_TLV_UPDATE_TUNN_PARAM, H_vf_mbx_update_tunn_param);
  (CHANNEL_TLV_COALESCE_UPDATE, H_vf_pf_set_coalesce);
  (CHANNEL_TLV_COALESCE_READ, H_vf_pf_get_coalesce);
  (CHANNEL_TLV_BULLETIN_UPDATE_MAC, H_vf_pf_bulletin_update_mac);
  (CHANNEL_TLV_UPDATE_MTU, H_vf_pf_update_mtu);
  (CHANNEL_TLV_ESTABLISH_LL2_CONN, H_vf_pf_establish_ll2_connection);
  (CHANNEL_TLV_TERMINATE_LL2_CONN, H_vf_pf_terminate_ll2_conn);
  (CHANNEL_TLV_ASYNC_EVENT, H_vf_pf_async_event_resp);
  (CHANNEL_TLV_RDMA_ACQUIRE, H_vf_pf_rdma_acquire);
  (CHANNEL_TLV_RDMA_START, H_vf_pf_rdma_start);
  (CHANNEL_TLV_RDMA_STOP, H_vf_pf_rdma_stop);
  (CHANNEL_TLV_RDMA_ADD_USER, H_vf_pf_rdma_add_user);
  (CHANNEL_TLV_RDMA_REMOVE_USER, H_vf_pf_rdma_remove_user);
  (CHANNEL_TLV_RDMA_QUERY_COUNTERS, H_vf_pf_rdma_query_counters);
  (CHANNEL_TLV_RDMA_ALLOC_TID, H_vf_pf_rdma_alloc_tid);
  (CHANNEL_TLV_RDMA_REGISTER_TID, H_vf_pf_rdma_register_tid);
  (CHANNEL_TLV_RDMA_DEREGISTER_TID, H_vf_pf_rdma_deregister_tid);
  (CHANNEL_TLV_RDMA_FREE_TID, H_vf_pf_rdma_free_tid);
  (CHANNEL_TLV_RDMA_CREATE_CQ, H_vf_pf_rdma_create_cq);
  (CHANNEL_TLV_RDMA_RESIZE_CQ, H_vf_pf_rdma_resize_cq);
  (CHANNEL_TLV_RDMA_DESTROY_CQ, H_vf_pf_rdma_destroy_cq);
  (CHANNEL_TLV_RDMA_CREATE_QP, H_vf_pf_rdma_create_qp);
  (CHANNEL_TLV_RDMA_MODIFY_QP, H_vf_pf_rdma_modify_qp);
  (CHANNEL_TLV_RDMA_QUERY_QP, H_vf_pf_rdma_query_qp);
  (CHANNEL_TLV_RDMA_DESTROY_QP, H_vf_pf_rdma_destroy_qp);
  (CHANNEL_TLV_RDMA_CREATE_SRQ, H_vf_pf_rdma_create_srq);
  (CHANNEL_TLV_RDMA_MODIFY_SRQ, H_vf_pf_rdma_modify_srq);
  (CHANNEL_TLV_RDMA_DESTROY_SRQ, H_vf_pf_rdma_destroy_srq);
  (CHANNEL_TLV_RDMA_QUERY_PORT, H_vf_pf_rdma_query_port);
  (CHANNEL_TLV_RDMA_QUERY_DEVICE, H_vf_pf_rdma_query_device);
  (CHANNEL_TLV_RDMA_IWARP_CONNECT, H_vf_pf_iwarp_connect);
  (CHANNEL_TLV_RDMA_IWARP_ACCEPT, H_vf_pf_iwarp_accept);
  (CHANNEL_TLV_RDMA_IWARP_CREATE_LISTEN, H_vf_pf_iwarp_create_listen);
  (CHANNEL_TLV_RDMA_IWARP_DESTROY_LISTEN, H_vf_pf_iwarp_destroy_listen);
  (CHANNEL_TLV_RDMA_IWARP_PAUSE_LISTEN, H_vf_pf_iwarp_pause_listen);
  (CHANNEL_TLV_RDMA_IWARP_REJECT, H_vf_pf_iwarp_reject);
  (CHANNEL_TLV_RDMA_IWARP_SEND_RTR, H_vf_pf_iwarp_send_rtr);
  (CHANNEL_TLV_SOFT_FLR, H_mcp_vf_flr);
  (CHANNEL_TLV_FILTER_CFG, H_vf_mbx_filter_cfg)].

Fixpoint assoc {A} (k : Z) (l : list (Z * A)) : option A :=
  match l with [] => None | (k', a) :: l => if k =? k' then Some a else assoc k l end.
Definition dispatch (type : Z) : option vf_handler := assoc type dispatch_table.

(** [handle h]: what the handler [h] does to the state of the PF, to the mailbox and
    to the device; [has_error]: [qed_iov_vf_has_error]; [acquired]: the reply address
    of the acquisition; [p_vf]: the VF is there. *)
Definition qed_iov_process_mbx_req {P} (handle : vf_handler -> P -> qed_iov_vf_mbx -> option (P * qed_iov_vf_mbx * list pf_action))
    (p_vf b_malicious has_error : bool) (acquired : Z) (pf : P) mbx : option (P * qed_iov_vf_mbx * list pf_action) :=
  let respond r := '(mbx, acts) ← r; Some (pf, mbx, acts) in
  if negb p_vf then Some (pf, mbx, []) else
  if negb (b_pending_msg mbx) then Some (pf, mbx, []) else
  let mbx := mbx <| b_pending_msg := false |> in
  type ← tlv_type 0 (req_virt mbx);
  addr ← reply_address (req_virt mbx);
  if qed_iov_tlv_supported type && negb b_malicious then
    match dispatch type with Some h => handle h pf mbx | None => Some (pf, mbx, []) end
  else if qed_iov_tlv_supported type then respond (qed_iov_prepare_resp type sizeof_def_resp PFVF_STATUS_MALICIOUS mbx)
  else if has_error then Some (pf, mbx, [VfFlr])
  else if negb (acquired =? 0) && (addr =? acquired) then respond (qed_iov_prepare_resp type sizeof_def_resp PFVF_STATUS_NOT_SUPPORTED mbx)
  else Some (pf, mbx, []).

(** The event of a message.  (The address it lists is that of the VF's request, which
    [qed_iov_copy_vf_msg] copies before the message is handled.) *)
Definition qed_sriov_vfpf_msg (p_vf : bool) mbx : qed_iov_vf_mbx := if negb p_vf then mbx else mbx <| b_pending_msg := true |>.

(** ** Bulletins *)

(** [struct qed_bulletin_content]: checksum, version and the bytes that follow. *)
Record bulletin := mk_bulletin { bull_crc : Z; bull_version : Z; bull_content : list Z }.
#[export] Instance bulletin_eq : EqDecision bulletin.
Proof. solve_decision. Defined.

Section Bulletin.
(** [crc32(0, ...)] of the version and the bytes after it. *)
Variable crc32 : Z -> list Z -> Z.

Definition qed_iov_vf_bulletin_crc (p : bulletin) : Z := crc32 (bull_version p) (bull_content p).

(** [p_vf]: the VF is there; [vf_bulletin]: the address in the VF, [dmae]: the code of the transfer.  The
    code, the PF's copy, and the transfer that was made. *)
Definition qed_iov_post_vf_bulletin (p_vf : bool) (vf_bulletin dmae : Z) (p : bulletin) : Z * bulletin * option bulletin :=
  if negb p_vf then (- EINVAL, p, None) else
  if vf_bulletin =? 0 then (- EINVAL, p, None) else
  if qed_iov_vf_bulletin_crc p =? bull_crc p then (0, p, None) else
  let p := mk_bulletin (bull_crc p) (u32 (bull_version p + 1)) (bull_content p) in
  let p := mk_bulletin (qed_iov_vf_bulletin_crc p) (bull_version p) (bull_content p) in
  (dmae, p, if dmae =? 0 then Some p else None).

(** [mem]: what the VF reads from its memory.  The code, [p_change], the shadow. *)
Definition qed_vf_read_bulletin (mem shadow : bulletin) : Z * bool * bulletin :=
  if bull_version mem =? bull_version shadow then (0, false, shadow) else
  if negb (qed_iov_vf_bulletin_crc mem =? bull_crc mem) then (- EAGAIN, false, shadow) else
  (0, true, mem).
End Bulletin.

(** ** The shadow of a VF's filters *)

(** [enum qed_filter_opcode], [enum qed_filter_ucast_type]. *)
Definition QED_FILTER_ADD : Z := 0.
Definition QED_FILTER_REMOVE : Z := 1.
Definition QED_FILTER_MOVE : Z := 2.
Definition QED_FILTER_REPLACE : Z := 3.
Definition QED_FILTER_FLUSH : Z := 4.
Definition QED_FILTER_MAC : Z := 0.
Definition QED_FILTER_VLAN : Z := 1.
Definition QED_FILTER_MAC_VLAN : Z := 2.

Definition QED_ETH_VF_NUM_MAC_FILTERS : nat := 1.
Definition QED_ETH_VF_NUM_VLAN_FILTERS : nat := 2.

(** The VLAN entries (used, vid) and the MACs (48-bit numbers, 0 when empty). *)
Record qed_vf_shadow_config := mk_qed_vf_shadow_config { vlans : list (bool * Z); macs : list Z }.

(** The loops over the arrays: the index of the first entry that passes a test. *)
Fixpoint find_first {A} (f : A -> bool) (i : nat) (l : list A) : option nat :=
  match l with [] => None | x :: l => if f x then Some i else find_first f (S i) l end.

(** [forced]: the bulletin's VLAN_ADDR_FORCED. *)
Definition qed_iov_vf_update_vlan_shadow (forced : bool) (opcode vlan : Z) (c : qed_vf_shadow_config) : Z * qed_vf_shadow_config :=
  let add c :=
    if forced then (0, c) else
    if (opcode =? QED_FILTER_ADD) || (opcode =? QED_FILTER_REPLACE) then
      match find_first (fun e => negb (fst e)) 0 (vlans c) with
      | None => (- EINVAL, c)
      | Some i => (0, mk_qed_vf_shadow_config (<[i := (true, vlan)]> (vlans c)) (macs c))
      end
    else (0, c) in
  if opcode =? QED_FILTER_REMOVE then
    match find_first (fun e => fst e && (snd e =? vlan)) 0 (vlans c) with
    | None => (- EINVAL, c)
    | Some i => add (mk_qed_vf_shadow_config (alter (fun e => (false, snd e)) i (vlans c)) (macs c))
    end
  else if (opcode =? QED_FILTER_REPLACE) || (opcode =? QED_FILTER_FLUSH)
  then add (mk_qed_vf_shadow_config (map (fun e => (false, snd e)) (vlans c)) (macs c))
  else add c.

(** [forced]: MAC_ADDR_FORCED; [free_change]: [allow_vf_mac_change] or a trusted VF. *)
Definition qed_iov_vf_update_mac_shadow (forced free_change : bool) (opcode mac : Z) (c : qed_vf_shadow_config) : Z * qed_vf_shadow_config :=
  let add c :=
    if negb (opcode =? QED_FILTER_ADD) && negb (opcode =? QED_FILTER_REPLACE) then (0, c) else
    match find_first (fun e => e =? 0) 0 (macs c) with
    | None => (- EINVAL, c)
    | Some i => (0, mk_qed_vf_shadow_config (vlans c) (<[i := mac]> (macs c)))
    end in
  if forced then (0, c) else
  if free_change then (0, c) else
  if opcode =? QED_FILTER_REMOVE then
    match find_first (fun e => e =? mac) 0 (macs c) with
    | None => (- EINVAL, c)
    | Some i => add (mk_qed_vf_shadow_config (vlans c) (<[i := 0]> (macs c)))
    end
  else if (opcode =? QED_FILTER_REPLACE) || (opcode =? QED_FILTER_FLUSH)
  then add (mk_qed_vf_shadow_config (vlans c) (map (fun _ => 0) (macs c)))
  else add c.

(** What the PF has decided for a VF; [public_vf]: [qed_iov_get_public_vf_info] finds
    it. *)
Record vf_policy := mk_vf_policy {
  vlan_forced : bool; mac_forced : bool; bulletin_mac : Z; free_mac_change : bool; vport_instance : bool; public_vf : bool
}.

Definition qed_iov_vf_update_unicast_shadow (p : vf_policy) (type opcode mac vlan : Z) (c : qed_vf_shadow_config) : Z * qed_vf_shadow_config :=
  let '(rc, c) := if type =? QED_FILTER_MAC then qed_iov_vf_update_mac_shadow (mac_forced p) (free_mac_change p) opcode mac c else (0, c) in
  if negb (rc =? 0) then (rc, c) else
  if type =? QED_FILTER_VLAN then qed_iov_vf_update_vlan_shadow (vlan_forced p) opcode vlan c else (rc, c).

(** The calls a unicast filter makes: the MAC is noted in the public information,
    put in the bulletin, the bulletin is posted again; the filter goes to the
    firmware. *)
Inductive vf_call := StoreMac (mac : Z) | BulletinSetMac (mac : Z) | PostBulletin | FilterUcast (type opcode mac vlan : Z).

Definition qed_iov_chk_ucast (p : vf_policy) (type mac : Z) : Z * list vf_call :=
  if negb (public_vf p) then (- EINVAL, []) else
  if (type =? QED_FILTER_MAC) || (type =? QED_FILTER_MAC_VLAN)
  then (0, StoreMac mac :: if free_mac_change p then [BulletinSetMac mac; PostBulletin] else [])
  else (0, []).

(** The decision about a unicast filter: the status of the response, the shadow and
    the calls.  [sp]: the code of [qed_sp_eth_filter_ucast]. *)
Definition ucast_filter_verdict (p : vf_policy) (sp type opcode mac vlan : Z) (c : qed_vf_shadow_config) : Z * qed_vf_shadow_config * list vf_call :=
  if negb (vport_instance p) then (PFVF_STATUS_FAILURE, c, []) else
  let '(rc, c) := qed_iov_vf_update_unicast_shadow p type opcode mac vlan c in
  if negb (rc =? 0) then (PFVF_STATUS_SUCCESS, c, []) else
  if vlan_forced p && ((type =? QED_FILTER_VLAN) || (type =? QED_FILTER_MAC_VLAN)) then
    (if (opcode =? QED_FILTER_ADD) || (opcode =? QED_FILTER_REPLACE) then PFVF_STATUS_FORCED else PFVF_STATUS_SUCCESS, c, [])
  else if mac_forced p && ((type =? QED_FILTER_MAC) || (type =? QED_FILTER_MAC_VLAN)) then
    (if negb (bulletin_mac p =? mac) || (negb (opcode =? QED_FILTER_ADD) && negb (opcode =? QED_FILTER_REPLACE))
     then PFVF_STATUS_FORCED else PFVF_STATUS_SUCCESS, c, [])
  else
    let '(rc, calls) := qed_iov_chk_ucast p type mac in
    if rc =? - EEXIST then (PFVF_STATUS_SUCCESS, c, calls)
    else if rc =? - EINVAL then (PFVF_STATUS_FAILURE, c, calls)
    else (if sp =? 0 then PFVF_STATUS_SUCCESS else PFVF_STATUS_FAILURE, c, calls ++ [FilterUcast type opcode mac vlan]).

(** [opcode], [type], [mac] and [vlan] are after the first TLV of the request.  The
    mailbox with the actions that send the response, the shadow, the calls. *)
Definition qed_iov_vf_mbx_ucast_filter (p : vf_policy) (sp : Z) (c : qed_vf_shadow_config) mbx
    : option (qed_iov_vf_mbx * list pf_action * qed_vf_shadow_config * list vf_call) :=
  opcode ← get8 16 (req_virt mbx);
  type ← get8 17 (req_virt mbx);
  mac ← get_bytes 18 6 (req_virt mbx);
  vlan ← get16 24 (req_virt mbx);
  let '(status, c, calls) := ucast_filter_verdict p sp type opcode mac vlan c in
  '(mbx, acts) ← qed_iov_prepare_resp CHANNEL_TLV_UCAST_FILTER sizeof_def_resp status mbx;
  Some (mbx, acts, c, calls).
