(* ===== verification/VfTlv.v ===== *)
(** * Lists of TLVs (qed_sriov.c)

    A list built with [qed_add_tlv] is found again by [qed_iov_search_list_tlvs];
    the search ends on every buffer; and the response to a vport update tells the VF
    what became of each of its TLVs. *)

From S2P Require Import Prelude Vfpf.

(** ** Bytes *)

Implicit Types (b : buffer).

Lemma get8_nat (k : nat) b : get8 (Z.of_nat k) b = b !! k.
Proof. unfold get8. destruct (Z.ltb_spec (Z.of_nat k) 0); [lia|]. by rewrite Nat2Z.id. Qed.

Lemma get8_some off b : 0 <= off < Z.of_nat (length b) -> is_Some (get8 off b).
Proof. intros H. unfold get8. replace (off <? 0) with false by lia. apply lookup_lt_is_Some_2. lia. Qed.

Lemma set8_spec off v b : 0 <= off < Z.of_nat (length b) ->
  exists b', set8 off v b = Some b' /\ length b' = length b /\ get8 off b' = Some (u8 v) /\ forall o, o ≠ off -> get8 o b' = get8 o b.
Proof.
  intros H. unfold set8. replace ((0 <=? off) && (off <? Z.of_nat (length b))) with true by lia. eexists. split; [done|].
  split; [apply length_insert|]. split.
  - unfold get8. replace (off <? 0) with false by lia. apply list_lookup_insert_eq. lia.
  - intros o Ho. unfold get8. destruct (Z.ltb_spec o 0); [done|]. apply list_lookup_insert_ne. lia.
Qed.

Lemma u8_div v : 0 <= v < 65536 -> u8 v + 256 * u8 (v / 256) = v.
Proof.
  intros H. unfold u8. rewrite (Z.mod_small (v / 256)) by (split; [apply Z.div_pos; lia|apply Z.div_lt_upper_bound; lia]).
  pose proof (Z.div_mod v 256 ltac:(lia)). change (2 ^ 8) with 256. lia.
Qed.

Lemma set16_spec off v b : 0 <= off -> off + 2 <= Z.of_nat (length b) -> 0 <= v < 65536 ->
  exists b', set16 off v b = Some b' /\ length b' = length b /\ get16 off b' = Some v /\ forall o, o < off \/ off + 2 <= o -> get8 o b' = get8 o b.
Proof.
  intros H0 H1 Hv. unfold set16. destruct (set8_spec off v b) as (b1 & -> & L1 & G1 & O1); [lia|]. simpl.
  destruct (set8_spec (off + 1) (v / 256) b1) as (b2 & -> & L2 & G2 & O2); [lia|]. exists b2. split; [done|]. split; [congruence|]. split.
  - unfold get16. rewrite (O2 off), G1, G2 by lia. simpl. by rewrite u8_div.
  - intros o Ho. rewrite O2, O1 by lia. done.
Qed.

Lemma get16_ext off b b' : get8 off b' = get8 off b -> get8 (off + 1) b' = get8 (off + 1) b -> get16 off b' = get16 off b.
Proof. intros E1 E2. unfold get16. by rewrite E1, E2. Qed.

(** The four bytes of a header. *)
Definition same_header off b b' : Prop := forall o, off <= o < off + 4 -> get8 o b' = get8 o b.

Lemma header_ext off b b' : same_header off b b' -> tlv_type off b' = tlv_type off b /\ tlv_length off b' = tlv_length off b.
Proof. intros H. unfold tlv_type, tlv_length. split; apply get16_ext; apply H; lia. Qed.

Lemma add_tlv_spec off type len b : 0 <= off -> off + 4 <= Z.of_nat (length b) -> 0 <= type < 65536 -> 0 <= len < 65536 ->
  exists b', qed_add_tlv off type len b = Some (off, b', off + len) /\ length b' = length b /\
    tlv_type off b' = Some type /\ tlv_length off b' = Some len /\ forall o, o < off \/ off + 4 <= o -> get8 o b' = get8 o b.
Proof.
  intros H0 H1 Ht Hl. unfold qed_add_tlv. rewrite !u16_small by lia.
  destruct (set16_spec off type b) as (b1 & -> & L1 & G1 & O1); [lia..|]. simpl.
  destruct (set16_spec (off + 2) len b1) as (b2 & -> & L2 & G2 & O2); [lia..|]. simpl. exists b2.
  split; [f_equal; f_equal; f_equal; lia|]. split; [congruence|]. split; [|split; [done|]].
  - unfold tlv_type. rewrite <- G1. apply get16_ext; apply O2; lia.
  - intros o Ho. rewrite O2, O1 by lia. done.
Qed.

(** ** Lists of types and lengths *)

Definition tlv_sizes (l : list (Z * Z)) : Z := foldr (fun e acc => snd e + acc) 0 l.

(** The headers of [l] from [off] on, then the end. *)
Fixpoint tlvs_at (off : Z) (l : list (Z * Z)) b : Prop :=
  match l with
  | [] => tlv_type off b = Some CHANNEL_TLV_LIST_END /\ tlv_length off b = Some sizeof_list_end
  | (t, n) :: l => tlv_type off b = Some t /\ tlv_length off b = Some n /\ tlvs_at (off + n) l b
  end.

Definition tlv_ok (e : Z * Z) : Prop := fst e ≠ CHANNEL_TLV_LIST_END /\ 0 <= fst e < 65536 /\ 4 <= snd e < 65536.

(** The first TLV of a type. *)
Fixpoint find_tlv (off : Z) (l : list (Z * Z)) (req : Z) : option Z :=
  match l with [] => None | (t, n) :: l => if t =? req then Some off else find_tlv (off + n) l req end.

Lemma tlv_sizes_nonneg l : Forall tlv_ok l -> 0 <= tlv_sizes l /\ 4 * Z.of_nat (length l) <= tlv_sizes l.
Proof. induction 1 as [|[t n] l [_ [_ H]] Hl IH]; simpl in *; lia. Qed.

Lemma search_spec req b l : forall fuel off t n, tlvs_at off ((t, n) :: l) b -> Forall tlv_ok ((t, n) :: l) ->
  off + tlv_sizes ((t, n) :: l) + sizeof_list_end <= TLV_BUFFER_SIZE -> (length l < fuel)%nat ->
  search_loop fuel off off req b = Some (find_tlv off ((t, n) :: l) req).
Proof.
  induction l as [|[t' n'] l IH]; intros fuel off t n Ha Hok Hs Hf; (destruct fuel as [|fuel]; [simpl in *; lia|]);
    apply Forall_cons_1 in Hok as [[O1 [O2 O3]] Hok]; destruct Ha as (A1 & A2 & A3); simpl in O1, O2, O3; cbn [search_loop find_tlv].
  - rewrite A1, A2. simpl. replace (n =? 0) with false by lia. destruct (t =? req); [done|].
    destruct A3 as [B1 B2]. rewrite B1, B2. simpl in *. unfold TLV_BUFFER_SIZE in *. replace (1024 <? off + n + sizeof_list_end) with false by lia. done.
  - pose proof A3 as (B1 & B2 & _). pose proof Hok as Hok'. apply Forall_cons_1 in Hok as [[P1 [P2 P3]] Hok]. simpl in P1, P2, P3.
    rewrite A1, A2. simpl. replace (n =? 0) with false by lia. destruct (t =? req); [done|]. rewrite B1, B2. simpl.
    pose proof (tlv_sizes_nonneg _ Hok) as [N0 _]. cbn [tlv_sizes foldr snd] in Hs. fold (tlv_sizes l) in Hs. unfold TLV_BUFFER_SIZE, sizeof_list_end in *.
    replace (1024 <? off + n + n') with false by lia. replace (t' =? CHANNEL_TLV_LIST_END) with false by (unfold CHANNEL_TLV_LIST_END in *; lia).
    apply (IH fuel (off + n) t' n'); [exact A3|exact Hok'| |simpl in Hf; lia]. cbn [tlv_sizes foldr snd]. fold (tlv_sizes l). lia.
Qed.

(** The bytes of the headers. *)
Fixpoint in_headers (off : Z) (l : list (Z * Z)) (o : Z) : Prop :=
  match l with [] => off <= o < off + 4 | (_, n) :: l => off <= o < off + 4 \/ in_headers (off + n) l o end.

Lemma in_headers_ge l o : forall off, Forall tlv_ok l -> in_headers off l o -> off <= o.
Proof.
  induction l as [|[t n] l IH]; intros off Hok H; simpl in H; [lia|]. apply Forall_cons_1 in Hok as [[_ [_ O]] Hok]. simpl in O.
  destruct H as [H|H]; [lia|]. apply IH in H; [lia|done].
Qed.

Lemma tlvs_at_ext l : forall off b b', (forall o, in_headers off l o -> get8 o b' = get8 o b) -> tlvs_at off l b -> tlvs_at off l b'.
Proof.
  induction l as [|[t n] l IH]; intros off b b' H; simpl.
  - destruct (header_ext off b b') as [-> ->]; [intros o Ho; apply H, Ho|]. done.
  - destruct (header_ext off b b') as [-> ->]; [intros o Ho; apply H; simpl; by left|]. intros (? & ? & ?). split; [done|]. split; [done|].
    eapply IH; [|done]. intros o Ho. apply H. simpl. by right.
Qed.

(** A list put in a buffer, TLV by TLV. *)
Fixpoint build (off : Z) (l : list (Z * Z)) b : option buffer :=
  match l with
  | [] => '(_, b, _) ← qed_add_tlv off CHANNEL_TLV_LIST_END sizeof_list_end b; Some b
  | (t, n) :: l => '(_, b, off) ← qed_add_tlv off t n b; build off l b
  end.

Lemma build_spec l : forall off b, Forall tlv_ok l -> 0 <= off -> off + tlv_sizes l + sizeof_list_end <= Z.of_nat (length b) ->
  exists b', build off l b = Some b' /\ length b' = length b /\ tlvs_at off l b' /\ forall o, o < off -> get8 o b' = get8 o b.
Proof.
  induction l as [|[t n] l IH]; intros off b Hok H0 Hs; cbn [build].
  - unfold sizeof_list_end in *. simpl in Hs. destruct (add_tlv_spec off CHANNEL_TLV_LIST_END 8 b) as (b' & -> & L & T1 & T2 & O); [lia|lia|done|lia|].
    simpl. exists b'. split; [done|]. split; [done|]. split; [by split|]. intros o Ho. apply O. lia.
  - apply Forall_cons_1 in Hok as [[P1 [P2 P3]] Hok]. pose proof (tlv_sizes_nonneg _ Hok) as [N0 _]. simpl in P1, P2, P3, Hs. fold (tlv_sizes l) in Hs.
    unfold sizeof_list_end in *. destruct (add_tlv_spec off t n b) as (b1 & -> & L1 & T1 & T2 & O1); [lia..|]. simpl.
    destruct (IH (off + n) b1) as (b2 & E & L2 & A & O2); [done|lia|rewrite L1; lia|]. exists b2. split; [done|]. split; [congruence|].
    split; [|intros o Ho; rewrite O2, O1 by lia; done]. destruct (header_ext off b1 b2) as [E1 E2]; [intros o Ho; apply O2; lia|]. rewrite E1, E2. by auto.
Qed.

Lemma search_fuel_value : search_fuel = 1026%nat.
Proof. reflexivity. Qed.

Lemma search_found l b req : l ≠ [] -> Forall tlv_ok l -> tlv_sizes l + sizeof_list_end <= TLV_BUFFER_SIZE -> tlvs_at 0 l b ->
  qed_iov_search_list_tlvs req b = Some (find_tlv 0 l req).
Proof.
  intros Hl Hok Hs Ha. destruct l as [|[t n] l]; [done|]. unfold qed_iov_search_list_tlvs. apply search_spec; [done|done|lia|].
  pose proof (tlv_sizes_nonneg _ Hok) as [_ N]. rewrite search_fuel_value. unfold TLV_BUFFER_SIZE, sizeof_list_end in Hs. cbn [length] in N. lia.
Qed.

(** ** Any buffer *)

Lemma get16_bound off b v : Forall (fun x => 0 <= x < 256) b -> get16 off b = Some v -> 0 <= v < 65536.
Proof.
  intros H. unfold get16, get8. destruct (off <? 0); [done|]. destruct (b !! Z.to_nat off) as [x|] eqn:E1; simpl; [|done].
  destruct (off + 1 <? 0); [done|]. destruct (b !! Z.to_nat (off + 1)) as [y|] eqn:E2; simpl; [|done]. intros [= <-].
  rewrite Forall_lookup in H. pose proof (H _ _ E1). pose proof (H _ _ E2). lia.
Qed.

Lemma get16_inside off b : 0 <= off -> off + 2 <= Z.of_nat (length b) -> is_Some (get16 off b).
Proof.
  intros H0 H1. unfold get16. destruct (get8_some off b) as [x ->]; [lia|]. destruct (get8_some (off + 1) b) as [y ->]; [lia|]. simpl. eauto.
Qed.

Lemma search_any req b : Forall (fun x => 0 <= x < 256) b -> TLV_BUFFER_SIZE + 65536 + 4 <= Z.of_nat (length b) ->
  forall fuel off, 0 <= off <= TLV_BUFFER_SIZE -> TLV_BUFFER_SIZE - off + 1 < Z.of_nat fuel ->
  (off = 0 \/ exists n, tlv_length off b = Some n /\ off + n <= TLV_BUFFER_SIZE) ->
  exists r, search_loop fuel off off req b = Some r /\
    forall o, r = Some o -> tlv_type o b = Some req /\ (o = 0 \/ exists n, tlv_length o b = Some n /\ 0 < n /\ o + n <= TLV_BUFFER_SIZE).
Proof.
  intros Hb Hl. unfold TLV_BUFFER_SIZE in *. induction fuel as [|fuel IH]; intros off Ho Hf Hin; [lia|]. cbn [search_loop].
  destruct (get16_inside (off + 2) b) as [n En]; [lia..|]. fold (tlv_length off b) in En. pose proof (get16_bound _ _ _ Hb En) as Bn. rewrite En. simpl.
  destruct (Z.eqb_spec n 0) as [->|Hn]; [exists None; by split|].
  destruct (get16_inside off b) as [t Et]; [lia..|]. fold (tlv_type off b) in Et. rewrite Et. simpl.
  destruct (Z.eqb_spec t req) as [->|Ht].
  { exists (Some off). split; [done|]. intros o [= <-]. split; [done|]. destruct Hin as [->|(n' & En' & Hs)]; [by left|right]. rewrite En in En'. simplify_eq.
    exists n'. split; [done|]. lia. }
  destruct (get16_inside (off + n + 2) b) as [n' En']; [lia..|]. fold (tlv_length (off + n) b) in En'. pose proof (get16_bound _ _ _ Hb En') as Bn'. rewrite En'. simpl.
  unfold TLV_BUFFER_SIZE. destruct (Z.ltb_spec 1024 (off + n + n')); [exists None; by split|].
  destruct (get16_inside (off + n) b) as [t' Et']; [lia..|]. fold (tlv_type (off + n) b) in Et'. rewrite Et'. simpl.
  destruct (t' =? CHANNEL_TLV_LIST_END); [exists None; by split|].
  apply IH; [lia|lia|]. right. exists n'. split; [done|lia].
Qed.

(** ** Responses to a vport update *)

(** Entries of eight bytes with a status. *)
Fixpoint resp_at (off : Z) (es : list (Z * Z)) b : Prop :=
  match es with
  | [] => True
  | (t, st) :: es => tlv_type off b = Some t /\ tlv_length off b = Some sizeof_def_resp /\ get8 (off + status_offset) b = Some st /\ resp_at (off + sizeof_def_resp) es b
  end.

Lemma resp_at_ext es : forall off b b', (forall o, off <= o < off + 8 * Z.of_nat (length es) -> get8 o b' = get8 o b) -> resp_at off es b -> resp_at off es b'.
Proof.
  unfold sizeof_def_resp, status_offset. induction es as [|[t st] es IH]; intros off b b' H; cbn [resp_at length]; [done|]. intros (H1 & H2 & H3 & H4).
  unfold sizeof_def_resp, status_offset in *. cbn [length] in H.
  destruct (header_ext off b b') as [-> ->]; [intros o Ho; apply H; lia|]. split; [done|]. split; [done|].
  split; [rewrite H by lia; done|]. eapply IH; [|exact H4]. intros o Ho. apply H. lia.
Qed.

Lemma resp_at_app es es' : forall off b, resp_at off (es ++ es') b <-> resp_at off es b /\ resp_at (off + 8 * Z.of_nat (length es)) es' b.
Proof.
  induction es as [|[t st] es IH]; intros off b; cbn [app resp_at length].
  - replace (off + 8 * Z.of_nat 0) with off by lia. naive_solver.
  - rewrite IH. unfold sizeof_def_resp. replace (off + 8 + 8 * Z.of_nat (length es)) with (off + 8 * Z.of_nat (S (length es))) by lia. naive_solver.
Qed.

(** As TLVs, with the end after them. *)
Definition as_tlvs (es : list (Z * Z)) : list (Z * Z) := map (fun e => (fst e, sizeof_def_resp)) es.

Lemma resp_tlvs es : forall off b, resp_at off es b -> tlvs_at (off + 8 * Z.of_nat (length es)) [] b -> tlvs_at off (as_tlvs es) b.
Proof.
  induction es as [|[t st] es IH]; intros off b H He.
  - cbn [length] in He. replace (off + 8 * Z.of_nat 0) with off in He by lia. exact He.
  - destruct H as (H1 & H2 & H3 & H4). cbn [as_tlvs map tlvs_at fst]. split; [done|]. split; [done|]. apply IH; [exact H4|].
    unfold sizeof_def_resp. cbn [length] in He. replace (off + 8 + 8 * Z.of_nat (length es)) with (off + 8 * Z.of_nat (S (length es))) by lia. exact He.
Qed.

Lemma find_resp es req b : forall off, resp_at off es b ->
  match find_tlv off (as_tlvs es) req with
  | Some o => exists st, (req, st) ∈ es /\ get8 (o + status_offset) b = Some st
  | None => forall st, (req, st) ∉ es
  end.
Proof.
  induction es as [|[t st] es IH]; intros off H; cbn [as_tlvs map find_tlv fst]; [intros st; set_solver|]. destruct H as (H1 & H2 & H3 & H4).
  destruct (Z.eqb_spec t req) as [->|Ht]; [exists st; split; [set_solver|done]|]. specialize (IH _ H4). fold (as_tlvs es).
  destruct (find_tlv _ (as_tlvs es) req); [destruct IH as (st' & ? & ?); exists st'; set_solver|]. intros st' Hin. apply elem_of_cons in Hin as [[=]|Hin]; [done|]. by apply (IH st').
Qed.

Lemma as_tlvs_ok es : (forall t st, (t, st) ∈ es -> 0 <= t < 65536 /\ t ≠ CHANNEL_TLV_LIST_END) -> Forall tlv_ok (as_tlvs es).
Proof.
  induction es as [|[t st] es IH]; intros H; [constructor|]. constructor; [|apply IH; intros t' st' Hin; apply (H t' st'); by right].
  destruct (H t st) as [? ?]; [by left|]. unfold tlv_ok, sizeof_def_resp. simpl. lia.
Qed.
Lemma as_tlvs_sizes es : tlv_sizes (as_tlvs es) = 8 * Z.of_nat (length es).
Proof. induction es as [|e es IH]; [done|]. cbn [as_tlvs map tlv_sizes foldr snd length]. fold (as_tlvs es). fold (tlv_sizes (as_tlvs es)). rewrite IH. unfold sizeof_def_resp. lia. Qed.

Implicit Types (mbx : qed_iov_vf_mbx).

Lemma mbx_add_spec type len mbx : 0 <= mbx_offset mbx -> mbx_offset mbx + 4 <= sizeof_pfvf_tlvs mbx -> 0 <= type < 65536 -> 0 <= len < 65536 ->
  exists r, mbx_add_tlv type len mbx = Some (mbx_offset mbx, mbx <| reply_virt := r |> <| mbx_offset := mbx_offset mbx + len |>) /\
    length r = length (reply_virt mbx) /\ tlv_type (mbx_offset mbx) r = Some type /\ tlv_length (mbx_offset mbx) r = Some len /\
    forall o, o < mbx_offset mbx \/ mbx_offset mbx + 4 <= o -> get8 o r = get8 o (reply_virt mbx).
Proof.
  intros H0 H1 Ht Hl. destruct (add_tlv_spec (mbx_offset mbx) type len (reply_virt mbx)) as (r & E & H); [done..|].
  exists r. unfold mbx_add_tlv. rewrite E. by split.
Qed.

(** The entries of a response. *)
Definition vp_status (status tlvs_accepted i : Z) : Z := u8 (if Z.testbit tlvs_accepted i then status else PFVF_STATUS_NOT_SUPPORTED).
Fixpoint vp_entries (n : nat) (i status tlvs_mask tlvs_accepted : Z) : list (Z * Z) :=
  match n with
  | O => []
  | S n => (if Z.testbit tlvs_mask i then [(qed_iov_vport_to_tlv i, vp_status status tlvs_accepted i)] else []) ++ vp_entries n (i + 1) status tlvs_mask tlvs_accepted
  end.

Lemma vport_to_tlv_range i : 0 <= i < 8 -> 15 <= qed_iov_vport_to_tlv i <= 22.
Proof. intros H. assert (i = 0 \/ i = 1 \/ i = 2 \/ i = 3 \/ i = 4 \/ i = 5 \/ i = 6 \/ i = 7) as C by lia. by decompose [or] C; subst. Qed.
Lemma vport_to_tlv_inj i j : 0 <= i < 8 -> 0 <= j < 8 -> qed_iov_vport_to_tlv i = qed_iov_vport_to_tlv j -> i = j.
Proof.
  intros Hi Hj. assert (i = 0 \/ i = 1 \/ i = 2 \/ i = 3 \/ i = 4 \/ i = 5 \/ i = 6 \/ i = 7) as C by lia.
  assert (j = 0 \/ j = 1 \/ j = 2 \/ j = 3 \/ j = 4 \/ j = 5 \/ j = 6 \/ j = 7) as D by lia. by decompose [or] C; decompose [or] D; subst.
Qed.

Lemma vp_entries_length n : forall i s m a, (length (vp_entries n i s m a) <= n)%nat.
Proof. induction n as [|n IH]; intros i s m a; cbn [vp_entries length]; [lia|]. rewrite length_app. specialize (IH (i + 1) s m a). destruct (Z.testbit m i); simpl; lia. Qed.

Lemma vp_entries_in n s m a t st : forall i, (t, st) ∈ vp_entries n i s m a <->
  exists j, i <= j < i + Z.of_nat n /\ Z.testbit m j = true /\ t = qed_iov_vport_to_tlv j /\ st = vp_status s a j.
Proof.
  induction n as [|n IH]; intros i; cbn [vp_entries].
  - split; [set_solver|]. intros (j & ? & _). lia.
  - rewrite elem_of_app, IH. destruct (Z.testbit m i) eqn:E.
    + rewrite list_elem_of_singleton. split.
      * intros [[= -> ->]|(j & ? & ? & ? & ?)]; [exists i; split; [lia|done]|exists j; split; [lia|done]].
      * intros (j & Hj & Hm & -> & ->). destruct (decide (j = i)) as [->|]; [by left|]. right. exists j. split; [lia|done].
    + split; [intros [?|(j & ? & ?)]; [set_solver|exists j; split; [lia|done]]|]. intros (j & Hj & Hm & ?). right. exists j.
      destruct (decide (j = i)) as [->|]; [congruence|]. split; [lia|done].
Qed.

Lemma vp_resp_loop_spec n s m a : forall i total es mbx, 0 <= i -> i + Z.of_nat n <= 8 -> mbx_offset mbx = 8 * Z.of_nat (length es) ->
  8 * Z.of_nat (length es) + 8 * Z.of_nat n <= sizeof_pfvf_tlvs mbx -> resp_at 0 es (reply_virt mbx) ->
  exists total' r, vp_resp_loop n i s m a total mbx =
      Some (total', mbx <| reply_virt := r |> <| mbx_offset := 8 * Z.of_nat (length (es ++ vp_entries n i s m a)) |>) /\
    length r = length (reply_virt mbx) /\ resp_at 0 (es ++ vp_entries n i s m a) r.
Proof.
  induction n as [|n IH]; intros i total es mbx Hi Hn Ho Hs Hr; cbn [vp_resp_loop vp_entries].
  - exists total, (reply_virt mbx). rewrite app_nil_r, <- Ho. destruct mbx. by split.
  - destruct (Z.testbit m i) eqn:E; cbn [negb].
    + destruct (mbx_add_spec (qed_iov_vport_to_tlv i) sizeof_def_resp mbx) as (r1 & E1 & L1 & T1 & T2 & O1); [lia|lia|pose proof (vport_to_tlv_range i); lia|done|].
      rewrite E1. cbn [mbind option_bind reply_virt]. simpl reply_virt.
      destruct (set8_spec (mbx_offset mbx + status_offset) (if Z.testbit a i then s else PFVF_STATUS_NOT_SUPPORTED) r1) as (r2 & E2 & L2 & G2 & O2);
        [unfold sizeof_pfvf_tlvs, status_offset in *; rewrite L1; lia|].
      rewrite E2. cbn [mbind option_bind]. set (mbx2 := _ <| reply_virt := r2 |>).
      destruct (IH (i + 1) (u16 (total + sizeof_def_resp)) (es ++ [(qed_iov_vport_to_tlv i, vp_status s a i)]) mbx2) as (tot & r & E3 & L3 & R3).
      * lia.
      * lia.
      * subst mbx2. simpl. rewrite length_app. unfold sizeof_def_resp. simpl. lia.
      * subst mbx2. unfold sizeof_pfvf_tlvs in *. simpl. rewrite length_app. simpl. rewrite L2, L1. lia.
      * subst mbx2. simpl. apply resp_at_app. split.
        -- eapply resp_at_ext; [|exact Hr]. intros o Hq. unfold status_offset in *. rewrite O2, O1 by lia. done.
        -- cbn [resp_at]. replace (0 + 8 * Z.of_nat (length es)) with (mbx_offset mbx) by lia. unfold status_offset in *.
           destruct (header_ext (mbx_offset mbx) r1 r2) as [-> ->]; [intros o Hq; apply O2; lia|]. by auto.
      * exists tot, r. rewrite <- app_assoc in E3, R3. split; [rewrite E3; by destruct mbx|]. split; [subst mbx2; simpl in L3; congruence|exact R3].
    + apply IH; (done || lia).
Qed.

(** The whole response: a list of TLVs that ends, with an entry for every TLV of
    the mask. *)
Lemma prep_vp_spec s m a mbx : 80 <= sizeof_pfvf_tlvs mbx ->
  exists total mbx', qed_iov_prep_vp_update_resp_tlvs s m a mbx = Some (total, mbx') /\ length (reply_virt mbx') = length (reply_virt mbx) /\
    let es := (CHANNEL_TLV_VPORT_UPDATE, 0) :: vp_entries 8 0 s m a in resp_at 0 es (reply_virt mbx') /\ tlvs_at 0 (as_tlvs es) (reply_virt mbx').
Proof.
  intros Hs. unfold qed_iov_prep_vp_update_resp_tlvs. set (mbx0 := mbx <| reply_virt := _ |> <| mbx_offset := 0 |>).
  assert (L0 : length (reply_virt mbx0) = length (reply_virt mbx)) by apply length_replicate.
  assert (S0 : sizeof_pfvf_tlvs mbx0 = sizeof_pfvf_tlvs mbx) by (unfold sizeof_pfvf_tlvs; by rewrite L0).
  destruct (mbx_add_spec CHANNEL_TLV_VPORT_UPDATE sizeof_def_resp mbx0) as (r1 & E1 & L1 & T1 & T2 & O1); [done|simpl; lia|done|done|].
  rewrite E1. cbn [mbind option_bind]. set (mbx1 := mbx0 <| reply_virt := r1 |> <| mbx_offset := _ |>).
  destruct (vp_resp_loop_spec 8 s m a 0 sizeof_def_resp [(CHANNEL_TLV_VPORT_UPDATE, 0)] mbx1) as (tot & r2 & E2 & L2 & R2).
  - lia.
  - lia.
  - done.
  - unfold sizeof_pfvf_tlvs in *. subst mbx1. simpl. rewrite L1. lia.
  - subst mbx1. cbn [resp_at]. simpl reply_virt. split; [exact T1|]. split; [exact T2|]. split; [|done].
    rewrite O1 by (unfold status_offset; simpl; lia). change (0 + status_offset) with (Z.of_nat 4). rewrite get8_nat.
    apply lookup_replicate_2. unfold sizeof_pfvf_tlvs in Hs. lia.
  - change QED_IOV_VP_UPDATE_MAX with 8%nat. rewrite E2. cbn [mbind option_bind]. set (es := [_] ++ vp_entries _ _ _ _ _) in *.
    assert (Le : (length es <= 9)%nat) by (subst es; rewrite length_app; pose proof (vp_entries_length 8 0 s m a); cbn [length]; lia).
    set (mbx2 := mbx1 <| reply_virt := r2 |> <| mbx_offset := _ |>).
    destruct (mbx_add_spec CHANNEL_TLV_LIST_END sizeof_list_end mbx2) as (r3 & E3 & L3 & T3 & T4 & O3).
    + subst mbx2. clearbody es. simpl. lia.
    + subst mbx2. clearbody es. unfold sizeof_pfvf_tlvs in *. simpl. rewrite L2. subst mbx1. simpl. rewrite L1. lia.
    + done.
    + done.
    + change (mbx_offset mbx2) with (8 * Z.of_nat (length es)) in *. rewrite E3. cbn [mbind option_bind]. eexists _, _. split; [reflexivity|].
      split; [etransitivity; [exact L3|]; etransitivity; [exact L2|]; etransitivity; [exact L1|exact L0]|].
      assert (R3 : resp_at 0 es r3) by (eapply resp_at_ext; [|exact R2]; intros o Ho; apply O3; lia).
      split; [exact R3|]. apply resp_tlvs; [exact R3|]. by split.
Qed.

(** In such a response an entry is found for the TLVs of the mask, with its status. *)
Lemma entries_found st s m a b i : let es := (CHANNEL_TLV_VPORT_UPDATE, st) :: vp_entries 8 0 s m a in resp_at 0 es b -> tlvs_at 0 (as_tlvs es) b -> 0 <= i < 8 ->
  match qed_iov_search_list_tlvs (qed_iov_vport_to_tlv i) b with
  | Some (Some o) => Z.testbit m i = true /\ get8 (o + status_offset) b = Some (vp_status s a i)
  | Some None => Z.testbit m i = false
  | None => False
  end.
Proof.
  intros es R T Hi.
  assert (Hes : forall t st, (t, st) ∈ es -> 0 <= t < 65536 /\ t ≠ CHANNEL_TLV_LIST_END).
  { intros t st' Hin. apply elem_of_cons in Hin as [[= -> ->]|Hin]; [done|]. apply vp_entries_in in Hin as (j & Hj & _ & -> & _).
    pose proof (vport_to_tlv_range j). unfold CHANNEL_TLV_LIST_END. lia. }
  rewrite (search_found (as_tlvs es)); [|done|by apply as_tlvs_ok| |done].
  2:{ rewrite as_tlvs_sizes. subst es. cbn [length]. pose proof (vp_entries_length 8 0 s m a). unfold sizeof_list_end, TLV_BUFFER_SIZE. lia. }
  pose proof (find_resp es (qed_iov_vport_to_tlv i) _ 0 R) as F. pose proof (vport_to_tlv_range i Hi) as Ri. destruct (find_tlv 0 (as_tlvs es) _) as [o|].
  - destruct F as (st' & Hin & G). apply elem_of_cons in Hin as [[= Ht _]|Hin]; [unfold CHANNEL_TLV_VPORT_UPDATE in Ht; lia|].
    apply vp_entries_in in Hin as (j & Hj & Hm & Ht & ->). apply vport_to_tlv_inj in Ht as ->; [done|lia|lia].
  - destruct (Z.testbit m i) eqn:Em; [|done]. exfalso. apply (F (vp_status s a i)). apply elem_of_cons. right.
    apply vp_entries_in. exists i. split; [lia|done].
Qed.

(** Where a TLV of a list is found. *)
Lemma find_tlv_inside req l : forall off o, Forall tlv_ok l -> find_tlv off l req = Some o -> exists n, (req, n) ∈ l /\ off <= o /\ o + n <= off + tlv_sizes l.
Proof.
  induction l as [|[t n] l IH]; intros off o Hok E; simpl in E; [done|]. apply Forall_cons_1 in Hok as [[_ [_ O]] Hok]. simpl in O.
  pose proof (tlv_sizes_nonneg _ Hok) as [N _]. cbn [tlv_sizes foldr snd]. fold (tlv_sizes l). destruct (Z.eqb_spec t req) as [->|].
  - injection E as <-. exists n. split; [by left|]. lia.
  - destruct (IH _ _ Hok E) as (n' & H1 & H2 & H3). exists n'. split; [by right|]. lia.
Qed.
