(* ===== verification/VfChan.v ===== *)
(** * Requests and responses in flight (qed_vf.c, qed_sriov.c)

    One VF and the PF take turns in any order.  The VF writes a request, rings the
    channel and polls the status byte of its reply buffer; the channel takes one
    message and is then not ready until the PF says so; the PF handles the message
    and copies the response in two transfers of whole dwords, in order, the first
    eight bytes, where the status is, after all the others.  Either transfer may
    fail; [qed_iov_send_response] does not look at their codes. *)

From S2P Require Import Prelude Vfpf VfTlv.

Implicit Types (b : buffer) (mbx : qed_iov_vf_mbx).

(** ** The parties *)

(** A dword of the response copied to the VF, or the write that makes the channel
    ready.  (The reset of a VF is not part of the channel.) *)
Inductive micro := MCopy (off : Z) | MReady.

Fixpoint copies (off : Z) (n : nat) : list micro := match n with O => [] | S n => MCopy off :: copies (off + 4) n end.
Definition expand (a : pf_action) : list micro :=
  match a with CopyReply first last => copies first (Z.to_nat ((last - first) / 4)) | ChannelReady => [MReady] | VfFlr => [] end.

Definition copy8 (off : Z) (src dst : buffer) : option buffer := v ← get8 off src; set8 off v dst.
Definition copy32 (off : Z) (src dst : buffer) : option buffer :=
  dst ← copy8 off src dst; dst ← copy8 (off + 1) src dst; dst ← copy8 (off + 2) src dst; copy8 (off + 3) src dst.

(** [waiting]: the VF polls; [ready]: the channel takes a message; [event]: a
    message is on its way to the PF; [todo]: what the PF still does for the message
    it handles; [pf]: what its handlers keep; [log]: requests with the responses the
    VF took for theirs; [timeouts]: requests given up; [failures]: transfers that did
    not move everything. *)
Record chan {P : Type} := mk_chan {
  waiting : bool; iov : qed_vf_iov; ready : bool; event : bool; mbox : qed_iov_vf_mbx; pf : P; todo : list micro;
  log : list (buffer * buffer); timeouts : nat; failures : nat
}.
#[global] Arguments chan : clear implicits.
#[export] Instance eta_chan P : Settable (chan P) := fun r =>
  mk_chan P (waiting r) (iov r) (ready r) (event r) (mbox r) (pf r) (todo r) (log r) (timeouts r) (failures r).

Inductive chan_op :=
  | OSend (type length : Z) (payload : list Z)   (* a request; the bytes after the first TLV's header and address *)
  | OEvent                                        (* the PF is told of the message *)
  | OProcess                                      (* the PF copies the request and handles it *)
  | OMicro                                        (* the PF goes on *)
  | OFail                                         (* the transfer that goes on ends here: it failed, or a recovery skipped it *)
  | OSeen                                         (* the VF reads a status that is not 0 *)
  | OTimeout.                                     (* the VF gives up *)

(** What a handler does for the VF.  Each of them fills in a response, byte by byte,
    leaves [offset] somewhere and calls [qed_iov_send_response] once with a status;
    the reset that the firmware is asked for is not answered. *)
Inductive vf_answer := NoAnswer | AskFlr | Answer (writes : list (Z * Z)) (offset status : Z).

Fixpoint write_all (l : list (Z * Z)) (b : buffer) : option buffer :=
  match l with [] => Some b | (off, v) :: l => b ← set8 off v b; write_all l b end.

Definition give_answer (a : vf_answer) (mbx : qed_iov_vf_mbx) : option (qed_iov_vf_mbx * list pf_action) :=
  match a with
  | NoAnswer => Some (mbx, [])
  | AskFlr => Some (mbx, [VfFlr])
  | Answer writes offset status => r ← write_all writes (reply_virt mbx); qed_iov_send_response status (mbx <| reply_virt := r |> <| mbx_offset := offset |>)
  end.

(** The rest of the transfer that goes on. *)
Fixpoint skip_copies (l : list micro) : list micro := match l with MCopy _ :: l => skip_copies l | l => l end.

Section Channel.
Context {P : Type}.
(** The handlers: what they do to the state of the PF, and their answers. *)
Variable answer : vf_handler -> P -> qed_iov_vf_mbx -> option (P * vf_answer).
Variables (b_malicious has_error : P -> bool) (acquired : P -> Z).
Implicit Types (s : chan P) (p : P).

Definition handle (h : vf_handler) (p : P) (mbx : qed_iov_vf_mbx) : option (P * qed_iov_vf_mbx * list pf_action) :=
  '(p, a) ← answer h p mbx; '(mbx, acts) ← give_answer a mbx; Some (p, mbx, acts).

Definition process (p : P) (mbx : qed_iov_vf_mbx) : option (P * qed_iov_vf_mbx * list pf_action) :=
  qed_iov_process_mbx_req handle true (b_malicious p) (has_error p) (acquired p) p mbx.

(** [None]: the step is not possible, or faults. *)
Definition chan_exec (o : chan_op) (s : chan P) : option (chan P) :=
  match o with
  | OSend type length payload =>
      if waiting s then None else
      v ← qed_vf_pf_prep type length (iov s);
      let request := take 16 (vf2pf_request v) ++ payload in
      if negb (Nat.eqb (List.length request) (List.length (vf2pf_request v))) then None else
      let v := mk_qed_vf_iov (vf_offset v) request (pf2vf_reply v) (pf2vf_reply_phys v) in
      Some (s <| waiting := true |> <| iov := v |> <| event := event s || ready s |> <| ready := false |>)
  | OEvent => if event s then Some (s <| event := false |> <| mbox := qed_sriov_vfpf_msg true (mbox s) |>) else None
  | OProcess =>
      match todo s with
      | [] => if negb (b_pending_msg (mbox s)) then None else
          '(p, mbx, acts) ← process (pf s) (mbox s <| req_virt := vf2pf_request (iov s) |>);
          Some (s <| pf := p |> <| mbox := mbx |> <| todo := mjoin (map expand acts) |>)
      | _ => None
      end
  | OMicro =>
      match todo s with
      | [] => None
      | MReady :: l => Some (s <| ready := true |> <| todo := l |>)
      | MCopy off :: l =>
          r ← copy32 off (reply_virt (mbox s)) (pf2vf_reply (iov s));
          Some (s <| iov := mk_qed_vf_iov (vf_offset (iov s)) (vf2pf_request (iov s)) r (pf2vf_reply_phys (iov s)) |> <| todo := l |>)
      end
  | OFail =>
      match todo s with
      | MCopy _ :: _ => Some (s <| todo := skip_copies (todo s) |> <| failures := S (failures s) |>)
      | _ => None
      end
  | OSeen =>
      if negb (waiting s) then None else
      st ← get8 status_offset (pf2vf_reply (iov s));
      if st =? 0 then None else Some (s <| waiting := false |> <| log := log s ++ [(vf2pf_request (iov s), pf2vf_reply (iov s))] |>)
  | OTimeout =>
      if negb (waiting s) then None else
      st ← get8 status_offset (pf2vf_reply (iov s));
      if st =? 0 then Some (s <| waiting := false |> <| timeouts := S (timeouts s) |>) else None
  end.

Fixpoint chan_run (l : list chan_op) (s : chan P) : option (chan P) :=
  match l with [] => Some s | o :: l => s ← chan_exec o s; chan_run l s end.

(** The response the PF makes to a request. *)
Definition response_to (req rep : buffer) : Prop :=
  exists p p' mbx mbx' acts, b_pending_msg mbx = true /\ req_virt mbx = req /\ process p mbx = Some (p', mbx', acts) /\ acts ≠ [] /\ reply_virt mbx' = rep.

(** ** One message at a time *)

Definition bytes b : Prop := Forall (fun x => 0 <= x < 256) b.

(** Responses are of whole dwords. *)
Variable size : Z.
Hypothesis size_ok : 16 <= size /\ size mod 4 = 0.

Definition reply_ok mbx : Prop := Z.of_nat (length (reply_virt mbx)) = size /\ bytes (reply_virt mbx) /\ b_pending_msg mbx = false.

(** Nothing is done for the VF but, if anything, the sending of a response. *)
Definition responds (acts : list pf_action) : Prop :=
  mjoin (map expand acts) = [] \/ acts = [CopyReply 8 size; ChannelReady; CopyReply 0 8].

(** How far the copy of [r] is: the bytes in [dst]. *)
Definition copied (done : Z -> bool) (r dst : buffer) : Prop :=
  length dst = length r /\ forall o, 0 <= o < size -> get8 o dst = if done o then get8 o r else Some 0.

Lemma copy32_spec off r dst : 0 <= off -> off + 4 <= size -> Z.of_nat (length r) = size -> length dst = length r -> bytes r ->
  exists dst', copy32 off r dst = Some dst' /\ length dst' = length r /\
    forall o, get8 o dst' = if (off <=? o) && (o <? off + 4) then get8 o r else get8 o dst.
Proof.
  intros H0 H1 Hr Hd Hb.
  assert (C : forall k d, 0 <= k < size -> length d = length r -> exists d', copy8 k r d = Some d' /\ length d' = length r /\
    forall o, get8 o d' = if o =? k then get8 o r else get8 o d).
  { intros k d Hk Hl. unfold copy8. destruct (get8_some k r) as [v Ev]; [lia|]. rewrite Ev. simpl.
    destruct (set8_spec k v d) as (d' & -> & L & G & O); [lia|]. exists d'. split; [done|]. split; [congruence|]. intros o.
    destruct (Z.eqb_spec o k) as [->|Ho]; [|by apply O]. rewrite G, Ev. f_equal. unfold u8. apply Z.mod_small.
    unfold get8 in Ev. replace (k <? 0) with false in Ev by lia. unfold bytes in Hb. rewrite Forall_lookup in Hb. by apply (Hb _ _ Ev). }
  unfold copy32. destruct (C off dst) as (d1 & -> & L1 & G1); [lia|done|]. simpl. destruct (C (off + 1) d1) as (d2 & -> & L2 & G2); [lia|done|]. simpl.
  destruct (C (off + 2) d2) as (d3 & -> & L3 & G3); [lia|done|]. simpl. destruct (C (off + 3) d3) as (d4 & -> & L4 & G4); [lia|done|].
  exists d4. split; [done|]. split; [done|]. intros o. rewrite G4, G3, G2, G1.
  destruct (Z.leb_spec off o), (Z.ltb_spec o (off + 4)); simpl; repeat case_match; (done || lia).
Qed.

Lemma copied_step off r dst (f g : Z -> bool) : 0 <= off -> off + 4 <= size -> Z.of_nat (length r) = size -> bytes r -> copied f r dst ->
  (forall o, 0 <= o < size -> g o = f o || (off <=? o) && (o <? off + 4)) ->
  exists dst', copy32 off r dst = Some dst' /\ copied g r dst'.
Proof.
  intros H0 H1 Hr Hb [L C] Hg. destruct (copy32_spec off r dst) as (d & -> & Ld & G); [done..|]. exists d. split; [done|]. split; [done|].
  intros o Ho. rewrite G, Hg, C by done. by destruct (f o), ((off <=? o) && (o <? off + 4)).
Qed.

Lemma copied_all r dst : Z.of_nat (length r) = size -> copied (fun _ => true) r dst -> dst = r.
Proof.
  intros Hr [L C]. apply list_eq. intros k. destruct (decide (k < length r)%nat) as [Hk|Hk].
  - rewrite <- !get8_nat. apply C. lia.
  - rewrite !lookup_ge_None_2 by lia. done.
Qed.


Lemma copied_none r n : length r = n -> Z.of_nat n = size -> copied (fun _ => false) r (replicate n 0).
Proof.
  intros Hr Hn. split; [by rewrite length_replicate|]. intros o Ho. unfold get8. replace (o <? 0) with false by lia. apply lookup_replicate_2. lia.
Qed.

(** ** The response *)

Lemma set8_keeps off v b b' : set8 off v b = Some b' -> length b' = length b /\ (bytes b -> bytes b').
Proof.
  unfold set8. case_match; [|done]. intros [= <-]. split; [apply length_insert|]. intros Hb. apply Forall_insert; [done|].
  pose proof (u8_bound v). simpl. lia.
Qed.

Lemma set16_keeps off v b b' : set16 off v b = Some b' -> length b' = length b /\ (bytes b -> bytes b').
Proof.
  unfold set16. destruct (set8 off v b) as [b1|] eqn:E1; simpl; [|done]. intros E2. apply set8_keeps in E1 as [L1 B1], E2 as [L2 B2]. split; [congruence|auto].
Qed.

Lemma add_keeps type len mbx r : mbx_add_tlv type len mbx = Some r -> reply_ok mbx -> reply_ok (snd r).
Proof.
  unfold mbx_add_tlv, qed_add_tlv. destruct (set16 _ _ (reply_virt mbx)) as [b1|] eqn:E1; simpl; [|done].
  destruct (set16 _ _ b1) as [b2|] eqn:E2; simpl; [|done]. intros [= <-] (H1 & H2 & H3).
  apply set16_keeps in E1 as [L1 B1], E2 as [L2 B2]. split; [simpl; rewrite L2, L1; exact H1|]. split; [auto|exact H3].
Qed.

Lemma write_all_keeps l : forall b b', write_all l b = Some b' -> length b' = length b /\ (bytes b -> bytes b').
Proof.
  induction l as [|[o v] l IH]; intros b b' E; simpl in E; [by simplify_eq|]. apply bind_Some in E as (b1 & E1 & E).
  apply set8_keeps in E1 as [L1 B1]. apply IH in E as [L2 B2]. split; [congruence|auto].
Qed.

Lemma send_responds st mbx r : qed_iov_send_response st mbx = Some r -> reply_ok mbx ->
  reply_ok (fst r) /\ snd r = [CopyReply 8 size; ChannelReady; CopyReply 0 8] /\ get8 status_offset (reply_virt (fst r)) = Some (u8 st).
Proof.
  unfold qed_iov_send_response. intros E (H1 & H2 & H3). destruct (set8_spec status_offset st (reply_virt mbx)) as (b & E1 & L & G & _); [unfold status_offset; lia|].
  rewrite E1 in E. simpl in E. injection E as <-. pose proof (set8_keeps _ _ _ _ E1) as [_ Hb]. simpl. split; [|split; [|exact G]].
  - split; [simpl; rewrite L; exact H1|]. split; [auto|exact H3].
  - unfold sizeof_pfvf_tlvs. simpl. by rewrite L, H1.
Qed.

Lemma prepare_responds type len st mbx r : qed_iov_prepare_resp type len st mbx = Some r -> reply_ok mbx ->
  reply_ok (fst r) /\ snd r = [CopyReply 8 size; ChannelReady; CopyReply 0 8] /\ get8 status_offset (reply_virt (fst r)) = Some (u8 st).
Proof.
  unfold qed_iov_prepare_resp. intros E Hr. set (m0 := mbx <| mbx_offset := 0 |>) in *.
  destruct (mbx_add_tlv type len m0) as [r1|] eqn:E1; simpl in E; [|done]. apply add_keeps in E1; [|exact Hr]. destruct r1 as [o1 m1].
  destruct (mbx_add_tlv _ _ m1) as [r2|] eqn:E2; simpl in E; [|done]. apply add_keeps in E2; [|exact E1]. destruct r2 as [o2 m2].
  by apply send_responds in E.
Qed.

Lemma give_responds a mbx r : give_answer a mbx = Some r -> reply_ok mbx -> reply_ok (fst r) /\ responds (snd r).
Proof.
  destruct a as [| |w o st]; simpl; [intros [= <-] H; by split; [|left]..|]. intros E (H1 & H2 & H3). apply bind_Some in E as (b & E1 & E).
  apply write_all_keeps in E1 as [L B]. apply send_responds in E as (R1 & R2 & _); [split; [done|by right]|]. split; [simpl; by rewrite L|]. split; [auto|exact H3].
Qed.

Lemma process_responds p p' mbx mbx' acts : process p mbx = Some (p', mbx', acts) -> b_pending_msg mbx = true ->
  reply_ok (mbx <| b_pending_msg := false |>) -> reply_ok mbx' /\ responds acts.
Proof.
  unfold process, qed_iov_process_mbx_req. intros E Hp Hr. rewrite Hp in E. simpl in E. set (m0 := mbx <| b_pending_msg := false |>) in *. change (req_virt m0) with (req_virt mbx) in E.
  destruct (tlv_type 0 (req_virt mbx)) as [t|]; simpl in E; [|done]. destruct (reply_address (req_virt mbx)) as [addr|]; simpl in E; [|done].
  assert (R : forall st, ('(m, a) ← qed_iov_prepare_resp t sizeof_def_resp st m0; Some (p, m, a)) = Some (p', mbx', acts) -> reply_ok mbx' /\ responds acts).
  { intros st Es. apply bind_Some in Es as ([m a] & Ep & [= <- <- <-]). apply prepare_responds in Ep as (R1 & R2 & _); [|done]. split; [done|by right]. }
  assert (N : forall l, mjoin (map expand l) = [] -> Some (p, m0, l) = Some (p', mbx', acts) -> reply_ok mbx' /\ responds acts).
  { intros l Hl [= <- <- <-]. split; [done|by left]. }
  destruct (qed_iov_tlv_supported t); simpl in E.
  - destruct (b_malicious p); simpl in E; [by apply R in E|]. destruct (dispatch t) as [h|]; [|by apply N in E].
    unfold handle in E. apply bind_Some in E as ([p1 a1] & _ & E). apply bind_Some in E as ([m2 a2] & E & [= <- <- <-]). by apply give_responds in E.
  - destruct (has_error p); [by apply N in E|]. case_match; [by apply R in E|by apply N in E].
Qed.

(** ** The phases of a request *)

Inductive phase (s : chan P) : Prop :=
  | Idle : waiting s = false -> ready s = true -> event s = false -> b_pending_msg (mbox s) = false -> todo s = [] -> phase s
  | OnTheWay : waiting s = true -> ready s = false -> event s = negb (b_pending_msg (mbox s)) -> todo s = [] ->
      copied (fun _ => false) (reply_virt (mbox s)) (pf2vf_reply (iov s)) -> phase s
  | NoResponse : waiting s = true -> ready s = false -> event s = false -> b_pending_msg (mbox s) = false -> todo s = [] ->
      copied (fun _ => false) (reply_virt (mbox s)) (pf2vf_reply (iov s)) -> phase s
  | Copying off k : waiting s = true -> ready s = false -> event s = false -> b_pending_msg (mbox s) = false ->
      todo s = copies off k ++ [MReady; MCopy 0; MCopy 4] -> 8 <= off -> off + 4 * Z.of_nat k = size ->
      copied (fun o => (8 <=? o) && (o <? off)) (reply_virt (mbox s)) (pf2vf_reply (iov s)) ->
      response_to (vf2pf_request (iov s)) (reply_virt (mbox s)) -> phase s
  | Copying0 : waiting s = true -> ready s = true -> event s = false -> b_pending_msg (mbox s) = false -> todo s = [MCopy 0; MCopy 4] ->
      copied (fun o => 8 <=? o) (reply_virt (mbox s)) (pf2vf_reply (iov s)) -> response_to (vf2pf_request (iov s)) (reply_virt (mbox s)) -> phase s
  | Copying4 : waiting s = true -> ready s = true -> event s = false -> b_pending_msg (mbox s) = false -> todo s = [MCopy 4] ->
      copied (fun o => (8 <=? o) || (o <? 4)) (reply_virt (mbox s)) (pf2vf_reply (iov s)) -> response_to (vf2pf_request (iov s)) (reply_virt (mbox s)) -> phase s
  | Answered : waiting s = true -> ready s = true -> event s = false -> b_pending_msg (mbox s) = false -> todo s = [] ->
      copied (fun _ => true) (reply_virt (mbox s)) (pf2vf_reply (iov s)) -> response_to (vf2pf_request (iov s)) (reply_virt (mbox s)) -> phase s.

Record inv (s : chan P) : Prop := {
  inv_reply : Z.of_nat (length (pf2vf_reply (iov s))) = size;
  inv_mbox : Z.of_nat (length (reply_virt (mbox s))) = size /\ bytes (reply_virt (mbox s));
  inv_log : Forall (fun e => response_to (fst e) (snd e) /\ exists st, get8 status_offset (snd e) = Some st /\ st ≠ 0) (log s);
  inv_phase : phase s
}.

Lemma copied_ext f g r dst : (forall o, 0 <= o < size -> f o = g o) -> copied f r dst -> copied g r dst.
Proof. intros E [L C]. split; [done|]. intros o Ho. rewrite <- E by done. by apply C. Qed.

Lemma copied_false r r' dst : length r' = length r -> copied (fun _ => false) r dst -> copied (fun _ => false) r' dst.
Proof. intros E [L C]. split; [congruence|exact C]. Qed.

Lemma prep_reply type len v v' : qed_vf_pf_prep type len v = Some v' -> pf2vf_reply v' = replicate (length (pf2vf_reply v)) 0.
Proof.
  unfold qed_vf_pf_prep. destruct (qed_add_tlv _ _ _ _) as [[[st b] o]|]; simpl; [|done]. intros E. by apply bind_Some in E as (? & _ & [= <-]).
Qed.

Ltac by_phase H := destruct H as [Hw Hrd Hev Hp Ht | Hw Hrd Hev Ht Hc | Hw Hrd Hev Hp Ht Hc | coff ck Hw Hrd Hev Hp Ht Ho Hk Hc Hr | Hw Hrd Hev Hp Ht Hc Hr | Hw Hrd Hev Hp Ht Hc Hr | Hw Hrd Hev Hp Ht Hc Hr]; try congruence.

Lemma send_inv type len payload s s' : inv s -> chan_exec (OSend type len payload) s = Some s' -> inv s'.
Proof.
  intros [I1 I2 I3 I4]. simpl. destruct (waiting s) eqn:Ew; [done|]. destruct (qed_vf_pf_prep _ _ _) as [v|] eqn:Ep; simpl; [|done].
  apply prep_reply in Ep. case_match; [done|]. intros [= <-]. by_phase I4. split; simpl; [rewrite Ep, length_replicate; exact I1|exact I2|exact I3|].
  apply OnTheWay; simpl; [done|done|by rewrite Hev, Hrd, Hp|done|]. rewrite Ep. apply copied_none; lia.
Qed.

Lemma event_inv s s' : inv s -> chan_exec OEvent s = Some s' -> inv s'.
Proof.
  intros [I1 I2 I3 I4]. simpl. destruct (event s) eqn:Ee; [|done]. intros [= <-]. by_phase I4. split; simpl; [done..|]. by apply OnTheWay.
Qed.

Lemma process_inv s s' : inv s -> chan_exec OProcess s = Some s' -> inv s'.
Proof.
  intros [I1 [I2 I2'] I3 I4]. cbn [chan_exec]. destruct (todo s) eqn:Et; [|done]. destruct (b_pending_msg (mbox s)) eqn:Eb; simpl; [|done].
  set (m := mbox s <| req_virt := _ |>). destruct (process (pf s) m) as [[[p' m'] acts]|] eqn:Ep; simpl; [|done]. intros [= <-]. by_phase I4.
  destruct (process_responds _ p' m m' acts Ep Eb) as [(R1 & R2 & R3) R]; [by split; [|split]|]. assert (L : length (reply_virt m') = length (reply_virt (mbox s))) by lia.
  split; simpl; [done|done|done|]. destruct R as [R| ->].
  - apply NoResponse; simpl; [done|done|by rewrite Hev, Eb|done|done|]. by apply (copied_false (reply_virt (mbox s))).
  - destruct size_ok as [Z1 Z2]. pose proof (Z.div_mod size 4 ltac:(lia)) as Z3.
    assert (Z4 : (size - 8) / 4 = size / 4 - 2) by (symmetry; apply Z.div_unique_exact; lia).
    assert (Z5 : 8 + 4 * Z.of_nat (Z.to_nat ((size - 8) / 4)) = size) by lia.
    apply (Copying _ 8 (Z.to_nat ((size - 8) / 4))); [done|done|by simpl; rewrite Hev, Eb|done|done|lia|exact Z5| |]; simpl.
    + eapply copied_ext; [|by apply (copied_false (reply_virt (mbox s)))]. intros o Hq. cbv beta. lia.
    + exists (pf s), p', m, m', [CopyReply 8 size; ChannelReady; CopyReply 0 8]. by split_and!.
Qed.

Lemma micro_inv s s' : inv s -> chan_exec OMicro s = Some s' -> inv s'.
Proof.
  intros [I1 [I2 I2'] I3 I4] E. destruct size_ok as [Z1 _].
  assert (Step : forall off l f g, todo s = MCopy off :: l -> copied f (reply_virt (mbox s)) (pf2vf_reply (iov s)) -> 0 <= off -> off + 4 <= size ->
      (forall o, 0 <= o < size -> g o = f o || (off <=? o) && (o <? off + 4)) ->
      exists r, s' = s <| iov := mk_qed_vf_iov (vf_offset (iov s)) (vf2pf_request (iov s)) r (pf2vf_reply_phys (iov s)) |> <| todo := l |> /\ copied g (reply_virt (mbox s)) r).
  { intros off l f g Ht Hc Ho Hs Hg. destruct (copied_step off _ _ f g Ho Hs I2 I2' Hc Hg) as (r & Er & Hr). exists r. split; [|done].
    cbn [chan_exec] in E. rewrite Ht, Er in E. simpl in E. congruence. }
  by_phase I4; try (cbn [chan_exec] in E; rewrite Ht in E; discriminate).
  - destruct ck as [|k]; cbn [copies app] in Ht.
    + cbn [chan_exec] in E. rewrite Ht in E. injection E as <-. split; simpl; [done..|]. apply Copying0; simpl; [done..| |done].
      eapply copied_ext; [|exact Hc]. intros o Hq. cbv beta. lia.
    + destruct (Step coff _ _ (fun o => (8 <=? o) && (o <? coff + 4)) Ht Hc) as (r & -> & C); [lia|lia|intros o Hq; cbv beta; lia|].
      split; simpl; [destruct C; lia|done|done|]. apply (Copying _ (coff + 4) k); simpl; (done || lia).
  - destruct (Step 0 _ _ (fun o => (8 <=? o) || (o <? 4)) Ht Hc) as (r & -> & C); [lia|lia|intros o Hq; cbv beta; lia|].
    split; simpl; [destruct C; lia|done|done|]. by apply Copying4.
  - destruct (Step 4 _ _ (fun _ => true) Ht Hc) as (r & -> & C); [lia|lia|intros o Hq; cbv beta; lia|].
    split; simpl; [destruct C; lia|done|done|]. by apply Answered.
Qed.

Lemma seen_inv s s' : inv s -> chan_exec OSeen s = Some s' -> inv s'.
Proof.
  intros [I1 [I2 I2'] I3 I4]. cbn [chan_exec]. destruct (waiting s) eqn:Ew; simpl; [|done].
  destruct (get8 status_offset _) as [st|] eqn:Es; simpl; [|done]. destruct (Z.eqb_spec st 0) as [|Hst]; [done|]. intros [= <-]. destruct size_ok as [Z1 _].
  by_phase I4; try (destruct Hc as [_ Hc]; rewrite (Hc status_offset) in Es by (unfold status_offset; lia); unfold status_offset in Es; simpl in Es;
    rewrite ?andb_false_r in Es; simpl in Es; congruence).
  apply copied_all in Hc; [|done]. split; simpl; [done|done| |by apply Idle]. apply Forall_app. split; [done|]. constructor; [|constructor]. simpl. split; [by rewrite Hc|by exists st].
Qed.

(** What went wrong so far. *)
Definition mishaps s : nat := (timeouts s + failures s)%nat.

Lemma mishaps_grow o s s' : chan_exec o s = Some s' -> (timeouts s <= timeouts s')%nat /\ (failures s <= failures s')%nat.
Proof.
  destruct o; simpl; intros E; repeat (case_match || (apply bind_Some in E as (? & ? & E))); simplify_eq; simpl; lia.
Qed.

Lemma mishaps_run l : forall s s', chan_run l s = Some s' -> (timeouts s <= timeouts s')%nat /\ (failures s <= failures s')%nat.
Proof.
  induction l as [|o l IH]; intros s s' E; simpl in E; [by simplify_eq|]. apply bind_Some in E as (s1 & E1 & E).
  apply mishaps_grow in E1. apply IH in E. lia.
Qed.

Lemma chan_step_inv o s s' : inv s -> chan_exec o s = Some s' -> mishaps s' = mishaps s -> inv s'.
Proof.
  destruct o; intros I E T; eauto using send_inv, event_inv, process_inv, micro_inv, seen_inv; unfold mishaps in T;
    simpl in E; repeat (case_match || (apply bind_Some in E as (? & ? & E))); simplify_eq; simpl in T; lia.
Qed.

Lemma chan_run_inv l : forall s s', inv s -> chan_run l s = Some s' -> mishaps s' = mishaps s -> inv s'.
Proof.
  induction l as [|o l IH]; intros s s' I E T; simpl in E; [by simplify_eq|]. apply bind_Some in E as (s1 & E1 & E).
  pose proof (mishaps_grow _ _ _ E1). pose proof (mishaps_run _ _ _ E). unfold mishaps in T.
  eapply IH; [eapply chan_step_inv; [exact I|exact E1|unfold mishaps; lia]|exact E|unfold mishaps; lia].
Qed.

(** ** Progress *)

Lemma copies_in off l1 l2 : forall k a, copies a k ++ l1 = MCopy off :: l2 -> (exists k', k = S k' /\ off = a) \/ k = O /\ l1 = MCopy off :: l2.
Proof. intros [|k] a E; [by right|]. simpl in E. injection E as -> E. left. by exists k. Qed.

Lemma micro_progress s m l : inv s -> todo s = m :: l -> (MReady ∈ todo s \/ ready s = true) ->
  exists s', chan_exec OMicro s = Some s' /\ todo s' = l /\ (MReady ∈ todo s' \/ ready s' = true) /\
    waiting s' = waiting s /\ vf2pf_request (iov s') = vf2pf_request (iov s) /\ mbox s' = mbox s /\ log s' = log s /\ timeouts s' = timeouts s.
Proof.
  intros [I1 [I2 I2'] I3 I4] Et Hg. cbn [chan_exec]. rewrite Et. destruct m as [off|].
  - assert (B : 0 <= off /\ off + 4 <= size).
    { destruct size_ok as [Z1 _]. by_phase I4; rewrite Et in Ht; simplify_eq; try lia. symmetry in Ht. apply copies_in in Ht as [(k' & -> & ->)|[-> ?]]; [lia|done]. }
    destruct (copy32_spec off (reply_virt (mbox s)) (pf2vf_reply (iov s))) as (d & -> & _ & _); [lia|lia|done|lia|done|]. simpl. eexists. split; [done|]. simpl.
    split_and!; try done. destruct Hg as [Hg|Hg]; [left|by right]. rewrite Et in Hg. apply elem_of_cons in Hg as [?|?]; [done|done].
  - eexists. split; [done|]. simpl. split_and!; try done. by right.
Qed.

Lemma micros_run l : forall s, inv s -> todo s = l -> waiting s = true -> (MReady ∈ todo s \/ ready s = true) ->
  get8 status_offset (reply_virt (mbox s)) ≠ Some 0 ->
  exists s', chan_run (replicate (length l) OMicro ++ [OSeen]) s = Some s' /\ waiting s' = false /\ log s' = log s ++ [(vf2pf_request (iov s), reply_virt (mbox s))].
Proof.
  induction l as [|m l IH]; intros s I Et Hw0 Hg Hst.
  - destruct Hg as [Hg|Hg]; [rewrite Et in Hg; set_solver|]. cbn [length replicate app chan_run]. destruct I as [I1 [I2 I2'] I3 I4]. by_phase I4.
    apply copied_all in Hc; [|done]. destruct (get8_some status_offset (reply_virt (mbox s))) as [st Gst]; [destruct size_ok; unfold status_offset; lia|].
    cbn [chan_exec]. rewrite Hw, Hc, Gst. simpl. replace (st =? 0) with false by (rewrite Gst in Hst; destruct (Z.eqb_spec st 0); congruence). eexists. split; [done|]. by split.
  - destruct (micro_progress s m l I Et Hg) as (s1 & E1 & E2 & E3 & E4 & E5 & E6 & E7 & E8). pose proof (micro_inv _ _ I E1) as I1.
    destruct (IH s1 I1 E2) as (s2 & R1 & R2 & R3); [congruence|exact E3|congruence|]. exists s2. cbn [length replicate app chan_run]. rewrite E1. cbn [mbind option_bind].
    split; [exact R1|]. split; [exact R2|]. by rewrite R3, E5, E6, E7.
Qed.

(** Once the PF sends a response with a status that is not 0 the VF gets it. *)
Lemma response_arrives s : inv s -> todo s ≠ [] -> get8 status_offset (reply_virt (mbox s)) ≠ Some 0 ->
  exists s', chan_run (replicate (length (todo s)) OMicro ++ [OSeen]) s = Some s' /\ waiting s' = false /\ log s' = log s ++ [(vf2pf_request (iov s), reply_virt (mbox s))].
Proof.
  intros I Hne Hst. pose proof I as [_ _ _ I4]. apply micros_run; [done|done| | |done]; by_phase I4; try done; [|by right|by right].
  left. rewrite Ht. apply elem_of_app. right. set_solver.
Qed.

End Channel.

(** ** Handlers as answers *)

(** The answer that leaves a mailbox as a handler left it. *)
Fixpoint all_writes (off : Z) (b : buffer) : list (Z * Z) := match b with [] => [] | v :: b => (off, v) :: all_writes (off + 1) b end.
Definition as_answer mbx : vf_answer := Answer (all_writes 0 (reply_virt mbx)) (mbx_offset mbx) (default 0 (get8 status_offset (reply_virt mbx))).

Lemma write_all_writes b : forall pre old, length old = length b -> bytes b -> write_all (all_writes (Z.of_nat (length pre)) b) (pre ++ old) = Some (pre ++ b).
Proof.
  induction b as [|v b IH]; intros pre old Hl Hb; (destruct old as [|w old]; simpl in Hl; [try done|try done]). apply Forall_cons_1 in Hb as [Hv Hb].
  cbn [all_writes write_all]. unfold set8. rewrite length_app. cbn [length].
  rewrite (proj2 (Z.leb_le _ _)), (proj2 (Z.ltb_lt _ _)) by lia. cbn [andb]. cbn [mbind option_bind].
  unfold buffer in *. rewrite Nat2Z.id, insert_app_r_alt, Nat.sub_diag by lia. cbn [insert list_insert]. rewrite u8_small by lia.
  replace (Z.of_nat (length pre) + 1) with (Z.of_nat (length (pre ++ [v]))) by (rewrite length_app; simpl; lia).
  replace (pre ++ v :: old) with ((pre ++ [v]) ++ old) by (by rewrite <- app_assoc). rewrite IH by (done || lia). by rewrite <- app_assoc.
Qed.

(** Whatever a handler writes in the response, it is an answer: any handler that ends
    in [qed_iov_send_response] is one. *)
Lemma handler_answers size mbx m1 m2 st acts : 16 <= size /\ size mod 4 = 0 -> reply_ok size mbx -> reply_ok size m1 -> req_virt m1 = req_virt mbx ->
  qed_iov_send_response st m1 = Some (m2, acts) -> give_answer (as_answer m2) mbx = Some (m2, acts).
Proof.
  intros Hs (H1 & H2 & H3) R1 Hq E. pose proof (send_responds _ Hs _ _ _ E R1) as ((L & B & N) & _ & G). cbn [fst snd] in *.
  unfold as_answer, give_answer. rewrite G. cbn [default from_option id]. pose proof (write_all_writes (reply_virt m2) [] (reply_virt mbx)) as W. simpl app in W.
  change (Z.of_nat (length [])) with 0 in W. rewrite W by (done || lia). cbn [mbind option_bind]. unfold qed_iov_send_response in *.
  apply bind_Some in E as (r & E & [= <- <-]). cbn [reply_virt] in *. simpl reply_virt in *. unfold set8 in E |- *. destruct R1 as (L1 & _ & N1).
  case_match; [|done]. injection E as <-. unfold buffer in *. rewrite length_insert.
  match goal with |- context [if ?c then _ else _] => replace c with true by (unfold status_offset; lia) end. cbn [mbind option_bind].
  assert (I : <[Z.to_nat status_offset := u8 (u8 st)]> (<[Z.to_nat status_offset := u8 st]> (reply_virt m1)) = <[Z.to_nat status_offset := u8 st]> (reply_virt m1)).
  { unfold buffer. rewrite list_insert_insert_eq. f_equal. apply u8_small, u8_bound. }
  destruct mbx, m1. cbn in I, N1, H3, Hq |- *. unfold buffer in *. rewrite I. unfold sizeof_pfvf_tlvs. subst. reflexivity.
Qed.
