(* ===== verification/VfVport.v ===== *)
(** * Vport updates of a VF (qed_sriov.c)

    The PF looks in the request of a VF for each of the eight kinds of TLV a vport
    update may have, builds the parameters of the ramrod from those it finds, and
    answers with an entry for each.  Of the VF's information, of the parameters and of
    the TLVs there are the fields that these functions use. *)

From S2P Require Import Prelude Vfpf VfTlv.

Implicit Types (req : buffer).

(** ** Data *)

Definition QED_IOV_VP_UPDATE_ACTIVATE : Z := 0.
Definition QED_IOV_VP_UPDATE_VLAN_STRIP : Z := 1.
Definition QED_IOV_VP_UPDATE_TX_SWITCH : Z := 2.
Definition QED_IOV_VP_UPDATE_MCAST : Z := 3.
Definition QED_IOV_VP_UPDATE_ACCEPT_PARAM : Z := 4.
Definition QED_IOV_VP_UPDATE_RSS : Z := 5.
Definition QED_IOV_VP_UPDATE_ACCEPT_ANY_VLAN : Z := 6.
Definition QED_IOV_VP_UPDATE_SGE_TPA : Z := 7.

Definition QED_RSS_IND_TABLE_SIZE : Z := 128.
Definition QED_RSS_KEY_SIZE : nat := 10.
Definition ETH_MULTICAST_MAC_BINS_IN_REGS : nat := 8.
Definition QED_ACCEPT_UCAST_UNMATCHED : Z := 0x04.
Definition QED_ACCEPT_MCAST_UNMATCHED : Z := 0x10.

(** A queue of a queue zone: [b_is_tx], and [p_cid] by the queue's id, [None] for NULL. *)
Definition qed_vf_queue_cid : Type := bool * option Z.

(** [struct qed_vf_info]; [inner_vlan_removal] is that of its [shadow_config],
    [vlan_addr_forced] the bit of its [configured_features]. *)
Record qed_vf_info := mk_qed_vf_info {
  vf_opaque_fid : Z; vf_vport_id : Z; vf_rss_eng_id : Z; vf_rss_enabled : bool; rss_ind_tbl_valid : bool; rss_ind_tbl_size : Z; rss_tbl_size : Z;
  vf_vport_instance : Z; num_rxqs : Z; vf_queues : list (list qed_vf_queue_cid); inner_vlan_removal : Z; vlan_addr_forced : bool
}.
#[export] Instance eta_qed_vf_info : Settable qed_vf_info := fun r =>
  mk_qed_vf_info (vf_opaque_fid r) (vf_vport_id r) (vf_rss_eng_id r) (vf_rss_enabled r) (rss_ind_tbl_valid r) (rss_ind_tbl_size r) (rss_tbl_size r)
    (vf_vport_instance r) (num_rxqs r) (vf_queues r) (inner_vlan_removal r) (vlan_addr_forced r).

(** [struct qed_public_vf_info]. *)
Record qed_public_vf_info := mk_qed_public_vf_info {
  forced_vlan : Z; is_trusted_configured : bool; rx_accept_mode : Z; tx_accept_mode : Z; pub_accept_any_vlan : bool
}.
#[export] Instance eta_qed_public_vf_info : Settable qed_public_vf_info := fun r =>
  mk_qed_public_vf_info (forced_vlan r) (is_trusted_configured r) (rx_accept_mode r) (tx_accept_mode r) (pub_accept_any_vlan r).

Record qed_rss_params := mk_qed_rss_params {
  update_rss_config : bool; rss_enable : Z; rss_eng_id : Z; update_rss_capabilities : bool; update_rss_ind_table : bool; update_rss_key : bool;
  rss_caps : Z; rss_table_size_log : Z; rss_ind_table : list (option Z); rss_key : list Z
}.
#[export] Instance eta_qed_rss_params : Settable qed_rss_params := fun r =>
  mk_qed_rss_params (update_rss_config r) (rss_enable r) (rss_eng_id r) (update_rss_capabilities r) (update_rss_ind_table r) (update_rss_key r)
    (rss_caps r) (rss_table_size_log r) (rss_ind_table r) (rss_key r).

Record qed_sge_tpa_params := mk_qed_sge_tpa_params {
  max_buffers_per_cqe : Z; update_tpa_en_flg : bool; tpa_ipv4_en_flg : bool; tpa_ipv6_en_flg : bool; tpa_ipv4_tunn_en_flg : bool; tpa_ipv6_tunn_en_flg : bool;
  update_tpa_param_flg : bool; tpa_pkt_split_flg : bool; tpa_hdr_data_split_flg : bool; tpa_gro_consistent_flg : bool;
  tpa_max_aggs_num : Z; tpa_max_size : Z; tpa_min_size_to_start : Z; tpa_min_size_to_cont : Z
}.

Record qed_filter_accept_flags := mk_qed_filter_accept_flags {
  update_rx_mode_config : Z; update_tx_mode_config : Z; rx_accept_filter : Z; tx_accept_filter : Z
}.
#[export] Instance eta_qed_filter_accept_flags : Settable qed_filter_accept_flags := fun r =>
  mk_qed_filter_accept_flags (update_rx_mode_config r) (update_tx_mode_config r) (rx_accept_filter r) (tx_accept_filter r).

(** [struct qed_sp_vport_update_params]; [None] is a NULL pointer. *)
Record qed_sp_vport_update_params := mk_qed_sp_vport_update_params {
  opaque_fid : Z; vport_id : Z; update_vport_active_rx_flg : Z; vport_active_rx_flg : Z; update_vport_active_tx_flg : Z; vport_active_tx_flg : Z;
  update_inner_vlan_removal_flg : Z; inner_vlan_removal_flg : Z; update_tx_switching_flg : Z; tx_switching_flg : Z; update_approx_mcast_flg : Z;
  update_accept_any_vlan_flg : Z; accept_any_vlan : Z; bins : list Z; rss_params : option qed_rss_params; accept_flags : qed_filter_accept_flags;
  sge_tpa_params : option qed_sge_tpa_params
}.
#[export] Instance eta_qed_sp_vport_update_params : Settable qed_sp_vport_update_params := fun r =>
  mk_qed_sp_vport_update_params (opaque_fid r) (vport_id r) (update_vport_active_rx_flg r) (vport_active_rx_flg r) (update_vport_active_tx_flg r)
    (vport_active_tx_flg r) (update_inner_vlan_removal_flg r) (inner_vlan_removal_flg r) (update_tx_switching_flg r) (tx_switching_flg r)
    (update_approx_mcast_flg r) (update_accept_any_vlan_flg r) (accept_any_vlan r) (bins r) (rss_params r) (accept_flags r) (sge_tpa_params r).

Implicit Types (vf : qed_vf_info) (p : qed_sp_vport_update_params) (mask accepted : Z).

(** ** Queues *)

Inductive qed_iov_validate_q_mode := QED_IOV_VALIDATE_Q_NA | QED_IOV_VALIDATE_Q_ENABLE | QED_IOV_VALIDATE_Q_DISABLE.

(** The first Rx queue of a zone. *)
Fixpoint qed_iov_get_vf_rx_queue_cid (cids : list qed_vf_queue_cid) : option Z :=
  match cids with [] => None | (false, Some cid) :: _ => Some cid | _ :: cids => qed_iov_get_vf_rx_queue_cid cids end.

Fixpoint queue_enabled (b_is_tx : bool) (cids : list qed_vf_queue_cid) : bool :=
  match cids with
  | [] => false
  | (_, None) :: cids => queue_enabled b_is_tx cids
  | (tx, Some _) :: cids => if negb (Bool.eqb tx b_is_tx) then queue_enabled b_is_tx cids else true
  end.

Definition qed_iov_validate_queue_mode vf (qid : Z) (mode : qed_iov_validate_q_mode) (b_is_tx : bool) : option bool :=
  match mode with
  | QED_IOV_VALIDATE_Q_NA => Some true
  | _ => cids ← vf_queues vf !! Z.to_nat qid;
      Some (match mode with QED_IOV_VALIDATE_Q_ENABLE => queue_enabled b_is_tx cids | _ => negb (queue_enabled b_is_tx cids) end)
  end.

Definition qed_iov_validate_rxq vf (rx_qid : Z) (mode : qed_iov_validate_q_mode) : option bool :=
  if num_rxqs vf <=? rx_qid then Some false else qed_iov_validate_queue_mode vf rx_qid mode false.

(** ** The TLVs *)

(** [k] at the TLV that the search finds, [none] when it finds none. *)
Definition with_tlv {A} (type : Z) req (none : A) (k : Z -> option A) : option A :=
  r ← qed_iov_search_list_tlvs type req; match r with None => Some none | Some o => k o end.

Definition set_flag (flag mask : Z) : Z := Z.lor mask (Z.shiftl 1 flag).

(** Words of [w] bytes. *)
Fixpoint get_words (w : nat) (n : nat) (off : Z) (b : buffer) : option (list Z) :=
  match n with O => Some [] | S n => v ← get_bytes off w b; l ← get_words w n (off + Z.of_nat w) b; Some (v :: l) end.

Definition qed_iov_vp_update_act_param p req mask : option (qed_sp_vport_update_params * Z) :=
  with_tlv CHANNEL_TLV_VPORT_UPDATE_ACTIVATE req (p, mask) (fun o =>
    update_rx ← get8 (o + 4) req; update_tx ← get8 (o + 5) req; active_rx ← get8 (o + 6) req; active_tx ← get8 (o + 7) req;
    Some (p <| update_vport_active_rx_flg := update_rx |> <| vport_active_rx_flg := active_rx |>
            <| update_vport_active_tx_flg := update_tx |> <| vport_active_tx_flg := active_tx |>, set_flag QED_IOV_VP_UPDATE_ACTIVATE mask)).

Definition qed_iov_vp_update_vlan_param p vf req mask : option (qed_sp_vport_update_params * qed_vf_info * Z) :=
  with_tlv CHANNEL_TLV_VPORT_UPDATE_VLAN_STRIP req (p, vf, mask) (fun o =>
    remove_vlan ← get8 (o + 4) req;
    let vf := vf <| inner_vlan_removal := remove_vlan |> in
    let p := if negb (vlan_addr_forced vf) then p <| update_inner_vlan_removal_flg := 1 |> <| inner_vlan_removal_flg := remove_vlan |> else p in
    Some (p, vf, set_flag QED_IOV_VP_UPDATE_VLAN_STRIP mask)).

(** [fpga]: [CHIP_REV_IS_FPGA]. *)
Definition qed_iov_vp_update_tx_switch (fpga : bool) p req mask : option (qed_sp_vport_update_params * Z) :=
  with_tlv CHANNEL_TLV_VPORT_UPDATE_TX_SWITCH req (p, mask) (fun o =>
    if fpga then Some (p, mask) else
    tx_switching ← get8 (o + 4) req;
    Some (p <| update_tx_switching_flg := 1 |> <| tx_switching_flg := tx_switching |>, set_flag QED_IOV_VP_UPDATE_TX_SWITCH mask)).

Definition qed_iov_vp_update_mcast_bin_param p req mask : option (qed_sp_vport_update_params * Z) :=
  with_tlv CHANNEL_TLV_VPORT_UPDATE_MCAST req (p, mask) (fun o =>
    l ← get_words 4 ETH_MULTICAST_MAC_BINS_IN_REGS (o + 8) req;
    Some (p <| update_approx_mcast_flg := 1 |> <| bins := l |>, set_flag QED_IOV_VP_UPDATE_MCAST mask)).

Definition qed_iov_vp_update_accept_flag p req mask : option (qed_sp_vport_update_params * Z) :=
  with_tlv CHANNEL_TLV_VPORT_UPDATE_ACCEPT_PARAM req (p, mask) (fun o =>
    update_rx ← get8 (o + 4) req; update_tx ← get8 (o + 5) req; rx ← get8 (o + 6) req; tx ← get8 (o + 7) req;
    Some (p <| accept_flags := mk_qed_filter_accept_flags update_rx update_tx rx tx |>, set_flag QED_IOV_VP_UPDATE_ACCEPT_PARAM mask)).

Definition qed_iov_vp_update_accept_any_vlan p req mask : option (qed_sp_vport_update_params * Z) :=
  with_tlv CHANNEL_TLV_VPORT_UPDATE_ACCEPT_ANY_VLAN req (p, mask) (fun o =>
    update ← get8 (o + 4) req; accept ← get8 (o + 5) req;
    Some (p <| accept_any_vlan := accept |> <| update_accept_any_vlan_flg := update |>, set_flag QED_IOV_VP_UPDATE_ACCEPT_ANY_VLAN mask)).

Definition qed_iov_vp_update_sge_tpa_param p req mask : option (qed_sp_vport_update_params * Z) :=
  with_tlv CHANNEL_TLV_VPORT_UPDATE_SGE_TPA req (p <| sge_tpa_params := None |>, mask) (fun o =>
    flags ← get16 (o + 4) req; update ← get8 (o + 6) req; max_buffers ← get8 (o + 7) req;
    max_size ← get16 (o + 10) req; to_start ← get16 (o + 12) req; to_cont ← get16 (o + 14) req; max_aggs ← get8 (o + 16) req;
    let f := Z.testbit flags in
    let sge_tpa := mk_qed_sge_tpa_params max_buffers (Z.testbit update 1) (f 0) (f 1) (f 5) (f 6) (Z.testbit update 2) (f 2) (f 3) (f 4) max_aggs max_size to_start to_cont in
    Some (p <| sge_tpa_params := Some sge_tpa |>, set_flag QED_IOV_VP_UPDATE_SGE_TPA mask)).

(** ** RSS *)

(** [min_t(u16, ARRAY_SIZE(rss_ind_table), BIT(log))]: a 64-bit shift, whose count the
    machine takes modulo 64, cut to 16 bits. *)
Definition table_size_of (log : Z) : Z := Z.min QED_RSS_IND_TABLE_SIZE (u16 (Z.shiftl 1 (log mod 64))).

(** The loop over the table of the TLV at [o]: whether it is rejected, and the table. *)
Fixpoint rss_ind_loop (n : nat) (i : Z) vf (o : Z) req (table : list (option Z)) : option (bool * list (option Z)) :=
  match n with
  | O => Some (false, table)
  | S n =>
      q_idx ← get16 (o + 8 + 2 * i) req;
      valid ← qed_iov_validate_rxq vf q_idx QED_IOV_VALIDATE_Q_ENABLE;
      if negb valid then Some (true, table) else
      queue ← vf_queues vf !! Z.to_nat q_idx;
      if QED_RSS_IND_TABLE_SIZE <=? i then None else
      rss_ind_loop n (i + 1) vf o req (<[Z.to_nat i := qed_iov_get_vf_rx_queue_cid queue]> table)
  end.

Definition qed_iov_vp_update_rss_param vf p req mask accepted : option (qed_vf_info * qed_sp_vport_update_params * Z * Z) :=
  with_tlv CHANNEL_TLV_VPORT_UPDATE_RSS req (vf, p <| rss_params := None |>, mask, accepted) (fun o =>
    flags ← get8 (o + 4) req; enable ← get8 (o + 5) req; caps ← get8 (o + 6) req; log ← get8 (o + 7) req; key ← get_words 4 QED_RSS_KEY_SIZE (o + 264) req;
    let rss := mk_qed_rss_params (Z.testbit flags 0) enable (vf_rss_eng_id vf) (Z.testbit flags 1) (Z.testbit flags 2) (Z.testbit flags 3) caps log
                 (replicate (Z.to_nat QED_RSS_IND_TABLE_SIZE) None) key in
    let table_size := if update_rss_capabilities rss then table_size_of log else rss_tbl_size vf in
    '(b_reject, table) ← rss_ind_loop (if update_rss_ind_table rss then Z.to_nat table_size else O) 0 vf o req (rss_ind_table rss);
    let rss := rss <| rss_ind_table := table |> in
    let mask := set_flag QED_IOV_VP_UPDATE_RSS mask in
    if b_reject : bool then Some (vf, p, mask, accepted) else
    if update_rss_config rss && negb (enable =? 0) && negb (update_rss_ind_table rss) && negb (rss_ind_tbl_valid vf) then Some (vf, p, mask, accepted) else
    if negb (update_rss_ind_table rss) && update_rss_capabilities rss && (rss_ind_tbl_size vf <? table_size) then Some (vf, p, mask, accepted) else
    let vf := if update_rss_config rss then vf <| vf_rss_enabled := negb (enable =? 0) |> else vf in
    let vf := if update_rss_ind_table rss then vf <| rss_ind_tbl_valid := true |> <| rss_ind_tbl_size := table_size |> else vf in
    let vf := if update_rss_capabilities rss then vf <| rss_tbl_size := table_size |> else vf in
    Some (vf, p <| rss_params := Some rss |>, mask, set_flag QED_IOV_VP_UPDATE_RSS accepted)).

(** ** The handler *)

(** [pub]: what [qed_iov_get_public_vf_info] finds.  (The mask it gets is not
    changed.) *)
Definition qed_iov_pre_update_vport (pub : option qed_public_vf_info) p (tlvs : Z) : Z * option qed_public_vf_info * qed_sp_vport_update_params :=
  let mask := Z.lor QED_ACCEPT_UCAST_UNMATCHED QED_ACCEPT_MCAST_UNMATCHED in
  let tlv_mask := Z.lor (Z.shiftl 1 QED_IOV_VP_UPDATE_ACCEPT_PARAM) (Z.shiftl 1 QED_IOV_VP_UPDATE_ACCEPT_ANY_VLAN) in
  if Z.land tlvs tlv_mask =? 0 then (0, pub, p) else
  match pub with
  | None => (- EINVAL, pub, p)
  | Some v =>
      let '(v, p) :=
        if update_rx_mode_config (accept_flags p) =? 0 then (v, p) else
        (v <| rx_accept_mode := rx_accept_filter (accept_flags p) |>,
         if is_trusted_configured v then p else p <| accept_flags := accept_flags p <| rx_accept_filter := Z.land (rx_accept_filter (accept_flags p)) (Z.lnot mask) |> |>) in
      let '(v, p) :=
        if update_tx_mode_config (accept_flags p) =? 0 then (v, p) else
        (v <| tx_accept_mode := tx_accept_filter (accept_flags p) |>,
         if is_trusted_configured v then p else p <| accept_flags := accept_flags p <| tx_accept_filter := Z.land (tx_accept_filter (accept_flags p)) (Z.lnot mask) |> |>) in
      let '(v, p) :=
        if update_accept_any_vlan_flg p =? 0 then (v, p) else
        (v <| pub_accept_any_vlan := negb (accept_any_vlan p =? 0) |>,
         if negb (forced_vlan v =? 0) && negb (is_trusted_configured v) then p <| accept_any_vlan := 0 |> else p) in
      (0, Some v, p)
  end.

(** What the PF has of the VF after a request, and the parameters that went to
    [qed_sp_vport_update], if any. *)
Record vport_outcome := mk_vport_outcome {
  out_status : Z; out_vf : qed_vf_info; out_pub : option qed_public_vf_info; out_mask : Z; out_accepted : Z; out_sent : option qed_sp_vport_update_params
}.

(** The searches of the handler: the VF, the parameters, the TLVs that were found and
    those that are accepted. *)
Definition vp_update_params (fpga : bool) vf req : option (qed_vf_info * qed_sp_vport_update_params * Z * Z) :=
  let params := mk_qed_sp_vport_update_params (vf_opaque_fid vf) (vf_vport_id vf) 0 0 0 0 0 0 0 0 0 0 0 (replicate 8 0) None (mk_qed_filter_accept_flags 0 0 0 0) None in
  '(params, mask) ← qed_iov_vp_update_act_param params req 0;
  '(params, vf, mask) ← qed_iov_vp_update_vlan_param params vf req mask;
  '(params, mask) ← qed_iov_vp_update_tx_switch fpga params req mask;
  '(params, mask) ← qed_iov_vp_update_mcast_bin_param params req mask;
  '(params, mask) ← qed_iov_vp_update_accept_flag params req mask;
  '(params, mask) ← qed_iov_vp_update_accept_any_vlan params req mask;
  '(params, mask) ← qed_iov_vp_update_sge_tpa_param params req mask;
  let accepted := mask in
  qed_iov_vp_update_rss_param vf params req mask accepted.

(** The handler up to [out].  [vzalloc]: the allocation succeeds; [sp]: the code of
    [qed_sp_vport_update]. *)
Definition vport_update_verdict (fpga vzalloc : bool) (sp : Z) vf (pub : option qed_public_vf_info) req : option vport_outcome :=
  if vf_vport_instance vf =? 0 then Some (mk_vport_outcome PFVF_STATUS_FAILURE vf pub 0 0 None) else
  if negb vzalloc then Some (mk_vport_outcome PFVF_STATUS_FAILURE vf pub 0 0 None) else
  '(vf, params, mask, accepted) ← vp_update_params fpga vf req;
  let '(rc, pub, params) := qed_iov_pre_update_vport pub params accepted in
  if negb (rc =? 0) then Some (mk_vport_outcome PFVF_STATUS_NOT_SUPPORTED vf pub mask 0 None) else
  if accepted =? 0 then Some (mk_vport_outcome PFVF_STATUS_NOT_SUPPORTED vf pub mask accepted None) else
  Some (mk_vport_outcome (if sp =? 0 then PFVF_STATUS_SUCCESS else PFVF_STATUS_FAILURE) vf pub mask accepted (Some params)).

Definition qed_iov_vf_mbx_vport_update (fpga vzalloc : bool) (sp : Z) vf (pub : option qed_public_vf_info) (mbx : qed_iov_vf_mbx)
    : option (qed_iov_vf_mbx * list pf_action * vport_outcome) :=
  out ← vport_update_verdict fpga vzalloc sp vf pub (req_virt mbx);
  '(_, mbx) ← qed_iov_prep_vp_update_resp_tlvs (out_status out) (out_mask out) (out_accepted out) mbx;
  '(mbx, acts) ← qed_iov_send_response (out_status out) mbx;
  Some (mbx, acts, out).

(** ** What the request has *)

(** [sizeof] of the TLV of a flag. *)
Definition vp_sizeof (i : Z) : Z :=
  if i =? QED_IOV_VP_UPDATE_MCAST then 72 else if i =? QED_IOV_VP_UPDATE_RSS then 304 else if i =? QED_IOV_VP_UPDATE_SGE_TPA then 24 else 8.

(** The searches read nothing outside the memory of the request, nor does the reading
    of what they find. *)
Definition readable req : Prop := forall i, 0 <= i < 8 ->
  exists r, qed_iov_search_list_tlvs (qed_iov_vport_to_tlv i) req = Some r /\ forall o, r = Some o -> 0 <= o /\ o + vp_sizeof i <= Z.of_nat (length req).

Definition vp_found req (i : Z) : bool := match qed_iov_search_list_tlvs (qed_iov_vport_to_tlv i) req with Some (Some _) => true | _ => false end.

Definition vf_ok vf : Prop := 0 <= rss_tbl_size vf <= QED_RSS_IND_TABLE_SIZE /\ num_rxqs vf <= Z.of_nat (length (vf_queues vf)).

(** An Rx queue of the VF that is started. *)
Definition rx_cid (e : qed_vf_queue_cid) : bool := negb (fst e) && bool_decide (is_Some (snd e)).
Definition rxq_started vf (q : Z) : bool :=
  (q <? num_rxqs vf) && match vf_queues vf !! Z.to_nat q with Some cids => existsb rx_cid cids | None => false end.

(** The TLV for RSS is good: the table it brings names started queues only; without
    one, RSS is not enabled before a table was set, nor is the table made larger. *)
Definition rss_good vf req : bool :=
  match qed_iov_search_list_tlvs CHANNEL_TLV_VPORT_UPDATE_RSS req with
  | Some (Some o) =>
      let flag := Z.testbit (default 0 (get8 (o + 4) req)) in
      let table_size := if flag 1 then table_size_of (default 0 (get8 (o + 7) req)) else rss_tbl_size vf in
      if flag 2 then forallb (fun j => rxq_started vf (default 0 (get16 (o + 8 + 2 * j) req))) (seqZ 0 table_size)
      else negb (flag 0 && negb (default 0 (get8 (o + 5) req) =? 0) && negb (rss_ind_tbl_valid vf)) && negb (flag 1 && (rss_ind_tbl_size vf <? table_size))
  | _ => true
  end.

Section Request.
Variable req : buffer.
Hypothesis req_bytes : Forall (fun x => 0 <= x < 256) req.
Hypothesis req_readable : readable req.

Lemma get_bytes_inside (n : nat) : forall off, 0 <= off -> off + Z.of_nat n <= Z.of_nat (length req) -> is_Some (get_bytes off n req).
Proof.
  induction n as [|n IH]; intros off H0 H1; cbn [get_bytes]; [eauto|]. destruct (get8_some off req) as [v ->]; [lia|]. cbn [mbind option_bind].
  destruct (IH (off + 1)) as [r ->]; [lia|lia|]. cbn. eauto.
Qed.

Lemma get_words_inside (w n : nat) : forall off, 0 <= off -> off + Z.of_nat w * Z.of_nat n <= Z.of_nat (length req) -> is_Some (get_words w n off req).
Proof.
  induction n as [|n IH]; intros off H0 H1; cbn [get_words]; [eauto|]. destruct (get_bytes_inside w off) as [v ->]; [lia|lia|]. cbn [mbind option_bind].
  destruct (IH (off + Z.of_nat w)) as [r ->]; [lia|lia|]. cbn. eauto.
Qed.

Ltac read :=
  repeat (match goal with
  | |- context [get8 ?o req] => destruct (get8_some o req) as [? ->]; [lia|]
  | |- context [get16 ?o req] => destruct (get16_inside o req) as [? ->]; [lia|lia|]
  | |- context [get_words ?w ?n ?o req] => destruct (get_words_inside w n o) as [? ->]; [lia|simpl; lia|]
  end; cbn [mbind option_bind]).

(** Each TLV that is found sets its flag and nothing else. *)
Definition flagged (b : bool) (flag mask : Z) : Z := if b then set_flag flag mask else mask.
Definition same_accept p p' : Prop :=
  accept_flags p' = accept_flags p /\ update_accept_any_vlan_flg p' = update_accept_any_vlan_flg p /\ accept_any_vlan p' = accept_any_vlan p.

Ltac at_tlv i := unfold with_tlv, vp_found; destruct (req_readable i ltac:(lia)) as (r & E & R);
  cbn in E; unfold qed_iov_vport_to_tlv in *; cbn in *; rewrite E; cbn [mbind option_bind]; destruct r as [o|]; [destruct (R o eq_refl) as [R0 R1]; unfold vp_sizeof in R1; simpl in R1; read|].

Lemma vp_act_spec p mask : exists p', qed_iov_vp_update_act_param p req mask = Some (p', flagged (vp_found req 0) 0 mask) /\ same_accept p p'.
Proof. unfold qed_iov_vp_update_act_param. at_tlv 0; eexists; by split. Qed.

Lemma vp_vlan_spec p vf mask : exists p' r, qed_iov_vp_update_vlan_param p vf req mask = Some (p', vf <| inner_vlan_removal := r |>, flagged (vp_found req 1) 1 mask) /\ same_accept p p'.
Proof.
  unfold qed_iov_vp_update_vlan_param. at_tlv 1; [|exists p, (inner_vlan_removal vf); by destruct vf].
  eexists _, _. split; [reflexivity|]. by destruct (negb _).
Qed.

Lemma vp_tx_switch_spec fpga p mask : exists p', qed_iov_vp_update_tx_switch fpga p req mask = Some (p', flagged (vp_found req 2 && negb fpga) 2 mask) /\ same_accept p p'.
Proof. unfold qed_iov_vp_update_tx_switch. destruct fpga; at_tlv 2; eexists; by split. Qed.

Lemma vp_mcast_spec p mask : exists p', qed_iov_vp_update_mcast_bin_param p req mask = Some (p', flagged (vp_found req 3) 3 mask) /\ same_accept p p'.
Proof. unfold qed_iov_vp_update_mcast_bin_param, ETH_MULTICAST_MAC_BINS_IN_REGS. at_tlv 3; eexists; by split. Qed.

Lemma vp_accept_flag_spec p mask : exists p', qed_iov_vp_update_accept_flag p req mask = Some (p', flagged (vp_found req 4) 4 mask) /\
  update_accept_any_vlan_flg p' = update_accept_any_vlan_flg p /\ (vp_found req 4 = false -> accept_flags p' = accept_flags p).
Proof. unfold qed_iov_vp_update_accept_flag. at_tlv 4; eexists; by split. Qed.

Lemma vp_any_vlan_spec p mask : exists p', qed_iov_vp_update_accept_any_vlan p req mask = Some (p', flagged (vp_found req 6) 6 mask) /\
  accept_flags p' = accept_flags p /\ (vp_found req 6 = false -> update_accept_any_vlan_flg p' = update_accept_any_vlan_flg p).
Proof. unfold qed_iov_vp_update_accept_any_vlan. at_tlv 6; eexists; by split. Qed.

Lemma vp_sge_tpa_spec p mask : exists p', qed_iov_vp_update_sge_tpa_param p req mask = Some (p', flagged (vp_found req 7) 7 mask) /\ same_accept p p'.
Proof. unfold qed_iov_vp_update_sge_tpa_param. at_tlv 7; eexists; by split. Qed.

(** *** RSS *)

Lemma table_size_range log : 0 <= table_size_of log <= QED_RSS_IND_TABLE_SIZE.
Proof. unfold table_size_of. pose proof (u16_bound (Z.shiftl 1 (log mod 64))). unfold QED_RSS_IND_TABLE_SIZE. lia. Qed.

Lemma queue_enabled_rx cids : queue_enabled false cids = existsb rx_cid cids.
Proof.
  induction cids as [|[tx [cid|]] cids IH]; cbn [queue_enabled existsb]; [done| |]; unfold rx_cid at 1; cbn [fst snd].
  - rewrite bool_decide_eq_true_2 by eauto. destruct tx; simpl; [exact IH|done].
  - rewrite bool_decide_eq_false_2 by (intros []; done). rewrite andb_false_r. exact IH.
Qed.

Lemma vp_rss_loop_spec vf o n : vf_ok vf -> 0 <= o -> forall i table, 0 <= i -> i + Z.of_nat n <= QED_RSS_IND_TABLE_SIZE -> o + 264 <= Z.of_nat (length req) ->
  exists table', rss_ind_loop n i vf o req table =
    Some (negb (forallb (fun j => rxq_started vf (default 0 (get16 (o + 8 + 2 * j) req))) (seqZ i (Z.of_nat n))), table').
Proof.
  intros [_ Hq] Ho. unfold QED_RSS_IND_TABLE_SIZE. induction n as [|n IH]; intros i table Hi Hn Hl; cbn [rss_ind_loop]; [by exists table|].
  rewrite seqZ_cons by lia. cbn [forallb]. destruct (get16_inside (o + 8 + 2 * i) req) as [q Eq]; [lia|lia|]. rewrite Eq. cbn [mbind option_bind default].
  pose proof (get16_bound _ _ _ req_bytes Eq) as Bq. unfold qed_iov_validate_rxq, qed_iov_validate_queue_mode, rxq_started at 1. cbn [from_option id].
  destruct (Z.leb_spec (num_rxqs vf) q) as [Hge|Hlt]; [replace (q <? num_rxqs vf) with false by lia; by exists table|]. replace (q <? num_rxqs vf) with true by lia.
  destruct (lookup_lt_is_Some_2 (vf_queues vf) (Z.to_nat q)) as [cids Ec]; [lia|]. rewrite Ec. cbn [mbind option_bind andb]. rewrite queue_enabled_rx.
  destruct (existsb rx_cid cids); cbn [negb andb]; [|by exists table]. unfold QED_RSS_IND_TABLE_SIZE. replace (128 <=? i) with false by lia.
  destruct (IH (i + 1) (<[Z.to_nat i := qed_iov_get_vf_rx_queue_cid cids]> table)) as [t ->]; [lia|lia|lia|]. exists t.
  replace (Z.pred (Z.of_nat (S n))) with (Z.of_nat n) by lia. by rewrite <- Z.add_1_r.
Qed.

Lemma vp_rss_spec vf p mask accepted : vf_ok vf -> exists vf' p', qed_iov_vp_update_rss_param vf p req mask accepted =
    Some (vf', p', flagged (vp_found req 5) 5 mask, flagged (vp_found req 5 && rss_good vf req) 5 accepted) /\ vf_ok vf' /\ same_accept p p'.
Proof.
  intros Hv. unfold qed_iov_vp_update_rss_param, QED_RSS_KEY_SIZE, rss_good. at_tlv 5; [|eexists _, _; by split_and!].
  cbn [update_rss_capabilities update_rss_ind_table rss_ind_table update_rss_config from_option id].
  match goal with |- context [rss_ind_loop (if ?f then Z.to_nat ?n else O) 0 vf o req ?t] => set (ind := f); set (size := n) end.
  assert (Hsz : 0 <= size <= QED_RSS_IND_TABLE_SIZE) by (subst size; case_match; [apply table_size_range|apply Hv]).
  destruct (vp_rss_loop_spec vf o (if ind then Z.to_nat size else O) Hv R0 0 (replicate (Z.to_nat QED_RSS_IND_TABLE_SIZE) None)) as [t Et]; [lia|destruct ind; lia|lia|].
  rewrite Et. cbn [mbind option_bind]. clear Et. destruct ind; cbn [negb andb].
  - rewrite Z2Nat.id by lia. destruct (forallb _ _); cbn [negb]; [|eexists _, _; by split_and!]. rewrite andb_false_r. cbn [andb].
    eexists _, _. split; [reflexivity|]. split; [|done]. destruct Hv as [V1 V2]. repeat case_match; split; simpl; (done || lia).
  - cbn [seqZ forallb negb]. rewrite !andb_true_r.
    destruct (_ && negb (rss_ind_tbl_valid vf)); cbn [negb andb]; [eexists _, _; by split_and!|].
    destruct (_ && (rss_ind_tbl_size vf <? size)); cbn [negb andb]; [eexists _, _; by split_and!|].
    eexists _, _. split; [reflexivity|]. split; [|done]. destruct Hv as [V1 V2]. repeat case_match; split; simpl; (done || lia).
Qed.
End Request.

(** ** What the PF makes of it *)

(** The TLVs that get an entry in the response, and those the PF takes on. *)
Definition vp_answered (fpga vzalloc : bool) vf req (i : Z) : bool :=
  negb (vf_vport_instance vf =? 0) && vzalloc && vp_found req i && negb ((i =? QED_IOV_VP_UPDATE_TX_SWITCH) && fpga).
Definition vp_rejected vf req (i : Z) : bool := (i =? QED_IOV_VP_UPDATE_RSS) && negb (rss_good vf req).
Definition vp_taken (fpga vzalloc : bool) vf req (i : Z) : bool := vp_answered fpga vzalloc vf req i && negb (vp_rejected vf req i).

(** The status of the response, and whether a ramrod is sent. *)
Definition vport_fate (fpga vzalloc : bool) (sp : Z) vf (pub : option qed_public_vf_info) req : Z * bool :=
  if (vf_vport_instance vf =? 0) || negb vzalloc then (PFVF_STATUS_FAILURE, false) else
  if (vp_found req QED_IOV_VP_UPDATE_ACCEPT_PARAM || vp_found req QED_IOV_VP_UPDATE_ACCEPT_ANY_VLAN) && negb (bool_decide (is_Some pub)) then (PFVF_STATUS_NOT_SUPPORTED, false) else
  if negb (existsb (vp_taken fpga vzalloc vf req) (seqZ 0 8)) then (PFVF_STATUS_NOT_SUPPORTED, false) else
  (if sp =? 0 then PFVF_STATUS_SUCCESS else PFVF_STATUS_FAILURE, true).

Definition unmatched : Z := Z.lor QED_ACCEPT_UCAST_UNMATCHED QED_ACCEPT_MCAST_UNMATCHED.

(** A VF that is not trusted gets neither frames for others nor, with a forced VLAN,
    those of other VLANs. *)
Definition restrained (pub : option qed_public_vf_info) p : Prop :=
  match pub with
  | None => update_rx_mode_config (accept_flags p) = 0 /\ update_tx_mode_config (accept_flags p) = 0 /\ update_accept_any_vlan_flg p = 0
  | Some v => is_trusted_configured v = false ->
      (update_rx_mode_config (accept_flags p) ≠ 0 -> Z.land (rx_accept_filter (accept_flags p)) unmatched = 0) /\
      (update_tx_mode_config (accept_flags p) ≠ 0 -> Z.land (tx_accept_filter (accept_flags p)) unmatched = 0) /\
      (update_accept_any_vlan_flg p ≠ 0 -> forced_vlan v ≠ 0 -> accept_any_vlan p = 0)
  end.

Lemma set_flag_bit flag mask i : 0 <= flag -> Z.testbit (set_flag flag mask) i = Z.testbit mask i || (i =? flag).
Proof.
  intros H. unfold set_flag. rewrite Z.lor_spec. f_equal. destruct (Z.ltb_spec i 0); [rewrite Z.testbit_neg_r by lia; lia|].
  rewrite Z.shiftl_1_l, Z.pow2_bits_eqb by lia. lia.
Qed.

Lemma flagged_bit b flag mask i : 0 <= flag -> Z.testbit (flagged b flag mask) i = Z.testbit mask i || b && (i =? flag).
Proof. intros H. destruct b; cbn [flagged andb]; [by apply set_flag_bit|by rewrite orb_false_r]. Qed.

Lemma cleared a : Z.land (Z.land a (Z.lnot unmatched)) unmatched = 0.
Proof. rewrite <- Z.land_assoc, (Z.land_comm (Z.lnot _)), Z.land_lnot_diag. apply Z.land_0_r. Qed.

Lemma vp_pre_update_spec pub p tlvs : let '(rc, pub', p') := qed_iov_pre_update_vport pub p tlvs in
  (rc =? 0) = negb ((Z.testbit tlvs 4 || Z.testbit tlvs 6) && negb (bool_decide (is_Some pub))) /\
  (rc = 0 -> (Z.testbit tlvs 4 = false -> update_rx_mode_config (accept_flags p) = 0 /\ update_tx_mode_config (accept_flags p) = 0) ->
     (Z.testbit tlvs 6 = false -> update_accept_any_vlan_flg p = 0) -> restrained pub p').
Proof.
  unfold qed_iov_pre_update_vport. set (m := Z.lor (Z.shiftl 1 _) _).
  assert (Hm : forall i, Z.testbit m i = (i =? 4) || (i =? 6)).
  { intros i. change m with (set_flag 6 (set_flag 4 0)). rewrite !set_flag_bit by lia. by rewrite Z.testbit_0_l. }
  destruct (Z.eqb_spec (Z.land tlvs m) 0) as [E|E].
  - assert (B : forall i, Z.testbit tlvs i && Z.testbit m i = false) by (intros i; by rewrite <- Z.land_spec, E, Z.testbit_0_l).
    pose proof (B 4) as B4. pose proof (B 6) as B6. rewrite Hm in B4, B6. change ((4 =? 4) || (4 =? 6)) with true in B4. change ((6 =? 4) || (6 =? 6)) with true in B6. rewrite andb_true_r in B4, B6. rewrite B4, B6. split; [done|].
    intros _ H4 H6. destruct (H4 eq_refl) as [F1 F2]. pose proof (H6 eq_refl) as F3. destruct pub as [v|]; [|done]. intros _. rewrite F1, F2, F3. by split_and!.
  - assert (B : Z.testbit tlvs 4 || Z.testbit tlvs 6 = true).
    { destruct (Z.testbit tlvs 4) eqn:E4; [done|]. destruct (Z.testbit tlvs 6) eqn:E6; [done|]. exfalso. apply E, Z.bits_inj'. intros i _.
      rewrite Z.land_spec, Hm, Z.testbit_0_l. destruct (Z.eqb_spec i 4) as [->|]; [by rewrite E4|]. destruct (Z.eqb_spec i 6) as [->|]; [by rewrite E6|]. apply andb_false_r. }
    rewrite B. destruct pub as [v|]; [|by split]. rewrite bool_decide_eq_true_2 by eauto. fold unmatched.
    clear. destruct p as [? ? ? ? ? ? ? ? ? ? ? uany any ? ? [urx utx rx tx] ?], v as [fv trusted rxm txm anym].
    destruct trusted, (Z.eqb_spec urx 0) as [E1|E1], (Z.eqb_spec utx 0) as [E2|E2], (Z.eqb_spec uany 0) as [E3|E3], (Z.eqb_spec fv 0) as [E4|E4];
      repeat (progress cbn -[Z.eqb Z.land Z.lnot Z.testbit unmatched]; rewrite ?(proj2 (Z.eqb_eq _ _) E1), ?(proj2 (Z.eqb_eq _ _) E2), ?(proj2 (Z.eqb_eq _ _) E3), ?(proj2 (Z.eqb_eq _ _) E4),
        ?(proj2 (Z.eqb_neq _ _) E1), ?(proj2 (Z.eqb_neq _ _) E2), ?(proj2 (Z.eqb_neq _ _) E3), ?(proj2 (Z.eqb_neq _ _) E4));
      (split; [done|]); intros _ _ _ T; try discriminate T; split_and!; intros; try done; apply cleared.
Qed.

(** The searches find what the request has. *)
Lemma vp_params_spec fpga vf req : Forall (fun x => 0 <= x < 256) req -> readable req -> vf_ok vf ->
  exists vf' p m acc, vp_update_params fpga vf req = Some (vf', p, m, acc) /\ vf_ok vf' /\
    (forall i, 0 <= i < 8 -> Z.testbit m i = vp_found req i && negb ((i =? QED_IOV_VP_UPDATE_TX_SWITCH) && fpga)) /\
    (forall i, ¬ 0 <= i < 8 -> Z.testbit m i = false) /\
    (forall i, Z.testbit acc i = Z.testbit m i && negb (vp_rejected vf req i)) /\
    (vp_found req 4 = false -> update_rx_mode_config (accept_flags p) = 0 /\ update_tx_mode_config (accept_flags p) = 0) /\
    (vp_found req 6 = false -> update_accept_any_vlan_flg p = 0).
Proof.
  intros Hb Hr Hv. unfold vp_update_params. set (p0 := mk_qed_sp_vport_update_params _ _ _ _ _ _ _ _ _ _ _ _ _ _ _ _ _).
  destruct (vp_act_spec req Hr p0 0) as (p1 & -> & A1). cbn [mbind option_bind].
  destruct (vp_vlan_spec req Hr p1 vf (flagged (vp_found req 0) 0 0)) as (p2 & rv & -> & A2). cbn [mbind option_bind]. set (m1 := flagged (vp_found req 1) 1 _).
  destruct (vp_tx_switch_spec req Hr fpga p2 m1) as (p3 & -> & A3). cbn [mbind option_bind]. set (m2 := flagged _ 2 m1).
  destruct (vp_mcast_spec req Hr p3 m2) as (p4 & -> & A4). cbn [mbind option_bind]. set (m3 := flagged _ 3 m2).
  destruct (vp_accept_flag_spec req Hr p4 m3) as (p5 & -> & A5 & A5'). cbn [mbind option_bind]. set (m4 := flagged _ 4 m3).
  destruct (vp_any_vlan_spec req Hr p5 m4) as (p6 & -> & A6 & A6'). cbn [mbind option_bind]. set (m5 := flagged _ 6 m4).
  destruct (vp_sge_tpa_spec req Hr p6 m5) as (p7 & -> & A7). cbn [mbind option_bind]. set (m6 := flagged _ 7 m5).
  set (vf1 := vf <| inner_vlan_removal := rv |>). destruct (vp_rss_spec req Hb Hr vf1 p7 m6 m6 Hv) as (vf2 & p8 & -> & V2 & A8). cbn [mbind option_bind].
  change (rss_good vf1 req) with (rss_good vf req).
  assert (M : forall i, Z.testbit m6 i = vp_found req 0 && (i =? 0) || vp_found req 1 && (i =? 1) || vp_found req 2 && negb fpga && (i =? 2) ||
    vp_found req 3 && (i =? 3) || vp_found req 4 && (i =? 4) || vp_found req 6 && (i =? 6) || vp_found req 7 && (i =? 7)).
  { intros i. subst m6 m5 m4 m3 m2 m1. rewrite !flagged_bit, Z.testbit_0_l by lia. done. }
  clearbody m6. exists vf2, p8, (flagged (vp_found req 5) 5 m6), (flagged (vp_found req 5 && rss_good vf req) 5 m6).
  split; [done|]. split; [done|]. split_and!.
  - intros i Hi. rewrite flagged_bit, M by lia. unfold QED_IOV_VP_UPDATE_TX_SWITCH.
    assert (i = 0 \/ i = 1 \/ i = 2 \/ i = 3 \/ i = 4 \/ i = 5 \/ i = 6 \/ i = 7) as C by lia. decompose [or] C; subst; cbn [Z.eqb Pos.eqb andb];
      rewrite ?andb_false_r, ?andb_true_r, ?orb_false_r; done.
  - intros i Hi. rewrite flagged_bit, M by lia. repeat (match goal with |- context [i =? ?k] => replace (i =? k) with false by lia end). by rewrite !andb_false_r.
  - intros i. rewrite !flagged_bit by lia. unfold vp_rejected, QED_IOV_VP_UPDATE_RSS. destruct (Z.eqb_spec i 5) as [->|]; cbn [andb negb].
    + rewrite M. cbn [Z.eqb Pos.eqb]. rewrite negb_involutive, !andb_true_r, !andb_false_r. cbn [orb]. done.
    + by rewrite !andb_false_r, !orb_false_r, andb_true_r.
  - intros F. destruct A1 as (B1 & _), A2 as (B2 & _), A3 as (B3 & _), A4 as (B4 & _), A7 as (B7 & _), A8 as (B8 & _). by rewrite B8, B7, A6, (A5' F), B4, B3, B2, B1.
  - intros F. destruct A1 as (_ & B1 & _), A2 as (_ & B2 & _), A3 as (_ & B3 & _), A4 as (_ & B4 & _), A7 as (_ & B7 & _), A8 as (_ & B8 & _).
    by rewrite B8, B7, (A6' F), A5, B4, B3, B2, B1.
Qed.

(** The outcome of a request, as the VF and the firmware see it. *)
Record vport_good (fpga vzalloc : bool) (sp : Z) vf (pub : option qed_public_vf_info) req (out : vport_outcome) : Prop := {
  good_vf : vf_ok (out_vf out);
  good_fate : (out_status out, bool_decide (is_Some (out_sent out))) = vport_fate fpga vzalloc sp vf pub req;
  good_mask : forall i, 0 <= i < 8 -> Z.testbit (out_mask out) i = vp_answered fpga vzalloc vf req i;
  good_entry : forall i, 0 <= i < 8 -> Z.testbit (out_mask out) i = true ->
    vp_status (out_status out) (out_accepted out) i = u8 (if vp_rejected vf req i then PFVF_STATUS_NOT_SUPPORTED else out_status out);
  good_sent : forall p, out_sent out = Some p -> restrained pub p
}.

Lemma vp_refused_good fpga vzalloc sp vf pub req : vf_ok vf -> (vf_vport_instance vf =? 0) || negb vzalloc = true ->
  vport_good fpga vzalloc sp vf pub req (mk_vport_outcome PFVF_STATUS_FAILURE vf pub 0 0 None).
Proof.
  intros Hv H. split; cbn [out_vf out_status out_sent out_mask out_accepted]; [done|unfold vport_fate; by rewrite H| | |done].
  - intros i _. rewrite Z.testbit_0_l. unfold vp_answered. symmetry. by destruct (_ =? 0), vzalloc.
  - intros i _. by rewrite Z.testbit_0_l.
Qed.

Lemma vp_verdict_spec fpga vzalloc sp vf pub req : Forall (fun x => 0 <= x < 256) req -> readable req -> vf_ok vf ->
  exists out, vport_update_verdict fpga vzalloc sp vf pub req = Some out /\ vport_good fpga vzalloc sp vf pub req out.
Proof.
  intros Hb Hr Hv. unfold vport_update_verdict. destruct (vf_vport_instance vf =? 0) eqn:Ei; [eexists; split; [done|]; apply vp_refused_good; [done|by rewrite Ei]|].
  destruct vzalloc; cbn [negb]; [|eexists; split; [done|]; apply vp_refused_good; [done|by rewrite Ei]].
  destruct (vp_params_spec fpga vf req Hb Hr Hv) as (vf' & p & m & acc & -> & V & M & M' & A & F1 & F2). cbn [mbind option_bind].
  assert (An : forall i, 0 <= i < 8 -> Z.testbit m i = vp_answered fpga true vf req i) by (intros i Hi; unfold vp_answered; rewrite Ei; cbn [negb andb]; by apply M).
  assert (A46 : forall i, i = 4 \/ i = 6 -> Z.testbit acc i = vp_found req i).
  { intros i Hi. rewrite A, M by lia. unfold vp_rejected, QED_IOV_VP_UPDATE_RSS, QED_IOV_VP_UPDATE_TX_SWITCH.
    replace (i =? 2) with false by lia. replace (i =? 5) with false by lia. cbn [andb negb]. by rewrite !andb_true_r. }
  pose proof (vp_pre_update_spec pub p acc) as P. destruct (qed_iov_pre_update_vport pub p acc) as [[rc pub'] p']. destruct P as [P1 P2]. rewrite !A46 in P1, P2 by lia.
  assert (Ez : (acc =? 0) = negb (existsb (vp_taken fpga true vf req) (seqZ 0 8))).
  { destruct (existsb _ _) eqn:Ex; cbn [negb].
    - apply existsb_exists in Ex as (i & Hi & Ti). apply list_elem_of_In, elem_of_seqZ in Hi. apply Z.eqb_neq. intros ->. specialize (A i).
      rewrite Z.testbit_0_l, An in A by lia. unfold vp_taken in Ti. congruence.
    - apply Z.eqb_eq, Z.bits_inj'. intros i Hi. rewrite Z.testbit_0_l, A. destruct (decide (i < 8)); [|by rewrite M' by lia]. rewrite An by lia.
      fold (vp_taken fpga true vf req i). destruct (vp_taken fpga true vf req i) eqn:Et; [|done]. rewrite <- Ex. symmetry. apply existsb_exists. exists i. split; [apply list_elem_of_In, elem_of_seqZ; lia|exact Et]. }
  assert (Fate : vport_fate fpga true sp vf pub req = if negb (rc =? 0) then (PFVF_STATUS_NOT_SUPPORTED, false) else
    if acc =? 0 then (PFVF_STATUS_NOT_SUPPORTED, false) else (if sp =? 0 then PFVF_STATUS_SUCCESS else PFVF_STATUS_FAILURE, true)).
  { unfold vport_fate. rewrite Ei, P1, Ez, negb_involutive. done. }
  assert (St : forall st i, Z.testbit m i = true -> vp_status st acc i = u8 (if vp_rejected vf req i then PFVF_STATUS_NOT_SUPPORTED else st)).
  { intros st i Hm. unfold vp_status. rewrite A, Hm. by destruct (vp_rejected vf req i). }
  assert (Good : forall st sent acc', (st, bool_decide (is_Some sent)) = vport_fate fpga true sp vf pub req -> acc' = acc \/ acc' = 0 /\ st = PFVF_STATUS_NOT_SUPPORTED ->
    (forall q, sent = Some q -> restrained pub q) -> vport_good fpga true sp vf pub req (mk_vport_outcome st vf' pub' m acc' sent)).
  { intros st sent acc' H1 H2 H3. split; cbn [out_vf out_status out_sent out_mask out_accepted]; [exact V|exact H1|exact An| |exact H3].
    intros i _ Hm. destruct H2 as [->|[-> ->]]; [exact (St st i Hm)|]. unfold vp_status. rewrite Z.testbit_0_l. by destruct (vp_rejected vf req i). }
  destruct (Z.eqb_spec rc 0) as [R0|R0]; cbn [negb] in *; [destruct (acc =? 0)|]; (eexists; split; [reflexivity|]; apply Good; [by rewrite Fate| |]).
  - by left.
  - done.
  - by left.
  - intros q [= <-]. exact (P2 R0 F1 F2).
  - by right.
  - done.
Qed.

(** ** Requests that are readable *)

(** Any bytes, as far as the memory after the buffer can be read. *)
Lemma hostile_readable req : Forall (fun x => 0 <= x < 256) req -> TLV_BUFFER_SIZE + 65536 + 4 <= Z.of_nat (length req) -> readable req.
Proof.
  intros Hb Hl i Hi. destruct (search_any (qed_iov_vport_to_tlv i) req Hb Hl search_fuel 0) as (r & E & R).
  - unfold TLV_BUFFER_SIZE. lia.
  - rewrite search_fuel_value. unfold TLV_BUFFER_SIZE. lia.
  - by left.
  - exists r. split; [exact E|]. intros o ->. destruct (R o eq_refl) as [T B]. assert (0 <= o).
    { unfold tlv_type, get16, get8 in T. destruct (Z.ltb_spec o 0); [done|lia]. }
    assert (vp_sizeof i <= 304) by (unfold vp_sizeof; repeat case_match; lia). split; [done|]. unfold TLV_BUFFER_SIZE in *. destruct B as [->|(n & _ & ? & ?)]; lia.
Qed.

(** A list of TLVs that ends in the buffer, those of a vport update of their size at
    least. *)
Lemma listed_readable l req : l ≠ [] -> Forall tlv_ok l -> tlv_sizes l + sizeof_list_end <= TLV_BUFFER_SIZE -> TLV_BUFFER_SIZE <= Z.of_nat (length req) ->
  (forall i n, 0 <= i < 8 -> (qed_iov_vport_to_tlv i, n) ∈ l -> vp_sizeof i <= n) -> tlvs_at 0 l req -> readable req.
Proof.
  intros Hl Hok Hs Hb Hn Ha i Hi. eexists. split; [by apply (search_found l)|]. intros o E. apply find_tlv_inside in E as (n & Hin & H1 & H2); [|done].
  pose proof (Hn i n Hi Hin). unfold sizeof_list_end in Hs. lia.
Qed.

(** ** The response *)

(** C37: a vport update of a VF is always answered.  On any request whose TLVs can be
    read, the handler sends a response, with these statuses: failure, and no entry for
    any TLV, when the VF has no vport or the allocation fails; not supported when none
    of the TLVs is accepted, or when the VF is not known and asks for an accept mode;
    otherwise that of the ramrod, which is sent in this case only.  The VF that
    searches the response finds an entry for a kind of TLV exactly when the PF got that
    far and its request has that TLV (on an FPGA, other than for Tx switching), and
    the entry has the status of the response, but for RSS parameters that were rejected:
    not supported.  The size of the VF's RSS table stays within the table. *)
Theorem vport_update_answered fpga vzalloc sp vf pub mbx : vf_ok vf -> Forall (fun x => 0 <= x < 256) (req_virt mbx) -> readable (req_virt mbx) -> 80 <= sizeof_pfvf_tlvs mbx ->
  exists mbx' out, qed_iov_vf_mbx_vport_update fpga vzalloc sp vf pub mbx = Some (mbx', [CopyReply 8 (sizeof_pfvf_tlvs mbx); ChannelReady; CopyReply 0 8], out) /\
    vf_ok (out_vf out) /\
    let '(status, sent) := vport_fate fpga vzalloc sp vf pub (req_virt mbx) in
    (is_Some (out_sent out) <-> sent = true) /\ get8 status_offset (reply_virt mbx') = Some status /\
    forall i, 0 <= i < 8 -> match qed_iov_search_list_tlvs (qed_iov_vport_to_tlv i) (reply_virt mbx') with
      | Some (Some o) => vp_answered fpga vzalloc vf (req_virt mbx) i = true /\
          get8 (o + status_offset) (reply_virt mbx') = Some (if vp_rejected vf (req_virt mbx) i then PFVF_STATUS_NOT_SUPPORTED else status)
      | Some None => vp_answered fpga vzalloc vf (req_virt mbx) i = false
      | None => False
      end.
Proof.
  intros Hv Hb Hr Hs. destruct (vp_verdict_spec fpga vzalloc sp vf pub (req_virt mbx) Hb Hr Hv) as (out & Ev & [G1 G2 G3 G4 _]).
  unfold qed_iov_vf_mbx_vport_update. rewrite Ev. cbn [mbind option_bind].
  destruct (prep_vp_spec (out_status out) (out_mask out) (out_accepted out) mbx Hs) as (total & mbx1 & -> & L1 & R & T). cbn [mbind option_bind].
  unfold qed_iov_send_response. unfold sizeof_pfvf_tlvs in *.
  destruct (set8_spec status_offset (out_status out) (reply_virt mbx1)) as (r & -> & L2 & S1 & S2); [unfold status_offset; lia|]. cbn [mbind option_bind].
  exists (mbx1 <| reply_virt := r |>), out. change (reply_virt (mbx1 <| reply_virt := r |>)) with r. split; [by rewrite L2, L1|]. split; [exact G1|]. rewrite <- G2. split; [by rewrite bool_decide_eq_true|].
  assert (U : u8 (out_status out) = out_status out).
  { apply (f_equal fst) in G2. cbn [fst] in G2. rewrite G2. unfold vport_fate. repeat case_match; reflexivity. }
  split; [by rewrite S1, U|]. intros i Hi.
  assert (R' : resp_at 0 ((CHANNEL_TLV_VPORT_UPDATE, u8 (out_status out)) :: vp_entries 8 0 (out_status out) (out_mask out) (out_accepted out)) r).
  { destruct R as (R1 & R2 & _ & R4). cbn [resp_at]. destruct (header_ext 0 (reply_virt mbx1) r) as [-> ->]; [intros o Ho; apply S2; unfold status_offset; lia|].
    split; [done|]. split; [done|]. split; [exact S1|]. eapply resp_at_ext; [|exact R4]. intros o Ho. apply S2. unfold status_offset, sizeof_def_resp in *. lia. }
  pose proof (entries_found _ _ _ _ r i R') as F. cbv zeta in F. rewrite <- (G3 i Hi).
  assert (T' : tlvs_at 0 (as_tlvs ((CHANNEL_TLV_VPORT_UPDATE, u8 (out_status out)) :: vp_entries 8 0 (out_status out) (out_mask out) (out_accepted out))) r).
  { eapply (tlvs_at_ext _ 0 (reply_virt mbx1)); [|exact T]. intros o Ho. apply S2. intros ->.
    destruct Ho as [Ho|Ho]; [unfold status_offset in Ho; lia|]. apply in_headers_ge in Ho; [unfold status_offset, sizeof_def_resp in Ho; lia|].
    apply as_tlvs_ok. intros t st Hin. apply vp_entries_in in Hin as (j & Hj & _ & -> & _). pose proof (vport_to_tlv_range j). unfold CHANNEL_TLV_LIST_END. lia. }
  specialize (F T' Hi). destruct (qed_iov_search_list_tlvs _ r) as [[o|]|]; [|done|done]. destruct F as [F1 F2]. split; [done|].
  rewrite F2, (G4 i Hi F1). f_equal. destruct (vp_rejected _ _ _); [done|exact U].
Qed.

(** A request to activate the vport and to set an RSS table of the first queue. *)
Definition vport_tlvs : list (Z * Z) := [(CHANNEL_TLV_VPORT_UPDATE, 16); (CHANNEL_TLV_VPORT_UPDATE_ACTIVATE, 8); (CHANNEL_TLV_VPORT_UPDATE_RSS, 304)].
Definition vport_request (rss : list Z) : buffer :=
  [3; 0; 16; 0] ++ replicate 12 0 ++ [15; 0; 8; 0; 1; 0; 1; 0] ++ [20; 0; 48; 1] ++ rss ++ replicate (300 - length rss) 0 ++ [13; 0; 8; 0] ++ replicate 692 0.
Definition vport_vf : qed_vf_info := mk_qed_vf_info 7 1 0 false false 0 128 1 1 [[(true, Some 20); (false, Some 21)]] 0 false.
Definition vport_mbx (rss : list Z) : qed_iov_vf_mbx := mk_qed_iov_vf_mbx (vport_request rss) (replicate 1024 0) 0 false.

Lemma vport_update_answered_witness : vport_fate false true 0 vport_vf None (vport_request [4; 1]) = (PFVF_STATUS_SUCCESS, true) /\
  exists mbx' out, qed_iov_vf_mbx_vport_update false true 0 vport_vf None (vport_mbx [4; 1]) =
      Some (mbx', [CopyReply 8 (sizeof_pfvf_tlvs (vport_mbx [4; 1])); ChannelReady; CopyReply 0 8], out) /\
    vf_ok (out_vf out) /\
    let '(status, sent) := vport_fate false true 0 vport_vf None (vport_request [4; 1]) in
    (is_Some (out_sent out) <-> sent = true) /\ get8 status_offset (reply_virt mbx') = Some status /\
    forall i, 0 <= i < 8 -> match qed_iov_search_list_tlvs (qed_iov_vport_to_tlv i) (reply_virt mbx') with
      | Some (Some o) => vp_answered false true vport_vf (vport_request [4; 1]) i = true /\
          get8 (o + status_offset) (reply_virt mbx') = Some (if vp_rejected vport_vf (vport_request [4; 1]) i then PFVF_STATUS_NOT_SUPPORTED else status)
      | Some None => vp_answered false true vport_vf (vport_request [4; 1]) i = false
      | None => False
      end.
Proof.
  split; [vm_compute; reflexivity|]. apply (vport_update_answered false true 0 vport_vf None (vport_mbx [4; 1])).
  - unfold vf_ok. vm_compute. repeat split; discriminate.
  - unfold vport_mbx, vport_request. cbn [req_virt]. repeat (apply Forall_app; split); repeat constructor; try lia; apply Forall_replicate; lia.
  - apply (listed_readable vport_tlvs).
    + discriminate.
    + unfold vport_tlvs, tlv_ok. repeat constructor; simpl; (done || lia).
    + vm_compute. discriminate.
    + vm_compute. discriminate.
    + intros i n Hi. assert (i = 0 \/ i = 1 \/ i = 2 \/ i = 3 \/ i = 4 \/ i = 5 \/ i = 6 \/ i = 7) as C by lia. decompose [or] C; subst; intros Hin;
        repeat (apply elem_of_cons in Hin as [Hin|Hin]; [injection Hin; intros; try discriminate; subst; vm_compute; discriminate|]); by apply elem_of_nil in Hin.
    + vm_compute. by split_and!.
  - vm_compute. discriminate.
Defined.

(** What is sent for a VF that is not trusted is restrained, whatever the VF asks for. *)
Theorem untrusted_vport_restrained fpga vzalloc sp vf pub req out p : vf_ok vf -> Forall (fun x => 0 <= x < 256) req -> readable req ->
  vport_update_verdict fpga vzalloc sp vf pub req = Some out -> out_sent out = Some p -> restrained pub p.
Proof.
  intros Hv Hb Hr E. destruct (vp_verdict_spec fpga vzalloc sp vf pub req Hb Hr Hv) as (out' & E' & G). rewrite E' in E. injection E as <-. apply (good_sent _ _ _ _ _ _ _ G).
Qed.

(** Sixteen as the logarithm of the table's size makes it 0 in the u16 of the check:
    no entry is verified.  A table that names queue 9 of a VF with one queue is
    accepted, and counts as valid although the firmware refuses it. *)
Theorem rss_table_unchecked : exists out p rss, let req := vport_request ([6; 1; 0; 16] ++ [9; 0]) in
  get16 32 req = Some 9 /\ rxq_started vport_vf 9 = false /\
  vport_update_verdict false true (- EINVAL) vport_vf None req = Some out /\ out_status out = PFVF_STATUS_FAILURE /\
  rss_ind_tbl_valid vport_vf = false /\ rss_ind_tbl_valid (out_vf out) = true /\
  out_sent out = Some p /\ rss_params p = Some rss /\ rss_table_size_log rss = 16 /\ rss_ind_table rss = replicate 128 None.
Proof. do 3 eexists. cbv zeta. split_and!; vm_compute; reflexivity. Qed.
