(* ===== verification/VfShadow.v ===== *)
(** * Bulletins and the shadow of a VF's filters (qed_sriov.c, qed_vf.c)

    The array of VLANs the PF keeps for a VF is a bag of at most three VLANs; what the
    PF forces on a VF reaches neither that bag nor the firmware; and the bulletin the
    VF holds is the last one the PF posted. *)

From stdpp Require Import gmultiset.
From S2P Require Import Prelude Vfpf.

Implicit Types (c : qed_vf_shadow_config) (p : vf_policy).

(** ** VLANs as a bag *)

Fixpoint bag (l : list (bool * Z)) : gmultiset Z :=
  match l with [] => ∅ | (u, v) :: l => (if u then {[+ v +]} else ∅) ⊎ bag l end.

Definition num_vlans : nat := QED_ETH_VF_NUM_VLAN_FILTERS + 1.

(** What is promised for a bag: the code and the bag. *)
Definition vlan_spec (forced : bool) (opcode vlan : Z) (m : gmultiset Z) : Z * gmultiset Z :=
  if opcode =? QED_FILTER_REMOVE then if decide (vlan ∈ m) then (0, m ∖ {[+ vlan +]}) else (- EINVAL, m)
  else if opcode =? QED_FILTER_FLUSH then (0, ∅)
  else if opcode =? QED_FILTER_REPLACE then (0, if forced then ∅ else {[+ vlan +]})
  else if opcode =? QED_FILTER_ADD then
    if forced then (0, m) else if Nat.ltb (size m) num_vlans then (0, m ⊎ {[+ vlan +]}) else (- EINVAL, m)
  else (0, m).

Lemma find_first_spec {A} (f : A -> bool) (l : list A) : forall i,
  match find_first f i l with
  | None => Forall (fun x => f x = false) l
  | Some j => exists k x, j = (i + k)%nat /\ l !! k = Some x /\ f x = true
  end.
Proof.
  induction l as [|x l IH]; intros i; simpl; [constructor|]. destruct (f x) eqn:E; [exists 0%nat, x; split; [lia|done]|].
  specialize (IH (S i)). destruct (find_first f (S i) l) as [j|]; [|by constructor]. destruct IH as (k & y & -> & Hk & Hf). exists (S k), y. split; [lia|done].
Qed.

Lemma bag_insert l : forall k w v, l !! k = Some (false, w) -> bag (<[k := (true, v)]> l) = bag l ⊎ {[+ v +]}.
Proof.
  induction l as [|[u x] l IH]; intros [|k] w v Hk; simpl in *; simplify_eq; [multiset_solver|]. rewrite (IH _ _ _ Hk). multiset_solver.
Qed.

Lemma bag_drop l : forall k v, l !! k = Some (true, v) -> v ∈ bag l /\ bag (alter (fun e => (false, snd e)) k l) = bag l ∖ {[+ v +]}.
Proof.
  induction l as [|[u x] l IH]; intros [|k] v Hk; simpl in Hk; simplify_eq; [simpl; multiset_solver|]. destruct (IH _ _ Hk) as [E1 E2].
  change (alter _ (S k) _) with ((u, x) :: alter (fun e => (false, snd e)) k l). cbn [bag]. rewrite E2. destruct u; multiset_solver.
Qed.

Lemma bag_absent l v : Forall (fun e => fst e && (snd e =? v) = false) l -> v ∉ bag l.
Proof.
  induction 1 as [|[u x] l H _ IH]; simpl in *; [multiset_solver|]. destruct u; [|multiset_solver].
  assert (x ≠ v) by (intros ->; rewrite Z.eqb_refl in H; discriminate). multiset_solver.
Qed.

Lemma bag_clear (l : list (bool * Z)) : bag (map (fun e => (false, snd e)) l) = ∅.
Proof. induction l as [|[u v] l IH]; simpl; [done|]. rewrite IH. multiset_solver. Qed.

Lemma bag_size l : (size (bag l) <= length l)%nat.
Proof.
  induction l as [|[u v] l IH]; cbn [bag length]; [rewrite gmultiset_size_empty; lia|]. rewrite gmultiset_size_disj_union.
  destruct u; [rewrite gmultiset_size_singleton|rewrite gmultiset_size_empty]; lia.
Qed.

Lemma bag_full l : Forall (fun e => negb (fst e) = false) l -> size (bag l) = length l.
Proof.
  induction 1 as [|[u v] l H _ IH]; cbn [bag length]; [apply gmultiset_size_empty|]. destruct u; [|done].
  rewrite gmultiset_size_disj_union, gmultiset_size_singleton. lia.
Qed.

Lemma bag_room l k w : l !! k = Some (false, w) -> (size (bag l) < length l)%nat.
Proof.
  intros H. pose proof (bag_insert _ _ _ 0 H) as E. apply (f_equal size) in E. rewrite gmultiset_size_disj_union, gmultiset_size_singleton in E.
  pose proof (bag_size (<[k := (true, 0)]> l)) as B. rewrite length_insert in B. lia.
Qed.

Definition shadow_ok c : Prop := length (vlans c) = num_vlans.

Local Ltac by_cases := split_and!; (done || congruence).

(** The update follows the specification; an error changes nothing. *)
Lemma vlan_shadow_spec forced opcode vlan c : shadow_ok c ->
  let '(rc, c') := qed_iov_vf_update_vlan_shadow forced opcode vlan c in
  (rc, bag (vlans c')) = vlan_spec forced opcode vlan (bag (vlans c)) /\ shadow_ok c' /\ macs c' = macs c /\ (rc ≠ 0 -> c' = c).
Proof.
  intros Hok. unfold qed_iov_vf_update_vlan_shadow, vlan_spec, shadow_ok in *. destruct (Z.eqb_spec opcode QED_FILTER_REMOVE) as [->|Hrem].
  - pose proof (find_first_spec (fun e => fst e && (snd e =? vlan)) (vlans c) 0) as F. destruct (find_first _ 0 (vlans c)) as [j|].
    + destruct F as (k & [u v] & -> & Hk & Hf). simpl in Hf. destruct u; [|done]. apply Z.eqb_eq in Hf as ->. destruct (bag_drop _ _ _ Hk) as [Hin E].
      rewrite decide_True by done. simpl. destruct forced; simpl; rewrite E, length_alter; by_cases.
    + rewrite decide_False by by apply bag_absent. by_cases.
  - destruct (Z.eqb_spec opcode QED_FILTER_FLUSH) as [->|Hfl]; simpl.
    { destruct forced; simpl; rewrite ?bag_clear, ?length_map; by_cases. }
    rewrite orb_false_r. destruct (Z.eqb_spec opcode QED_FILTER_REPLACE) as [->|Hrep]; simpl.
    { destruct forced; simpl; [rewrite bag_clear, length_map; by_cases|].
      pose proof (find_first_spec (fun e : bool * Z => negb (fst e)) (map (fun e => (false, snd e)) (vlans c)) 0) as F. destruct (find_first _ 0 _) as [j|].
      - destruct F as (k & [u v] & -> & Hk & Hf). simpl in Hf. destruct u; [done|]. simpl. rewrite (bag_insert _ _ _ _ Hk), bag_clear, length_insert, length_map.
        split; [f_equal; multiset_solver|]. by_cases.
      - apply bag_full in F. rewrite bag_clear, gmultiset_size_empty, length_map in F. unfold num_vlans, QED_ETH_VF_NUM_VLAN_FILTERS in *. lia. }
    rewrite orb_false_r. destruct (Z.eqb_spec opcode QED_FILTER_ADD) as [->|Hadd]; [|destruct forced; by_cases]. destruct forced; [by_cases|].
    pose proof (find_first_spec (fun e : bool * Z => negb (fst e)) (vlans c) 0) as F. destruct (find_first _ 0 _) as [j|].
    + destruct F as (k & [u v] & -> & Hk & Hf). simpl in Hf. destruct u; [done|]. pose proof (bag_room _ _ _ Hk). simpl. rewrite (bag_insert _ _ _ _ Hk), length_insert.
      replace (Nat.ltb _ _) with true by (symmetry; apply Nat.ltb_lt; lia). by_cases.
    + apply bag_full in F. replace (Nat.ltb _ _) with false by (symmetry; apply Nat.ltb_ge; lia). by_cases.
Qed.

(** ** What the PF forces *)

Lemma forced_vlans opcode vlan (m : gmultiset Z) : snd (vlan_spec true opcode vlan m) ⊆ m.
Proof. unfold vlan_spec. repeat case_match; simpl; multiset_solver. Qed.

Lemma unicast_shadow_spec p type opcode mac vlan c : shadow_ok c ->
  let '(rc, c') := qed_iov_vf_update_unicast_shadow p type opcode mac vlan c in
  shadow_ok c' /\ (vlan_forced p = true -> bag (vlans c') ⊆ bag (vlans c)) /\ (mac_forced p = true -> macs c' = macs c).
Proof.
  intros Hok. unfold qed_iov_vf_update_unicast_shadow. destruct (Z.eqb_spec type QED_FILTER_MAC) as [->|].
  - unfold qed_iov_vf_update_mac_shadow. destruct (mac_forced p); [simpl; by_cases|]. repeat case_match; simplify_eq; simpl; by_cases.
  - simpl. destruct (type =? QED_FILTER_VLAN); [|by_cases]. pose proof (vlan_shadow_spec (vlan_forced p) opcode vlan c Hok) as S.
    destruct (qed_iov_vf_update_vlan_shadow _ _ _ _) as [rc c']. destruct S as (E & S1 & S2 & _). split; [done|]. split; [|done].
    intros Hf. rewrite Hf in E. apply (f_equal snd) in E. simpl in E. rewrite E. apply forced_vlans.
Qed.

(** The calls that are allowed under a policy. *)
Definition call_allowed p (call : vf_call) : Prop :=
  match call with
  | FilterUcast t _ _ _ => vport_instance p = true /\ (t = QED_FILTER_VLAN \/ t = QED_FILTER_MAC_VLAN -> vlan_forced p = false) /\
      (t = QED_FILTER_MAC \/ t = QED_FILTER_MAC_VLAN -> mac_forced p = false)
  | StoreMac _ => mac_forced p = false
  | BulletinSetMac _ => mac_forced p = false /\ free_mac_change p = true
  | PostBulletin => free_mac_change p = true
  end.

Lemma verdict_allowed p sp type opcode mac vlan c : shadow_ok c ->
  let '(status, c', calls) := ucast_filter_verdict p sp type opcode mac vlan c in
  0 < status < 256 /\ shadow_ok c' /\ (vlan_forced p = true -> bag (vlans c') ⊆ bag (vlans c)) /\ (mac_forced p = true -> macs c' = macs c) /\
  Forall (call_allowed p) calls.
Proof.
  intros Hok. unfold ucast_filter_verdict. destruct (vport_instance p) eqn:Ev; simpl; [|split_and!; (done || constructor)].
  pose proof (unicast_shadow_spec p type opcode mac vlan c Hok) as S. destruct (qed_iov_vf_update_unicast_shadow _ _ _ _ _ _) as [rc c'].
  destruct S as (S1 & S2 & S3). destruct (rc =? 0); simpl; [|split_and!; (done || constructor)].
  destruct (vlan_forced p && _) eqn:E1; [case_match; split_and!; (done || constructor)|].
  destruct (mac_forced p && _) eqn:E2; [case_match; split_and!; (done || constructor)|].
  assert (A : Forall (call_allowed p) (snd (qed_iov_chk_ucast p type mac)) /\ call_allowed p (FilterUcast type opcode mac vlan)).
  { split.
    - unfold qed_iov_chk_ucast. repeat case_match; repeat constructor; simpl; try done; destruct (mac_forced p); (done || by rewrite H0 in E2).
    - split; [done|]. split; intros [->| ->]; [destruct (vlan_forced p)..|destruct (mac_forced p)|destruct (mac_forced p)]; done. }
  destruct A as [A1 A2]. destruct (qed_iov_chk_ucast p type mac) as [rc' calls]. simpl in A1.
  destruct (rc' =? - EEXIST); [by_cases|]. destruct (rc' =? - EINVAL); [by_cases|].
  destruct (sp =? 0); split_and!; try done; apply Forall_app; auto.
Qed.

(** ** Bulletins *)

Inductive bull_op :=
  | BUpdate (content : list Z)   (* the PF changes what it has to tell *)
  | BPost (dmae : Z)             (* and posts it; the code of the transfer *)
  | BRead.                       (* the VF looks *)

Record bull := mk_bull { pf_bull : bulletin; vf_mem : bulletin; vf_shadow : bulletin }.

Section Bulletins.
Variable crc32 : Z -> list Z -> Z.
Variable vf_bulletin : Z.

Definition bull_exec (o : bull_op) (s : bull) : bull :=
  match o with
  | BUpdate content => mk_bull (mk_bulletin (bull_crc (pf_bull s)) (bull_version (pf_bull s)) content) (vf_mem s) (vf_shadow s)
  | BPost dmae =>
      let '(_, p, t) := qed_iov_post_vf_bulletin crc32 true vf_bulletin dmae (pf_bull s) in
      mk_bull p (match t with Some t => t | None => vf_mem s end) (vf_shadow s)
  | BRead => let '(_, _, sh) := qed_vf_read_bulletin crc32 (vf_mem s) (vf_shadow s) in mk_bull (pf_bull s) (vf_mem s) sh
  end.
Definition bull_run (l : list bull_op) (s : bull) : bull := fold_left (fun s o => bull_exec o s) l s.

(** Nothing posted yet. *)
Definition bull_init (content : list Z) : bull := let b := mk_bulletin 0 0 content in mk_bull b b b.

(** [n] bulletins were made. *)
Record bull_inv (n : Z) (s : bull) : Prop := {
  bi_pf : bull_version (pf_bull s) <= n;
  bi_mem : bull_version (vf_mem s) <= bull_version (pf_bull s);
  bi_shadow : 0 <= bull_version (vf_shadow s) <= bull_version (vf_mem s);
  bi_same : bull_version (vf_shadow s) = bull_version (vf_mem s) -> vf_shadow s = vf_mem s;
  bi_crc : 0 < bull_version (vf_mem s) -> qed_iov_vf_bulletin_crc crc32 (vf_mem s) = bull_crc (vf_mem s)
}.

Lemma bull_read n s : bull_inv n s ->
  qed_vf_read_bulletin crc32 (vf_mem s) (vf_shadow s) = (0, negb (bull_version (vf_mem s) =? bull_version (vf_shadow s)), vf_mem s).
Proof.
  intros [_ _ Hs Hsame Hcrc]. unfold qed_vf_read_bulletin. destruct (Z.eqb_spec (bull_version (vf_mem s)) (bull_version (vf_shadow s))) as [E|E]; simpl.
  - by rewrite Hsame.
  - rewrite Hcrc by lia. by rewrite Z.eqb_refl.
Qed.

Lemma bull_exec_inv o n s : bull_inv n s -> n + 1 < 2 ^ 32 -> bull_inv (n + 1) (bull_exec o s).
Proof.
  intros I Hn. destruct o as [content|dmae|]; cbn [bull_exec].
  - destruct I. split; simpl; (done || lia).
  - unfold qed_iov_post_vf_bulletin. destruct I as [I1 I2 I3 I4 I5]. repeat case_match; simplify_eq; (split; simpl; try (done || lia)); rewrite ?u32_small by lia; try lia; intros; lia.
  - rewrite (bull_read _ _ I). destruct I as [I1 I2 I3 I4 I5]. split; simpl; (done || lia).
Qed.

Lemma bull_run_inv l : forall n s, bull_inv n s -> n + Z.of_nat (length l) < 2 ^ 32 -> bull_inv (n + Z.of_nat (length l)) (bull_run l s).
Proof.
  induction l as [|o l IH]; intros n s I Hn; cbn [length] in *; [by rewrite Z.add_0_r|].
  replace (n + Z.of_nat (S (length l))) with (n + 1 + Z.of_nat (length l)) by lia. apply IH; [apply bull_exec_inv; [done|lia]|lia].
Qed.

Lemma bull_init_inv content : bull_inv 0 (bull_init content).
Proof. split; simpl; (done || lia). Qed.
End Bulletins.
