(* ===== verification/VfClaims.v ===== *)
(** * The channel between virtual and physical function: what holds (qed_vf.c, qed_sriov.c) *)

From stdpp Require Import gmultiset.
From S2P Require Import Prelude Vfpf VfTlv VfChan VfVport VfShadow.

(** ** Handlers *)

Lemma verdict_status p sp type opcode mac vlan c : 0 < fst (fst (ucast_filter_verdict p sp type opcode mac vlan c)) < 256.
Proof. unfold ucast_filter_verdict. repeat case_match; simpl; unfold PFVF_STATUS_FAILURE, PFVF_STATUS_SUCCESS, PFVF_STATUS_FORCED; lia. Qed.

(** What the PF keeps of a VF for these handlers. *)
Record pf_state := mk_pf_state { pf_shadow : qed_vf_shadow_config; pf_vf : qed_vf_info; pf_pub : option qed_public_vf_info }.

Section Handler.
Variable size : Z.
Hypothesis size_ok : 16 <= size /\ size mod 4 = 0.
Variables (p : vf_policy) (fpga vzalloc : bool) (sp : Z).

(** The PF with the handlers of unicast filters and of vport updates. *)
Definition pf_answer (h : vf_handler) (s : pf_state) (mbx : qed_iov_vf_mbx) : option (pf_state * vf_answer) :=
  match h with
  | H_vf_mbx_ucast_filter => '(m, _, c, _) ← qed_iov_vf_mbx_ucast_filter p sp (pf_shadow s) mbx; Some (mk_pf_state c (pf_vf s) (pf_pub s), as_answer m)
  | H_vf_mbx_vport_update => '(m, _, out) ← qed_iov_vf_mbx_vport_update fpga vzalloc sp (pf_vf s) (pf_pub s) mbx; Some (mk_pf_state (pf_shadow s) (out_vf out) (out_pub out), as_answer m)
  | _ => Some (s, NoAnswer)
  end.

(** A mailbox with another response. *)
Definition redone (mbx m : qed_iov_vf_mbx) : Prop := reply_ok size m /\ req_virt m = req_virt mbx.

Lemma add_redone type len mbx m r : mbx_add_tlv type len m = Some r -> redone mbx m -> redone mbx (snd r).
Proof.
  intros E [H1 H2]. pose proof (add_keeps size _ _ _ _ E H1) as K. split; [done|]. unfold mbx_add_tlv in E. by apply bind_Some in E as ([[st b] o] & _ & [= <-]).
Qed.

Lemma set_redone off v mbx m r : set8 off v (reply_virt m) = Some r -> redone mbx m -> redone mbx (m <| reply_virt := r |>).
Proof. intros E [(H1 & H2 & H3) H4]. apply set8_keeps in E as [L B]. split; [|done]. split; [simpl; by rewrite L|]. split; [simpl; auto|done]. Qed.

Lemma loop_redone n st mask acc mbx : forall i t m r, vp_resp_loop n i st mask acc t m = Some r -> redone mbx m -> redone mbx (snd r).
Proof.
  induction n as [|n IH]; intros i t m r E H; cbn [vp_resp_loop] in E; [by injection E as <-|]. destruct (negb _); [by eapply IH|].
  apply bind_Some in E as ([o m1] & E1 & E). apply bind_Some in E as (b & E2 & E). eapply IH; [exact E|]. apply (set_redone _ _ _ _ _ E2).
  by apply (add_redone _ _ _ _ _ E1).
Qed.

Lemma prepare_split type len st mbx r : qed_iov_prepare_resp type len st mbx = Some r -> reply_ok size mbx -> exists m, redone mbx m /\ qed_iov_send_response st m = Some r.
Proof.
  unfold qed_iov_prepare_resp. intros E Hr. apply bind_Some in E as ([o1 m1] & E1 & E). apply bind_Some in E as ([o2 m2] & E2 & E). exists m2. split; [|done].
  apply (add_redone _ _ _ _ _ E2), (add_redone _ _ _ _ _ E1). by split.
Qed.

Lemma prep_vp_redone st mask acc mbx r : qed_iov_prep_vp_update_resp_tlvs st mask acc mbx = Some r -> reply_ok size mbx -> redone mbx (snd r).
Proof.
  unfold qed_iov_prep_vp_update_resp_tlvs. intros E (H1 & H2 & H3). apply bind_Some in E as ([o1 m1] & E1 & E). apply bind_Some in E as ([o2 m2] & E2 & E).
  apply bind_Some in E as ([o3 m3] & E3 & [= <-]). apply (add_redone _ _ _ _ _ E3), (loop_redone _ _ _ _ _ _ _ _ _ E2), (add_redone _ _ _ _ _ E1).
  split; [|done]. split; [simpl; by rewrite length_replicate|]. split; [simpl; apply Forall_replicate; lia|done].
Qed.

(** The handlers, run as answers, leave the mailbox and act as they do themselves. *)
Lemma ucast_answers s mbx m acts c calls : reply_ok size mbx -> qed_iov_vf_mbx_ucast_filter p sp (pf_shadow s) mbx = Some (m, acts, c, calls) ->
  handle pf_answer H_vf_mbx_ucast_filter s mbx = Some (mk_pf_state c (pf_vf s) (pf_pub s), m, acts).
Proof.
  intros Hr E. unfold handle, pf_answer. rewrite E. cbn [mbind option_bind]. unfold qed_iov_vf_mbx_ucast_filter in E.
  apply bind_Some in E as (o & _ & E). apply bind_Some in E as (t & _ & E). apply bind_Some in E as (mac & _ & E). apply bind_Some in E as (v & _ & E).
  destruct (ucast_filter_verdict _ _ _ _ _ _ _) as [[st c2] cl2]. apply bind_Some in E as ([m1 a1] & E & [= <- <- <- <-]).
  apply prepare_split in E as (m0 & [R Q] & E); [|done]. by rewrite (handler_answers size mbx m0 m1 st a1 size_ok Hr R Q E).
Qed.

Lemma vport_answers s mbx m acts out : reply_ok size mbx -> qed_iov_vf_mbx_vport_update fpga vzalloc sp (pf_vf s) (pf_pub s) mbx = Some (m, acts, out) ->
  handle pf_answer H_vf_mbx_vport_update s mbx = Some (mk_pf_state (pf_shadow s) (out_vf out) (out_pub out), m, acts).
Proof.
  intros Hr E. unfold handle, pf_answer. rewrite E. cbn [mbind option_bind]. unfold qed_iov_vf_mbx_vport_update in E.
  apply bind_Some in E as (o & _ & E). apply bind_Some in E as ([total m0] & E0 & E). apply bind_Some in E as ([m1 a1] & E & [= <- <- <-]).
  apply prep_vp_redone in E0 as [R Q]; [|done]. by rewrite (handler_answers size mbx m0 m1 _ a1 size_ok Hr R Q E).
Qed.
End Handler.

(** ** Lists of TLVs *)

(** C35: a request written TLV by TLV with [qed_add_tlv] up to the end marker, whose
    TLVs fit the buffer, is read back by the other side: whatever is stored in the
    bodies afterwards, the search for a type returns the first TLV of that type, and
    NULL exactly when the list has none. *)
Theorem tlv_list_found l b req : l ≠ [] -> Forall tlv_ok l -> tlv_sizes l + sizeof_list_end <= TLV_BUFFER_SIZE -> TLV_BUFFER_SIZE <= Z.of_nat (length b) ->
  exists b1, build 0 l b = Some b1 /\
    forall b2, (forall o, in_headers 0 l o -> get8 o b2 = get8 o b1) -> qed_iov_search_list_tlvs req b2 = Some (find_tlv 0 l req).
Proof.
  intros Hl Hok Hs Hb. destruct (build_spec l 0 b Hok) as (b1 & E & _ & A & _); [lia|lia|]. exists b1. split; [done|]. intros b2 H2.
  apply search_found; [done..|]. by apply (tlvs_at_ext l 0 b1 b2).
Qed.

Definition request_tlvs : list (Z * Z) := [(CHANNEL_TLV_VPORT_UPDATE, 16); (CHANNEL_TLV_VPORT_UPDATE_ACTIVATE, 8); (CHANNEL_TLV_VPORT_UPDATE_RSS, 308)].

Lemma tlv_list_found_witness : find_tlv 0 request_tlvs CHANNEL_TLV_VPORT_UPDATE_RSS = Some 24 /\
  exists b1, build 0 request_tlvs (replicate 1024 0) = Some b1 /\
    forall b2, (forall o, in_headers 0 request_tlvs o -> get8 o b2 = get8 o b1) ->
      qed_iov_search_list_tlvs CHANNEL_TLV_VPORT_UPDATE_RSS b2 = Some (find_tlv 0 request_tlvs CHANNEL_TLV_VPORT_UPDATE_RSS).
Proof.
  split; [reflexivity|]. apply (tlv_list_found request_tlvs (replicate 1024 0) CHANNEL_TLV_VPORT_UPDATE_RSS); [done| |by vm_compute|by vm_compute].
  unfold request_tlvs, tlv_ok. repeat constructor; simpl; (done || lia).
Defined.

(** C36: on any bytes a VF may send, the search for a TLV ends within 1026 rounds and
    reads nothing beyond 64 KB and four bytes past the buffer (it does read up to there:
    [tlv_search_reads_outside]); what it returns has the type asked for and, unless it
    is the first TLV of the request, a length that is not zero and ends in the buffer.
    The length of the first TLV is not checked ([first_tlv_length_unchecked]). *)
Theorem tlv_search_bounded b req : bytes b -> TLV_BUFFER_SIZE + 65536 + 4 <= Z.of_nat (length b) ->
  exists r, qed_iov_search_list_tlvs req b = Some r /\
    forall o, r = Some o -> tlv_type o b = Some req /\ (o = 0 \/ exists n, tlv_length o b = Some n /\ 0 < n /\ o + n <= TLV_BUFFER_SIZE).
Proof.
  intros Hb Hl. unfold qed_iov_search_list_tlvs. apply search_any; [done|done|unfold TLV_BUFFER_SIZE; lia| |by left].
  rewrite search_fuel_value. unfold TLV_BUFFER_SIZE. lia.
Qed.

Definition hostile : buffer := [3; 0; 255; 255] ++ replicate (Z.to_nat 67000) 0.

Lemma tlv_search_bounded_witness : exists r, qed_iov_search_list_tlvs CHANNEL_TLV_VPORT_UPDATE_RSS hostile = Some r /\
    forall o, r = Some o -> tlv_type o hostile = Some CHANNEL_TLV_VPORT_UPDATE_RSS /\
      (o = 0 \/ exists n, tlv_length o hostile = Some n /\ 0 < n /\ o + n <= TLV_BUFFER_SIZE).
Proof.
  apply (tlv_search_bounded hostile CHANNEL_TLV_VPORT_UPDATE_RSS).
  - unfold hostile, bytes. apply Forall_app. split; [repeat constructor; lia|]. apply Forall_replicate. lia.
  - unfold hostile. rewrite length_app, length_replicate. unfold TLV_BUFFER_SIZE. simpl length. lia.
Defined.

(** The search does read past the buffer: a first TLV of the greatest length takes it
    64 KB further before the first check. *)
Theorem tlv_search_reads_outside : qed_iov_search_list_tlvs CHANNEL_TLV_VPORT_UPDATE_RSS ([3; 0; 255; 255] ++ replicate 1020 0) = None.
Proof. by vm_compute. Qed.

(** A first TLV of the type asked for is returned whatever its length. *)
Theorem first_tlv_length_unchecked : let b := [20; 0; 255; 255] ++ replicate 1020 0 in
  qed_iov_search_list_tlvs CHANNEL_TLV_VPORT_UPDATE_RSS b = Some (Some 0) /\ tlv_length 0 b = Some 65535 /\ TLV_BUFFER_SIZE = Z.of_nat (length b).
Proof. by vm_compute. Qed.

(** The walk that prints a list may go round for ever: its 16-bit sum of lengths
    wraps to zero. *)
Theorem tlv_walk_never_ends fuel : dp_tlv_loop fuel 0 ([3; 0; 16; 0] ++ replicate 12 0 ++ [15; 0; 240; 255] ++ replicate 1004 0) = None.
Proof.
  set (b := _ ++ _).
  assert (H0 : tlv_type 0 b = Some 3 /\ tlv_length 0 b = Some 16) by by vm_compute.
  assert (H1 : tlv_type 16 b = Some 15 /\ tlv_length 16 b = Some 65520) by by vm_compute.
  clearbody b. destruct H0 as [T0 L0], H1 as [T1 L1].
  assert (R : dp_tlv_loop fuel 0 b = None /\ dp_tlv_loop fuel 16 b = None); [|apply R].
  induction fuel as [|f [IH1 IH2]]; [done|]. cbn [dp_tlv_loop]. rewrite T0, L0, T1, L1. split; [exact IH2|exact IH1].
Qed.

(** ** The channel *)

(** Buffers of [n] bytes, cleared; the channel ready; nothing in flight. *)
Definition chan_init {P} (n : nat) (phys : Z) (p : P) : chan P :=
  mk_chan P false (mk_qed_vf_iov 0 (replicate n 0) (replicate n 0) phys) true false (mk_qed_iov_vf_mbx (replicate n 0) (replicate n 0) 0 false) p [] [] 0 0.

Lemma chan_init_inv {P} answer b_malicious has_error acquired n phys (p : P) : 16 <= Z.of_nat n ->
  inv answer b_malicious has_error acquired (Z.of_nat n) (chan_init n phys p).
Proof.
  intros Hn. split; simpl; [by rewrite length_replicate|split; [by rewrite length_replicate|apply Forall_replicate; lia]|constructor|].
  by apply Idle.
Qed.

(** C16: in every interleaving of the VF, the channel and the PF in which the VF has
    not given up on a request and no transfer of a response has failed, whatever the
    handlers answer (each at most once, in [qed_iov_send_response]): the VF takes for
    the response to a request only the whole response the PF made to that request;
    when the VF waits for nothing, the channel is ready and nothing is in flight; and
    a response the PF has begun to send reaches the VF, if its status is not zero.
    After a time-out or a failed transfer the VF may take something else
    ([late_response_misread], [failed_copy_misread]). *)
Theorem channel_replies_own {P} answer b_malicious has_error acquired n phys (p : P) l s :
  16 <= Z.of_nat n /\ Z.of_nat n mod 4 = 0 ->
  chan_run answer b_malicious has_error acquired l (chan_init n phys p) = Some s -> timeouts s = 0%nat -> failures s = 0%nat ->
  Forall (fun e => response_to answer b_malicious has_error acquired (fst e) (snd e) /\ exists st, get8 status_offset (snd e) = Some st /\ st ≠ 0) (log s) /\
  (waiting s = false -> ready s = true /\ event s = false /\ b_pending_msg (mbox s) = false /\ todo s = []) /\
  (todo s ≠ [] -> get8 status_offset (reply_virt (mbox s)) ≠ Some 0 ->
     exists s', chan_run answer b_malicious has_error acquired (replicate (length (todo s)) OMicro ++ [OSeen]) s = Some s' /\
     waiting s' = false /\ log s' = log s ++ [(vf2pf_request (iov s), reply_virt (mbox s))]).
Proof.
  intros Hn E Ht Hf. pose proof (chan_init_inv answer b_malicious has_error acquired n phys p (proj1 Hn)) as I0.
  assert (M : mishaps s = mishaps (chan_init n phys p)) by (unfold mishaps; by rewrite Ht, Hf).
  pose proof (chan_run_inv _ _ _ _ _ Hn _ _ _ I0 E M) as I. pose proof I as [_ _ L Ph].
  split; [exact L|]. split; [|by apply (response_arrives _ _ _ _ _ Hn)].
  intros Hw. destruct Ph; (congruence || by auto).
Qed.

(** A VF without a forced address, and its request to add a MAC. *)
Definition demo_policy : vf_policy := mk_vf_policy false false 0 false true true.
Definition demo_shadow : qed_vf_shadow_config := mk_qed_vf_shadow_config (replicate 3 (false, 0)) [0].
Definition demo_payload : list Z := [0; 0; 2; 0; 0; 0; 0; 1; 0; 0; 0; 0; 0; 0; 0; 0].
Definition demo_answer : vf_handler -> pf_state -> qed_iov_vf_mbx -> option (pf_state * vf_answer) := pf_answer demo_policy false true 0.
Definition demo_init : chan pf_state := chan_init 32 4096 (mk_pf_state demo_shadow vport_vf None).
Definition demo_run (l : list chan_op) : option (chan pf_state) := chan_run demo_answer (fun _ => false) (fun _ => false) (fun _ => 0) l demo_init.
Definition demo_begun : chan pf_state :=
  default demo_init (demo_run [OSend CHANNEL_TLV_UCAST_FILTER 32 demo_payload; OEvent; OProcess; OMicro]).

Lemma channel_replies_own_witness : (length (todo demo_begun) = 8)%nat /\
  Forall (fun e => response_to demo_answer (fun _ => false) (fun _ => false) (fun _ => 0) (fst e) (snd e) /\ exists st, get8 status_offset (snd e) = Some st /\ st ≠ 0) (log demo_begun) /\
  (waiting demo_begun = false -> ready demo_begun = true /\ event demo_begun = false /\ b_pending_msg (mbox demo_begun) = false /\ todo demo_begun = []) /\
  (todo demo_begun ≠ [] -> get8 status_offset (reply_virt (mbox demo_begun)) ≠ Some 0 ->
     exists s', chan_run demo_answer (fun _ => false) (fun _ => false) (fun _ => 0) (replicate (length (todo demo_begun)) OMicro ++ [OSeen]) demo_begun = Some s' /\
     waiting s' = false /\ log s' = log demo_begun ++ [(vf2pf_request (iov demo_begun), reply_virt (mbox demo_begun))]).
Proof.
  split; [vm_compute; reflexivity|].
  apply (channel_replies_own demo_answer (fun _ => false) (fun _ => false) (fun _ => 0) 32 4096 (mk_pf_state demo_shadow vport_vf None)
    [OSend CHANNEL_TLV_UCAST_FILTER 32 demo_payload; OEvent; OProcess; OMicro]).
  - by vm_compute.
  - vm_compute. reflexivity.
  - vm_compute. reflexivity.
  - vm_compute. reflexivity.
Defined.

(** A response that is late is taken for the response to the next request: the VF
    gives up on a unicast filter, starts a vport update, and gets the response to the
    filter for it. *)
Theorem late_response_misread : exists req rep s,
  demo_run ([OSend CHANNEL_TLV_UCAST_FILTER 32 demo_payload; OEvent; OProcess; OTimeout; OSend CHANNEL_TLV_VPORT_UPDATE 16 (replicate 16 0)] ++ replicate 9 OMicro ++ [OSeen]) = Some s /\
  log s = [(req, rep)] /\ tlv_type 0 req = Some CHANNEL_TLV_VPORT_UPDATE /\ tlv_type 0 rep = Some CHANNEL_TLV_UCAST_FILTER /\ get8 status_offset rep = Some PFVF_STATUS_SUCCESS.
Proof. do 3 eexists. split; [vm_compute; reflexivity|]. vm_compute. by split_and!. Qed.

(** A response of which the first transfer fails is taken all the same: the code of
    the transfer is not looked at, the second publishes the status, and the VF takes
    success with an empty list instead of the response of the PF. *)
Theorem failed_copy_misread : exists req rep s,
  demo_run [OSend CHANNEL_TLV_UCAST_FILTER 32 demo_payload; OEvent; OProcess; OFail; OMicro; OMicro; OMicro; OSeen] = Some s /\
  log s = [(req, rep)] /\ timeouts s = 0%nat /\ failures s = 1%nat /\ get8 status_offset rep = Some PFVF_STATUS_SUCCESS /\
  tlv_type 8 (reply_virt (mbox s)) = Some CHANNEL_TLV_LIST_END /\ tlv_type 8 rep = Some 0 /\ tlv_length 8 rep = Some 0.
Proof. do 3 eexists. split; [vm_compute; reflexivity|]. vm_compute. by split_and!. Qed.

(** A type that is known but has no handler is not answered, and the channel is not
    made ready again. *)
Theorem unhandled_type_unanswered {P} handle (pf : P) has_error acquired mbx type : type ∈ [CHANNEL_TLV_LIST_END; CHANNEL_TLV_QID; CHANNEL_TLV_VPORT_UPDATE_RSS] ->
  b_pending_msg mbx = true -> tlv_type 0 (req_virt mbx) = Some type -> is_Some (reply_address (req_virt mbx)) ->
  qed_iov_process_mbx_req handle true false has_error acquired pf mbx = Some (pf, mbx <| b_pending_msg := false |>, []).
Proof.
  intros Ht Hp Et [a Ea]. unfold qed_iov_process_mbx_req. rewrite Hp. simpl. rewrite Et, Ea. simpl.
  repeat (apply elem_of_cons in Ht as [->|Ht]; [reflexivity|]). by apply elem_of_nil in Ht.
Qed.

(** ** Bulletins *)

(** C38: after any updates, posts (with any outcome of the transfer) and reads, fewer
    than 2^32 in all, transfers being whole: what the VF reads is accepted and becomes its copy; and when
    the PF posts a bulletin that is transferred, the next read reports a change and
    gives the VF exactly what the PF had to tell. *)
Theorem bulletin_delivered crc32 vf_bulletin content l : Z.of_nat (length l) + 1 < 2 ^ 32 ->
  let s := bull_run crc32 vf_bulletin l (bull_init content) in
  (exists change, qed_vf_read_bulletin crc32 (vf_mem s) (vf_shadow s) = (0, change, vf_mem s)) /\
  forall rc p t, qed_iov_post_vf_bulletin crc32 true vf_bulletin 0 (pf_bull s) = (rc, p, Some t) ->
    rc = 0 /\ t = p /\ bull_content t = bull_content (pf_bull s) /\ qed_vf_read_bulletin crc32 t (vf_shadow s) = (0, true, t).
Proof.
  intros Hl s. pose proof (bull_run_inv crc32 vf_bulletin l 0 (bull_init content) (bull_init_inv crc32 content) ltac:(lia)) as I. fold s in I.
  split; [eexists; by eapply bull_read|]. intros rc p t E.
  unfold qed_iov_post_vf_bulletin in E. repeat case_match; simplify_eq. simpl. split_and!; try done. unfold qed_vf_read_bulletin. simpl.
  destruct I as [I1 I2 I3 I4 I5]. rewrite u32_small by lia. replace (_ =? _) with false by lia. unfold qed_iov_vf_bulletin_crc. simpl. by rewrite Z.eqb_refl.
Qed.

(** Bytes and a version, summed. *)
Definition demo_crc (version : Z) (content : list Z) : Z := 1 + version + foldr Z.add 0 content.

Lemma bulletin_delivered_witness :
  let s := bull_run demo_crc 4096 [BUpdate [7; 8]; BPost 0; BRead; BUpdate [9]] (bull_init []) in
  (exists change, qed_vf_read_bulletin demo_crc (vf_mem s) (vf_shadow s) = (0, change, vf_mem s)) /\
  forall rc p t, qed_iov_post_vf_bulletin demo_crc true 4096 0 (pf_bull s) = (rc, p, Some t) ->
    rc = 0 /\ t = p /\ bull_content t = bull_content (pf_bull s) /\ qed_vf_read_bulletin demo_crc t (vf_shadow s) = (0, true, t).
Proof. apply (bulletin_delivered demo_crc 4096 [] [BUpdate [7; 8]; BPost 0; BRead; BUpdate [9]]). by vm_compute. Defined.

(** A bulletin whose transfer fails is not posted again: its checksum is already the
    one on record, so that the next post returns 0 and does nothing. *)
Theorem failed_bulletin_not_reposted crc32 vf_bulletin dmae dmae' p p1 t : vf_bulletin ≠ 0 -> dmae ≠ 0 -> crc32 (bull_version p) (bull_content p) ≠ bull_crc p ->
  qed_iov_post_vf_bulletin crc32 true vf_bulletin dmae p = (dmae, p1, t) ->
  t = None /\ qed_iov_post_vf_bulletin crc32 true vf_bulletin dmae' p1 = (0, p1, None).
Proof.
  intros Hv Hd Hc. unfold qed_iov_post_vf_bulletin, qed_iov_vf_bulletin_crc. simpl negb. cbv iota. replace (vf_bulletin =? 0) with false by lia. replace (crc32 _ _ =? _) with false by lia.
  replace (dmae =? 0) with false by lia. intros [= <- <-]. simpl. by rewrite Z.eqb_refl.
Qed.

(** ** Filters *)

(** C39: the array of a VF's VLANs implements a bag of at most three: adding takes a
    free place or fails, removing takes one occurrence out or fails, replacing and
    flushing empty it first, a forced VLAN only ever lets go; a failure changes
    nothing. *)
Theorem vlan_shadow_refines forced opcode vlan c : shadow_ok c ->
  let '(rc, c') := qed_iov_vf_update_vlan_shadow forced opcode vlan c in
  (rc, bag (vlans c')) = vlan_spec forced opcode vlan (bag (vlans c)) /\ shadow_ok c' /\ macs c' = macs c /\ (rc ≠ 0 -> c' = c).
Proof. apply vlan_shadow_spec. Qed.

Lemma vlan_shadow_refines_witness :
  let '(rc, c') := qed_iov_vf_update_vlan_shadow false QED_FILTER_ADD 100 demo_shadow in
  (rc, bag (vlans c')) = vlan_spec false QED_FILTER_ADD 100 (bag (vlans demo_shadow)) /\ shadow_ok c' /\ macs c' = macs demo_shadow /\ (rc ≠ 0 -> c' = demo_shadow).
Proof. apply (vlan_shadow_refines false QED_FILTER_ADD 100 demo_shadow). reflexivity. Defined.

(** C40: whatever bytes a VF puts in a unicast filter request, no filter for a VLAN goes
    to the firmware while the PF forces a VLAN and none for a MAC while it forces a
    MAC, the VF's MAC is published only when the VF may change it, a forced VLAN adds
    nothing to the shadow and a forced MAC leaves its MACs alone, and the VF is
    answered with a status that is not zero. *)
Theorem ucast_filter_respects_policy size p sp c mbx mbx' acts c' calls : 16 <= size /\ size mod 4 = 0 -> shadow_ok c -> reply_ok size mbx ->
  qed_iov_vf_mbx_ucast_filter p sp c mbx = Some (mbx', acts, c', calls) ->
  Forall (call_allowed p) calls /\ shadow_ok c' /\ (vlan_forced p = true -> bag (vlans c') ⊆ bag (vlans c)) /\ (mac_forced p = true -> macs c' = macs c) /\
  acts = [CopyReply 8 size; ChannelReady; CopyReply 0 8] /\ exists st, get8 status_offset (reply_virt mbx') = Some st /\ st ≠ 0.
Proof.
  intros Hs Hc Hr E. unfold qed_iov_vf_mbx_ucast_filter in E.
  apply bind_Some in E as (o & _ & E). apply bind_Some in E as (t & _ & E). apply bind_Some in E as (mac & _ & E). apply bind_Some in E as (v & _ & E).
  pose proof (verdict_allowed p sp t o mac v c Hc) as V. destruct (ucast_filter_verdict _ _ _ _ _ _ _) as [[st c2] cl2].
  destruct V as (V1 & V2 & V3 & V4 & V5). apply bind_Some in E as ([m1 a1] & E & [= <- <- <- <-]).
  apply (prepare_responds size Hs) in E as (_ & R1 & R2); [|done]. simpl in R1, R2. split_and!; try done.
  exists (u8 st). split; [exact R2|]. rewrite u8_small; lia.
Qed.

(** A VF on which a VLAN is forced asks for another. *)
Definition forced_policy : vf_policy := mk_vf_policy true false 0 false true true.
Definition vlan_request : qed_iov_vf_mbx :=
  mk_qed_iov_vf_mbx (replicate 16 0 ++ [0; 1; 0; 0; 0; 0; 0; 0; 100; 0] ++ replicate 6 0) (replicate 32 0) 0 false.
Definition vlan_answer : qed_iov_vf_mbx * list pf_action * qed_vf_shadow_config * list vf_call :=
  default (vlan_request, [], demo_shadow, []) (qed_iov_vf_mbx_ucast_filter forced_policy 0 demo_shadow vlan_request).

Lemma ucast_filter_respects_policy_witness : let '(mbx', acts, c', calls) := vlan_answer in
  Forall (call_allowed forced_policy) calls /\ shadow_ok c' /\ (vlan_forced forced_policy = true -> bag (vlans c') ⊆ bag (vlans demo_shadow)) /\
  (mac_forced forced_policy = true -> macs c' = macs demo_shadow) /\
  acts = [CopyReply 8 32; ChannelReady; CopyReply 0 8] /\ exists st, get8 status_offset (reply_virt mbx') = Some st /\ st ≠ 0.
Proof.
  destruct vlan_answer as [[[mbx' acts] c'] calls] eqn:E.
  apply (ucast_filter_respects_policy 32 forced_policy 0 demo_shadow vlan_request mbx' acts c' calls).
  - by vm_compute.
  - reflexivity.
  - split; [reflexivity|]. split; [|reflexivity]. apply Forall_replicate. lia.
  - rewrite <- E. vm_compute. reflexivity.
Defined.

(** The shadow is updated before the firmware is asked and stays so when the firmware
    refuses: a VLAN that could not be configured is still counted, and after three such
    attempts a fourth is answered with success although nothing is asked of the
    firmware. *)
Theorem refused_vlans_fill_shadow : let req := fun sp => ucast_filter_verdict demo_policy sp QED_FILTER_VLAN QED_FILTER_ADD 0 100 in
  exists c1 c2 c3, req (- EINVAL) demo_shadow = (PFVF_STATUS_FAILURE, c1, [FilterUcast QED_FILTER_VLAN QED_FILTER_ADD 0 100]) /\
    req (- EINVAL) c1 = (PFVF_STATUS_FAILURE, c2, [FilterUcast QED_FILTER_VLAN QED_FILTER_ADD 0 100]) /\
    req (- EINVAL) c2 = (PFVF_STATUS_FAILURE, c3, [FilterUcast QED_FILTER_VLAN QED_FILTER_ADD 0 100]) /\
    req 0 c3 = (PFVF_STATUS_SUCCESS, c3, []).
Proof. intros req. do 3 eexists. by split_and!; vm_compute. Qed.

(** ** Polling *)

Lemma poll_done_reads n : forall i done, let '(_, j) := poll_done n i done in (i < j <= i + n + 1)%nat.
Proof.
  induction n as [|n IH]; intros i d; simpl; [lia|]. destruct (negb _); [lia|]. specialize (IH (S i) d). destruct (poll_done n (S i) d). lia.
Qed.

(** A request on a live channel ends after at most 403 reads of the status byte; its
    code is 0 exactly when the last of them saw a status. *)
Theorem send_msg2pf_returns done : let '(rc, reads) := qed_send_msg2pf true done in
  (reads <= 403)%nat /\ rc = if done (Nat.pred reads) =? 0 then - EBUSY else 0.
Proof.
  unfold qed_send_msg2pf, QED_VF_CHANNEL_ITERATIONS. simpl negb. pose proof (poll_done_reads 200 0 done) as R1. destruct (poll_done 200 0 done) as [b1 i1].
  pose proof (poll_done_reads 200 i1 done) as R2. destruct (poll_done 200 i1 done) as [b2 i2]. cbn [Nat.pred]. split; [lia|]. by destruct (done i2 =? 0).
Qed.
